(* ===== verification/_CoqProject ===== *)
-Q . S2P
Prelude.v
Str.v
Ip.v
Text.v
Error.v
Sniff.v
Routing.v
RouteDns.v
Octets.v
Masque.v
Prober.v
SocksWire.v
Dns.v
Upstream.v
SocksRelay.v
HttpProxy.v
Https.v
Fragment.v
Tls.v
Netstack.v
Flows.v
Session.v
WireGuard.v
Noize.v
Reconnect.v
Exit.v
Egress.v
Config.v
Account.v
Bridges.v
Provision.v
Hops.v
ZeroTrust.v
Quic.v
MasqueH2.v
Api.v
Ffi.v
Tor.v
Cli.v
Psiphon.v
