(* ===== verification/Prelude.v ===== *)
(** * Verification of the Aether core

    Aether is the native core of the BigRocket client
    ([src/native/aether/aether/src]): a SOCKS5 and HTTP proxy on the device whose
    traffic goes through a tunnel (MASQUE over QUIC or HTTP/2, or WireGuard), with
    rules that block some destinations, send others outside the tunnel and proxy
    the rest.  A client speaks SOCKS5 or HTTP to [socks.rs]; the request is decided
    by the rules of [routing.rs], with the help of the server name that [sniff.rs]
    reads in the first bytes of the flow and of the memory of DNS answers; what is
    proxied goes through the user-space stack of [netstack.rs] and leaves as IP
    packets in the datagrams and capsules of [masque.rs] ([masque_h2.rs] over
    HTTP/2, whose ClientHello [fragment.rs] may cut in pieces) or in the session of
    [wireguard.rs], hidden among the noise of [noize.rs] and [aethernoize.rs].  The
    driver in [lib.rs] finds a gateway with the scans of [prober.rs] and
    [wg_prober.rs], remembers it in the file of [lastconn.rs], leaves it when its
    tunnels fail, and may nest one tunnel in another; its connections may go out
    through the proxy of [upstream.rs], with the TLS options and the ECH key of
    [tls.rs], which [dns.rs] looks up, and carry the firewall mark of [egress.rs].
    The identity of the device is a file ([config.rs]) filled by the calls of
    [account.rs], which go over the HTTP client of [https.rs]; [exitloc.rs] checks
    the country a tunnel leaves in, and [bridges.rs] finds bridges for Tor, which may
    run over the tunnel.

    ** How the code is modelled

    A Rust function is a Rocq function on the same data.  A [u8], [u16], [usize]
    ... is a [Z]; wrap-around, saturation and checked operations are written out
    at their width ([usize] is 64 bits).  Bytes and strings are lists of [Z]; a
    string is its UTF-8 bytes, and lossy conversion, white space and case follow
    the standard library ([Str.v]); [str::to_lowercase] beyond ASCII is a class
    with its documented laws ([Str.UnicodeCase]).  A function that may fail or
    panic returns [res E A]: a value, an error or [Panic], which stands for an
    index out of bounds or a failed [expect]; that no input gives [Panic] is a
    theorem wherever bytes come from the network.  A loop is [loop fuel step]; the
    fuel is the length of the input for the loops that consume it (one more or two
    more turns than bytes), 130 for the DNS names (128 labels at most), 4 for the
    folding of a checksum; the termination lemmas show that it is enough, so that
    no result depends on it.  A mutable object is a record passed along; an
    [Instant] is a number.  What a socket, a timer, a channel or the random
    generator answers is an argument, so that a theorem about all runs is a
    statement about all answers.  Code of other crates is a class with what is
    relied on as laws, and each theorem that uses one is applied to an instance:
    ipnet and regex ([Routing.v]), rand ([Prober.RandCrate], over a list of words),
    toml ([Session.TomlCrate]), BoringSSL ([Tls.Boring]), boringtun
    ([WireGuard.BoringTun]), smoltcp ([Flows.Smol]), base64 and the toml form of an
    identity ([Config.Base64Crate], [Config.TomlIdentity]), serde_json
    ([Account.SerdeJson]), reqwest's text of a status ([Account.StatusText]), hex and
    the tag pattern ([Noize.HexCrate], [Noize.TagPattern]).  Components meet through
    classes too: the runs use the scans through [Session.Scanner],
    [Reconnect.WgScanner] and [Hops.HopScanner], which the scans of [Prober]
    implement, the last with any floor an earlier run has left.  A mutex that is poisoned is not modelled: no
    code that runs under these locks panics (a theorem for the name memory).

    ** The files

    - [Prelude]: this file: the result monad, integers, bytes and slices, big-endian
      numbers, loops, vectors without repetitions, the tactics and hints, and their
      lemmas.
    - [Str], [Ip], [Text]: the parts of the standard library the code uses: strings,
      UTF-8, number parsing and printing; IP addresses, their parsing and printing;
      that what is printed is parsed back.
    - [Error]: [error.rs], the error type.
    - [Sniff]: [sniff.rs], the server name of a TLS ClientHello or the Host header
      of an HTTP request.
    - [Routing]: [routing.rs], the syntax of rules, the flat matchers, the index
      that replaces them (suffix sets, merged IPv4 ranges, the other rules), the
      verdict, the sections of a routing file.
    - [RouteDns]: [routing.rs], the sinkhole for blocked names and the memory of
      DNS answers.
    - [Octets]: the byte cursors of the quiche repository
      ([src/native/aether/quiche/octets]): reads, writes, variable-length integers.
    - [Masque]: [masque.rs] and the capsule loop of [masque_h2.rs]: HTTP datagrams,
      the incremental capsule parser, address and route capsules, the probe packet.
    - [Prober]: [prober.rs] and [wg_prober.rs]: the ranges and their samples, the
      candidates, the scan modes, both scan loops over the turns of their streams,
      the floor under the WireGuard scan.
    - [SocksWire]: [socks.rs], the wire formats: greeting, request, replies, UDP
      datagrams, the DNS messages of the resolver, the exchange with a gateway.
    - [Dns]: [dns.rs], the resolver of the settings, the HTTPS record and its ech
      parameter, the lookups over UDP, TCP and HTTPS.
    - [Upstream]: [upstream.rs], the proxy of the settings, the SOCKS5 and HTTP
      clients as programs that write and read, the UDP relay, the detours.
    - [SocksRelay]: [socks.rs], the decisions and handlers: the UDP association as
      a state machine over its events, the CONNECT handler as the actions it takes,
      the resolver over the datagrams it receives, the accept loop's back-off.
    - [HttpProxy]: [socks.rs], the HTTP proxy: the head and the request line, the
      handlers as the actions they take.
    - [Https]: [https.rs], the incremental reader of HTTP/1.1 answers.
    - [Fragment]: [fragment.rs], the fragmenting stream as a state machine over
      polls, and the place of the server name.
    - [Tls]: [tls.rs], the check of an ECH configuration list, the key of the
      sessions, the pins, the options of the fingerprint.
    - [Netstack]: [netstack.rs], the uplink: admission, backlog, feeding and watching
      sockets, reaping dead flows, the queue of the device.
    - [Flows]: [netstack.rs], the rest of the stack: a flow from its connect to its
      removal, the commands, the addresses of the interface, and the loop itself, pass
      by pass, over what smoltcp, the apps and the channels do.
    - [Session]: [lib.rs] and [lastconn.rs]: the remembered connections, the
      endpoints of the settings, the gateway strikes, the loop of [run_masque] as
      rounds over its state, the two hops of a nested tunnel.
    - [WireGuard]: [wireguard.rs], the client identifier, the health probe, and the
      four tasks of the tunnel as steps over their shared state, in any order.
    - [Noize]: [noize.rs] and [aethernoize.rs], the profiles, the signature language
      and the packets of each phase.
    - [Reconnect]: [lib.rs], the start of both runs and the loop of [run_wireguard].
    - [Exit]: [exitloc.rs], [tunnelping.rs] and [stats.rs]: the policy on the exit's
      country, the trace page, the checks over what a tunnel brings, the counters.
    - [Egress]: [egress.rs] and [sysprofile.rs]: the mark, the order of the addresses
      of a name, the race of connections as a state machine, the buffer sizes.
    - [Config]: [config.rs], the identity file: loading, setting aside a damaged file,
      the private write as every state of the disk on the way.
    - [Account]: [account.rs], the ways of a call and its attempts as a state machine
      over the answers, what an answer makes of the identity, the certificate's life.
    - [Bridges]: [bridges.rs], the lines, their sources and cache, what is kept after a
      probe, the programs to launch and the waves to launch them in.

    - [Provision]: [lib.rs] and the ends of [account.rs]: what the core does to have an
      identity (load, refresh, replace, register, enable, save), as a state monad over
      the files, a log of the calls and the device gool has not enabled yet.
    - [Hops]: [lib.rs], a tunnel inside a tunnel: setting up and ending the two hops with
      the tasks they spawn, the loops of gool and masque-in-masque as rounds, the relay
      between the hops.
    - [ZeroTrust]: [zerotrust.rs], the team, the tokens, the pages of the login and the
      login by its three ways, over what the servers and the user answer.
    - [Quic]: [quic.rs], the tunnel over QUIC and the check of a gateway, turn by turn of
      their loops, over what quiche answers in each turn.
    - [MasqueH2]: [masque_h2.rs], the tunnel over HTTP/2: the handshake, the check of a
      gateway, the loop turn by turn, and the task that owns the request stream.
    - [Api]: [api.rs], what an app asks of the core: opening an identity, in the monad of
      [Provision], the scans and checks up to the hunts, what a cancel does.
    - [Ffi]: [ffi.rs], the calls of an app over C and JSON: payloads, replies, the jobs and
      the registries of handles, as steps in any order.

    - [Tor]: [tor.rs], the settings of Tor, the configuration of a client, and the search for
      one that works, attempt by attempt.
    - [Cli]: [cli.rs], the options and the variables they set.
    - [Psiphon]: [psiphon.rs], the configuration of Psiphon's program, its notices, and where it
      listens.

    ** What the theorems show

    - Refinement: the indexed rules decide as the flat list of rules they replace
      ([Routing.decide_refines_flat_rules]); the IPv4 ranges of the index are
      sorted, disjoint and exact; the file of recent gateways is the list of the
      eight last used ([Session.last_connections_ring]); the check of an ECH list
      takes exactly the lists with a usable first config
      ([Tls.check_ech_config_list_iff]).
    - Parsers read back what encoders of the formats write, whatever surrounds it:
      ClientHello, Host header, SOCKS5 requests and UDP datagrams, DNS queries and
      answers, HTTPS records, variable-length integers, capsules, chunked bodies,
      routing files, proxy addresses, endpoints, trust anchors, noise signatures.
    - Incremental readers do not depend on how a stream is cut: capsules
      ([Masque.capsule_stream_chunked]), HTTP answers ([Https.read_answer_chunks]; a chunk
      line over its limit is the exception),
      the head of a gateway's answer and of a proxy request.
    - Safety of handlers over all runs: the UDP association sends to its client
      only, never for a blocked destination ([SocksRelay.assoc_run_safe]); CONNECT
      and the HTTP proxy do what the rules say
      ([SocksRelay.connect_respects_verdict], [HttpProxy.http_respects_verdict]); the
      sinkhole answers blocked names only; the memory of names stays within its
      bound; a detour serves its own socket alone.
    - Order and conservation: the uplink never loses or reorders a byte of a flow
      ([Netstack.uplink_in_order]), a full flow holds back no other, reaping touches
      dead flows only; the downlink hands a flow's bytes over in order
      ([Flows.downlink_in_order]); fragmentation does not change what is sent; a request is
      forwarded as it came ([HttpProxy.http_request_forwarded]).
    - Runs: a gateway or an endpoint whose tunnels fail is left for its time
      ([Session.masque_run_leaves_failing_gateway],
      [Reconnect.wg_run_leaves_failing_endpoint]); re-handshakes are spaced and a
      silent peer is noticed ([WireGuard.rekeys_are_spaced],
      [WireGuard.silent_peer_is_noticed]); a scan picks the fastest gateway allowed
      ([Prober.scan_picks_fastest_allowed]) and a slow remembered endpoint is never
      replaced by a slower one ([Reconnect.slow_cache_not_worsened]).
    - Nested tunnels: gool's hops are on two addresses, unless the floor of an earlier
      WireGuard run goes in front of both, and failing edges are looked for again ([Hops.gool_hops_stay_apart], [Hops.nested_loops_rescan_failing_edges]); no
      task outlives its tunnel ([Hops.nested_tunnels_leave_no_task]); the relay follows the
      sender ([Hops.relay_follows_the_sender]).
    - The stack: whatever it meets, but an address that is not unicast, its loop does not
      panic and keeps its state well formed ([Flows.run_keeps_well_formed]); a connect is answered once, an orphan
      is removed, no queue starves ([Flows.connect_answered_once],
      [Flows.orphan_is_removed], [Flows.pass_serves_every_queue]).
    - Accounts: a write of the identity is atomic and private and a saved identity is
      the one loaded ([Config.write_private_atomic], [Config.save_then_load]); a call
      asks no way that turned it away and costs the identity only when refused
      ([Account.api_call_asks_open_ways], [Account.refused_only_by_refusal]); a device is
      saved once enabled and replaced only when refused, and gool makes no second one
      while the first waits ([Provision.saved_only_when_enabled],
      [Provision.saved_device_is_kept_unless_refused],
      [Provision.gool_registers_one_at_a_time]).
    - Tunnels: nothing goes over a handshake that went without the key it was given, and a
      key that is turned down is replaced once, by the one the server handed back ([Quic.quic_sends_over_its_key],
      [MasqueH2.h2_sends_over_its_key]); a tunnel is ready after two round trips, or ends
      at its deadline ([Quic.quic_ready_needs_round_trips], [Quic.quic_validation_ends],
      [MasqueH2.h2_deadlines_end_it]); what the check takes answered
      ([Quic.verified_gateway_answered]); the edge reads the packets that were queued, in
      order ([MasqueH2.upload_is_read_back]).
    - Login: a kept token has the form of one and is not expired when it is used, at most
      three codes are asked for, and the pages of the login are understood
      ([ZeroTrust.session_token_is_sound], [ZeroTrust.email_codes_are_bounded],
      [ZeroTrust.email_signin_reads_pages]).
    - Embedding: handles answer for their own and are never given out twice
      ([Ffi.handles_answer_for_their_own]); an identity that is opened is that of its file
      or was enabled before it was saved ([Api.opened_identity_is_saved]).
    - Other transports: Tor dials through what it is told and its search ends
      ([Tor.tor_goes_where_told], [Tor.tor_search_ends]); Psiphon listens behind the core alone
      and is ready with a tunnel ([Psiphon.psiphon_stays_behind],
      [Psiphon.psiphon_ready_means_tunnel], [Psiphon.comments_are_blank]).
    - Command line: what is written is read, and an error names its option
      ([Cli.arguments_are_read], [Cli.bridges_given_are_read]).
    - Choices: the race of connections ([Egress.race_tries_every_address]), the
      bridges kept, the programs launched and the waves ([Bridges]).
    - Composition: the clients of [upstream.rs] and the servers of [socks.rs]
      understand each other ([Upstream.socks_client_meets_server],
      [Upstream.udp_relay_meets_server], [HttpProxy.http_client_meets_proxy]).
    - Totality: the loops end and no input of the network makes a parser panic.
    - Errors of the code, each a theorem: bare IPv6 rules are dropped
      ([Routing.unknown_kind_is_dropped]), a name with a trailing dot is asked for
      with a malformed query ([SocksWire.fqdn_query_is_shifted]), a sniffed flow
      that fails gets a second reply ([SocksRelay.sniffed_failure_replies_twice]),
      a range with host bits is scanned beyond its end
      ([Prober.manual_range_leaves_it]), the floor overrides the cooldown of an
      endpoint ([Reconnect.floor_brings_back_failing_endpoint]), header bytes that
      are not UTF-8 are replaced ([HttpProxy.http_header_bytes_replaced]), a finished
      flow loses what a slow reader did not take yet
      ([Flows.finished_flow_drops_received]), a policy that only denies accepts an
      exit without a location ([Exit.ExitLoc.settle_keeps_unread_location]),
      masque-in-masque keeps an edge both hops share ([Hops.mim_keeps_unusable_edge]), a
      query's flag hides what follows ([ZeroTrust.query_value_stops_at_flag]), the checks
      of a gateway are stricter or laxer than its tunnel
      ([Quic.check_is_stricter_than_tunnel], [MasqueH2.check_counts_any_datagram]), a full
      queue holds a closing tunnel for ever ([MasqueH2.full_queue_never_ends]), an app is
      handed a refused identity ([Api.refused_device_is_opened]), a freed job leaves one
      behind ([Ffi.freed_job_leaves_identity]), a scan for MASQUE takes excluded addresses
      ([Api.masque_scan_ignores_excluded]), a bridge file is used with bridges turned off
      ([Tor.file_wins_over_off]), pluggable transports go around an upstream proxy
      ([Tor.transport_beside_upstream]), a key in another case hides Psiphon's proxy
      ([Psiphon.proxy_spelled_twice]), the edge's addresses may panic the stack
      ([Flows.set_addrs_panics]), the floor of a scan joins gool's hops
      ([Hops.floor_left_behind_joins_the_hops]), a chunk line over its limit is taken or not
      as it is cut ([Https.long_line_as_it_is_cut]), the sinkhole answers other opcodes than
      a query's ([RouteDns.update_is_answered]), and verification without pins verifies nothing
      ([Tls.server_taken_iff]).

    ** What is not modelled

    The asynchronous plumbing (accept loops, byte relays, the readers of sockets) is input
    and output over tokio; quiche, h2 and smoltcp answer as arguments or classes, and TLS
    is BoringSSL's.  The order in which a select finds its branches ready is left to the
    arguments of a turn, which also hold what the connection answers in it.  The branch of
    a select that a cancel makes ready is taken only by a task that was cancelled: [Ffi.finish]
    takes no step for such an end of another task.  The help
    text and the calls to services are glue.  The quiche repository next to the
    core is a library of another project and, its byte cursors apart, what the core calls.
    The disk that [tor.rs] copies its directory cache on, and the programs that [psiphon.rs] and
    arti launch, are input and output. *)

From stdpp Require Export base tactics list numbers option gmap.
From Stdlib Require Export ZArith Lia.

#[export] Set Default Goal Selector "!".

Open Scope Z_scope.

(** ** Results of Rust code

    A fallible Rust function returns a value ([Ok]), an early error ([Err],
    with [E := unit] for a function that returns [Option]), or panics
    ([Panic]: an index or a slice out of range, an [unwrap] of [None]). *)
Inductive res (E A : Type) : Type :=
| Ok (a : A)
| Err (e : E)
| Panic.
Arguments Ok {E A} _.
Arguments Err {E A} _.
Arguments Panic {E A}.

#[export] Instance res_ret {E} : MRet (res E) := fun A a => Ok a.
#[export] Instance res_bind {E} : MBind (res E) :=
  fun A B f m =>
    match m with
    | Ok a => f a
    | Err e => Err e
    | Panic => Panic
    end.

#[export] Instance res_fmap {E} : FMap (res E) :=
  fun A B f m =>
    match m with
    | Ok a => Ok (f a)
    | Err e => Err e
    | Panic => Panic
    end.

(** What a caller sees of a function that returns [Option]: the [None] and the
    [Some] cases as an option, the panic kept apart. *)
Definition catch {A} (m : res unit A) : res unit (option A) :=
  match m with
  | Ok a => Ok (Some a)
  | Err _ => Ok None
  | Panic => Panic
  end.

Definition res_is_panic {E A} (m : res E A) : bool :=
  match m with Panic => true | _ => false end.

Definition map_err {E F A} (f : E -> F) (m : res E A) : res F A :=
  match m with
  | Ok a => Ok a
  | Err e => Err (f e)
  | Panic => Panic
  end.

(** [o?] on an [Option]. *)
Definition ok_or {E A} (o : option A) (e : E) : res E A :=
  match o with Some a => Ok a | None => Err e end.
Definition try_opt {A} (o : option A) : res unit A := ok_or o tt.

(** ** Machine integers *)

Definition U8_MAX : Z := 255.
Definition U16_MAX : Z := 65535.
Definition U32_MAX : Z := 4294967295.
Definition U64_MAX : Z := 18446744073709551615.
Definition USIZE_MAX : Z := U64_MAX.

Definition wrap_u8 (z : Z) : Z := z mod 256.
Definition wrap_u16 (z : Z) : Z := z mod 65536.
Definition wrap_u32 (z : Z) : Z := z mod 4294967296.
Definition wrap_u64 (z : Z) : Z := z mod 18446744073709551616.

(** [a.checked_add(b)] on [usize]. *)
Definition checked_add (a b : Z) : option Z :=
  if a + b <=? USIZE_MAX then Some (a + b) else None.

(** [a.saturating_add(b)] on [usize]. *)
Definition saturating_add (a b : Z) : Z := Z.min (a + b) USIZE_MAX.

(** ** Bytes, slices and vectors

    A byte is a [Z] in [0, 255]; a [&[u8]], a [Vec<u8>] and the UTF-8 bytes of
    a [str] are lists of bytes, and an index is a [Z]. *)
Abbreviation bytes := (list Z).

Definition is_byte (b : Z) : Prop := 0 <= b <= 255.
Definition all_bytes (l : bytes) : Prop := Forall is_byte l.

Definition blen {A} (l : list A) : Z := Z.of_nat (length l).

(** [l.get(i)] *)
Definition bget {A} (l : list A) (i : Z) : option A :=
  if 0 <=? i then l !! Z.to_nat i else None.

(** [*l.get(i)?] *)
Definition get_o {A} (l : list A) (i : Z) : res unit A := try_opt (bget l i).

(** [l[i]]: panics out of range. *)
Definition idx {E A} (l : list A) (i : Z) : res E A :=
  match bget l i with Some a => Ok a | None => Panic end.

(** The bytes of [l] from [lo] up to [hi], both in range. *)
Definition sub {A} (l : list A) (lo hi : Z) : list A :=
  take (Z.to_nat (hi - lo)) (drop (Z.to_nat lo) l).

Definition in_range {A} (l : list A) (lo hi : Z) : bool :=
  (0 <=? lo) && (lo <=? hi) && (hi <=? blen l).

(** [l.get(lo..hi)] *)
Definition bslice {A} (l : list A) (lo hi : Z) : option (list A) :=
  if in_range l lo hi then Some (sub l lo hi) else None.

(** [l.get(lo..hi)?] *)
Definition slice_o {A} (l : list A) (lo hi : Z) : res unit (list A) :=
  try_opt (bslice l lo hi).

(** [&l[lo..hi]]: panics out of range. *)
Definition slice {E A} (l : list A) (lo hi : Z) : res E (list A) :=
  if in_range l lo hi then Ok (sub l lo hi) else Panic.

(** [l[i] = v]: panics out of range. *)
Definition set_idx {E A} (l : list A) (i : Z) (v : A) : res E (list A) :=
  if (0 <=? i) && (i <? blen l) then Ok (<[Z.to_nat i := v]> l) else Panic.

(** [for b in &mut l[lo..hi] { *b = v }]: panics out of range. *)
Definition fill {E A} (l : list A) (lo hi : Z) (v : A) : res E (list A) :=
  if in_range l lo hi
  then Ok (sub l 0 lo ++ replicate (Z.to_nat (hi - lo)) v ++ sub l hi (blen l))
  else Panic.

(** ** Big-endian integers *)

Definition u16_be (hi lo : Z) : Z := Z.lor (Z.shiftl hi 8) lo.
Definition u32_be (a b c d : Z) : Z :=
  Z.lor (Z.shiftl a 24) (Z.lor (Z.shiftl b 16) (Z.lor (Z.shiftl c 8) d)).

Definition be16_bytes (v : Z) : bytes :=
  [Z.land (Z.shiftr v 8) 255; Z.land v 255].
Definition be32_bytes (v : Z) : bytes :=
  [Z.land (Z.shiftr v 24) 255; Z.land (Z.shiftr v 16) 255;
   Z.land (Z.shiftr v 8) 255; Z.land v 255].

(** [n] big-endian bytes of [v], and the integer [l] holds. *)
Fixpoint be_bytes (n : nat) (v : Z) : bytes :=
  match n with
  | O => []
  | S n' => be_bytes n' (v / 256) ++ [v mod 256]
  end.
Definition be_combine (l : bytes) : Z := fold_left (fun acc b => acc * 256 + b) l 0.

(** ** Loops

    [loop fuel step s] runs [step] from [s] until it leaves the loop with a
    value ([inr]); [inl] is the state of the next iteration and [None] means
    that the fuel ran out. *)
Fixpoint loop {S R} (fuel : nat) (step : S -> S + R) (s : S) : option R :=
  match fuel with
  | O => None
  | Datatypes.S fuel' =>
      match step s with
      | inl s' => loop fuel' step s'
      | inr r => Some r
      end
  end.

(** The body of a loop that may fail: go on with a new state, leave with a value,
    or leave with an error. *)
Definition step_of {E S R} (m : res E (S + R)) : S + res E R :=
  match m with
  | Ok (inl s) => inl s
  | Ok (inr r) => inr (Ok r)
  | Err e => inr (Err e)
  | Panic => inr Panic
  end.

(** [lhs.saturating_sub(rhs)]. *)
Definition saturating_sub (a b : Z) : Z := Z.max (a - b) 0.

(** ** Automation *)

Create HintDb bytesdb discriminated.
#[export] Hint Constants Opaque : bytesdb.
Create Rewrite HintDb blens.

(** Turns boolean comparisons of the context and of the goal into propositions
    and splits conjunctions. *)
Ltac zbool :=
  repeat match goal with
  | H : _ && _ = true |- _ => apply andb_prop in H as [? ?]
  | H : _ && _ = false |- _ => apply andb_false_iff in H
  | H : _ || _ = true |- _ => apply orb_true_iff in H
  | H : _ || _ = false |- _ => apply orb_false_iff in H as [? ?]
  | H : negb _ = true |- _ => apply negb_true_iff in H
  | H : negb _ = false |- _ => apply negb_false_iff in H
  | H : (_ <=? _) = true |- _ => apply Z.leb_le in H
  | H : (_ <=? _) = false |- _ => apply Z.leb_gt in H
  | H : (_ <? _) = true |- _ => apply Z.ltb_lt in H
  | H : (_ <? _) = false |- _ => apply Z.ltb_ge in H
  | H : (_ =? _) = true |- _ => apply Z.eqb_eq in H
  | H : (_ =? _) = false |- _ => apply Z.eqb_neq in H
  end.

(** Reduces the binds of the goal whose first computation is known. *)
Ltac rsimp := cbn [try_opt ok_or mbind res_bind].

(** Case analysis on the first boolean test of the goal, with its meaning. *)
Ltac zcase :=
  match goal with
  | |- context [if ?b then _ else _] => destruct b eqn:?; zbool
  end.

(** Case analysis on the matches of hypothesis [H], keeping the equations. *)
Ltac match_in H :=
  repeat match type of H with
  | context [match ?x with _ => _ end] => destruct x eqn:?; simplify_eq/=
  end.

(** ** Lemmas on results *)

Lemma res_bind_Ok {E A B} (m : res E A) (f : A -> res E B) b :
  m ≫= f = Ok b <-> exists a, m = Ok a /\ f a = Ok b.
Proof. destruct m; cbn; naive_solver. Qed.

Lemma res_bind_Panic {E A B} (m : res E A) (f : A -> res E B) :
  m ≫= f = Panic <-> m = Panic \/ exists a, m = Ok a /\ f a = Panic.
Proof. destruct m; cbn; naive_solver. Qed.

Lemma try_opt_no_panic {A} (o : option A) : try_opt o <> Panic.
Proof. by destruct o. Qed.

Lemma checked_add_Some a b c : checked_add a b = Some c -> c = a + b.
Proof. unfold checked_add. by zcase; intros [= <-]. Qed.

Lemma checked_add_ok a b : a + b <= USIZE_MAX -> checked_add a b = Some (a + b).
Proof. unfold checked_add. intros. by rewrite (proj2 (Z.leb_le _ _)). Qed.

(** ** Lemmas on slices *)

Section slices.
Context {A : Type}.
Implicit Types (l k : list A) (i lo hi : Z).

Lemma blen_nonneg l : 0 <= blen l.
Proof. unfold blen. lia. Qed.

Lemma blen_nil : blen (@nil A) = 0.
Proof. done. Qed.

Lemma blen_cons a l : blen (a :: l) = 1 + blen l.
Proof. unfold blen. cbn [length]. lia. Qed.

Lemma blen_app l k : blen (l ++ k) = blen l + blen k.
Proof. unfold blen. rewrite length_app. lia. Qed.

Lemma blen_insert (n : nat) (a : A) l : blen (<[n := a]> l) = blen l.
Proof. unfold blen. by rewrite length_insert. Qed.

Lemma blen_replicate n (a : A) : blen (replicate n a) = Z.of_nat n.
Proof. unfold blen. by rewrite length_replicate. Qed.

Lemma bget_Some l i a : bget l i = Some a -> 0 <= i < blen l.
Proof.
  unfold bget, blen. zcase; [|done].
  intros H%lookup_lt_Some. lia.
Qed.

Lemma bget_is_Some l i : 0 <= i < blen l -> exists a, bget l i = Some a.
Proof.
  unfold bget, blen. intros. rewrite (proj2 (Z.leb_le _ _)) by lia.
  apply lookup_lt_is_Some. lia.
Qed.

Lemma bget_None l i : bget l i = None <-> i < 0 \/ blen l <= i.
Proof.
  split.
  - intros H. destruct (decide (0 <= i < blen l)) as [Hr|]; [|lia].
    apply bget_is_Some in Hr as [a Ha]. congruence.
  - intros H. destruct (bget l i) eqn:E; [|done]. apply bget_Some in E. lia.
Qed.

Lemma bget_app_l l k i : i < blen l -> bget (l ++ k) i = bget l i.
Proof.
  unfold bget, blen. intros. zcase; [|done]. apply lookup_app_l. lia.
Qed.

Lemma bget_app_r l k i : blen l <= i -> bget (l ++ k) i = bget k (i - blen l).
Proof.
  unfold bget, blen. intros H.
  rewrite !(proj2 (Z.leb_le _ _)) by lia.
  rewrite lookup_app_r by lia. f_equal. lia.
Qed.

Lemma bget_cons_0 a l : bget (a :: l) 0 = Some a.
Proof. done. Qed.

Lemma bget_cons_pos a l i : 0 < i -> bget (a :: l) i = bget l (i - 1).
Proof.
  intros. change (a :: l) with ([a] ++ l).
  rewrite bget_app_r by (rewrite blen_cons, blen_nil; lia). done.
Qed.

Lemma bget_insert_eq l i a : 0 <= i < blen l -> bget (<[Z.to_nat i := a]> l) i = Some a.
Proof.
  unfold bget, blen. intros. rewrite (proj2 (Z.leb_le _ _)) by lia.
  apply list_lookup_insert_eq. lia.
Qed.

Lemma bget_insert_ne l i j a :
  0 <= i -> i <> j -> bget (<[Z.to_nat i := a]> l) j = bget l j.
Proof.
  unfold bget. intros. zcase; [|done]. apply list_lookup_insert_ne. lia.
Qed.

Lemma blen_sub l lo hi : 0 <= lo -> lo <= hi -> hi <= blen l -> blen (sub l lo hi) = hi - lo.
Proof. unfold sub, blen. intros. rewrite length_take, length_drop. lia. Qed.

Lemma bget_sub l lo hi i :
  0 <= lo -> 0 <= i < hi - lo -> bget (sub l lo hi) i = bget l (lo + i).
Proof.
  unfold bget, sub. intros. rewrite !(proj2 (Z.leb_le _ _)) by lia.
  rewrite lookup_take_lt, lookup_drop by lia. f_equal. lia.
Qed.

Lemma sub_all l : sub l 0 (blen l) = l.
Proof. unfold sub, blen. rewrite drop_0, firstn_all2; [done | lia]. Qed.

Lemma sub_empty l lo hi : hi <= lo -> sub l lo hi = [].
Proof. unfold sub. intros. by replace (Z.to_nat (hi - lo)) with 0%nat by lia. Qed.

Lemma sub_app_l l k lo hi : 0 <= lo -> hi <= blen l -> sub (l ++ k) lo hi = sub l lo hi.
Proof.
  unfold sub, blen. intros.
  destruct (decide (lo <= hi)); [|by replace (Z.to_nat (hi - lo)) with 0%nat by lia].
  rewrite drop_app_le by lia. rewrite take_app_le; [done | rewrite length_drop; lia].
Qed.

Lemma sub_app_r l k lo hi :
  blen l <= lo -> sub (l ++ k) lo hi = sub k (lo - blen l) (hi - blen l).
Proof.
  unfold sub, blen. intros. rewrite drop_app_ge by lia.
  f_equal; [lia |]. f_equal. lia.
Qed.

Lemma sub_app_cut l k n : blen l <= n -> sub (l ++ k) 0 n = l ++ sub k 0 (n - blen l).
Proof.
  unfold sub, blen. intros. rewrite !drop_0, take_app.
  f_equal; [apply firstn_all2; lia|]. f_equal. lia.
Qed.

Lemma sub_snoc l lo hi hi' a :
  0 <= lo <= hi -> hi' = hi + 1 -> bget l hi = Some a -> sub l lo hi' = sub l lo hi ++ [a].
Proof.
  unfold sub, bget. intros Hlo ->. zcase; [|done]. intros Ha.
  replace (Z.to_nat (hi + 1 - lo)) with (S (Z.to_nat (hi - lo))) by lia.
  rewrite (take_S_r _ _ a); [done|]. rewrite lookup_drop, <- Ha. f_equal. lia.
Qed.

(** The three pieces of a list cut at two indices. *)
Lemma sub_split l lo hi :
  0 <= lo -> lo <= hi -> hi <= blen l -> l = sub l 0 lo ++ sub l lo hi ++ sub l hi (blen l).
Proof.
  unfold sub, blen. intros.
  rewrite Z.sub_0_r, drop_0.
  rewrite (firstn_all2 (drop (Z.to_nat hi) l)) by (rewrite length_drop; lia).
  replace (Z.to_nat hi) with (Z.to_nat lo + Z.to_nat (hi - lo))%nat by lia.
  rewrite <- drop_drop, take_drop, take_drop. done.
Qed.

Lemma sub_sub l lo hi a b :
  0 <= lo -> 0 <= a -> a <= b -> b <= hi - lo -> sub (sub l lo hi) a b = sub l (lo + a) (lo + b).
Proof.
  unfold sub. intros.
  rewrite skipn_firstn_comm, take_take, drop_drop.
  f_equal; [lia |]. f_equal. lia.
Qed.

Lemma Forall_sub (P : A -> Prop) l lo hi : Forall P l -> Forall P (sub l lo hi).
Proof. intros. by apply Forall_take, Forall_drop. Qed.

Lemma Forall_bget (P : A -> Prop) l i a : Forall P l -> bget l i = Some a -> P a.
Proof.
  unfold bget. intros H. zcase; [|done]. intros Ha.
  rewrite Forall_lookup in H. eauto.
Qed.

Lemma in_range_true l lo hi : in_range l lo hi = true <-> 0 <= lo /\ lo <= hi /\ hi <= blen l.
Proof. unfold in_range. rewrite !andb_true_iff, !Z.leb_le. tauto. Qed.

Lemma slice_ok {E} l lo hi :
  0 <= lo -> lo <= hi -> hi <= blen l -> @slice E A l lo hi = Ok (sub l lo hi).
Proof. intros. unfold slice. by rewrite (proj2 (in_range_true l lo hi)). Qed.

Lemma bslice_ok l lo hi :
  0 <= lo -> lo <= hi -> hi <= blen l -> bslice l lo hi = Some (sub l lo hi).
Proof. intros. unfold bslice. by rewrite (proj2 (in_range_true l lo hi)). Qed.

Lemma set_idx_ok {E} l i a : 0 <= i < blen l -> @set_idx E A l i a = Ok (<[Z.to_nat i := a]> l).
Proof.
  intros. unfold set_idx. by rewrite (proj2 (Z.leb_le 0 i)), (proj2 (Z.ltb_lt i (blen l))) by lia.
Qed.

Lemma fill_ok {E} l lo hi a :
  0 <= lo -> lo <= hi -> hi <= blen l ->
  @fill E A l lo hi a = Ok (sub l 0 lo ++ replicate (Z.to_nat (hi - lo)) a ++ sub l hi (blen l)).
Proof. intros. unfold fill. by rewrite (proj2 (in_range_true l lo hi)). Qed.

Lemma bslice_Some l lo hi k :
  bslice l lo hi = Some k -> k = sub l lo hi /\ 0 <= lo /\ lo <= hi /\ hi <= blen l.
Proof.
  unfold bslice. destruct (in_range l lo hi) eqn:E; [|done].
  intros [= <-]. apply in_range_true in E. tauto.
Qed.

Lemma idx_ok {E} l i : 0 <= i < blen l -> exists a, @idx E A l i = Ok a /\ bget l i = Some a.
Proof.
  intros H. unfold idx. destruct (bget_is_Some l i H) as [a ->]. eauto.
Qed.

Lemma idx_no_panic {E} l i : 0 <= i < blen l -> @idx E A l i <> Panic.
Proof. intros H. destruct (@idx_ok E l i H) as (a & -> & _). done. Qed.

End slices.

(** Reading at the end of a known prefix. *)
Lemma bget_at {A} (l pre post : list A) (i : Z) (a : A) :
  l = pre ++ a :: post -> i = blen pre -> bget l i = Some a.
Proof.
  intros -> ->. rewrite bget_app_r by lia. by rewrite Z.sub_diag.
Qed.

Lemma sub_at {A} (l pre mid post : list A) (lo hi : Z) :
  l = pre ++ mid ++ post -> lo = blen pre -> hi = blen pre + blen mid -> sub l lo hi = mid.
Proof.
  intros -> -> ->. rewrite sub_app_r by lia.
  rewrite sub_app_l by (pose proof (blen_nonneg mid); lia).
  rewrite Z.sub_diag, Z.add_simpl_l. apply sub_all.
Qed.

#[export] Hint Rewrite @blen_nil @blen_cons @blen_app @blen_insert @blen_replicate : blens.
#[export] Hint Resolve blen_nonneg Forall_sub : bytesdb.

(** Normalises the lengths of the goal and closes it by arithmetic. *)
Ltac blia :=
  autorewrite with blens in *;
  repeat match goal with
  | |- context [blen ?l] => lazymatch goal with H : 0 <= blen l |- _ => fail | _ => pose proof (blen_nonneg l) end
  | _ : context [blen ?l] |- _ => lazymatch goal with H : 0 <= blen l |- _ => fail | _ => pose proof (blen_nonneg l) end
  end; lia.

(** ** Lemmas on loops *)

Section loops.
Context {S R : Type} (step : S -> S + R).

(** Total correctness: an invariant kept by every iteration, a measure that
    every iteration decreases and a postcondition at the exit. *)
Lemma loop_correct (Inv : S -> Prop) (Post : R -> Prop) (m : S -> nat) :
  (forall s, Inv s ->
    match step s with
    | inl s' => Inv s' /\ (m s' < m s)%nat
    | inr r => Post r
    end) ->
  forall fuel s, Inv s -> (m s < fuel)%nat ->
  exists r, loop fuel step s = Some r /\ Post r.
Proof.
  intros Hstep fuel. induction fuel as [|fuel IH]; intros s Hs Hm; [lia|].
  cbn. specialize (Hstep s Hs). destruct (step s) as [s'|r].
  - destruct Hstep as [Hs' Hlt]. apply IH; [done | lia].
  - eauto.
Qed.

(** A run that ends gives the same value with any larger fuel. *)
Lemma loop_mono fuel fuel' s r :
  loop fuel step s = Some r -> (fuel <= fuel')%nat -> loop fuel' step s = Some r.
Proof.
  revert fuel' s. induction fuel as [|fuel IH]; intros fuel' s; [done|].
  intros H Hle. destruct fuel' as [|fuel']; [lia|]. cbn in *.
  destruct (step s); [|done]. apply IH; [done | lia].
Qed.

(** Partial correctness of a run that ends. *)
Lemma loop_inv (Inv : S -> Prop) (Post : R -> Prop) :
  (forall s, Inv s -> match step s with inl s' => Inv s' | inr r => Post r end) ->
  forall fuel s r, Inv s -> loop fuel step s = Some r -> Post r.
Proof.
  intros Hstep fuel. induction fuel as [|fuel IH]; intros s r Hs; [done|].
  cbn. specialize (Hstep s Hs). destruct (step s) as [s'|r']; [by apply IH|].
  by intros [= <-].
Qed.
End loops.

(** ** Lemmas on bytes *)

Lemma all_bytes_app l k : all_bytes (l ++ k) <-> all_bytes l /\ all_bytes k.
Proof. apply Forall_app. Qed.

Lemma all_bytes_bget l i b : all_bytes l -> bget l i = Some b -> is_byte b.
Proof. apply Forall_bget. Qed.

(** A shifted value and a value below the shift have no bit in common. *)
Lemma lor_shiftl a b n : 0 <= n -> 0 <= b < 2 ^ n -> Z.lor (Z.shiftl a n) b = a * 2 ^ n + b.
Proof.
  intros Hn Hb.
  enough (Z.land (Z.shiftl a n) b = 0) as Hz.
  { pose proof (Z.add_lor_land (Z.shiftl a n) b) as Hal.
    rewrite Hz in Hal. rewrite (Z.shiftl_mul_pow2 a n) in Hal at 2 by lia. lia. }
  apply Z.bits_inj'. intros i Hi. rewrite Z.land_spec, Z.bits_0.
  destruct (decide (i < n)); [by rewrite Z.shiftl_spec_low|].
  destruct (decide (b = 0)) as [->|]; [rewrite Z.bits_0; apply andb_false_r|].
  rewrite (Z.bits_above_log2 b); [apply andb_false_r | lia |].
  apply Z.log2_lt_pow2; [lia|].
  assert (2 ^ n <= 2 ^ i) by (apply Z.pow_le_mono_r; lia). lia.
Qed.

Lemma u16_be_spec hi lo : is_byte lo -> u16_be hi lo = hi * 256 + lo.
Proof. unfold is_byte, u16_be. intros. by rewrite lor_shiftl by lia. Qed.

Lemma u16_be_bound hi lo : is_byte hi -> is_byte lo -> 0 <= u16_be hi lo <= U16_MAX.
Proof. intros ? Hlo. rewrite u16_be_spec by done. unfold is_byte, U16_MAX in *. lia. Qed.

Lemma land_255 v : Z.land v 255 = v mod 256.
Proof. change 255 with (Z.ones 8). rewrite Z.land_ones by lia. done. Qed.

Lemma be16_bytes_spec v : be16_bytes v = [(v / 256) mod 256; v mod 256].
Proof.
  unfold be16_bytes. rewrite !land_255, Z.shiftr_div_pow2 by lia. done.
Qed.

Lemma be16_bytes_all v : all_bytes (be16_bytes v).
Proof.
  rewrite be16_bytes_spec. unfold all_bytes, is_byte.
  repeat constructor; pose proof (Z.mod_pos_bound v 256 ltac:(lia));
    pose proof (Z.mod_pos_bound (v / 256) 256 ltac:(lia)); lia.
Qed.

Lemma u16_be_roundtrip v :
  0 <= v <= U16_MAX -> u16_be ((v / 256) mod 256) (v mod 256) = v.
Proof.
  unfold U16_MAX. intros.
  rewrite u16_be_spec
    by (pose proof (Z.mod_pos_bound v 256 ltac:(lia)); unfold is_byte; lia).
  rewrite (Z.mod_small (v / 256)).
  - pose proof (Z.div_mod v 256). lia.
  - split; [apply Z.div_pos; lia | apply Z.div_lt_upper_bound; lia].
Qed.

Lemma length_be_bytes n v : length (be_bytes n v) = n.
Proof.
  revert v. induction n as [|n IH]; intros v; [done|].
  cbn. rewrite length_app, IH. cbn. lia.
Qed.

Lemma be_bytes_all n v : all_bytes (be_bytes n v).
Proof.
  revert v. induction n as [|n IH]; intros v; [constructor|]. cbn.
  apply all_bytes_app. split; [apply IH|].
  repeat constructor; pose proof (Z.mod_pos_bound v 256 ltac:(lia)); lia.
Qed.

Lemma be_combine_snoc l b : be_combine (l ++ [b]) = be_combine l * 256 + b.
Proof. unfold be_combine. by rewrite fold_left_app. Qed.

Lemma be_combine_bytes n v : 0 <= v < 256 ^ Z.of_nat n -> be_combine (be_bytes n v) = v.
Proof.
  revert v. induction n as [|n IH]; intros v Hv.
  - cbn in *. unfold be_combine. cbn. lia.
  - cbn [be_bytes]. rewrite be_combine_snoc, IH.
    + pose proof (Z.div_mod v 256). lia.
    + rewrite Nat2Z.inj_succ, Z.pow_succ_r in Hv by lia.
      split; [apply Z.div_pos; lia | apply Z.div_lt_upper_bound; lia].
Qed.

Lemma be_combine_bound l : all_bytes l -> 0 <= be_combine l < 256 ^ blen l.
Proof.
  induction l as [|b l IH] using rev_ind; intros H.
  - unfold be_combine, blen. cbn. lia.
  - apply all_bytes_app in H as [Hl Hb]. apply Forall_inv in Hb.
    unfold is_byte in Hb. specialize (IH Hl).
    rewrite be_combine_snoc, blen_app, blen_cons. change (blen (@nil Z)) with 0.
    replace (blen l + (1 + 0)) with (Z.succ (blen l)) by lia.
    rewrite Z.pow_succ_r by (apply blen_nonneg). lia.
Qed.

Lemma blen_be16_bytes v : blen (be16_bytes v) = 2.
Proof. done. Qed.
Lemma blen_be_bytes n v : blen (be_bytes n v) = Z.of_nat n.
Proof. unfold blen. by rewrite length_be_bytes. Qed.
#[export] Hint Rewrite blen_be16_bytes blen_be_bytes : blens.

(** Solves an equation between two ways of cutting the same list. *)
Ltac solve_app :=
  repeat progress (cbn [app]; rewrite <- ?app_assoc); reflexivity.

Lemma idx_at {E A} (l pre post : list A) (i : Z) (a : A) :
  l = pre ++ a :: post -> i = blen pre -> @idx E A l i = Ok a.
Proof. intros. unfold idx. by rewrite (bget_at l pre post i a). Qed.

(** Evaluates the reads [l[i]] of the goal at an index in range; [x] is the value. *)
Tactic Notation "read" constr(l) constr(i) "as" ident(x) ident(Hx) :=
  match goal with
  | |- context [@idx ?E ?A l ?j] =>
      unify j i;
      let H := fresh in
      destruct (@idx_ok A E l j) as (x & H & Hx); [blia|]; rewrite H; clear H; rsimp
  end.

Lemma u32_be_spec a b c d :
  is_byte b -> is_byte c -> is_byte d ->
  u32_be a b c d = ((a * 256 + b) * 256 + c) * 256 + d.
Proof.
  unfold is_byte, u32_be. intros.
  rewrite (lor_shiftl c d 8), (lor_shiftl b _ 16), (lor_shiftl a _ 24) by lia. lia.
Qed.

Lemma is_byte_mod v : is_byte (v mod 256).
Proof. pose proof (Z.mod_pos_bound v 256 ltac:(lia)). unfold is_byte. lia. Qed.
#[export] Hint Resolve is_byte_mod be16_bytes_all be_bytes_all : bytesdb.

Lemma u32_be_roundtrip v :
  0 <= v <= U32_MAX ->
  u32_be ((v / 16777216) mod 256) ((v / 65536) mod 256) ((v / 256) mod 256) (v mod 256) = v.
Proof.
  unfold U32_MAX. intros. rewrite u32_be_spec by auto with bytesdb.
  rewrite (Z.mod_small (v / 16777216))
    by (split; [apply Z.div_pos; lia | apply Z.div_lt_upper_bound; lia]).
  replace (v / 16777216) with (v / 256 / 256 / 256) by (rewrite !Z.div_div by lia; done).
  replace (v / 65536) with (v / 256 / 256) by (rewrite !Z.div_div by lia; done).
  pose proof (Z.div_mod v 256). pose proof (Z.div_mod (v / 256) 256).
  pose proof (Z.div_mod (v / 256 / 256) 256). lia.
Qed.

Lemma be32_bytes_spec v :
  be32_bytes v = [(v / 16777216) mod 256; (v / 65536) mod 256; (v / 256) mod 256; v mod 256].
Proof. unfold be32_bytes. by rewrite !land_255, !Z.shiftr_div_pow2 by lia. Qed.

Lemma blen_be32_bytes v : blen (be32_bytes v) = 4.
Proof. done. Qed.
#[export] Hint Rewrite blen_be32_bytes : blens.

Lemma idx_be16 {E} msg pre v post i :
  msg = pre ++ be16_bytes v ++ post -> i = blen pre ->
  @idx E Z msg i = Ok ((v / 256) mod 256) /\ @idx E Z msg (i + 1) = Ok (v mod 256).
Proof.
  rewrite be16_bytes_spec. intros -> ->. split.
  - by apply (idx_at _ pre (v mod 256 :: post)).
  - apply (idx_at _ (pre ++ [(v / 256) mod 256]) post); [solve_app|blia].
Qed.

Lemma idx_be32 {E} msg pre v post i :
  msg = pre ++ be32_bytes v ++ post -> i = blen pre ->
  @idx E Z msg i = Ok ((v / 16777216) mod 256) /\ @idx E Z msg (i + 1) = Ok ((v / 65536) mod 256)
  /\ @idx E Z msg (i + 2) = Ok ((v / 256) mod 256) /\ @idx E Z msg (i + 3) = Ok (v mod 256).
Proof.
  rewrite be32_bytes_spec. set (a := _ mod 256). set (b := _ mod 256). set (c := _ mod 256).
  set (d := _ mod 256). intros -> ->. repeat split.
  - by apply (idx_at _ pre (b :: c :: d :: post)).
  - apply (idx_at _ (pre ++ [a]) (c :: d :: post)); [solve_app|blia].
  - apply (idx_at _ (pre ++ [a; b]) (d :: post)); [solve_app|blia].
  - apply (idx_at _ (pre ++ [a; b; c]) post); [solve_app|blia].
Qed.

Lemma be_bytes_cons n v : be_bytes (S n) v = (v / 256 ^ Z.of_nat n) mod 256 :: be_bytes n v.
Proof.
  revert v. induction n as [|n IH]; intros v; [cbn; by rewrite Z.div_1_r|].
  change (be_bytes (S (S n)) v) with (be_bytes (S n) (v / 256) ++ [v mod 256]).
  rewrite IH, Nat2Z.inj_succ, Z.pow_succ_r, <- Z.div_div by (lia || (apply Z.pow_nonzero; lia)). done.
Qed.

Lemma be_bytes_add n v c : be_bytes n (v + c * 256 ^ Z.of_nat n) = be_bytes n v.
Proof.
  revert v c. induction n as [|n IH]; intros v c; [done|]. cbn [be_bytes].
  rewrite Nat2Z.inj_succ, Z.pow_succ_r by lia.
  replace (v + c * (256 * 256 ^ Z.of_nat n)) with (v + (c * 256 ^ Z.of_nat n) * 256) by lia.
  by rewrite Z.div_add, Z.mod_add, IH by lia.
Qed.

(** Induction on a list two elements at a time. *)
Lemma list_pair_ind {A} (P : list A -> Prop) :
  P [] -> (forall a, P [a]) -> (forall a b l, P l -> P (a :: b :: l)) -> forall l, P l.
Proof.
  intros H0 H1 H2. fix IH 1. intros [|a [|b l]]; [done|apply H1|apply H2, IH].
Qed.

Lemma blen_4_inv {A} (l : list A) : blen l = 4 -> exists a b c d, l = [a; b; c; d].
Proof.
  unfold blen. destruct l as [|a [|b [|c [|d [|]]]]]; cbn [length]; try lia. eauto.
Qed.

Lemma loop_step {S R} (step : S -> S + R) fuel s s' :
  step s = inl s' -> loop (Datatypes.S fuel) step s = loop fuel step s'.
Proof. intros Hs. cbn. by rewrite Hs. Qed.

Lemma loop_exit {S R} (step : S -> S + R) fuel s r :
  step s = inr r -> loop (Datatypes.S fuel) step s = Some r.
Proof. intros Hs. cbn. by rewrite Hs. Qed.

(** Two runs of a loop that end, end with the same value. *)
Lemma loop_det {S R} (step : S -> S + R) f1 f2 s r1 r2 :
  loop f1 step s = Some r1 -> loop f2 step s = Some r2 -> r1 = r2.
Proof.
  intros H1 H2. apply (loop_mono step f1 (f1 + f2)) in H1; [|lia].
  apply (loop_mono step f2 (f1 + f2)) in H2; [|lia]. congruence.
Qed.

Lemma sub_to_end {A} (l k : list A) lo :
  0 <= lo -> lo <= blen l -> sub (l ++ k) lo (blen (l ++ k)) = sub l lo (blen l) ++ k.
Proof.
  intros H0 H1. unfold sub, blen in *. rewrite length_app, drop_app_le by lia.
  rewrite !take_ge; [done|rewrite length_drop; lia|rewrite length_app, length_drop; lia].
Qed.

(** [slice.swap(i, j)], both in range. *)
Definition swap {A} (l : list A) (i j : nat) : list A :=
  match l !! i, l !! j with Some x, Some y => <[i := y]> (<[j := x]> l) | _, _ => l end.

Lemma swap_perm {A} (l : list A) i j : swap l i j ≡ₚ l.
Proof.
  unfold swap. destruct (l !! i) as [x|] eqn:Ei; [|done]. destruct (l !! j) as [y|] eqn:Ej; [|done].
  destruct (decide (i = j)) as [->|Hne].
  - rewrite Ei in Ej. injection Ej as ->. rewrite !list_insert_id; rewrite ?list_insert_id; done.
  - apply Permutation_inj. split; [by rewrite !length_insert|].
    exists (fun k => if decide (k = i) then j else if decide (k = j) then i else k). split.
    + intros a b. repeat case_decide; congruence.
    + intros k. apply lookup_lt_Some in Ei as Hi. apply lookup_lt_Some in Ej as Hj. repeat case_decide; subst.
      * by rewrite list_lookup_insert_eq by (by rewrite length_insert).
      * rewrite list_lookup_insert_ne by done. by rewrite list_lookup_insert_eq.
      * by rewrite !list_lookup_insert_ne by congruence.
Qed.

(** ** A vector without repetitions

    [if seen.insert(x) { out.push(x) }], with [out] and the set [seen]. *)
Definition push_new {A} `{Countable A} (s : list A * gset A) (x : A) : list A * gset A :=
  if decide (x ∈ s.2) then s else (s.1 ++ [x], {[x]} ∪ s.2).
Definition push_all {A} `{Countable A} (s : list A * gset A) (l : list A) : list A * gset A := fold_left push_new l s.

Section push.
Context {A : Type} `{Countable A}.
Definition seen_inv (s : list A * gset A) : Prop := NoDup s.1 /\ forall x, x ∈ s.1 <-> x ∈ s.2.

Lemma seen_inv_nil : seen_inv ([], ∅).
Proof. split; [constructor|]. set_solver. Qed.

Lemma push_new_inv s x : seen_inv s -> seen_inv (push_new s x) /\ forall y, y ∈ (push_new s x).1 <-> y ∈ s.1 \/ y = x.
Proof.
  intros [Hn Hs]. unfold push_new. destruct (decide (x ∈ s.2)) as [Hx|Hx]; cbn [fst snd].
  - split; [done|]. intros y. split; [tauto|]. intros [?| ->]; [done|]. by apply Hs.
  - split; [split|]; cbn [fst snd].
    + apply NoDup_app. split; [done|]. split; [|apply NoDup_singleton]. intros y Hy ->%list_elem_of_singleton. by apply Hx, Hs.
    + intros y. rewrite elem_of_app, list_elem_of_singleton, Hs. set_solver.
    + intros y. rewrite elem_of_app, list_elem_of_singleton. done.
Qed.

Lemma push_all_inv l : forall s, seen_inv s -> seen_inv (push_all s l) /\ forall y, y ∈ (push_all s l).1 <-> y ∈ s.1 \/ y ∈ l.
Proof.
  induction l as [|x l IH]; intros s Hs; cbn [push_all fold_left].
  - split; [done|]. set_solver.
  - destruct (push_new_inv s x Hs) as [Hn Hm]. destruct (IH _ Hn) as [Hn' Hm']. split; [done|].
    intros y. unfold push_all in Hm'. rewrite Hm', Hm, elem_of_cons. tauto.
Qed.

(** Elements that are distinct and new are all pushed. *)
Lemma push_all_distinct (l : list A) : forall s : list A * gset A, (forall x, x ∈ s.2 -> x ∉ l) -> NoDup l -> (push_all s l).1 = s.1 ++ l.
Proof.
  unfold push_all. induction l as [|x l IH]; intros s Hs Hn; cbn [fold_left]; [by rewrite app_nil_r|].
  apply NoDup_cons in Hn as [Hx Hn].
  assert (push_new s x = (s.1 ++ [x], {[x]} ∪ s.2)) as ->.
  { unfold push_new. rewrite decide_False; [done|]. intros Hin. apply (Hs x Hin), elem_of_cons. by left. }
  rewrite IH; cbn [fst snd]; [by rewrite <- app_assoc| |done]. intros y Hy. set_solver.
Qed.
End push.
