(* ===== verification/Str.v ===== *)
(** * Rust strings

    A [str] is the list of its UTF-8 bytes.  This file holds what the code uses
    of [str], [String], [char] and the integer parsers of the Rust standard
    library: ASCII case, Unicode white space, trimming, searching, splitting,
    [lines], unsigned parsing and UTF-8 validation ([from_utf8],
    [from_utf8_lossy]).  Unicode case mapping depends on the tables of the
    Unicode database; it is the class [UnicodeCase]. *)

From stdpp Require Export strings.
From Stdlib Require Import Wf_nat.
From S2P Require Import Prelude.
Local Open Scope Z_scope.

(** The bytes of a string literal. *)
Definition lit (s : string) : bytes :=
  map (fun a => Z.of_N (Ascii.N_of_ascii a)) (String.list_ascii_of_string s).

(** ** ASCII *)

Definition is_ascii (b : Z) : bool := b <? 128.
Definition str_is_ascii (s : bytes) : bool := forallb is_ascii s.
Definition is_ascii_digit (b : Z) : bool := (48 <=? b) && (b <=? 57).
Definition is_ascii_upper (b : Z) : bool := (65 <=? b) && (b <=? 90).
Definition is_ascii_lower (b : Z) : bool := (97 <=? b) && (b <=? 122).
Definition is_ascii_alphanumeric (b : Z) : bool :=
  is_ascii_digit b || is_ascii_upper b || is_ascii_lower b.

Definition ascii_lower (b : Z) : Z := if is_ascii_upper b then b + 32 else b.
Definition to_ascii_lowercase (s : bytes) : bytes := map ascii_lower s.
Definition eq_ignore_ascii_case (a b : bytes) : bool :=
  bool_decide (to_ascii_lowercase a = to_ascii_lowercase b).

(** ** Unicode case mapping

    [str::to_lowercase]: the identity up to case on ASCII strings, and never an
    ASCII capital in its result. *)
Class UnicodeCase := {
  to_lowercase : bytes -> bytes;
  to_lowercase_ascii s : str_is_ascii s = true -> to_lowercase s = to_ascii_lowercase s;
  to_lowercase_lower s : to_ascii_lowercase (to_lowercase s) = to_lowercase s;
}.

(** ** Unicode white space ([char::is_whitespace]), by the length of its UTF-8 form *)

Definition ws1 (b : Z) : bool := ((9 <=? b) && (b <=? 13)) || (b =? 32).
Definition ws2 (b c : Z) : bool := (b =? 194) && ((c =? 133) || (c =? 160)).
Definition ws3 (b c d : Z) : bool :=
  ((b =? 225) && (c =? 154) && (d =? 128))
  || ((b =? 226) && (c =? 128)
      && (((128 <=? d) && (d <=? 138)) || (d =? 168) || (d =? 169) || (d =? 175)))
  || ((b =? 226) && (c =? 129) && (d =? 159))
  || ((b =? 227) && (c =? 128) && (d =? 128)).

Fixpoint trim_start (s : bytes) : bytes :=
  match s with
  | [] => []
  | b :: t =>
      if ws1 b then trim_start t
      else match t with
           | [] => s
           | c :: t' =>
               if ws2 b c then trim_start t'
               else match t' with
                    | [] => s
                    | d :: t'' => if ws3 b c d then trim_start t'' else s
                    end
           end
  end.

(** [trim_end] on the reversed string. *)
Fixpoint trim_end_rev (r : bytes) : bytes :=
  match r with
  | [] => []
  | d :: t =>
      if ws1 d then trim_end_rev t
      else match t with
           | [] => r
           | c :: t' =>
               if ws2 c d then trim_end_rev t'
               else match t' with
                    | [] => r
                    | b :: t'' => if ws3 b c d then trim_end_rev t'' else r
                    end
           end
  end.

Definition trim_end (s : bytes) : bytes := rev (trim_end_rev (rev s)).
Definition trim (s : bytes) : bytes := trim_end (trim_start s).

(** ** Searching and splitting at ASCII characters *)

Fixpoint drop_while (p : Z -> bool) (s : bytes) : bytes :=
  match s with
  | [] => []
  | b :: t => if p b then drop_while p t else s
  end.

Definition trim_start_matches (c : Z) (s : bytes) : bytes := drop_while (Z.eqb c) s.
Definition trim_end_matches (c : Z) (s : bytes) : bytes := rev (drop_while (Z.eqb c) (rev s)).

Fixpoint starts_with (p s : bytes) : bool :=
  match p, s with
  | [], _ => true
  | a :: p', b :: s' => (a =? b) && starts_with p' s'
  | _ :: _, [] => false
  end.
Definition ends_with (p s : bytes) : bool := starts_with (rev p) (rev s).

Fixpoint contains (p s : bytes) : bool :=
  starts_with p s || match s with [] => false | _ :: t => contains p t end.
Definition contains_char (c : Z) (s : bytes) : bool := existsb (Z.eqb c) s.

Definition strip_prefix (p s : bytes) : option bytes :=
  if starts_with p s then Some (drop (length p) s) else None.
Definition strip_suffix (p s : bytes) : option bytes :=
  if ends_with p s then Some (take (length s - length p)%nat s) else None.

(** [s.find(c)] *)
Fixpoint find_char (c : Z) (s : bytes) : option Z :=
  match s with
  | [] => None
  | b :: t => if c =? b then Some 0 else Z.succ <$> find_char c t
  end.

(** [s.split_once(c)] and [s.rsplit_once(c)] *)
Fixpoint split_once (c : Z) (s : bytes) : option (bytes * bytes) :=
  match s with
  | [] => None
  | b :: t =>
      if c =? b then Some ([], t)
      else match split_once c t with
           | Some (l, r) => Some (b :: l, r)
           | None => None
           end
  end.
Definition rsplit_once (c : Z) (s : bytes) : option (bytes * bytes) :=
  match split_once c (rev s) with
  | Some (r, l) => Some (rev l, rev r)
  | None => None
  end.

(** [s.split(p)] for a set [p] of characters *)
Fixpoint split_chars (p : Z -> bool) (s : bytes) : list bytes :=
  match s with
  | [] => [[]]
  | b :: t =>
      match split_chars p t with
      | [] => [[b]]
      | w :: ws => if p b then [] :: w :: ws else (b :: w) :: ws
      end
  end.
Definition split_char (c : Z) (s : bytes) : list bytes := split_chars (Z.eqb c) s.

(** [s.split("\r\n")] *)
Fixpoint split_crlf (s : bytes) : list bytes :=
  match s with
  | [] => [[]]
  | b :: t =>
      match t with
      | c :: t' =>
          if (b =? 13) && (c =? 10) then [] :: split_crlf t'
          else match split_crlf t with
               | [] => [[b]]
               | w :: ws => (b :: w) :: ws
               end
      | [] => [[b]]
      end
  end.

(** [s.lines()]: the pieces ended by a newline, with the newline and a carriage
    return before it removed; a last piece with no newline is kept as it is
    unless it is empty. *)
Definition strip_cr (s : bytes) : bytes :=
  match strip_suffix [13] s with Some t => t | None => s end.
Fixpoint lines_of (pieces : list bytes) : list bytes :=
  match pieces with
  | [] => []
  | [last] => match last with [] => [] | _ => [last] end
  | p :: ps => strip_cr p :: lines_of ps
  end.
Definition lines (s : bytes) : list bytes := lines_of (split_char 10 s).

(** ** Unsigned integers

    [str::parse] for an unsigned type whose largest value is [max]: a leading
    ['+'] is allowed, then one digit or more, and no overflow. *)
Fixpoint parse_digits (max acc : Z) (s : bytes) : option Z :=
  match s with
  | [] => Some acc
  | b :: t =>
      if is_ascii_digit b then
        let acc' := acc * 10 + (b - 48) in
        if acc' <=? max then parse_digits max acc' t else None
      else None
  end.
Definition parse_uint (max : Z) (s : bytes) : option Z :=
  match s with
  | [] => None
  | b :: t =>
      if b =? 43 then match t with [] => None | _ => parse_digits max 0 t end
      else parse_digits max 0 s
  end.
(** [usize::from_str_radix(_, 16)]. *)
Definition hex_value (b : Z) : option Z :=
  if is_ascii_digit b then Some (b - 48)
  else if (97 <=? b) && (b <=? 102) then Some (b - 87)
  else if (65 <=? b) && (b <=? 70) then Some (b - 55)
  else None.
Fixpoint parse_hex_digits (max acc : Z) (s : bytes) : option Z :=
  match s with
  | [] => Some acc
  | b :: t =>
      match hex_value b with
      | Some d => let acc' := acc * 16 + d in if acc' <=? max then parse_hex_digits max acc' t else None
      | None => None
      end
  end.
Definition parse_hex (max : Z) (s : bytes) : option Z :=
  match s with
  | [] => None
  | b :: t =>
      if b =? 43 then match t with [] => None | _ => parse_hex_digits max 0 t end
      else parse_hex_digits max 0 s
  end.
Definition parse_u16 := parse_uint U16_MAX.
Definition parse_u64 := parse_uint U64_MAX.

(** The position of [p] in [s] ([str::find]), and [str::split_whitespace]. *)
Fixpoint find_sub (p s : bytes) : option Z :=
  if starts_with p s then Some 0
  else match s with [] => None | _ :: t => (fun i => i + 1) <$> find_sub p t end.

(** Whether a white space character starts [s]. *)
Definition at_ws (s : bytes) : bool :=
  match s with
  | b :: t =>
      ws1 b || match t with
               | c :: t' => ws2 b c || match t' with d :: _ => ws3 b c d | [] => false end
               | [] => false
               end
  | [] => false
  end.
Fixpoint take_word (s : bytes) : bytes * bytes :=
  match s with
  | [] => ([], [])
  | b :: t => if at_ws s then ([], s) else let '(w, r) := take_word t in (b :: w, r)
  end.
Fixpoint split_whitespace_fuel (fuel : nat) (s : bytes) : list bytes :=
  match fuel with
  | O => []
  | S fuel' =>
      match trim_start s with
      | [] => []
      | s' => let '(w, r) := take_word s' in w :: split_whitespace_fuel fuel' r
      end
  end.
Definition split_whitespace (s : bytes) : list bytes := split_whitespace_fuel (length s) s.

(** [Display] of an unsigned integer (of at most 39 digits, as a [u128] has). *)
Fixpoint dec_digits (fuel : nat) (z : Z) : bytes :=
  match fuel with
  | O => []
  | S fuel' => (if z <? 10 then [] else dec_digits fuel' (z / 10)) ++ [48 + z mod 10]
  end.
Definition dec (z : Z) : bytes := dec_digits 39 z.

(** ** UTF-8 *)

Definition cont (b : Z) : bool := (128 <=? b) && (b <=? 191).

(** The range of the second byte after a lead byte, and how many bytes follow
    the lead byte. *)
Definition utf8_lead (b : Z) : option (Z * Z * nat) :=
  if (194 <=? b) && (b <=? 223) then Some (128, 191, 1%nat)
  else if b =? 224 then Some (160, 191, 2%nat)
  else if (225 <=? b) && (b <=? 236) then Some (128, 191, 2%nat)
  else if b =? 237 then Some (128, 159, 2%nat)
  else if (238 <=? b) && (b <=? 239) then Some (128, 191, 2%nat)
  else if b =? 240 then Some (144, 191, 3%nat)
  else if (241 <=? b) && (b <=? 243) then Some (128, 191, 3%nat)
  else if b =? 244 then Some (128, 143, 3%nat)
  else None.

(** How many of the first [n] bytes of [s] are continuation bytes, counted up
    to the first that is not. *)
Fixpoint conts (n : nat) (s : bytes) : nat :=
  match n, s with
  | S n', b :: t => if cont b then S (conts n' t) else O
  | _, _ => O
  end.

(** The sequence at the head of [b :: t]: whether it is a scalar value, and its
    length; an ill-formed one is the longest prefix of a well-formed one, of
    at least one byte. *)
Definition utf8_head (b : Z) (t : bytes) : bool * nat :=
  if is_ascii b then (true, 1%nat)
  else match utf8_lead b with
       | None => (false, 1%nat)
       | Some (lo, hi, n) =>
           match t with
           | c :: t' =>
               if (lo <=? c) && (c <=? hi) then
                 let k := conts (n - 1) t' in
                 (bool_decide (k = (n - 1)%nat), (2 + k)%nat)
               else (false, 1%nat)
           | [] => (false, 1%nat)
           end
       end.

Definition REPLACEMENT : bytes := [239; 191; 189].

Fixpoint utf8_valid_fuel (fuel : nat) (s : bytes) : bool :=
  match fuel, s with
  | _, [] => true
  | O, _ => false
  | S fuel', b :: t =>
      let '(ok, n) := utf8_head b t in ok && utf8_valid_fuel fuel' (drop n s)
  end.
Definition utf8_valid (s : bytes) : bool := utf8_valid_fuel (length s) s.

(** [std::str::from_utf8(b).ok()] *)
Definition from_utf8 (s : bytes) : option bytes := if utf8_valid s then Some s else None.

Fixpoint lossy_fuel (fuel : nat) (s : bytes) : bytes :=
  match fuel, s with
  | _, [] => []
  | O, _ => []
  | S fuel', b :: t =>
      let '(ok, n) := utf8_head b t in
      (if ok then take n s else REPLACEMENT) ++ lossy_fuel fuel' (drop n s)
  end.

(** [String::from_utf8_lossy(b)] *)
Definition from_utf8_lossy (s : bytes) : bytes := lossy_fuel (length s) s.

Example trim_ex : trim (lit "  a b" ++ [194; 160; 10]) = lit "a b".
Proof. reflexivity. Qed.
Example split_whitespace_ex : split_whitespace (lit " a  bc" ++ [194; 160] ++ lit "d ") = [lit "a"; lit "bc"; lit "d"].
Proof. reflexivity. Qed.
Example dec_ex : dec 0 = lit "0" /\ dec 65535 = lit "65535".
Proof. done. Qed.
Example lossy_ex :
  from_utf8_lossy [65; 226; 130; 66; 255; 195; 169] = [65] ++ REPLACEMENT ++ [66] ++ REPLACEMENT ++ [195; 169].
Proof. reflexivity. Qed.
Example lines_ex : lines (lit "a" ++ [13; 10] ++ lit "b" ++ [10; 10] ++ lit "c") = [lit "a"; lit "b"; []; lit "c"].
Proof. reflexivity. Qed.

(** ** Lemmas on case *)

Lemma ascii_lower_idem b : ascii_lower (ascii_lower b) = ascii_lower b.
Proof. unfold ascii_lower, is_ascii_upper. repeat zcase; lia. Qed.

Lemma to_ascii_lowercase_idem s : to_ascii_lowercase (to_ascii_lowercase s) = to_ascii_lowercase s.
Proof. unfold to_ascii_lowercase. rewrite map_map. apply map_ext, ascii_lower_idem. Qed.

Lemma to_ascii_lowercase_app s t :
  to_ascii_lowercase (s ++ t) = to_ascii_lowercase s ++ to_ascii_lowercase t.
Proof. apply map_app. Qed.

Lemma blen_to_ascii_lowercase s : blen (to_ascii_lowercase s) = blen s.
Proof. unfold blen, to_ascii_lowercase. by rewrite length_map. Qed.
#[export] Hint Rewrite blen_to_ascii_lowercase : blens.

(** Case mapping restricted to ASCII satisfies the laws of [UnicodeCase]. *)
Definition ascii_case : UnicodeCase :=
  {| to_lowercase := to_ascii_lowercase;
     to_lowercase_ascii := fun _ _ => eq_refl;
     to_lowercase_lower := to_ascii_lowercase_idem |}.

(** ** Lemmas on trimming: the result is an infix of the string *)

(** The length of the white space character at the head of [s], 0 if there is none. *)
Definition ws_len (s : bytes) : nat :=
  match s with
  | [] => 0
  | b :: t =>
      if ws1 b then 1
      else match t with
           | [] => 0
           | c :: t' =>
               if ws2 b c then 2
               else match t' with [] => 0 | d :: _ => if ws3 b c d then 3 else 0 end
           end
  end%nat.

Lemma trim_start_eq s :
  trim_start s = match ws_len s with O => s | S n => trim_start (drop (S n) s) end.
Proof.
  destruct s as [|b t]; [done|]. cbn [trim_start ws_len]. destruct (ws1 b); [done|].
  destruct t as [|c t]; [done|]. destruct (ws2 b c); [done|].
  destruct t as [|d t]; [done|]. by destruct (ws3 b c d).
Qed.

(** [trim_end_rev] reads the characters of the reversed string backwards. *)
Definition ws_len_rev (r : bytes) : nat :=
  match r with
  | [] => 0
  | d :: t =>
      if ws1 d then 1
      else match t with
           | [] => 0
           | c :: t' =>
               if ws2 c d then 2
               else match t' with [] => 0 | b :: _ => if ws3 b c d then 3 else 0 end
           end
  end%nat.

Lemma trim_end_rev_eq s :
  trim_end_rev s = match ws_len_rev s with O => s | S n => trim_end_rev (drop (S n) s) end.
Proof.
  destruct s as [|d t]; [done|]. cbn [trim_end_rev ws_len_rev]. destruct (ws1 d); [done|].
  destruct t as [|c t]; [done|]. destruct (ws2 c d); [done|].
  destruct t as [|b t]; [done|]. by destruct (ws3 b c d).
Qed.

(** A function that strips characters from the head until there is none left
    to strip gives a suffix. *)
Lemma strip_suffix_of (f : bytes -> bytes) (n : bytes -> nat) :
  (forall s, f s = match n s with O => s | S k => f (drop (S k) s) end) ->
  f [] = [] ->
  forall s, exists p, s = p ++ f s.
Proof.
  intros Hf Hnil s. induction s as [s IH] using (induction_ltof1 _ length). unfold ltof in IH.
  rewrite Hf. destruct (n s) as [|k]; [by exists []|].
  destruct s as [|b t]; [cbn; rewrite Hnil; by exists []|].
  destruct (IH (drop (S k) (b :: t))) as [p Hp]; [cbn; rewrite length_drop; lia|].
  exists (take (S k) (b :: t) ++ p). rewrite <- app_assoc, <- Hp. symmetry. apply take_drop.
Qed.

Lemma trim_start_suffix s : exists p, s = p ++ trim_start s.
Proof. apply (strip_suffix_of _ ws_len); [apply trim_start_eq | done]. Qed.

Lemma trim_end_prefix s : exists q, s = trim_end s ++ q.
Proof.
  destruct (strip_suffix_of trim_end_rev ws_len_rev trim_end_rev_eq eq_refl (rev s)) as [p Hp].
  exists (rev p). unfold trim_end. rewrite <- rev_app_distr, <- Hp. by rewrite rev_involutive.
Qed.

Lemma trim_infix s : exists p q, s = p ++ trim s ++ q.
Proof.
  destruct (trim_start_suffix s) as [p Hp]. destruct (trim_end_prefix (trim_start s)) as [q Hq].
  exists p, q. unfold trim. by rewrite <- Hq.
Qed.

Lemma drop_while_suffix p s : exists t, s = t ++ drop_while p s /\ forallb p t = true.
Proof.
  induction s as [|b s IH]; [by exists []|]. cbn. destruct (p b) eqn:Hb; [|by exists []].
  destruct IH as (t & Ht & Hp). exists (b :: t). cbn. by rewrite <- Ht, Hb, Hp.
Qed.

Lemma drop_while_head p s : match drop_while p s with [] => True | b :: _ => p b = false end.
Proof. induction s as [|b s IH]; [done|]. cbn. by destruct (p b) eqn:Hb. Qed.

Lemma trim_end_matches_prefix c s : exists q, s = trim_end_matches c s ++ q /\ forallb (Z.eqb c) q = true.
Proof.
  destruct (drop_while_suffix (Z.eqb c) (rev s)) as (t & Ht & Hp).
  exists (rev t). split.
  - unfold trim_end_matches. rewrite <- rev_app_distr, <- Ht. by rewrite rev_involutive.
  - rewrite forallb_forall in *. intros x Hx%in_rev. auto.
Qed.

Lemma trim_end_matches_last c s t b : trim_end_matches c s = t ++ [b] -> b <> c.
Proof.
  unfold trim_end_matches. intros H%(f_equal (@rev Z)). rewrite rev_involutive, rev_unit in H.
  pose proof (drop_while_head (Z.eqb c) (rev s)) as Hh. rewrite H in Hh. zbool. congruence.
Qed.

Lemma trim_end_matches_id c s :
  (forall t, s <> t ++ [c]) -> trim_end_matches c s = s.
Proof.
  intros Hs. unfold trim_end_matches. destruct s as [|b t _] using rev_ind; [done|].
  rewrite rev_unit. cbn. destruct (c =? b) eqn:E; zbool; [subst; by destruct (Hs t)|].
  cbn. by rewrite rev_involutive.
Qed.

(** ** Lemmas on lines and on UTF-8 *)

Definition no_char (c : Z) (s : bytes) : bool := forallb (fun b => negb (b =? c)) s.

Lemma split_crlf_cons b c t :
  split_crlf (b :: c :: t)
  = if (b =? 13) && (c =? 10) then [] :: split_crlf t
    else match split_crlf (c :: t) with [] => [[b]] | w :: ws => (b :: w) :: ws end.
Proof. done. Qed.

Lemma split_crlf_app w t :
  no_char 13 w = true -> split_crlf (w ++ [13; 10] ++ t) = w :: split_crlf t.
Proof.
  induction w as [|b w IH]; [done|]. intros [Hb Hw]%andb_prop. specialize (IH Hw).
  change ((b :: w) ++ [13; 10] ++ t) with (b :: (w ++ [13; 10] ++ t)).
  destruct (w ++ [13; 10] ++ t) as [|c r] eqn:E; [by destruct w|].
  rewrite split_crlf_cons. apply negb_true_iff in Hb. rewrite Hb. cbn [andb]. by rewrite IH.
Qed.

Lemma lossy_fuel_ascii s : forall fuel t,
  str_is_ascii s = true ->
  (length (s ++ t) <= fuel)%nat ->
  lossy_fuel fuel (s ++ t) = s ++ lossy_fuel (fuel - length s) t.
Proof.
  induction s as [|b s IH]; intros fuel t Hs Hf; [by rewrite Nat.sub_0_r|].
  destruct fuel as [|fuel]; [cbn in Hf; lia|]. cbn in Hs. apply andb_prop in Hs as [Hb Hs].
  cbn [app lossy_fuel]. unfold utf8_head. rewrite Hb. cbn [firstn skipn app length Nat.sub]. f_equal.
  rewrite take_0, drop_0. apply IH; [done | cbn in Hf; lia].
Qed.

Lemma lossy_app_ascii s t :
  str_is_ascii s = true -> exists r, from_utf8_lossy (s ++ t) = s ++ r.
Proof. intros. unfold from_utf8_lossy. rewrite lossy_fuel_ascii by done. eauto. Qed.

Lemma lossy_ascii s : str_is_ascii s = true -> from_utf8_lossy s = s.
Proof.
  intros. unfold from_utf8_lossy. rewrite <- (app_nil_r s) at 2.
  rewrite lossy_fuel_ascii by (done || rewrite app_nil_r; lia).
  destruct (length s - length s)%nat; cbn; apply app_nil_r.
Qed.

Lemma str_is_ascii_app s t : str_is_ascii (s ++ t) = str_is_ascii s && str_is_ascii t.
Proof. apply forallb_app. Qed.

Lemma split_once_app c s t : no_char c s = true -> split_once c (s ++ [c] ++ t) = Some (s, t).
Proof.
  induction s as [|b s IH]; cbn; [by rewrite Z.eqb_refl|].
  intros [Hb Hs]%andb_prop. apply negb_true_iff in Hb. rewrite Z.eqb_sym, Hb.
  cbn in IH. by rewrite IH.
Qed.

(** ** Lemmas on searching *)

Lemma starts_with_spec p s : starts_with p s = true <-> exists t, s = p ++ t.
Proof.
  revert s. induction p as [|a p IH]; intros s; [cbn; split; [by exists s | done]|].
  destruct s as [|b s]; cbn; [split; [done | by intros []]|].
  rewrite andb_true_iff, Z.eqb_eq, IH. split.
  - intros [-> [t ->]]. by exists t.
  - intros [t [= -> ->]]. eauto.
Qed.

Lemma ends_with_spec p s : ends_with p s = true <-> exists t, s = t ++ p.
Proof.
  unfold ends_with. rewrite starts_with_spec. split; intros [t Ht].
  - exists (rev t). apply (f_equal (@rev Z)) in Ht.
    by rewrite rev_involutive, rev_app_distr, rev_involutive in Ht.
  - exists (rev t). by rewrite Ht, rev_app_distr.
Qed.

Lemma find_char_Some c s i :
  find_char c s = Some i -> exists p t, s = p ++ [c] ++ t /\ i = blen p /\ no_char c p = true.
Proof.
  revert i. induction s as [|b s IH]; intros i; [done|]. cbn [find_char].
  destruct (c =? b) eqn:Hc; zbool.
  - intros [= <-]. subst b. by exists [], s.
  - destruct (find_char c s) as [j|]; [|done]. intros [= <-].
    destruct (IH j eq_refl) as (p & t & -> & -> & Hp).
    exists (b :: p), t. repeat split; [blia|].
    cbn. rewrite (proj2 (Z.eqb_neq b c)) by congruence. done.
Qed.

Lemma find_char_None c s : find_char c s = None -> no_char c s = true.
Proof.
  induction s as [|b s IH]; [done|]. cbn. destruct (c =? b) eqn:Hc; [done|]. zbool.
  destruct (find_char c s); [done|]. intros _.
  rewrite (proj2 (Z.eqb_neq b c)) by congruence. by apply IH.
Qed.

Lemma no_char_app c s t : no_char c (s ++ t) = no_char c s && no_char c t.
Proof. apply forallb_app. Qed.

Lemma no_char_not_in c s t : no_char c (s ++ [c] ++ t) = false.
Proof. rewrite !no_char_app. cbn. rewrite Z.eqb_refl. cbn. apply andb_false_r. Qed.

(** ** Lemmas on splitting *)

Lemma split_chars_cons_no p b t : p b = false ->
  split_chars p (b :: t) = match split_chars p t with [] => [[b]] | w :: ws => (b :: w) :: ws end.
Proof. intros Hb. cbn. rewrite Hb. by destruct (split_chars p t). Qed.

Lemma split_chars_not_nil p s : split_chars p s <> [].
Proof. destruct s as [|b t]; [done|]. cbn. destruct (split_chars p t); [done|]. by destruct (p b). Qed.

Lemma split_chars_app p w c t :
  forallb (fun b => negb (p b)) w = true -> p c = true ->
  split_chars p (w ++ [c] ++ t) = w :: split_chars p t.
Proof.
  intros Hw Hc. induction w as [|b w IH].
  - cbn. rewrite Hc. pose proof (split_chars_not_nil p t). by destruct (split_chars p t).
  - apply andb_prop in Hw as [Hb Hw]. apply negb_true_iff in Hb.
    change ((b :: w) ++ [c] ++ t) with (b :: (w ++ [c] ++ t)).
    by rewrite split_chars_cons_no, IH.
Qed.

Lemma split_chars_none p w : forallb (fun b => negb (p b)) w = true -> split_chars p w = [w].
Proof.
  induction w as [|b w IH]; [done|]. intros [Hb Hw]%andb_prop. apply negb_true_iff in Hb.
  by rewrite split_chars_cons_no, IH.
Qed.

(** Text made of lines that hold no newline gives those lines back. *)
Definition join_lines (ls : list bytes) : bytes := concat (map (fun l => l ++ [10]) ls).

Lemma join_lines_app ls ks : join_lines (ls ++ ks) = join_lines ls ++ join_lines ks.
Proof. unfold join_lines. by rewrite map_app, concat_app. Qed.

Lemma no_char_negb_eqb c s : no_char c s = true -> forallb (fun b => negb (Z.eqb c b)) s = true.
Proof.
  unfold no_char. rewrite !forallb_forall. intros Hs x Hx. rewrite Z.eqb_sym. by apply Hs.
Qed.

Lemma lines_join_lines ls :
  forallb (fun l => no_char 10 l && no_char 13 l) ls = true -> lines (join_lines ls) = ls.
Proof.
  unfold lines, split_char. induction ls as [|l ls IH]; [done|].
  cbn [forallb]. intros [[Hl Hr]%andb_prop Hls]%andb_prop.
  change (join_lines (l :: ls)) with ((l ++ [10]) ++ join_lines ls).
  rewrite <- app_assoc, split_chars_app by (done || by apply no_char_negb_eqb).
  specialize (IH Hls). cbn [lines_of].
  pose proof (split_chars_not_nil (Z.eqb 10) (join_lines ls)).
  destruct (split_chars (Z.eqb 10) (join_lines ls)) as [|w ws]; [done|].
  cbn [lines_of] in *. rewrite IH. f_equal.
  unfold strip_cr, strip_suffix. destruct (ends_with [13] l) eqn:He; [|done].
  apply ends_with_spec in He as [t ->].
  pose proof (no_char_not_in 13 t []) as Hn. cbn [app] in Hn. congruence.
Qed.

(** Labels joined by dots, and their split. *)
Definition join_dots (ls : list bytes) : bytes :=
  match ls with
  | [] => []
  | l :: ls => l ++ concat (map (fun l => [46] ++ l) ls)
  end.

Lemma split_join_dots l ls :
  Forall (fun l => no_char 46 l = true) (l :: ls) -> split_char 46 (join_dots (l :: ls)) = l :: ls.
Proof.
  unfold split_char. revert l. induction ls as [|k ls IH]; intros l [Hl Hls]%Forall_cons; cbn [join_dots].
  - cbn. rewrite app_nil_r. by apply split_chars_none, no_char_negb_eqb.
  - cbn [map concat]. rewrite <- app_assoc.
    rewrite split_chars_app by (done || by apply no_char_negb_eqb). f_equal. by apply IH.
Qed.

(** ** Lemmas on substrings *)

Lemma starts_with_app p s t : (length p <= length s)%nat -> starts_with p (s ++ t) = starts_with p s.
Proof.
  revert s. induction p as [|a p IH]; intros s Hl; [done|]. destruct s as [|b s]; cbn in *; [lia|].
  by rewrite IH by lia.
Qed.

Lemma starts_with_length p s : starts_with p s = true -> (length p <= length s)%nat.
Proof. intros [t ->]%starts_with_spec. rewrite length_app. lia. Qed.

Lemma find_sub_length p s i : find_sub p s = Some i -> (length p <= length s)%nat.
Proof.
  revert i. induction s as [|b s IH]; intros i; cbn [find_sub].
  - destruct (starts_with p []) eqn:Hs; [by apply starts_with_length in Hs|done].
  - destruct (starts_with p (b :: s)) eqn:Hs; [by apply starts_with_length in Hs|].
    destruct (find_sub p s) as [j|]; [|done]. specialize (IH j eq_refl). cbn. lia.
Qed.

(** What is found stays where it is when bytes are appended. *)
Lemma find_sub_app p s t i : find_sub p s = Some i -> find_sub p (s ++ t) = Some i.
Proof.
  revert i. induction s as [|b s IH]; intros i; cbn [find_sub app].
  - destruct (starts_with p []) eqn:Hs; [|done]. destruct p; [|done]. intros [= <-]. by destruct t.
  - intros Hf. pose proof (find_sub_length p (b :: s) i Hf) as Hl. cbn [find_sub] in Hf.
    change (b :: s ++ t) with ((b :: s) ++ t). rewrite starts_with_app by done.
    destruct (starts_with p (b :: s)); [done|]. destruct (find_sub p s) as [j|]; [|done].
    by rewrite (IH j).
Qed.

Lemma find_sub_bounds p s i : find_sub p s = Some i -> 0 <= i /\ i + blen p <= blen s.
Proof.
  revert i. induction s as [|b s IH]; intros i; cbn [find_sub].
  - destruct (starts_with p []) eqn:Hs; [|done]. intros [= <-]. apply starts_with_length in Hs. unfold blen. cbn in *. lia.
  - destruct (starts_with p (b :: s)) eqn:Hs.
    + intros [= <-]. apply starts_with_length in Hs. unfold blen. lia.
    + destruct (find_sub p s) as [j|]; [|done]. intros [= <-]. specialize (IH j eq_refl). rewrite blen_cons. lia.
Qed.

(** A line that holds no CR ends at the first CRLF. *)
Lemma find_crlf line t : no_char 13 line = true -> find_sub [13; 10] (line ++ [13; 10] ++ t) = Some (blen line).
Proof.
  induction line as [|b line IH]; intros Hn; [done|]. cbn [no_char forallb] in Hn.
  apply andb_prop in Hn as [Hb Hn]. apply negb_true_iff, Z.eqb_neq in Hb. specialize (IH Hn).
  cbn [app find_sub] in *. unfold starts_with at 1. rewrite (proj2 (Z.eqb_neq 13 b)) by lia. cbn [andb].
  rewrite IH. cbn. f_equal. rewrite blen_cons. lia.
Qed.

(** A search may start at the first place where an occurrence is not already
    excluded. *)
Lemma find_sub_skip p pre mid rest :
  (length p <= S (length mid))%nat -> find_sub p (pre ++ mid) = None ->
  find_sub p (pre ++ mid ++ rest) = (fun i => blen pre + i) <$> find_sub p (mid ++ rest).
Proof.
  intros Hl. induction pre as [|b pre IH]; intros Hn.
  - cbn [app]. by destruct (find_sub p (mid ++ rest)).
  - cbn [app find_sub] in *. destruct (starts_with p (b :: pre ++ mid)) eqn:Hs; [done|].
    rewrite (app_assoc pre), app_comm_cons, starts_with_app, Hs; [|cbn; rewrite length_app; lia].
    rewrite <- app_assoc, IH by (by destruct (find_sub p (pre ++ mid))).
    destruct (find_sub p (mid ++ rest)); [|done]. cbn. f_equal. rewrite blen_cons. lia.
Qed.

Lemma find_sub_None_app p s t : find_sub p (s ++ t) = None -> find_sub p s = None.
Proof. destruct (find_sub p s) as [i|] eqn:Hs; [|done]. by rewrite (find_sub_app _ _ t _ Hs). Qed.

(** The search of an incremental reader: it looked at [body] from [at_] to
    [searched] and found nothing, and goes on from there. *)
Lemma find_sub_resume p body at_ searched :
  0 <= at_ -> at_ <= searched -> searched <= blen body -> p <> [] ->
  find_sub p (sub body at_ searched) = None ->
  let from := Z.max (Z.max (searched - (blen p - 1)) 0) at_ in
  find_sub p (sub body at_ (blen body)) = (fun i => from - at_ + i) <$> find_sub p (sub body from (blen body)).
Proof.
  intros H0 H1 H2 Hp Hn from. assert (1 <= blen p) by (destruct p; [done|]; blia).
  assert (at_ <= from <= searched /\ (from = at_ \/ from = searched - (blen p - 1))) as [Hf Hd] by (subst from; lia).
  clearbody from.
  assert (forall lo mid hi, 0 <= lo -> lo <= mid -> mid <= hi -> hi <= blen body ->
    sub body lo hi = sub body lo mid ++ sub body mid hi) as Hcut.
  { intros lo mid hi ????. unfold sub.
    replace (Z.to_nat (hi - lo)) with (Z.to_nat (mid - lo) + Z.to_nat (hi - mid))%nat by lia.
    rewrite <- take_take_drop, drop_drop. do 3 f_equal; lia. }
  rewrite (Hcut at_ from (blen body)) by lia. rewrite (Hcut from searched (blen body)) at 1 by lia.
  destruct (Z.eq_dec from at_) as [->|Hne].
  - rewrite (sub_empty body at_ at_) by lia. cbn [app]. rewrite <- (Hcut at_ searched) by lia.
    destruct (find_sub p (sub body at_ (blen body))); [|done]. cbn. f_equal. lia.
  - rewrite find_sub_skip.
    + rewrite <- (Hcut from searched), blen_sub by lia. done.
    + assert (blen (sub body from searched) = searched - from) as Hb by (apply blen_sub; lia).
      unfold blen in *. lia.
    + rewrite <- (Hcut at_ from searched) by lia. done.
Qed.

Lemma parse_digits_bounds max s : forall acc n,
  0 <= acc <= max -> parse_digits max acc s = Some n -> 0 <= n <= max.
Proof.
  induction s as [|b s IH]; intros acc n Ha; cbn [parse_digits]; [by intros [= <-]|].
  unfold is_ascii_digit. destruct ((48 <=? b) && (b <=? 57)) eqn:Hb; [|done]. zbool. zcase; [|done]. apply IH. lia.
Qed.

(** A number that is parsed is of its type. *)
Lemma parse_uint_bounds max s n : 0 <= max -> parse_uint max s = Some n -> 0 <= n <= max.
Proof.
  intros Hm. destruct s as [|b s]; [done|]. cbn -[parse_digits].
  destruct (b =? 43); [destruct s; [done|]|]; by apply parse_digits_bounds.
Qed.

Lemma parse_hex_digits_bounds max s : forall acc n,
  0 <= acc <= max -> parse_hex_digits max acc s = Some n -> 0 <= n <= max.
Proof.
  induction s as [|b s IH]; intros acc n Ha; cbn [parse_hex_digits]; [by intros [= <-]|].
  destruct (hex_value b) as [d|] eqn:Hb; [|done]. zcase; [|done]. apply IH.
  unfold hex_value, is_ascii_digit in Hb. match_in Hb; zbool; lia.
Qed.

Lemma parse_hex_bounds max s n : 0 <= max -> parse_hex max s = Some n -> 0 <= n <= max.
Proof.
  intros Hm. destruct s as [|b s]; [done|]. cbn -[parse_hex_digits].
  destruct (b =? 43); [destruct s; [done|]|]; by apply parse_hex_digits_bounds.
Qed.
