(* ===== verification/Ip.v ===== *)
(** * IP and socket addresses

    [std::net]: addresses as the integers of their octets in network order,
    their parsers (the recursive-descent parser of the standard library) and
    the classification methods the code calls. *)

From S2P Require Import Prelude Str.
Local Open Scope Z_scope.

(** An IPv4 address is a [u32], an IPv6 address a [u128]. *)
Inductive IpAddr : Type :=
| V4 (a : Z)
| V6 (a : Z).

#[export] Instance IpAddr_eq_dec : EqDecision IpAddr.
Proof. solve_decision. Defined.
#[export] Instance IpAddr_countable : Countable IpAddr.
Proof.
  refine (inj_countable'
    (fun ip => match ip with V4 a => inl a | V6 a => inr a end)
    (fun x => match x with inl a => V4 a | inr a => V6 a end) _).
  by intros [].
Defined.

Definition ip_wf (ip : IpAddr) : Prop :=
  match ip with
  | V4 a => 0 <= a <= U32_MAX
  | V6 a => 0 <= a < 2 ^ 128
  end.

(** [SocketAddr]: an address and a port; the flow information and the scope of
    an IPv6 socket address are not kept. *)
Record SocketAddr := mkSocketAddr { sa_ip : IpAddr; sa_port : Z }.
#[export] Instance SocketAddr_eq_dec : EqDecision SocketAddr.
Proof. solve_decision. Defined.
#[export] Instance SocketAddr_countable : Countable SocketAddr.
Proof.
  refine (inj_countable' (fun s => (sa_ip s, sa_port s)) (fun p => mkSocketAddr p.1 p.2) _).
  by intros [].
Defined.

Definition octets (ip : IpAddr) : bytes :=
  match ip with V4 a => be_bytes 4 a | V6 a => be_bytes 16 a end.
Definition octet (a : Z) (n : Z) : Z := (a / 2 ^ (8 * (3 - n))) mod 256.
Definition segment0 (a : Z) : Z := a / 2 ^ 112.

Definition v4_new (a b c d : Z) : Z := be_combine [a; b; c; d].

(** ** Classification *)

Definition v4_in (a lo bits : Z) : bool := a / 2 ^ (32 - bits) =? lo / 2 ^ (32 - bits).
Definition v4_is_private (a : Z) : bool :=
  v4_in a (v4_new 10 0 0 0) 8 || v4_in a (v4_new 172 16 0 0) 12 || v4_in a (v4_new 192 168 0 0) 16.
Definition v4_is_loopback (a : Z) : bool := octet a 0 =? 127.
Definition v4_is_link_local (a : Z) : bool := v4_in a (v4_new 169 254 0 0) 16.
Definition v4_is_broadcast (a : Z) : bool := a =? U32_MAX.
Definition v4_is_documentation (a : Z) : bool :=
  v4_in a (v4_new 192 0 2 0) 24 || v4_in a (v4_new 198 51 100 0) 24
  || v4_in a (v4_new 203 0 113 0) 24.
Definition v4_is_unspecified (a : Z) : bool := a =? 0.
Definition v6_is_loopback (a : Z) : bool := a =? 1.
Definition v6_is_unspecified (a : Z) : bool := a =? 0.

Definition ip_is_loopback (ip : IpAddr) : bool :=
  match ip with V4 a => v4_is_loopback a | V6 a => v6_is_loopback a end.
Definition ip_is_unspecified (ip : IpAddr) : bool :=
  match ip with V4 a => v4_is_unspecified a | V6 a => v6_is_unspecified a end.

(** [Ipv6Addr::to_ipv4_mapped]: the address of [::ffff:a.b.c.d]. *)
Definition to_ipv4_mapped (a : Z) : option Z :=
  if a / 2 ^ 32 =? 65535 then Some (a mod 2 ^ 32) else None.

(** ** Parsers: the value read and the rest of the input *)

Definition to_digit (radix b : Z) : option Z :=
  let d := if is_ascii_digit b then Some (b - 48)
           else if is_ascii_lower b then Some (b - 87)
           else if is_ascii_upper b then Some (b - 55)
           else None in
  match d with
  | Some d => if d <? radix then Some d else None
  | None => None
  end.

(** [Parser::read_number]: the digits at the head of [s]; [None] on an overflow
    of [max] or on more digits than [max_digits]. *)
Fixpoint read_digits (radix max : Z) (max_digits : option nat) (acc : Z) (count : nat) (s : bytes)
  : option (Z * nat * bytes) :=
  match s with
  | [] => Some (acc, count, [])
  | b :: t =>
      match to_digit radix b with
      | None => Some (acc, count, s)
      | Some d =>
          let acc' := acc * radix + d in
          if max <? acc' then None
          else if (match max_digits with Some m => Nat.ltb m (S count) | None => false end) then None
          else read_digits radix max max_digits acc' (S count) t
      end
  end.
Definition read_number (radix max : Z) (max_digits : option nat) (allow_zero_prefix : bool) (s : bytes)
  : option (Z * bytes) :=
  let leading_zero := match s with b :: _ => b =? 48 | [] => false end in
  match read_digits radix max max_digits 0 0%nat s with
  | None => None
  | Some (v, n, rest) =>
      if Nat.eqb n 0 then None
      else if negb allow_zero_prefix && leading_zero && Nat.ltb 1 n then None
      else Some (v, rest)
  end.

Definition read_given_char (c : Z) (s : bytes) : option bytes :=
  match s with b :: t => if b =? c then Some t else None | [] => None end.

Definition read_octet (s : bytes) : option (Z * bytes) := read_number 10 U8_MAX (Some 3%nat) false s.

Definition read_ipv4_addr (s : bytes) : option (Z * bytes) :=
  '(a, s) ← read_octet s;
  s ← read_given_char 46 s; '(b, s) ← read_octet s;
  s ← read_given_char 46 s; '(c, s) ← read_octet s;
  s ← read_given_char 46 s; '(d, s) ← read_octet s;
  Some (v4_new a b c d, s).

(** [read_separator(':', i, inner)]: the separator before every group but the first. *)
Definition read_separator {A} (i : nat) (inner : bytes -> option (A * bytes)) (s : bytes) : option (A * bytes) :=
  match i with
  | O => inner s
  | S _ => s ← read_given_char 58 s; inner s
  end.

(** [read_groups]: up to [left] more groups after the [i] already read, the
    groups in order, whether the last two are an embedded IPv4 address, and the
    rest of the input. *)
Fixpoint read_groups (left : nat) (i : nat) (s : bytes) : list Z * bool * bytes :=
  match left with
  | O => ([], false, s)
  | S left' =>
      let v4 := if Nat.ltb 1 left then read_separator i read_ipv4_addr s else None in
      match v4 with
      | Some (a, s') => ([a / 65536; a mod 65536], true, s')
      | None =>
          match read_separator i (read_number 16 U16_MAX (Some 4%nat) true) s with
          | None => ([], false, s)
          | Some (g, s') =>
              let '(gs, v4, rest) := read_groups left' (S i) s' in (g :: gs, v4, rest)
          end
      end
  end.

Definition v6_of_segments (gs : list Z) : Z := fold_left (fun acc g => acc * 65536 + g) gs 0.

Definition read_ipv6_addr (s : bytes) : option (Z * bytes) :=
  let '(head, head_v4, s1) := read_groups 8 0 s in
  if Nat.eqb (length head) 8 then Some (v6_of_segments head, s1)
  else if head_v4 then None
  else
    s2 ← read_given_char 58 s1;
    s3 ← read_given_char 58 s2;
    let limit := (8 - (length head + 1))%nat in
    let '(tail, _, s4) := read_groups limit 0 s3 in
    Some (v6_of_segments (head ++ replicate (8 - length head - length tail)%nat 0 ++ tail), s4).

Definition read_ip_addr (s : bytes) : option (IpAddr * bytes) :=
  match read_ipv4_addr s with
  | Some (a, rest) => Some (V4 a, rest)
  | None => match read_ipv6_addr s with
            | Some (a, rest) => Some (V6 a, rest)
            | None => None
            end
  end.

(** [parse_with]: the parser must use up the input. *)
Definition parse_with {A} (p : bytes -> option (A * bytes)) (s : bytes) : option A :=
  match p s with Some (a, []) => Some a | _ => None end.

Definition parse_ip (s : bytes) : option IpAddr := parse_with read_ip_addr s.
Definition parse_ipv6 (s : bytes) : option Z := parse_with read_ipv6_addr s.

Definition read_port (s : bytes) : option (Z * bytes) :=
  s ← read_given_char 58 s; read_number 10 U16_MAX None true s.

Definition read_scope_id (s : bytes) : option (Z * bytes) :=
  s ← read_given_char 37 s; read_number 10 U32_MAX None true s.

Definition read_socket_addr (s : bytes) : option (SocketAddr * bytes) :=
  let v4 := '(ip, s) ← read_ipv4_addr s; '(port, s) ← read_port s;
            Some (mkSocketAddr (V4 ip) port, s) in
  match v4 with
  | Some r => Some r
  | None =>
      s ← read_given_char 91 s;
      '(ip, s) ← read_ipv6_addr s;
      let s := match read_scope_id s with Some (_, s') => s' | None => s end in
      s ← read_given_char 93 s;
      '(port, s) ← read_port s;
      Some (mkSocketAddr (V6 ip) port, s)
  end.
Definition parse_socket_addr (s : bytes) : option SocketAddr := parse_with read_socket_addr s.

(** ** [Display] *)

Definition hex_digit (d : Z) : Z := if d <? 10 then 48 + d else 87 + d.
Fixpoint hex_digits (fuel : nat) (z : Z) : bytes :=
  match fuel with
  | O => []
  | S fuel' => (if z <? 16 then [] else hex_digits fuel' (z / 16)) ++ [hex_digit (z mod 16)]
  end.
Definition hex16 (z : Z) : bytes := hex_digits 4 z.

Definition v4_to_string (a : Z) : bytes :=
  dec (octet a 0) ++ [46] ++ dec (octet a 1) ++ [46] ++ dec (octet a 2) ++ [46] ++ dec (octet a 3).

Definition segments (a : Z) : list Z :=
  map (fun n => (a / 2 ^ (16 * (7 - n))) mod 65536) [0; 1; 2; 3; 4; 5; 6; 7].

(** The longest run of zero segments, the first of its length: start and length. *)
Fixpoint longest_zeros (i : Z) (cur best : Z * Z) (l : list Z) : Z * Z :=
  match l with
  | [] => best
  | g :: l' =>
      if g =? 0 then
        let cur := (if cur.2 =? 0 then i else cur.1, cur.2 + 1) in
        longest_zeros (i + 1) cur (if best.2 <? cur.2 then cur else best) l'
      else longest_zeros (i + 1) (0, 0) best l'
  end.

Fixpoint join_hex (l : list Z) : bytes :=
  match l with
  | [] => []
  | [g] => hex16 g
  | g :: l' => hex16 g ++ [58] ++ join_hex l'
  end.

Definition v6_to_string (a : Z) : bytes :=
  match to_ipv4_mapped a with
  | Some v4 => lit "::ffff:" ++ v4_to_string v4
  | None =>
      let gs := segments a in
      let '(start, n) := longest_zeros 0 (0, 0) (0, 0) gs in
      if 1 <? n then join_hex (sub gs 0 start) ++ [58; 58] ++ join_hex (sub gs (start + n) 8)
      else join_hex gs
  end.

Definition ip_to_string (ip : IpAddr) : bytes :=
  match ip with V4 a => v4_to_string a | V6 a => v6_to_string a end.

(** [SocketAddr]: an IPv6 address in brackets. *)
Definition sa_to_string (a : SocketAddr) : bytes :=
  match sa_ip a with
  | V4 v => v4_to_string v ++ [58] ++ dec (sa_port a)
  | V6 v => [91] ++ v6_to_string v ++ [93; 58] ++ dec (sa_port a)
  end.

Example ip_to_string_ex1 : ip_to_string (V4 (v4_new 192 168 1 5)) = lit "192.168.1.5".
Proof. reflexivity. Qed.
Example ip_to_string_ex2 : ip_to_string (V6 (v6_of_segments [9734; 18176; 0; 0; 1; 0; 0; 4369])) = lit "2606:4700::1:0:0:1111".
Proof. reflexivity. Qed.
Example ip_to_string_ex3 : ip_to_string (V6 0) = lit "::" /\ ip_to_string (V6 1) = lit "::1".
Proof. done. Qed.
Example ip_to_string_ex4 : ip_to_string (V6 (65535 * 2 ^ 32 + v4_new 10 0 0 1)) = lit "::ffff:10.0.0.1".
Proof. reflexivity. Qed.

Example parse_ip_ex1 : parse_ip (lit "192.168.1.5") = Some (V4 (v4_new 192 168 1 5)).
Proof. reflexivity. Qed.
Example parse_ip_ex2 : parse_ip (lit "192.168.01.5") = None.
Proof. reflexivity. Qed.
Example parse_ip_ex3 : parse_ip (lit "2606:4700::1111") = Some (V6 (v6_of_segments [9734; 18176; 0; 0; 0; 0; 0; 4369])).
Proof. reflexivity. Qed.
Example parse_ip_ex4 : parse_ip (lit "::ffff:10.0.0.1") = Some (V6 (65535 * 2 ^ 32 + v4_new 10 0 0 1)).
Proof. reflexivity. Qed.
Example parse_ip_ex5 : parse_ip (lit "1:2:3:4:5:6:7") = None.
Proof. reflexivity. Qed.
Example parse_sa_ex : parse_socket_addr (lit "[::1]:8080") = Some (mkSocketAddr (V6 1) 8080).
Proof. reflexivity. Qed.

(** ** Parsing ignores the case of ASCII letters *)

Lemma to_digit_lower radix b : to_digit radix (ascii_lower b) = to_digit radix b.
Proof.
  unfold ascii_lower. destruct (is_ascii_upper b) eqn:Hu; [|done].
  unfold to_digit, is_ascii_digit, is_ascii_lower, is_ascii_upper in *. zbool.
  replace (b + 32 - 87) with (b - 55) by lia.
  repeat (zcase; try lia); done.
Qed.

Abbreviation lower_rest := (fmap (M := option) (prod_map id to_ascii_lowercase)).

Lemma read_digits_lower radix max md s : forall acc count,
  read_digits radix max md acc count (to_ascii_lowercase s)
  = fmap (M := option) (prod_map id to_ascii_lowercase) (read_digits radix max md acc count s).
Proof.
  induction s as [|b s IH]; intros acc count; [done|]. cbn.
  rewrite to_digit_lower. destruct (to_digit radix b); [|done].
  repeat zcase; [done..|]. apply IH.
Qed.

Lemma ascii_lower_eqb b c : is_ascii_upper c = false -> is_ascii_lower c = false ->
  (ascii_lower b =? c) = (b =? c).
Proof.
  unfold ascii_lower, is_ascii_upper, is_ascii_lower. intros.
  zcase; [|done]. apply eq_true_iff_eq. rewrite !Z.eqb_eq. split; lia.
Qed.

Lemma read_number_lower radix max md z s :
  read_number radix max md z (to_ascii_lowercase s)
  = lower_rest (read_number radix max md z s).
Proof.
  unfold read_number. rewrite read_digits_lower.
  replace (match to_ascii_lowercase s with b :: _ => b =? 48 | [] => false end)
    with (match s with b :: _ => b =? 48 | [] => false end)
    by (destruct s; [done|]; cbn; by rewrite ascii_lower_eqb).
  destruct (read_digits radix max md 0 0 s) as [[[v n] rest]|]; [|done]. cbn.
  destruct (n =? 0)%nat; [done|]. by destruct (_ && _ && _).
Qed.

Lemma read_given_char_lower c s : is_ascii_upper c = false -> is_ascii_lower c = false ->
  read_given_char c (to_ascii_lowercase s) = to_ascii_lowercase <$> read_given_char c s.
Proof. intros. destruct s as [|b s]; [done|]. cbn. rewrite ascii_lower_eqb by done. by destruct (b =? c). Qed.

Lemma read_ipv4_addr_lower s :
  read_ipv4_addr (to_ascii_lowercase s) = lower_rest (read_ipv4_addr s).
Proof.
  unfold read_ipv4_addr, read_octet.
  repeat first
    [ rewrite read_number_lower
    | rewrite read_given_char_lower by done
    | match goal with
      | |- context [read_number ?r ?m ?d ?z ?s] =>
          destruct (read_number r m d z s) as [[? ?]|]; cbn; [|done]
      | |- context [read_given_char ?c ?s] => destruct (read_given_char c s); cbn; [|done]
      end ].
  done.
Qed.

Lemma read_separator_lower {A} i (p : bytes -> option (A * bytes)) s :
  (forall s, p (to_ascii_lowercase s) = lower_rest (p s)) ->
  read_separator i p (to_ascii_lowercase s) = lower_rest (read_separator i p s).
Proof.
  intros Hp. destruct i; [apply Hp|]. cbn. rewrite read_given_char_lower by done.
  by destruct (read_given_char 58 s); cbn.
Qed.

Lemma read_groups_lower n : forall i s,
  read_groups n i (to_ascii_lowercase s) = prod_map id to_ascii_lowercase (read_groups n i s).
Proof.
  induction n as [|n IH]; intros i s; [done|]. cbn [read_groups].
  rewrite !read_separator_lower by (intros; apply read_ipv4_addr_lower || apply read_number_lower).
  destruct (1 <? S n)%nat; [destruct (read_separator i read_ipv4_addr s) as [[? ?]|]; [done|]|].
  all: cbn [fmap option_fmap option_map]; destruct (read_separator i _ s) as [[g s']|]; cbn; [|done];
    rewrite IH; by destruct (read_groups n (S i) s') as [[? ?] ?].
Qed.

Lemma read_ipv6_addr_lower s :
  read_ipv6_addr (to_ascii_lowercase s) = lower_rest (read_ipv6_addr s).
Proof.
  unfold read_ipv6_addr. rewrite read_groups_lower.
  destruct (read_groups 8 0 s) as [[head v4] s1]. cbn [prod_map id fst snd].
  destruct (length head =? 8)%nat; [done|]. destruct v4; [done|].
  rewrite read_given_char_lower by done. destruct (read_given_char 58 s1) as [s2|]; cbn; [|done].
  rewrite read_given_char_lower by done. destruct (read_given_char 58 s2) as [s3|]; cbn; [|done].
  rewrite read_groups_lower. by destruct (read_groups _ 0 s3) as [[? ?] ?].
Qed.

Lemma parse_ip_lower s : parse_ip (to_ascii_lowercase s) = parse_ip s.
Proof.
  unfold parse_ip, parse_with, read_ip_addr. rewrite read_ipv4_addr_lower, read_ipv6_addr_lower.
  destruct (read_ipv4_addr s) as [[a []]|]; [done..|]. cbn.
  by destruct (read_ipv6_addr s) as [[a []]|].
Qed.
