(* ===== verification/Text.v ===== *)
(** * Text written and read back

    [Display] and [FromStr] of numbers, IP and socket addresses are inverse: what
    the code prints in a setting, a log or a saved file it reads back as the same
    value; and when [trim] leaves a text as it is. *)

From S2P Require Import Prelude Str Ip.
Local Open Scope Z_scope.

(** ** Numbers *)

(** The digits of a number, most significant first, as both printers write them. *)
Fixpoint print_digits (radix : Z) (fuel : nat) (z : Z) : bytes :=
  match fuel with
  | O => []
  | S fuel' => (if z <? radix then [] else print_digits radix fuel' (z / radix)) ++ [hex_digit (z mod radix)]
  end.

Lemma hex_digits_print fuel z : hex_digits fuel z = print_digits 16 fuel z.
Proof. revert z. induction fuel as [|fuel IH]; intros z; [done|]. cbn. by rewrite IH. Qed.

Lemma dec_digits_print fuel z : 0 <= z -> dec_digits fuel z = print_digits 10 fuel z.
Proof.
  revert z. induction fuel as [|fuel IH]; intros z Hz; [done|]. cbn [dec_digits print_digits].
  pose proof (Z.mod_pos_bound z 10 ltac:(lia)). unfold hex_digit. rewrite (proj2 (Z.ltb_lt (z mod 10) 10)) by lia.
  zcase; [by rewrite Z.mod_small by lia|]. rewrite IH by (apply Z.div_pos; lia). done.
Qed.

Lemma to_digit_hex_digit radix d : 0 <= d < radix -> radix <= 16 -> to_digit radix (hex_digit d) = Some d.
Proof.
  intros Hd Hr. unfold hex_digit, to_digit, is_ascii_digit, is_ascii_lower, is_ascii_upper.
  destruct (Z.ltb_spec d 10).
  - rewrite (proj2 (Z.leb_le 48 _)), (proj2 (Z.leb_le _ 57)) by lia. cbn [andb].
    replace (48 + d - 48) with d by lia. by rewrite (proj2 (Z.ltb_lt _ _)) by lia.
  - rewrite (proj2 (Z.leb_gt _ 57)), andb_false_r by lia.
    rewrite (proj2 (Z.leb_le 97 _)), (proj2 (Z.leb_le _ 122)) by lia. cbn [andb].
    replace (87 + d - 87) with d by lia. by rewrite (proj2 (Z.ltb_lt _ _)) by lia.
Qed.

Section digits.
Context (radix : Z) (Hradix : 2 <= radix <= 16).

Lemma print_digits_length fuel : forall z, (0 < fuel)%nat -> (1 <= length (print_digits radix fuel z) <= fuel)%nat.
Proof.
  induction fuel as [|fuel IH]; intros z Hf; [lia|]. cbn. rewrite length_app. cbn [length]. zcase; [cbn; lia|].
  destruct fuel as [|fuel]; [cbn; lia|]. specialize (IH (z / radix) ltac:(lia)). lia.
Qed.

(** Reading back the digits of [z]. *)
Lemma read_digits_print max md fuel : forall z t,
  0 <= z < radix ^ Z.of_nat fuel -> (0 < fuel)%nat -> z <= max ->
  match md with Some m => (length (print_digits radix fuel z) <= m)%nat | None => True end ->
  read_digits radix max md 0 0 (print_digits radix fuel z ++ t)
  = read_digits radix max md z (length (print_digits radix fuel z)) t.
Proof.
  assert (forall acc count z t, 0 <= acc -> acc * radix + z mod radix <= max -> 
    match md with Some m => (S count <= m)%nat | None => True end ->
    read_digits radix max md acc count (hex_digit (z mod radix) :: t)
    = read_digits radix max md (acc * radix + z mod radix) (S count) t) as Hstep.
  { intros acc count z t Ha Hm Hmd. pose proof (Z.mod_pos_bound z radix ltac:(lia)). cbn [read_digits].
    rewrite to_digit_hex_digit by lia. rewrite (proj2 (Z.ltb_ge _ _)) by lia.
    destruct md as [m|]; [|done]. by rewrite (proj2 (Nat.ltb_ge _ _)) by lia. }
  induction fuel as [|fuel IH]; intros z t Hz Hf Hm Hmd; [lia|]. cbn [print_digits] in *.
  pose proof (Z.div_mod z radix ltac:(lia)) as Hdm. destruct (Z.ltb_spec z radix).
  - assert (z mod radix = z) as Hs by (apply Z.mod_small; lia). cbn [app length] in *.
    rewrite Hstep; [by rewrite Hs, Z.mul_0_l|lia|rewrite Hs, Z.mul_0_l; lia|destruct md; [cbn in Hmd; lia|done]].
  - destruct fuel as [|fuel]; [rewrite Z.pow_1_r in Hz; lia|]. rewrite <- app_assoc, length_app in *. cbn [length] in *.
    rewrite IH.
    + cbn [app]. rewrite Hstep; [|apply Z.div_pos; lia|lia|destruct md; lia]. f_equal; lia.
    + split; [apply Z.div_pos; lia|]. apply Z.div_lt_upper_bound; [lia|].
      rewrite <- Z.pow_succ_r by lia. replace (Z.succ (Z.of_nat (S fuel))) with (Z.of_nat (S (S fuel))) by lia. lia.
    + lia.
    + pose proof (Z.div_lt z radix ltac:(lia) ltac:(lia)). lia.
    + destruct md; lia.
Qed.

Lemma print_digits_head fuel : forall z, 0 <= z < radix ^ Z.of_nat fuel -> (1 < length (print_digits radix fuel z))%nat ->
  match print_digits radix fuel z with b :: _ => b <> 48 | [] => False end.
Proof.
  assert (forall d, 0 < d < radix -> hex_digit d <> 48) as Hd by (intros d ?; unfold hex_digit; zcase; lia).
  induction fuel as [|fuel IH]; intros z Hz Hl; [cbn in Hl; lia|]. cbn [print_digits] in *.
  destruct (Z.ltb_spec z radix) as [|Hge]; [cbn in Hl; lia|]. clear Hl.
  assert (0 < z / radix) by (apply Z.div_str_pos; lia).
  assert (0 <= z / radix < radix ^ Z.of_nat fuel) as Hq.
  { split; [lia|]. apply Z.div_lt_upper_bound; [lia|]. rewrite <- Z.pow_succ_r by lia. rewrite <- Nat2Z.inj_succ. lia. }
  destruct fuel as [|fuel]; [cbn in Hq; lia|].
  destruct (print_digits radix (S fuel) (z / radix)) as [|b [|c l]] eqn:He.
  - pose proof (print_digits_length (S fuel) (z / radix) ltac:(lia)) as Hlen. rewrite He in Hlen. cbn in Hlen. lia.
  - cbn [app]. cbn [print_digits] in He. destruct (Z.ltb_spec (z / radix) radix).
    + cbn in He. injection He as <-. apply Hd. rewrite Z.mod_small by lia. lia.
    + apply (f_equal length) in He. rewrite length_app in He. cbn in He.
      destruct fuel as [|fuel]; [rewrite Z.pow_1_r in Hq; lia|].
      pose proof (print_digits_length (S fuel) (z / radix / radix) ltac:(lia)). lia.
  - specialize (IH (z / radix) Hq). rewrite He in IH. cbn [length app] in *. apply IH. lia.
Qed.

(** [t] does not go on with a digit. *)
Definition ends_number (t : bytes) : Prop := match t with b :: _ => to_digit radix b = None | [] => True end.

Lemma read_number_print max md zero_ok fuel z t :
  0 <= z < radix ^ Z.of_nat fuel -> (0 < fuel)%nat -> z <= max ->
  match md with Some m => (length (print_digits radix fuel z) <= m)%nat | None => True end ->
  ends_number t ->
  read_number radix max md zero_ok (print_digits radix fuel z ++ t) = Some (z, t).
Proof.
  intros Hz Hf Hm Hmd Ht. unfold read_number. rewrite read_digits_print by done.
  assert (read_digits radix max md z (length (print_digits radix fuel z)) t = Some (z, length (print_digits radix fuel z), t)) as ->.
  { destruct t as [|b t]; [done|]. cbn in *. by rewrite Ht. }
  pose proof (print_digits_length fuel z Hf) as Hl. destruct (Nat.eqb_spec (length (print_digits radix fuel z)) 0); [lia|].
  destruct (Nat.ltb_spec 1 (length (print_digits radix fuel z))) as [Hgt|]; [|by rewrite andb_false_r].
  pose proof (print_digits_head fuel z Hz Hgt) as Hh. destruct (print_digits radix fuel z) as [|b l]; [done|].
  cbn [app]. rewrite (proj2 (Z.eqb_neq _ _) Hh), andb_false_r. done.
Qed.
End digits.

(** Fuel beyond the digits of a number adds nothing. *)
Lemma print_digits_fuel radix n : 2 <= radix -> forall fuel z,
  0 <= z < radix ^ Z.of_nat n -> (0 < n)%nat -> (n <= fuel)%nat -> print_digits radix fuel z = print_digits radix n z.
Proof.
  intros Hr. induction n as [|n IH]; intros fuel z Hz Hn Hf; [lia|]. destruct fuel as [|fuel]; [lia|].
  cbn [print_digits]. zcase; [done|]. destruct n as [|n]; [rewrite Z.pow_1_r in Hz; lia|].
  rewrite (IH fuel (z / radix)); [done| |lia|lia]. split; [apply Z.div_pos; lia|].
  apply Z.div_lt_upper_bound; [lia|]. rewrite <- Z.pow_succ_r by lia. rewrite <- Nat2Z.inj_succ. lia.
Qed.

(** ** IPv4 *)

Lemma read_octet_dec d t : 0 <= d <= 255 -> ends_number 10 t -> read_octet (dec d ++ t) = Some (d, t).
Proof.
  intros Hd Ht. unfold read_octet, dec. rewrite dec_digits_print by lia.
  apply read_number_print; [lia| |lia| | |done].
  - split; [lia|]. apply Z.le_lt_trans with 255; [lia|]. vm_compute. done.
  - unfold U8_MAX. lia.
  - rewrite (print_digits_fuel 10 3) by (rewrite ?Z.pow_pos_fold; lia || (cbn; lia)).
    pose proof (print_digits_length 10 3 d ltac:(lia)). lia.
Qed.

Lemma octet_bound a n : 0 <= octet a n <= 255.
Proof. unfold octet. pose proof (Z.mod_pos_bound (a / 2 ^ (8 * (3 - n))) 256 ltac:(lia)). lia. Qed.

Lemma v4_new_octets a : 0 <= a <= U32_MAX -> v4_new (octet a 0) (octet a 1) (octet a 2) (octet a 3) = a.
Proof.
  intros Ha. unfold v4_new. change [octet a 0; octet a 1; octet a 2; octet a 3] with
    [(a / 2 ^ (8 * 3)) mod 256; (a / 2 ^ (8 * 2)) mod 256; (a / 2 ^ (8 * 1)) mod 256; (a / 2 ^ (8 * 0)) mod 256].
  rewrite <- (be_combine_bytes 4 a) at 5 by (unfold U32_MAX in Ha; cbn; lia).
  rewrite !be_bytes_cons. reflexivity.
Qed.

Lemma read_ipv4_addr_print a t :
  0 <= a <= U32_MAX -> ends_number 10 t -> read_ipv4_addr (v4_to_string a ++ t) = Some (a, t).
Proof.
  intros Ha Ht. unfold read_ipv4_addr, v4_to_string. repeat rewrite <- !app_assoc.
  do 3 (rewrite read_octet_dec by (apply octet_bound || done); cbn [mbind option_bind app read_given_char Z.eqb Pos.eqb]).
  rewrite read_octet_dec by (apply octet_bound || done). cbn [mbind option_bind]. by rewrite v4_new_octets.
Qed.

(** The digits read are at the head of the input. *)
Lemma read_digits_suffix radix max md s : forall acc count v n rest,
  read_digits radix max md acc count s = Some (v, n, rest) ->
  exists p, s = p ++ rest /\ Forall (fun b => to_digit radix b <> None) p /\ n = (count + length p)%nat.
Proof.
  induction s as [|b s IH]; intros acc count v n rest; cbn [read_digits].
  - intros [= <- <- <-]. exists []. repeat split; [constructor|cbn; lia].
  - destruct (to_digit radix b) eqn:Hb; [|intros [= <- <- <-]; exists []; repeat split; [constructor|cbn; lia]].
    zcase; [done|]. destruct (match md with Some m => _ | None => _ end); [done|].
    intros (p & -> & Hp & ->)%IH. exists (b :: p). repeat split; [|cbn; lia]. constructor; [congruence|done].
Qed.

Lemma read_number_suffix radix max md z s v rest :
  read_number radix max md z s = Some (v, rest) ->
  exists p, s = p ++ rest /\ Forall (fun b => to_digit radix b <> None) p /\ p <> [].
Proof.
  unfold read_number. destruct (read_digits radix max md 0 0 s) as [[[w n] r]|] eqn:Hr; [|done].
  apply read_digits_suffix in Hr as (p & -> & Hp & ->). destruct p as [|b p]; [done|]. cbn [Nat.eqb length Nat.add].
  zcase; [done|]. intros [= <- <-]. by exists (b :: p).
Qed.

Lemma read_number_none radix max md z s : ends_number radix s -> read_number radix max md z s = None.
Proof.
  intros Hs. destruct (read_number radix max md z s) as [[v r]|] eqn:Hr; [|done].
  apply read_number_suffix in Hr as (p & -> & Hp & Hne). destruct p as [|b p]; [done|].
  inversion Hp; subst. cbn in Hs. congruence.
Qed.

(** A text without a dot before its first other character is no IPv4 address. *)
Lemma read_ipv4_addr_none h t :
  no_char 46 h = true -> match t with b :: _ => to_digit 10 b = None /\ b <> 46 | [] => True end ->
  read_ipv4_addr (h ++ t) = None.
Proof.
  intros Hh Ht. unfold read_ipv4_addr. destruct (read_octet (h ++ t)) as [[v rest]|] eqn:Hr; [|done].
  cbn [mbind option_bind]. apply read_number_suffix in Hr as (p & Hp & Hd & _).
  destruct rest as [|b rest]; [done|]. cbn [read_given_char]. destruct (Z.eqb_spec b 46) as [->|]; [|done].
  exfalso. apply app_eq_app in Hp as [k [[-> Hk]|[-> Hk]]].
  - destruct k as [|c k]; cbn in Hk; [subst t; by destruct Ht|]. injection Hk as <- ->.
    rewrite no_char_app in Hh. apply andb_prop in Hh as [_ Hh]. done.
  - destruct k as [|c k]; cbn in Hk; subst t; [by destruct Ht|].
    apply Forall_app in Hd as [_ Hd]. inversion Hd; subst. by destruct Ht.
Qed.

(** ** IPv6 *)

Lemma no_dot_print fuel : forall z, 0 <= z -> no_char 46 (print_digits 16 fuel z) = true.
Proof.
  induction fuel as [|fuel IH]; intros z Hz; [done|]. cbn [print_digits]. rewrite no_char_app.
  assert (no_char 46 [hex_digit (z mod 16)] = true) as ->.
  { cbn. pose proof (Z.mod_pos_bound z 16 ltac:(lia)). unfold hex_digit.
    rewrite (proj2 (Z.eqb_neq _ 46)) by (zcase; lia). done. }
  rewrite andb_true_r. zcase; [done|]. apply IH, Z.div_pos; lia.
Qed.

Definition is_segment (g : Z) : Prop := 0 <= g <= U16_MAX.

Lemma no_dot_hex16 g : is_segment g -> no_char 46 (hex16 g) = true.
Proof. intros [Hg _]. unfold hex16. rewrite hex_digits_print. by apply no_dot_print. Qed.

Abbreviation read_group := (read_number 16 U16_MAX (Some 4%nat) true).

Lemma read_group_hex16 g t : is_segment g -> ends_number 16 t -> read_group (hex16 g ++ t) = Some (g, t).
Proof.
  unfold is_segment, U16_MAX. intros Hg Ht. unfold hex16. rewrite hex_digits_print. apply read_number_print; [lia|cbn; lia|lia|lia| |done].
  pose proof (print_digits_length 16 4 g ltac:(lia)). lia.
Qed.

(** No further group starts at [t]. *)
Definition stops (t : bytes) : Prop :=
  match t with
  | [] => True
  | b :: r => (b = 58 /\ match r with c :: _ => c = 58 | [] => False end) \/ (b <> 58 /\ b <> 46 /\ to_digit 16 b = None)
  end.

Lemma to_digit_10_16 b : to_digit 16 b = None -> to_digit 10 b = None.
Proof.
  unfold to_digit. destruct (if is_ascii_digit b then _ else _); [|done].
  repeat zcase; [done..|lia|done].
Qed.

Lemma stops_ends t : stops t -> ends_number 16 t /\ match t with b :: _ => to_digit 10 b = None /\ b <> 46 | [] => True end.
Proof. destruct t as [|b r]; [done|]. intros [[-> _]|(?&?&?)]; cbn; [done|]. auto using to_digit_10_16. Qed.

Lemma read_groups_stop n i t : stops t -> read_groups n i t = ([], false, t).
Proof.
  intros Ht. destruct n as [|n]; [done|]. cbn [read_groups].
  assert (read_separator i read_ipv4_addr t = None /\ read_separator i read_group t = None) as [-> ->].
  { destruct i as [|i]; cbn [read_separator].
    - apply stops_ends in Ht as [H16 H10]. split; [by apply (read_ipv4_addr_none [])|by apply read_number_none].
    - destruct t as [|b r]; [done|]. cbn [read_given_char]. destruct Ht as [[-> Hr]|(Hb&_)].
      + cbn [Z.eqb Pos.eqb mbind option_bind]. destruct r as [|c r]; [done|]. subst c.
        split; [by apply (read_ipv4_addr_none [])|by apply read_number_none].
      + by rewrite (proj2 (Z.eqb_neq _ _) Hb). }
  by destruct (1 <? S n)%nat.
Qed.

(** Groups joined by colons are read back, up to what stops them. *)
Definition lead (i : nat) (gs : list Z) : bytes := match i, gs with S _, _ :: _ => [58] | _, _ => [] end.

Lemma join_hex_cons g gs : join_hex (g :: gs) = hex16 g ++ lead 1 gs ++ join_hex gs.
Proof. destruct gs; [by rewrite app_nil_r|]. done. Qed.

Lemma read_separator_lead {A} i gs g (p : bytes -> option (A * bytes)) s :
  read_separator i p (lead i (g :: gs) ++ s) = p s.
Proof. by destruct i. Qed.

Lemma ends_lead i gs t : stops t -> ends_number 16 (lead (S i) gs ++ join_hex gs ++ t)
  /\ match lead (S i) gs ++ join_hex gs ++ t with b :: _ => to_digit 10 b = None /\ b <> 46 | [] => True end.
Proof. intros Ht. destruct gs; [by apply stops_ends|done]. Qed.

Lemma read_groups_print gs : forall n i t,
  Forall is_segment gs -> (length gs <= n)%nat -> stops t ->
  read_groups n i (lead i gs ++ join_hex gs ++ t) = (gs, false, t).
Proof.
  induction gs as [|g gs IH]; intros n i t Hgs Hn Ht.
  - replace (lead i [] ++ join_hex [] ++ t) with t by (by destruct i). by apply read_groups_stop.
  - apply Forall_cons in Hgs as [Hg Hgs]. destruct n as [|n]; [cbn in Hn; lia|]. cbn [length] in Hn.
    destruct (ends_lead i gs t Ht) as [H16 H10]. cbn [read_groups]. rewrite join_hex_cons, !read_separator_lead.
    rewrite <- !app_assoc. change (lead 1 gs) with (lead (S i) gs).
    rewrite (read_ipv4_addr_none (hex16 g)) by (by apply no_dot_hex16 || done).
    rewrite (read_group_hex16 g) by done. rewrite IH by (done || lia). by destruct (1 <? S n)%nat.
Qed.

Lemma longest_zeros_spec l : forall pre cur best,
  (0 < cur.2 -> 0 <= cur.1 /\ cur.1 + cur.2 = blen pre /\ sub pre cur.1 (blen pre) = replicate (Z.to_nat cur.2) 0) ->
  0 <= cur.2 ->
  (0 < best.2 -> 0 <= best.1 /\ best.1 + best.2 <= blen pre /\ sub pre best.1 (best.1 + best.2) = replicate (Z.to_nat best.2) 0) ->
  let r := longest_zeros (blen pre) cur best l in
  0 < r.2 -> 0 <= r.1 /\ r.1 + r.2 <= blen (pre ++ l) /\ sub (pre ++ l) r.1 (r.1 + r.2) = replicate (Z.to_nat r.2) 0.
Proof.
  assert (forall pre g (best : Z * Z),
    (0 < best.2 -> 0 <= best.1 /\ best.1 + best.2 <= blen pre /\ sub pre best.1 (best.1 + best.2) = replicate (Z.to_nat best.2) 0) ->
    0 < best.2 -> 0 <= best.1 /\ best.1 + best.2 <= blen (pre ++ [g])
    /\ sub (pre ++ [g]) best.1 (best.1 + best.2) = replicate (Z.to_nat best.2) 0) as Hext.
  { intros pre g best Hb H. destruct (Hb H) as (?&?&Hs). repeat split; [lia|blia|]. by rewrite sub_app_l. }
  induction l as [|g l IH]; intros pre cur best Hc Hc0 Hb; cbn [longest_zeros]; [rewrite app_nil_r; by apply Hb|].
  replace (blen pre + 1) with (blen (pre ++ [g])) by blia. replace (pre ++ g :: l) with ((pre ++ [g]) ++ l) by (by rewrite <- app_assoc).
  destruct (Z.eqb_spec g 0) as [->|Hg].
  - assert (0 <= (if cur.2 =? 0 then blen pre else cur.1)
      /\ (if cur.2 =? 0 then blen pre else cur.1) + (cur.2 + 1) = blen (pre ++ [0])
      /\ sub (pre ++ [0]) (if cur.2 =? 0 then blen pre else cur.1) (blen (pre ++ [0])) = replicate (Z.to_nat (cur.2 + 1)) 0) as Hcur.
    { pose proof (blen_nonneg pre). destruct (Z.eqb_spec cur.2 0) as [E|E].
      - rewrite E. repeat split; [lia|blia|]. rewrite sub_app_r by lia. replace (blen pre - blen pre) with 0 by lia.
        by replace (blen (pre ++ [0]) - blen pre) with 1 by blia.
      - destruct (Hc ltac:(lia)) as (?&?&Hs). repeat split; [lia|blia|].
        rewrite (sub_snoc _ _ (blen pre) _ 0); [|lia|blia|rewrite bget_app_r by lia; by rewrite Z.sub_diag].
        rewrite sub_app_l by lia. rewrite Hs. replace (Z.to_nat (cur.2 + 1)) with (Z.to_nat cur.2 + 1)%nat by lia.
        by rewrite replicate_add. }
    apply IH; cbn [fst snd]; [done|lia|]. destruct (best.2 <? cur.2 + 1); [cbn [fst snd]; intros _|by apply Hext].
    destruct Hcur as (?&E&Hs). rewrite E. repeat split; [lia|lia|done].
  - apply IH; cbn [fst snd]; [lia|lia|by apply Hext].
Qed.

Lemma longest_zeros_0 l : let r := longest_zeros 0 (0, 0) (0, 0) l in
  0 < r.2 -> 0 <= r.1 /\ r.1 + r.2 <= blen l /\ sub l r.1 (r.1 + r.2) = replicate (Z.to_nat r.2) 0.
Proof. apply (longest_zeros_spec l []); cbn; lia. Qed.

Lemma segments_is_segment a : Forall is_segment (segments a).
Proof.
  unfold segments. apply Forall_fmap, Forall_forall. intros n _. unfold is_segment, U16_MAX. cbn.
  pose proof (Z.mod_pos_bound (a / 2 ^ (16 * (7 - n))) 65536 ltac:(lia)). lia.
Qed.

Lemma v6_of_segments_segments a : 0 <= a < 2 ^ 128 -> v6_of_segments (segments a) = a.
Proof.
  intros Ha. assert (forall n m, 0 <= n -> m = n + 1 -> (a / 2 ^ (16 * m)) * 65536 + (a / 2 ^ (16 * n)) mod 65536 = a / 2 ^ (16 * n)) as Hs.
  { intros n m Hn ->. replace (16 * (n + 1)) with (16 * n + 16) by lia. rewrite Z.pow_add_r by lia.
    rewrite <- Z.div_div by lia. change (2 ^ 16) with 65536. pose proof (Z.div_mod (a / 2 ^ (16 * n)) 65536 ltac:(lia)). lia. }
  unfold v6_of_segments, segments. cbn [map fold_left].
  assert (0 * 65536 + (a / 2 ^ (16 * (7 - 0))) mod 65536 = a / 2 ^ (16 * 7)) as ->.
  { rewrite Z.mul_0_l, Z.add_0_l. apply Z.mod_small. split; [apply Z.div_pos; lia|].
    apply Z.div_lt_upper_bound; [lia|]. change (2 ^ (16 * (7 - 0)) * 65536) with (2 ^ 128). lia. }
  change (16 * (7 - 1)) with (16 * 6). change (16 * (7 - 2)) with (16 * 5). change (16 * (7 - 3)) with (16 * 4).
  change (16 * (7 - 4)) with (16 * 3). change (16 * (7 - 5)) with (16 * 2). change (16 * (7 - 6)) with (16 * 1).
  change (16 * (7 - 7)) with (16 * 0).
  rewrite (Hs 6 7), (Hs 5 6), (Hs 4 5), (Hs 3 4), (Hs 2 3), (Hs 1 2), (Hs 0 1) by lia. by rewrite Z.div_1_r.
Qed.

Lemma read_ipv6_addr_segments a t :
  0 <= a < 2 ^ 128 -> stops t -> to_ipv4_mapped a = None ->
  read_ipv6_addr (v6_to_string a ++ t) = Some (a, t).
Proof.
  intros Ha Ht Hm. unfold v6_to_string. rewrite Hm. pose proof (segments_is_segment a) as Hseg.
  pose proof (longest_zeros_0 (segments a)) as Hz. pose proof (v6_of_segments_segments a Ha) as Hv.
  assert (blen (segments a) = 8) as Hl by done. set (gs := segments a) in *. clearbody gs.
  destruct (longest_zeros 0 (0, 0) (0, 0) gs) as [start n]. cbn [fst snd] in Hz. unfold read_ipv6_addr.
  destruct (Z.ltb_spec 1 n) as [Hn|].
  - destruct (Hz ltac:(lia)) as (H0 & H8 & Hzero). rewrite <- !app_assoc.
    assert (length (sub gs 0 start) = Z.to_nat start) as Hl1.
    { pose proof (blen_sub gs 0 start). unfold blen in *. lia. }
    assert (length (sub gs (start + n) 8) = Z.to_nat (8 - start - n)) as Hl2.
    { pose proof (blen_sub gs (start + n) 8). unfold blen in *. lia. }
    pose proof (read_groups_print (sub gs 0 start) 8 0 ([58; 58] ++ join_hex (sub gs (start + n) 8) ++ t)) as Hhead.
    cbn [lead app] in Hhead |- *. rewrite Hhead by (by apply Forall_sub || lia || by left).
    destruct (Nat.eqb_spec (length (sub gs 0 start)) 8); [lia|]. cbn [mbind option_bind read_given_char Z.eqb Pos.eqb].
    pose proof (read_groups_print (sub gs (start + n) 8) (8 - (length (sub gs 0 start) + 1)) 0 t) as Htail.
    cbn [lead app] in Htail. rewrite Htail by (by apply Forall_sub || lia || done).
    rewrite Hl1, Hl2. replace (8 - Z.to_nat start - Z.to_nat (8 - start - n))%nat with (Z.to_nat n) by lia.
    rewrite <- Hzero, <- Hl. rewrite <- (sub_split gs start (start + n)) by lia. by rewrite Hv.
  - pose proof (read_groups_print gs 8 0 t) as Hall. cbn [lead app] in Hall.
    assert (length gs = 8)%nat as Hl8 by (unfold blen in Hl; lia). rewrite Hall by (done || lia).
    by rewrite Hl8, Hv.
Qed.

Lemma read_ipv6_addr_mapped a t : 0 <= a <= U32_MAX -> stops t ->
  read_ipv6_addr (lit "::ffff:" ++ v4_to_string a ++ t) = Some (65535 * 2 ^ 32 + a, t).
Proof.
  intros Ha Ht. unfold read_ipv6_addr. change (lit "::ffff:" ++ v4_to_string a ++ t) with
    (58 :: 58 :: (hex16 65535 ++ 58 :: v4_to_string a ++ t)).
  rewrite read_groups_stop by (by left). cbn [Nat.eqb length mbind option_bind read_given_char Z.eqb Pos.eqb Nat.sub Nat.add].
  cbn [read_groups Nat.ltb Nat.leb read_separator].
  rewrite (read_ipv4_addr_none (hex16 65535)) by done. rewrite read_group_hex16 by done.
  cbn [read_given_char Z.eqb Pos.eqb mbind option_bind]. rewrite read_ipv4_addr_print.
  - unfold v6_of_segments. cbn [Nat.sub length app replicate fold_left]. pose proof (Z.div_mod a 65536 ltac:(lia)).
    do 2 f_equal. lia.
  - done.
  - apply stops_ends in Ht as [_ H]. destruct t; [done|]. by destruct H.
Qed.

(** ** The round trips *)

Lemma to_ipv4_mapped_Some a v : 0 <= a < 2 ^ 128 -> to_ipv4_mapped a = Some v -> 0 <= v <= U32_MAX /\ a = 65535 * 2 ^ 32 + v.
Proof.
  unfold to_ipv4_mapped, U32_MAX. intros Ha. zcase; [|done]. intros [= <-].
  pose proof (Z.mod_pos_bound a (2 ^ 32) ltac:(lia)). pose proof (Z.div_mod a (2 ^ 32) ltac:(lia)). lia.
Qed.

Lemma read_ipv6_addr_print a t : 0 <= a < 2 ^ 128 -> stops t -> read_ipv6_addr (v6_to_string a ++ t) = Some (a, t).
Proof.
  intros Ha Ht. destruct (to_ipv4_mapped a) as [v|] eqn:Hm; [|by apply read_ipv6_addr_segments].
  unfold v6_to_string. rewrite Hm. destruct (to_ipv4_mapped_Some a v Ha Hm) as [Hv ->].
  rewrite <- app_assoc. by apply read_ipv6_addr_mapped.
Qed.

(** An IPv6 address shows hexadecimal digits and a colon first. *)
Lemma v6_to_string_head a : exists h r, v6_to_string a = h ++ 58 :: r /\ no_char 46 h = true.
Proof.
  pose proof (segments_is_segment a) as Hseg. unfold v6_to_string.
  destruct (to_ipv4_mapped a); [eexists [], _; split; [reflexivity|done]|].
  assert (forall gs t, Forall is_segment gs -> exists h r, join_hex gs ++ 58 :: t = h ++ 58 :: r /\ no_char 46 h = true) as Hj.
  { intros [|g [|g' gs]] t Hgs; [by exists [], t|..]; apply Forall_cons in Hgs as [Hg _]; exists (hex16 g); eexists;
      (split; [|by apply no_dot_hex16]); [reflexivity|]. cbn [join_hex]. by rewrite <- !app_assoc. }
  destruct (longest_zeros 0 (0, 0) (0, 0) (segments a)) as [start n]. zcase; [apply Hj; by apply Forall_sub|].
  apply Forall_cons in Hseg as [Hg _]. eexists (hex16 _), _. split; [reflexivity|by apply no_dot_hex16].
Qed.

Lemma read_ipv4_addr_v6 a t : read_ipv4_addr (v6_to_string a ++ t) = None.
Proof.
  destruct (v6_to_string_head a) as (h & r & -> & Hh). rewrite <- app_assoc. by apply read_ipv4_addr_none.
Qed.

(** [ip.to_string().parse()] is [ip]. *)
Lemma parse_ip_to_string ip : ip_wf ip -> parse_ip (ip_to_string ip) = Some ip.
Proof.
  unfold parse_ip, parse_with, read_ip_addr. destruct ip as [a|a]; cbn [ip_wf ip_to_string]; intros Ha.
  - rewrite <- (app_nil_r (v4_to_string a)). by rewrite read_ipv4_addr_print.
  - rewrite <- (app_nil_r (v6_to_string a)). by rewrite read_ipv4_addr_v6, read_ipv6_addr_print.
Qed.

Definition sa_wf (a : SocketAddr) : Prop := ip_wf (sa_ip a) /\ 0 <= sa_port a <= U16_MAX.

Lemma read_port_dec p : 0 <= p <= U16_MAX -> read_port (58 :: dec p) = Some (p, []).
Proof.
  intros Hp. unfold read_port. cbn [read_given_char Z.eqb Pos.eqb mbind option_bind].
  unfold dec. rewrite dec_digits_print by lia. rewrite <- (app_nil_r (print_digits _ _ _)).
  apply read_number_print; [lia| |lia|lia|done|done]. split; [lia|].
  unfold U16_MAX in Hp. apply Z.le_lt_trans with 65535; [lia|]. by vm_compute.
Qed.

(** [addr.to_string().parse()] is [addr]. *)
Lemma parse_socket_addr_to_string a : sa_wf a -> parse_socket_addr (sa_to_string a) = Some a.
Proof.
  destruct a as [[v|v] p]; unfold sa_wf, sa_to_string, parse_socket_addr, parse_with, read_socket_addr; cbn [sa_ip sa_port ip_wf];
    intros [Hv Hp].
  - rewrite read_ipv4_addr_print by done. cbn [mbind option_bind app]. by rewrite read_port_dec.
  - assert (read_ipv4_addr ([91] ++ v6_to_string v ++ [93; 58] ++ dec p) = None) as ->.
    { by apply (read_ipv4_addr_none []). }
    cbn [app read_given_char Z.eqb Pos.eqb mbind option_bind]. rewrite read_ipv6_addr_print; [|done|right; by vm_compute].
    cbn [mbind option_bind read_scope_id read_given_char Z.eqb Pos.eqb]. by rewrite read_port_dec.
Qed.

(** ** Numbers read with [str::parse] *)

Lemma parse_digits_print max fuel : forall z t,
  0 <= z < 10 ^ Z.of_nat fuel -> (0 < fuel)%nat -> z <= max ->
  parse_digits max 0 (print_digits 10 fuel z ++ t) = parse_digits max z t.
Proof.
  assert (forall acc z t, 0 <= acc -> acc * 10 + z mod 10 <= max ->
    parse_digits max acc (hex_digit (z mod 10) :: t) = parse_digits max (acc * 10 + z mod 10) t) as Hstep.
  { intros acc z t Ha Hm. pose proof (Z.mod_pos_bound z 10 ltac:(lia)). cbn [parse_digits].
    unfold hex_digit. rewrite (proj2 (Z.ltb_lt _ _)) by lia. unfold is_ascii_digit.
    rewrite (proj2 (Z.leb_le 48 _)), (proj2 (Z.leb_le _ 57)) by lia. cbn [andb].
    replace (acc * 10 + (48 + z mod 10 - 48)) with (acc * 10 + z mod 10) by lia.
    by rewrite (proj2 (Z.leb_le _ _)) by lia. }
  induction fuel as [|fuel IH]; intros z t Hz Hf Hm; [lia|]. cbn [print_digits].
  pose proof (Z.div_mod z 10 ltac:(lia)) as Hdm. destruct (Z.ltb_spec z 10).
  - cbn [app]. rewrite (Z.mod_small z 10) in * by lia. pose proof (Hstep 0 z t) as H1. rewrite (Z.mod_small z 10) in H1 by lia.
    rewrite H1 by lia. f_equal; lia.
  - destruct fuel as [|fuel]; [rewrite Z.pow_1_r in Hz; lia|]. rewrite <- app_assoc. cbn [app].
    pose proof (Z.div_lt z 10 ltac:(lia) ltac:(lia)). pose proof (Z.div_pos z 10 ltac:(lia) ltac:(lia)).
    rewrite IH; [|split; [lia|]; apply Z.div_lt_upper_bound; [lia|];
      rewrite <- Z.pow_succ_r by lia; rewrite <- Nat2Z.inj_succ; lia|lia|lia].
    rewrite Hstep by lia. f_equal; lia.
Qed.

Lemma dec_range z : 0 <= z <= U64_MAX -> 0 <= z < 10 ^ Z.of_nat 39.
Proof. unfold U64_MAX. intros Hz. split; [lia|]. apply Z.le_lt_trans with U64_MAX; [unfold U64_MAX; lia|]. by vm_compute. Qed.

(** The digits of a number are digits. *)
Lemma dec_digits_all fuel : forall z, 0 <= z -> forallb is_ascii_digit (dec_digits fuel z) = true.
Proof.
  induction fuel as [|fuel IH]; intros z Hz; [done|]. cbn [dec_digits].
  assert (forall d, 0 <= d < 10 -> is_ascii_digit (48 + d) = true) as Hd.
  { intros d Hd. unfold is_ascii_digit. rewrite (proj2 (Z.leb_le _ _)), (proj2 (Z.leb_le _ _)) by lia. done. }
  pose proof (Z.mod_pos_bound z 10 ltac:(lia)).
  zcase; [cbn; by rewrite Hd|]. rewrite forallb_app, IH by (apply Z.div_pos; lia). cbn. by rewrite Hd.
Qed.

Lemma dec_all z : 0 <= z -> forallb is_ascii_digit (dec z) = true.
Proof. apply dec_digits_all. Qed.

Lemma dec_not_nil z : 0 <= z -> dec z <> [].
Proof.
  intros Hz He. unfold dec in He. rewrite dec_digits_print in He by done.
  pose proof (print_digits_length 10 39 z ltac:(lia)) as Hl. rewrite He in Hl. cbn in Hl. lia.
Qed.

(** [z.to_string().parse()] is [z]. *)
Lemma parse_uint_dec max z : 0 <= z <= U64_MAX -> z <= max -> parse_uint max (dec z) = Some z.
Proof.
  intros Hz Hm. pose proof (dec_all z ltac:(lia)) as Hd. pose proof (dec_not_nil z ltac:(lia)).
  assert (parse_digits max 0 (dec z) = Some z) as Hp.
  { unfold dec. rewrite dec_digits_print by lia. rewrite <- (app_nil_r (print_digits _ _ _)).
    rewrite parse_digits_print; [done|by apply dec_range|lia|lia]. }
  destruct (dec z) as [|b s]; [done|]. unfold parse_uint. cbn [forallb] in Hd. apply andb_prop in Hd as [Hb _].
  unfold is_ascii_digit in Hb. zbool. by rewrite (proj2 (Z.eqb_neq b 43)) by lia.
Qed.

(** ** The characters of a printed address *)

Lemma forallb_impl {A} (p q : A -> bool) l : (forall x, p x = true -> q x = true) -> forallb p l = true -> forallb q l = true.
Proof. intros H. rewrite !forallb_forall. auto. Qed.

Definition ip_char (b : Z) : bool :=
  is_ascii_digit b || ((97 <=? b) && (b <=? 102)) || (b =? 46) || (b =? 58).
Definition addr_char (b : Z) : bool := ip_char b || (b =? 91) || (b =? 93).

Lemma digits_ip_char s : forallb is_ascii_digit s = true -> forallb ip_char s = true.
Proof. rewrite !forallb_forall. intros Hs x Hx. unfold ip_char. by rewrite (Hs x Hx). Qed.

Lemma dec_ip_char z : 0 <= z -> forallb ip_char (dec z) = true.
Proof. intros. by apply digits_ip_char, dec_all. Qed.

Lemma hex_ip_char fuel : forall z, 0 <= z -> forallb ip_char (hex_digits fuel z) = true.
Proof.
  induction fuel as [|fuel IH]; intros z Hz; [done|]. cbn [hex_digits]. rewrite forallb_app.
  assert (forallb ip_char [hex_digit (z mod 16)] = true) as ->.
  { pose proof (Z.mod_pos_bound z 16 ltac:(lia)). cbn. unfold ip_char, hex_digit, is_ascii_digit. destruct (Z.ltb_spec (z mod 16) 10).
    - rewrite (proj2 (Z.leb_le 48 _)), (proj2 (Z.leb_le _ 57)) by lia. done.
    - rewrite (proj2 (Z.leb_le 97 _)), (proj2 (Z.leb_le _ 102)) by lia. cbn. by rewrite orb_true_r. }
  rewrite andb_true_r. zcase; [done|]. apply IH, Z.div_pos; lia.
Qed.

Lemma v4_ip_char a : forallb ip_char (v4_to_string a) = true.
Proof.
  unfold v4_to_string. rewrite !forallb_app.
  rewrite !dec_ip_char by (unfold octet; apply Z.mod_pos_bound; lia). done.
Qed.

Lemma join_hex_ip_char gs : Forall is_segment gs -> forallb ip_char (join_hex gs) = true.
Proof.
  induction gs as [|g gs IH]; intros Hgs; [done|]. apply Forall_cons in Hgs as [[Hg _] Hgs].
  rewrite join_hex_cons, !forallb_app, IH by done. unfold hex16. rewrite hex_ip_char by done. by destruct gs.
Qed.

Lemma v6_ip_char a : forallb ip_char (v6_to_string a) = true.
Proof.
  unfold v6_to_string. destruct (to_ipv4_mapped a); [by rewrite forallb_app, v4_ip_char|].
  pose proof (segments_is_segment a). destruct (longest_zeros _ _ _ _) as [start n]. zcase.
  - by rewrite !forallb_app, !join_hex_ip_char by (by apply Forall_sub).
  - by apply join_hex_ip_char.
Qed.

Lemma ip_to_string_char ip : forallb ip_char (ip_to_string ip) = true.
Proof. destruct ip; [apply v4_ip_char|apply v6_ip_char]. Qed.

Lemma sa_to_string_char a : 0 <= sa_port a -> forallb addr_char (sa_to_string a) = true.
Proof.
  intros Hp. unfold sa_to_string.
  assert (forall s, forallb ip_char s = true -> forallb addr_char s = true) as Hi.
  { intros s. apply forallb_impl. intros x Hx. unfold addr_char. by rewrite Hx. }
  destruct (sa_ip a); rewrite !forallb_app, (Hi (dec _)) by (by apply dec_ip_char);
    [rewrite (Hi (v4_to_string _)) by apply v4_ip_char|rewrite (Hi (v6_to_string _)) by apply v6_ip_char]; done.
Qed.

(** ** What the parsers give is of its type *)

Lemma to_digit_bound radix b d : to_digit radix b = Some d -> 0 <= d.
Proof.
  unfold to_digit, is_ascii_digit, is_ascii_lower, is_ascii_upper.
  repeat (zcase; [zcase; [|done]; intros [= <-]; lia|]). done.
Qed.

Lemma read_digits_bounds radix max md s : 0 <= radix -> forall acc n v m rest,
  0 <= acc <= max -> read_digits radix max md acc n s = Some (v, m, rest) -> 0 <= v <= max.
Proof.
  intros Hr. induction s as [|b s IH]; intros acc n v m rest Ha; cbn [read_digits]; [by intros [= <- <- <-]|].
  destruct (to_digit radix b) as [d|] eqn:Hd; [|by intros [= <- <- <-]]. apply to_digit_bound in Hd.
  zcase; [done|]. destruct (match md with Some m => _ | None => _ end); [done|]. apply IH. split; [|lia]. apply Z.add_nonneg_nonneg; [apply Z.mul_nonneg_nonneg; lia|lia].
Qed.

Lemma read_number_bounds radix max md z s v rest : 0 <= radix -> 0 <= max ->
  read_number radix max md z s = Some (v, rest) -> 0 <= v <= max.
Proof.
  intros Hr Hm. unfold read_number. destruct (read_digits radix max md 0 0 s) as [[[w n] r]|] eqn:Hd; [|done].
  apply read_digits_bounds in Hd; [|lia..]. zcase; [done|]. zcase; [done|]. by intros [= <- _].
Qed.

Lemma read_ipv4_addr_wf s a rest : read_ipv4_addr s = Some (a, rest) -> 0 <= a <= U32_MAX.
Proof.
  unfold read_ipv4_addr, read_octet. intros H.
  repeat match type of H with
  | (read_number ?r ?m ?d ?z ?t ≫= _) = _ =>
      let E := fresh "E" in destruct (read_number r m d z t) as [[? ?]|] eqn:E; cbn [mbind option_bind] in H; [|done];
      apply read_number_bounds in E; [|done..]
  | (read_given_char ?c ?t ≫= _) = _ => destruct (read_given_char c t); cbn [mbind option_bind] in H; [|done]
  end.
  injection H as <- _. unfold v4_new. match goal with |- 0 <= be_combine ?l <= _ => pose proof (be_combine_bound l) as Hb end.
  unfold all_bytes, is_byte, U8_MAX, U32_MAX in *. change (256 ^ blen _) with 4294967296 in Hb.
  specialize (Hb ltac:(repeat constructor; lia)). lia.
Qed.

Lemma read_separator_Some {A} i (p : bytes -> option (A * bytes)) s r :
  read_separator i p s = Some r -> exists t, p t = Some r.
Proof. destruct i; cbn; [by exists s|]. destruct (read_given_char 58 s) as [t|]; cbn; [by exists t|done]. Qed.

Lemma read_groups_wf n : forall i s gs v4 rest,
  read_groups n i s = (gs, v4, rest) -> Forall is_segment gs /\ (length gs <= n)%nat.
Proof.
  induction n as [|n IH]; intros i s gs v4 rest; cbn [read_groups]; [intros [= <- <- <-]; by split; [constructor|cbn; lia]|].
  assert (forall gs v4 rest,
    match read_separator i read_group s with
    | None => ([], false, s)
    | Some (g, s') => let '(gs, v4, rest) := read_groups n (S i) s' in (g :: gs, v4, rest)
    end = (gs, v4, rest) -> Forall is_segment gs /\ (length gs <= S n)%nat) as Hg.
  { intros gs' v4' rest'. destruct (read_separator i read_group s) as [[g s']|] eqn:Hs; [|intros [= <- <- <-]; by split; [constructor|cbn; lia]].
    apply read_separator_Some in Hs as [t Ht]. apply read_number_bounds in Ht; [|done..].
    destruct (read_groups n (S i) s') as [[gs1 v] r] eqn:Hr. apply IH in Hr as [Hf Hl]. intros [= <- <- <-].
    split; [by constructor|cbn; lia]. }
  destruct (1 <? S n)%nat eqn:H1; [|apply Hg]. apply Nat.ltb_lt in H1.
  destruct (read_separator i read_ipv4_addr s) as [[a s']|] eqn:Hs; [|apply Hg].
  apply read_separator_Some in Hs as [t Ht]. apply read_ipv4_addr_wf in Ht. unfold U32_MAX in Ht. intros [= <- <- <-].
  split; [|cbn; lia]. pose proof (Z.mod_pos_bound a 65536 ltac:(lia)). unfold is_segment, U16_MAX.
  constructor; [|constructor; [lia|constructor]]. split; [apply Z.div_pos; lia|].
  enough (a / 65536 < 65536) by lia. apply Z.div_lt_upper_bound; lia.
Qed.

Lemma v6_of_segments_bound gs : Forall is_segment gs -> 0 <= v6_of_segments gs < 65536 ^ blen gs.
Proof.
  unfold v6_of_segments. induction gs as [|g gs IH] using rev_ind; intros Hgs; [done|].
  apply Forall_app in Hgs as [Hgs Hg]. apply Forall_cons in Hg as [[Hg0 Hg1] _]. unfold U16_MAX in Hg1.
  rewrite fold_left_app. cbn [fold_left]. specialize (IH Hgs).
  replace (blen (gs ++ [g])) with (Z.succ (blen gs)) by blia. rewrite Z.pow_succ_r by apply blen_nonneg. lia.
Qed.

Lemma read_ipv6_addr_wf s a rest : read_ipv6_addr s = Some (a, rest) -> 0 <= a < 2 ^ 128.
Proof.
  unfold read_ipv6_addr. destruct (read_groups 8 0 s) as [[h v4] s1] eqn:Hh. apply read_groups_wf in Hh as [Hf Hl].
  change (2 ^ 128) with (65536 ^ 8). destruct (Nat.eqb_spec (length h) 8) as [H8|].
  { intros [= <- <-]. pose proof (v6_of_segments_bound h Hf) as Hb. by replace (blen h) with 8 in Hb by (unfold blen; lia). }
  destruct v4; [done|]. destruct (read_given_char 58 s1) as [s2|]; cbn [mbind option_bind]; [|done].
  destruct (read_given_char 58 s2) as [s3|]; cbn [mbind option_bind]; [|done].
  destruct (read_groups _ 0 s3) as [[t v] s4] eqn:Ht. apply read_groups_wf in Ht as [Hft Hlt]. intros [= <- <-].
  match goal with |- 0 <= v6_of_segments ?l < _ => pose proof (v6_of_segments_bound l) as Hb end.
  assert (forall l : list Z, length l = 8%nat -> 65536 ^ blen l = 65536 ^ 8) as Hp by (intros l Hll; unfold blen; by rewrite Hll).
  rewrite Hp in Hb by (rewrite !length_app, length_replicate; lia). apply Hb.
  rewrite !Forall_app. split; [done|]. split; [|done]. apply Forall_replicate. by unfold is_segment.
Qed.

(** An address that is parsed is an IPv4 or an IPv6 address. *)
Lemma parse_ip_wf s ip : parse_ip s = Some ip -> ip_wf ip.
Proof.
  unfold parse_ip, parse_with, read_ip_addr. intros H.
  destruct (read_ipv4_addr s) as [[a r]|] eqn:H4; [apply read_ipv4_addr_wf in H4; destruct r; [|done]; by injection H as <-|].
  destruct (read_ipv6_addr s) as [[a r]|] eqn:H6; [|done]. apply read_ipv6_addr_wf in H6. destruct r; [|done]. by injection H as <-.
Qed.

Lemma parse_ipv6_wf s a : parse_ipv6 s = Some a -> 0 <= a < 2 ^ 128.
Proof.
  unfold parse_ipv6, parse_with. destruct (read_ipv6_addr s) as [[v r]|] eqn:H6; [|done].
  apply read_ipv6_addr_wf in H6. destruct r; [|done]. by intros [= <-].
Qed.

Lemma read_port_wf s p rest : read_port s = Some (p, rest) -> 0 <= p <= U16_MAX.
Proof. unfold read_port. destruct (read_given_char 58 s); [|done]. cbn [mbind option_bind]. by apply read_number_bounds. Qed.

Lemma parse_socket_addr_wf s a : parse_socket_addr s = Some a -> sa_wf a.
Proof.
  unfold parse_socket_addr, parse_with. destruct (read_socket_addr s) as [[v r]|] eqn:Hr; [|done].
  destruct r; [|done]. intros [= <-]. unfold read_socket_addr in Hr.
  assert (forall r, ('(ip, s) ← read_ipv4_addr s; '(port, s) ← read_port s; Some (mkSocketAddr (V4 ip) port, s)) = Some r -> sa_wf r.1) as H4.
  { intros r. destruct (read_ipv4_addr s) as [[ip t]|] eqn:Hi; [|done]. apply read_ipv4_addr_wf in Hi. cbn [mbind option_bind].
    destruct (read_port t) as [[p u]|] eqn:Hp; [|done]. apply read_port_wf in Hp. cbn. by intros [= <-]. }
  destruct ('(ip, s) ← read_ipv4_addr s; _) as [r|]; [injection Hr as ->; by apply (H4 (v, []))|]. clear H4.
  destruct (read_given_char 91 s) as [t|]; [|done]. cbn [mbind option_bind] in Hr.
  destruct (read_ipv6_addr t) as [[ip u]|] eqn:H6; [|done]. apply read_ipv6_addr_wf in H6. cbn [mbind option_bind] in Hr.
  destruct (read_given_char 93 _) as [w|]; [|done]. cbn [mbind option_bind] in Hr.
  destruct (read_port w) as [[p x]|] eqn:Hp; [|done]. apply read_port_wf in Hp. cbn in Hr. by injection Hr as <- _.
Qed.

(** ** Trimming *)

(** An ASCII character that is no white space. *)
Definition plain (b : Z) : bool := is_ascii b && negb (ws1 b).

Lemma trim_start_plain b t : plain b = true -> trim_start (b :: t) = b :: t.
Proof.
  unfold plain, is_ascii. intros [Hb Hw]%andb_prop. apply negb_true_iff in Hw. zbool. rewrite trim_start_eq. cbn [ws_len].
  rewrite Hw. destruct t as [|c t]; [done|]. unfold ws2, ws3. rewrite (proj2 (Z.eqb_neq b 194)) by lia. cbn [andb].
  destruct t as [|d t]; [done|]. rewrite (proj2 (Z.eqb_neq b 225)), (proj2 (Z.eqb_neq b 226)), (proj2 (Z.eqb_neq b 227)) by lia. done.
Qed.

Lemma trim_end_plain s b : plain b = true -> trim_end (s ++ [b]) = s ++ [b].
Proof.
  unfold plain, is_ascii. intros [Hb Hw]%andb_prop. apply negb_true_iff in Hw. zbool.
  unfold trim_end. enough (trim_end_rev (rev (s ++ [b])) = rev (s ++ [b])) as -> by apply rev_involutive.
  rewrite rev_unit, trim_end_rev_eq. cbn [ws_len_rev]. rewrite Hw.
  enough (forall c t, ws2 c b = false /\ ws3 t c b = false) as Hn.
  { destruct (rev s) as [|c [|x t]]; [done|by rewrite (proj1 (Hn c 0))|by rewrite (proj1 (Hn c 0)), (proj2 (Hn c x))]. }
  intros c t. unfold ws2, ws3. assert (forall n, 128 <= n -> (b =? n) = false) as Hne by (intros; apply Z.eqb_neq; lia).
  rewrite !Hne by lia. rewrite (proj2 (Z.leb_gt 128 b)) by lia. cbn. by rewrite !andb_false_r.
Qed.

Lemma trim_end_idem s : trim_end (trim_end s) = trim_end s.
Proof.
  unfold trim_end. rewrite rev_involutive. f_equal. generalize (rev s) as r. clear s. intros r.
  induction r as [r IH] using (induction_ltof1 _ length). unfold ltof in IH. rewrite (trim_end_rev_eq r).
  destruct (ws_len_rev r) as [|n] eqn:Hn; [by rewrite trim_end_rev_eq, Hn|]. apply IH.
  destruct r as [|b r]; [done|]. cbn [drop length]. rewrite length_drop. lia.
Qed.

Lemma trim_plain b t : plain b = true -> trim (b :: t) = trim_end (b :: t).
Proof. intros. unfold trim. by rewrite trim_start_plain. Qed.

Lemma ws_len_prefix s q : ws_len (s ++ q) = 0%nat -> ws_len s = 0%nat.
Proof.
  destruct s as [|b [|c [|d s]]]; [done|..]; cbn [app ws_len]; destruct (ws1 b); try done.
  destruct (ws2 b c); [done|]. done.
Qed.

Lemma ws_len_trim_start s : ws_len (trim_start s) = 0%nat.
Proof.
  induction s as [s IH] using (induction_ltof1 _ length). unfold ltof in IH. rewrite trim_start_eq.
  destruct (ws_len s) as [|n] eqn:Hn; [done|]. apply IH. destruct s as [|b s]; [done|]. cbn [drop length]. rewrite length_drop. lia.
Qed.

Lemma trim_idem s : trim (trim s) = trim s.
Proof.
  unfold trim. destruct (trim_end_prefix (trim_start s)) as [q Hq].
  rewrite (trim_start_eq (trim_end (trim_start s))), (ws_len_prefix _ q) by (rewrite <- Hq; apply ws_len_trim_start).
  apply trim_end_idem.
Qed.

(** A text of plain characters is not trimmed. *)
Lemma trim_all_plain s : forallb plain s = true -> trim s = s.
Proof.
  intros Hs. destruct s as [|b s]; [done|]. cbn [forallb] in Hs. pose proof Hs as [Hb _]%andb_prop.
  rewrite trim_plain by done. destruct (exists_last (l := b :: s)) as (t & c & E); [done|]. rewrite E.
  apply trim_end_plain. change (plain b && forallb plain s) with (forallb plain (b :: s)) in Hs. rewrite E, forallb_app in Hs.
  apply andb_prop in Hs as [_ Hc]. cbn in Hc. by rewrite andb_true_r in Hc.
Qed.

(** A text that is not trimmed, followed by plain characters. *)
Lemma trim_app_plain b u t :
  plain b = true -> trim_end (b :: u) = b :: u -> forallb plain t = true -> trim ((b :: u) ++ t) = (b :: u) ++ t.
Proof.
  intros Hb Hu Ht. cbn [app]. rewrite trim_plain by done. destruct t as [|c t _] using rev_ind; [by rewrite app_nil_r|].
  rewrite forallb_app in Ht. apply andb_prop in Ht as [_ Hc]. cbn in Hc. rewrite andb_true_r in Hc.
  rewrite app_assoc, app_comm_cons. by apply trim_end_plain.
Qed.

Lemma addr_char_plain b : addr_char b = true -> plain b = true.
Proof.
  unfold addr_char, ip_char, plain, is_ascii, ws1, is_ascii_digit. intros H.
  assert (46 <= b <= 102) as Hr by (rewrite !orb_true_iff in H; zbool; lia).
  rewrite (proj2 (Z.ltb_lt b 128)), (proj2 (Z.leb_gt b 13)), (proj2 (Z.eqb_neq b 32)) by lia. by rewrite andb_false_r.
Qed.

Lemma forallb_no_char p c s : p c = false -> forallb p s = true -> no_char c s = true.
Proof.
  intros Hc. apply forallb_impl. intros x Hx. apply negb_true_iff, Z.eqb_neq. congruence.
Qed.

(** ** Splitting *)

Lemma split_char_no c s : Forall (fun w => no_char c w = true) (split_char c s).
Proof.
  unfold split_char. induction s as [|b s IH]; [by repeat constructor|]. cbn [split_chars].
  pose proof (split_chars_not_nil (Z.eqb c) s). destruct (split_chars (Z.eqb c) s) as [|w ws]; [done|]. apply Forall_cons in IH as [Hw Hws].
  destruct (Z.eqb_spec c b) as [->|Hne]; [by repeat constructor|]. constructor; [|done].
  cbn. rewrite (proj2 (Z.eqb_neq b c)) by congruence. done.
Qed.

Lemma split_char_forallb p c s : p c = true -> forallb (forallb p) (split_char c s) = true -> forallb p s = true.
Proof.
  unfold split_char. intros Hc. induction s as [|b s IH]; [done|]. cbn [split_chars].
  pose proof (split_chars_not_nil (Z.eqb c) s) as Hn. destruct (split_chars (Z.eqb c) s) as [|w ws]; [done|].
  destruct (Z.eqb_spec c b) as [->|Hne]; cbn [forallb].
  - intros [_ H]%andb_prop. rewrite Hc. by apply IH.
  - intros [[Hb Hw]%andb_prop Hws]%andb_prop. rewrite Hb. apply IH. cbn. by rewrite Hw.
Qed.

(** Pieces joined by a character they do not hold. *)
Lemma split_char_join c u ps : no_char c u = true -> Forall (fun p => no_char c p = true) ps ->
  split_char c (u ++ concat (map (fun p => [c] ++ p) ps)) = u :: ps.
Proof.
  unfold split_char. revert u. induction ps as [|p ps IH]; intros u Hu Hps; cbn [map concat].
  - rewrite app_nil_r. by apply split_chars_none, no_char_negb_eqb.
  - apply Forall_cons in Hps as [Hp Hps]. rewrite <- app_assoc.
    rewrite split_chars_app by (by apply no_char_negb_eqb || apply Z.eqb_refl). by rewrite IH.
Qed.

Lemma trim_no_char c s : no_char c s = true -> no_char c (trim s) = true.
Proof.
  destruct (trim_infix s) as (p & q & E). rewrite E at 1. rewrite !no_char_app. by intros [_ [H _]%andb_prop]%andb_prop.
Qed.

(** ** UTF-8 and splitting from the right *)

Lemma lossy_valid s : utf8_valid s = true -> from_utf8_lossy s = s.
Proof.
  unfold utf8_valid, from_utf8_lossy. generalize (length s) as fuel. intros fuel. revert s.
  induction fuel as [|fuel IH]; intros s; destruct s as [|b s]; try done. cbn [utf8_valid_fuel lossy_fuel].
  destruct (utf8_head b s) as [[|] n]; cbn [andb]; [|done]. intros Hv. rewrite IH by done. apply take_drop.
Qed.

Lemma no_char_rev c s : no_char c (rev s) = no_char c s.
Proof.
  induction s as [|b s IH]; [done|]. cbn [rev]. rewrite no_char_app, IH. cbn. rewrite andb_true_r. apply andb_comm.
Qed.

Lemma split_once_none c s : no_char c s = true -> split_once c s = None.
Proof.
  induction s as [|b s IH]; [done|]. cbn [no_char forallb split_once]. intros [Hb Hs]%andb_prop.
  apply negb_true_iff in Hb. rewrite Z.eqb_sym, Hb. by rewrite IH.
Qed.

Lemma rsplit_once_app c s t : no_char c t = true -> rsplit_once c (s ++ [c] ++ t) = Some (s, t).
Proof.
  intros Ht. unfold rsplit_once. rewrite !rev_app_distr. cbn [rev app]. rewrite <- app_assoc.
  rewrite split_once_app by (by rewrite no_char_rev). by rewrite !rev_involutive.
Qed.

Lemma rsplit_once_none c s : no_char c s = true -> rsplit_once c s = None.
Proof. intros Hs. unfold rsplit_once. by rewrite split_once_none by (by rewrite no_char_rev). Qed.

Lemma strip_prefix_char c t : strip_prefix [c] ([c] ++ t) = Some t.
Proof. unfold strip_prefix. cbn. by rewrite Z.eqb_refl. Qed.

Lemma strip_prefix_other c b t : b <> c -> strip_prefix [c] (b :: t) = None.
Proof. intros Hb. unfold strip_prefix. cbn. by rewrite (proj2 (Z.eqb_neq c b)) by congruence. Qed.

(** [s.split_once(p)] for a string [p]. *)
Definition split_once_str (p s : bytes) : option (bytes * bytes) :=
  (fun i => (sub s 0 i, sub s (i + blen p) (blen s))) <$> find_sub p s.

Lemma split_once_str_app p scheme rest :
  find_sub p (scheme ++ p ++ rest) = Some (blen scheme) -> split_once_str p (scheme ++ p ++ rest) = Some (scheme, rest).
Proof.
  intros Hf. unfold split_once_str. rewrite Hf. cbn [fmap option_fmap option_map]. do 2 f_equal.
  - apply (sub_at _ [] scheme (p ++ rest)); [done|done|blia].
  - apply (sub_at _ (scheme ++ p) rest []); [rewrite app_nil_r; solve_app|blia|blia].
Qed.

Lemma trim_ends a t : match a with b :: _ => plain b = true | [] => False end ->
  forallb plain t = true -> t <> [] -> trim (a ++ t) = a ++ t.
Proof.
  intros Ha Ht Hne. destruct a as [|b s]; [done|]. cbn [app]. rewrite trim_plain by done.
  destruct (exists_last Hne) as (t' & c & ->). rewrite forallb_app in Ht.
  apply andb_prop in Ht as [_ Hc]. cbn in Hc. rewrite andb_true_r in Hc. rewrite app_assoc, app_comm_cons. by apply trim_end_plain.
Qed.

(** ** Words *)

Lemma at_ws_len s : at_ws s = negb (Nat.eqb (ws_len s) 0).
Proof.
  destruct s as [|b [|c [|d s]]]; cbn; [done|..]; destruct (ws1 b); try done; destruct (ws2 b c); try done; by destruct (ws3 b c d).
Qed.

Lemma at_ws_plain b t : plain b = true -> at_ws (b :: t) = false.
Proof.
  intros Hb. rewrite at_ws_len. pose proof (trim_start_plain b t Hb) as Ht. pose proof (ws_len_trim_start (b :: t)) as Hw.
  rewrite Ht in Hw. by rewrite Hw.
Qed.

Lemma take_word_plain w t : forallb plain w = true -> match t with b :: _ => ws1 b = true | [] => True end ->
  take_word (w ++ t) = (w, t).
Proof.
  induction w as [|b w IH]; intros Hw Ht; cbn [app].
  - destruct t as [|b t]; [done|]. cbn [take_word]. by rewrite at_ws_len; cbn; rewrite Ht.
  - cbn [forallb] in Hw. apply andb_prop in Hw as [Hb Hw]. cbn [take_word]. rewrite at_ws_plain by done. by rewrite IH.
Qed.

(** Words separated by spaces. *)
Definition spaced (ws : list bytes) : bytes :=
  match ws with [] => [] | w :: ws => w ++ concat (map (fun w => [32] ++ w) ws) end.

Lemma split_words_fuel ws : forall fuel, Forall (fun w => forallb plain w = true /\ w <> []) ws -> (length ws <= fuel)%nat ->
  split_whitespace_fuel fuel (spaced ws) = ws
  /\ split_whitespace_fuel fuel (concat (map (fun w => [32] ++ w) ws)) = ws.
Proof.
  induction ws as [|w ws IH]; intros fuel Hws Hf.
  - by destruct fuel.
  - apply Forall_cons in Hws as [[Hw Hne] Hws]. cbn [length] in Hf. destruct fuel as [|fuel]; [lia|].
    destruct (IH fuel Hws ltac:(lia)) as [_ IH2]. destruct w as [|b w]; [done|].
    assert (trim_start ((b :: w) ++ concat (map (fun w => [32] ++ w) ws)) = (b :: w) ++ concat (map (fun w => [32] ++ w) ws)) as Ht.
    { cbn [app]. apply trim_start_plain. cbn [forallb] in Hw. by apply andb_prop in Hw as [Hb _]. }
    assert (take_word ((b :: w) ++ concat (map (fun w => [32] ++ w) ws)) = (b :: w, concat (map (fun w => [32] ++ w) ws))) as Hk.
    { apply take_word_plain; [done|]. by destruct ws. }
    split; cbn [split_whitespace_fuel spaced map concat].
    + rewrite Ht. cbn [app] in *. rewrite Hk. by rewrite IH2.
    + rewrite <- app_assoc. change (trim_start ([32] ++ ?s)) with (trim_start s). rewrite Ht. cbn [app] in *. rewrite Hk. by rewrite IH2.
Qed.

Lemma split_whitespace_words ws : Forall (fun w => forallb plain w = true /\ w <> []) ws -> split_whitespace (spaced ws) = ws.
Proof.
  intros Hws. unfold split_whitespace. apply split_words_fuel; [done|].
  assert (forall ws : list bytes, (length ws <= length (concat (map (fun w => [32%Z] ++ w) ws)))%nat) as Hl.
  { clear. induction ws as [|w ws IH]; [done|]. cbn [map concat length]. rewrite !length_app. cbn [length]. lia. }
  destruct Hws as [|w ws [_ Hne] Hws]; [done|]. cbn [spaced length]. specialize (Hl ws). destruct w; [done|].
  rewrite length_app. cbn [length]. lia.
Qed.

(** An occurrence that ends within [s] is found in [s]. *)
Lemma find_sub_within p s t : forall i, find_sub p (s ++ t) = Some i -> i + blen p <= blen s -> find_sub p s = Some i.
Proof.
  induction s as [|b s IH]; intros i Hf Hl; pose proof (find_sub_bounds _ _ _ Hf) as [Hi _].
  - change (blen (@nil Z)) with 0 in Hl. pose proof (blen_nonneg p). destruct p as [|x p]; [|autorewrite with blens in *; pose proof (blen_nonneg p); lia].
    replace i with 0 by (change (blen (@nil Z)) with 0 in *; lia). done.
  - cbn [app find_sub] in Hf |- *. destruct (starts_with p (b :: s ++ t)) eqn:Hs.
    + injection Hf as <-. change (b :: s ++ t) with ((b :: s) ++ t) in Hs. rewrite starts_with_app in Hs by (unfold blen in *; lia). by rewrite Hs.
    + destruct (find_sub p (s ++ t)) as [j|] eqn:Hj; [|done]. cbn in Hf. injection Hf as <-.
      rewrite blen_cons in Hl. rewrite (IH j) by (done || lia). cbn [fmap option_fmap option_map].
      destruct (starts_with p (b :: s)) eqn:Hb; [|done]. change (b :: s ++ t) with ((b :: s) ++ t) in Hs.
      rewrite starts_with_app in Hs by (unfold blen in *; apply find_sub_bounds in Hj; unfold blen in *; cbn [length] in *; lia). congruence.
Qed.

(** The first line of a text that goes on after a CRLF. *)
Lemma lines_first line rest : no_char 10 line = true -> lines (line ++ [13; 10] ++ rest) !! 0%nat = Some line.
Proof.
  intros Hn. unfold lines, split_char.
  replace (line ++ [13; 10] ++ rest) with ((line ++ [13]) ++ [10] ++ rest) by solve_app.
  rewrite split_chars_app; [|apply no_char_negb_eqb; by rewrite no_char_app, Hn|done].
  pose proof (split_chars_not_nil (Z.eqb 10) rest). destruct (split_chars (Z.eqb 10) rest) as [|w ws]; [done|].
  cbn [lines_of lookup list_lookup]. unfold strip_cr, strip_suffix.
  rewrite (proj2 (ends_with_spec [13] (line ++ [13]))) by eauto. by rewrite length_app, Nat.add_sub, take_app_length.
Qed.

Lemma split_once_crlf line rest : no_char 13 line = true -> split_once_str [13; 10] (line ++ [13; 10] ++ rest) = Some (line, rest).
Proof. intros Hn. apply split_once_str_app. by apply find_crlf. Qed.
