(* ===== verification/Error.v ===== *)
(** * Errors ([aether/src/error.rs])

    The error type of the crate.  An error of another crate that is wrapped
    ([Io], [Quic], [H3]) is kept as the text it displays. *)

From S2P Require Import Prelude Str.
Local Open Scope Z_scope.

Module Error.

Inductive AetherError :=
| Io (text : bytes)
| Quic (text : bytes)
| H3 (text : bytes)
| Tls (message : bytes)
| Ech (message : bytes)
| Masque (message : bytes)
| NoCleanEndpoint
| Capsule (message : bytes)
| Api (message : bytes)
| IdentityRefused (message : bytes)
| Cancelled
| Other (message : bytes).

#[export] Instance AetherError_eq_dec : EqDecision AetherError.
Proof. solve_decision. Defined.

(** The [Display] the derive generates. *)
Definition to_string (e : AetherError) : bytes :=
  match e with
  | Io m => lit "io: " ++ m
  | Quic m => lit "quic: " ++ m
  | H3 m => lit "h3: " ++ m
  | Tls m => lit "tls: " ++ m
  | Ech m => lit "ech: " ++ m
  | Masque m => lit "masque: " ++ m
  | NoCleanEndpoint => lit "prober: no clean endpoint found"
  | Capsule m => lit "capsule: " ++ m
  | Api m => lit "api: " ++ m
  | IdentityRefused m => lit "identity refused: " ++ m
  | Cancelled => lit "cancelled"
  | Other m => lit "other: " ++ m
  end.

Definition detail (e : AetherError) : bytes :=
  match e with
  | Other message => message
  | other => to_string other
  end.

End Error.
