(* ===== verification/Sniff.v ===== *)
(** * Server name sniffing ([aether/src/sniff.rs])

    The host name a TCP flow presents on its first bytes: the server name
    extension of a TLS ClientHello ([tls_sni]), or the Host header of a plain
    HTTP request ([http_host]).  Every read of the input goes through
    [slice::get], so the functions return [option] and have no panicking
    path. *)

From S2P Require Import Prelude Str Ip.
Local Open Scope Z_scope.

Module Sniff.

Definition TLS_HANDSHAKE : Z := 22.
Definition TLS_CLIENT_HELLO : Z := 1.
Definition EXT_SERVER_NAME : Z := 0.
Definition SNI_HOST_NAME : Z := 0.
Definition MAX_HOST_LEN : Z := 253.
Definition PEEK_BUDGET : Z := 4096.

Definition be16 (buf : bytes) (at_ : Z) : option Z :=
  hi ← bget buf at_;
  lo ← bget buf (at_ + 1);
  Some (Z.lor (Z.shiftl hi 8) lo).

Definition be24 (buf : bytes) (at_ : Z) : option Z :=
  a ← bget buf at_;
  b ← bget buf (at_ + 1);
  c ← bget buf (at_ + 2);
  Some (Z.lor (Z.lor (Z.shiftl a 16) (Z.shiftl b 8)) c).

(** The bytes of a host name: letters, digits, [-], [.] and [_]. *)
Definition host_byte (b : Z) : bool :=
  is_ascii_alphanumeric b || (b =? 45) || (b =? 46) || (b =? 95).

Section sniff.
Context `{UnicodeCase}.

Definition plausible_host (raw : bytes) : option bytes :=
  if (blen raw =? 0) || (MAX_HOST_LEN <? blen raw) then None
  else
    name ← from_utf8 raw;
    let name := trim_end_matches 46 (trim name) in
    if (blen name =? 0) || (MAX_HOST_LEN <? blen name) then None
    else if negb (forallb host_byte name) || negb (contains_char 46 name) then None
    else match parse_ip name with
         | Some _ => None
         | None => Some (to_lowercase name)
         end.

(** One iteration of the loop over the entries of the server name list. *)
Definition first_server_name_step (data : bytes) (list_end : Z) (at_ : Z) : Z + option bytes :=
  if at_ + 3 <=? list_end then
    match bget data at_, be16 data (at_ + 1) with
    | Some kind, Some len =>
        let start := at_ + 3 in
        match checked_add start len with
        | None => inr None
        | Some end_ =>
            if list_end <? end_ then inr None
            else if kind =? SNI_HOST_NAME then inr (bslice data start end_ ≫= plausible_host)
            else inl end_
        end
    | _, _ => inr None
    end
  else inr None.

Definition first_server_name (data : bytes) : option bytes :=
  list_len ← be16 data 0;
  list_end ← checked_add 2 list_len;
  let list_end := Z.min list_end (blen data) in
  mjoin (loop (S (Z.to_nat list_end)) (first_server_name_step data list_end) 2).

(** One iteration of the loop over the extensions of the hello. *)
Definition extension_step (hello : bytes) (extensions_end : Z) (at_ : Z) : Z + option bytes :=
  if at_ + 4 <=? extensions_end then
    match be16 hello at_, be16 hello (at_ + 2) with
    | Some kind, Some len =>
        let kind := wrap_u16 kind in
        let data_start := at_ + 4 in
        match checked_add data_start len with
        | None => inr None
        | Some data_end =>
            if extensions_end <? data_end then inr None
            else if kind =? EXT_SERVER_NAME then
              inr (bslice hello data_start data_end ≫= first_server_name)
            else inl data_end
        end
    | _, _ => inr None
    end
  else inr None.

(** The fields of the hello before the extensions, then the loop over them. *)
Definition hello_server_name (hello : bytes) : option bytes :=
  let at_ := 2 + 32 in
  session_len ← bget hello at_;
  at_ ← checked_add at_ (1 + session_len);
  cipher_len ← be16 hello at_;
  at_ ← checked_add at_ (2 + cipher_len);
  compression_len ← bget hello at_;
  at_ ← checked_add at_ (1 + compression_len);
  extensions_len ← be16 hello at_;
  at_ ← checked_add at_ 2;
  extensions_end ← checked_add at_ extensions_len;
  let extensions_end := Z.min extensions_end (blen hello) in
  mjoin (loop (S (Z.to_nat extensions_end)) (extension_step hello extensions_end) at_).

Definition tls_sni (buf : bytes) : option bytes :=
  first ← bget buf 0;
  if negb (first =? TLS_HANDSHAKE) then None
  else
    record_len ← be16 buf 3;
    record_end ← checked_add 5 record_len;
    let record_end := Z.min record_end (blen buf) in
    body ← bslice buf 5 record_end;
    first ← bget body 0;
    if negb (first =? TLS_CLIENT_HELLO) then None
    else
      hello_len ← be24 body 1;
      hello_end ← checked_add 4 hello_len;
      let hello_end := Z.min hello_end (blen body) in
      hello ← bslice body 4 hello_end;
      hello_server_name hello.

Definition METHODS : list bytes :=
  map lit ["GET "; "POST "; "PUT "; "HEAD "; "DELETE "; "OPTIONS "; "PATCH "; "TRACE "; "CONNECT "]%string.

Definition looks_like_http (line : bytes) : bool :=
  existsb (fun method => starts_with method line) METHODS && contains (lit "HTTP/") line.

(** The loop over the header lines: the host of the first Host header before
    an empty line. *)
Fixpoint host_header (lines : list bytes) : option bytes :=
  match lines with
  | [] => None
  | line :: rest =>
      if bool_decide (line = []) then None
      else match split_once 58 line with
           | None => host_header rest
           | Some (name, value) =>
               if negb (eq_ignore_ascii_case name (lit "host")) then host_header rest
               else
                 let value := trim value in
                 let without_port :=
                   match rsplit_once 58 value with
                   | Some (host, port) => if forallb is_ascii_digit port then host else value
                   | None => value
                   end in
                 plausible_host without_port
           end
  end.

Definition http_host (buf : bytes) : option bytes :=
  let head_end := Z.min (blen buf) PEEK_BUDGET in
  head ← bslice buf 0 head_end;
  match split_crlf (from_utf8_lossy head) with
  | [] => None
  | request_line :: lines =>
      if negb (looks_like_http request_line) then None else host_header lines
  end.

Definition hostname (buf : bytes) : option bytes :=
  match tls_sni buf with
  | Some h => Some h
  | None => http_host buf
  end.

End sniff.

(** ** A ClientHello on the wire (RFC 8446, 4.1.2), the input [tls_sni] is written for

    The record carries one handshake message; the extensions before the server
    name are of other kinds. *)
Record client_hello := mkHello {
  ch_version : bytes;
  ch_random : bytes;
  ch_session : bytes;
  ch_ciphers : bytes;
  ch_compression : bytes;
  ch_before : list (Z * bytes);
  ch_name : bytes;
  ch_after : list (Z * bytes);
}.

Definition enc_ext (e : Z * bytes) : bytes :=
  be16_bytes e.1 ++ be16_bytes (blen e.2) ++ e.2.
Definition enc_exts (es : list (Z * bytes)) : bytes := concat (map enc_ext es).
Definition sni_data (name : bytes) : bytes :=
  be16_bytes (3 + blen name) ++ [SNI_HOST_NAME] ++ be16_bytes (blen name) ++ name.
Definition hello_exts (h : client_hello) : bytes :=
  enc_exts (ch_before h) ++ enc_ext (EXT_SERVER_NAME, sni_data (ch_name h)) ++ enc_exts (ch_after h).
Definition enc_hello (h : client_hello) : bytes :=
  ch_version h ++ ch_random h ++ [blen (ch_session h)] ++ ch_session h
  ++ be16_bytes (blen (ch_ciphers h)) ++ ch_ciphers h
  ++ [blen (ch_compression h)] ++ ch_compression h
  ++ be16_bytes (blen (hello_exts h)) ++ hello_exts h.
Definition enc_record (h : client_hello) : bytes :=
  [TLS_HANDSHAKE; 3; 1] ++ be16_bytes (4 + blen (enc_hello h))
  ++ [TLS_CLIENT_HELLO] ++ be_bytes 3 (blen (enc_hello h)) ++ enc_hello h.

Definition hello_wf (h : client_hello) : Prop :=
  blen (ch_version h) = 2 /\ blen (ch_random h) = 32
  /\ blen (ch_session h) <= 255 /\ blen (ch_compression h) <= 255
  /\ 4 + blen (enc_hello h) <= U16_MAX
  /\ Forall (fun e => 1 <= e.1 <= U16_MAX) (ch_before h).

(** ** An HTTP/1 request head on the wire *)

Definition enc_lines (ls : list bytes) : bytes := concat (map (fun l => l ++ [13; 10]) ls).
(** A non-empty header line that is not a Host header. *)
Definition not_host (line : bytes) : bool :=
  negb (bool_decide (line = []))
  && match split_once 58 line with
     | None => true
     | Some (name, _) => negb (eq_ignore_ascii_case name (lit "host"))
     end.
Definition line_ok (line : bytes) : bool := str_is_ascii line && no_char 13 line.
Definition strip_port (value : bytes) : bytes :=
  match rsplit_once 58 value with
  | Some (host, port) => if forallb is_ascii_digit port then host else value
  | None => value
  end.

(** ** Reading big-endian integers *)

Lemma be16_at l pre v post i :
  0 <= v <= U16_MAX -> l = pre ++ be16_bytes v ++ post -> i = blen pre -> be16 l i = Some v.
Proof.
  intros Hv -> ->. unfold be16. rewrite be16_bytes_spec.
  rewrite (bget_at _ pre (v mod 256 :: post) (blen pre) ((v / 256) mod 256)) by (done || solve_app).
  rewrite (bget_at _ (pre ++ [(v / 256) mod 256]) post (blen pre + 1) (v mod 256)) by (blia || solve_app).
  cbn. f_equal. by apply u16_be_roundtrip.
Qed.

Lemma be24_at l pre v post i :
  0 <= v < 2 ^ 24 -> l = pre ++ be_bytes 3 v ++ post -> i = blen pre -> be24 l i = Some v.
Proof.
  intros Hv -> ->. unfold be24. cbn [be_bytes app].
  set (a := (v / 256 / 256) mod 256). set (b := (v / 256) mod 256). set (c := v mod 256).
  rewrite (bget_at _ pre ([b; c] ++ post) (blen pre) a) by (done || solve_app).
  rewrite (bget_at _ (pre ++ [a]) ([c] ++ post) (blen pre + 1) b) by (blia || solve_app).
  rewrite (bget_at _ (pre ++ [a; b]) post (blen pre + 2) c) by (blia || solve_app).
  cbn. f_equal.
  assert (0 <= b < 256) by (apply Z.mod_pos_bound; lia).
  assert (0 <= c < 256) by (apply Z.mod_pos_bound; lia).
  rewrite (lor_shiftl a) by (rewrite ?Z.shiftl_mul_pow2 by lia; lia).
  rewrite Z.shiftl_mul_pow2 by lia.
  replace (a * 2 ^ 16 + b * 2 ^ 8) with (Z.shiftl (a * 256 + b) 8)
    by (rewrite Z.shiftl_mul_pow2; lia).
  rewrite lor_shiftl by lia. subst a b c.
  rewrite (Z.mod_small (v / 256 / 256))
    by (split; [repeat apply Z.div_pos; lia | repeat apply Z.div_lt_upper_bound; lia]).
  pose proof (Z.div_mod v 256). pose proof (Z.div_mod (v / 256) 256). lia.
Qed.

Lemma be16_Some l i v : be16 l i = Some v -> 0 <= i /\ i + 1 < blen l.
Proof.
  unfold be16. intros (hi & H1 & (lo & H2 & _)%bind_Some)%bind_Some.
  apply bget_Some in H1, H2. lia.
Qed.

Lemma be16_nonneg l i v : all_bytes l -> be16 l i = Some v -> 0 <= v.
Proof.
  unfold be16. intros Hb (hi & H1 & (lo & H2 & [= <-])%bind_Some)%bind_Some.
  eapply all_bytes_bget in H1, H2; [|done..]. unfold is_byte in *.
  apply Z.lor_nonneg. split; [apply Z.shiftl_nonneg|]; lia.
Qed.


(** ** The server name is found *)

(** Steps over a bind of a known value and a [checked_add] in range. *)
Local Ltac add_ok :=
  repeat (cbn [mbind option_bind];
          rewrite checked_add_ok by (unfold USIZE_MAX, U64_MAX; lia));
  cbn [mbind option_bind].

Section server_name.
Context `{UnicodeCase}.

Lemma first_server_name_ok name :
  blen name <= U16_MAX - 3 -> first_server_name (sni_data name) = plausible_host name.
Proof.
  intros Hn. unfold U16_MAX in Hn. unfold first_server_name.
  assert (Hlen : blen (sni_data name) = 5 + blen name) by (unfold sni_data; blia).
  rewrite (be16_at _ [] (3 + blen name) ([SNI_HOST_NAME] ++ be16_bytes (blen name) ++ name))
    by (unfold U16_MAX; done || blia).
  cbn [mbind option_bind].
  rewrite checked_add_ok by (unfold USIZE_MAX, U64_MAX; lia). cbn [mbind option_bind].
  rewrite Z.min_l by lia. cbn [loop]. unfold first_server_name_step at 1.
  rewrite (proj2 (Z.leb_le _ _)) by blia.
  rewrite (bget_at _ (be16_bytes (3 + blen name)) (be16_bytes (blen name) ++ name) _ SNI_HOST_NAME)
    by (done || blia).
  rewrite (be16_at _ (be16_bytes (3 + blen name) ++ [SNI_HOST_NAME]) (blen name) name)
    by (unfold U16_MAX; done || blia).
  rewrite checked_add_ok by (unfold USIZE_MAX, U64_MAX; lia).
  rewrite (proj2 (Z.ltb_ge _ _)) by lia. cbn [Z.eqb SNI_HOST_NAME].
  rewrite bslice_ok by blia.
  rewrite (sub_at _ (be16_bytes (3 + blen name) ++ [SNI_HOST_NAME] ++ be16_bytes (blen name)) name [])
    by (blia || (rewrite app_nil_r; solve_app)).
  done.
Qed.

Lemma enc_exts_cons e es : enc_exts (e :: es) = enc_ext e ++ enc_exts es.
Proof. done. Qed.

Lemma blen_enc_ext e : blen (enc_ext e) = 4 + blen e.2.
Proof. unfold enc_ext. blia. Qed.

Lemma length_enc_exts es : Z.of_nat (length es) <= blen (enc_exts es).
Proof.
  induction es as [|e es IH]; [done|].
  rewrite enc_exts_cons, blen_app, blen_enc_ext. cbn [length]. blia.
Qed.

(** The loop skips the extensions before the server name. *)
Lemma extension_loop_ok before data : forall pre post fuel,
  (length before < fuel)%nat ->
  Forall (fun e => 1 <= e.1 <= U16_MAX) before ->
  let hello := pre ++ enc_exts before ++ enc_ext (EXT_SERVER_NAME, data) ++ post in
  blen hello <= U16_MAX ->
  loop fuel (extension_step hello (blen hello)) (blen pre) = Some (first_server_name data).
Proof.
  induction before as [|[k d] before IH]; intros pre post fuel Hf Hk hello Hlen;
    (destruct fuel as [|fuel]; [cbn in Hf; lia|]); cbn [loop].
  - assert (Hh : blen hello = blen pre + (4 + blen data) + blen post)
      by (subst hello; unfold enc_exts, enc_ext; cbn; blia).
    unfold U16_MAX in Hlen. unfold extension_step at 1.
    rewrite (proj2 (Z.leb_le _ _)) by blia.
    rewrite (be16_at _ pre EXT_SERVER_NAME (be16_bytes (blen data) ++ data ++ post))
      by (done || unfold hello, enc_ext; solve_app).
    rewrite (be16_at _ (pre ++ be16_bytes EXT_SERVER_NAME) (blen data) (data ++ post))
      by (unfold U16_MAX; blia || unfold hello, enc_ext; solve_app).
    rewrite checked_add_ok by (unfold USIZE_MAX, U64_MAX; blia).
    rewrite (proj2 (Z.ltb_ge _ _)) by blia. cbn [Z.eqb EXT_SERVER_NAME].
    rewrite bslice_ok by blia.
    rewrite (sub_at _ (pre ++ be16_bytes EXT_SERVER_NAME ++ be16_bytes (blen data)) data post)
      by (blia || unfold hello, enc_ext; solve_app).
    done.
  - apply Forall_cons in Hk as [Hk1 Hk2]. cbn in Hk1.
    assert (Hh : blen hello = blen (pre ++ enc_ext (k, d)) + blen (enc_exts before)
              + blen (enc_ext (EXT_SERVER_NAME, data) ++ post))
      by (subst hello; rewrite enc_exts_cons; blia).
    rewrite blen_app, blen_enc_ext in Hh. cbn [snd] in Hh.
    pose proof (length_enc_exts before). unfold U16_MAX in *. unfold extension_step at 1.
    rewrite (proj2 (Z.leb_le _ _)) by blia.
    rewrite (be16_at _ pre k (be16_bytes (blen d) ++ d ++ enc_exts before ++ enc_ext (EXT_SERVER_NAME, data) ++ post))
      by (unfold U16_MAX; lia || unfold hello; rewrite enc_exts_cons; unfold enc_ext; solve_app).
    rewrite (be16_at _ (pre ++ be16_bytes k) (blen d) (d ++ enc_exts before ++ enc_ext (EXT_SERVER_NAME, data) ++ post))
      by (unfold U16_MAX; blia || unfold hello; rewrite enc_exts_cons; unfold enc_ext; solve_app).
    rewrite checked_add_ok by (unfold USIZE_MAX, U64_MAX; blia).
    rewrite (proj2 (Z.ltb_ge _ _)) by blia.
    unfold wrap_u16. rewrite Z.mod_small by lia.
    rewrite (proj2 (Z.eqb_neq k EXT_SERVER_NAME)) by (unfold EXT_SERVER_NAME; lia).
    assert (Heq : hello = (pre ++ enc_ext (k, d)) ++ enc_exts before ++ enc_ext (EXT_SERVER_NAME, data) ++ post)
      by (unfold hello; rewrite enc_exts_cons; solve_app).
    replace (blen pre + 4 + blen d) with (blen (pre ++ enc_ext (k, d)))
      by (rewrite blen_app, blen_enc_ext; cbn; lia).
    rewrite Heq in *. apply IH; [cbn in Hf; lia | done | done].
Qed.

(** The fields of the hello are read in their order. *)
Lemma hello_fields p1 p2 p3 session ciphers compression exts :
  blen p1 = 34 ->
  p2 = p1 ++ [blen session] ++ session ->
  p3 = p2 ++ be16_bytes (blen ciphers) ++ ciphers ->
  blen session <= 255 -> blen compression <= 255 ->
  let p4 := p3 ++ [blen compression] ++ compression in
  let p5 := p4 ++ be16_bytes (blen exts) in
  blen (p5 ++ exts) <= U16_MAX ->
  hello_server_name (p5 ++ exts)
  = mjoin (loop (S (Z.to_nat (blen (p5 ++ exts))))
      (extension_step (p5 ++ exts) (blen (p5 ++ exts))) (blen p5)).
Proof.
  intros Hp1 -> -> Hs Hc p4 p5 Hl. unfold U16_MAX in Hl. set (hello := p5 ++ exts) in *.
  assert (Hlen : blen hello = 40 + blen session + blen ciphers + blen compression + blen exts)
    by (unfold hello, p5, p4; blia).
  assert (Hp5 : blen p5 = 40 + blen session + blen ciphers + blen compression)
    by (unfold p5, p4; blia).
  pose proof (blen_nonneg session). pose proof (blen_nonneg ciphers).
  pose proof (blen_nonneg compression). pose proof (blen_nonneg exts).
  unfold hello_server_name.
  rewrite (bget_at _ p1 (session ++ be16_bytes (blen ciphers) ++ ciphers ++ [blen compression]
             ++ compression ++ be16_bytes (blen exts) ++ exts) _ (blen session))
    by (lia || (unfold hello, p5, p4; solve_app)). add_ok.
  rewrite (be16_at _ (p1 ++ [blen session] ++ session) (blen ciphers) (ciphers ++ [blen compression]
             ++ compression ++ be16_bytes (blen exts) ++ exts))
    by (unfold U16_MAX; blia || (unfold hello, p5, p4; solve_app)). add_ok.
  rewrite (bget_at _ ((p1 ++ [blen session] ++ session) ++ be16_bytes (blen ciphers) ++ ciphers)
             (compression ++ be16_bytes (blen exts) ++ exts) _ (blen compression))
    by (blia || (unfold hello, p5, p4; solve_app)). add_ok.
  rewrite (be16_at _ p4 (blen exts) exts)
    by ((unfold U16_MAX; lia) || (unfold p4; blia) || (unfold hello, p5; solve_app)). add_ok.
  rewrite Z.min_r by lia. f_equal. f_equal. lia.
Qed.

Lemma hello_sni h : hello_wf h -> hello_server_name (enc_hello h) = plausible_host (ch_name h).
Proof.
  intros (Hv & Hr & Hs & Hc & Hl & Hb). unfold U16_MAX in Hl.
  set (p5 := (((ch_version h ++ ch_random h) ++ [blen (ch_session h)] ++ ch_session h)
    ++ be16_bytes (blen (ch_ciphers h)) ++ ch_ciphers h)
    ++ [blen (ch_compression h)] ++ ch_compression h).
  assert (Hh : enc_hello h = (p5 ++ be16_bytes (blen (hello_exts h))) ++ hello_exts h)
    by (unfold enc_hello, p5; solve_app).
  rewrite Hh in *. unfold p5 in *.
  rewrite (hello_fields (ch_version h ++ ch_random h) _ _ _ _ _ _) by (try done; unfold U16_MAX; blia).
  fold p5. unfold hello_exts at 2 4.
  pose proof (length_enc_exts (ch_before h)).
  pose proof (blen_nonneg (enc_exts (ch_after h))).
  assert (Hexts : blen (hello_exts h) = blen (enc_exts (ch_before h)) + (9 + blen (ch_name h))
            + blen (enc_exts (ch_after h)))
    by (unfold hello_exts, sni_data, enc_ext; cbn [fst snd]; blia).
  fold p5 in Hl. rewrite extension_loop_ok.
  - cbn. apply first_server_name_ok. unfold U16_MAX. blia.
  - blia.
  - done.
  - unfold U16_MAX. fold (hello_exts h). lia.
Qed.

(** C32.  A ClientHello record that carries a server name extension after any
    extensions of other kinds, followed by any bytes, gives exactly what
    [plausible_host] makes of that server name. *)
Theorem tls_sni_client_hello h trailing :
  hello_wf h -> tls_sni (enc_record h ++ trailing) = plausible_host (ch_name h).
Proof.
  intros (Hv & Hr & Hs & Hc & Hl & Hb). unfold tls_sni.
  set (hello := enc_hello h). fold hello in Hl. unfold U16_MAX in Hl.
  set (rec := enc_record h). pose proof (blen_nonneg hello).
  assert (Hrec : rec = ([TLS_HANDSHAKE; 3; 1] ++ be16_bytes (4 + blen hello))
                       ++ ([TLS_CLIENT_HELLO] ++ be_bytes 3 (blen hello) ++ hello))
    by (unfold rec, enc_record; solve_app).
  assert (Hreclen : blen rec = 9 + blen hello) by (rewrite Hrec; blia).
  assert (Hfst : bget (rec ++ trailing) 0 = Some TLS_HANDSHAKE) by (by rewrite Hrec).
  rewrite Hfst. cbn [mbind option_bind Z.eqb TLS_HANDSHAKE negb].
  rewrite (be16_at _ [TLS_HANDSHAKE; 3; 1] (4 + blen hello)
             ([TLS_CLIENT_HELLO] ++ be_bytes 3 (blen hello) ++ hello ++ trailing))
    by (done || (unfold U16_MAX; lia) || (rewrite Hrec; solve_app)).
  add_ok. rewrite Z.min_l by blia. rewrite bslice_ok by blia.
  rewrite (sub_at _ ([TLS_HANDSHAKE; 3; 1] ++ be16_bytes (4 + blen hello))
             ([TLS_CLIENT_HELLO] ++ be_bytes 3 (blen hello) ++ hello) trailing)
    by (blia || (rewrite Hrec; solve_app)).
  cbn [mbind option_bind]. change (bget _ 0) with (Some TLS_CLIENT_HELLO).
  cbn [mbind option_bind Z.eqb TLS_CLIENT_HELLO negb].
  rewrite (be24_at _ [TLS_CLIENT_HELLO] (blen hello) hello) by (done || lia).
  add_ok. rewrite Z.min_l by blia. rewrite bslice_ok by blia.
  rewrite (sub_at _ ([TLS_CLIENT_HELLO] ++ be_bytes 3 (blen hello)) hello [])
    by (blia || (rewrite app_nil_r; solve_app)).
  cbn [mbind option_bind]. by apply hello_sni; repeat split.
Qed.

End server_name.


(** ** What a sniffed name looks like *)

(** A lower-case name of at most 253 host bytes, with a dot but none at its end,
    that is not an address. *)
Definition host_ok (h : bytes) : Prop :=
  1 <= blen h <= MAX_HOST_LEN
  /\ forallb host_byte h = true /\ forallb (fun b => negb (is_ascii_upper b)) h = true
  /\ contains_char 46 h = true /\ (forall t, h <> t ++ [46])
  /\ parse_ip h = None.

Lemma host_byte_ascii b : host_byte b = true -> is_ascii b = true.
Proof.
  unfold host_byte, is_ascii_alphanumeric, is_ascii_digit, is_ascii_upper, is_ascii_lower, is_ascii.
  intros. apply Z.ltb_lt. zbool. destruct_or!; zbool; lia.
Qed.

Lemma host_byte_lower b : host_byte b = true -> host_byte (ascii_lower b) = true.
Proof.
  unfold ascii_lower. zcase; [|done]. intros _.
  unfold host_byte, is_ascii_alphanumeric, is_ascii_lower, is_ascii_upper in *. zbool.
  rewrite (proj2 (Z.leb_le 97 (b + 32))), (proj2 (Z.leb_le (b + 32) 122)) by lia.
  by rewrite orb_true_r.
Qed.

Lemma ascii_lower_not_upper b : is_ascii_upper (ascii_lower b) = false.
Proof. unfold ascii_lower, is_ascii_upper. repeat zcase; lia || (apply andb_false_iff; lia) || done. Qed.

Lemma forallb_lower (p q : Z -> bool) s :
  (forall b, p b = true -> q (ascii_lower b) = true) ->
  forallb p s = true -> forallb q (to_ascii_lowercase s) = true.
Proof.
  intros Hpq. rewrite !forallb_forall. intros Hs x (b & <- & Hb)%in_map_iff. auto.
Qed.

Lemma contains_char_lower c s : is_ascii_upper c = false -> is_ascii_lower c = false ->
  contains_char c (to_ascii_lowercase s) = contains_char c s.
Proof.
  intros. unfold contains_char, to_ascii_lowercase. induction s as [|b s IH]; [done|].
  cbn [map existsb]. rewrite IH, !(Z.eqb_sym c). by rewrite ascii_lower_eqb.
Qed.

Lemma host_ok_lower name :
  1 <= blen name <= MAX_HOST_LEN -> forallb host_byte name = true ->
  contains_char 46 name = true -> (forall t, name <> t ++ [46]) -> parse_ip name = None ->
  host_ok (to_ascii_lowercase name).
Proof.
  intros Hlen Hb Hdot Hend Hip. unfold host_ok.
  rewrite blen_to_ascii_lowercase, contains_char_lower, parse_ip_lower by done.
  repeat split; try done; try lia.
  - by apply (forallb_lower host_byte); [apply host_byte_lower|].
  - apply (forallb_lower host_byte); [|done]. intros b _. by rewrite ascii_lower_not_upper.
  - intros t Ht. destruct name as [|b t' _] using rev_ind; [by destruct t|].
    rewrite to_ascii_lowercase_app in Ht. apply app_inj_tail in Ht as [_ Hb46].
    apply (Hend t'). f_equal. f_equal.
    apply Z.eqb_eq in Hb46. rewrite ascii_lower_eqb in Hb46 by done. zbool. congruence.
Qed.

Section soundness.
Context `{UnicodeCase}.

(** The accepted name is a piece of the input, in lower case. *)
Lemma plausible_host_sound raw h :
  plausible_host raw = Some h ->
  host_ok h /\ exists p name q, raw = p ++ name ++ q /\ h = to_ascii_lowercase name.
Proof.
  unfold plausible_host. zcase; [done|].
  intros (s & Hs & Hh)%bind_Some. unfold from_utf8 in Hs. match_in Hs.
  set (name := trim_end_matches 46 (trim s)) in *. match_in Hh. zbool.
  assert (Hasc : str_is_ascii name = true).
  { apply forallb_forall. intros b Hb. apply host_byte_ascii.
    match goal with H : forallb host_byte _ = true |- _ => rewrite forallb_forall in H; auto end. }
  rewrite to_lowercase_ascii by done. split.
  - apply host_ok_lower; try done.
    + pose proof (blen_nonneg name). unfold MAX_HOST_LEN in *. lia.
    + intros t Ht. by apply trim_end_matches_last in Ht.
  - destruct (trim_infix s) as (p & q & Hs).
    destruct (trim_end_matches_prefix 46 (trim s)) as (q' & Hq & _).
    exists p, name, (q' ++ q). split; [|done].
    rewrite Hs at 1. rewrite Hq at 1. by rewrite <- app_assoc.
Qed.

Lemma first_server_name_sound data h :
  first_server_name data = Some h -> exists lo hi, plausible_host (sub data lo hi) = Some h.
Proof.
  unfold first_server_name.
  intros (n & _ & (e & _ & Hj)%bind_Some)%bind_Some. cbn zeta in Hj.
  destruct (loop _ _ _) as [r|] eqn:Hl; [|done]. cbn in Hj. subst r.
  refine (loop_inv _ (fun _ => True)
    (fun r => forall h, r = Some h -> exists lo hi, plausible_host (sub data lo hi) = Some h)
    _ _ _ _ I Hl h eq_refl).
  intros at_ _. unfold first_server_name_step.
  repeat case_match; try exact I; intros h' Hb; simplify_eq.
  match goal with Hb : _ ≫= _ = Some _ |- _ => apply bind_Some in Hb as (d & Hd & Hp) end.
  apply bslice_Some in Hd as (-> & _). eauto.
Qed.

Lemma hello_server_name_sound hello h :
  hello_server_name hello = Some h ->
  exists lo hi lo' hi', plausible_host (sub (sub hello lo hi) lo' hi') = Some h.
Proof.
  unfold hello_server_name. cbn zeta. intros Hh.
  do 9 (apply bind_Some in Hh as (? & _ & Hh)).
  destruct (loop _ _ _) as [r|] eqn:Hl; [|done]. cbn in Hh. subst r.
  refine (loop_inv _ (fun _ => True)
    (fun r => forall h, r = Some h ->
       exists lo hi lo' hi', plausible_host (sub (sub hello lo hi) lo' hi') = Some h)
    _ _ _ _ I Hl h eq_refl).
  intros at_ _. unfold extension_step.
  repeat case_match; try exact I; intros h' Hb; simplify_eq.
  match goal with Hb : _ ≫= _ = Some _ |- _ => apply bind_Some in Hb as (d & Hd & Hp) end.
  apply bslice_Some in Hd as (-> & _). apply first_server_name_sound in Hp as (? & ? & ?). eauto.
Qed.

Lemma tls_sni_sound buf h : tls_sni buf = Some h -> host_ok h.
Proof.
  unfold tls_sni. intros Hh. apply bind_Some in Hh as (? & _ & Hh).
  destruct (negb _); [done|]. do 4 (apply bind_Some in Hh as (? & _ & Hh)).
  destruct (negb _); [done|]. do 3 (apply bind_Some in Hh as (? & _ & Hh)).
  apply hello_server_name_sound in Hh as (? & ? & ? & ? & Hh).
  by apply plausible_host_sound in Hh as [? _].
Qed.

Lemma host_header_sound lines h : host_header lines = Some h -> host_ok h.
Proof.
  induction lines as [|line lines IH]; [done|]. cbn [host_header].
  destruct (bool_decide _); [done|].
  destruct (split_once 58 line) as [[name value]|]; [|done].
  destruct (negb _); [done|]. intros Hh. by apply plausible_host_sound in Hh as [? _].
Qed.

(** Whatever bytes a client sends first, a name [hostname] returns is a
    lower-case name of 1 to 253 host bytes that has a dot, does not end with
    one, and is not an IP address. *)
Theorem hostname_sound buf h : hostname buf = Some h -> host_ok h.
Proof.
  unfold hostname. destruct (tls_sni buf) as [h'|] eqn:Ht.
  - intros [= <-]. by apply tls_sni_sound in Ht.
  - unfold http_host. cbn zeta. intros (head & _ & Hh)%bind_Some.
    destruct (split_crlf _); [done|]. destruct (negb _); [done|]. by apply host_header_sound in Hh.
Qed.
End soundness.


(** ** The Host header is found *)

Lemma split_crlf_lines ls t :
  forallb line_ok ls = true -> split_crlf (enc_lines ls ++ t) = ls ++ split_crlf t.
Proof.
  induction ls as [|l ls IH]; [done|]. cbn [forallb]. intros [[_ Hl]%andb_prop Hls]%andb_prop.
  change (enc_lines (l :: ls)) with ((l ++ [13; 10]) ++ enc_lines ls).
  rewrite <- !app_assoc, split_crlf_app by done. by rewrite IH.
Qed.

Lemma enc_lines_ascii ls : forallb line_ok ls = true -> str_is_ascii (enc_lines ls) = true.
Proof.
  induction ls as [|l ls IH]; [done|]. cbn [forallb]. intros [[Hl _]%andb_prop Hls]%andb_prop.
  change (enc_lines (l :: ls)) with ((l ++ [13; 10]) ++ enc_lines ls).
  by rewrite !str_is_ascii_app, Hl, IH.
Qed.

Section http.
Context `{UnicodeCase}.

Lemma host_header_skip before rest :
  forallb not_host before = true -> host_header (before ++ rest) = host_header rest.
Proof.
  induction before as [|l ls IH]; [done|]. cbn [forallb]. intros [Hl Hls]%andb_prop.
  cbn [app host_header]. unfold not_host in Hl. apply andb_prop in Hl as [Hne Hl].
  apply negb_true_iff in Hne. rewrite Hne.
  destruct (split_once 58 l) as [[n v]|]; [rewrite Hl|]; by apply IH.
Qed.

(** In a request head whose first 4096 bytes hold a Host header (in any
    case), after a request line and headers of other names, [http_host] gives
    what [plausible_host] makes of the header's value without white space
    around it and without a port; any bytes may follow. *)
Theorem http_host_header line before name value rest :
  looks_like_http line = true ->
  no_char 58 name = true -> eq_ignore_ascii_case name (lit "host") = true ->
  forallb not_host before = true ->
  let head := line :: before ++ [name ++ [58] ++ value] in
  forallb line_ok head = true ->
  blen (enc_lines head) <= PEEK_BUDGET ->
  http_host (enc_lines head ++ rest) = plausible_host (strip_port (trim value)).
Proof.
  intros Hline Hname Hhost Hbefore head Hok Hlen. unfold http_host. cbn zeta.
  pose proof (blen_nonneg (enc_lines head)). unfold PEEK_BUDGET in *.
  rewrite bslice_ok by blia. cbn [mbind option_bind].
  rewrite sub_app_cut by blia.
  destruct (lossy_app_ascii (enc_lines head) (sub rest 0 (Z.min (blen (enc_lines head ++ rest)) 4096
    - blen (enc_lines head)))) as [r ->];
    [by apply enc_lines_ascii|].
  rewrite split_crlf_lines by done. cbn [app head]. rewrite Hline. cbn [negb].
  rewrite <- app_assoc, host_header_skip by done. cbn [app host_header].
  rewrite bool_decide_eq_false_2 by (by destruct name).
  pose proof (split_once_app 58 name value Hname) as Hsp. cbn [app] in Hsp.
  by rewrite Hsp, Hhost.
Qed.

End http.

(** ** Termination *)

Section termination.
Context `{UnicodeCase}.

(** The loops over the extensions and over the server name list end within
    the fuel given to them: their position grows in every iteration and stays
    below the end of the list. *)
Theorem sniff_loops_terminate data list_end at_ :
  all_bytes data -> 0 <= at_ ->
  (exists r, loop (S (Z.to_nat list_end)) (extension_step data list_end) at_ = Some r)
  /\ (exists r, loop (S (Z.to_nat list_end)) (first_server_name_step data list_end) at_ = Some r).
Proof.
  intros Hb Hat.
  split.
  - destruct (loop_correct (extension_step data list_end) (fun a => 0 <= a) (fun _ => True)
      (fun a => Z.to_nat (list_end - a))) with (fuel := S (Z.to_nat list_end)) (s := at_)
      as (r & Hr & _); [|done|lia|eauto].
    intros a Ha. unfold extension_step. repeat case_match; simplify_eq; try done. zbool.
    match goal with Hc : checked_add _ _ = Some _, Hl : be16 _ (a + 2) = Some _ |- _ =>
      apply checked_add_Some in Hc; apply be16_nonneg in Hl; [|done] end. lia.
  - destruct (loop_correct (first_server_name_step data list_end) (fun a => 0 <= a) (fun _ => True)
      (fun a => Z.to_nat (list_end - a))) with (fuel := S (Z.to_nat list_end)) (s := at_)
      as (r & Hr & _); [|done|lia|eauto].
    intros a Ha. unfold first_server_name_step. repeat case_match; simplify_eq; try done. zbool.
    match goal with Hc : checked_add _ _ = Some _, Hl : be16 _ (a + 1) = Some _ |- _ =>
      apply checked_add_Some in Hc; apply be16_nonneg in Hl; [|done] end. lia.
Qed.

End termination.

(** ** Witnesses *)

Definition example_hello : client_hello :=
  {| ch_version := [3; 3]; ch_random := replicate 32 17; ch_session := [];
     ch_ciphers := [19; 1]; ch_compression := [0];
     ch_before := [(43, [2; 3; 4])]; ch_name := lit "Example.COM."; ch_after := [(10, [0; 0])] |}.

Lemma tls_sni_client_hello_witness :
  hello_wf example_hello
  /\ @tls_sni ascii_case (enc_record example_hello ++ [1; 2; 3]) = Some (lit "example.com").
Proof.
  assert (Hwf : hello_wf example_hello)
    by (repeat split; try (vm_compute; congruence); repeat constructor; cbn; done).
  split; [exact Hwf|]. exact (@tls_sni_client_hello ascii_case example_hello [1; 2; 3] Hwf).
Defined.

Lemma hostname_sound_witness : host_ok (lit "example.com").
Proof.
  apply (@hostname_sound ascii_case (enc_record example_hello)). vm_compute. reflexivity.
Defined.

Lemma http_host_header_witness :
  @http_host ascii_case
    (lit "GET / HTTP/1.1" ++ [13; 10] ++ lit "Accept: */*" ++ [13; 10]
     ++ lit "HOST:  Example.com:8080" ++ [13; 10] ++ [13; 10]) = Some (lit "example.com").
Proof.
  exact (@http_host_header ascii_case (lit "GET / HTTP/1.1") [lit "Accept: */*"] (lit "HOST")
    (lit "  Example.com:8080") [13; 10] eq_refl eq_refl eq_refl eq_refl eq_refl ltac:(vm_compute; congruence)).
Defined.

Lemma sniff_loops_terminate_witness :
  exists r, loop 8 (@extension_step ascii_case [0; 43; 0; 1; 9; 0; 0] 7) 0 = Some r.
Proof.
  apply (@sniff_loops_terminate ascii_case [0; 43; 0; 1; 9; 0; 0] 7 0); [|lia].
  repeat constructor; unfold is_byte; lia.
Defined.

End Sniff.
