(* ===== verification/Routing.v ===== *)
(** * Routing rules ([aether/src/routing.rs], rules and verdicts)

    A rule set holds the BLOCK and the DIRECT rules; [decide] gives the verdict
    for a destination.  [Matcher] is one rule and [matches] its meaning; [Rules]
    is the indexed form ([from_matchers], [Rules_matches]) the program uses.
    The crates [ipnet] and [regex] are the classes [IpNetCrate] and
    [RegexCrate]. *)

From stdpp Require Import sorting.
From S2P Require Import Prelude Str Ip.
Local Open Scope Z_scope.

(** ** The crates the rules are built on *)

(** The [ipnet] crate: IPv4 and IPv6 networks.  [contains] of an IPv4 network
    holds for the addresses from [network] to [broadcast], and a network never
    contains an address of the other family. *)
Class IpNetCrate := {
  Ipv4Net : Type;
  Ipv6Net : Type;
  ipnet_from_str : bytes -> option (Ipv4Net + Ipv6Net);
  v4net_from : Z -> Ipv4Net;
  v6net_from : Z -> Ipv6Net;
  network : Ipv4Net -> Z;
  broadcast : Ipv4Net -> Z;
  net_contains : Ipv4Net + Ipv6Net -> IpAddr -> bool;
  network_range n : 0 <= network n /\ network n <= broadcast n /\ broadcast n <= U32_MAX;
  net_contains_v4 n a : net_contains (inl n) (V4 a) = (network n <=? a) && (a <=? broadcast n);
  net_contains_v4_v6 n a : net_contains (inl n) (V6 a) = false;
  net_contains_v6_v4 n a : net_contains (inr n) (V4 a) = false;
}.

(** The [regex] crate. *)
Class RegexCrate := {
  Regex : Type;
  regex_new : bytes -> option Regex;
  is_match : Regex -> bytes -> bool;
}.

Module Routing.

Inductive Action := Proxy | Direct | Block.
#[export] Instance Action_eq_dec : EqDecision Action.
Proof. solve_decision. Defined.

Definition label (a : Action) : bytes :=
  match a with
  | Proxy => lit "proxy"
  | Direct => lit "direct"
  | Block => lit "block"
  end.

Inductive Host :=
| HDomain (name : bytes)
| HIp (ip : IpAddr).

Definition is_private (ip : IpAddr) : bool :=
  match ip with
  | V4 v4 =>
      v4_is_private v4 || v4_is_loopback v4 || v4_is_link_local v4 || v4_is_broadcast v4
      || v4_is_documentation v4 || v4_is_unspecified v4
      || ((octet v4 0 =? 100) && ((64 <=? octet v4 1) && (octet v4 1 <? 128)))
  | V6 v6 =>
      v6_is_loopback v6 || v6_is_unspecified v6
      || (Z.land (segment0 v6) 65024 =? 64512)
      || (Z.land (segment0 v6) 65472 =? 65152)
  end.

Definition parse_ports (value : bytes) : option (Z * Z) :=
  let value := trim value in
  match split_once 45 value with
  | Some (lo, hi) =>
      lo ← parse_u16 (trim lo);
      hi ← parse_u16 (trim hi);
      Some (if hi <? lo then (hi, lo) else (lo, hi))
  | None =>
      single ← parse_u16 value;
      Some (single, single)
  end.

Section routing.
Context `{UnicodeCase, IpNetCrate, RegexCrate}.

Abbreviation IpNet := (Ipv4Net + Ipv6Net)%type.

Inductive Matcher :=
| DomainSuffix (suffix : bytes)
| DomainFull (full : bytes)
| DomainKeyword (needle : bytes)
| DomainRegex (pattern : Regex)
| Net (net : IpNet)
| Ports (lo hi : Z)
| Private.

Definition normalize_domain (value : bytes) : option bytes :=
  let cleaned :=
    to_lowercase (trim_end_matches 46 (trim_start_matches 46 (trim_start_matches 42 (trim value)))) in
  if bool_decide (cleaned = []) then None else Some cleaned.

Definition parse_net (value : bytes) : option IpNet :=
  let value := trim value in
  match ipnet_from_str value with
  | Some net => Some net
  | None =>
      match parse_ip value with
      | Some (V4 a) => Some (inl (v4net_from a))
      | Some (V6 a) => Some (inr (v6net_from a))
      | None => None
      end
  end.

(** The kind of an entry (before its first colon) and its value. *)
Definition entry_kind (entry : bytes) : bytes * bytes :=
  match split_once 58 entry with
  | Some (kind, value) =>
      if negb (contains_char 46 kind) && negb (contains_char 47 kind)
      then (to_lowercase (trim kind), trim value)
      else ([], entry)
  | None => ([], entry)
  end.

Definition is_kind (kind : bytes) (names : list string) : bool :=
  existsb (fun n => bool_decide (kind = lit n)) names.

Definition Matcher_parse (entry : bytes) : option Matcher :=
  let entry := trim entry in
  if bool_decide (entry = []) || starts_with (lit "#") entry then None
  else
    let '(kind, value) := entry_kind entry in
    if is_kind kind ["domain"; "suffix"]%string then DomainSuffix <$> normalize_domain value
    else if is_kind kind ["full"; "exact"]%string then DomainFull <$> normalize_domain value
    else if is_kind kind ["keyword"]%string then
      let needle := to_lowercase (trim value) in
      if bool_decide (needle = []) then None else Some (DomainKeyword needle)
    else if is_kind kind ["regexp"; "regex"]%string then DomainRegex <$> regex_new value
    else if is_kind kind ["ip"; "cidr"]%string then Net <$> parse_net value
    else if is_kind kind ["port"]%string then (fun p => Ports p.1 p.2) <$> parse_ports value
    else if is_kind kind ["geoip"; "geosite"]%string then
      if eq_ignore_ascii_case value (lit "private") then Some Private else None
    else if is_kind kind [""]%string then
      if eq_ignore_ascii_case value (lit "private") then Some Private
      else match parse_net value with
           | Some net => Some (Net net)
           | None => DomainSuffix <$> normalize_domain value
           end
    else None.

Definition Matcher_matches (m : Matcher) (host : Host) (port : Z) : bool :=
  match m with
  | Ports lo hi => (lo <=? port) && (port <=? hi)
  | Private =>
      match host with
      | HIp ip => is_private ip
      | HDomain name => eq_ignore_ascii_case name (lit "localhost")
      end
  | Net net =>
      match host with
      | HIp ip => net_contains net ip
      | HDomain _ => false
      end
  | DomainSuffix suffix =>
      match host with
      | HDomain name =>
          let name := to_lowercase name in
          bool_decide (name = suffix) || ends_with ([46] ++ suffix) name
      | HIp _ => false
      end
  | DomainFull full =>
      match host with
      | HDomain name => eq_ignore_ascii_case name full
      | HIp _ => false
      end
  | DomainKeyword needle =>
      match host with
      | HDomain name => contains needle (to_lowercase name)
      | HIp _ => false
      end
  | DomainRegex pattern =>
      match host with
      | HDomain name => is_match pattern name
      | HIp _ => false
      end
  end.

(** ** The indexed rules *)

Record Rules := mkRules {
  suffixes : gset bytes;
  fulls : gset bytes;
  v4 : list (Z * Z);
  v6 : list IpNet;
  others : list Matcher;
  count : Z;
}.
Definition Rules_default : Rules := mkRules ∅ ∅ [] [] [] 0.

(** The order of [(u32, u32)]. *)
Definition pair_le (a b : Z * Z) : Prop := a.1 < b.1 \/ (a.1 = b.1 /\ a.2 <= b.2).
#[export] Instance pair_le_dec : RelDecision pair_le.
Proof. intros a b. unfold pair_le. apply _. Defined.

(** One step of the loop that files a matcher: the rules so far and the IPv4
    ranges collected. *)
Definition add_matcher (st : Rules * list (Z * Z)) (m : Matcher) : Rules * list (Z * Z) :=
  let '(r, ranges) := st in
  let r := mkRules (suffixes r) (fulls r) (v4 r) (v6 r) (others r) (count r + 1) in
  match m with
  | DomainSuffix suffix =>
      (mkRules ({[suffix]} ∪ suffixes r) (fulls r) (v4 r) (v6 r) (others r) (count r), ranges)
  | DomainFull full =>
      (mkRules (suffixes r) ({[full]} ∪ fulls r) (v4 r) (v6 r) (others r) (count r), ranges)
  | Net (inl net) => (r, ranges ++ [(network net, broadcast net)])
  | Net (inr net) =>
      (mkRules (suffixes r) (fulls r) (v4 r) (v6 r ++ [inr net]) (others r) (count r), ranges)
  | other =>
      (mkRules (suffixes r) (fulls r) (v4 r) (v6 r) (others r ++ [other]) (count r), ranges)
  end.

(** One step of the merging loop; [merged] is kept last range first, as the
    code works on [merged.last_mut()]. *)
Definition merge_step (merged : list (Z * Z)) (range : Z * Z) : list (Z * Z) :=
  let '(start, end_) := range in
  match merged with
  | (s, e) :: rest =>
      if start <=? e + 1 then (if e <? end_ then (s, end_) :: rest else merged)
      else range :: merged
  | [] => [range]
  end.

Definition merge_ranges (ranges : list (Z * Z)) : list (Z * Z) :=
  rev (fold_left merge_step (merge_sort pair_le ranges) []).

Definition from_matchers (l : list Matcher) : Rules :=
  let '(r, ranges) := fold_left add_matcher l (Rules_default, []) in
  mkRules (suffixes r) (fulls r) (merge_ranges ranges) (v6 r) (others r) (count r).

Definition Rules_is_empty (r : Rules) : bool := count r =? 0.

Definition is_domain_other (m : Matcher) : bool :=
  match m with DomainKeyword _ | DomainRegex _ => true | _ => false end.

Definition Rules_has_domain_rules (r : Rules) : bool :=
  negb (bool_decide (suffixes r = ∅)) || negb (bool_decide (fulls r = ∅))
  || existsb is_domain_other (others r).

(** The loop over the labels of the name: [rest], then what follows each dot. *)
Fixpoint label_walk (set : gset bytes) (fuel : nat) (rest : bytes) : bool :=
  match fuel with
  | O => false
  | S fuel' =>
      if bool_decide (rest ∈ set) then true
      else match find_char 46 rest with
           | Some dot => label_walk set fuel' (sub rest (dot + 1) (blen rest))
           | None => false
           end
  end.

(** [slice::partition_point]: how many leading elements satisfy the predicate. *)
Fixpoint partition_point {A} (p : A -> bool) (l : list A) : nat :=
  match l with
  | [] => O
  | a :: l' => if p a then S (partition_point p l') else O
  end.

Definition Rules_matches (r : Rules) (host : Host) (port : Z) : bool :=
  let indexed :=
    match host with
    | HDomain name =>
        if negb (bool_decide (suffixes r = ∅)) || negb (bool_decide (fulls r = ∅)) then
          let lowered := to_ascii_lowercase (trim_end_matches 46 name) in
          if bool_decide (lowered ∈ fulls r) then true
          else if negb (bool_decide (suffixes r = ∅)) then
            label_walk (suffixes r) (S (length lowered)) lowered
          else false
        else false
    | HIp (V4 x) =>
        let i := partition_point (fun range => range.1 <=? x) (v4 r) in
        match i with
        | O => false
        | S k => match v4 r !! k with Some range => x <=? range.2 | None => false end
        end
    | HIp (V6 a) => existsb (fun net => net_contains net (V6 a)) (v6 r)
    end in
  indexed || existsb (fun rule => Matcher_matches rule host port) (others r).

Definition parse_list (raw : bytes) : Rules :=
  from_matchers (omap Matcher_parse (split_chars (fun b => (b =? 10) || (b =? 44) || (b =? 59)) raw)).

(** ** Rule sets *)

Record RuleSet := mkRuleSet { block : Rules; direct : Rules }.

Definition RuleSet_parse (block direct : bytes) : RuleSet :=
  mkRuleSet (parse_list block) (parse_list direct).

Definition RuleSet_is_empty (set : RuleSet) : bool :=
  Rules_is_empty (block set) && Rules_is_empty (direct set).

Definition RuleSet_has_domain_rules (set : RuleSet) : bool :=
  Rules_has_domain_rules (block set) || Rules_has_domain_rules (direct set).

Definition decide (set : RuleSet) (host : Host) (port : Z) : Action :=
  if Rules_matches (block set) host port then Block
  else if Rules_matches (direct set) host port then Direct
  else Proxy.

(** ** The routing file and the environment *)

Definition push_list (target extra : bytes) : bytes :=
  if bool_decide (trim extra = []) then target
  else (if bool_decide (trim target = []) then target else target ++ [10]) ++ extra.

Inductive section := SecBlock | SecDirect.

(** One line of the file: the two lists so far and the section it is in. *)
Definition split_line (st : bytes * bytes * option section) (line : bytes) : bytes * bytes * option section :=
  let '(block, direct, current) := st in
  let trimmed := trim line in
  if bool_decide (trimmed = []) || starts_with (lit "#") trimmed then st
  else
    let lowered := to_lowercase trimmed in
    if bool_decide (lowered = lit "[block]") then (block, direct, Some SecBlock)
    else if bool_decide (lowered = lit "[direct]") then (block, direct, Some SecDirect)
    else if starts_with (lit "[") lowered then (block, direct, None)
    else match current with
         | Some SecBlock => (block ++ trimmed ++ [10], direct, current)
         | Some SecDirect => (block, direct ++ trimmed ++ [10], current)
         | None => st
         end.

Definition split_sections (text : bytes) : bytes * bytes :=
  let '(block, direct, _) := fold_left split_line (lines text) ([], [], None) in (block, direct).

(** [env] is the environment and [read] reads a file as text. *)
Definition from_env (env : bytes -> option bytes) (read : bytes -> option bytes) : RuleSet :=
  let block := default [] (env (lit "AETHER_ROUTE_BLOCK")) in
  let direct := default [] (env (lit "AETHER_ROUTE_DIRECT")) in
  match env (lit "AETHER_ROUTES_FILE") with
  | Some path =>
      match read path with
      | Some text =>
          let '(file_block, file_direct) := split_sections text in
          RuleSet_parse (push_list block file_block) (push_list direct file_direct)
      | None => RuleSet_parse block direct
      end
  | None => RuleSet_parse block direct
  end.

End routing.

(** ** The merged IPv4 ranges *)

Definition covers (x : Z) (l : list (Z * Z)) : Prop := exists r, r ∈ l /\ r.1 <= x <= r.2.

(** Ranges in increasing order, no two of them overlapping or adjacent. *)
Definition ranges_wf (l : list (Z * Z)) : Prop :=
  StronglySorted (fun a b => a.2 + 1 < b.1) l /\ Forall (fun a => a.1 <= a.2) l.

Lemma covers_nil x : ~ covers x [].
Proof. intros (r & Hr & _). by apply elem_of_nil in Hr. Qed.

Lemma covers_cons x r l : covers x (r :: l) <-> r.1 <= x <= r.2 \/ covers x l.
Proof.
  unfold covers. setoid_rewrite elem_of_cons. naive_solver.
Qed.

Lemma covers_app x l k : covers x (l ++ k) <-> covers x l \/ covers x k.
Proof. unfold covers. setoid_rewrite elem_of_app. naive_solver. Qed.

#[export] Instance covers_perm x : Proper ((≡ₚ) ==> iff) (covers x).
Proof. intros l k Hlk. unfold covers. by setoid_rewrite Hlk. Qed.

(** The binary search finds the only range that can contain [x]. *)
Lemma partition_point_covers x l :
  ranges_wf l ->
  match partition_point (fun r : Z * Z => r.1 <=? x) l with
  | O => false
  | S k => match l !! k with Some r => x <=? r.2 | None => false end
  end = true <-> covers x l.
Proof.
  induction l as [|a l IH]; intros [Hs Hw]; [cbn; split; [done | by intros ?%covers_nil]|].
  apply StronglySorted_inv in Hs as [Hs Ha]. apply Forall_cons in Hw as [Hwa Hw].
  specialize (IH (conj Hs Hw)). rewrite covers_cons. cbn [partition_point].
  destruct (a.1 <=? x) eqn:Hx; zbool.
  - destruct (partition_point _ l) as [|k] eqn:Hp.
    + cbn. rewrite Z.leb_le. rewrite <- IH. intuition lia.
    + cbn [lookup list_lookup]. rewrite IH. intuition. exfalso.
      destruct l as [|b l]; [done|]. cbn in Hp. destruct (b.1 <=? x) eqn:Hb; [|done]. zbool.
      apply Forall_cons in Ha as [Hab _]. lia.
  - split; [done|]. intros [?|(r & Hr & ?)]; [lia|].
    rewrite Forall_forall in Ha. specialize (Ha r Hr). cbn in Ha. lia.
Qed.

(** The accumulator of the merging loop: the ranges so far, last first, and
    all of them starting no later than the next range. *)
Definition merged_inv (acc : list (Z * Z)) (next : Z) : Prop :=
  StronglySorted (fun a b => b.2 + 1 < a.1) acc
  /\ Forall (fun a => a.1 <= a.2 /\ a.1 <= next) acc.

Lemma merge_step_inv acc r next :
  merged_inv acc r.1 -> r.1 <= r.2 -> r.1 <= next ->
  merged_inv (merge_step acc r) next
  /\ forall x, covers x (merge_step acc r) <-> covers x acc \/ r.1 <= x <= r.2.
Proof.
  destruct r as [start end_]. cbn [fst snd]. intros [Hs Hf] Hr Hn.
  assert (Hmono : forall acc, Forall (fun a : Z * Z => a.1 <= a.2 /\ a.1 <= start) acc ->
                         Forall (fun a => a.1 <= a.2 /\ a.1 <= next) acc)
    by (intros ? H; eapply Forall_impl; [exact H|]; cbn; intros; lia).
  destruct acc as [|[s e] acc]; cbn [merge_step].
  - split; [repeat constructor; cbn; lia|]. intros x. rewrite covers_cons. naive_solver.
  - apply StronglySorted_inv in Hs as [Hs Hsa]. apply Forall_cons in Hf as [Hse Hf]. cbn in Hse.
    destruct (start <=? e + 1) eqn:Hadj; zbool; [destruct (e <? end_) eqn:He; zbool|].
    + split; [|intros x; rewrite !covers_cons; cbn; intuition lia].
      split; constructor; try done; [cbn; lia | auto].
    + split; [|intros x; rewrite !covers_cons; cbn; intuition lia].
      split; constructor; try done; [cbn; lia | auto].
    + split; [|intros x; rewrite !covers_cons; cbn; intuition lia].
      split; [|constructor; [cbn; lia|]; constructor; [cbn; lia | auto]].
      constructor; [by constructor|]. constructor; [cbn; lia|].
      eapply Forall_impl; [exact Hsa|]. cbn. intros b Hb. lia.
Qed.

Lemma merge_fold_inv l : forall acc,
  StronglySorted pair_le l -> Forall (fun a => a.1 <= a.2) l ->
  (forall r, head l = Some r -> merged_inv acc r.1) -> (l = [] -> exists n, merged_inv acc n) ->
  (exists n, merged_inv (fold_left merge_step l acc) n)
  /\ forall x, covers x (fold_left merge_step l acc) <-> covers x acc \/ covers x l.
Proof.
  induction l as [|r l IH]; intros acc Hs Hw Hinv Hend.
  - split; [by apply Hend|]. intros x. cbn. pose proof (covers_nil x). tauto.
  - apply StronglySorted_inv in Hs as [Hs Hr]. apply Forall_cons in Hw as [Hwr Hw].
    specialize (Hinv r eq_refl). cbn [fold_left].
    assert (Hnext : forall r', head l = Some r' -> merged_inv (merge_step acc r) r'.1).
    { intros r' Hr'. destruct l as [|? l]; [done|]. injection Hr' as ->.
      apply Forall_cons in Hr as [Hrr' _]. apply merge_step_inv; try done.
      unfold pair_le in Hrr'. lia. }
    destruct (IH (merge_step acc r) Hs Hw Hnext) as [Hn Hc].
    { intros _. exists r.1. by apply merge_step_inv. }
    split; [done|]. intros x. rewrite Hc, covers_cons.
    destruct (merge_step_inv acc r r.1 Hinv Hwr ltac:(lia)) as [_ Hm]. rewrite Hm. tauto.
Qed.

#[export] Instance pair_le_trans : Transitive pair_le.
Proof. intros a b c. unfold pair_le. lia. Qed.
#[export] Instance pair_le_total : Total pair_le.
Proof. intros a b. unfold pair_le. lia. Qed.

Lemma StronglySorted_rev {A} (R : A -> A -> Prop) l :
  StronglySorted (fun a b => R b a) l -> StronglySorted R (rev l).
Proof.
  induction 1 as [|a l Hs IH Ha]; [constructor|]. cbn.
  apply StronglySorted_app_2; [|done|repeat constructor].
  intros x y Hx Hy%list_elem_of_singleton. subst y.
  rewrite Forall_forall in Ha. apply Ha. rewrite list_elem_of_In in *. by apply in_rev.
Qed.

(** Merging keeps exactly the addresses of the ranges it is given, in sorted,
    disjoint, non-adjacent ranges. *)
Lemma merge_ranges_correct l :
  Forall (fun a => a.1 <= a.2) l ->
  ranges_wf (merge_ranges l) /\ forall x, covers x (merge_ranges l) <-> covers x l.
Proof.
  intros Hw. unfold merge_ranges.
  destruct (merge_fold_inv (merge_sort pair_le l) []) as [[n [Hs Hf]] Hc].
  - apply (StronglySorted_merge_sort pair_le).
  - by rewrite (merge_sort_Permutation pair_le l).
  - intros r _. split; constructor.
  - intros _. exists 0. split; constructor.
  - split; [split|].
    + by apply (StronglySorted_rev (fun a b : Z * Z => a.2 + 1 < b.1)).
    + apply Forall_rev. eapply Forall_impl; [done|]. cbn. tauto.
    + intros x. rewrite <- (Permutation_rev _), Hc, (merge_sort_Permutation pair_le l).
      pose proof (covers_nil x). tauto.
Qed.

(** ** The walk over the labels *)

Lemma first_char_cut c p t p' s :
  no_char c p = true -> p ++ [c] ++ t = p' ++ [c] ++ s ->
  (p' = p /\ t = s) \/ exists q, t = q ++ [c] ++ s.
Proof.
  revert p'. induction p as [|b p IH]; intros p' Hp Heq.
  - destruct p' as [|b' p']; [injection Heq as -> | injection Heq as -> ->]; [by left | right; by exists p'].
  - apply andb_prop in Hp as [Hb Hp]. destruct p' as [|b' p'].
    + injection Heq as -> _. by rewrite Z.eqb_refl in Hb.
    + injection Heq as -> Heq. destruct (IH p' Hp Heq) as [[-> ->]|?]; [by left | by right].
Qed.

(** The walk meets exactly the name and what follows each of its dots. *)
Lemma label_walk_spec set fuel rest :
  (length rest < fuel)%nat ->
  label_walk set fuel rest = true
  <-> exists s, s ∈ set /\ (rest = s \/ exists p, rest = p ++ [46] ++ s).
Proof.
  revert rest. induction fuel as [|fuel IH]; intros rest Hf; [lia|]. cbn [label_walk].
  destruct (bool_decide (rest ∈ set)) eqn:Hin.
  { apply bool_decide_eq_true in Hin. split; [eauto | done]. }
  apply bool_decide_eq_false in Hin.
  destruct (find_char 46 rest) as [dot|] eqn:Hdot.
  - apply find_char_Some in Hdot as (p & t & -> & -> & Hp).
    rewrite (sub_at (p ++ [46] ++ t) (p ++ [46]) t []) by (blia || (rewrite app_nil_r; solve_app)).
    rewrite IH by (rewrite !length_app in Hf; cbn in Hf; lia). split.
    + intros (s & Hs & [->|[q ->]]); exists s; (split; [done|]); right; [eauto|].
      exists (p ++ [46] ++ q). by rewrite <- !app_assoc.
    + intros (s & Hs & [<-|[q Hq]]); [done|].
      exists s. split; [done|]. apply first_char_cut in Hq as [[_ ->]|?]; auto.
  - split; [done|]. intros (s & Hs & [->|[q ->]]); [done|].
    apply find_char_None in Hdot. by rewrite no_char_not_in in Hdot.
Qed.

Section equivalence.
Context `{UnicodeCase, IpNetCrate, RegexCrate}.

(** ** How the matchers are filed *)

Definition v4_range (m : Matcher) : option (Z * Z) :=
  match m with Net (inl n) => Some (network n, broadcast n) | _ => None end.
Definition v6_net (m : Matcher) : option (Ipv4Net + Ipv6Net) :=
  match m with Net (inr n) => Some (inr n) | _ => None end.
Definition is_other (m : Matcher) : bool :=
  match m with DomainSuffix _ | DomainFull _ | Net _ => false | _ => true end.

Lemma fold_add_matcher l : forall r ranges,
  let '(r', ranges') := fold_left add_matcher l (r, ranges) in
  (forall s, s ∈ suffixes r' <-> s ∈ suffixes r \/ DomainSuffix s ∈ l)
  /\ (forall s, s ∈ fulls r' <-> s ∈ fulls r \/ DomainFull s ∈ l)
  /\ ranges' = ranges ++ omap v4_range l
  /\ v6 r' = v6 r ++ omap v6_net l
  /\ others r' = others r ++ List.filter is_other l
  /\ count r' = count r + blen l.
Proof.
  induction l as [|m l IH]; intros r ranges.
  - cbn [fold_left]. split; [set_solver|]. split; [set_solver|].
    repeat split; try (by rewrite app_nil_r). rewrite blen_nil. lia.
  - cbn [fold_left]. destruct (add_matcher (r, ranges) m) as [r1 ranges1] eqn:Hadd.
    specialize (IH r1 ranges1). destruct (fold_left add_matcher l (r1, ranges1)) as [r' ranges'].
    destruct IH as (Hs & Hf & -> & -> & -> & ->). unfold add_matcher in Hadd.
    rewrite blen_cons.
    repeat case_match; simplify_eq/=; rewrite <- ?app_assoc;
      (split; [intros s; rewrite Hs, elem_of_cons, ?elem_of_union, ?elem_of_singleton; naive_solver|]);
      (split; [intros s; rewrite Hf, elem_of_cons, ?elem_of_union, ?elem_of_singleton; naive_solver|]);
      repeat split; try done; lia.
Qed.

Lemma existsb_by_class (P : Matcher -> bool) l :
  existsb P l = true <->
  (exists s, DomainSuffix s ∈ l /\ P (DomainSuffix s) = true)
  \/ (exists s, DomainFull s ∈ l /\ P (DomainFull s) = true)
  \/ (exists n, Net n ∈ l /\ P (Net n) = true)
  \/ existsb P (List.filter is_other l) = true.
Proof.
  rewrite !existsb_exists. setoid_rewrite filter_In. setoid_rewrite list_elem_of_In. split.
  - intros ([] & Hin & HP); naive_solver.
  - naive_solver.
Qed.

(** The fields of the indexed rules. *)
Lemma from_matchers_fields l :
  let r := from_matchers l in
  (forall s, s ∈ suffixes r <-> DomainSuffix s ∈ l)
  /\ (forall s, s ∈ fulls r <-> DomainFull s ∈ l)
  /\ v4 r = merge_ranges (omap v4_range l)
  /\ v6 r = omap v6_net l
  /\ others r = List.filter is_other l
  /\ count r = blen l.
Proof.
  unfold from_matchers. pose proof (fold_add_matcher l Rules_default []) as Hf.
  destruct (fold_left add_matcher l (Rules_default, [])) as [r ranges].
  destruct Hf as (Hs & Hf & -> & -> & -> & ->). cbn. repeat split; try done; set_solver.
Qed.

Lemma v4_ranges_wf l : Forall (fun a => a.1 <= a.2) (omap v4_range l).
Proof.
  apply Forall_forall. intros a (m & _ & Ha)%list_elem_of_omap.
  destruct m as [| | | |[n|n]| |]; simplify_eq/=. destruct (network_range n) as (? & ? & ?). done.
Qed.

Lemma covers_v4_ranges x l :
  covers x (omap v4_range l) <-> exists n, Net n ∈ l /\ net_contains n (V4 x) = true.
Proof.
  unfold covers. setoid_rewrite list_elem_of_omap. split.
  - intros (r & (m & Hm & Hr) & Hx). destruct m as [| | | |[n|n]| |]; simplify_eq/=.
    exists (inl n). split; [done|]. rewrite net_contains_v4. lia.
  - intros ([n|n] & Hn & Hc); [|by rewrite net_contains_v6_v4 in Hc].
    rewrite net_contains_v4 in Hc. zbool. eexists. split; [eexists; split; [done|] |]; [done|cbn; lia].
Qed.

(** A name without dots at its end whose case mapping is the ASCII one. *)
Definition plain_host (host : Host) : Prop :=
  match host with
  | HDomain name => str_is_ascii name = true /\ forall t, name <> t ++ [46]
  | HIp _ => True
  end.
(** Full rules in lower case, as [Matcher_parse] makes them. *)
Definition matcher_normal (m : Matcher) : Prop :=
  match m with DomainFull full => to_ascii_lowercase full = full | _ => True end.

Lemma Rules_matches_domain r name port :
  let lowered := to_ascii_lowercase (trim_end_matches 46 name) in
  Rules_matches r (HDomain name) port = true <->
  (exists s, s ∈ suffixes r /\ (lowered = s \/ exists p, lowered = p ++ [46] ++ s))
  \/ lowered ∈ fulls r
  \/ existsb (fun rule => Matcher_matches rule (HDomain name) port) (others r) = true.
Proof.
  cbn zeta. unfold Rules_matches. cbn zeta. rewrite orb_true_iff.
  set (lowered := to_ascii_lowercase _).
  pose proof (label_walk_spec (suffixes r) (S (length lowered)) lowered ltac:(lia)) as Hw.
  destruct (bool_decide (suffixes r = ∅)) eqn:Hs;
    destruct (bool_decide (fulls r = ∅)) eqn:Hf; cbn [negb orb];
    repeat first [apply bool_decide_eq_true in Hs | apply bool_decide_eq_true in Hf];
    destruct (bool_decide (lowered ∈ fulls r)) eqn:Hl;
    try apply bool_decide_eq_true in Hl; try apply bool_decide_eq_false in Hl;
    try rewrite Hs in *; try rewrite Hf in *; rewrite ?Hw; set_solver.
Qed.

Lemma from_matchers_domain l name port :
  Forall matcher_normal l -> plain_host (HDomain name) ->
  Rules_matches (from_matchers l) (HDomain name) port = true
  <-> existsb (fun m => Matcher_matches m (HDomain name) port) l = true.
Proof.
  intros Hnorm [Hasc Hdot].
  destruct (from_matchers_fields l) as (Hs & Hf & _ & _ & Ho & _).
  rewrite Rules_matches_domain, (existsb_by_class _ l), Ho, Hf.
  rewrite trim_end_matches_id by done. cbn [Matcher_matches].
  setoid_rewrite Hs. setoid_rewrite orb_true_iff. setoid_rewrite ends_with_spec.
  setoid_rewrite bool_decide_eq_true. rewrite (to_lowercase_ascii name) by done.
  split.
  - intros [?|[Hfull|?]]; [by left| |by right; right; right].
    right; left. eexists. split; [done|]. by rewrite to_ascii_lowercase_idem.
  - intros [?|[(f & Hin & Heq)|[(n & _ & ?)|?]]]; [by left| |done|by right; right].
    right; left. rewrite Forall_forall in Hnorm. specialize (Hnorm _ Hin). cbn in Hnorm.
    by rewrite Heq, Hnorm.
Qed.

Lemma from_matchers_ip l ip port :
  Rules_matches (from_matchers l) (HIp ip) port = true
  <-> existsb (fun m => Matcher_matches m (HIp ip) port) l = true.
Proof.
  destruct (from_matchers_fields l) as (_ & _ & H4 & H6 & Ho & _).
  destruct (merge_ranges_correct _ (v4_ranges_wf l)) as [Hwf Hcov].
  rewrite existsb_by_class. cbn [Matcher_matches].
  destruct ip as [x|a]; unfold Rules_matches; rewrite orb_true_iff, Ho.
  - rewrite H4, partition_point_covers, Hcov, covers_v4_ranges by done. naive_solver.
  - rewrite H6, existsb_exists. setoid_rewrite <- list_elem_of_In.
    setoid_rewrite list_elem_of_omap. split.
    + intros [(n & (m & Hm & Hn) & Hc)|?]; [|naive_solver].
      destruct m as [| | | |[k|k]| |]; simplify_eq/=. right; right; left. eauto.
    + intros [(s & _ & ?)|[(s & _ & ?)|[([n|n] & Hn & Hc)|?]]]; [done..| | |naive_solver].
      * by rewrite net_contains_v4_v6 in Hc.
      * left. exists (inr n). split; [|done]. by exists (Net (inr n)).
Qed.

(** ** What the parser produces *)

Lemma normalize_domain_lower value d :
  normalize_domain value = Some d -> to_ascii_lowercase d = d /\ d <> [].
Proof.
  unfold normalize_domain. cbn zeta. destruct (bool_decide _) eqn:He; [done|].
  apply bool_decide_eq_false in He. intros [= <-]. by rewrite to_lowercase_lower.
Qed.

Lemma Matcher_parse_normal entry m : Matcher_parse entry = Some m -> matcher_normal m.
Proof.
  unfold Matcher_parse. cbn zeta. destruct (_ || _); [done|]. destruct (entry_kind _) as [kind value].
  intros Hm. match_in Hm; try done; apply fmap_Some in Hm as (d & Hd & ->); try done.
  by apply normalize_domain_lower in Hd as [? _].
Qed.

(** The rules a list stands for, in their order. *)
Definition entries (raw : bytes) : list Matcher :=
  omap Matcher_parse (split_chars (fun b => (b =? 10) || (b =? 44) || (b =? 59)) raw).

Lemma entries_normal raw : Forall matcher_normal (entries raw).
Proof.
  apply Forall_forall. intros m (e & _ & He)%list_elem_of_omap. by eapply Matcher_parse_normal.
Qed.

(** The verdict of the flat lists: a rule of the first list that matches blocks,
    else a rule of the second sends the flow out directly. *)
Definition spec_decide (blocks directs : list Matcher) (host : Host) (port : Z) : Action :=
  if existsb (fun m => Matcher_matches m host port) blocks then Block
  else if existsb (fun m => Matcher_matches m host port) directs then Direct
  else Proxy.

Lemma from_matchers_equiv l host port :
  Forall matcher_normal l -> plain_host host ->
  Rules_matches (from_matchers l) host port = existsb (fun m => Matcher_matches m host port) l.
Proof.
  intros Hn Hp. apply eq_true_iff_eq. destruct host.
  - by apply from_matchers_domain.
  - apply from_matchers_ip.
Qed.

(** C1.  The indexed rules give the verdict of the flat rule lists: for every
    address, and for every ASCII name that does not end with a dot, [decide] is
    [Block] when some entry of the block list matches, else [Direct] when some
    entry of the direct list matches, else [Proxy]. *)
Theorem decide_refines_flat_rules block direct host port :
  plain_host host ->
  decide (RuleSet_parse block direct) host port
  = spec_decide (entries block) (entries direct) host port.
Proof.
  intros Hp. unfold decide, spec_decide, RuleSet_parse, parse_list. cbn [Routing.block Routing.direct].
  fold (entries block) (entries direct).
  by rewrite !from_matchers_equiv by (done || apply entries_normal).
Qed.

(** The IPv4 ranges of the index are in increasing order, pairwise disjoint
    and not adjacent, and hold exactly the addresses of the IPv4 networks of the
    rules. *)
Theorem from_matchers_v4_ranges l :
  ranges_wf (v4 (from_matchers l))
  /\ forall x, covers x (v4 (from_matchers l)) <-> exists n, Net n ∈ l /\ net_contains n (V4 x) = true.
Proof.
  destruct (from_matchers_fields l) as (_ & _ & -> & _).
  destruct (merge_ranges_correct _ (v4_ranges_wf l)) as [Hwf Hcov].
  split; [done|]. intros x. by rewrite Hcov, covers_v4_ranges.
Qed.

(** The kinds of entries the parser knows. *)
Definition known_kinds : list string :=
  ["domain"; "suffix"; "full"; "exact"; "keyword"; "regexp"; "regex"; "ip"; "cidr"; "port"; "geoip"; "geosite"; ""]%string.

(** An entry whose text before its first colon is not a known kind, with no dot
    and no slash, is not a rule.  A bare IPv6 address or network is such an entry:
    its first group is taken for the kind. *)
Theorem unknown_kind_is_dropped kind value :
  no_char 58 kind = true -> contains_char 46 kind = false -> contains_char 47 kind = false ->
  str_is_ascii (trim kind) = true -> trim (kind ++ [58] ++ value) = kind ++ [58] ++ value ->
  is_kind (to_ascii_lowercase (trim kind)) known_kinds = false ->
  Matcher_parse (kind ++ [58] ++ value) = None.
Proof.
  intros Hc Hdot Hslash Hasc Htrim Hk. unfold Matcher_parse. cbn zeta. rewrite Htrim.
  destruct (_ || _); [done|]. unfold entry_kind. rewrite split_once_app, Hdot, Hslash by done.
  cbn [negb andb]. rewrite to_lowercase_ascii by done. set (k := to_ascii_lowercase _) in *. clearbody k.
  unfold is_kind, known_kinds in *. cbn [existsb] in *. zbool.
  repeat match goal with H : bool_decide _ = false |- _ => rewrite H; clear H end. done.
Qed.

(** ** The routing file *)

(** A line that is one entry of a section. *)
Definition entry_line (e : bytes) : Prop :=
  trim e = e /\ e <> [] /\ str_is_ascii e = true
  /\ starts_with (lit "#") e = false /\ starts_with (lit "[") (to_ascii_lowercase e) = false
  /\ no_char 10 e && no_char 13 e = true.

Lemma split_line_entry b d cur e :
  entry_line e ->
  split_line (b, d, cur) e =
  match cur with
  | Some SecBlock => (b ++ e ++ [10], d, cur)
  | Some SecDirect => (b, d ++ e ++ [10], cur)
  | None => (b, d, cur)
  end.
Proof.
  intros (Ht & Hne & Ha & Hc & Hb & _). unfold split_line. rewrite Ht, Hc, to_lowercase_ascii by done.
  rewrite (bool_decide_eq_false_2 (e = [])) by done. cbn [orb].
  assert (Hsec : forall n, starts_with (lit "[") (lit n) = true ->
                      bool_decide (to_ascii_lowercase e = lit n) = false).
  { intros n Hn. apply bool_decide_eq_false. intros He. by rewrite He, Hn in Hb. }
  rewrite !Hsec by done. rewrite Hb. by destruct cur as [[]|].
Qed.

Lemma split_entries es : forall b d cur,
  Forall entry_line es ->
  fold_left split_line es (b, d, cur) =
  match cur with
  | Some SecBlock => (b ++ join_lines es, d, cur)
  | Some SecDirect => (b, d ++ join_lines es, cur)
  | None => (b, d, cur)
  end.
Proof.
  induction es as [|e es IH]; intros b d cur Hes.
  - cbn. rewrite !app_nil_r. by destruct cur as [[]|].
  - apply Forall_cons in Hes as [He Hes]. cbn [fold_left]. rewrite split_line_entry by done.
    change (join_lines (e :: es)) with ((e ++ [10]) ++ join_lines es).
    destruct cur as [[]|]; rewrite IH by done; by rewrite <- ?app_assoc.
Qed.

Lemma split_line_header b d cur n sec :
  trim n = n -> n <> [] -> starts_with (lit "#") n = false -> str_is_ascii n = true ->
  (to_ascii_lowercase n = lit "[block]" /\ sec = Some SecBlock)
  \/ (to_ascii_lowercase n = lit "[direct]" /\ sec = Some SecDirect) ->
  split_line (b, d, cur) n = (b, d, sec).
Proof.
  intros Ht Hne Hc Ha Hn. unfold split_line. rewrite Ht, Hc, to_lowercase_ascii by done.
  rewrite (bool_decide_eq_false_2 (n = [])) by done. cbn [orb].
  by destruct Hn as [[-> ->]|[-> ->]].
Qed.

(** A routing file with a block section and a direct section, their headers
    in any case, is split into exactly the two lists of its entries. *)
Theorem split_sections_roundtrip hb hd bs ds :
  to_ascii_lowercase hb = lit "[block]" -> to_ascii_lowercase hd = lit "[direct]" ->
  str_is_ascii hb = true -> str_is_ascii hd = true -> trim hb = hb -> trim hd = hd ->
  forallb (fun l => no_char 10 l && no_char 13 l) [hb; hd] = true ->
  Forall entry_line bs -> Forall entry_line ds ->
  split_sections (join_lines ([hb] ++ bs ++ [hd] ++ ds)) = (join_lines bs, join_lines ds).
Proof.
  intros Hb Hd Hab Had Htb Htd Hnl Hbs Hds.
  assert (Hne : forall n h, to_ascii_lowercase h = lit n -> starts_with (lit "[") (lit n) = true ->
                  h <> [] /\ starts_with (lit "#") h = false).
  { intros n [|b h] Hh Hn; rewrite <- Hh in Hn; [done|]. split; [done|].
    destruct (Z.eq_dec b 35) as [->|Hb']; [done|].
    change (starts_with (lit "#") (b :: h)) with ((35 =? b) && true).
    by rewrite (proj2 (Z.eqb_neq 35 b)). }
  destruct (Hne "[block]" hb Hb eq_refl)%string as [Hb1 Hb2].
  destruct (Hne "[direct]" hd Hd eq_refl)%string as [Hd1 Hd2].
  assert (Hents : forall es, Forall entry_line es ->
    forallb (fun l => no_char 10 l && no_char 13 l) es = true).
  { intros es Hes. rewrite forallb_forall. intros e He%list_elem_of_In.
    rewrite Forall_forall in Hes. by destruct (Hes e He) as (_ & _ & _ & _ & _ & ?). }
  unfold split_sections. rewrite lines_join_lines.
  - rewrite !fold_left_app. cbn [fold_left].
    rewrite (split_line_header _ _ _ hb (Some SecBlock)) by auto.
    rewrite split_entries by done.
    rewrite (split_line_header _ _ _ hd (Some SecDirect)) by auto.
    by rewrite split_entries.
  - cbn [forallb] in Hnl. rewrite andb_true_r in Hnl. apply andb_prop in Hnl as [Hn1 Hn2].
    rewrite !forallb_app. cbn [forallb]. by rewrite Hn1, Hn2, !Hents.
Qed.

End equivalence.

(** ** Concrete crates, for examples: networks as an address and a prefix
    length, and a regular expression that is a literal to search for. *)

Definition clamp_prefix (width p : Z) : Z := Z.max 0 (Z.min width p).
Definition net_size (width : Z) (n : Z * Z) : Z := 2 ^ (width - clamp_prefix width n.2).
Definition net_base (width : Z) (n : Z * Z) : Z :=
  let a := n.1 mod 2 ^ width in a - a mod net_size width n.
Definition prefix_from_str (s : bytes) : option ((Z * Z) + (Z * Z)) :=
  match split_once 47 s with
  | Some (a, p) =>
      match parse_ip a, parse_uint 255 p with
      | Some (V4 a), Some p => if p <=? 32 then Some (inl (a, p)) else None
      | Some (V6 a), Some p => if p <=? 128 then Some (inr (a, p)) else None
      | _, _ => None
      end
  | None => None
  end.
Definition in_net (width : Z) (n : Z * Z) (a : Z) : bool :=
  (net_base width n <=? a) && (a <=? net_base width n + net_size width n - 1).

Lemma net_base_range (n : Z * Z) :
  0 <= net_base 32 n /\ net_base 32 n <= net_base 32 n + net_size 32 n - 1
  /\ net_base 32 n + net_size 32 n - 1 <= U32_MAX.
Proof.
  unfold net_base, net_size. set (p := clamp_prefix 32 n.2).
  assert (Hp : 0 <= p <= 32) by (unfold p, clamp_prefix; lia).
  pose proof (Z.mod_pos_bound n.1 (2 ^ 32) ltac:(lia)) as Ha. set (a := n.1 mod 2 ^ 32) in *.
  assert (Hs : 0 < 2 ^ (32 - p)) by (apply Z.pow_pos_nonneg; lia).
  pose proof (Z.mod_pos_bound a _ Hs). pose proof (Z.mod_le a (2 ^ (32 - p)) ltac:(lia) Hs).
  assert (Hsplit : 2 ^ 32 = 2 ^ p * 2 ^ (32 - p)) by (rewrite <- Z.pow_add_r by lia; f_equal; lia).
  pose proof (Z.div_mod a (2 ^ (32 - p)) ltac:(lia)).
  assert (a / 2 ^ (32 - p) < 2 ^ p) by (apply Z.div_lt_upper_bound; lia).
  repeat split; [lia..|]. change U32_MAX with (2 ^ 32 - 1). nia.
Qed.

Definition prefix_nets : IpNetCrate := {|
  Ipv4Net := Z * Z;
  Ipv6Net := Z * Z;
  ipnet_from_str := prefix_from_str;
  v4net_from a := (a, 32);
  v6net_from a := (a, 128);
  network := net_base 32;
  broadcast n := net_base 32 n + net_size 32 n - 1;
  net_contains n ip :=
    match n, ip with
    | inl n, V4 a => in_net 32 n a
    | inr n, V6 a => in_net 128 n a
    | _, _ => false
    end;
  network_range := net_base_range;
  net_contains_v4 _ _ := eq_refl;
  net_contains_v4_v6 _ _ := eq_refl;
  net_contains_v6_v4 _ _ := eq_refl;
|}.

Definition literal_regex : RegexCrate :=
  {| Regex := bytes; regex_new s := Some s; is_match r s := contains r s |}.

Section examples.
#[local] Existing Instances ascii_case prefix_nets literal_regex.

Lemma decide_refines_flat_rules_witness :
  plain_host (HDomain (lit "Ads.Example.com"))
  /\ decide (RuleSet_parse (lit "example.com") (lit "10.0.0.0/8, port:22")) (HDomain (lit "Ads.Example.com")) 443
     = Block
  /\ decide (RuleSet_parse (lit "example.com") (lit "10.0.0.0/8, port:22")) (HIp (V4 (v4_new 10 1 2 3))) 443
     = spec_decide (entries (lit "example.com")) (entries (lit "10.0.0.0/8, port:22"))
         (HIp (V4 (v4_new 10 1 2 3))) 443.
Proof.
  assert (Hp : plain_host (HDomain (lit "Ads.Example.com"))).
  { split; [done|]. intros t Ht. apply (f_equal (@rev Z)) in Ht. rewrite rev_app_distr in Ht. done. }
  split; [done|]. split.
  - rewrite decide_refines_flat_rules by done. vm_compute. reflexivity.
  - by apply decide_refines_flat_rules.
Defined.

Lemma split_sections_roundtrip_witness :
  split_sections (join_lines [lit "[Block]"; lit "ads.example"; lit "[DIRECT]"; lit "10.0.0.0/8"; lit "port:22"])
  = (lit "ads.example" ++ [10], lit "10.0.0.0/8" ++ [10] ++ lit "port:22" ++ [10]).
Proof.
  apply (split_sections_roundtrip (lit "[Block]") (lit "[DIRECT]") [lit "ads.example"]
           [lit "10.0.0.0/8"; lit "port:22"]); repeat constructor; done.
Defined.

Lemma unknown_kind_is_dropped_witness : Matcher_parse (lit "2606:4700::/32") = None.
Proof.
  apply (unknown_kind_is_dropped (lit "2606") (lit "4700::/32")); reflexivity.
Defined.

(** The index drops the dots at the end of a name, the flat rules do not. *)
Example trailing_dot_differs :
  Rules_matches (from_matchers [DomainSuffix (lit "ads.example")]) (HDomain (lit "ads.example.")) 443 = true
  /\ Matcher_matches (DomainSuffix (lit "ads.example")) (HDomain (lit "ads.example.")) 443 = false.
Proof. by vm_compute. Qed.

(** Two adjacent networks become one range. *)
Example adjacent_networks_merge :
  v4 (parse_list (lit "10.0.0.0/9,10.128.0.0/9;192.168.1.1")) =
  [(v4_new 10 0 0 0, v4_new 10 255 255 255); (v4_new 192 168 1 1, v4_new 192 168 1 1)].
Proof. by vm_compute. Qed.

(** Verdicts of a routing file read from the environment, the block rule first. *)
Example from_env_verdict :
  let env k := if bool_decide (k = lit "AETHER_ROUTES_FILE") then Some (lit "routes") else
               if bool_decide (k = lit "AETHER_ROUTE_BLOCK") then Some (lit "full:a.example") else None in
  let set := from_env env (fun _ => Some (lit "[direct]" ++ [10] ++ lit "example" ++ [10])) in
  decide set (HDomain (lit "A.example")) 80 = Block
  /\ decide set (HDomain (lit "b.example")) 80 = Direct
  /\ decide set (HDomain (lit "b.test")) 80 = Proxy.
Proof. by vm_compute. Qed.
End examples.
End Routing.
