(* ===== verification/RouteDns.v ===== *)
(** * DNS in the routing rules ([aether/src/routing.rs], sinkhole and memory)

    [dns_block_reply] answers a query for a blocked name with NXDOMAIN;
    [learn_dns_answer] remembers the addresses of a response under the name that
    was asked for and [recall_name] gives that name back while it is fresh.
    Indices that panic in the code give [Panic] here. *)

From S2P Require Import Prelude Str Ip Routing.
Local Open Scope Z_scope.

Module RouteDns.

(** ** Reading names *)

(** One iteration of the loop of [read_plain_name]: the name so far, the
    position and the number of labels. *)
Definition read_plain_name_step (msg : bytes) (s : bytes * Z * Z) : (bytes * Z * Z) + option (bytes * Z) :=
  let '(name, at_, labels) := s in
  match bget msg at_ with
  | None => inr None
  | Some len =>
      if len =? 0 then inr (if bool_decide (name = []) then None else Some (name, at_ + 1))
      else if negb (Z.land len 192 =? 0) || (127 <? labels) then inr None
      else match bslice msg (at_ + 1) (at_ + 1 + len) with
           | None => inr None
           | Some label =>
               let name := if bool_decide (name = []) then name else name ++ [46] in
               inl (name ++ to_ascii_lowercase (from_utf8_lossy label), at_ + (1 + len), labels + 1)
           end
  end.

Definition read_plain_name (msg : bytes) (at_ : Z) : option (bytes * Z) :=
  mjoin (loop 130 (read_plain_name_step msg) ([], at_, 0)).

(** [None] for a message that is not a query with one question; a [Panic] if an
    index is out of range. *)
Definition dns_question (msg : bytes) : res unit (bytes * Z) :=
  if blen msg <? 17 then Err tt
  else
    b2 ← idx msg 2;
    if negb (Z.land b2 128 =? 0) then Err tt
    else
      b4 ← idx msg 4; b5 ← idx msg 5;
      if negb (u16_be b4 b5 =? 1) then Err tt
      else
        '(name, end_) ← try_opt (read_plain_name msg 12);
        end_ ← try_opt (checked_add end_ 4);
        if blen msg <? end_ then Err tt else Ok (name, end_).

Definition skip_dns_name_step (msg : bytes) (s : Z * Z) : (Z * Z) + option Z :=
  let '(at_, hops) := s in
  match bget msg at_ with
  | None => inr None
  | Some len =>
      if Z.land len 192 =? 192 then inr (Some (at_ + 2))
      else if len =? 0 then inr (Some (at_ + 1))
      else
        let at_ := at_ + (1 + len) in
        let hops := hops + 1 in
        if 128 <? hops then inr None else inl (at_, hops)
  end.

Definition skip_dns_name (msg : bytes) (at_ : Z) : option Z :=
  mjoin (loop 130 (skip_dns_name_step msg) (at_, 0)).

(** ** The sinkhole *)

Section sinkhole.
Context `{UnicodeCase, IpNetCrate, RegexCrate}.
Import Routing.

Definition dns_block_reply (set : RuleSet) (query : bytes) : res unit bytes :=
  if Rules_is_empty (block set) then Err tt
  else
    '(name, question_end) ← dns_question query;
    if negb (Rules_matches (block set) (HDomain name) 53) then Err tt
    else
      reply ← slice_o query 0 question_end;
      q2 ← idx query 2;
      reply ← set_idx reply 2 (Z.lor (Z.land q2 1) 128);
      reply ← set_idx reply 3 131;
      fill reply 6 12 0.
End sinkhole.

(** ** The memory of names *)

(** The name an address was resolved from, and the instant it expires
    (nanoseconds). *)
Abbreviation NameMemory := (gmap IpAddr (bytes * Z)).

Definition NAME_MEMORY_MAX : Z := 8192.
Definition SECOND : Z := 1000000000.
Definition NAME_MEMORY_MIN_TTL : Z := 60 * SECOND.
Definition NAME_MEMORY_MAX_TTL : Z := 3600 * SECOND.

Definition len (m : NameMemory) : Z := Z.of_nat (size m).
Definition retain (now : Z) (m : NameMemory) : NameMemory := filter (fun e => now < e.2.2) m.
Definition clamp_ttl (ttl : Z) : Z := Z.min (Z.max (ttl * SECOND) NAME_MEMORY_MIN_TTL) NAME_MEMORY_MAX_TTL.

Definition remember (now : Z) (name : bytes) (ip : IpAddr) (ttl : Z) (m : NameMemory) : NameMemory :=
  let m := if NAME_MEMORY_MAX <=? len m then
             let m := retain now m in
             if NAME_MEMORY_MAX <=? len m then ∅ else m
           else m in
  <[ip := (name, now + clamp_ttl ttl)]> m.

(** The loop over the answers; an early [return] keeps what was recorded. *)
Fixpoint learn_answers (msg : bytes) (now : Z) (name : bytes) (n : nat) (at_ : Z) (m : NameMemory)
  : res unit NameMemory :=
  match n with
  | O => Ok m
  | S n =>
      match skip_dns_name msg at_ with
      | None => Ok m
      | Some after_name =>
          if blen msg <? after_name + 10 then Ok m
          else
            r0 ← idx msg after_name; r1 ← idx msg (after_name + 1);
            let rtype := u16_be r0 r1 in
            t0 ← idx msg (after_name + 4); t1 ← idx msg (after_name + 5);
            t2 ← idx msg (after_name + 6); t3 ← idx msg (after_name + 7);
            let ttl := u32_be t0 t1 t2 t3 in
            l0 ← idx msg (after_name + 8); l1 ← idx msg (after_name + 9);
            let rdlen := u16_be l0 l1 in
            let rdata := after_name + 10 in
            if blen msg <? rdata + rdlen then Ok m
            else
              ip ← (if (rtype =? 1) && (rdlen =? 4) then
                      o0 ← idx msg rdata; o1 ← idx msg (rdata + 1);
                      o2 ← idx msg (rdata + 2); o3 ← idx msg (rdata + 3);
                      Ok (Some (V4 (be_combine [o0; o1; o2; o3])))
                    else if (rtype =? 28) && (rdlen =? 16) then
                      raw ← slice msg rdata (rdata + 16);
                      Ok (Some (V6 (be_combine raw)))
                    else Ok None);
              let m := match ip with Some ip => remember now name ip ttl m | None => m end in
              learn_answers msg now name n (rdata + rdlen) m
      end
  end.

Definition learn_dns_answer (now : Z) (msg : bytes) (m : NameMemory) : res unit NameMemory :=
  if blen msg <? 12 then Ok m
  else
    b2 ← idx msg 2; b3 ← idx msg 3;
    if (Z.land b2 128 =? 0) || negb (Z.land b3 15 =? 0) then Ok m
    else
      b4 ← idx msg 4; b5 ← idx msg 5;
      if negb (u16_be b4 b5 =? 1) then Ok m
      else
        b6 ← idx msg 6; b7 ← idx msg 7;
        let answers := u16_be b6 b7 in
        if answers =? 0 then Ok m
        else
          match read_plain_name msg 12 with
          | None => Ok m
          | Some (name, question_end) =>
              learn_answers msg now name (Z.to_nat (Z.min answers 64)) (question_end + 4) m
          end.

Definition recall_name (now : Z) (ip : IpAddr) (m : NameMemory) : option bytes :=
  match m !! ip with
  | Some (name, expires) => if expires <=? now then None else Some name
  | None => None
  end.

(** ** Messages on the wire *)

Definition enc_labels (ls : list bytes) : bytes := concat (map (fun l => [blen l] ++ l) ls).
Definition enc_name (ls : list bytes) : bytes := enc_labels ls ++ [0].

(** A label of 1 to 63 ASCII bytes; a name has at most 128 of them. *)
Definition label_ok (l : bytes) : Prop := 1 <= blen l <= 63 /\ str_is_ascii l = true.
Definition name_ok (ls : list bytes) : Prop := ls <> [] /\ (length ls <= 128)%nat /\ Forall label_ok ls.

(** The lowercase name with its labels separated by dots. *)
Definition dotted (ls : list bytes) : bytes :=
  match ls with
  | [] => []
  | l :: ls => to_ascii_lowercase l ++ concat (map (fun l => [46] ++ to_ascii_lowercase l) ls)
  end.

Lemma enc_labels_cons l ls : enc_labels (l :: ls) = [blen l] ++ l ++ enc_labels ls.
Proof. done. Qed.

Lemma label_len_bits n : 1 <= n <= 63 -> Z.land n 192 = 0.
Proof.
  intros Hn. change 192 with (Z.shiftl 3 6). rewrite Z.land_comm.
  apply Z.bits_inj'. intros i Hi. rewrite Z.land_spec, Z.bits_0.
  destruct (Z.lt_decidable i 6).
  - by rewrite Z.shiftl_spec_low.
  - rewrite (Z.bits_above_log2 n), andb_false_r; [done|lia|].
    apply Z.log2_lt_pow2; [lia|]. assert (2 ^ 6 <= 2 ^ i) by (apply Z.pow_le_mono_r; lia). lia.
Qed.

Lemma to_ascii_lowercase_nil l : to_ascii_lowercase l = [] -> blen l = 0.
Proof. by destruct l. Qed.

(** Reading one label, then the labels of an encoded name. *)
Lemma read_label msg l pre post name at_ labels :
  msg = pre ++ [blen l] ++ l ++ post -> at_ = blen pre -> label_ok l -> labels <= 127 ->
  read_plain_name_step msg (name, at_, labels)
  = inl ((if bool_decide (name = []) then name else name ++ [46]) ++ to_ascii_lowercase l,
         at_ + (1 + blen l), labels + 1).
Proof.
  intros Hmsg Hat [Hl Ha] Hlab. cbn [read_plain_name_step].
  rewrite (bget_at msg pre (l ++ post) at_ (blen l)) by done.
  rewrite (proj2 (Z.eqb_neq _ _)) by lia. rewrite label_len_bits by done.
  rewrite (proj2 (Z.ltb_ge 127 labels)) by lia. cbn [negb orb Z.eqb].
  rewrite bslice_ok by (subst; blia).
  rewrite (sub_at msg (pre ++ [blen l]) l post) by (subst; (solve_app || blia)).
  by rewrite lossy_ascii.
Qed.

Lemma read_labels msg ls : forall name pre post at_ labels fuel,
  msg = pre ++ enc_labels ls ++ post -> at_ = blen pre ->
  Forall label_ok ls -> labels + Z.of_nat (length ls) <= 128 -> (length ls <= fuel)%nat ->
  loop fuel (read_plain_name_step msg) (name, at_, labels)
  = loop (fuel - length ls) (read_plain_name_step msg)
      (if bool_decide (name = []) then dotted ls
       else name ++ concat (map (fun l => [46] ++ to_ascii_lowercase l) ls),
       at_ + blen (enc_labels ls), labels + Z.of_nat (length ls)).
Proof.
  induction ls as [|l ls IH]; intros name pre post at_ labels fuel Hmsg Hat Hls Hlab Hf.
  - cbn. rewrite app_nil_r, !Z.add_0_r, Nat.sub_0_r. by case_bool_decide; subst.
  - apply Forall_cons in Hls as [Hl Hls]. cbn [length] in *.
    rewrite enc_labels_cons in Hmsg. destruct fuel as [|fuel]; [lia|].
    rewrite (loop_step _ _ _ _
      (read_label msg l pre (enc_labels ls ++ post) name at_ labels
         ltac:(subst; solve_app) Hat Hl ltac:(lia))).
    rewrite (IH _ (pre ++ [blen l] ++ l) post _ _ fuel) by
      (done || lia || (subst; (solve_app || blia))).
    replace (S fuel - S (length ls))%nat with (fuel - length ls)%nat by lia.
    assert (to_ascii_lowercase l <> []) by (destruct Hl; intros ?%to_ascii_lowercase_nil; lia).
    rewrite (bool_decide_eq_false_2 (_ ++ _ = [])) by (by intros [_ ?]%app_eq_nil).
    rewrite enc_labels_cons. autorewrite with blens. f_equal.
    f_equal; [f_equal|]; [|lia|lia].
    case_bool_decide; cbn [dotted map concat]; [by subst|]. by rewrite <- !app_assoc.
Qed.

Lemma dotted_not_nil ls : name_ok ls -> dotted ls <> [].
Proof.
  intros (Hne & _ & Hls). destruct ls as [|l ls]; [done|]. apply Forall_cons in Hls as [[Hl _] _].
  cbn. intros [?%to_ascii_lowercase_nil _]%app_eq_nil. lia.
Qed.

Lemma read_plain_name_enc msg ls pre post at_ :
  msg = pre ++ enc_name ls ++ post -> at_ = blen pre -> name_ok ls ->
  read_plain_name msg at_ = Some (dotted ls, at_ + blen (enc_name ls)).
Proof.
  intros Hmsg Hat Hn. pose proof (dotted_not_nil ls Hn) as Hd. destruct Hn as (Hne & Hlen & Hls).
  unfold read_plain_name, enc_name in *.
  rewrite (read_labels msg ls [] pre ([0] ++ post)) by (lia || done || (subst; solve_app)).
  destruct (130 - length ls)%nat as [|fuel] eqn:Hf; [lia|].
  rewrite bool_decide_eq_true_2 by done. erewrite loop_exit; [reflexivity|].
  cbn [read_plain_name_step].
  rewrite (bget_at msg (pre ++ enc_labels ls) post _ 0) by (subst; (solve_app || blia)).
  cbn [Z.eqb]. rewrite bool_decide_eq_false_2 by done. do 3 f_equal. blia.
Qed.

(** ** Queries and the sinkhole *)

(** A query with one question: header (identifier, flags, the three other
    counts), name, type and class. *)
Record query := mkQuery {
  q_id : bytes; q_flags1 : Z; q_flags2 : Z; q_counts : bytes;
  q_name : list bytes; q_type : Z; q_class : Z;
}.
Definition enc_question (q : query) : bytes :=
  enc_name (q_name q) ++ be16_bytes (q_type q) ++ be16_bytes (q_class q).
Definition enc_query (q : query) : bytes :=
  q_id q ++ [q_flags1 q; q_flags2 q] ++ [0; 1] ++ q_counts q ++ enc_question q.
Definition query_wf (q : query) : Prop :=
  blen (q_id q) = 2 /\ blen (q_counts q) = 6 /\ Z.land (q_flags1 q) 128 = 0 /\ name_ok (q_name q).

(** The NXDOMAIN answer to a query: identifier and RD kept, the question and
    nothing else. *)
Definition nxdomain (q : query) : bytes :=
  q_id q ++ [Z.lor (Z.land (q_flags1 q) 1) 128; 131] ++ [0; 1] ++ replicate 6 0 ++ enc_question q.

Lemma enc_labels_bound ls : Forall label_ok ls -> blen (enc_labels ls) <= 64 * Z.of_nat (length ls).
Proof.
  induction 1 as [|l ls [Hl _] _ IH]; [done|]. rewrite enc_labels_cons. cbn [length]. blia.
Qed.

Lemma enc_name_bound ls : name_ok ls -> 1 <= blen (enc_name ls) <= 8193.
Proof. intros (_ & Hlen & Hb%enc_labels_bound). unfold enc_name. blia. Qed.

(** The header and the rest of an encoded query. *)
Lemma query_header q : query_wf q -> exists a b c1 c2 c3 c4 c5 c6,
  q_id q = [a; b] /\ q_counts q = [c1; c2; c3; c4; c5; c6].
Proof.
  destruct q as [id f1 f2 counts ls t c]. intros (Hid & Hc & _). cbn [q_id q_counts] in *.
  unfold blen in *.
  destruct id as [|a [|b [|]]]; cbn [length] in Hid; try lia.
  destruct counts as [|c1 [|c2 [|c3 [|c4 [|c5 [|c6 [|]]]]]]]; cbn [length] in Hc; try lia.
  by repeat eexists.
Qed.

Lemma dns_question_enc q trailing :
  query_wf q ->
  dns_question (enc_query q ++ trailing) = Ok (dotted (q_name q), blen (enc_query q)).
Proof.
  intros Hq. destruct (query_header q Hq) as (a & b & c1 & c2 & c3 & c4 & c5 & c6 & Hid & Hc).
  destruct Hq as (_ & _ & Hqr & Hn).
  assert (Hlen : blen (enc_query q) = 16 + blen (enc_name (q_name q))).
  { unfold enc_query, enc_question. rewrite Hid, Hc. blia. }
  assert (1 <= blen (enc_name (q_name q))) by (unfold enc_name; blia).
  unfold dns_question. rewrite (proj2 (Z.ltb_ge _ _)) by blia.
  assert (Hname : read_plain_name (enc_query q ++ trailing) 12
            = Some (dotted (q_name q), 12 + blen (enc_name (q_name q)))).
  { apply (read_plain_name_enc _ _ ([a; b; q_flags1 q; q_flags2 q; 0; 1; c1; c2; c3; c4; c5; c6])
      (be16_bytes (q_type q) ++ be16_bytes (q_class q) ++ trailing)); [|done..].
    unfold enc_query, enc_question. rewrite Hid, Hc. solve_app. }
  rewrite Hname.
  assert (Hidx : forall i v, bget ([a; b; q_flags1 q; q_flags2 q; 0; 1]) i = Some v ->
                 @idx unit Z (enc_query q ++ trailing) i = Ok v).
  { intros i v Hv. unfold idx, enc_query. rewrite Hid, <- !app_assoc.
    change ([a; b] ++ [q_flags1 q; q_flags2 q] ++ [0; 1] ++ ?t)
      with ([a; b; q_flags1 q; q_flags2 q; 0; 1] ++ t).
    rewrite bget_app_l by (apply bget_Some in Hv; lia). by rewrite Hv. }
  rewrite (Hidx 2 (q_flags1 q)), (Hidx 4 0), (Hidx 5 1) by done. rsimp.
  rewrite Hqr. change (negb (u16_be 0 1 =? 1)) with false. cbn [negb Z.eqb try_opt ok_or mbind res_bind].
  pose proof (enc_name_bound _ Hn).
  rewrite checked_add_ok by (unfold USIZE_MAX, U64_MAX; lia). rsimp.
  rewrite (proj2 (Z.ltb_ge _ _)) by blia. do 2 f_equal. lia.
Qed.

(** ** Arbitrary messages *)

Lemma read_plain_name_bounds msg at_ name e :
  all_bytes msg -> 0 <= at_ -> read_plain_name msg at_ = Some (name, e) ->
  at_ < e <= blen msg /\ name <> [].
Proof.
  intros Hb Hat. unfold read_plain_name. destruct (loop _ _ _) as [r|] eqn:Hl; [|done].
  revert Hl. apply (loop_inv (read_plain_name_step msg) (fun s => at_ <= s.1.2)
    (fun r => mjoin (Some r) = Some (name, e) -> at_ < e <= blen msg /\ name <> [])); [|cbn; lia].
  intros [[n a] labels] Ha. cbn [fst snd] in Ha. cbn [read_plain_name_step].
  destruct (bget msg a) as [n0|] eqn:Hg; [|done].
  pose proof (all_bytes_bget _ _ _ Hb Hg) as Hn0. apply bget_Some in Hg. unfold is_byte in Hn0.
  destruct (n0 =? 0); [case_bool_decide; [done|]; intros [= <- <-]; split; [lia|done]|].
  destruct (_ || _); [done|]. destruct (bslice _ _ _) eqn:Hs; [|done].
  case_bool_decide; cbn [fst snd]; lia.
Qed.

Lemma dns_question_sound msg :
  all_bytes msg ->
  dns_question msg <> Panic
  /\ forall name e, dns_question msg = Ok (name, e) ->
     read_plain_name msg 12 = Some (name, e - 4) /\ 17 <= e <= blen msg /\ sub msg 4 6 = [0; 1].
Proof.
  intros Hb. unfold dns_question. zcase; [done|].
  read msg 2 as b2 H2. destruct (negb _); [done|]. read msg 4 as b0 Hget0. read msg 5 as b1 Hget1.
  destruct (u16_be b0 b1 =? 1) eqn:Hq; [|done]. cbn [negb]. zbool.
  destruct (read_plain_name msg 12) as [[name e]|] eqn:Hn; [|done]. rsimp.
  unfold checked_add. destruct (_ <=? _); [|done]. rsimp.
  zcase; [done|]. split; [done|]. intros ? ? [= <- <-].
  apply read_plain_name_bounds in Hn as Hbd; [|done|lia]. split; [by rewrite Z.add_simpl_r|]. split; [lia|].
  pose proof (all_bytes_bget _ _ _ Hb Hget0). pose proof (all_bytes_bget _ _ _ Hb Hget1).
  rewrite u16_be_spec in Hq by done. unfold is_byte in *.
  assert (b0 = 0 /\ b1 = 1) as [-> ->] by lia.
  rewrite (sub_snoc msg 4 5 6 1), (sub_snoc msg 4 4 5 0), sub_empty by (lia || done). done.
Qed.

(** A message with a DNS header. *)
Lemma header_cases (msg : bytes) :
  12 <= blen msg ->
  exists a b c d e f g h i j k l rest, msg = [a; b; c; d; e; f; g; h; i; j; k; l] ++ rest.
Proof.
  unfold blen. intros Hl. do 12 (destruct msg as [|? msg]; [cbn in Hl; lia|]). by repeat eexists.
Qed.

Section sinkhole_theorems.
Context `{UnicodeCase, IpNetCrate, RegexCrate}.
Import Routing.

Lemma dns_block_reply_one_question set q trailing :
  query_wf q ->
  dns_block_reply set (enc_query q ++ trailing)
  = if negb (Rules_is_empty (block set)) && Rules_matches (block set) (HDomain (dotted (q_name q))) 53
    then Ok (nxdomain q) else Err tt.
Proof.
  intros Hq. unfold dns_block_reply. destruct (Rules_is_empty (block set)); [done|].
  rewrite dns_question_enc by done. cbn [mbind res_bind negb andb].
  destruct (Rules_matches _ _ _); [|done]. cbn [negb].
  unfold slice_o. rewrite bslice_ok by blia. rsimp.
  rewrite sub_app_l, sub_all by lia.
  destruct (query_header q Hq) as (a & b & c1 & c2 & c3 & c4 & c5 & c6 & Hid & Hc).
  unfold enc_query, nxdomain. rewrite Hid, Hc.
  change (idx _ 2) with (@Ok unit _ (q_flags1 q)). rsimp.
  rewrite set_idx_ok by blia. rsimp.
  rewrite set_idx_ok by blia. rsimp.
  rewrite fill_ok by blia. f_equal. set (f := Z.lor _ 128). clearbody f.
  change (<[Z.to_nat 3:=131]> _)
    with ([a; b; f; 131; 0; 1] ++ [c1; c2; c3; c4; c5; c6] ++ enc_question q).
  rewrite (sub_at _ [] [a; b; f; 131; 0; 1] ([c1; c2; c3; c4; c5; c6] ++ enc_question q) 0 6) by done.
  rewrite (sub_at _ ([a; b; f; 131; 0; 1] ++ [c1; c2; c3; c4; c5; c6]) (enc_question q) []);
    [done | by rewrite app_nil_r | blia..].
Qed.

(** A message that is not a query with one question: too short, a response, or of another
    number of questions. *)
Definition not_a_query (msg : bytes) : Prop :=
  blen msg < 17 \/ (exists f, bget msg 2 = Some f /\ Z.land f 128 <> 0) \/ sub msg 4 6 <> [0; 1].

Lemma dns_question_not_a_query msg : all_bytes msg -> not_a_query msg -> dns_question msg = Err tt.
Proof.
  intros Hb Hn. destruct (dns_question_sound msg Hb) as [Hnp Hok]. destruct (dns_question msg) as [[name e]|[]|] eqn:Hd; [exfalso|done..].
  destruct (Hok name e eq_refl) as (_ & He & Hs). destruct Hn as [Hl|[(f & Hf & Hqr)|Hc]]; [lia| |by apply Hc].
  revert Hd. unfold dns_question. rewrite (proj2 (Z.ltb_ge _ _)) by lia. read msg 2 as f' Hf'. injection (eq_trans (eq_sym Hf') Hf) as ->.
  by rewrite (proj2 (Z.eqb_neq _ _) Hqr).
Qed.

(** C40.  Every well-formed message of one question that is not a response is answered exactly
    when the block rules match its name, whatever its opcode: with NXDOMAIN, opcode 0, the
    identifier and the RD bit of the query, no record but the question; bytes after the question
    are dropped.  A response, a message of any other number of questions and one too short to
    hold a question are never answered.  (The comment of the code promises an answer to standard
    queries only, see [other_opcodes_are_answered].) *)
Theorem dns_block_reply_query set q trailing msg :
  query_wf q -> all_bytes msg -> not_a_query msg ->
  dns_block_reply set (enc_query q ++ trailing)
  = (if negb (Rules_is_empty (block set)) && Rules_matches (block set) (HDomain (dotted (q_name q))) 53
     then Ok (nxdomain q) else Err tt)
  /\ dns_block_reply set msg = Err tt.
Proof.
  intros Hq Hb Hn. split; [by apply dns_block_reply_one_question|]. unfold dns_block_reply.
  destruct (Rules_is_empty (block set)); [done|]. by rewrite dns_question_not_a_query.
Qed.

(** The comment of [dns_block_reply] speaks of a standard query, and of [None] for anything else;
    the opcode is not looked at. *)
Lemma other_opcodes_are_answered set q trailing :
  query_wf q -> Z.land (q_flags1 q) 120 <> 0 ->
  Rules_is_empty (block set) = false -> Rules_matches (block set) (HDomain (dotted (q_name q))) 53 = true ->
  dns_block_reply set (enc_query q ++ trailing) = Ok (nxdomain q).
Proof. intros Hq _ He Hm. by rewrite dns_block_reply_one_question, He, Hm. Qed.

Lemma dns_block_reply_no_panic set msg : all_bytes msg -> dns_block_reply set msg <> Panic.
Proof.
  intros Hb. destruct (dns_question_sound msg Hb) as [Hnp Hok]. unfold dns_block_reply.
  destruct (Rules_is_empty _); [done|].
  destruct (dns_question msg) as [[name e]| |]; [|done..]. destruct (Hok name e eq_refl) as (_ & He & _).
  rsimp. destruct (negb _); [done|]. unfold slice_o. rewrite bslice_ok by lia. rsimp.
  read msg 2 as b Hb2. assert (Hl : blen (sub msg 0 e) = e) by (rewrite blen_sub; lia).
  rewrite set_idx_ok by lia. rsimp. rewrite set_idx_ok by (rewrite blen_insert; lia). rsimp.
  by rewrite fill_ok by (rewrite ?blen_insert; lia).
Qed.

(** Whatever the datagram, the sinkhole does not panic, and what it answers is
    a response with code NXDOMAIN and no records whose identifier and question are
    those of the datagram, and whose name the block rules match. *)
Theorem dns_block_reply_sound set msg :
  all_bytes msg ->
  dns_block_reply set msg <> Panic
  /\ forall reply, dns_block_reply set msg = Ok reply ->
     exists name e,
       read_plain_name msg 12 = Some (name, e - 4) /\ e <= blen msg
       /\ Rules_matches (block set) (HDomain name) 53 = true
       /\ exists f, bget msg 2 = Some f
          /\ reply = sub msg 0 2 ++ [Z.lor (Z.land f 1) 128; 131] ++ [0; 1] ++ replicate 6 0 ++ sub msg 12 e.
Proof.
  intros Hb. destruct (dns_question_sound msg Hb) as [Hnp Hok]. unfold dns_block_reply.
  destruct (Rules_is_empty _); [done|].
  destruct (dns_question msg) as [[name e]| |]; [|done..]. destruct (Hok name e eq_refl) as (Hn & He & Hqd).
  rsimp. destruct (Rules_matches _ _ _) eqn:Hm; [|done]. cbn [negb].
  unfold slice_o. rewrite bslice_ok by lia. rsimp.
  read msg 2 as b Hb2. assert (Hl : blen (sub msg 0 e) = e) by (rewrite blen_sub; lia).
  rewrite set_idx_ok by lia. rsimp.
  rewrite set_idx_ok by (rewrite blen_insert; lia). rsimp.
  rewrite fill_ok by (rewrite ?blen_insert; lia). split; [done|]. intros reply [= <-].
  exists name, e. split; [done|]. split; [lia|]. split; [done|]. exists b. split; [done|].
  destruct (header_cases msg ltac:(lia)) as (m0 & m1 & m2 & m3 & m4 & m5 & m6 & m7 & m8 & m9 & m10 & m11 & rest & ->).
  injection Hqd as -> ->. injection Hb2 as ->. set (w := Z.lor _ 128). clearbody w.
  rewrite sub_app_cut by blia. rewrite (sub_app_r _ _ 12) by done.
  change (blen [m0; m1; b; m3; 0; 1; m6; m7; m8; m9; m10; m11]) with 12. set (q := sub rest 0 (e - 12)).
  change (12 - 12) with 0. fold q.
  change (<[Z.to_nat 3:=131]> _) with ([m0; m1; w; 131; 0; 1] ++ [m6; m7; m8; m9; m10; m11] ++ q).
  rewrite (sub_at _ [] [m0; m1; w; 131; 0; 1] ([m6; m7; m8; m9; m10; m11] ++ q) 0 6) by done.
  rewrite (sub_at _ ([m0; m1; w; 131; 0; 1] ++ [m6; m7; m8; m9; m10; m11]) q []);
    [done | by rewrite app_nil_r | blia..].
Qed.
End sinkhole_theorems.

(** ** Responses and the memory *)

(** The owner name of a record: labels, then the root or a compression pointer. *)
Record rr := mkRR {
  rr_labels : list bytes; rr_pointer : option (Z * Z);
  rr_type : Z; rr_class : Z; rr_ttl : Z; rr_data : bytes;
}.
Definition enc_owner (r : rr) : bytes :=
  enc_labels (rr_labels r) ++ match rr_pointer r with Some (hi, lo) => [hi; lo] | None => [0] end.
Definition enc_rr (r : rr) : bytes :=
  enc_owner r ++ be16_bytes (rr_type r) ++ be16_bytes (rr_class r) ++ be32_bytes (rr_ttl r)
  ++ be16_bytes (blen (rr_data r)) ++ rr_data r.
Definition rr_wf (r : rr) : Prop :=
  (length (rr_labels r) <= 128)%nat /\ Forall label_ok (rr_labels r)
  /\ match rr_pointer r with Some (hi, _) => Z.land hi 192 = 192 | None => True end
  /\ 0 <= rr_type r <= U16_MAX /\ 0 <= rr_ttl r <= U32_MAX /\ blen (rr_data r) <= U16_MAX.

(** The address an A or an AAAA record holds. *)
Definition rr_ip (r : rr) : option IpAddr :=
  if (rr_type r =? 1) && (blen (rr_data r) =? 4) then Some (V4 (be_combine (rr_data r)))
  else if (rr_type r =? 28) && (blen (rr_data r) =? 16) then Some (V6 (be_combine (rr_data r)))
  else None.

Definition learn_rr (now : Z) (name : bytes) (m : NameMemory) (r : rr) : NameMemory :=
  match rr_ip r with Some ip => remember now name ip (rr_ttl r) m | None => m end.

Definition enc_response (id : bytes) (flags1 flags2 : Z) (ls : list bytes) (question : bytes) (counts : bytes)
    (rrs : list rr) : bytes :=
  id ++ [flags1; flags2] ++ [0; 1] ++ be16_bytes (blen rrs) ++ counts
  ++ enc_name ls ++ question ++ concat (map enc_rr rrs).

Lemma skip_labels msg ls : forall pre post at_ hops fuel,
  msg = pre ++ enc_labels ls ++ post -> at_ = blen pre -> Forall label_ok ls ->
  hops + Z.of_nat (length ls) <= 128 -> (length ls <= fuel)%nat ->
  loop fuel (skip_dns_name_step msg) (at_, hops)
  = loop (fuel - length ls) (skip_dns_name_step msg)
      (at_ + blen (enc_labels ls), hops + Z.of_nat (length ls)).
Proof.
  induction ls as [|l ls IH]; intros pre post at_ hops fuel Hmsg Hat Hls Hhops Hf.
  - cbn. by rewrite !Z.add_0_r, Nat.sub_0_r.
  - apply Forall_cons in Hls as [[Hl _] Hls]. cbn [length] in *.
    rewrite enc_labels_cons in Hmsg. destruct fuel as [|fuel]; [lia|].
    rewrite (loop_step _ _ _ (at_ + (1 + blen l), hops + 1)).
    + rewrite (IH (pre ++ [blen l] ++ l) post _ _ fuel) by
        (done || lia || (subst; (solve_app || blia))).
      replace (S fuel - S (length ls))%nat with (fuel - length ls)%nat by lia.
      rewrite enc_labels_cons. f_equal. f_equal; blia.
    + cbn [skip_dns_name_step]. rewrite (bget_at msg pre (l ++ enc_labels ls ++ post) at_ (blen l))
        by (done || (subst; solve_app)).
      rewrite label_len_bits by done. rewrite (proj2 (Z.eqb_neq (blen l) 0)) by lia.
      by rewrite (proj2 (Z.ltb_ge 128 _)) by lia.
Qed.

Lemma skip_owner msg r pre post at_ :
  msg = pre ++ enc_owner r ++ post -> at_ = blen pre -> rr_wf r ->
  skip_dns_name msg at_ = Some (at_ + blen (enc_owner r)).
Proof.
  intros Hmsg Hat (Hlen & Hls & Hptr & _). unfold skip_dns_name, enc_owner in *.
  set (tail := match rr_pointer r with Some (hi, lo) => [hi; lo] | None => [0] end) in *.
  rewrite (skip_labels msg (rr_labels r) pre (tail ++ post)) by (lia || done || (subst msg; solve_app)).
  destruct (130 - length (rr_labels r))%nat as [|fuel] eqn:Hf; [lia|].
  rewrite (loop_exit _ _ _ (Some (at_ + blen (enc_labels (rr_labels r) ++ tail)))); [done|].
  unfold tail in *. clear tail. cbn [skip_dns_name_step].
  destruct (rr_pointer r) as [[hi lo]|].
  - rewrite (bget_at msg (pre ++ enc_labels (rr_labels r)) (lo :: post) _ hi) by (subst; (solve_app || blia)).
    rewrite Hptr. cbn [Z.eqb Pos.eqb]. do 2 f_equal. blia.
  - rewrite (bget_at msg (pre ++ enc_labels (rr_labels r)) post _ 0) by (subst; (solve_app || blia)).
    cbn. do 2 f_equal. blia.
Qed.

(** The address of one record, as the code reads it. *)
Lemma learn_ip msg r pre post rdata :
  msg = pre ++ rr_data r ++ post -> rdata = blen pre ->
  (if (rr_type r =? 1) && (blen (rr_data r) =? 4) then
     o0 ← idx msg rdata; o1 ← idx msg (rdata + 1); o2 ← idx msg (rdata + 2); o3 ← idx msg (rdata + 3);
     Ok (Some (V4 (be_combine [o0; o1; o2; o3])))
   else if (rr_type r =? 28) && (blen (rr_data r) =? 16) then
     raw ← slice msg rdata (rdata + 16); Ok (Some (V6 (be_combine raw)))
   else Ok None) = @Ok unit _ (rr_ip r).
Proof.
  unfold rr_ip. intros -> ->.
  destruct ((rr_type r =? 1) && (blen (rr_data r) =? 4)) eqn:H4; zbool.
  - match goal with Hl : blen (rr_data r) = 4 |- _ => unfold blen in Hl end.
    destruct (rr_data r) as [|a [|b [|c [|d [|]]]]]; cbn in *; try lia.
    rewrite (idx_at _ pre (b :: c :: d :: post) (blen pre) a),
      (idx_at _ (pre ++ [a]) (c :: d :: post) (blen pre + 1) b),
      (idx_at _ (pre ++ [a; b]) (d :: post) (blen pre + 2) c),
      (idx_at _ (pre ++ [a; b; c]) post (blen pre + 3) d)
      by (solve_app || blia). done.
  - destruct ((rr_type r =? 28) && (blen (rr_data r) =? 16)) eqn:H6; zbool; [|done].
    rewrite slice_ok by blia. rsimp. by rewrite (sub_at _ pre (rr_data r) post) by (done || lia).
Qed.

Lemma learn_one msg now name r n pre post at_ m :
  msg = pre ++ enc_rr r ++ post -> at_ = blen pre -> rr_wf r ->
  learn_answers msg now name (S n) at_ m
  = learn_answers msg now name n (at_ + blen (enc_rr r)) (learn_rr now name m r).
Proof.
  intros Hmsg Hat Hr. pose proof Hr as (_ & _ & _ & Ht & Httl & Hd). unfold enc_rr in *.
  set (o := enc_owner r) in *. set (t := be16_bytes (rr_type r)) in *.
  set (c := be16_bytes (rr_class r)) in *. set (ttl := be32_bytes (rr_ttl r)) in *.
  set (l := be16_bytes (blen (rr_data r))) in *. set (d := rr_data r) in *.
  cbn [learn_answers].
  rewrite (skip_owner msg r pre (t ++ c ++ ttl ++ l ++ d ++ post)) by (done || (subst msg; solve_app)).
  fold o. set (w := at_ + blen o).
  assert (Hlen : blen msg = w + 10 + blen d + blen post).
  { subst msg w at_. unfold t, c, ttl, l. blia. }
  rewrite (proj2 (Z.ltb_ge _ _)) by blia.
  destruct (@idx_be16 unit msg (pre ++ o) (rr_type r) (c ++ ttl ++ l ++ d ++ post) w) as [-> ->];
    [subst msg; solve_app | blia |].
  destruct (@idx_be32 unit msg (pre ++ o ++ t ++ c) (rr_ttl r) (l ++ d ++ post) (w + 4)) as (H0 & H1 & H2 & H3);
    [subst msg; solve_app | unfold t, c; blia |].
  replace (w + 4 + 1) with (w + 5) in H1 by lia. replace (w + 4 + 2) with (w + 6) in H2 by lia.
  replace (w + 4 + 3) with (w + 7) in H3 by lia. rewrite H0, H1, H2, H3.
  destruct (@idx_be16 unit msg (pre ++ o ++ t ++ c ++ ttl) (blen d) (d ++ post) (w + 8)) as [H8 H9];
    [subst msg; solve_app | unfold t, c, ttl; blia |].
  replace (w + 8 + 1) with (w + 9) in H9 by lia. rewrite H8, H9. rsimp.
  rewrite u32_be_roundtrip, !u16_be_roundtrip by (done || (split; [apply blen_nonneg|done])).
  rewrite (proj2 (Z.ltb_ge _ _)) by blia.
  rewrite (learn_ip msg r (pre ++ o ++ t ++ c ++ ttl ++ l) post)
    by ((subst msg; solve_app) || (unfold t, c, ttl, l; blia)).
  rsimp. f_equal. unfold t, c, ttl, l. blia.
Qed.

Lemma learn_answers_enc msg now name rrs : forall pre post at_ m n,
  msg = pre ++ concat (map enc_rr rrs) ++ post -> at_ = blen pre -> Forall rr_wf rrs ->
  (n <= length rrs)%nat ->
  learn_answers msg now name n at_ m = Ok (fold_left (learn_rr now name) (take n rrs) m).
Proof.
  induction rrs as [|r rrs IH]; intros pre post at_ m n Hmsg Hat Hr Hn.
  - cbn in Hn. by replace n with 0%nat by lia.
  - destruct n as [|n]; [done|]. apply Forall_cons in Hr as [Hr Hrs].
    cbn [map concat length] in *.
    rewrite (learn_one _ _ _ r n pre (concat (map enc_rr rrs) ++ post)) by (done || (subst msg; solve_app)).
    by rewrite (IH (pre ++ enc_rr r) post) by (done || lia || (subst; (solve_app || blia))).
Qed.

(** A response is recorded answer by answer. *)
Lemma learn_dns_answer_response now m id flags1 flags2 ls question counts rrs :
  blen id = 2 -> blen counts = 4 -> blen question = 4 ->
  Z.land flags1 128 <> 0 -> Z.land flags2 15 = 0 -> name_ok ls ->
  1 <= blen rrs <= U16_MAX -> Forall rr_wf rrs ->
  learn_dns_answer now (enc_response id flags1 flags2 ls question counts rrs) m
  = Ok (fold_left (learn_rr now (dotted ls)) (take 64 rrs) m).
Proof.
  intros Hid Hc Hq Hf1 Hf2 Hls Hn Hrs.
  assert (exists a b, id = [a; b]) as (a & b & ->).
  { unfold blen in Hid. destruct id as [|a [|b [|]]]; cbn in Hid; try lia. eauto. }
  set (msg := enc_response _ _ _ _ _ _ _).
  set (n1 := (blen rrs / 256) mod 256). set (n2 := blen rrs mod 256).
  assert (Hmsg : msg = [a; b; flags1; flags2; 0; 1; n1; n2] ++ counts ++ enc_name ls ++ question
                       ++ concat (map enc_rr rrs)).
  { unfold msg, enc_response. rewrite be16_bytes_spec. solve_app. }
  clearbody msg. pose proof (enc_name_bound _ Hls). unfold learn_dns_answer.
  rewrite (proj2 (Z.ltb_ge _ _)) by (subst msg; blia).
  assert (Hidx : forall i v, bget [a; b; flags1; flags2; 0; 1; n1; n2] i = Some v -> @idx unit Z msg i = Ok v).
  { intros i v Hv. unfold idx. by rewrite Hmsg, bget_app_l, Hv by (apply bget_Some in Hv; lia). }
  rewrite (Hidx 2 flags1), (Hidx 3 flags2), (Hidx 4 0), (Hidx 5 1), (Hidx 6 n1), (Hidx 7 n2) by done. rsimp.
  rewrite (proj2 (Z.eqb_neq _ _) Hf1), Hf2. change (negb (u16_be 0 1 =? 1)) with false.
  cbn [orb negb Z.eqb]. unfold n1, n2. rewrite u16_be_roundtrip by lia.
  rewrite (proj2 (Z.eqb_neq _ _)) by lia.
  rewrite (read_plain_name_enc msg ls ([a; b; flags1; flags2; 0; 1; n1; n2] ++ counts)
             (question ++ concat (map enc_rr rrs))) by (done || blia || (subst msg; solve_app)).
  rewrite (learn_answers_enc msg now _ rrs
             ([a; b; flags1; flags2; 0; 1; n1; n2] ++ counts ++ enc_name ls ++ question) [])
    by (done || (unfold blen; lia) || (subst msg; rewrite ?app_nil_r; solve_app) || blia).
  f_equal. f_equal. unfold blen in *.
  destruct (Nat.le_gt_cases (length rrs) 64).
  - rewrite !firstn_all2 by lia. done.
  - by replace (Z.to_nat _) with 64%nat by lia.
Qed.

(** ** The memory *)

Lemma len_nonneg m : 0 <= len m.
Proof. unfold len. lia. Qed.

Lemma len_insert m ip e : len (<[ip := e]> m) <= len m + 1.
Proof.
  unfold len. destruct (m !! ip) eqn:Hm.
  - rewrite map_size_insert_Some; [lia|by rewrite Hm].
  - rewrite map_size_insert_None by done. lia.
Qed.

(** What [remember] keeps of the memory before the insertion. *)
Definition evict (now : Z) (m : NameMemory) : NameMemory :=
  if NAME_MEMORY_MAX <=? len m then
    let m := retain now m in if NAME_MEMORY_MAX <=? len m then ∅ else m
  else m.

Lemma evict_spec now m :
  len (evict now m) < NAME_MEMORY_MAX /\ evict now m ⊆ m
  /\ (len m < NAME_MEMORY_MAX -> evict now m = m).
Proof.
  unfold evict. zcase; [cbn zeta; zcase|].
  - split; [done|]. split; [apply map_empty_subseteq|]. lia.
  - split; [lia|]. split; [|lia]. apply map_filter_subseteq.
  - done.
Qed.

Lemma clamp_ttl_range ttl : NAME_MEMORY_MIN_TTL <= clamp_ttl ttl <= NAME_MEMORY_MAX_TTL.
Proof. unfold clamp_ttl, NAME_MEMORY_MIN_TTL, NAME_MEMORY_MAX_TTL, SECOND. lia. Qed.

Lemma remember_len now name ip ttl m : len (remember now name ip ttl m) <= NAME_MEMORY_MAX.
Proof.
  unfold remember. fold (evict now m). pose proof (len_insert (evict now m) ip (name, now + clamp_ttl ttl)).
  destruct (evict_spec now m) as [? _]. lia.
Qed.

(** An entry of the memory after a response: an old one, or a fresh one under the
    name of the question. *)
Definition entry_from (now : Z) (name : bytes) (m m' : NameMemory) : Prop :=
  forall ip e, m' !! ip = Some e ->
    m !! ip = Some e
    \/ (e.1 = name /\ now + NAME_MEMORY_MIN_TTL <= e.2 <= now + NAME_MEMORY_MAX_TTL).

Lemma remember_entries now name ip ttl m : entry_from now name m (remember now name ip ttl m).
Proof.
  unfold remember. fold (evict now m). intros ip' e. destruct (evict_spec now m) as (_ & Hsub & _).
  destruct (decide (ip = ip')) as [->|Hne].
  - rewrite lookup_insert_eq. intros [= <-]. right. cbn. pose proof (clamp_ttl_range ttl). split; [done|lia].
  - rewrite lookup_insert_ne by done. intros He. left. by eapply lookup_weaken.
Qed.

Lemma entry_from_trans now name m1 m2 m3 :
  entry_from now name m1 m2 -> entry_from now name m2 m3 -> entry_from now name m1 m3.
Proof. intros H12 H23 ip e He. destruct (H23 ip e He); [by apply H12|by right]. Qed.

Lemma skip_dns_name_bounds msg at_ e :
  all_bytes msg -> 0 <= at_ -> skip_dns_name msg at_ = Some e -> at_ < e.
Proof.
  intros Hb Hat. unfold skip_dns_name. destruct (loop _ _ _) as [r|] eqn:Hl; [|done].
  revert Hl. apply (loop_inv (skip_dns_name_step msg) (fun s => at_ <= s.1)
    (fun r => mjoin (Some r) = Some e -> at_ < e)); [|cbn; lia].
  intros [a hops] Ha. cbn [fst snd] in Ha. cbn [skip_dns_name_step].
  destruct (bget msg a) as [n0|] eqn:Hg; [|done].
  pose proof (all_bytes_bget _ _ _ Hb Hg) as Hn0. unfold is_byte in Hn0.
  repeat (zcase; [cbn; intros; simplify_eq; lia|]). cbn [fst]. lia.
Qed.

Lemma learn_answers_safe msg now name n : forall at_ m,
  all_bytes msg -> 0 <= at_ -> len m <= NAME_MEMORY_MAX ->
  exists m', learn_answers msg now name n at_ m = Ok m'
    /\ len m' <= NAME_MEMORY_MAX /\ entry_from now name m m'.
Proof.
  induction n as [|n IH]; intros at_ m Hb Hat Hm; cbn [learn_answers].
  { exists m. split; [done|]. split; [done|]. by left. }
  assert (Hsame : exists m', @Ok unit NameMemory m = Ok m' /\ len m' <= NAME_MEMORY_MAX /\ entry_from now name m m')
    by (exists m; split; [done|]; split; [done|]; by left).
  destruct (skip_dns_name msg at_) as [w|] eqn:Hw; [|done].
  apply skip_dns_name_bounds in Hw; [|done..]. zcase; [done|].
  read msg w as r0 Hr0. read msg (w + 1) as r1 Hr1. read msg (w + 4) as t0 Ht0. read msg (w + 5) as t1 Ht1.
  read msg (w + 6) as t2 Ht2. read msg (w + 7) as t3 Ht3. read msg (w + 8) as l0 Hl0. read msg (w + 9) as l1 Hl1.
  assert (Hrd : 0 <= u16_be l0 l1 <= U16_MAX) by (apply u16_be_bound; by eapply all_bytes_bget).
  zcase; [done|].
  match goal with |- context [mbind _ ?ip] => assert (exists o, ip = Ok o) as [o ->] end.
  { zcase; [|zcase; [|by eexists]].
    - read msg (w + 10) as o0 Ho0. read msg (w + 10 + 1) as o1 Ho1. read msg (w + 10 + 2) as o2 Ho2.
      read msg (w + 10 + 3) as o3 Ho3. by eexists.
    - rewrite slice_ok by lia. by eexists. }
  rsimp. set (m1 := match o with Some ip => _ | None => m end).
  assert (len m1 <= NAME_MEMORY_MAX /\ entry_from now name m m1) as [Hm1 He1].
  { unfold m1. destruct o; [split; [apply remember_len|apply remember_entries]|]. split; [done|]. by left. }
  destruct (IH (w + 10 + u16_be l0 l1) m1 Hb ltac:(lia) Hm1) as (m' & -> & Hm' & He').
  exists m'. split; [done|]. split; [done|]. by eapply entry_from_trans.
Qed.

(** The memory after a datagram, and where its entries come from. *)
Lemma learn_dns_answer_entries now msg m :
  all_bytes msg -> len m <= NAME_MEMORY_MAX ->
  exists m', learn_dns_answer now msg m = Ok m' /\ len m' <= NAME_MEMORY_MAX
    /\ (m' = m \/ exists name e, read_plain_name msg 12 = Some (name, e) /\ entry_from now name m m').
Proof.
  intros Hb Hm. unfold learn_dns_answer.
  assert (Hsame : exists m', @Ok unit NameMemory m = Ok m' /\ len m' <= NAME_MEMORY_MAX
    /\ (m' = m \/ exists name e, read_plain_name msg 12 = Some (name, e) /\ entry_from now name m m')) by eauto.
  zcase; [done|]. read msg 2 as b2 H2. read msg 3 as b3 H3. destruct (_ || _); [done|].
  read msg 4 as b4 H4. read msg 5 as b5 H5. destruct (negb _); [done|].
  read msg 6 as b6 H6. read msg 7 as b7 H7. destruct (_ =? 0); [done|].
  destruct (read_plain_name msg 12) as [[name e]|] eqn:Hn; [|done].
  apply read_plain_name_bounds in Hn; [|done|lia].
  destruct (learn_answers_safe msg now name (Z.to_nat (Z.min (u16_be b6 b7) 64)) (e + 4) m Hb ltac:(lia) Hm)
    as (m' & -> & Hm' & He).
  exists m'. split; [done|]. split; [done|]. right. eauto.
Qed.

(** Whatever the datagram, learning from it does not panic, keeps the memory
    at no more than [NAME_MEMORY_MAX] entries, and adds only entries that hold the
    name of the question and expire between one minute and one hour later. *)
Theorem learn_dns_answer_safe now msg m :
  all_bytes msg -> len m <= NAME_MEMORY_MAX ->
  exists m', learn_dns_answer now msg m = Ok m' /\ len m' <= NAME_MEMORY_MAX
    /\ forall ip e, m' !! ip = Some e -> m !! ip = Some e
       \/ (exists end_, read_plain_name msg 12 = Some (e.1, end_))
          /\ now + NAME_MEMORY_MIN_TTL <= e.2 <= now + NAME_MEMORY_MAX_TTL.
Proof.
  intros Hb Hm. destruct (learn_dns_answer_entries now msg m Hb Hm) as (m' & -> & Hm' & He).
  exists m'. split; [done|]. split; [done|]. intros ip x Hx.
  destruct He as [->|(name & e & Hn & He)]; [by left|].
  destruct (He ip x Hx) as [|[-> ?]]; [by left|]. right. split; [by eexists|done].
Qed.

(** ** What is recalled *)

Lemma remember_fits now name ip ttl m :
  len m < NAME_MEMORY_MAX -> remember now name ip ttl m = <[ip := (name, now + clamp_ttl ttl)]> m.
Proof. intros Hm. unfold remember. by rewrite (proj2 (Z.leb_gt _ _)). Qed.

Lemma fold_learn now name rs : forall m,
  len m + blen rs <= NAME_MEMORY_MAX ->
  len (fold_left (learn_rr now name) rs m) <= len m + blen rs
  /\ forall ip, match (fold_left (learn_rr now name) rs m) !! ip with
     | Some e => (ip ∉ omap rr_ip rs /\ m !! ip = Some e)
                 \/ (ip ∈ omap rr_ip rs /\ e.1 = name /\ now + NAME_MEMORY_MIN_TTL <= e.2)
     | None => ip ∉ omap rr_ip rs /\ m !! ip = None
     end.
Proof.
  induction rs as [|r rs IH] using rev_ind; intros m Hm.
  - cbn. rewrite blen_nil. split; [lia|]. intros ip. destruct (m !! ip); [left|]; set_solver.
  - autorewrite with blens in Hm. destruct (IH m ltac:(blia)) as [Hlen Hip].
    rewrite fold_left_app. cbn [fold_left]. set (m1 := fold_left _ rs m) in *.
    unfold learn_rr at 1 2. rewrite omap_app. cbn [omap list_omap].
    destruct (rr_ip r) as [ip0|].
    + rewrite remember_fits by blia. split; [rewrite len_insert; blia|]. intros ip.
      destruct (decide (ip0 = ip)) as [->|Hne].
      * rewrite lookup_insert_eq. right. cbn. pose proof (clamp_ttl_range (rr_ttl r)).
        split; [set_solver|]. split; [done|lia].
      * rewrite lookup_insert_ne by done. specialize (Hip ip). destruct (m1 !! ip); set_solver.
    + split; [blia|]. intros ip. specialize (Hip ip). rewrite app_nil_r. done.
Qed.

(** After a response with one question is learned into a memory with room
    for its answers, the memory holds exactly the old entries and the addresses of
    its A and AAAA records; each of these recalls the name that was asked for for
    at least a minute, and an address the response does not name recalls what it
    recalled before. *)
Theorem learn_then_recall now t m id flags1 flags2 ls question counts rrs ip :
  blen id = 2 -> blen counts = 4 -> blen question = 4 ->
  Z.land flags1 128 <> 0 -> Z.land flags2 15 = 0 -> name_ok ls ->
  1 <= blen rrs <= 64 -> Forall rr_wf rrs ->
  len m + blen rrs <= NAME_MEMORY_MAX -> t < now + NAME_MEMORY_MIN_TTL ->
  exists m', learn_dns_answer now (enc_response id flags1 flags2 ls question counts rrs) m = Ok m'
    /\ recall_name t ip m' = if bool_decide (ip ∈ omap rr_ip rrs) then Some (dotted ls) else recall_name t ip m.
Proof.
  intros Hid Hc Hq Hf1 Hf2 Hls Hn Hrs Hfit Ht. eexists. split.
  - apply learn_dns_answer_response; unfold U16_MAX; (done || lia).
  - rewrite firstn_all2 by (unfold blen in Hn; lia).
    destruct (fold_learn now (dotted ls) rrs m Hfit) as [_ Hip]. specialize (Hip ip).
    unfold recall_name. destruct (_ !! ip) as [[name e]|].
    + destruct Hip as [[Hni ->]|(Hin & Hname & He)]; [|cbn in Hname; subst name].
      * by rewrite bool_decide_eq_false_2.
      * cbn in He. rewrite bool_decide_eq_true_2 by done. by rewrite (proj2 (Z.leb_gt _ _)) by lia.
    + destruct Hip as [Hni ->]. by rewrite bool_decide_eq_false_2.
Qed.

(** The loops that read names end within their fuel on every message: at most
    128 labels are read, 129 skipped. *)
Theorem name_loops_terminate msg at_ :
  (exists r, loop 130 (read_plain_name_step msg) ([], at_, 0) = Some r)
  /\ (exists r, loop 130 (skip_dns_name_step msg) (at_, 0) = Some r).
Proof.
  split.
  - destruct (loop_correct (read_plain_name_step msg) (fun s => 0 <= s.2 <= 128) (fun _ => True)
      (fun s => Z.to_nat (128 - s.2))) with (fuel := 130%nat) (s := (@nil Z, at_, 0)) as (r & -> & _);
      [|cbn; lia..|eauto].
    intros [[n a] labels]. cbn [snd read_plain_name_step]. intros Hl.
    repeat case_match; simplify_eq; try done; zbool; cbn; lia.
  - destruct (loop_correct (skip_dns_name_step msg) (fun s => 0 <= s.2 <= 128) (fun _ => True)
      (fun s => Z.to_nat (128 - s.2))) with (fuel := 130%nat) (s := (at_, 0)) as (r & -> & _);
      [|cbn; lia..|eauto].
    intros [a hops]. cbn [snd skip_dns_name_step]. intros Hl.
    repeat case_match; simplify_eq; try done; zbool; cbn; lia.
Qed.

(** ** Witnesses *)

Section examples.
#[local] Existing Instances ascii_case Routing.prefix_nets Routing.literal_regex.
Import Routing.

Definition example_query : query :=
  {| q_id := [18; 52]; q_flags1 := 1; q_flags2 := 0; q_counts := replicate 6 0;
     q_name := [lit "ADS"; lit "example"]; q_type := 1; q_class := 1 |}.

Lemma dns_block_reply_query_witness :
  query_wf example_query
  /\ dns_block_reply (RuleSet_parse (lit "ads.example") []) (enc_query example_query ++ [7])
     = Ok (nxdomain example_query).
Proof.
  assert (Hq : query_wf example_query).
  { repeat split; try done; cbn; [lia|]. repeat constructor; vm_compute; congruence. }
  split; [exact Hq|].
  destruct (dns_block_reply_query (RuleSet_parse (lit "ads.example") []) example_query [7] [] Hq) as [Hr _].
  - constructor.
  - left. vm_compute. reflexivity.
  - rewrite Hr. vm_compute. reflexivity.
Defined.

(** An update (opcode 5) of a blocked name is answered NXDOMAIN, with opcode 0. *)
Example update_is_answered :
  dns_block_reply (RuleSet_parse (lit "ads.example") [])
    (enc_query {| q_id := [18; 52]; q_flags1 := 40; q_flags2 := 0; q_counts := replicate 6 0;
                  q_name := [lit "ads"; lit "example"]; q_type := 6; q_class := 1 |})
  = Ok (nxdomain {| q_id := [18; 52]; q_flags1 := 40; q_flags2 := 0; q_counts := replicate 6 0;
                    q_name := [lit "ads"; lit "example"]; q_type := 6; q_class := 1 |}).
Proof. vm_compute. reflexivity. Qed.

Lemma dns_block_reply_sound_witness :
  dns_block_reply (RuleSet_parse (lit "ads.example") []) (enc_query example_query) <> Panic.
Proof.
  apply dns_block_reply_sound. repeat constructor; vm_compute; congruence.
Defined.

Definition example_rrs : list rr :=
  [mkRR [] (Some (192, 12)) 5 1 30 (enc_name [lit "cdn"; lit "test"]);
   mkRR [lit "cdn"; lit "test"] None 1 1 30 [1; 2; 3; 4]].

Lemma example_rrs_wf : Forall rr_wf example_rrs.
Proof.
  repeat constructor; (vm_compute; congruence) || (cbn; lia).
Qed.

Lemma learn_dns_answer_safe_witness :
  exists m', learn_dns_answer 5 (enc_response [1; 2] 129 128 [lit "a"; lit "b"] [0; 1; 0; 1] [0; 0; 0; 0] example_rrs) ∅
    = Ok m' /\ len m' <= NAME_MEMORY_MAX.
Proof.
  destruct (learn_dns_answer_safe 5
    (enc_response [1; 2] 129 128 [lit "a"; lit "b"] [0; 1; 0; 1] [0; 0; 0; 0] example_rrs) ∅) as (m' & Hm & Hl & _).
  - repeat constructor; vm_compute; congruence.
  - vm_compute. congruence.
  - eauto.
Defined.

Lemma learn_then_recall_witness :
  exists m', learn_dns_answer 0 (enc_response [1; 2] 129 128 [lit "a"; lit "b"] [0; 1; 0; 1] [0; 0; 0; 0] example_rrs) ∅
    = Ok m' /\ recall_name 59999999999 (V4 (v4_new 1 2 3 4)) m' = Some (lit "a.b").
Proof.
  destruct (learn_then_recall 0 59999999999 ∅ [1; 2] 129 128 [lit "a"; lit "b"] [0; 1; 0; 1] [0; 0; 0; 0]
    example_rrs (V4 (v4_new 1 2 3 4))) as (m' & Hm & Hr).
  1-5: done.
  3: apply example_rrs_wf.
  3-4: vm_compute; congruence.
  - split; [done|]. split; [cbn; lia|]. repeat constructor; vm_compute; congruence.
  - split; vm_compute; congruence.
  - exists m'. split; [done|]. rewrite Hr. vm_compute. reflexivity.
Defined.
End examples.

End RouteDns.
