(* ===== verification/Octets.v ===== *)
(** * Byte cursors ([quiche/octets/src/lib.rs])

    [Octets] reads and [OctetsMut] writes a slice at an offset that every
    operation moves; an operation that does not fit returns
    [BufferTooShortError] ([Err tt]) and leaves the offset where it was.  The
    variable-length integers are those of QUIC. *)

From S2P Require Import Prelude.
Local Open Scope Z_scope.

Module Octets.

Definition MAX_VAR_INT : Z := 4611686018427387903.

(** Both cursors: the slice and the offset. *)
Record Octets := mkOctets { buf : bytes; off : Z }.

Definition with_slice (buf : bytes) : Octets := mkOctets buf 0.
Definition cap (b : Octets) : Z := blen (buf b) - off b.
Definition as_ref (b : Octets) : res unit bytes := slice (buf b) (off b) (blen (buf b)).
Definition to_vec (b : Octets) : res unit bytes := as_ref b.

(** ** Reading *)

(** [peek_u!] and [get_u!] for an integer of [n] bytes. *)
Definition peek_u (n : Z) (b : Octets) : res unit Z :=
  src ← slice (buf b) (off b) (blen (buf b));
  if blen src <? n then Err tt else Ok (be_combine (sub src 0 n)).

Definition get_u (n : Z) (b : Octets) : res unit (Z * Octets) :=
  out ← peek_u n b;
  Ok (out, mkOctets (buf b) (off b + n)).

Definition get_u8 := get_u 1.
Definition peek_u8 := peek_u 1.
Definition get_u16 := get_u 2.
Definition get_u24 := get_u 3.
Definition get_u32 := get_u 4.
Definition get_u64 := get_u 8.

Definition varint_len (v : Z) : res unit Z :=
  if v <=? 63 then Ok 1
  else if v <=? 16383 then Ok 2
  else if v <=? 1073741823 then Ok 4
  else if v <=? MAX_VAR_INT then Ok 8
  else Panic.

Definition varint_parse_len (first : Z) : res unit Z :=
  match Z.shiftr first 6 with
  | 0 => Ok 1
  | 1 => Ok 2
  | 2 => Ok 4
  | 3 => Ok 8
  | _ => Panic
  end.

Definition get_varint (b : Octets) : res unit (Z * Octets) :=
  first ← peek_u8 b;
  len ← varint_parse_len first;
  if cap b <? len then Err tt
  else if len =? 1 then get_u8 b
  else if len =? 2 then '(v, b) ← get_u16 b; Ok (Z.land v 16383, b)
  else if len =? 4 then '(v, b) ← get_u32 b; Ok (Z.land v 1073741823, b)
  else if len =? 8 then '(v, b) ← get_u64 b; Ok (Z.land v 4611686018427387903, b)
  else Panic.

Definition get_bytes (len : Z) (b : Octets) : res unit (Octets * Octets) :=
  if cap b <? len then Err tt
  else
    out ← slice (buf b) (off b) (off b + len);
    Ok (mkOctets out 0, mkOctets (buf b) (off b + len)).

Definition get_bytes_with_u8_length (b : Octets) : res unit (Octets * Octets) :=
  '(len, b) ← get_u8 b; get_bytes len b.
Definition get_bytes_with_u16_length (b : Octets) : res unit (Octets * Octets) :=
  '(len, b) ← get_u16 b; get_bytes len b.
Definition get_bytes_with_varint_length (b : Octets) : res unit (Octets * Octets) :=
  '(len, b) ← get_varint b; get_bytes len b.

Definition peek_bytes (len : Z) (b : Octets) : res unit Octets :=
  if cap b <? len then Err tt
  else out ← slice (buf b) (off b) (off b + len); Ok (mkOctets out 0).

Definition rewind (len : Z) (b : Octets) : res unit Octets :=
  if off b <? len then Err tt else Ok (mkOctets (buf b) (off b - len)).

Definition skip (skip : Z) (b : Octets) : res unit Octets :=
  if cap b <? skip then Err tt else Ok (mkOctets (buf b) (off b + skip)).

(** ** Writing *)

(** The slice with [v] written over the bytes from [lo]. *)
Definition splice (l : bytes) (lo : Z) (v : bytes) : bytes :=
  sub l 0 lo ++ v ++ sub l (lo + blen v) (blen l).

(** [put_u!]: the low [n] bytes of [v], in network order. *)
Definition put_u (n : Z) (v : Z) (b : Octets) : res unit Octets :=
  if blen (buf b) <? off b + n then Err tt
  else
    _ ← @slice unit Z (buf b) (off b) (off b + n);
    Ok (mkOctets (splice (buf b) (off b) (be_bytes (Z.to_nat n) v)) (off b + n)).

Definition put_u8 (v : Z) := put_u 1 v.
Definition put_u16 (v : Z) := put_u 2 v.
Definition put_u24 (v : Z) := put_u 3 v.
Definition put_u32 (v : Z) := put_u 4 v.
Definition put_u64 (v : Z) := put_u 8 v.

(** [buf[0] |= mask] on the slice [put_u!] returned, at [at_] in the buffer. *)
Definition or_at (at_ mask : Z) (b : Octets) : res unit Octets :=
  x ← idx (buf b) at_;
  l ← set_idx (buf b) at_ (Z.lor x mask);
  Ok (mkOctets l (off b)).

Definition put_varint_with_len (v len : Z) (b : Octets) : res unit Octets :=
  if cap b <? len then Err tt
  else if len =? 1 then put_u8 (wrap_u8 v) b
  else if len =? 2 then b' ← put_u16 (wrap_u16 v) b; or_at (off b) 64 b'
  else if len =? 4 then b' ← put_u32 (wrap_u32 v) b; or_at (off b) 128 b'
  else if len =? 8 then b' ← put_u64 v b; or_at (off b) 192 b'
  else Panic.

Definition put_varint (v : Z) (b : Octets) : res unit Octets :=
  len ← varint_len v; put_varint_with_len v len b.

Definition put_bytes (v : bytes) (b : Octets) : res unit Octets :=
  let len := blen v in
  if cap b <? len then Err tt
  else if len =? 0 then Ok b
  else
    _ ← @slice unit Z (buf b) (off b) (off b + len);
    Ok (mkOctets (splice (buf b) (off b) v) (off b + len)).

(** ** Specification *)

(** The encoding of a variable-length integer: the two high bits of the first
    byte hold the logarithm of its length. *)
Definition varint_width (v : Z) : Z :=
  if v <=? 63 then 1 else if v <=? 16383 then 2 else if v <=? 1073741823 then 4 else 8.
Definition enc_varint (v : Z) : bytes :=
  let n := varint_width v in
  be_bytes (Z.to_nat n) (v + Z.log2 n * 2 ^ (8 * n - 2)).

Definition wf (b : Octets) : Prop := 0 <= off b <= blen (buf b).

(** ** Reading what is there *)

Lemma get_u_at n b pre mid post :
  buf b = pre ++ mid ++ post -> off b = blen pre -> blen mid = n ->
  peek_u n b = Ok (be_combine mid) /\ get_u n b = Ok (be_combine mid, mkOctets (buf b) (off b + n)).
Proof.
  intros Hbuf Hoff Hn.
  assert (Hp : peek_u n b = Ok (be_combine mid)).
  { unfold peek_u. rewrite slice_ok by (rewrite ?Hbuf; blia). rsimp.
    rewrite (sub_at (buf b) pre (mid ++ post) [])
      by ((rewrite Hbuf, app_nil_r; solve_app) || (rewrite ?Hbuf; blia)).
    rewrite (proj2 (Z.ltb_ge _ _)) by blia.
    rewrite sub_app_l by lia. subst n. by rewrite sub_all. }
  split; [done|]. unfold get_u. by rewrite Hp.
Qed.

Lemma get_bytes_at len b pre mid post :
  buf b = pre ++ mid ++ post -> off b = blen pre -> blen mid = len ->
  get_bytes len b = Ok (mkOctets mid 0, mkOctets (buf b) (off b + len)).
Proof.
  intros Hbuf Hoff Hn. unfold get_bytes, cap. rewrite (proj2 (Z.ltb_ge _ _)) by (rewrite Hbuf; blia).
  rewrite slice_ok by (rewrite ?Hbuf; blia). rsimp.
  by rewrite (sub_at (buf b) pre mid post) by (done || lia).
Qed.

Lemma to_vec_all l : to_vec (mkOctets l 0) = Ok l.
Proof. unfold to_vec, as_ref. cbn. rewrite slice_ok by blia. by rewrite sub_all. Qed.

(** ** Variable-length integers *)

(** The first byte and the rest of an integer of [n] bytes tagged with [k]. *)
Lemma tagged_head (m : nat) v k :
  let w := 8 * Z.of_nat m + 6 in
  0 <= v < 2 ^ w -> 0 <= k <= 3 ->
  be_bytes (S m) (v + k * 2 ^ w) = (k * 64 + v / 256 ^ Z.of_nat m) :: be_bytes m v
  /\ 0 <= v / 256 ^ Z.of_nat m < 64.
Proof.
  intros w Hv Hk. assert (Hm : 256 ^ Z.of_nat m = 2 ^ (8 * Z.of_nat m)) by (by rewrite Z.pow_mul_r by lia).
  assert (Hp : 0 < 2 ^ (8 * Z.of_nat m)) by (apply Z.pow_pos_nonneg; lia).
  assert (Hw : 2 ^ w = 64 * 2 ^ (8 * Z.of_nat m)) by (unfold w; rewrite Z.pow_add_r by lia; lia).
  assert (Hb : 0 <= v / 256 ^ Z.of_nat m < 64).
  { rewrite Hm. split; [apply Z.div_pos; lia|apply Z.div_lt_upper_bound; lia]. }
  split; [|done]. rewrite be_bytes_cons. rewrite Hw.
  replace (v + k * (64 * 2 ^ (8 * Z.of_nat m))) with (v + (k * 64) * 256 ^ Z.of_nat m) by lia.
  rewrite be_bytes_add, Z.div_add by lia. rewrite Z.mod_small by lia. f_equal. lia.
Qed.

Lemma varint_width_cases v :
  0 <= v <= MAX_VAR_INT ->
  exists m k, 0 <= k <= 3 /\ varint_width v = Z.of_nat (S m) /\ Z.of_nat (S m) = 2 ^ k
    /\ 0 <= v < 2 ^ (8 * Z.of_nat m + 6)
    /\ enc_varint v = be_bytes (S m) (v + k * 2 ^ (8 * Z.of_nat m + 6)).
Proof.
  unfold MAX_VAR_INT, enc_varint, varint_width. intros Hv.
  repeat zcase.
  - exists 0%nat, 0. repeat split; try done; cbn; lia.
  - exists 1%nat, 1. repeat split; try done; cbn; lia.
  - exists 3%nat, 2. repeat split; try done; cbn; lia.
  - exists 7%nat, 3. repeat split; try done; cbn; lia.
Qed.

Lemma blen_enc_varint v : blen (enc_varint v) = varint_width v.
Proof. unfold enc_varint. rewrite blen_be_bytes. unfold varint_width. by repeat zcase. Qed.

Lemma varint_width_pos v : 1 <= varint_width v <= 8.
Proof. unfold varint_width. repeat zcase; lia. Qed.

Lemma tag_bits k h : 0 <= h < 64 -> Z.shiftr (k * 64 + h) 6 = k.
Proof. intros. rewrite Z.shiftr_div_pow2 by lia. change (2 ^ 6) with 64. rewrite Z.div_add_l, Z.div_small by lia. lia. Qed.

Lemma get_varint_at b pre v post :
  0 <= v <= MAX_VAR_INT -> buf b = pre ++ enc_varint v ++ post -> off b = blen pre ->
  get_varint b = Ok (v, mkOctets (buf b) (off b + varint_width v)).
Proof.
  intros Hv Hbuf Hoff. pose proof (blen_enc_varint v) as Hlen.
  destruct (varint_width_cases v Hv) as (m & k & Hk & Hw & Hpow & Hvm & Henc).
  destruct (tagged_head m v k Hvm Hk) as [Hhead Hh].
  pose proof (be_combine_bytes (S m) (v + k * 2 ^ (8 * Z.of_nat m + 6))) as Hval.
  rewrite <- Henc in Hval, Hhead. rewrite Hw in Hlen |- *.
  unfold get_varint, peek_u8.
  destruct (get_u_at 1 b pre [k * 64 + v / 256 ^ Z.of_nat m] (be_bytes m v ++ post)) as [-> _];
    [by rewrite Hbuf, Hhead | done | done |].
  rsimp. change (be_combine [k * 64 + ?h]) with (0 * 256 + (k * 64 + h)).
  rewrite Z.add_0_l. unfold varint_parse_len. rewrite tag_bits by done.
  assert (Hcap : Z.of_nat (S m) <= cap b) by (unfold cap; rewrite Hbuf; blia).
  destruct (get_u_at (Z.of_nat (S m)) b pre (enc_varint v) post Hbuf Hoff Hlen) as [_ Hget].
  rewrite Hval in Hget.
  2: { replace (256 ^ Z.of_nat (S m)) with (4 * 2 ^ (8 * Z.of_nat m + 6)); [nia|].
    replace 256 with (2 ^ 8) by done. rewrite <- Z.pow_mul_r by lia.
    replace (8 * Z.of_nat (S m)) with (2 + (8 * Z.of_nat m + 6)) by lia. by rewrite (Z.pow_add_r 2 2) by lia. }
  clear Hval.
  assert (Hland : Z.land (v + k * 2 ^ (8 * Z.of_nat m + 6)) (Z.ones (8 * Z.of_nat m + 6)) = v)
    by (rewrite Z.land_ones, Z.mod_add, Z.mod_small by lia; done).
  assert (k = 0 \/ k = 1 \/ k = 2 \/ k = 3) as Hcase by lia.
  destruct Hcase as [-> | [-> | [-> | -> ]]].
  - assert (m = 0%nat) as -> by lia. rsimp. rewrite (proj2 (Z.ltb_ge _ _)) by lia. cbn [Z.eqb Pos.eqb].
    unfold get_u8. change 1 with (Z.of_nat 1) at 1. rewrite Hget. do 2 f_equal. lia.
  - assert (m = 1%nat) as -> by lia. rsimp. rewrite (proj2 (Z.ltb_ge _ _)) by lia. cbn [Z.eqb Pos.eqb].
    unfold get_u16. change 2 with (Z.of_nat 2) at 1. rewrite Hget. rsimp. exact (f_equal (fun z => Ok (z, _)) Hland).
  - assert (m = 3%nat) as -> by lia. rsimp. rewrite (proj2 (Z.ltb_ge _ _)) by lia. cbn [Z.eqb Pos.eqb].
    unfold get_u32. change 4 with (Z.of_nat 4) at 1. rewrite Hget. rsimp. exact (f_equal (fun z => Ok (z, _)) Hland).
  - assert (m = 7%nat) as -> by lia. rsimp. rewrite (proj2 (Z.ltb_ge _ _)) by lia. cbn [Z.eqb Pos.eqb].
    unfold get_u64. change 8 with (Z.of_nat 8) at 1. rewrite Hget. rsimp. exact (f_equal (fun z => Ok (z, _)) Hland).
Qed.

(** ** Writing *)

Lemma blen_splice l lo v : 0 <= lo -> lo + blen v <= blen l -> blen (splice l lo v) = blen l.
Proof. intros. unfold splice. rewrite !blen_app, !blen_sub by (pose proof (blen_nonneg v); lia). lia. Qed.

Lemma put_u_ok n v b :
  wf b -> 0 <= n <= cap b ->
  put_u n v b = Ok (mkOctets (splice (buf b) (off b) (be_bytes (Z.to_nat n) v)) (off b + n)).
Proof.
  unfold wf, cap, put_u. intros Hwf Hn. rewrite (proj2 (Z.ltb_ge _ _)) by lia.
  by rewrite slice_ok by lia.
Qed.

Lemma put_bytes_ok v b :
  wf b -> blen v <= cap b ->
  put_bytes v b = Ok (mkOctets (splice (buf b) (off b) v) (off b + blen v)).
Proof.
  unfold wf, put_bytes. intros Hwf Hn. rewrite (proj2 (Z.ltb_ge _ _)) by lia. unfold cap in Hn.
  destruct (blen v =? 0) eqn:H0; zbool.
  - destruct v; [|blia]. destruct b as [l o]. cbn in *. unfold splice. cbn [app].
    change (blen (@nil Z)) with 0. rewrite !Z.add_0_r. f_equal. f_equal.
    rewrite (sub_split l o o) at 1 by lia. by rewrite (sub_empty l o o) by lia.
  - by rewrite slice_ok by blia.
Qed.

Lemma or_at_splice l lo h t o mask :
  0 <= lo -> lo + 1 + blen t <= blen l ->
  or_at lo mask (mkOctets (splice l lo (h :: t)) o) = Ok (mkOctets (splice l lo (Z.lor h mask :: t)) o).
Proof.
  intros Hlo Hlen. unfold or_at. cbn [buf off].
  assert (Hs : blen (sub l 0 lo) = lo) by (rewrite blen_sub by blia; lia).
  rewrite (idx_at _ (sub l 0 lo) (t ++ sub l (lo + blen (h :: t)) (blen l)) lo h) by done. rsimp.
  rewrite set_idx_ok by (rewrite blen_splice by blia; blia). rsimp. do 2 f_equal.
  unfold splice. rewrite insert_app_r_alt by (unfold blen in Hs; lia).
  replace (Z.to_nat lo - length (sub l 0 lo))%nat with 0%nat by (unfold blen in Hs; lia).
  cbn. by rewrite !blen_cons.
Qed.

Lemma put_varint_ok v b :
  wf b -> 0 <= v <= MAX_VAR_INT -> varint_width v <= cap b ->
  put_varint v b = Ok (mkOctets (splice (buf b) (off b) (enc_varint v)) (off b + varint_width v)).
Proof.
  intros Hwf Hv Hcap.
  destruct (varint_width_cases v Hv) as (m & k & Hk & Hw & Hpow & Hvm & Henc).
  destruct (tagged_head m v k Hvm Hk) as [Hhead Hh]. rewrite Henc, Hhead.
  assert (Hlor : Z.lor (v / 256 ^ Z.of_nat m) (k * 64) = k * 64 + v / 256 ^ Z.of_nat m).
  { rewrite Z.lor_comm. replace (k * 64) with (Z.shiftl k 6) by (by rewrite Z.shiftl_mul_pow2 by lia).
    rewrite lor_shiftl by lia. by rewrite Z.shiftl_mul_pow2 by lia. }
  assert (Hplain : be_bytes (S m) v = (v / 256 ^ Z.of_nat m) :: be_bytes m v)
    by (rewrite be_bytes_cons, Z.mod_small by lia; done).
  assert (Hlen : varint_len v = Ok (varint_width v)).
  { unfold varint_len, varint_width. repeat zcase; (done || lia). }
  unfold put_varint. rewrite Hlen. rsimp. unfold put_varint_with_len.
  rewrite (proj2 (Z.ltb_ge _ _)) by done.
  assert (Hor : forall w, (w = v) -> (b' ← put_u (Z.of_nat (S m)) w b; or_at (off b) (k * 64) b')
    = Ok (mkOctets (splice (buf b) (off b) ((k * 64 + v / 256 ^ Z.of_nat m) :: be_bytes m v)) (off b + varint_width v))).
  { intros w ->. rewrite put_u_ok by (done || lia). rsimp. rewrite Nat2Z.id, Hplain.
    unfold wf, cap in *. rewrite or_at_splice by blia. by rewrite Hlor, Hw. }
  rewrite Hw in *. assert (k = 0 \/ k = 1 \/ k = 2 \/ k = 3) as Hcase by lia.
  destruct Hcase as [-> | [-> | [-> | -> ]]].
  - assert (m = 0%nat) as -> by lia. cbn [Z.eqb Pos.eqb Z.of_nat Pos.of_succ_nat].
    unfold put_u8, wrap_u8. rewrite Z.mod_small by (cbn in Hvm; lia).
    rewrite put_u_ok by (done || lia). change (Z.to_nat 1) with 1%nat. by rewrite Hplain.
  - assert (m = 1%nat) as -> by lia. apply Hor. unfold wrap_u16. apply Z.mod_small. cbn in Hvm. lia.
  - assert (m = 3%nat) as -> by lia. apply Hor. unfold wrap_u32. apply Z.mod_small. cbn in Hvm. lia.
  - assert (m = 7%nat) as -> by lia. by apply Hor.
Qed.

(** A cursor that has written [w] over the start of a buffer with [room] bytes left. *)
Definition written (w : bytes) (room : Z) (b : Octets) : Prop :=
  off b = blen w /\ exists rest, buf b = w ++ rest /\ blen rest = room.

Lemma splice_written w rest v :
  blen v <= blen rest -> exists rest', splice (w ++ rest) (blen w) v = (w ++ v) ++ rest' /\ blen rest' = blen rest - blen v.
Proof.
  intros Hv. exists (sub rest (blen v) (blen rest)). split; [|rewrite blen_sub by blia; done].
  unfold splice. rewrite sub_app_l, sub_all, sub_app_r by blia. rewrite <- app_assoc. do 3 f_equal; blia.
Qed.

Lemma written_wf w room b : written w room b -> wf b /\ cap b = room.
Proof. intros (Hoff & rest & Hbuf & Hr). unfold wf, cap. rewrite Hoff, Hbuf. blia. Qed.

Lemma written_put_varint w room b v :
  written w room b -> 0 <= v <= MAX_VAR_INT -> varint_width v <= room ->
  exists b', put_varint v b = Ok b' /\ written (w ++ enc_varint v) (room - varint_width v) b'.
Proof.
  intros Hw Hv Hr. destruct (written_wf _ _ _ Hw) as [Hwf Hcap]. destruct Hw as (Hoff & rest & Hbuf & Hrest).
  rewrite put_varint_ok by (done || lia). eexists. split; [done|]. rewrite Hbuf, Hoff.
  destruct (splice_written w rest (enc_varint v)) as (rest' & -> & Hr'); [rewrite blen_enc_varint; lia|].
  rewrite blen_enc_varint in Hr'. split; cbn; [rewrite blen_app, blen_enc_varint; lia|].
  exists rest'. split; [done|lia].
Qed.

Lemma written_put_bytes w room b v :
  written w room b -> blen v <= room ->
  exists b', put_bytes v b = Ok b' /\ written (w ++ v) (room - blen v) b'.
Proof.
  intros Hw Hr. destruct (written_wf _ _ _ Hw) as [Hwf Hcap]. destruct Hw as (Hoff & rest & Hbuf & Hrest).
  rewrite put_bytes_ok by (done || lia). eexists. split; [done|]. rewrite Hbuf, Hoff.
  destruct (splice_written w rest v) as (rest' & -> & Hr'); [lia|].
  split; cbn; [rewrite blen_app; lia|]. exists rest'. split; [done|lia].
Qed.

Lemma written_put_u8 w room b v :
  written w room b -> is_byte v -> 1 <= room ->
  exists b', put_u8 v b = Ok b' /\ written (w ++ [v]) (room - 1) b'.
Proof.
  intros Hw Hv Hr. destruct (written_wf _ _ _ Hw) as [Hwf Hcap]. destruct Hw as (Hoff & rest & Hbuf & Hrest).
  unfold put_u8. rewrite put_u_ok by (done || lia). eexists. split; [done|]. rewrite Hbuf, Hoff.
  change (be_bytes (Z.to_nat 1) v) with [v mod 256]. unfold is_byte in Hv. rewrite Z.mod_small by lia.
  destruct (splice_written w rest [v]) as (rest' & -> & Hr'); [blia|].
  split; cbn; [rewrite blen_app; done|]. exists rest'. split; [done|blia].
Qed.

Lemma written_init n : written [] n (with_slice (replicate (Z.to_nat n) 0)) <-> 0 <= n.
Proof.
  split.
  - intros (_ & rest & Hb & <-). apply blen_nonneg.
  - intros Hn. split; [done|]. eexists. split; [done|]. rewrite blen_replicate. lia.
Qed.

Lemma written_done w b : written w 0 b -> buf b = w.
Proof. intros (_ & rest & -> & Hr). destruct rest; [by rewrite app_nil_r|blia]. Qed.

(** ** Reading arbitrary bytes *)

Lemma get_u_safe n b :
  wf b -> 0 <= n ->
  if cap b <? n then get_u n b = Err tt
  else exists v, peek_u n b = Ok v /\ get_u n b = Ok (v, mkOctets (buf b) (off b + n))
       /\ (all_bytes (buf b) -> 0 <= v < 256 ^ n).
Proof.
  intros [Ho Hc] Hn. unfold get_u, peek_u. rewrite slice_ok by lia. rsimp.
  rewrite blen_sub by lia. fold (cap b). zcase; [done|]. rsimp.
  eexists. split; [done|]. split; [done|]. intros Hb.
  pose proof (be_combine_bound (sub (sub (buf b) (off b) (blen (buf b))) 0 n)) as Hv.
  rewrite blen_sub, Z.sub_0_r in Hv by (rewrite ?blen_sub by lia; unfold cap in *; lia).
  apply Hv. by do 2 apply Forall_sub.
Qed.

Lemma varint_parse_len_safe first :
  is_byte first ->
  exists len, varint_parse_len first = Ok len /\ (len = 1 \/ len = 2 \/ len = 4 \/ len = 8)
    /\ (len = 1 -> first <= 63).
Proof.
  unfold is_byte, varint_parse_len. intros Hf. rewrite Z.shiftr_div_pow2 by lia.
  change (2 ^ 6) with 64. pose proof (Z.div_mod first 64 ltac:(lia)).
  pose proof (Z.mod_pos_bound first 64 ltac:(lia)).
  assert (0 <= first / 64 <= 3) as Hd by lia. set (k := first / 64) in *. clearbody k.
  assert (k = 0 \/ k = 1 \/ k = 2 \/ k = 3) as [-> | [-> | [-> | -> ]]] by lia;
    eexists; (split; [reflexivity|]); split; lia.
Qed.

(** A read of a variable-length integer fails, or consumes 1 to 8 bytes that are
    there. *)
Lemma get_varint_safe b :
  wf b -> all_bytes (buf b) ->
  get_varint b = Err tt
  \/ exists v n, get_varint b = Ok (v, mkOctets (buf b) (off b + n)) /\ 1 <= n <= cap b
       /\ 0 <= v <= MAX_VAR_INT.
Proof.
  intros Hwf Hb. unfold get_varint, peek_u8.
  pose proof (get_u_safe 1 b Hwf ltac:(lia)) as H1. destruct (cap b <? 1) eqn:Hc.
  { unfold get_u in H1. destruct (peek_u 1 b); [done| |done]. by destruct e; left. }
  destruct H1 as (first & Hp & Hg & Hf). specialize (Hf Hb). rewrite Hp. rsimp.
  destruct (varint_parse_len_safe first ltac:(unfold is_byte; lia)) as (len & -> & Hlen & H63). rsimp.
  destruct (cap b <? len) eqn:Hcl; [by left|]. zbool.
  assert (Hmask : forall k v, 0 <= k <= 62 -> 0 <= Z.land v (Z.ones k) <= MAX_VAR_INT).
  { intros k v Hk. rewrite Z.land_ones by lia. pose proof (Z.mod_pos_bound v (2 ^ k) ltac:(apply Z.pow_pos_nonneg; lia)).
    assert (2 ^ k <= 2 ^ 62) by (apply Z.pow_le_mono_r; lia). unfold MAX_VAR_INT. lia. }
  right. destruct Hlen as [-> | [-> | [-> | -> ]]]; cbn [Z.eqb Pos.eqb].
  - unfold get_u8. rewrite Hg. exists first, 1. unfold MAX_VAR_INT. repeat split; (done || lia).
  - pose proof (get_u_safe 2 b Hwf ltac:(lia)) as H2. rewrite (proj2 (Z.ltb_ge _ _)) in H2 by lia.
    destruct H2 as (v & _ & Hv & _). unfold get_u16. rewrite Hv. rsimp.
    exists (Z.land v 16383), 2. split; [done|]. split; [lia|]. by apply (Hmask 14).
  - pose proof (get_u_safe 4 b Hwf ltac:(lia)) as H2. rewrite (proj2 (Z.ltb_ge _ _)) in H2 by lia.
    destruct H2 as (v & _ & Hv & _). unfold get_u32. rewrite Hv. rsimp.
    exists (Z.land v 1073741823), 4. split; [done|]. split; [lia|]. by apply (Hmask 30).
  - pose proof (get_u_safe 8 b Hwf ltac:(lia)) as H2. rewrite (proj2 (Z.ltb_ge _ _)) in H2 by lia.
    destruct H2 as (v & _ & Hv & _). unfold get_u64. rewrite Hv. rsimp.
    exists (Z.land v 4611686018427387903), 8. split; [done|]. split; [lia|]. by apply (Hmask 62).
Qed.

Lemma get_bytes_safe len b :
  wf b -> 0 <= len ->
  if cap b <? len then get_bytes len b = Err tt
  else get_bytes len b = Ok (mkOctets (sub (buf b) (off b) (off b + len)) 0, mkOctets (buf b) (off b + len)).
Proof.
  intros [Ho Hc] Hl. unfold get_bytes. zcase; [done|]. unfold cap in *. by rewrite slice_ok by lia.
Qed.

(** Reading is not changed by bytes that arrive later. *)
Definition extend (b : Octets) (d : bytes) : Octets := mkOctets (buf b ++ d) (off b).

Lemma peek_u_extend n b d v : wf b -> peek_u n b = Ok v -> peek_u n (extend b d) = Ok v.
Proof.
  intros [Ho Hc]. unfold peek_u, extend. cbn [buf off]. rewrite !slice_ok by blia. rsimp.
  rewrite blen_sub by blia. zcase; [done|]. intros [= <-].
  rewrite blen_sub by blia. rewrite (proj2 (Z.ltb_ge _ _)) by blia. do 2 f_equal.
  destruct (Z.le_gt_cases n 0); [by rewrite !sub_empty by lia|].
  rewrite !sub_sub by (blia || (rewrite ?blen_app; blia)). apply sub_app_l; blia.
Qed.

Lemma get_u_extend n b d v b' :
  wf b -> get_u n b = Ok (v, b') -> get_u n (extend b d) = Ok (v, extend b' d).
Proof.
  intros Hwf. unfold get_u. destruct (peek_u n b) as [w| |] eqn:Hp; [|done..]. rsimp.
  intros [= -> <-]. by rewrite (peek_u_extend n b d v).
Qed.

Lemma get_varint_extend b d v b' :
  wf b -> get_varint b = Ok (v, b') -> get_varint (extend b d) = Ok (v, extend b' d).
Proof.
  intros Hwf. unfold get_varint, peek_u8. destruct (peek_u 1 b) as [w| |] eqn:Hp; [|done..]. rsimp.
  rewrite (peek_u_extend 1 b d w) by done. rsimp. destruct (varint_parse_len w) as [len| |]; [|done..]. rsimp.
  zcase; [done|]. rewrite (proj2 (Z.ltb_ge _ _)) by (unfold cap, extend in *; cbn; blia).
  unfold get_u8, get_u16, get_u32, get_u64.
  destruct (len =? 1); [by apply get_u_extend|].
  destruct (len =? 2); [|destruct (len =? 4); [|destruct (len =? 8); [|done]]];
    (destruct (get_u _ b) as [[x b1]| |] eqn:Hg; [|done..]); rsimp; intros [= <- <-];
    rewrite (get_u_extend _ b d x b1) by done; done.
Qed.

(** Variable-length integers round trip: a value up to [MAX_VAR_INT] written
    at the offset of a buffer with room for it takes [varint_len] bytes, changes no
    other byte, and is read back from that offset. *)
Theorem varint_roundtrip v b :
  wf b -> 0 <= v <= MAX_VAR_INT -> varint_width v <= cap b ->
  exists b', put_varint v b = Ok b' /\ varint_len v = Ok (off b' - off b)
    /\ get_varint (mkOctets (buf b') (off b)) = Ok (v, b')
    /\ sub (buf b') 0 (off b) = sub (buf b) 0 (off b)
    /\ sub (buf b') (off b') (blen (buf b')) = sub (buf b) (off b') (blen (buf b)).
Proof.
  intros Hwf Hv Hcap. rewrite put_varint_ok by done. eexists. split; [done|]. cbn [buf off].
  unfold wf, cap in *. pose proof (varint_width_pos v). set (w := varint_width v) in *. pose proof (blen_enc_varint v) as Hl. fold w in Hl.
  assert (Hs : blen (sub (buf b) 0 (off b)) = off b) by (rewrite blen_sub by lia; lia).
  split; [|split; [|split]].
  - replace (off b + w - off b) with w by lia. unfold varint_len, w, varint_width. repeat zcase; (done || lia).
  - rewrite (get_varint_at _ (sub (buf b) 0 (off b)) v (sub (buf b) (off b + blen (enc_varint v)) (blen (buf b))));
      done.
  - unfold splice. rewrite sub_app_l by lia. rewrite sub_sub by lia. f_equal; lia.
  - rewrite blen_splice by lia. unfold splice.
    rewrite (sub_app_r (sub (buf b) 0 (off b))), (sub_app_r (enc_varint v)), Hs, Hl by lia.
    rewrite sub_sub by lia. f_equal; lia.
Qed.

Lemma varint_roundtrip_witness :
  exists b', put_varint 16384 (mkOctets (replicate 8 7) 2) = Ok b'
    /\ get_varint (mkOctets (buf b') 2) = Ok (16384, b') /\ buf b' = [7; 7; 128; 0; 64; 0; 7; 7].
Proof.
  destruct (varint_roundtrip 16384 (mkOctets (replicate 8 7) 2)) as (b' & Hp & _ & Hg & _).
  1-3: (vm_compute; split; congruence) || (vm_compute; congruence).
  exists b'. split; [done|]. split; [done|]. by injection Hp as <-.
Defined.

End Octets.
