(* ===== verification/Masque.v ===== *)
(** * MASQUE framing ([aether/src/masque.rs])

    IP packets as HTTP datagrams ([encode_ip_datagram], [decode_ip_datagram]) and
    as capsules ([append_capsule], [CapsuleParser]), the loop that drains the
    parser over HTTP/2 ([aether/src/masque_h2.rs], [drain_capsules]), and the DNS
    probe packet with its header checksum. *)

From S2P Require Import Prelude Str Ip Error RouteDns Octets.
Local Open Scope Z_scope.

Module Masque.
Import Octets Error.

Definition CAPSULE_ADDRESS_ASSIGN : Z := 1.
Definition CAPSULE_ADDRESS_REQUEST : Z := 2.
Definition CAPSULE_ROUTE_ADVERTISEMENT : Z := 3.
Definition CAPSULE_DATAGRAM : Z := 0.
Definition CONNECT_IP_CONTEXT_ID : Z := 0.

Record AssignedAddress := mkAssigned {
  request_id : Z; aa_ip_version : Z; address : bytes; prefix_len : Z;
}.
Record RouteAdvertisement := mkRoute {
  ra_ip_version : Z; start : bytes; end_ : bytes; protocol : Z;
}.
Inductive Capsule :=
| CAddressAssign (addrs : list AssignedAddress)
| CAddressRequest
| CDatagram (payload : bytes)
| CRouteAdvertisement (routes : list RouteAdvertisement)
| CUnknown (kind : Z) (payload : bytes).

Definition quarter_stream_id (stream_id : Z) : Z := stream_id / 4.

Definition varint_len (v : Z) : Z :=
  if v <? 64 then 1 else if v <? 16384 then 2 else if v <? 1073741824 then 4 else 8.

Definition oct (_ : unit) : AetherError := Error.Capsule (lit "BufferTooShortError").

(** ** Datagrams *)

Definition encode_ip_datagram (stream_id : Z) (ip_packet : bytes) : res AetherError bytes :=
  let qsid := quarter_stream_id stream_id in
  let ctx := CONNECT_IP_CONTEXT_ID in
  let cap := varint_len qsid + varint_len ctx + blen ip_packet in
  let b := with_slice (replicate (Z.to_nat cap) 0) in
  b ← map_err oct (put_varint qsid b);
  b ← map_err oct (put_varint ctx b);
  b ← map_err oct (put_bytes ip_packet b);
  Ok (buf b).

Definition decode_ip_datagram (datagram : bytes) (expect_stream_id : Z) : res AetherError (option bytes) :=
  let b := with_slice datagram in
  '(qsid, b) ← map_err oct (get_varint b);
  if negb (qsid =? quarter_stream_id expect_stream_id) then Ok None
  else
    '(ctx, b) ← map_err oct (get_varint b);
    if negb (ctx =? CONNECT_IP_CONTEXT_ID) then Ok None
    else
      let rest := cap b in
      '(payload, b) ← map_err oct (get_bytes rest b);
      v ← map_err oct (to_vec payload);
      Ok (Some v).

(** ** Capsules *)

Definition capsule_len (kind : Z) (value : bytes) : Z :=
  varint_len kind + varint_len (blen value) + blen value.

(** [let _ = b.put(..)]: an error leaves the cursor as it was. *)
Definition ignore (b : Octets) (r : res unit Octets) : res unit Octets :=
  match r with Ok b' => Ok b' | Err _ => Ok b | Panic => Panic end.

Definition append_capsule (out : bytes) (kind : Z) (value : bytes) : res unit bytes :=
  let b := with_slice (replicate (Z.to_nat (capsule_len kind value)) 0) in
  b ← ignore b (put_varint kind b);
  b ← ignore b (put_varint (blen value) b);
  b ← ignore b (put_bytes value b);
  Ok (out ++ buf b).

Definition encode_capsule (kind : Z) (value : bytes) : res unit bytes := append_capsule [] kind value.

Definition encode_address_request (request_id ip_version prefix_len : Z) : res unit bytes :=
  let value_len := varint_len request_id + 1 + 1 in
  let b := with_slice (replicate (Z.to_nat value_len) 0) in
  b ← ignore b (put_varint request_id b);
  b ← ignore b (put_u8 ip_version b);
  b ← ignore b (put_u8 prefix_len b);
  encode_capsule CAPSULE_ADDRESS_REQUEST (buf b).

Definition encode_datagram_capsule (ip_packet : bytes) : res unit bytes :=
  encode_capsule CAPSULE_DATAGRAM ip_packet.
Definition append_datagram_capsule (out ip_packet : bytes) : res unit bytes :=
  append_capsule out CAPSULE_DATAGRAM ip_packet.

Definition looks_like_ip_packet (data : bytes) : bool :=
  match bget data 0 with
  | Some first => ((Z.shiftr first 4 =? 4) || (Z.shiftr first 4 =? 6)) && (20 <=? blen data)
  | None => false
  end.

Definition strip_datagram_context (payload : bytes) : res unit (option bytes) :=
  if bool_decide (payload = []) then Ok None
  else
    let bare := if looks_like_ip_packet payload then Some payload else None in
    match get_varint (with_slice payload) with
    | Panic => Panic
    | Err _ => Ok bare
    | Ok (ctx, b) =>
        if ctx =? CONNECT_IP_CONTEXT_ID then
          let rest := cap b in
          let consumed := blen payload - rest in
          inner ← slice payload consumed (blen payload);
          Ok (if looks_like_ip_packet inner then Some inner else bare)
        else Ok bare
    end.

(** ** The values of the control capsules *)

Definition addr_len_of (ip_version : Z) : res AetherError Z :=
  if ip_version =? 4 then Ok 4
  else if ip_version =? 6 then Ok 16
  else Err (Error.Capsule (lit "bad ip version " ++ dec ip_version)).

Definition read_vec (len : Z) (b : Octets) : res AetherError (bytes * Octets) :=
  '(o, b) ← map_err oct (get_bytes len b);
  v ← map_err oct (to_vec o);
  Ok (v, b).

Definition read_assigned (b : Octets) : res AetherError (AssignedAddress * Octets) :=
  '(request_id, b) ← map_err oct (get_varint b);
  '(ip_version, b) ← map_err oct (get_u8 b);
  addr_len ← addr_len_of ip_version;
  '(address, b) ← read_vec addr_len b;
  '(prefix_len, b) ← map_err oct (get_u8 b);
  Ok (mkAssigned request_id ip_version address prefix_len, b).

Definition read_route (b : Octets) : res AetherError (RouteAdvertisement * Octets) :=
  '(ip_version, b) ← map_err oct (get_u8 b);
  addr_len ← addr_len_of ip_version;
  '(start, b) ← read_vec addr_len b;
  '(end_, b) ← read_vec addr_len b;
  '(protocol, b) ← map_err oct (get_u8 b);
  Ok (mkRoute ip_version start end_ protocol, b).

(** One iteration of [while b.cap() > 0]. *)
Definition read_all_step {A} (read : Octets -> res AetherError (A * Octets)) (s : Octets * list A)
  : (Octets * list A) + res AetherError (list A) :=
  let '(b, out) := s in
  if 0 <? cap b then
    match read b with
    | Ok (a, b) => inl (b, out ++ [a])
    | Err e => inr (Err e)
    | Panic => inr Panic
    end
  else inr (Ok out).

(** Every iteration reads a byte, so the length of the value bounds them. *)
Definition read_all {A} (read : Octets -> res AetherError (A * Octets)) (value : bytes)
  : res AetherError (list A) :=
  default (Ok []) (loop (S (length value)) (read_all_step read) (with_slice value, [])).

Definition parse_address_assign (value : bytes) : res AetherError (list AssignedAddress) :=
  read_all read_assigned value.
Definition parse_route_advertisement (value : bytes) : res AetherError (list RouteAdvertisement) :=
  read_all read_route value.

(** ** The capsule parser *)

(** The bytes received and not yet parsed ([CapsuleParser.buf]). *)
Abbreviation CapsuleParser := bytes.
Definition CapsuleParser_new : CapsuleParser := [].
Definition MAX_CAPSULE_BUF : Z := 256 * 1024.

Definition push (p : CapsuleParser) (data : bytes) : CapsuleParser :=
  if MAX_CAPSULE_BUF <? saturating_add (blen p) (blen data) then [] else p ++ data.

Definition capsule_of (kind : Z) (value : bytes) : res AetherError Capsule :=
  if kind =? CAPSULE_ADDRESS_ASSIGN then CAddressAssign <$> parse_address_assign value
  else if kind =? CAPSULE_ADDRESS_REQUEST then Ok CAddressRequest
  else if kind =? CAPSULE_ROUTE_ADVERTISEMENT then CRouteAdvertisement <$> parse_route_advertisement value
  else if kind =? CAPSULE_DATAGRAM then Ok (CDatagram value)
  else Ok (CUnknown kind value).

(** The parser after the call and what the call returns. *)
Definition next (p : CapsuleParser) : CapsuleParser * res AetherError (option Capsule) :=
  match get_varint (with_slice p) with
  | Panic => (p, Panic)
  | Err _ => (p, Ok None)
  | Ok (kind, b) =>
      match get_varint b with
      | Panic => (p, Panic)
      | Err _ => (p, Ok None)
      | Ok (len, b) =>
          if cap b <? len then (p, Ok None)
          else match get_bytes len b with
               | Panic => (p, Panic)
               | Err e => (p, Err (oct e))
               | Ok (o, b) =>
                   match to_vec o with
                   | Ok value =>
                       let consumed := off b in
                       match @slice unit Z p consumed (blen p) with
                       | Ok rest => (rest, Some <$> capsule_of kind value)
                       | _ => (p, Panic)
                       end
                   | _ => (p, Panic)
                   end
               end
      end
  end.

(** ** Draining the parser over HTTP/2 *)

(** A bounded [mpsc] channel as its sender sees it. *)
Record Chan (A : Type) := mkChan { items : list A; capacity : Z; closed : bool }.
Arguments mkChan {A} _ _ _.
Arguments items {A} _.
Arguments capacity {A} _.
Arguments closed {A} _.

Inductive SendError := Sent | Full | Closed.
Definition try_send {A} (c : Chan A) (a : A) : Chan A * SendError :=
  if closed c then (c, Closed)
  else if blen (items c) <? capacity c then (mkChan (items c ++ [a]) (capacity c) false, Sent)
  else (c, Full).

Definition bytes_to_ip (version : Z) (b : bytes) : option IpAddr :=
  if (version =? 4) && (blen b =? 4) then Some (V4 (be_combine b))
  else if (version =? 6) && (blen b =? 16) then Some (V6 (be_combine b))
  else None.

Record Drain := mkDrain {
  d_parser : CapsuleParser;
  d_inbound : Chan bytes;
  d_addrs : option (Chan (IpAddr * Z));
  d_delivered : bool;
}.

Definition send_assigned (tx : option (Chan (IpAddr * Z))) (a : AssignedAddress) : option (Chan (IpAddr * Z)) :=
  match bytes_to_ip (aa_ip_version a) (address a) with
  | Some ip => (fun c => (try_send c (ip, prefix_len a)).1) <$> tx
  | None => tx
  end.

(** One iteration of the loop; [None] is a panic. *)
Definition drain_step (d : Drain) : Drain + option Drain :=
  let '(p, r) := next (d_parser d) in
  let d := mkDrain p (d_inbound d) (d_addrs d) (d_delivered d) in
  match r with
  | Panic => inr None
  | Ok (Some (CDatagram payload)) =>
      match strip_datagram_context payload with
      | Ok (Some pkt) =>
          let '(tx, sent) := try_send (d_inbound d) pkt in
          let d := mkDrain p tx (d_addrs d) true in
          match sent with Sent | Full => inl d | Closed => inr (Some d) end
      | Ok None => inl d
      | _ => inr None
      end
  | Ok (Some (CAddressAssign addrs)) =>
      inl (mkDrain p (d_inbound d) (fold_left send_assigned addrs (d_addrs d)) (d_delivered d))
  | Ok (Some _) => inl d
  | Ok None => inr (Some d)
  | Err _ => inr (Some d)
  end.

Definition drain_capsules (d : Drain) : option Drain :=
  mjoin (loop (S (length (d_parser d))) drain_step
    (mkDrain (d_parser d) (d_inbound d) (d_addrs d) false)).

(** ** The probe packet *)

Fixpoint sum_words (header : bytes) (sum : Z) : Z :=
  match header with
  | a :: b :: t => sum_words t (wrap_u32 (sum + u16_be a b))
  | [a] => wrap_u32 (sum + Z.shiftl a 8)
  | [] => sum
  end.

Definition fold_step (sum : Z) : Z + Z :=
  if Z.shiftr sum 16 =? 0 then inr sum else inl (Z.land sum 65535 + Z.shiftr sum 16).

Definition ipv4_header_checksum (header : bytes) : Z :=
  let sum := default 0 (loop 4 fold_step (sum_words header 0)) in
  65535 - wrap_u16 sum.

(** [id] is the random identifier of the query. *)
Definition probe_dns_query (id : Z) : bytes :=
  be16_bytes id ++ [1; 0] ++ [0; 1] ++ replicate 6 0
  ++ concat (map (fun label => [wrap_u8 (blen label)] ++ label) [lit "cloudflare"; lit "com"])
  ++ [0] ++ [0; 1] ++ [0; 1].

(** [ip_id], [dns_id] and [sport] are the random numbers drawn. *)
Definition build_dns_probe_packet (src ip_id dns_id sport : Z) : res unit bytes :=
  let dns := probe_dns_query dns_id in
  let udp_len := 8 + blen dns in
  let total_len := 20 + udp_len in
  let pkt := [69] ++ [0] ++ be16_bytes (wrap_u16 total_len) ++ be16_bytes ip_id ++ [0; 0] ++ [64] ++ [17]
             ++ [0; 0] ++ octets (V4 src) ++ octets (V4 (v4_new 8 8 8 8)) in
  hdr ← slice pkt 0 20;
  let csum := ipv4_header_checksum hdr in
  _ ← @slice unit Z pkt 10 12;
  let pkt := splice pkt 10 (be16_bytes csum) in
  Ok (pkt ++ be16_bytes sport ++ be16_bytes 53 ++ be16_bytes (wrap_u16 udp_len) ++ [0; 0] ++ dns).

(** ** Datagrams round trip *)

Lemma varint_len_width v : varint_len v = varint_width v.
Proof. unfold varint_len, varint_width. repeat zcase; (done || lia). Qed.

(** Every stream identifier of 64 bits has a quarter that fits a varint. *)
Lemma quarter_range sid : 0 <= sid <= U64_MAX -> 0 <= quarter_stream_id sid <= MAX_VAR_INT.
Proof.
  unfold quarter_stream_id, U64_MAX, MAX_VAR_INT. intros.
  split; [apply Z.div_pos; lia | apply Z.lt_succ_r, Z.div_lt_upper_bound; lia].
Qed.

Lemma encode_ip_datagram_eq sid pkt :
  0 <= sid <= U64_MAX ->
  encode_ip_datagram sid pkt = Ok (enc_varint (quarter_stream_id sid) ++ enc_varint 0 ++ pkt).
Proof.
  intros Hsid%quarter_range. unfold encode_ip_datagram. cbn zeta.
  set (q := quarter_stream_id sid) in *. rewrite !varint_len_width.
  pose proof (varint_width_pos q). pose proof (blen_nonneg pkt).
  change (varint_width CONNECT_IP_CONTEXT_ID) with 1.
  remember (varint_width q + 1 + blen pkt) as n eqn:Hn.
  assert (Hi : written [] n (with_slice (replicate (Z.to_nat n) 0))) by (apply written_init; lia).
  destruct (written_put_varint _ _ _ q Hi Hsid ltac:(lia)) as (b1 & -> & H1). cbn [map_err]. rsimp.
  destruct (written_put_varint _ _ _ 0 H1) as (b2 & E2 & H2);
    [unfold MAX_VAR_INT; lia | change (varint_width 0) with 1; lia|].
  unfold CONNECT_IP_CONTEXT_ID. rewrite E2. cbn [map_err]. rsimp.
  change (varint_width 0) with 1 in H2.
  destruct (written_put_bytes _ _ _ pkt H2 ltac:(lia)) as (b3 & -> & H3). cbn [map_err]. rsimp.
  replace (n - varint_width q - 1 - blen pkt) with 0 in H3 by lia.
  rewrite (written_done _ _ H3). by rewrite <- app_assoc.
Qed.

(** Encoding an IP packet as a datagram succeeds for every 64-bit stream
    identifier, and decoding gives the packet back on that stream's quarter and
    nothing on any other. *)
Theorem ip_datagram_roundtrip sid sid' pkt :
  0 <= sid <= U64_MAX ->
  exists d, encode_ip_datagram sid pkt = Ok d
    /\ decode_ip_datagram d sid'
       = Ok (if quarter_stream_id sid =? quarter_stream_id sid' then Some pkt else None).
Proof.
  intros Hsid. rewrite encode_ip_datagram_eq by done. eexists. split; [done|].
  apply quarter_range in Hsid. unfold decode_ip_datagram. cbn zeta.
  set (q := quarter_stream_id sid) in *. set (d := enc_varint q ++ enc_varint 0 ++ pkt).
  rewrite (get_varint_at (with_slice d) [] q (enc_varint 0 ++ pkt)) by done. cbn [map_err]. rsimp.
  destruct (q =? quarter_stream_id sid'); [|done]. cbn [negb].
  rewrite (get_varint_at _ (enc_varint q) 0 pkt) by
    (done || (cbn; rewrite ?blen_enc_varint; lia) || (unfold MAX_VAR_INT; lia)).
  cbn [map_err]. rsimp. change (0 =? CONNECT_IP_CONTEXT_ID) with true. cbn [negb]. unfold cap.
  cbn [buf off with_slice]. change (varint_width 0) with 1.
  rewrite (get_bytes_at _ _ (enc_varint q ++ enc_varint 0) pkt []);
    [| by cbn; unfold d; rewrite app_nil_r, <- app_assoc
     | cbn; rewrite blen_app, !blen_enc_varint; done
     | unfold d; rewrite !blen_app, !blen_enc_varint; change (varint_width 0) with 1; lia ].
  cbn [map_err]. rsimp. by rewrite to_vec_all.
Qed.

(** ** Capsules *)

Definition enc_capsule (c : Z * bytes) : bytes := enc_varint c.1 ++ enc_varint (blen c.2) ++ c.2.

(** A kind and a value whose length fit a variable-length integer. *)
Definition capsule_wf (c : Z * bytes) : Prop :=
  0 <= c.1 <= MAX_VAR_INT /\ blen c.2 <= MAX_VAR_INT /\ all_bytes c.2.

Lemma append_capsule_eq out kind value :
  capsule_wf (kind, value) -> append_capsule out kind value = Ok (out ++ enc_capsule (kind, value)).
Proof.
  intros (Hk & Hv & _). cbn [fst snd] in *. unfold append_capsule, capsule_len. cbn zeta.
  rewrite !varint_len_width.
  pose proof (varint_width_pos kind). pose proof (varint_width_pos (blen value)). pose proof (blen_nonneg value).
  remember (varint_width kind + varint_width (blen value) + blen value) as n eqn:Hn.
  assert (Hi : written [] n (with_slice (replicate (Z.to_nat n) 0))) by (apply written_init; lia).
  destruct (written_put_varint _ _ _ kind Hi Hk ltac:(lia)) as (b1 & -> & HW1). cbn [ignore]. rsimp.
  destruct (written_put_varint _ _ _ (blen value) HW1 ltac:(lia) ltac:(lia)) as (b2 & -> & HW2). cbn [ignore]. rsimp.
  destruct (written_put_bytes _ _ _ value HW2 ltac:(lia)) as (b3 & -> & HW3). cbn [ignore]. rsimp.
  replace (n - varint_width kind - varint_width (blen value) - blen value) with 0 in HW3 by lia.
  rewrite (written_done _ _ HW3). unfold enc_capsule. cbn. by rewrite <- app_assoc.
Qed.

Lemma blen_enc_capsule c :
  blen (enc_capsule c) = varint_width c.1 + varint_width (blen c.2) + blen c.2.
Proof. unfold enc_capsule. rewrite !blen_app, !blen_enc_varint. lia. Qed.

Lemma enc_capsule_long c : 2 <= blen (enc_capsule c).
Proof.
  rewrite blen_enc_capsule. pose proof (varint_width_pos c.1). pose proof (varint_width_pos (blen c.2)). blia.
Qed.

(** A complete capsule at the head of the buffer is parsed and removed. *)
Lemma next_whole c rest :
  capsule_wf c -> next (enc_capsule c ++ rest) = (rest, Some <$> capsule_of c.1 c.2).
Proof.
  intros (Hk & Hv & _). unfold next. set (p := enc_capsule c ++ rest).
  assert (Hp : p = enc_varint c.1 ++ enc_varint (blen c.2) ++ c.2 ++ rest) by (unfold p, enc_capsule; solve_app).
  clearbody p. pose proof (varint_width_pos c.1). pose proof (varint_width_pos (blen c.2)). pose proof (blen_nonneg c.2).
  rewrite (get_varint_at (with_slice p) [] c.1 (enc_varint (blen c.2) ++ c.2 ++ rest)) by done.
  rewrite (get_varint_at _ (enc_varint c.1) (blen c.2) (c.2 ++ rest)) by
    (done || lia || (cbn; rewrite ?blen_enc_varint; done)).
  cbn [buf off with_slice]. rewrite Z.add_0_l.
  assert (Hl : blen p = varint_width c.1 + varint_width (blen c.2) + blen c.2 + blen rest)
    by (rewrite Hp, !blen_app, !blen_enc_varint; lia).
  pose proof (blen_nonneg rest). unfold cap. cbn [buf off]. rewrite (proj2 (Z.ltb_ge _ _)) by lia.
  rewrite (get_bytes_at (blen c.2) _ (enc_varint c.1 ++ enc_varint (blen c.2)) c.2 rest);
    [| cbn; rewrite Hp; solve_app | cbn; rewrite blen_app, !blen_enc_varint; done | done ].
  rewrite to_vec_all. cbn [buf off].
  rewrite slice_ok by lia.
  rewrite (sub_at p (enc_varint c.1 ++ enc_varint (blen c.2) ++ c.2) rest [])
    by ((rewrite Hp, app_nil_r; solve_app) || (rewrite !blen_app, !blen_enc_varint; lia)).
  done.
Qed.

Lemma enc_capsule_bytes c : capsule_wf c -> all_bytes (enc_capsule c).
Proof.
  intros (_ & _ & Hb). unfold enc_capsule. rewrite !all_bytes_app.
  repeat split; [apply be_bytes_all..|done].
Qed.

(** A capsule that is not complete yet stays in the buffer. *)
Lemma next_incomplete c p future more :
  capsule_wf c -> p ++ future = enc_capsule c ++ more -> blen p < blen (enc_capsule c) ->
  next p = (p, Ok None).
Proof.
  intros Hc Hp Hlt. rewrite blen_enc_capsule in Hlt.
  assert (Hb : all_bytes p).
  { assert (p = sub (enc_capsule c) 0 (blen p)) as ->.
    - rewrite <- (sub_app_l _ more), <- Hp by (rewrite ?blen_enc_capsule; lia).
      rewrite sub_app_l by lia. by rewrite sub_all.
    - apply Forall_sub. by apply enc_capsule_bytes. }
  destruct Hc as (Hk & Hv & _). unfold next.
  assert (Hfull : p ++ future = enc_varint c.1 ++ enc_varint (blen c.2) ++ c.2 ++ more)
    by (rewrite Hp; unfold enc_capsule; solve_app).
  assert (Hwf : wf (with_slice p)) by (split; cbn; blia).
  destruct (get_varint_safe (with_slice p) Hwf Hb) as [-> | (k & n & Hg1 & Hn & _)]; [done|].
  pose proof (get_varint_extend _ future _ _ Hwf Hg1) as Hx.
  rewrite (get_varint_at _ [] c.1 (enc_varint (blen c.2) ++ c.2 ++ more)) in Hx by done.
  injection Hx as <- Hw. assert (n = varint_width c.1) as -> by (cbn in Hw; lia).
  rewrite Hg1. clear Hg1 Hw. unfold cap in Hn. cbn in Hn.
  set (b1 := mkOctets (buf (with_slice p)) (off (with_slice p) + varint_width c.1)).
  assert (Hwf1 : wf b1) by (split; cbn; lia).
  destruct (get_varint_safe b1 Hwf1 Hb) as [-> | (l & m & Hg2 & Hm & _)]; [done|].
  pose proof (get_varint_extend _ future _ _ Hwf1 Hg2) as Hx.
  rewrite (get_varint_at _ (enc_varint c.1) (blen c.2) (c.2 ++ more)) in Hx
    by (done || blia || (cbn; rewrite ?blen_enc_varint; done)).
  injection Hx as <- Hw. assert (m = varint_width (blen c.2)) as -> by (cbn in Hw; lia).
  rewrite Hg2. unfold cap. cbn [buf off b1 with_slice].
  by rewrite (proj2 (Z.ltb_lt _ _)) by lia.
Qed.

(** ** Streams *)

(** [while let Ok(Some(capsule)) = parser.next()]: the parser and the capsules. *)
Fixpoint take_all (fuel : nat) (p : CapsuleParser) : CapsuleParser * list Capsule :=
  match fuel with
  | O => (p, [])
  | S fuel =>
      match next p with
      | (p', Ok (Some c)) => let '(p'', cs) := take_all fuel p' in (p'', c :: cs)
      | (p', _) => (p', [])
      end
  end.

(** The chunks of a stream pushed one by one, the parser drained after each. *)
Fixpoint feed (p : CapsuleParser) (chunks : list bytes) : CapsuleParser * list Capsule :=
  match chunks with
  | [] => (p, [])
  | d :: chunks =>
      let p := push p d in
      let '(p, cs) := take_all (S (length p)) p in
      let '(p, cs') := feed p chunks in (p, cs ++ cs')
  end.

Definition enc_stream (caps : list (Z * bytes)) : bytes := concat (map enc_capsule caps).

(** The capsule a kind and a value stand for. *)
Definition means (c : Z * bytes) (m : Capsule) : Prop := capsule_of c.1 c.2 = Ok m.

Lemma take_all_prefix caps : forall ms p future fuel,
  Forall capsule_wf caps -> Forall2 means caps ms -> p ++ future = enc_stream caps ->
  (length p < fuel)%nat ->
  exists caps1 caps2 ms1 ms2 p',
    caps = caps1 ++ caps2 /\ ms = ms1 ++ ms2 /\ Forall2 means caps2 ms2
    /\ take_all fuel p = (p', ms1) /\ p' ++ future = enc_stream caps2
    /\ match caps2 with [] => p' = [] | c :: _ => blen p' < blen (enc_capsule c) end.
Proof.
  induction caps as [|c caps IH]; intros ms p future fuel Hwf Hms Hp Hf.
  - apply Forall2_nil_inv_l in Hms as ->. apply app_eq_nil in Hp as [-> ->].
    exists [], [], [], [], []. destruct fuel as [|fuel]; [lia|]. by repeat split.
  - apply Forall_cons in Hwf as [Hc Hwf]. apply Forall2_cons_inv_l in Hms as (m & ms' & Hm & Hms & ->).
    change (enc_stream (c :: caps)) with (enc_capsule c ++ enc_stream caps) in *.
    destruct fuel as [|fuel]; [lia|].
    destruct (Z.lt_ge_cases (blen p) (blen (enc_capsule c))) as [Hlt|Hge].
    + exists [], (c :: caps), [], (m :: ms'), p. cbn [take_all].
      rewrite (next_incomplete c p future (enc_stream caps)) by done.
      repeat split; try done. by constructor.
    + assert (exists p1, p = enc_capsule c ++ p1) as [p1 ->].
      { apply app_eq_inv in Hp as [(k & Hk & _)|(k & Hk & _)]; [by eauto|].
        exists []. rewrite app_nil_r. rewrite Hk in Hge |- *. destruct k; [by rewrite app_nil_r|]. blia. }
      rewrite <- app_assoc in Hp. apply app_inv_head in Hp.
      pose proof (enc_capsule_long c) as Hlong. rewrite length_app in Hf. unfold blen in Hlong.
      destruct (IH ms' p1 future fuel Hwf Hms Hp ltac:(lia))
        as (caps1 & caps2 & ms1 & ms2 & p' & -> & -> & Hms2 & Htake & Hp' & Hrest).
      exists (c :: caps1), caps2, (m :: ms1), ms2, p'. cbn [take_all].
      rewrite next_whole by done. rewrite Hm. cbn [fmap res_fmap]. rewrite Htake. by repeat split.
Qed.

Lemma feed_prefix chunks : forall caps ms p,
  Forall capsule_wf caps -> Forall2 means caps ms -> p ++ concat chunks = enc_stream caps ->
  match caps with [] => p = [] | c :: _ => blen p < blen (enc_capsule c) end ->
  Forall (fun d => blen d <= MAX_CAPSULE_BUF
                   /\ Forall (fun c => blen (enc_capsule c) + blen d <= MAX_CAPSULE_BUF) caps) chunks ->
  feed p chunks = ([], ms).
Proof.
  induction chunks as [|d chunks IH]; intros caps ms p Hwf Hms Hp Hpre Hfit; cbn [concat feed] in *.
  - rewrite app_nil_r in Hp. destruct caps as [|c caps].
    + apply Forall2_nil_inv_l in Hms as ->. by subst.
    + exfalso. subst p. change (enc_stream (c :: caps)) with (enc_capsule c ++ enc_stream caps) in Hpre. blia.
  - apply Forall_cons in Hfit as [[Hd Hcd] Hfit].
    assert (Hroom : blen p + blen d <= MAX_CAPSULE_BUF).
    { destruct caps as [|c caps]; [subst; blia|]. apply Forall_cons in Hcd as [? _]. lia. }
    assert (Hpush : push p d = p ++ d).
    { unfold push, saturating_add, USIZE_MAX, U64_MAX. unfold MAX_CAPSULE_BUF in *.
      by rewrite (proj2 (Z.ltb_ge _ _)) by lia. }
    rewrite Hpush. rewrite app_assoc in Hp.
    destruct (take_all_prefix caps ms (p ++ d) (concat chunks) (S (length (p ++ d))) Hwf Hms Hp ltac:(lia))
      as (caps1 & caps2 & ms1 & ms2 & p' & -> & -> & Hms2 & -> & Hp' & Hrest).
    apply Forall_app in Hwf as [_ Hwf]. rewrite (IH caps2 ms2 p'); [done|done..|].
    eapply Forall_impl; [exact Hfit|]. intros x [? Hx]. split; [done|]. by apply Forall_app in Hx as [_ ?].
Qed.

(** C15.  A stream of capsules is parsed to those capsules however it is cut into
    chunks, for as long as a chunk and an unfinished capsule fit in the buffer. *)
Theorem capsule_stream_chunked caps ms chunks :
  Forall capsule_wf caps -> Forall2 means caps ms -> concat chunks = enc_stream caps ->
  Forall (fun d => blen d <= MAX_CAPSULE_BUF
                   /\ Forall (fun c => blen (enc_capsule c) + blen d <= MAX_CAPSULE_BUF) caps) chunks ->
  feed CapsuleParser_new chunks = ([], ms).
Proof.
  intros Hwf Hms Hc Hfit. apply (feed_prefix chunks caps); try done.
  destruct caps as [|c caps]; [done|]. pose proof (enc_capsule_long c). blia.
Qed.

(** ** Arbitrary bytes *)

(** What a read does: no panic, and it moves the cursor by at least [k] over the
    same bytes. *)
Definition reads {E A} (k : Z) (b : Octets) (r : res E (A * Octets)) : Prop :=
  match r with
  | Ok (_, b') => buf b' = buf b /\ wf b' /\ off b + k <= off b'
  | Err _ => True
  | Panic => False
  end.

Lemma reads_varint b : wf b -> all_bytes (buf b) -> reads 1 b (map_err oct (get_varint b)).
Proof.
  intros Hwf Hb. destruct (get_varint_safe b Hwf Hb) as [-> | (v & n & -> & Hn & _)]; [done|].
  unfold reads, cap, wf in *. cbn [map_err buf off]. split; [done|]. lia.
Qed.

Lemma reads_u8 b : wf b -> reads 1 b (map_err oct (get_u8 b)).
Proof.
  intros Hwf. pose proof (get_u_safe 1 b Hwf ltac:(lia)) as Hg. unfold get_u8. destruct (cap b <? 1) eqn:Hc.
  - by rewrite Hg.
  - destruct Hg as (v & _ & -> & _). zbool. unfold reads, cap, wf in *. cbn [map_err buf off]. split; [done|]. lia.
Qed.

Lemma reads_vec len b : wf b -> 0 <= len -> reads 0 b (read_vec len b).
Proof.
  intros Hwf Hl. unfold read_vec. pose proof (get_bytes_safe len b Hwf ltac:(lia)) as Hg.
  destruct (cap b <? len) eqn:Hc; rewrite Hg; [done|]. cbn [map_err]. rsimp. rewrite to_vec_all. cbn [map_err]. rsimp. zbool.
  unfold reads, cap, wf in *. cbn [map_err buf off]. split; [done|]. lia.
Qed.

Lemma reads_bind {A B} k1 k2 b (m : res AetherError (A * Octets)) (f : A * Octets -> res AetherError (B * Octets)) :
  reads k1 b m -> (forall a b', buf b' = buf b -> wf b' -> reads k2 b' (f (a, b'))) ->
  reads (k1 + k2) b (m ≫= f).
Proof.
  destruct m as [[a b']| |]; [|done..]. intros (Hb & Hwf & Ho) Hf. rsimp.
  specialize (Hf a b' Hb Hwf). destruct (f (a, b')) as [[c b'']| |]; [|done..].
  destruct Hf as (Hb' & Hwf' & Ho'). split; [congruence|]. split; [done|lia].
Qed.

Lemma reads_addr_len {A} k b v (f : Z -> res AetherError (A * Octets)) :
  (forall len, 0 <= len -> reads k b (f len)) -> reads k b (addr_len_of v ≫= f).
Proof. intros Hf. unfold addr_len_of. zcase; [by apply Hf|]. zcase; [by apply Hf|done]. Qed.

Lemma reads_ret {A} b (a : A) : wf b -> @reads AetherError A 0 b (Ok (a, b)).
Proof. intros. split; [done|]. split; [done|lia]. Qed.

Lemma reads_weaken {E A} k k' b (r : res E (A * Octets)) : reads k b r -> k' <= k -> reads k' b r.
Proof. destruct r as [[a b']| |]; [|done..]. intros (? & ? & ?) ?. split; [done|]. split; [done|lia]. Qed.

Lemma reads_u8_0 b : wf b -> reads 0 b (map_err oct (get_u8 b)).
Proof. intros. by apply (reads_weaken 1); [apply reads_u8|]. Qed.

#[local] Hint Resolve reads_varint reads_u8 reads_u8_0 reads_vec reads_ret : reads.

Lemma reads_assigned b : wf b -> all_bytes (buf b) -> reads 1 b (read_assigned b).
Proof.
  intros Hwf Hb. apply (reads_bind 1 0); [auto with reads|]. intros id b1 E1 H1.
  apply (reads_bind 0 0); [auto with reads|]. intros v b2 E2 H2. apply reads_addr_len. intros len Hl.
  apply (reads_bind 0 0); [auto with reads|]. intros a b3 E3 H3.
  apply (reads_bind 0 0); [auto with reads|]. intros pl b4 E4 H4. auto with reads.
Qed.

Lemma reads_route b : wf b -> all_bytes (buf b) -> reads 1 b (read_route b).
Proof.
  intros Hwf Hb. apply (reads_bind 1 0); [auto with reads|]. intros v b1 E1 H1.
  apply reads_addr_len. intros len Hl.
  apply (reads_bind 0 0); [auto with reads|]. intros st b2 E2 H2.
  apply (reads_bind 0 0); [auto with reads|]. intros en b3 E3 H3.
  apply (reads_bind 0 0); [auto with reads|]. intros pr b4 E4 H4. auto with reads.
Qed.

(** The loop over the value of a capsule ends within its fuel and does not panic. *)
Lemma read_all_loop {A} (read : Octets -> res AetherError (A * Octets)) value :
  (forall b, wf b -> all_bytes (buf b) -> reads 1 b (read b)) -> all_bytes value ->
  exists r, loop (S (length value)) (read_all_step read) (with_slice value, []) = Some r /\ r <> Panic.
Proof.
  intros Hread Hb.
  apply (loop_correct (read_all_step read) (fun s => buf s.1 = value /\ wf s.1) (fun r => r <> Panic)
    (fun s => Z.to_nat (cap s.1))).
  - intros [b out] [Hbuf Hwf]. cbn [fst snd] in *. cbn [read_all_step]. zcase; [|done].
    pose proof (Hread b Hwf ltac:(by rewrite Hbuf)) as Hr. destruct (read b) as [[a b']| |]; [|done..].
    destruct Hr as (Hb' & Hwf' & Ho). cbn [fst]. split; [split; [congruence|done]|].
    unfold cap, wf in *. rewrite Hb'. rewrite Hb' in Hwf'. lia.
  - split; [done|]. split; cbn; blia.
  - unfold cap, with_slice. cbn [fst buf off]. unfold blen. lia.
Qed.

Lemma capsule_of_safe kind value : all_bytes value -> capsule_of kind value <> Panic.
Proof.
  intros Hb. unfold capsule_of, parse_address_assign, parse_route_advertisement, read_all.
  destruct (read_all_loop read_assigned value reads_assigned Hb) as (r1 & -> & H1).
  destruct (read_all_loop read_route value reads_route Hb) as (r2 & -> & H2).
  repeat case_match; try done; (by destruct r1) || (by destruct r2).
Qed.

(** The payload of a datagram is a part of the buffer. *)
Definition payload_in (p : CapsuleParser) (c : Capsule) : Prop :=
  match c with CDatagram v => exists lo hi, v = sub p lo hi | _ => True end.

Lemma capsule_of_payload p kind lo hi c : capsule_of kind (sub p lo hi) = Ok c -> payload_in p c.
Proof.
  unfold capsule_of, payload_in. intros Hc.
  repeat case_match; simplify_eq/=; try done; (by eauto) || (by destruct (parse_address_assign _); simplify_eq/=)
    || (by destruct (parse_route_advertisement _); simplify_eq/=).
Qed.

Lemma next_safe_aux p :
  all_bytes p ->
  match next p with
  | (p', Ok None) => p' = p
  | (p', Ok (Some c)) => (exists k, p = k ++ p' /\ 2 <= blen k) /\ payload_in p c
  | (p', Err _) => exists k, p = k ++ p' /\ 2 <= blen k
  | (_, Panic) => False
  end.
Proof.
  intros Hb. unfold next. assert (Hwf : wf (with_slice p)) by (split; cbn; blia).
  destruct (get_varint_safe (with_slice p) Hwf Hb) as [-> | (kind & n & -> & Hn & _)]; [done|].
  set (b1 := mkOctets _ _). assert (Hwf1 : wf b1) by (unfold cap in Hn; split; cbn in *; lia).
  destruct (get_varint_safe b1 Hwf1 Hb) as [-> | (len & m & -> & Hm & Hlen)]; [done|].
  set (b2 := mkOctets (buf b1) _). unfold cap in Hn, Hm. cbn [buf off b1 with_slice] in Hn, Hm.
  assert (Hwf2 : wf b2) by (split; cbn; lia).
  pose proof (get_bytes_safe len b2 Hwf2 ltac:(lia)) as Hg. destruct (cap b2 <? len) eqn:Hc; [done|].
  rewrite Hg, to_vec_all. zbool. unfold cap in Hc. cbn [buf off b1 b2 with_slice] in *.
  rewrite slice_ok by lia.
  pose proof (capsule_of_safe kind (sub p (0 + n + m) (0 + n + m + len))) as Hcap.
  assert (Hk : exists k, p = k ++ sub p (0 + n + m + len) (blen p) /\ 2 <= blen k).
  { exists (sub p 0 (0 + n + m + len)). split; [|rewrite blen_sub by lia; lia].
    rewrite (sub_split p 0 (0 + n + m + len)) at 1 by lia. by rewrite (sub_empty p 0 0) by lia. }
  destruct (capsule_of kind _) as [c| |] eqn:Hcap'; cbn [fmap res_fmap]; [|done|by apply Hcap; [apply Forall_sub|]].
  split; [done|]. by eapply capsule_of_payload.
Qed.

Lemma push_bounded p d : blen (push p d) <= MAX_CAPSULE_BUF.
Proof.
  unfold push, saturating_add. zcase; [done|]. unfold MAX_CAPSULE_BUF, USIZE_MAX, U64_MAX in *. blia.
Qed.

Lemma next_shrinks p : all_bytes p -> exists k, p = k ++ (next p).1.
Proof.
  intros Hb. pose proof (next_safe_aux p Hb) as Hn. destruct (next p) as [p' [[c|]|e|]]; cbn in *.
  - destruct Hn as [(k & -> & _) _]. eauto.
  - subst. by exists [].
  - destruct Hn as (k & -> & _). eauto.
  - done.
Qed.

(** Whatever bytes arrive, [next] does not panic: it returns [Ok(None)] and
    keeps the buffer, or returns a capsule or an error and removes at least two
    bytes from its front; and [push] never leaves more than [MAX_CAPSULE_BUF]
    bytes in the buffer. *)
Theorem parser_safe p d :
  all_bytes p ->
  blen (push p d) <= MAX_CAPSULE_BUF
  /\ match next p with
     | (p', Ok None) => p' = p
     | (p', Ok (Some _)) | (p', Err _) => exists k, p = k ++ p' /\ 2 <= blen k
     | (_, Panic) => False
     end.
Proof.
  intros Hb. split; [apply push_bounded|]. pose proof (next_safe_aux p Hb) as Hn.
  destruct (next p) as [p' [[c|]|e|]]; [by destruct Hn|done..].
Qed.

(** ** Stripping the context *)

Lemma strip_safe payload : all_bytes payload -> exists r, strip_datagram_context payload = Ok r.
Proof.
  intros Hb. unfold strip_datagram_context. case_bool_decide; [by eexists|].
  assert (Hwf : wf (with_slice payload)) by (split; cbn; blia).
  destruct (get_varint_safe (with_slice payload) Hwf Hb) as [-> | (v & n & -> & Hn & _)]; [by eexists|].
  zcase; [|by eexists]. unfold cap in *. cbn in Hn. cbn [buf off with_slice] in *.
  rewrite slice_ok by lia. by eexists.
Qed.

(** An IP packet after its context identifier. *)
Lemma strip_context pkt : looks_like_ip_packet pkt = true -> strip_datagram_context (0 :: pkt) = Ok (Some pkt).
Proof.
  intros Hp. unfold strip_datagram_context. rewrite bool_decide_eq_false_2 by done.
  rewrite (get_varint_at (with_slice (0 :: pkt)) [] 0 pkt) by (done || (unfold MAX_VAR_INT; lia)).
  change (0 =? CONNECT_IP_CONTEXT_ID) with true. unfold cap. cbn [buf off with_slice].
  change (0 + varint_width 0) with 1. rewrite slice_ok by blia. rsimp.
  rewrite (sub_at (0 :: pkt) [0] pkt []) by ((by rewrite app_nil_r) || blia). by rewrite Hp.
Qed.

(** The first byte of an IP packet is the first of a two-byte varint. *)
Lemma ip_first_byte pkt :
  all_bytes pkt -> looks_like_ip_packet pkt = true -> bget pkt 0 <> Some 64 ->
  exists v, get_varint (with_slice pkt) = Ok (v, mkOctets pkt 2) /\ v <> 0.
Proof.
  intros Hb Hp Hne. unfold looks_like_ip_packet in Hp. destruct pkt as [|f t]; [done|].
  rewrite bget_cons_0 in Hp, Hne. apply andb_prop in Hp as [H Hl]. apply Z.leb_le in Hl.
  destruct t as [|g t]; [blia|]. apply orb_true_iff in H. apply Forall_cons in Hb as [Hf Hb]. apply Forall_cons in Hb as [Hg _]. unfold is_byte in *.
  assert (Hrange : 65 <= f <= 79 \/ 96 <= f <= 111).
  { rewrite !Z.shiftr_div_pow2 in H by lia. change (2 ^ 4) with 16 in H.
    pose proof (Z.div_mod f 16 ltac:(lia)). pose proof (Z.mod_pos_bound f 16 ltac:(lia)).
    assert (f <> 64) by congruence. destruct H as [H|H]; apply Z.eqb_eq in H; lia. }
  exists (Z.land (f * 256 + g) 16383). split.
  - unfold get_varint, peek_u8.
    destruct (get_u_at 1 (with_slice (f :: g :: t)) [] [f] (g :: t)) as [-> _]; [done..|]. rsimp.
    change (be_combine [f]) with (0 * 256 + f). unfold varint_parse_len.
    rewrite Z.shiftr_div_pow2 by lia. change (2 ^ 6) with 64.
    replace ((0 * 256 + f) / 64) with 1 by (apply (Z.div_unique _ _ _ (f - 64)); lia). rsimp.
    unfold cap. cbn [buf off with_slice]. rewrite (proj2 (Z.ltb_ge _ _)) by blia. cbn [Z.eqb Pos.eqb].
    destruct (get_u_at 2 (with_slice (f :: g :: t)) [] [f; g] t) as [_ Hget]; [done..|].
    unfold get_u16. rewrite Hget. rsimp. do 2 f_equal.
  - change 16383 with (Z.ones 14). rewrite Z.land_ones by lia. change (2 ^ 14) with 16384.
    pose proof (Z.div_mod (f * 256 + g) 16384 ltac:(lia)).
    assert ((f * 256 + g) / 16384 = 1) by (symmetry; apply (Z.div_unique _ _ _ (f * 256 + g - 16384)); lia). lia.
Qed.

(** The payload of a datagram capsule that is an IP packet, with or without a
    context identifier before it, gives the packet; a bare packet must not start
    with the byte 64 (a header length of zero). *)
Theorem strip_datagram_context_ip pkt :
  all_bytes pkt -> looks_like_ip_packet pkt = true ->
  strip_datagram_context (0 :: pkt) = Ok (Some pkt)
  /\ (bget pkt 0 <> Some 64 -> strip_datagram_context pkt = Ok (Some pkt)).
Proof.
  intros Hb Hp. split; [by apply strip_context|]. intros Hne.
  destruct (ip_first_byte pkt Hb Hp Hne) as (v & Hv & Hnz). unfold strip_datagram_context.
  rewrite bool_decide_eq_false_2 by (by intros ->). rewrite Hv, Hp.
  by rewrite (proj2 (Z.eqb_neq _ _)).
Qed.

(** ** Control capsules round trip *)

Section read_all_enc.
Context {A : Type} (read : Octets -> res AetherError (A * Octets)) (enc : A -> bytes) (good : A -> Prop).
Hypothesis read_enc : forall a pre post, good a ->
  read (mkOctets (pre ++ enc a ++ post) (blen pre))
  = Ok (a, mkOctets (pre ++ enc a ++ post) (blen pre + blen (enc a))).
Hypothesis enc_pos : forall a, 0 < blen (enc a).

Lemma read_all_loop_enc l : forall pre out fuel,
  Forall good l -> (length l < fuel)%nat ->
  loop fuel (read_all_step read) (mkOctets (pre ++ concat (map enc l)) (blen pre), out) = Some (Ok (out ++ l)).
Proof.
  induction l as [|a l IH]; intros pre out fuel Hl Hf; (destruct fuel as [|fuel]; [cbn in Hf; lia|]).
  - apply loop_exit. cbn [read_all_step map concat]. unfold cap. cbn [buf off].
    rewrite !app_nil_r. rewrite Z.sub_diag. done.
  - apply Forall_cons in Hl as [Ha Hl]. cbn [map concat length] in *.
    rewrite (loop_step _ _ _ (mkOctets ((pre ++ enc a) ++ concat (map enc l)) (blen (pre ++ enc a)), out ++ [a])).
    + rewrite IH by (done || lia). by rewrite <- app_assoc.
    + cbn [read_all_step]. unfold cap. cbn [buf off]. pose proof (enc_pos a).
      rewrite (proj2 (Z.ltb_lt _ _)) by blia. rewrite read_enc by done. by rewrite <- app_assoc, blen_app.
Qed.

Lemma read_all_enc l : Forall good l -> read_all read (concat (map enc l)) = Ok l.
Proof.
  intros Hl. unfold read_all.
  assert (length l <= length (concat (map enc l)))%nat as Hlen.
  { clear Hl. induction l as [|a l IH]; [done|]. cbn [map concat length]. rewrite length_app.
    pose proof (enc_pos a) as Hp. unfold blen in Hp. lia. }
  change (with_slice (concat (map enc l))) with (mkOctets ([] ++ concat (map enc l)) (blen (@nil Z))).
  by rewrite read_all_loop_enc by (done || lia).
Qed.
End read_all_enc.

Definition version_len (v : Z) (l : bytes) : Prop := (v = 4 /\ blen l = 4) \/ (v = 6 /\ blen l = 16).
Definition enc_assigned (a : AssignedAddress) : bytes :=
  enc_varint (request_id a) ++ [aa_ip_version a] ++ address a ++ [prefix_len a].
Definition assigned_wf (a : AssignedAddress) : Prop :=
  0 <= request_id a <= MAX_VAR_INT /\ version_len (aa_ip_version a) (address a).
Definition enc_route (r : RouteAdvertisement) : bytes :=
  [ra_ip_version r] ++ start r ++ end_ r ++ [protocol r].
Definition route_wf (r : RouteAdvertisement) : Prop :=
  version_len (ra_ip_version r) (start r) /\ version_len (ra_ip_version r) (end_ r).

Lemma addr_len_of_version v l : version_len v l -> addr_len_of v = Ok (blen l).
Proof. intros [[-> ->]|[-> ->]]; done. Qed.

Lemma get_u8_at b pre x post :
  buf b = pre ++ x :: post -> off b = blen pre -> get_u8 b = Ok (x, mkOctets (buf b) (off b + 1)).
Proof. intros Hb Ho. exact (proj2 (get_u_at 1 b pre [x] post Hb Ho eq_refl)). Qed.

Lemma read_vec_at b pre mid post len :
  buf b = pre ++ mid ++ post -> off b = blen pre -> blen mid = len ->
  read_vec len b = Ok (mid, mkOctets (buf b) (off b + len)).
Proof.
  intros Hb Ho Hl. unfold read_vec. rewrite (get_bytes_at len b pre mid post) by done. cbn [map_err]. rsimp.
  by rewrite to_vec_all.
Qed.

Lemma read_assigned_enc a pre post :
  assigned_wf a ->
  read_assigned (mkOctets (pre ++ enc_assigned a ++ post) (blen pre))
  = Ok (a, mkOctets (pre ++ enc_assigned a ++ post) (blen pre + blen (enc_assigned a))).
Proof.
  intros [Hid Hv]. unfold read_assigned. set (l := pre ++ enc_assigned a ++ post).
  assert (Hl : l = pre ++ enc_varint (request_id a) ++ [aa_ip_version a] ++ address a ++ [prefix_len a] ++ post)
    by (unfold l, enc_assigned; solve_app). clearbody l.
  rewrite (get_varint_at _ pre (request_id a) ([aa_ip_version a] ++ address a ++ [prefix_len a] ++ post)) by done.
  cbn [map_err]. rsimp. cbn [buf off].
  rewrite (get_u8_at _ (pre ++ enc_varint (request_id a)) (aa_ip_version a) (address a ++ [prefix_len a] ++ post))
    by ((cbn; rewrite Hl; solve_app) || (cbn [off]; rewrite blen_app, blen_enc_varint; lia)).
  cbn [map_err]. rsimp. cbn [buf off]. rewrite (addr_len_of_version _ _ Hv). rsimp.
  rewrite (read_vec_at _ (pre ++ enc_varint (request_id a) ++ [aa_ip_version a]) (address a) ([prefix_len a] ++ post))
    by (done || (cbn; rewrite Hl; solve_app) || (cbn [off]; rewrite !blen_app, blen_enc_varint, blen_cons; blia)).
  rsimp. cbn [buf off].
  rewrite (get_u8_at _ (pre ++ enc_varint (request_id a) ++ [aa_ip_version a] ++ address a) (prefix_len a) post)
    by ((cbn; rewrite Hl; solve_app) || (cbn [off]; rewrite !blen_app, blen_enc_varint, blen_cons; blia)).
  cbn [map_err]. rsimp. cbn [buf off]. destruct a; cbn. do 3 f_equal.
  unfold enc_assigned. cbn. rewrite blen_app, blen_enc_varint. blia.
Qed.

Lemma read_route_enc r pre post :
  route_wf r ->
  read_route (mkOctets (pre ++ enc_route r ++ post) (blen pre))
  = Ok (r, mkOctets (pre ++ enc_route r ++ post) (blen pre + blen (enc_route r))).
Proof.
  intros [Hs He]. unfold read_route. set (l := pre ++ enc_route r ++ post).
  assert (Hl : l = pre ++ [ra_ip_version r] ++ start r ++ end_ r ++ [protocol r] ++ post)
    by (unfold l, enc_route; solve_app). clearbody l.
  rewrite (get_u8_at _ pre (ra_ip_version r) (start r ++ end_ r ++ [protocol r] ++ post)) by (done || (cbn; rewrite Hl; done)).
  cbn [map_err]. rsimp. cbn [buf off]. rewrite (addr_len_of_version _ _ Hs). rsimp.
  rewrite (read_vec_at _ (pre ++ [ra_ip_version r]) (start r) (end_ r ++ [protocol r] ++ post))
    by (done || (cbn; rewrite Hl; solve_app) || (cbn [off]; blia)).
  rsimp. cbn [buf off].
  assert (Hlen : blen (end_ r) = blen (start r)) by (destruct Hs as [[]|[]], He as [[]|[]]; lia).
  rewrite (read_vec_at _ (pre ++ [ra_ip_version r] ++ start r) (end_ r) ([protocol r] ++ post))
    by (done || (cbn; rewrite Hl; solve_app) || (cbn [off]; blia)).
  rsimp. cbn [buf off].
  rewrite (get_u8_at _ (pre ++ [ra_ip_version r] ++ start r ++ end_ r) (protocol r) post)
    by ((cbn; rewrite Hl; solve_app) || (cbn [off]; blia)).
  cbn [map_err]. rsimp. cbn [buf off]. destruct r; cbn in *. do 3 f_equal. unfold enc_route. cbn. blia.
Qed.

(** The values of the ADDRESS_ASSIGN and ROUTE_ADVERTISEMENT capsules are
    parsed to exactly the addresses and routes they encode. *)
Theorem control_capsules_roundtrip addrs routes :
  Forall assigned_wf addrs -> Forall route_wf routes ->
  capsule_of CAPSULE_ADDRESS_ASSIGN (concat (map enc_assigned addrs)) = Ok (CAddressAssign addrs)
  /\ capsule_of CAPSULE_ROUTE_ADVERTISEMENT (concat (map enc_route routes)) = Ok (CRouteAdvertisement routes).
Proof.
  intros Ha Hr. unfold capsule_of. cbn [Z.eqb Pos.eqb CAPSULE_ADDRESS_ASSIGN CAPSULE_ROUTE_ADVERTISEMENT].
  unfold parse_address_assign, parse_route_advertisement. split.
  - rewrite (read_all_enc read_assigned enc_assigned assigned_wf); [done|apply read_assigned_enc| |done].
    intros a. unfold enc_assigned. blia.
  - rewrite (read_all_enc read_route enc_route route_wf); [done|apply read_route_enc| |done].
    intros a. unfold enc_route. blia.
Qed.

(** ** Draining *)

Lemma drain_step_cases d :
  all_bytes (d_parser d) ->
  match drain_step d with
  | inl d' => exists k, d_parser d = k ++ d_parser d' /\ 2 <= blen k
  | inr (Some d') => exists k, d_parser d = k ++ d_parser d'
  | inr None => False
  end.
Proof.
  intros Hb. unfold drain_step. pose proof (next_safe_aux (d_parser d) Hb) as Hn.
  destruct (next (d_parser d)) as [p' [[c|]|e|]].
  - destruct Hn as [(k & Hk & Hlen) Hin].
    destruct c as [| |payload| |]; cbn [d_parser]; try by eauto.
    destruct (strip_safe payload) as [[pkt|] ->]; [destruct Hin as (lo & hi & ->); by apply Forall_sub| |by eauto].
    destruct (try_send _ _) as [tx [| |]]; cbn [d_parser]; eauto.
  - cbn [d_parser]. subst. by exists [].
  - destruct Hn as (k & Hk & _). cbn [d_parser]. eauto.
  - done.
Qed.

(** Draining the parser ends within its fuel on every buffer, without a panic,
    and leaves the bytes it did not consume. *)
Theorem drain_capsules_total d :
  all_bytes (d_parser d) ->
  exists d', drain_capsules d = Some d' /\ exists k, d_parser d = k ++ d_parser d'.
Proof.
  intros Hb. unfold drain_capsules.
  destruct (loop_correct drain_step
    (fun s => exists k, d_parser d = k ++ d_parser s)
    (fun r => match r with Some d' => exists k, d_parser d = k ++ d_parser d' | None => False end)
    (fun s => length (d_parser s))) with (fuel := S (length (d_parser d)))
    (s := mkDrain (d_parser d) (d_inbound d) (d_addrs d) false) as (r & -> & Hr).
  - intros s [k Hk]. assert (Hbs : all_bytes (d_parser s)) by (rewrite Hk in Hb; by apply all_bytes_app in Hb as [_ ?]).
    pose proof (drain_step_cases s Hbs) as Hs. destruct (drain_step s) as [s'|[s'|]]; [..|done].
    + destruct Hs as (k' & Hk' & Hlen). split; [exists (k ++ k'); by rewrite Hk, Hk', app_assoc|].
      rewrite Hk', length_app. unfold blen in Hlen. lia.
    + destruct Hs as (k' & Hk'). exists (k ++ k'). by rewrite Hk, Hk', app_assoc.
  - by exists [].
  - cbn. lia.
  - destruct r as [d'|]; [|done]. by exists d'.
Qed.

(** A datagram capsule that carries an IP packet after the context identifier. *)
Definition packet_capsule (pkt : bytes) : Z * bytes := (CAPSULE_DATAGRAM, 0 :: pkt).

Lemma drain_packets pkts : forall fuel items room addrs delivered rest,
  Forall (fun pkt => capsule_wf (packet_capsule pkt) /\ looks_like_ip_packet pkt = true) pkts ->
  blen items + blen pkts <= room -> (length pkts < fuel)%nat -> next rest = (rest, Ok None) ->
  loop fuel drain_step (mkDrain (enc_stream (map packet_capsule pkts) ++ rest) (mkChan items room false) addrs delivered)
  = Some (Some (mkDrain rest (mkChan (items ++ pkts) room false) addrs (delivered || (0 <? blen pkts)))).
Proof.
  induction pkts as [|pkt pkts IH]; intros fuel its room addrs delivered rest Hp Hroom Hf Hrest;
    (destruct fuel as [|fuel]; [cbn in Hf; lia|]).
  - apply loop_exit. unfold drain_step. cbn [d_parser map enc_stream concat app d_inbound d_addrs d_delivered].
    rewrite Hrest. by rewrite app_nil_r, orb_false_r.
  - apply Forall_cons in Hp as [[Hc Hip] Hp]. cbn [map length] in *. autorewrite with blens in Hroom.
    rewrite (loop_step _ _ _ (mkDrain (enc_stream (map packet_capsule pkts) ++ rest)
      (mkChan (its ++ [pkt]) room false) addrs true)).
    + rewrite IH by (done || lia || blia). rewrite <- app_assoc. autorewrite with blens.
      rewrite (proj2 (Z.ltb_lt _ (1 + _))) by blia. by rewrite orb_true_r.
    + change (enc_stream (packet_capsule pkt :: ?l)) with (enc_capsule (packet_capsule pkt) ++ enc_stream l).
      unfold drain_step. cbn [d_parser d_inbound d_addrs d_delivered]. rewrite <- app_assoc, next_whole by done.
      change (capsule_of _ _) with (@Ok AetherError _ (CDatagram (0 :: pkt))). cbn [fmap res_fmap].
      rewrite strip_context by done. unfold try_send. cbn [closed items capacity].
      by rewrite (proj2 (Z.ltb_lt _ _)) by blia.
Qed.

(** When the buffer holds datagram capsules of IP packets and the channel has
    room, draining sends exactly these packets, in order, and an incomplete capsule
    after them stays in the buffer. *)
Theorem drain_capsules_delivers d pkts c rest future :
  Forall (fun pkt => capsule_wf (packet_capsule pkt) /\ looks_like_ip_packet pkt = true) pkts ->
  capsule_wf c -> rest ++ future = enc_capsule c -> future <> [] ->
  d_parser d = enc_stream (map packet_capsule pkts) ++ rest ->
  closed (d_inbound d) = false -> blen (items (d_inbound d)) + blen pkts <= capacity (d_inbound d) ->
  drain_capsules d
  = Some (mkDrain rest (mkChan (items (d_inbound d) ++ pkts) (capacity (d_inbound d)) false) (d_addrs d)
            (0 <? blen pkts)).
Proof.
  intros Hp Hc Hrest Hfut Hd Hopen Hroom. unfold drain_capsules. rewrite Hd.
  destruct (d_inbound d) as [its room cl]. cbn [closed items capacity] in *. subst cl.
  rewrite drain_packets; [done|done|done| |].
  - rewrite length_app. assert (length pkts <= length (enc_stream (map packet_capsule pkts)))%nat; [|lia].
    clear. induction pkts as [|pkt pkts IH]; [done|]. cbn [map length].
    change (enc_stream (?x :: ?l)) with (enc_capsule x ++ enc_stream l). rewrite length_app.
    pose proof (enc_capsule_long (packet_capsule pkt)) as Hl. unfold blen in Hl. lia.
  - apply (next_incomplete c rest future []); [done|by rewrite app_nil_r|].
    rewrite <- Hrest. destruct future; [done|]. blia.
Qed.

(** ** The header checksum *)

(** The sum of the 16-bit words of a header. *)
Fixpoint words (l : bytes) : Z :=
  match l with
  | a :: b :: t => u16_be a b + words t
  | [a] => Z.shiftl a 8
  | [] => 0
  end.

Lemma words_bound l : all_bytes l -> 0 <= words l <= 65535 * blen l.
Proof.
  induction l as [|a|a b l IH] using list_pair_ind; intros Hb; cbn [words].
  - done.
  - apply Forall_cons in Hb as [Ha _]. rewrite Z.shiftl_mul_pow2 by lia. unfold is_byte in Ha.
    autorewrite with blens. lia.
  - apply Forall_cons in Hb as [Ha Hb]. apply Forall_cons in Hb as [Hb Hl]. specialize (IH Hl).
    pose proof (u16_be_bound a b Ha Hb). unfold U16_MAX in *. autorewrite with blens. lia.
Qed.

Lemma sum_words_eq l : forall acc,
  all_bytes l -> 0 <= acc -> acc + words l < 2 ^ 32 -> sum_words l acc = acc + words l.
Proof.
  induction l as [|a|a b l IH] using list_pair_ind; intros acc Hb Hacc Hlt; cbn [words sum_words] in *.
  - lia.
  - apply Forall_cons in Hb as [Ha _]. unfold is_byte in Ha. unfold wrap_u32.
    rewrite Z.shiftl_mul_pow2 in * by lia. apply Z.mod_small. lia.
  - apply Forall_cons in Hb as [Ha Hb]. apply Forall_cons in Hb as [Hb Hl].
    pose proof (u16_be_bound a b Ha Hb). pose proof (words_bound l Hl). unfold wrap_u32.
    rewrite Z.mod_small by lia. rewrite IH by (done || lia). lia.
Qed.

Lemma words_app l k : Nat.even (length l) = true -> words (l ++ k) = words l + words k.
Proof.
  induction l as [|a|a b l IH] using list_pair_ind; intros He; [done..|].
  cbn [app words]. rewrite IH by done. lia.
Qed.

(** Folding keeps the value modulo 65535 and ends after at most three rounds. *)
Lemma fold_checksum s :
  0 <= s < 2 ^ 32 ->
  exists f, loop 4 fold_step s = Some f /\ 0 <= f <= 65535 /\ f mod 65535 = s mod 65535 /\ (f = 0 <-> s = 0).
Proof.
  intros Hs.
  apply (loop_correct fold_step
    (fun x => 0 <= x < 2 ^ 32 /\ x mod 65535 = s mod 65535 /\ (x = 0 <-> s = 0))
    (fun f => 0 <= f <= 65535 /\ f mod 65535 = s mod 65535 /\ (f = 0 <-> s = 0))
    (fun x => if Z.leb x 65535 then 0%nat else if Z.leb x 131070 then 1%nat else 2%nat)).
  - intros x (Hx & Hm & Hz). unfold fold_step. rewrite Z.shiftr_div_pow2 by lia.
    change 65535 with (Z.ones 16) at 1. rewrite Z.land_ones by lia. change (2 ^ 16) with 65536.
    pose proof (Z.div_mod x 65536 ltac:(lia)) as Hdm. pose proof (Z.mod_pos_bound x 65536 ltac:(lia)).
    set (q := x / 65536) in *. set (r := x mod 65536) in *. clearbody q r.
    destruct (q =? 0) eqn:Hq; zbool.
    + split; [lia|]. by split.
    + split.
      * split; [lia|]. split; [|lia]. rewrite <- Hm, Hdm.
        replace (65536 * q + r) with ((r + q) + q * 65535) by lia. by rewrite Z.mod_add by lia.
      * repeat zcase; lia.
  - done.
  - repeat zcase; lia.
Qed.

(** The checksum of a header makes the header verify: summed over the filled
    header it gives zero. *)
Lemma ipv4_checksum_verifies pre post :
  Nat.even (length pre) = true -> all_bytes pre -> all_bytes post -> blen pre + blen post <= 65533 ->
  let header c := pre ++ be16_bytes c ++ post in
  ipv4_header_checksum (header (ipv4_header_checksum (header 0))) = 0.
Proof.
  intros He Hpre Hpost Hlen header.
  assert (Hb : forall c, all_bytes (header c))
    by (intros c; unfold header; rewrite !all_bytes_app; auto using be16_bytes_all).
  assert (Hw : forall c, 0 <= c <= U16_MAX -> words (header c) = words pre + c + words post).
  { intros c Hc. unfold header. rewrite words_app by done. rewrite be16_bytes_spec. cbn [app words].
    rewrite u16_be_roundtrip by done. lia. }
  assert (Hsum : forall c, sum_words (header c) 0 = words (header c) /\ 0 <= words (header c) < 2 ^ 32).
  { intros c. pose proof (words_bound (header c) (Hb c)) as Hbd.
    assert (blen (header c) <= 65535) by (unfold header; blia).
    rewrite sum_words_eq by (done || lia). lia. }
  unfold ipv4_header_checksum at 2. destruct (Hsum 0) as [-> Hr0].
  destruct (fold_checksum _ Hr0) as (f & -> & Hf & Hmod & Hz). cbn [default]. unfold wrap_u16.
  rewrite (Z.mod_small f) by lia. rewrite Hw in Hmod, Hz by (unfold U16_MAX; lia).
  unfold ipv4_header_checksum. destruct (Hsum (65535 - f)) as [-> Hr1].
  destruct (fold_checksum _ Hr1) as (g & -> & Hg & Hmod' & Hz'). cbn [default]. unfold wrap_u16.
  rewrite (Z.mod_small g) by lia. rewrite Hw in Hmod', Hz' by (unfold U16_MAX; lia).
  pose proof (words_bound pre Hpre). pose proof (words_bound post Hpost).
  assert (Hzero : g mod 65535 = 0).
  { rewrite Hmod'. replace (words pre + (65535 - f) + words post) with ((words pre + 0 + words post - f) + 1 * 65535) by lia.
    rewrite Z.mod_add by lia. rewrite Zminus_mod, <- Hmod, Z.sub_diag. done. }
  apply Z.div_exact in Hzero; [|lia]. assert (g <> 0) by lia.
  pose proof (Z.div_pos g 65535 ltac:(lia) ltac:(lia)). lia.
Qed.

Lemma probe_query_eq id :
  probe_dns_query id
  = RouteDns.enc_query (RouteDns.mkQuery (be16_bytes id) 1 0 (replicate 6 0) [lit "cloudflare"; lit "com"] 1 1).
Proof. reflexivity. Qed.

Lemma probe_name_ok : RouteDns.name_ok [lit "cloudflare"; lit "com"].
Proof. split; [done|]. split; [cbn; lia|]. repeat constructor; vm_compute; congruence. Qed.

(** The probe packet is an IPv4 packet whose header checksum verifies, whose
    length fields match its size, and whose payload is a DNS query for
    cloudflare.com. *)
Theorem probe_packet_valid src ip_id dns_id sport :
  exists pkt, build_dns_probe_packet src ip_id dns_id sport = Ok pkt
    /\ looks_like_ip_packet pkt = true
    /\ ipv4_header_checksum (sub pkt 0 20) = 0
    /\ sub pkt 2 4 = be16_bytes (blen pkt) /\ sub pkt 24 26 = be16_bytes (blen pkt - 20)
    /\ sub pkt 12 16 = octets (V4 src)
    /\ RouteDns.dns_question (sub pkt 28 (blen pkt)) = Ok (lit "cloudflare.com", blen pkt - 28).
Proof.
  unfold build_dns_probe_packet. cbn zeta.
  assert (Hd : blen (probe_dns_query dns_id) = 32) by done.
  set (pre := [69; 0] ++ be16_bytes 60 ++ be16_bytes ip_id ++ [0; 0; 64; 17]).
  set (post := octets (V4 src) ++ octets (V4 (v4_new 8 8 8 8))).
  rewrite Hd. change (wrap_u16 (20 + (8 + 32))) with 60. change (wrap_u16 (8 + 32)) with 40.
  change ([69] ++ [0] ++ be16_bytes 60 ++ be16_bytes ip_id ++ [0; 0] ++ [64] ++ [17] ++ [0; 0] ++ ?t)
    with (pre ++ be16_bytes 0 ++ t).
  fold post. assert (Hpost : blen post = 8) by done.
  rewrite !slice_ok by (vm_compute; congruence). rsimp.
  rewrite (sub_at _ [] (pre ++ be16_bytes 0 ++ post) []) by ((by rewrite app_nil_r) || done).
  pose proof (ipv4_checksum_verifies pre post) as Hck. cbn zeta in Hck.
  set (c := ipv4_header_checksum (pre ++ be16_bytes 0 ++ post)) in *.
  assert (Hsp : splice (pre ++ be16_bytes 0 ++ post) 10 (be16_bytes c) = pre ++ be16_bytes c ++ post).
  { unfold splice. rewrite (sub_at _ [] pre (be16_bytes 0 ++ post)) by done.
    rewrite (sub_at _ (pre ++ be16_bytes 0) post []) by ((rewrite app_nil_r; solve_app) || done). done. }
  rewrite Hsp. eexists. split; [done|].
  assert (Hpkt : blen ((pre ++ be16_bytes c ++ post) ++ be16_bytes sport ++ be16_bytes 53 ++ be16_bytes 40
                       ++ [0; 0] ++ probe_dns_query dns_id) = 60) by done.
  rewrite Hpkt. split; [done|]. split; [|split; [|split; [|split]]].
  - rewrite (sub_at _ [] (pre ++ be16_bytes c ++ post) (be16_bytes sport ++ be16_bytes 53 ++ be16_bytes 40
      ++ [0; 0] ++ probe_dns_query dns_id)) by done.
    apply Hck; [done|..|done].
    + unfold pre. rewrite !all_bytes_app. repeat split; try apply be16_bytes_all; repeat constructor; vm_compute; congruence.
    + apply all_bytes_app. split; apply be_bytes_all.
  - done.
  - done.
  - by rewrite (sub_at _ (pre ++ be16_bytes c) (octets (V4 src)) (octets (V4 (v4_new 8 8 8 8)) ++ be16_bytes sport ++ be16_bytes 53 ++ be16_bytes 40
      ++ [0; 0] ++ probe_dns_query dns_id)) by (done || (unfold post; solve_app)).
  - rewrite (sub_at _ (pre ++ be16_bytes c ++ post ++ be16_bytes sport ++ be16_bytes 53 ++ be16_bytes 40 ++ [0; 0])
      (probe_dns_query dns_id) []) by (done || (rewrite app_nil_r; solve_app)).
    rewrite probe_query_eq. rewrite <- (app_nil_r (RouteDns.enc_query _)).
    rewrite RouteDns.dns_question_enc; [done|]. split; [done|]. split; [done|]. split; [done|apply probe_name_ok].
Qed.

(** ** Witnesses *)

Lemma ip_datagram_roundtrip_witness :
  exists d, encode_ip_datagram 8 [69; 0] = Ok d /\ decode_ip_datagram d 8 = Ok (Some [69; 0]).
Proof. apply (ip_datagram_roundtrip 8 8 [69; 0]). unfold U64_MAX. lia. Defined.

Definition example_packet : bytes := 69 :: replicate 19 7.

Lemma example_packet_ok :
  capsule_wf (packet_capsule example_packet) /\ looks_like_ip_packet example_packet = true.
Proof. split; [|done]. split; [done|]. split; [done|]. repeat constructor; vm_compute; congruence. Qed.

Definition example_assigned : AssignedAddress := mkAssigned 7 4 [10; 0; 0; 2] 32.

Lemma capsule_stream_chunked_witness :
  feed CapsuleParser_new [[1; 7; 7; 4]; [10; 0; 0]; [2; 32; 66; 0; 1; 9]]
  = ([], [CAddressAssign [example_assigned]; CUnknown 512 [9]]).
Proof.
  apply (capsule_stream_chunked [(1, enc_assigned example_assigned); (512, [9])]).
  - repeat constructor; vm_compute; congruence.
  - repeat constructor.
  - reflexivity.
  - repeat constructor; vm_compute; congruence.
Defined.

Lemma parser_safe_witness : blen (push [0; 64; 200] (replicate 9 1)) <= MAX_CAPSULE_BUF.
Proof. apply parser_safe. repeat constructor; vm_compute; congruence. Defined.

Lemma strip_datagram_context_ip_witness :
  strip_datagram_context (0 :: example_packet) = Ok (Some example_packet)
  /\ strip_datagram_context example_packet = Ok (Some example_packet).
Proof.
  destruct (strip_datagram_context_ip example_packet) as [H1 H2].
  - repeat constructor; vm_compute; congruence.
  - reflexivity.
  - split; [done|]. by apply H2.
Defined.

Lemma control_capsules_roundtrip_witness :
  capsule_of 1 (enc_assigned example_assigned ++ []) = Ok (CAddressAssign [example_assigned]).
Proof.
  apply (control_capsules_roundtrip [example_assigned] [mkRoute 4 [0; 0; 0; 0] [255; 255; 255; 255] 0]).
  - constructor; [|constructor]. split; [vm_compute; split; congruence|]. by left.
  - constructor; [|constructor]. by split; left.
Defined.

Definition example_drain (p : bytes) : Drain := mkDrain p (mkChan [] 4 false) None false.

Lemma drain_capsules_total_witness : exists d', drain_capsules (example_drain [1; 1; 9; 64]) = Some d'.
Proof.
  destruct (drain_capsules_total (example_drain [1; 1; 9; 64])) as (d' & Hd & _);
    [repeat constructor; vm_compute; congruence|eauto].
Defined.

Lemma drain_capsules_delivers_witness :
  drain_capsules (example_drain (enc_stream [packet_capsule example_packet] ++ [64]))
  = Some (mkDrain [64] (mkChan [example_packet] 4 false) None true).
Proof.
  apply (drain_capsules_delivers (example_drain (enc_stream [packet_capsule example_packet] ++ [64]))
    [example_packet] (100, []) [64] [100; 0]); try done.
  - constructor; [apply example_packet_ok|constructor].
  - repeat split; (vm_compute; congruence) || constructor.
Defined.

End Masque.
