(* ===== verification/Prober.v ===== *)
(** * The probers ([aether/src/prober.rs], [aether/src/wg_prober.rs])

    Which addresses a scan tries (the built-in gateways and ranges, or the ranges of the
    settings), on which ports, and the loop that picks one of those that answered; the
    ranges and ports of WireGuard are those of [wireguard.rs].  The generator is a list
    of words and the rand crate's [random_range] a class; what the probes answer, and
    when, is a list of events.  A [Duration] is a number of nanoseconds. *)

From Stdlib Require Import Sorted.
From S2P Require Import Prelude Str Ip Text Error.
Local Open Scope Z_scope.

(** The rand crate: [random_range(0..n)] of a generator whose next word is [w]. *)
Class RandCrate := {
  random_below : Z -> Z -> Z;
  random_below_range n w : 0 < n -> 0 <= random_below n w < n;
}.

Module Prober.
Import Error.

(** ** The addresses and ports of Cloudflare's edges *)

Definition MASQUE_CIDRS_V4 : list bytes :=
  [lit "162.159.196.0/24"; lit "162.159.195.0/24"; lit "162.159.192.0/24"; lit "162.159.193.0/24";
   lit "162.159.204.0/24"; lit "162.159.197.0/24"; lit "162.159.198.0/24"; lit "162.159.199.0/24";
   lit "172.65.251.0/24"; lit "188.114.96.0/24"; lit "188.114.97.0/24"; lit "188.114.98.0/24";
   lit "188.114.99.0/24"; lit "162.159.36.0/24"; lit "162.159.46.0/24"].
Definition MASQUE_SEEDS : list bytes :=
  [lit "162.159.196.1"; lit "162.159.195.1"; lit "162.159.192.1"; lit "162.159.197.3"; lit "162.159.197.1";
   lit "162.159.198.2"; lit "162.159.198.1"; lit "162.159.193.1"; lit "162.159.199.2"; lit "162.159.197.2"].
Definition MASQUE_GATEWAYS_V4 : list bytes :=
  [lit "162.159.198.183"; lit "162.159.198.206"; lit "162.159.198.226"; lit "162.159.198.125";
   lit "162.159.198.72"; lit "162.159.198.89"; lit "162.159.198.198"; lit "162.159.198.131";
   lit "162.159.198.245"; lit "162.159.198.114"; lit "162.159.198.31"; lit "162.159.198.60";
   lit "162.159.198.4"; lit "162.159.198.65"; lit "162.159.198.33"; lit "162.159.198.86";
   lit "162.159.198.244"; lit "162.159.198.123"; lit "162.159.198.233"; lit "162.159.198.69";
   lit "162.159.198.255"; lit "162.159.198.176"; lit "162.159.198.186"; lit "162.159.198.63";
   lit "162.159.198.37"; lit "162.159.198.169"; lit "162.159.198.147"; lit "162.159.198.120";
   lit "162.159.198.135"; lit "162.159.198.54"; lit "162.159.198.234"; lit "162.159.198.109";
   lit "162.159.198.175"; lit "162.159.198.231"; lit "162.159.198.219"; lit "162.159.198.216";
   lit "162.159.198.64"; lit "162.159.198.250"; lit "162.159.198.184"; lit "162.159.198.74";
   lit "162.159.198.241"; lit "162.159.198.213"; lit "162.159.198.232"; lit "162.159.198.75";
   lit "162.159.198.77"; lit "162.159.198.172"; lit "162.159.198.145"; lit "162.159.198.36";
   lit "162.159.198.124"; lit "162.159.198.80"; lit "162.159.198.192"; lit "162.159.198.82";
   lit "162.159.198.137"; lit "162.159.198.141"; lit "162.159.198.48"; lit "162.159.198.71";
   lit "162.159.198.227"; lit "162.159.198.207"; lit "162.159.198.49"; lit "162.159.198.178";
   lit "162.159.198.197"; lit "162.159.198.203"; lit "162.159.198.204"; lit "162.159.198.205";
   lit "162.159.198.195"; lit "162.159.198.230"; lit "162.159.198.202"; lit "162.159.198.53";
   lit "162.159.198.79"; lit "162.159.198.58"; lit "162.159.198.35"; lit "162.159.198.239";
   lit "162.159.198.116"; lit "162.159.198.127"; lit "162.159.198.240"; lit "162.159.199.87";
   lit "162.159.199.117"; lit "162.159.199.48"; lit "162.159.199.217"; lit "162.159.199.65";
   lit "162.159.199.198"; lit "162.159.199.47"; lit "162.159.199.103"; lit "162.159.199.133";
   lit "162.159.199.151"; lit "162.159.199.195"; lit "162.159.199.73"; lit "162.159.199.156";
   lit "162.159.199.247"; lit "162.159.199.127"; lit "162.159.199.158"; lit "162.159.199.208";
   lit "162.159.199.82"; lit "162.159.199.213"; lit "162.159.199.70"; lit "162.159.199.243";
   lit "162.159.199.204"; lit "162.159.199.154"; lit "162.159.199.240"; lit "162.159.199.236";
   lit "162.159.199.126"; lit "162.159.199.186"; lit "162.159.199.188"; lit "162.159.199.187";
   lit "162.159.199.124"; lit "162.159.199.43"; lit "162.159.199.102"; lit "162.159.199.60";
   lit "162.159.199.219"; lit "162.159.199.163"; lit "162.159.199.193"; lit "162.159.199.135";
   lit "162.159.199.110"; lit "162.159.199.94"; lit "162.159.199.136"; lit "162.159.199.233";
   lit "162.159.199.77"; lit "162.159.199.241"; lit "162.159.199.223"; lit "162.159.199.120";
   lit "162.159.199.38"; lit "162.159.199.75"; lit "162.159.199.57"; lit "162.159.199.118";
   lit "162.159.199.50"; lit "162.159.199.76"; lit "162.159.199.58"; lit "162.159.199.145";
   lit "162.159.199.81"; lit "162.159.199.54"; lit "162.159.199.234"; lit "162.159.199.157";
   lit "162.159.199.121"; lit "162.159.199.246"; lit "162.159.199.182"; lit "162.159.199.1";
   lit "162.159.199.251"; lit "162.159.199.35"; lit "162.159.199.179"; lit "162.159.199.147";
   lit "162.159.199.137"; lit "162.159.199.49"; lit "162.159.199.138"; lit "162.159.199.116";
   lit "162.159.199.172"; lit "162.159.199.42"; lit "162.159.199.160"; lit "162.159.199.88";
   lit "162.159.199.212"; lit "162.159.199.174"; lit "162.159.199.79"; lit "162.159.199.105";
   lit "162.159.199.130"; lit "162.159.199.252"; lit "162.159.199.238"; lit "162.159.199.248";
   lit "162.159.199.125"; lit "162.159.199.62"; lit "162.159.199.34"; lit "162.159.199.239";
   lit "162.159.199.84"; lit "162.159.199.104"; lit "162.159.199.196"; lit "162.159.199.72";
   lit "162.159.199.97"; lit "162.159.199.74"; lit "162.159.199.229"; lit "162.159.199.159";
   lit "162.159.199.192"; lit "162.159.199.201"; lit "162.159.199.44"; lit "162.159.199.222";
   lit "162.159.199.142"; lit "162.159.199.78"; lit "162.159.199.235"; lit "162.159.199.168";
   lit "162.159.199.162"; lit "162.159.199.39"; lit "162.159.199.209"; lit "162.159.199.111";
   lit "162.159.199.139"; lit "162.159.199.113"; lit "162.159.199.215"; lit "162.159.199.245";
   lit "162.159.199.86"; lit "162.159.199.46"; lit "162.159.199.180"; lit "162.159.199.66";
   lit "162.159.199.173"; lit "162.159.199.53"; lit "162.159.199.216"; lit "162.159.199.237";
   lit "162.159.199.114"; lit "162.159.199.109"; lit "162.159.199.214"; lit "162.159.199.190";
   lit "162.159.199.106"; lit "162.159.199.100"; lit "162.159.199.92"; lit "162.159.199.96";
   lit "162.159.199.61"; lit "162.159.199.108"; lit "162.159.199.64"; lit "162.159.199.101";
   lit "162.159.199.140"; lit "162.159.199.123"; lit "162.159.199.112"; lit "162.159.199.199";
   lit "162.159.199.225"; lit "162.159.199.83"; lit "162.159.199.69"; lit "162.159.199.90";
   lit "162.159.199.153"; lit "162.159.199.115"; lit "162.159.199.149"; lit "162.159.199.36";
   lit "162.159.199.224"; lit "162.159.199.155"; lit "162.159.199.37"; lit "162.159.199.52";
   lit "162.159.199.63"; lit "162.159.199.164"; lit "162.159.199.253"; lit "162.159.199.141";
   lit "162.159.199.242"; lit "162.159.199.89"; lit "162.159.199.67"; lit "162.159.199.185";
   lit "162.159.199.98"; lit "162.159.199.167"; lit "162.159.199.0"; lit "162.159.199.176";
   lit "162.159.199.189"; lit "162.159.199.218"; lit "162.159.199.211"; lit "162.159.199.221";
   lit "162.159.199.220"; lit "162.159.199.231"; lit "162.159.199.230"; lit "162.159.199.206";
   lit "162.159.199.175"; lit "162.159.199.184"; lit "162.159.199.203"; lit "162.159.199.255";
   lit "162.159.199.171"; lit "162.159.199.45"; lit "162.159.199.228"; lit "162.159.199.177";
   lit "162.159.199.165"; lit "162.159.199.122"; lit "162.159.199.99"; lit "162.159.199.183";
   lit "162.159.199.161"; lit "162.159.199.144"; lit "162.159.199.119"; lit "162.159.199.128";
   lit "162.159.199.146"; lit "162.159.199.148"; lit "162.159.199.68"; lit "162.159.199.56";
   lit "162.159.199.95"; lit "162.159.199.55"; lit "162.159.199.197"; lit "162.159.199.41";
   lit "162.159.199.194"; lit "162.159.199.226"; lit "162.159.199.134"; lit "162.159.199.249";
   lit "162.159.199.232"; lit "162.159.199.227"; lit "162.159.199.191"; lit "162.159.199.150";
   lit "162.159.199.170"; lit "162.159.199.202"; lit "162.159.199.169"; lit "162.159.199.207";
   lit "162.159.199.166"; lit "162.159.199.250"; lit "162.159.199.210"; lit "162.159.199.181";
   lit "162.159.199.132"; lit "162.159.199.129"; lit "162.159.199.107"; lit "162.159.199.71";
   lit "162.159.199.152"; lit "162.159.199.91"; lit "162.159.199.131"; lit "162.159.199.205";
   lit "162.159.199.85"; lit "162.159.199.59"; lit "162.159.199.51"; lit "162.159.199.143";
   lit "162.159.199.244"; lit "162.159.199.254"; lit "162.159.199.178"; lit "162.159.199.200";
   lit "162.159.199.93"].
Definition MASQUE_VERIFIED_GATEWAYS : list bytes :=
  [lit "162.159.199.1"; lit "162.159.199.2"; lit "162.159.198.2"; lit "162.159.198.1"].
Definition MASQUE_ALT_PORTS : list Z :=
  [1701; 8095; 500; 4500].
Definition MASQUE_PORTS : list Z :=
  [443; 500; 1701; 4500; 4443; 8443; 8095].
Definition MASQUE_CIDRS_V6 : list bytes :=
  [lit "2606:4700:d0::/48"; lit "2606:4700:102::/48"; lit "2606:4700:d1::/48"; lit "2606:4700:103::/48"].
Definition MASQUE_ZT_CIDRS_V4 : list bytes :=
  [lit "162.159.197.0/24"].
Definition MASQUE_ZT_CIDRS_V6 : list bytes :=
  [lit "2606:4700:102::/48"].
Definition MASQUE_SEEDS_V6 : list bytes :=
  [lit "2606:4700:103::1"; lit "2606:4700:d0::a29f:c602"; lit "2606:4700:d1::a29f:c602";
   lit "2606:4700:d0::a29f:c601"; lit "2606:4700:d0::a29f:c001"].
Definition MASQUE_GATEWAYS_V6 : list bytes :=
  [lit "2606:4700:103::1"].
Definition MASQUE_WARP_CIDRS_V6 : list bytes :=
  [lit "2606:4700:103::/48"].
Definition WG_PREFIXES_V4 : list bytes :=
  [lit "162.159.192.0/24"; lit "162.159.195.0/24"; lit "188.114.96.0/24"; lit "188.114.97.0/24";
   lit "188.114.98.0/24"; lit "188.114.99.0/24"; lit "162.159.193.0/24"].
Definition WG_PREFIXES_V6 : list bytes :=
  [lit "2606:4700:d0::/64"; lit "2606:4700:d1::/64"; lit "2606:4700:100::/48"].
Definition WG_ZT_PREFIXES_V4 : list bytes :=
  [lit "162.159.193.0/24"].
Definition WG_ZT_PREFIXES_V6 : list bytes :=
  [lit "2606:4700:100::/48"].
Definition WG_PORTS : list Z :=
  [2408; 500; 1701; 4500; 854; 859; 864; 878; 880; 890; 891; 894; 903; 908; 928; 934; 939; 942; 943; 945;
   946; 955; 968; 987; 988; 1002; 1010; 1014; 1018; 1070; 1074; 1180; 1387; 1843; 2371; 2506; 3138; 3476;
   3581; 3854; 4177; 4198; 4233; 5279; 5956; 7103; 7152; 7156; 7281; 7559; 8319; 8742; 8854; 8886].
Definition WG_SEEDS_V4 : list bytes :=
  [lit "162.159.192.1"; lit "162.159.195.1"; lit "188.114.96.1"; lit "188.114.97.1"; lit "162.159.193.1"].
Definition WG_SEEDS_V6 : list bytes :=
  [lit "2606:4700:d0::a29f:c001"; lit "2606:4700:d1::a29f:c001"; lit "2606:4700:d0::a29f:c301";
   lit "2606:4700:d0::bc72:6001"].

(** The entries of a list of constants that are addresses. *)
Definition parse_ipv4 (s : bytes) : option Z := if 15 <? blen s then None else parse_with read_ipv4_addr s.

(** A variable that is set, and not to white space. *)
Definition filled (env : bytes -> option bytes) (key : bytes) : option bytes :=
  raw ← env key; if bool_decide (trim raw = []) then None else Some raw.

Definition zero_trust_mode (env : bytes -> option bytes) : bool :=
  match env (lit "AETHER_TEAM") with Some value => negb (bool_decide (trim value = [])) | None => false end.

(** [all.contains(entry)] *)
Definition has (entry : bytes) (l : list bytes) : bool := bool_decide (entry ∈ l).

Definition prioritize (env : bytes -> option bytes) (all first : list bytes) : list bytes :=
  if negb (zero_trust_mode env) then all
  else
    let out := fold_left (fun out entry => if has entry all then out ++ [entry] else out) first [] in
    fold_left (fun out entry => if negb (has entry out) then out ++ [entry] else out) all out.

Definition masque_cidrs_v4 env : list bytes := prioritize env MASQUE_CIDRS_V4 MASQUE_ZT_CIDRS_V4.
Definition masque_cidrs_v6 env : list bytes := prioritize env MASQUE_CIDRS_V6 MASQUE_ZT_CIDRS_V6.
Definition wg_prefixes_v4 env : list bytes := prioritize env WG_PREFIXES_V4 WG_ZT_PREFIXES_V4.
Definition wg_prefixes_v6 env : list bytes := prioritize env WG_PREFIXES_V6 WG_ZT_PREFIXES_V6.
Definition wg_seeds_v4 env : list bytes := prioritize env WG_SEEDS_V4 [lit "162.159.193.1"].

(** ** Modes *)

Inductive IpScan := ScanV4 | ScanV6 | ScanBoth.
Inductive ScanMode := Turbo | Balanced | Thorough | Verified | Ironclad.
#[export] Instance ScanMode_eq_dec : EqDecision ScanMode.
Proof. solve_decision. Defined.

Definition one_of (s : bytes) (l : list bytes) : bool := existsb (fun x => bool_decide (s = x)) l.

Section modes.
Context `{UnicodeCase}.

Definition IpScan_parse (s : bytes) : IpScan :=
  let s := to_lowercase (trim s) in
  if one_of s [lit "6"; lit "v6"; lit "ipv6"] then ScanV6
  else if one_of s [lit "both"; lit "all"; lit "dual"] then ScanBoth
  else ScanV4.

Definition ScanMode_parse (s : bytes) : ScanMode :=
  let s := to_lowercase (trim s) in
  if one_of s [lit "turbo"; lit "fast"] then Turbo
  else if one_of s [lit "thorough"; lit "deep"; lit "pro"] then Thorough
  else if one_of s [lit "verified"; lit "proven"; lit "stealth"; lit "quiet"] then Verified
  else if one_of s [lit "ironclad"; lit "real"; lit "verify"; lit "guaranteed"] then Ironclad
  else Balanced.
End modes.

Definition want_v4 (ip : IpScan) : bool := match ip with ScanV4 | ScanBoth => true | ScanV6 => false end.
Definition want_v6 (ip : IpScan) : bool := match ip with ScanV6 | ScanBoth => true | ScanV4 => false end.

Definition from_millis (ms : Z) : Z := ms * 1000000.
Definition from_secs (s : Z) : Z := s * 1000000000.
Definition as_millis (d : Z) : Z := d / 1000000.

Record Strategy := mkStrategy {
  concurrency : Z; per_probe_timeout : Z; overall_deadline : Z; quiet_after_first : Z;
  target_successes : Z; early_exit_first : bool; full_subnet : bool; sample_per_cidr : Z;
}.
Definition strategy (mode : ScanMode) : Strategy :=
  match mode with
  | Turbo => mkStrategy 20 (from_millis 6000) (from_secs 45) (from_secs 0) 1 true false 64
  | Balanced => mkStrategy 16 (from_millis 6000) (from_secs 120) (from_secs 20) 6 false false 140
  | Thorough => mkStrategy 20 (from_millis 10000) (from_secs 300) (from_secs 30) 0 false true 0
  | Verified => mkStrategy 16 (from_millis 5000) (from_secs 60) (from_secs 8) 4 false false 48
  | Ironclad => mkStrategy 4 (from_millis 15000) (from_secs 180) (from_secs 15) 3 false false 140
  end.

Definition tune_custom_tcp_scan (st : Strategy) (custom_tcp : bool) : Strategy :=
  if negb custom_tcp then st
  else mkStrategy (Z.min (concurrency st) 4) (Z.max (per_probe_timeout st) (from_secs 20)) (overall_deadline st) 0 1 true
         (full_subnet st) (sample_per_cidr st).

Record WgStrategy := mkWgStrategy { wg_st : Strategy; pool_port_waves : Z }.
Definition wg_strategy (mode : ScanMode) : WgStrategy :=
  match mode with
  | Turbo => mkWgStrategy (mkStrategy 12 (from_millis 5000) (from_secs 30) (from_secs 0) 1 true false 40) 1
  | Balanced => mkWgStrategy (mkStrategy 8 (from_millis 7000) (from_secs 80) (from_secs 12) 5 false false 120) 3
  | Thorough => mkWgStrategy (mkStrategy 10 (from_millis 9000) (from_secs 250) (from_secs 25) 0 false true 0) 4
  | Verified => mkWgStrategy (mkStrategy 10 (from_millis 5000) (from_secs 60) (from_secs 8) 6 false false 48) 4
  | Ironclad => mkWgStrategy (mkStrategy 4 (from_millis 15000) (from_secs 180) (from_secs 15) 3 false false 120) 3
  end.

(** ** Ranges *)

Definition parse_cidr_v4 (cidr : bytes) : option (Z * Z) :=
  '(ip, prefix) ← split_once 47 cidr;
  base ← parse_ipv4 ip;
  prefix ← parse_uint U8_MAX prefix;
  Some (base, prefix).

Definition enumerate_cidr_v4 (cidr : bytes) : list Z :=
  match parse_cidr_v4 cidr with
  | None => []
  | Some (base, prefix) =>
      let host_bits := saturating_sub 32 prefix in
      if host_bits =? 0 then [base]
      else if 12 <? host_bits then []
      else
        let size := 2 ^ host_bits in
        map (fun off => wrap_u32 (base + off)) (seqZ 1 (saturating_sub size 1 - 1))
  end.

(** What a function that draws random numbers gives, and the words it leaves; [None]
    when the words given do not suffice (the generator itself has no end). *)
Definition draw A := list Z -> option (A * list Z).
#[export] Instance draw_ret : MRet draw := fun A a words => Some (a, words).
#[export] Instance draw_bind : MBind draw := fun A B f m words =>
  match m words with Some (a, words) => f a words | None => None end.
Fixpoint draw_map {A B} (f : A -> draw B) (l : list A) : draw (list B) :=
  match l with [] => mret [] | a :: l => b ← f a; bs ← draw_map f l; mret (b :: bs) end.
Definition next_word : draw Z := fun words => match words with [] => None | w :: words => Some (w, words) end.

(** An address and a port to try. *)
Abbreviation candidate := (IpAddr * Z)%type.

Section scans.
Context `{RandCrate}.

(** The loop of [sample_cidr_v4]: offsets not chosen before, until there are [want]. *)
Fixpoint sample_v4_loop (base usable want : Z) (chosen : gset Z) (out : list Z) (words : list Z) : option (list Z * list Z) :=
  if want <=? blen out then Some (out, words)
  else
    match words with
    | [] => None
    | w :: words =>
        let off := 1 + random_below usable w in
        if decide (off ∈ chosen) then sample_v4_loop base usable want chosen out words
        else sample_v4_loop base usable want ({[off]} ∪ chosen) (out ++ [wrap_u32 (base + off)]) words
    end.

Definition sample_cidr_v4 (cidr : bytes) (n : Z) : draw (list Z) :=
  match parse_cidr_v4 cidr with
  | None => mret []
  | Some (base, prefix) =>
      let host_bits := saturating_sub 32 prefix in
      let size := if 32 <=? host_bits then U32_MAX else 2 ^ host_bits in
      if size <=? 2 then mret [base]
      else
        let usable := size - 2 in
        let want := Z.min (wrap_u32 n) usable in
        sample_v4_loop base usable want ∅ []
  end.

Definition parse_cidr_v6 (cidr : bytes) : option (Z * Z) :=
  '(ip, prefix) ← split_once 47 cidr;
  base ← parse_ipv6 ip;
  prefix ← parse_uint U8_MAX prefix;
  Some (base, prefix).

(** One address of [sample_cidr_v6]: an IPv4 address of one of the ranges in its last 32
    bits (a shift by 32 is one by 0). *)
Definition sample_v6_one (base : Z) (v4 : list (Z * Z)) : draw Z :=
  match v4 with
  | [] => w ← next_word; mret (Z.lor base (random_below (2 ^ 32) w))
  | _ =>
      w ← next_word;
      let '(b, p) := default (0, 0) (v4 !! Z.to_nat (random_below (blen v4) w)) in
      let host_bits := saturating_sub 32 p in
      if host_bits =? 0 then mret (Z.lor base (Z.lor b 0))
      else
        w ← next_word;
        mret (Z.lor base (Z.lor b (Z.land (random_below (2 ^ 32) w) (2 ^ (host_bits mod 32) - 1))))
  end.

Definition sample_cidr_v6 (cidr : bytes) (n : Z) (v4_cidrs : list bytes) : draw (list Z) :=
  match parse_cidr_v6 cidr with
  | None => mret []
  | Some (base, prefix) =>
      if saturating_sub 128 prefix =? 0 then mret [base]
      else
        let v4 := omap parse_cidr_v4 v4_cidrs in
        draw_map (fun _ => sample_v6_one base v4) (replicate (Z.to_nat n) tt)
  end.

(** ** The ranges of the settings *)

Definition app_normalize_cidr_v4 (raw : bytes) : option bytes :=
  let v := trim raw in
  if bool_decide (v = []) then None
  else
    match split_once 47 v with
    | Some (ip, prefix) =>
        addr ← parse_ipv4 (trim ip);
        bits ← parse_uint U8_MAX (trim prefix);
        if 32 <? bits then None else Some (v4_to_string addr ++ [47] ++ dec bits)
    | None =>
        if ends_with (lit ".x") v || ends_with (lit ".X") v || ends_with (lit ".*") v then
          addr ← parse_ipv4 (sub v 0 (blen v - 1) ++ lit "0");
          Some (v4_to_string addr ++ lit "/24")
        else
          addr ← parse_ipv4 v;
          Some (v4_to_string addr ++ lit "/32")
    end.

Definition custom_cidrs (env : bytes -> option bytes) (key : bytes) : option (list bytes) :=
  raw ← match filled env key with Some raw => Some raw | None => filled env (lit "AETHER_SCAN_CIDRS") end;
  let list := omap app_normalize_cidr_v4 (split_chars (fun b => (b =? 44) || (b =? 59) || (b =? 32) || (b =? 10)) raw) in
  if bool_decide (list = []) then None else Some list.
Definition custom_masque_cidrs_v4 env := custom_cidrs env (lit "AETHER_MASQUE_CIDRS").
Definition custom_wg_cidrs_v4 env := custom_cidrs env (lit "AETHER_WG_CIDRS").

(** ** Candidates *)

(** [for i in 0..max_len { for hosts in lists { hosts.get(i) } }] *)
Definition interleave {A} (lists : list (list A)) : list A :=
  let max_len := fold_left Nat.max (map length lists) 0%nat in
  concat (map (fun i => omap (fun hosts => hosts !! i) lists) (seq 0 max_len)).

(** The hosts of each range. *)
Definition cidr_hosts (st : Strategy) (ranges : list bytes) : draw (list (list Z)) :=
  draw_map (fun c => if full_subnet st then mret (enumerate_cidr_v4 c) else sample_cidr_v4 c (sample_per_cidr st)) ranges.

(** The addresses on the ports other than the primary one. *)
Definition other_ports (primary : Z) (ports : list Z) (ips : list IpAddr) : list candidate :=
  concat (map (fun ip => map (fun port => (ip, port)) (filter (fun port => port <> primary) ports)) ips).

Definition manual_masque_candidates (st : Strategy) (ports : list Z) (cidrs : list bytes) : draw (list candidate) :=
  let primary := default 443 (head ports) in
  hosts ← cidr_hosts st cidrs;
  let hosts := map V4 (interleave hosts) in
  let s := push_all ([], ∅) (map (fun ip => (ip, primary)) hosts) in
  let s := push_all s (other_ports primary ports hosts) in
  mret s.1.

Definition build_candidates env (st : Strategy) (ports : list Z) (ip : IpScan) (team : bool) : draw (list candidate) :=
  let primary := default 443 (head ports) in
  match (if want_v4 ip then custom_masque_cidrs_v4 env else None) with
  | Some cidrs => manual_masque_candidates st ports cidrs
  | None =>
      let '(v4_seeds, ranges) := if team then (MASQUE_SEEDS, masque_cidrs_v4 env) else (MASQUE_GATEWAYS_V4, []) in
      let '(v6_seeds, ranges6) := if team then (MASQUE_SEEDS_V6, masque_cidrs_v6 env) else (MASQUE_GATEWAYS_V6, MASQUE_WARP_CIDRS_V6) in
      let seeds := map V4 (omap parse_ipv4 v4_seeds) in
      let seeds6 := map V6 (omap parse_ipv6 v6_seeds) in
      let on_primary := map (fun ip => (ip, primary)) in
      s ← (if want_v4 ip then
             hosts ← cidr_hosts st ranges;
             mret (push_all (push_all ([], ∅) (on_primary seeds)) (on_primary (map V4 (interleave hosts))))
           else mret ([], ∅));
      s ← (if want_v6 ip then
             let per := if sample_per_cidr st =? 0 then 96 else sample_per_cidr st in
             cidr6 ← draw_map (fun c => sample_cidr_v6 c per MASQUE_CIDRS_V4) ranges6;
             mret (push_all (push_all s (on_primary seeds6)) (on_primary (map V6 (interleave cidr6))))
           else mret s);
      let s := if want_v4 ip then push_all s (other_ports primary ports seeds) else s in
      let s := if want_v6 ip then push_all s (other_ports primary ports seeds6) else s in
      mret s.1
  end.

Definition leave_out (candidates : list candidate) (avoid : gset IpAddr) : list candidate :=
  filter (fun c => c.1 ∉ avoid) candidates.

(** [for wave in 0..waves { for (idx, ip) in ips.enumerate() { (ip, ports[(idx + wave) % len]) } }] *)
Definition port_waves (waves : Z) (ports : list Z) (ips : list IpAddr) : list candidate :=
  concat (map (fun wave => imap (fun idx ip => (ip, default 0 (ports !! ((idx + wave) mod length ports)%nat))) ips)
              (seq 0 (Z.to_nat (Z.max waves 1)))).

(** The closure [push]: neither excluded nor seen. *)
Definition push_allowed (excluded : gset SocketAddr) (s : list candidate * gset candidate) (c : candidate) :=
  if decide (mkSocketAddr c.1 c.2 ∈ excluded) then s else push_new s c.

Definition manual_wg_candidates (st : WgStrategy) (ports : list Z) (cidrs : list bytes) (excluded : gset SocketAddr) : draw (list candidate) :=
  hosts ← cidr_hosts (wg_st st) cidrs;
  let ips := map V4 (interleave hosts) in
  let ports := if bool_decide (ports = []) then [2408] else ports in
  mret (fold_left (push_allowed excluded) (port_waves (pool_port_waves st) ports ips) ([], ∅)).1.

Definition build_wg_candidates env (st : WgStrategy) (ports : list Z) (ip : IpScan) (excluded : gset SocketAddr) : draw (list candidate) :=
  let deduped := (push_all ([], ∅) ports).1 in
  let ports := if bool_decide (deduped = []) then [2408] else deduped in
  match (if want_v4 ip then custom_wg_cidrs_v4 env else None) with
  | Some cidrs => manual_wg_candidates st ports cidrs excluded
  | None =>
      '(anchors, pool) ← (if want_v4 ip then
          hosts ← cidr_hosts (wg_st st) (wg_prefixes_v4 env);
          mret (map V4 (omap parse_ipv4 (wg_seeds_v4 env)), map V4 (interleave hosts))
        else mret ([], []));
      '(anchors, pool) ← (if want_v6 ip then
          let per := if sample_per_cidr (wg_st st) =? 0 then 80 else sample_per_cidr (wg_st st) in
          cidr6 ← draw_map (fun c => sample_cidr_v6 c per WG_PREFIXES_V4) (wg_prefixes_v6 env);
          mret (anchors ++ map V6 (omap parse_ipv6 WG_SEEDS_V6), pool ++ map V6 (interleave cidr6))
        else mret (anchors, pool));
      let ips := (push_all ([], ∅) (anchors ++ pool)).1 in
      mret (fold_left (push_allowed excluded) (port_waves (pool_port_waves st) ports ips) ([], ∅)).1
  end.
End scans.

(** ** The scan of MASQUE gateways *)

Record ProbeResult := mkProbeResult { pr_ip : IpAddr; pr_port : Z; pr_rtt : Z }.

(** What a turn of the loop waits for: a probe that ended (with the candidate it was for
    and its round trip, if it passed), the end of the stream, or the time-out.  The time
    at the top of the loop and the time it happened. *)
Inductive Happened := Item (c : candidate) (rtt : option Z) | StreamEnd | Slept.
Record Turn := mkTurn { top : Z; happened : Happened; happened_at : Z }.

Record Hunt := mkHunt { best : option ProbeResult; found : Z; quiet_until : option Z }.
Definition hunt_start : Hunt := mkHunt None 0 None.

Definition remaining (quiet_until : option Z) (deadline now : Z) : Z :=
  saturating_sub (match quiet_until with Some q => Z.min q deadline | None => deadline end) now.

Definition hunt_finish (best : option ProbeResult) : res AetherError ProbeResult :=
  match best with Some pr => Ok pr | None => Err NoCleanEndpoint end.

Definition better (best : option ProbeResult) (pr : ProbeResult) : ProbeResult :=
  match best with Some cur => if pr_rtt cur <=? pr_rtt pr then cur else pr | None => pr end.

Definition hunt_turn (st : Strategy) (deadline : Z) (s : Hunt) (t : Turn) : Hunt + res AetherError ProbeResult :=
  match happened t with
  | Slept | StreamEnd => inr (hunt_finish (best s))
  | Item _ None => inl s
  | Item (ip, port) (Some rtt) =>
      let pr := mkProbeResult ip port rtt in
      if early_exit_first st then inr (Ok pr)
      else
        let best := Some (better (best s) pr) in
        let found := found s + 1 in
        if (0 <? target_successes st) && (target_successes st <=? found) && bool_decide (quiet_until s = None) then
          if negb (quiet_after_first st =? 0) then inl (mkHunt best found (Some (happened_at t + quiet_after_first st)))
          else inr (hunt_finish best)
        else inl (mkHunt best found (quiet_until s))
  end.

(** The loop over the turns; the result, and the turns that never came. *)
Fixpoint hunt_run (st : Strategy) (deadline : Z) (s : Hunt) (turns : list Turn) : option (res AetherError ProbeResult * list Turn) :=
  match turns with
  | [] => None
  | t :: rest =>
      if remaining (quiet_until s) deadline (top t) =? 0 then Some (hunt_finish (best s), turns)
      else match hunt_turn st deadline s t with inl s => hunt_run st deadline s rest | inr r => Some (r, rest) end
  end.

(** The addresses to scan, when the host has no IPv6. *)
Definition effective_ip (ip : IpScan) (host_has_ipv6 : bool) : option IpScan :=
  if want_v6 ip && negb host_has_ipv6 then if want_v4 ip then Some ScanV4 else None else Some ip.

Section hunts.
Context `{RandCrate}.

(** What the scan tries: [None] without an IPv6 route when only IPv6 was asked for. *)
Definition scanned env (custom_tcp host_has_ipv6 : bool) (ports : list Z) (ip : IpScan) (mode : ScanMode) (avoid : gset IpAddr)
  : draw (option (list candidate)) :=
  match effective_ip ip host_has_ipv6 with
  | None => mret None
  | Some ip =>
      candidates ← build_candidates env (tune_custom_tcp_scan (strategy mode) custom_tcp) ports ip (zero_trust_mode env);
      mret (Some (leave_out candidates avoid))
  end.

(** The scan that starts at [start] and whose loop takes [turns]; the result, and the
    turns that never came. *)
Definition hunt_best_gateway_avoiding (custom_tcp : bool) (mode : ScanMode) (candidates : option (list candidate)) (start : Z) (turns : list Turn)
  : option (res AetherError ProbeResult * list Turn) :=
  match candidates with
  | None => Some (Err NoCleanEndpoint, turns)
  | Some _ =>
      let st := tune_custom_tcp_scan (strategy mode) custom_tcp in
      hunt_run st (start + overall_deadline st) hunt_start turns
  end.
End hunts.

(** ** The scan of WireGuard endpoints *)

(** The first of [AETHER_SCAN_GOOD_RTT_MS] and [AETHER_QUICK_RECONNECT_MAX_RTT_MS] that is
    a number greater than zero, or 180 ms. *)
Definition env_ms (env : bytes -> option bytes) (name : bytes) : option Z :=
  v ← env name; ms ← parse_u64 (trim v); if 0 <? ms then Some ms else None.
Definition good_rtt_budget env : option Z :=
  Some (from_millis (match env_ms env (lit "AETHER_SCAN_GOOD_RTT_MS") with
                     | Some ms => ms
                     | None => default 180 (env_ms env (lit "AETHER_QUICK_RECONNECT_MAX_RTT_MS"))
                     end)).
Definition slow_first_grace env : Z := from_millis (default 1200 (env_ms env (lit "AETHER_SCAN_SLOW_FIRST_GRACE_MS"))).

(** The statics [RTT_FLOOR_MS] and [RTT_FLOOR_PEER]. *)
Record Floor := mkFloor { floor_ms : Z; floor_peer : option SocketAddr }.
Definition set_rtt_floor (_ : Floor) (peer : SocketAddr) (rtt : Z) : Floor := mkFloor (wrap_u64 (as_millis rtt)) (Some peer).
Definition clear_rtt_floor (_ : Floor) : Floor := mkFloor 0 None.
Definition rtt_floor (f : Floor) : option (SocketAddr * Z) :=
  if floor_ms f =? 0 then None else peer ← floor_peer f; Some (peer, from_millis (floor_ms f)).

Definition apply_rtt_floor (f : Floor) (picked : list ProbeResult) : list ProbeResult :=
  match rtt_floor f with
  | None => picked
  | Some (peer, floor) =>
      match picked with
      | [] => picked
      | b :: _ => if pr_rtt b <=? floor then picked else mkProbeResult (sa_ip peer) (sa_port peer) floor :: picked
      end
  end.

(** [sort_by_key(|pr| pr.rtt)], a stable sort. *)
Fixpoint insert_by_rtt (pr : ProbeResult) (l : list ProbeResult) : list ProbeResult :=
  match l with
  | [] => [pr]
  | x :: l' => if pr_rtt pr <=? pr_rtt x then pr :: l else x :: insert_by_rtt pr l'
  end.
Definition sort_by_rtt (l : list ProbeResult) : list ProbeResult := foldr insert_by_rtt [] l.

(** [.filter(|pr| seen.insert(pr.ip))] *)
Fixpoint first_of_ip (seen : gset IpAddr) (l : list ProbeResult) : list ProbeResult :=
  match l with
  | [] => []
  | pr :: l => if decide (pr_ip pr ∈ seen) then first_of_ip seen l else pr :: first_of_ip ({[pr_ip pr]} ∪ seen) l
  end.
Definition distinct_by_ip (found : list ProbeResult) : list ProbeResult := first_of_ip ∅ (sort_by_rtt found).

Record WgHunt := mkWgHunt {
  wg_early_exit : bool; verified : list ProbeResult; wg_found : Z; wg_quiet_until : option Z; hunting_for_fast : bool
}.

Section wg_hunt.
Context (env : bytes -> option bytes) (f : Floor) (st : Strategy) (want : Z).

Definition fast_enough (pr : ProbeResult) : bool :=
  match good_rtt_budget env with Some limit => pr_rtt pr <=? limit | None => true end
  && match rtt_floor f with Some (_, floor) => pr_rtt pr <=? floor | None => true end.

(** The state of the next turn, or how the loop ends: with a result at once, or with the
    endpoints verified so far. *)
Definition wg_turn (s : WgHunt) (t : Turn) : WgHunt + (list ProbeResult + list ProbeResult) :=
  match happened t with
  | Slept | StreamEnd => inr (inr (verified s))
  | Item _ None => inl s
  | Item (ip, port) (Some rtt) =>
      let pr := mkProbeResult ip port rtt in
      if (wg_early_exit s || hunting_for_fast s) && fast_enough pr then inr (inl [pr])
      else if wg_early_exit s then
        inl (mkWgHunt false (verified s ++ [pr]) (wg_found s + 1) (Some (happened_at t + slow_first_grace env)) true)
      else
        let verified := verified s ++ [pr] in
        let found := wg_found s + 1 in
        if (want <=? blen (distinct_by_ip verified)) && (1 <? want) then inr (inr verified)
        else if (0 <? target_successes st) && (target_successes st <=? found) && bool_decide (wg_quiet_until s = None) then
          if negb (quiet_after_first st =? 0)
          then inl (mkWgHunt (wg_early_exit s) verified found (Some (happened_at t + quiet_after_first st)) (hunting_for_fast s))
          else inr (inr verified)
        else inl (mkWgHunt (wg_early_exit s) verified found (wg_quiet_until s) (hunting_for_fast s))
  end.

Fixpoint wg_run (deadline : Z) (s : WgHunt) (turns : list Turn) : option ((list ProbeResult + list ProbeResult) * list Turn) :=
  match turns with
  | [] => None
  | t :: rest =>
      if remaining (wg_quiet_until s) deadline (top t) =? 0 then Some (inr (verified s), turns)
      else match wg_turn s t with inl s => wg_run deadline s rest | inr r => Some (r, rest) end
  end.
End wg_hunt.

(** What follows the loop. *)
Definition wg_pick (f : Floor) (want : Z) (r : list ProbeResult + list ProbeResult) : res AetherError (list ProbeResult) :=
  match r with
  | inl l => Ok l
  | inr verified =>
      let picked := apply_rtt_floor f (distinct_by_ip verified) in
      if bool_decide (picked = []) then Err NoCleanEndpoint else Ok (take (Z.to_nat want) picked)
  end.

Definition hunt_wg_endpoints env (f : Floor) (mode : ScanMode) (candidates : option (list candidate)) (want start : Z) (turns : list Turn)
  : option (res AetherError (list ProbeResult)) :=
  match candidates with
  | None => Some (Err NoCleanEndpoint)
  | Some _ =>
      let want := Z.max want 1 in
      let st := wg_st (wg_strategy mode) in
      let st := if 1 <? want then mkStrategy (concurrency st) (per_probe_timeout st) (overall_deadline st) (quiet_after_first st)
                                    (Z.max (target_successes st) (want * 3)) false (full_subnet st) (sample_per_cidr st)
                else st in
      (fun r => wg_pick f want r.1)
        <$> wg_run env f st want (start + overall_deadline st) (mkWgHunt (early_exit_first st) [] 0 None false) turns
  end.

Definition hunt_best_wg_endpoint env (f : Floor) (mode : ScanMode) (candidates : option (list candidate)) (start : Z) (turns : list Turn)
  : option (res AetherError ProbeResult) :=
  (fun r => l ← r; match l with pr :: _ => Ok pr | [] => Err NoCleanEndpoint end) <$> hunt_wg_endpoints env f mode candidates 1 start turns.

(** [within_budget], [env_budget_ms] of [lib.rs]: whether a cached endpoint is taken. *)
Definition env_budget_ms env (name : bytes) : option Z := from_millis <$> env_ms env name.
Definition within_budget (measured : Z) (budget : option Z) : bool :=
  match budget with Some limit => if limit <? measured then false else true | None => true end.

(** ** Candidates are distinct and allowed *)

Lemma push_allowed_inv excluded l : forall s, seen_inv s ->
  let r := fold_left (push_allowed excluded) l s in
  seen_inv r /\ forall c, c ∈ r.1 <-> c ∈ s.1 \/ (c ∈ l /\ mkSocketAddr c.1 c.2 ∉ excluded).
Proof.
  induction l as [|x l IH]; intros s Hs; cbn [fold_left].
  - split; [done|]. set_solver.
  - assert (seen_inv (push_allowed excluded s x)
      /\ forall c, c ∈ (push_allowed excluded s x).1 <-> c ∈ s.1 \/ (c = x /\ mkSocketAddr c.1 c.2 ∉ excluded)) as [Hn Hm].
    { unfold push_allowed. destruct (decide (mkSocketAddr x.1 x.2 ∈ excluded)) as [Hx|Hx].
      - split; [done|]. intros c. split; [tauto|]. intros [?|[-> ?]]; done.
      - destruct (push_new_inv s x Hs) as [Hn Hm]. split; [done|]. intros c. rewrite Hm. split; [|tauto]. intros [?| ->]; tauto. }
    destruct (IH _ Hn) as [Hn' Hm']. split; [done|]. intros c. cbn zeta in Hm'. rewrite Hm', Hm, elem_of_cons. intuition congruence.
Qed.

Lemma draw_bind_Some {A B} (m : draw A) (g : A -> draw B) words b rest :
  (m ≫= g) words = Some (b, rest) <-> exists a words', m words = Some (a, words') /\ g a words' = Some (b, rest).
Proof. unfold mbind, draw_bind. destruct (m words) as [[a words']|]; naive_solver. Qed.

Lemma other_ports_elem primary ports ips c : c ∈ other_ports primary ports ips -> c.1 ∈ ips /\ c.2 ∈ ports.
Proof.
  unfold other_ports. intros Hc. apply list_elem_of_In, in_concat in Hc as (l & (ip & <- & Hip)%in_map_iff & Hc).
  apply list_elem_of_In in Hip. apply in_map_iff in Hc as (port & <- & Hp). cbn [fst snd]. split; [done|].
  apply list_elem_of_In in Hp. by apply list_elem_of_filter in Hp as [_ Hp].
Qed.

Lemma port_waves_elem waves ports ips c : ports <> [] -> c ∈ port_waves waves ports ips -> c.1 ∈ ips /\ c.2 ∈ ports.
Proof.
  intros Hne. unfold port_waves. intros Hc. apply list_elem_of_In, in_concat in Hc as (l & (wave & <- & _)%in_map_iff & Hc).
  apply list_elem_of_In in Hc. apply elem_of_lookup_imap in Hc as (i & ip & -> & Hip). cbn [fst snd].
  split; [by eapply list_elem_of_lookup_2|].
  destruct (ports !! ((i + wave) mod length ports)%nat) as [port|] eqn:Hp; [by eapply list_elem_of_lookup_2|].
  exfalso. apply lookup_ge_None in Hp. destruct ports; [done|]. pose proof (Nat.mod_upper_bound (i + wave) (length (z :: ports))). cbn [length] in *. lia.
Qed.

Section candidates.
Context `{RandCrate}.

(** Candidates collected so far: distinct, and on the ports of the scan. *)
Definition collected (ports : list Z) (s : list candidate * gset candidate) : Prop :=
  seen_inv s /\ forall c, c ∈ s.1 -> c.2 ∈ ports.

Lemma collected_nil ports : collected ports ([], ∅).
Proof. split; [apply seen_inv_nil|]. intros c Hc. by apply elem_of_nil in Hc. Qed.

Lemma collected_push ports s l : collected ports s -> (forall c, c ∈ l -> c.2 ∈ ports) -> collected ports (push_all s l).
Proof.
  intros [Hs Hp] Hl. destruct (push_all_inv l s Hs) as [Hi Hm]. split; [done|]. intros c [Hc|Hc]%Hm; [by apply Hp|by apply Hl].
Qed.

Lemma on_port_ports primary ports ips (c : candidate) : c ∈ map (fun ip : IpAddr => (ip, primary)) ips -> c.2 ∈ primary :: ports.
Proof. intros Hc. apply list_elem_of_In, in_map_iff in Hc as (ip & <- & _). cbn. apply elem_of_cons. by left. Qed.
Lemma other_ports_ports primary ports ips (c : candidate) : c ∈ other_ports primary ports ips -> c.2 ∈ primary :: ports.
Proof. intros [_ Hc]%other_ports_elem. apply elem_of_cons. by right. Qed.

Lemma build_candidates_collected env st ports ip team words cands rest :
  build_candidates env st ports ip team words = Some (cands, rest) ->
  exists s, cands = s.1 /\ collected (default 443 (head ports) :: ports) s.
Proof.
  unfold build_candidates. set (primary := default 443 (head ports)).
  assert (forall s l, collected (primary :: ports) s -> collected (primary :: ports) (push_all s (map (fun ip => (ip, primary)) l))) as Hon.
  { intros s l Hs. apply collected_push; [done|]. intros c. apply on_port_ports. }
  assert (forall s l, collected (primary :: ports) s -> collected (primary :: ports) (push_all s (other_ports primary ports l))) as Hot.
  { intros s l Hs. apply collected_push; [done|]. intros c. apply other_ports_ports. }
  destruct (if want_v4 ip then custom_masque_cidrs_v4 env else None) as [cidrs|].
  - unfold manual_masque_candidates. rewrite draw_bind_Some. intros (hosts & words' & _ & Hc). injection Hc as <- _.
    eexists. split; [done|]. apply Hot, Hon, collected_nil.
  - destruct (if team then _ else _) as [v4_seeds ranges], (if team then (MASQUE_SEEDS_V6, _) else _) as [v6_seeds ranges6].
    rewrite draw_bind_Some. intros (s1 & words1 & H1 & H2). rewrite draw_bind_Some in H2. destruct H2 as (s2 & words2 & H2 & H3).
    injection H3 as <- _. eexists. split; [done|].
    assert (collected (primary :: ports) s1) as Hs1.
    { destruct (want_v4 ip); [|injection H1 as <- _; apply collected_nil].
      rewrite draw_bind_Some in H1. destruct H1 as (hosts & words' & _ & Hc). injection Hc as <- _. apply Hon, Hon, collected_nil. }
    assert (collected (primary :: ports) s2) as Hs2.
    { destruct (want_v6 ip); [|by injection H2 as <- _].
      rewrite draw_bind_Some in H2. destruct H2 as (hosts & words' & _ & Hc). injection Hc as <- _. by apply Hon, Hon. }
    destruct (want_v4 ip), (want_v6 ip); auto.
Qed.

(** The WireGuard scan tries each endpoint once, never one that is excluded, and on the
    ports of the scan alone (2408 when none are given). *)
Lemma build_wg_candidates_allowed env st ports ip excluded words cands rest :
  build_wg_candidates env st ports ip excluded words = Some (cands, rest) ->
  NoDup cands /\ forall c, c ∈ cands -> mkSocketAddr c.1 c.2 ∉ excluded /\ (c.2 ∈ ports \/ (ports = [] /\ c.2 = 2408)).
Proof.
  unfold build_wg_candidates. destruct (push_all_inv ports ([], ∅) seen_inv_nil) as [_ Hd].
  set (deduped := (push_all ([], ∅) ports).1) in *. set (ports' := if bool_decide (deduped = []) then [2408] else deduped).
  assert (ports' <> [] /\ forall x, x ∈ ports' -> x ∈ ports \/ (ports = [] /\ x = 2408)) as [Hne Hp].
  { unfold ports'. case_bool_decide as He.
    - split; [done|]. intros x ->%list_elem_of_singleton. right. split; [|done]. apply elem_of_nil_inv. intros y Hy.
      assert (y ∈ deduped) as Hy' by (apply Hd; by right). rewrite He in Hy'. by apply elem_of_nil in Hy'.
    - split; [done|]. intros x Hx. apply Hd in Hx as [Hx|Hx]; [by apply elem_of_nil in Hx|by left]. }
  assert (forall waves ips, let r := (fold_left (push_allowed excluded) (port_waves waves ports' ips) ([], ∅)).1 in
    NoDup r /\ forall c, c ∈ r -> mkSocketAddr c.1 c.2 ∉ excluded /\ (c.2 ∈ ports \/ (ports = [] /\ c.2 = 2408))) as Hall.
  { intros waves ips r. destruct (push_allowed_inv excluded (port_waves waves ports' ips) ([], ∅) seen_inv_nil) as [[Hn _] Hm].
    split; [done|]. intros c Hc. apply Hm in Hc as [Hc|[Hc Hx]]; [by apply elem_of_nil in Hc|]. split; [done|].
    apply port_waves_elem in Hc as [_ Hc]; [|done]. by apply Hp. }
  clearbody ports'. destruct (if want_v4 ip then custom_wg_cidrs_v4 env else None) as [cidrs|].
  - unfold manual_wg_candidates. rewrite draw_bind_Some. intros (hosts & words' & _ & Hc). injection Hc as <- _.
    rewrite bool_decide_eq_false_2 by done. apply Hall.
  - rewrite draw_bind_Some. intros ([anchors pool] & words1 & _ & H2). rewrite draw_bind_Some in H2.
    destruct H2 as ([anchors' pool'] & words2 & _ & H3). injection H3 as <- _. apply Hall.
Qed.

(** ** The scan of MASQUE gateways picks the fastest allowed gateway *)

Definition answers (turns : list Turn) : list ProbeResult :=
  omap (fun t => match happened t with Item (ip, port) (Some rtt) => Some (mkProbeResult ip port rtt) | _ => None end) turns.

(** The stream of the scan yields the outcomes of the candidates' probes. *)
Definition from_stream (cands : list candidate) (turns : list Turn) : Prop :=
  forall t c rtt, t ∈ turns -> happened t = Item c rtt -> c ∈ cands.

Lemma answers_from_stream cands turns pr : from_stream cands turns -> pr ∈ answers turns -> (pr_ip pr, pr_port pr) ∈ cands.
Proof.
  intros Hs Hp. apply list_elem_of_omap in Hp as (t & Ht & Hm). destruct (happened t) as [[ip port] [rtt|]| |] eqn:Hh; try done.
  injection Hm as <-. cbn. by eapply Hs.
Qed.

(** [best] is the fastest answer heard. *)
Definition fastest (heard : list ProbeResult) (best : option ProbeResult) : Prop :=
  match best with
  | Some pr => pr ∈ heard /\ forall x, x ∈ heard -> pr_rtt pr <= pr_rtt x
  | None => heard = []
  end.

Lemma fastest_better heard b pr : fastest heard b -> fastest (heard ++ [pr]) (Some (better b pr)).
Proof.
  unfold fastest, better. destruct b as [cur|].
  - intros [Hc Hm]. destruct (Z.leb_spec (pr_rtt cur) (pr_rtt pr)).
    + split; [apply elem_of_app; by left|]. intros x [Hx|Hx%list_elem_of_singleton]%elem_of_app; [by apply Hm|by subst].
    + split; [apply elem_of_app; right; by apply list_elem_of_singleton|].
      intros x [Hx|Hx%list_elem_of_singleton]%elem_of_app; [|by subst]. specialize (Hm x Hx). lia.
  - intros ->. cbn [app]. split; [by apply list_elem_of_singleton|]. intros x ->%list_elem_of_singleton. done.
Qed.

Definition finished (heard : list ProbeResult) (r : res AetherError ProbeResult) : Prop :=
  match r with
  | Ok pr => fastest heard (Some pr)
  | Err e => e = NoCleanEndpoint /\ heard = []
  | Panic => False
  end.
Lemma finish_fastest heard b : fastest heard b -> finished heard (hunt_finish b).
Proof. by destruct b. Qed.

Lemma hunt_run_spec st deadline turns : forall s heard r later,
  fastest heard (best s) -> (early_exit_first st = true -> heard = []) -> hunt_run st deadline s turns = Some (r, later) ->
  exists used, turns = used ++ later /\ finished (heard ++ answers used) r.
Proof.
  induction turns as [|t turns IH]; intros s heard r later Hb He; [done|]. cbn [hunt_run].
  destruct (remaining (quiet_until s) deadline (top t) =? 0).
  { intros [= <- <-]. exists []. cbn. rewrite app_nil_r. split; [done|]. by apply finish_fastest. }
  assert (forall u, answers (t :: u) = answers [t] ++ answers u) as Hcons by (intros u; exact (omap_app _ [t] u)).
  unfold hunt_turn. destruct (happened t) as [[ip port] [rtt|]| |] eqn:Hh.
  2-4: assert (answers [t] = []) as Ht by (unfold answers; cbn; by rewrite Hh).
  3-4: intros [= <- <-]; exists [t]; rewrite Ht, app_nil_r; split; [done|]; by apply finish_fastest.
  - assert (answers [t] = [mkProbeResult ip port rtt]) as Ht by (unfold answers; cbn; by rewrite Hh).
    pose proof (fastest_better heard (best s) (mkProbeResult ip port rtt) Hb) as Hb'.
    destruct (early_exit_first st) eqn:Hee.
    { intros [= <- <-]. rewrite He in * by done. exists [t]. rewrite Ht. split; [done|]. cbn. split; [by apply list_elem_of_singleton|].
      intros x ->%list_elem_of_singleton. done. }
    assert (forall q, hunt_run st deadline (mkHunt (Some (better (best s) (mkProbeResult ip port rtt))) (found s + 1) q) turns = Some (r, later) ->
      exists used, t :: turns = used ++ later /\ finished (heard ++ answers used) r) as Hgo.
    { intros q Hr. destruct (IH (mkHunt _ _ q) _ _ _ Hb' ltac:(done) Hr) as (used & -> & Hf). exists (t :: used). split; [done|].
      by rewrite Hcons, Ht, app_assoc. }
    destruct (_ && _ && _); [destruct (negb _)|]; [by apply Hgo| |by apply Hgo].
    intros [= <- <-]. exists [t]. rewrite Ht. split; [done|]. by apply (finish_fastest _ (Some _)).
  - intros Hr. destruct (IH _ _ _ _ Hb He Hr) as (used & -> & Hf). exists (t :: used). split; [done|]. by rewrite Hcons, Ht.
Qed.

Lemma hunt_run_ends st deadline turns : forall s,
  Exists (fun t => deadline <= top t \/ happened t = Slept \/ happened t = StreamEnd) turns ->
  is_Some (hunt_run st deadline s turns).
Proof.
  induction turns as [|t turns IH]; intros s Hex; [by apply Exists_nil in Hex|]. cbn [hunt_run].
  destruct (remaining (quiet_until s) deadline (top t) =? 0) eqn:Hr; [by eexists|].
  apply Exists_cons in Hex as [[Ht|Ht]|Hex].
  - zbool. exfalso. apply Hr. unfold remaining, saturating_sub. destruct (quiet_until s); lia.
  - unfold hunt_turn. destruct Ht as [-> | ->]; by eexists.
  - destruct (hunt_turn st deadline s t); [by apply IH|by eexists].
Qed.

Lemma scanned_allowed env custom_tcp has_ipv6 ports ip mode avoid words cands rest c :
  scanned env custom_tcp has_ipv6 ports ip mode avoid words = Some (Some cands, rest) -> c ∈ cands ->
  c.1 ∉ avoid /\ c.2 ∈ default 443 (head ports) :: ports.
Proof.
  unfold scanned. destruct (effective_ip ip has_ipv6) as [ip'|]; [|done]. rewrite draw_bind_Some. intros (all & words' & Hb & Hl) Hc. injection Hl as <- _.
  apply build_candidates_collected in Hb as (s & -> & [_ Hp]). apply list_elem_of_filter in Hc as [Ha Hc]. split; [done|]. by apply (Hp _ Hc).
Qed.

Lemma hunt_picks_candidate custom_tcp mode cands start turns pr later : from_stream cands turns ->
  hunt_best_gateway_avoiding custom_tcp mode (Some cands) start turns = Some (Ok pr, later) -> (pr_ip pr, pr_port pr) ∈ cands.
Proof.
  intros Hst Hr. destruct (hunt_run_spec _ _ _ hunt_start [] _ _ eq_refl ltac:(done) Hr) as (used & -> & [Hin _]). cbn [app] in Hin.
  eapply answers_from_stream; [exact Hst|]. unfold answers. rewrite omap_app. apply elem_of_app. by left.
Qed.

(** C19.  The gateway a MASQUE scan picks passed the probe, is none of the addresses to avoid
    and is the fastest of those that answered before the scan ended; the scan fails only
    when none did, and it ends at its deadline at the latest. *)
Theorem scan_picks_fastest_allowed env custom_tcp has_ipv6 ports ip mode avoid words rest cands start turns :
  scanned env custom_tcp has_ipv6 ports ip mode avoid words = Some (Some cands, rest) -> from_stream cands turns ->
  let deadline := start + overall_deadline (strategy mode) in
  (Exists (fun t => deadline <= top t \/ happened t = Slept \/ happened t = StreamEnd) turns ->
   is_Some (hunt_best_gateway_avoiding custom_tcp mode (Some cands) start turns))
  /\ forall r later, hunt_best_gateway_avoiding custom_tcp mode (Some cands) start turns = Some (r, later) ->
     exists used, turns = used ++ later
     /\ match r with
        | Ok pr => pr ∈ answers used /\ (forall x, x ∈ answers used -> pr_rtt pr <= pr_rtt x)
                   /\ pr_ip pr ∉ avoid /\ pr_port pr ∈ default 443 (head ports) :: ports
        | Err e => e = NoCleanEndpoint /\ answers used = []
        | Panic => False
        end.
Proof.
  intros Hsc Hst deadline. unfold hunt_best_gateway_avoiding.
  assert (overall_deadline (tune_custom_tcp_scan (strategy mode) custom_tcp) = overall_deadline (strategy mode)) as -> by (by destruct custom_tcp).
  split; [intros Hex; by apply hunt_run_ends|].
  intros r later Hr. destruct (hunt_run_spec _ _ _ hunt_start [] _ _ eq_refl ltac:(done) Hr) as (used & -> & Hf). cbn [app] in Hf.
  exists used. split; [done|]. destruct r as [pr|e|]; [|done|done]. destruct Hf as [Hin Hmin]. split; [done|]. split; [done|].
  assert ((pr_ip pr, pr_port pr) ∈ cands) as Hc.
  { eapply answers_from_stream; [exact Hst|]. unfold answers. rewrite omap_app. apply elem_of_app. by left. }
  by apply (scanned_allowed _ _ _ _ _ _ _ _ _ _ _ Hsc Hc).
Qed.
(** ** Samples of a range *)

(** The offsets drawn so far. *)
Definition drawn (base usable : Z) (chosen : gset Z) (out offs : list Z) : Prop :=
  out = map (fun off => wrap_u32 (base + off)) offs /\ NoDup offs /\ (forall x, x ∈ offs <-> x ∈ chosen)
  /\ Forall (fun off => 1 <= off <= usable) offs.

Lemma drawn_new base usable chosen out offs w :
  0 < usable -> drawn base usable chosen out offs -> 1 + random_below usable w ∉ chosen ->
  drawn base usable ({[1 + random_below usable w]} ∪ chosen) (out ++ [wrap_u32 (base + (1 + random_below usable w))])
    (offs ++ [1 + random_below usable w]).
Proof.
  intros Hu (-> & Hn & Hc & Hf) Hnew. pose proof (random_below_range usable w Hu). split; [by rewrite map_app|]. split.
  - apply NoDup_app. split; [done|]. split; [|apply NoDup_singleton]. intros y Hy ->%list_elem_of_singleton. by apply Hnew, Hc.
  - split; [set_solver|]. apply Forall_app. split; [done|]. constructor; [lia|constructor].
Qed.

Lemma sample_v4_loop_spec base usable want words : forall chosen out offs hosts rest,
  0 < usable -> blen out <= want -> drawn base usable chosen out offs ->
  sample_v4_loop base usable want chosen out words = Some (hosts, rest) ->
  exists offs', blen hosts = want /\ hosts = map (fun off => wrap_u32 (base + off)) offs' /\ NoDup offs'
    /\ Forall (fun off => 1 <= off <= usable) offs'.
Proof.
  induction words as [|w words IH]; intros chosen out offs hosts rest Hu Hl Hd; cbn [sample_v4_loop];
    (destruct (Z.leb_spec want (blen out)); [intros [= <- _]; destruct Hd as (-> & ? & _ & ?); exists offs; repeat split; (done || lia)|]); [done|].
  destruct (decide (1 + random_below usable w ∈ chosen)) as [Hin|Hin].
  - by apply (IH _ _ offs).
  - apply (IH _ _ (offs ++ [1 + random_below usable w])); [done|rewrite blen_app; change (blen [?x]) with 1; lia|]. by apply drawn_new.
Qed.

Lemma sample_v4_loop_total base usable want words : forall chosen out offs,
  0 < usable -> want <= usable -> drawn base usable chosen out offs ->
  (forall x, 1 <= x <= usable -> x ∈ chosen \/ exists w, w ∈ words /\ x = 1 + random_below usable w) ->
  is_Some (sample_v4_loop base usable want chosen out words).
Proof.
  induction words as [|w words IH]; intros chosen out offs Hu Hw Hd Hall; cbn [sample_v4_loop];
    (destruct (Z.leb_spec want (blen out)) as [|Hlt]; [by eexists|]).
  - exfalso. destruct Hd as (-> & Hn & Hc & _). assert (seqZ 1 usable ⊆+ offs) as Hs.
    { apply NoDup_submseteq; [apply NoDup_seqZ|]. intros x Hx%elem_of_seqZ. apply Hc.
      destruct (Hall x ltac:(lia)) as [?|(w & Hw' & _)]; [done|by apply elem_of_nil in Hw']. }
    apply submseteq_length in Hs. rewrite length_seqZ in Hs. unfold blen in Hlt. rewrite length_map in Hlt. lia.
  - destruct (decide (1 + random_below usable w ∈ chosen)) as [Hin|Hin].
    + apply (IH _ _ offs); [done|done|done|]. intros x Hx. destruct (Hall x Hx) as [?|(w' & [-> |Hw']%elem_of_cons & ->)]; eauto.
    + apply (IH _ _ (offs ++ [1 + random_below usable w])); [done|done|by apply drawn_new|].
      intros x Hx. destruct (Hall x Hx) as [?|(w' & [-> |Hw']%elem_of_cons & ->)]; [left; set_solver|left; set_solver|eauto].
Qed.

(** A sample of a range whose first address is a multiple of its size: hosts of the range
    other than its first and last address, distinct, as many as asked for or as there are;
    once the generator has given every host the sample is complete. *)
Theorem sample_cidr_v4_in_range cidr base prefix n words :
  parse_cidr_v4 cidr = Some (base, prefix) -> 0 <= prefix <= 30 -> 0 <= base -> 0 <= n <= U32_MAX ->
  let size := if prefix =? 0 then U32_MAX else 2 ^ (32 - prefix) in
  base mod 2 ^ (32 - prefix) = 0 -> base + 2 ^ (32 - prefix) <= 2 ^ 32 ->
  (forall hosts rest, sample_cidr_v4 cidr n words = Some (hosts, rest) ->
     NoDup hosts /\ blen hosts = Z.min n (size - 2) /\ Forall (fun a => base < a < base + size - 1 /\ v4_in a base prefix = true) hosts)
  /\ ((forall x, 0 <= x < size - 2 -> exists w, w ∈ words /\ random_below (size - 2) w = x) -> is_Some (sample_cidr_v4 cidr n words)).
Proof.
  intros Hp Hpre Hb Hn size Hal Hend. unfold sample_cidr_v4. rewrite Hp.
  assert (saturating_sub 32 prefix = 32 - prefix) as -> by (unfold saturating_sub; lia).
  assert ((if 32 <=? 32 - prefix then U32_MAX else 2 ^ (32 - prefix)) = size) as ->.
  { unfold size. destruct (Z.leb_spec 32 (32 - prefix)), (Z.eqb_spec prefix 0); (lia || done). }
  assert (2 < size <= 2 ^ (32 - prefix)) as Hsz.
  { unfold size. destruct (Z.eqb_spec prefix 0) as [-> |]; [done|]. split; [|done].
    assert (2 ^ 2 <= 2 ^ (32 - prefix)) by (apply Z.pow_le_mono_r; lia). lia. }
  assert (2 ^ (32 - prefix) <= 2 ^ 32) by (apply Z.pow_le_mono_r; lia).
  rewrite (proj2 (Z.leb_gt size 2)) by lia. unfold wrap_u32. change 4294967296 with (2 ^ 32). unfold U32_MAX in Hn. rewrite (Z.mod_small n) by lia.
  assert (drawn base (size - 2) ∅ [] []) as Hd by (split; [done|]; split; [constructor|]; split; [set_solver|constructor]).
  split.
  - intros hosts rest Hs. apply (sample_v4_loop_spec base (size - 2) _ words ∅ [] []) in Hs as (offs & Hl & -> & Hnd & Hf); [|lia|change (blen []) with 0; lia|done].
    assert (forall off, off ∈ offs -> 1 <= off <= size - 2) as Hoff by (by apply Forall_forall).
    assert (forall off, off ∈ offs -> wrap_u32 (base + off) = base + off) as Hwr.
    { intros off Ho%Hoff. unfold wrap_u32. apply Z.mod_small. lia. }
    split; [|split; [done|]].
    + apply NoDup_fmap_2_strong; [|done]. intros x y Hx Hy. rewrite !Hwr by done. lia.
    + apply Forall_forall. intros a (off & -> & Ho)%list_elem_of_fmap. rewrite Hwr by done. apply Hoff in Ho. split; [lia|].
      unfold v4_in. apply Z.eqb_eq. rewrite (Z.div_mod base (2 ^ (32 - prefix))) at 1 by lia. rewrite Hal, Z.add_0_r.
      rewrite (Z.mul_comm (2 ^ (32 - prefix))), Z.div_add_l, (Z.div_small off) by lia. lia.
  - intros Hall. apply (sample_v4_loop_total _ _ _ _ ∅ [] []); [lia|lia|done|]. intros x Hx. right.
    destruct (Hall (x - 1) ltac:(lia)) as (w & Hw & He). exists w. split; [done|]. lia.
Qed.
End candidates.

(** ** The scan of WireGuard endpoints *)

Lemma insert_by_rtt_perm pr l : insert_by_rtt pr l ≡ₚ pr :: l.
Proof. induction l as [|x l IH]; [done|]. cbn. destruct (_ <=? _); [done|]. rewrite IH. apply Permutation_swap. Qed.
Lemma sort_by_rtt_perm l : sort_by_rtt l ≡ₚ l.
Proof. induction l as [|x l IH]; [done|]. cbn. by rewrite insert_by_rtt_perm, IH. Qed.

Definition rtt_le (x y : ProbeResult) : Prop := pr_rtt x <= pr_rtt y.
Lemma insert_by_rtt_sorted pr l : StronglySorted rtt_le l -> StronglySorted rtt_le (insert_by_rtt pr l).
Proof.
  induction 1 as [|x l Hs IH Hf]; cbn; [repeat constructor|]. destruct (Z.leb_spec (pr_rtt pr) (pr_rtt x)) as [Hle|Hlt].
  - constructor; [by constructor|]. constructor; [done|]. eapply Forall_impl; [exact Hf|]. unfold rtt_le. intros; lia.
  - constructor; [done|]. rewrite Forall_forall in *. intros y Hy. rewrite insert_by_rtt_perm in Hy.
    apply elem_of_cons in Hy as [-> |Hy]; [unfold rtt_le; lia|by apply Hf].
Qed.
Lemma sort_by_rtt_sorted l : StronglySorted rtt_le (sort_by_rtt l).
Proof. induction l as [|x l IH]; [constructor|]. by apply insert_by_rtt_sorted. Qed.

Lemma first_of_ip_spec l : forall seen, StronglySorted rtt_le l ->
  StronglySorted rtt_le (first_of_ip seen l) /\ NoDup (map pr_ip (first_of_ip seen l))
  /\ (forall x, x ∈ first_of_ip seen l -> x ∈ l /\ pr_ip x ∉ seen)
  /\ forall x, x ∈ l -> pr_ip x ∉ seen -> exists y, y ∈ first_of_ip seen l /\ pr_ip y = pr_ip x /\ rtt_le y x.
Proof.
  induction l as [|z l IH]; intros seen Hs; cbn [first_of_ip].
  { split; [constructor|]. split; [constructor|]. split; intros x Hx; by apply elem_of_nil in Hx. }
  apply StronglySorted_inv in Hs as [Hs Hz]. rewrite Forall_forall in Hz. destruct (decide (pr_ip z ∈ seen)) as [Hin|Hin].
  - destruct (IH seen Hs) as (I1 & I2 & I3 & I4). split; [done|]. split; [done|]. split.
    + intros x [Hx Hn]%I3. split; [apply elem_of_cons; by right|done].
    + intros x [-> |Hx]%elem_of_cons Hn; [done|by apply I4].
  - destruct (IH ({[pr_ip z]} ∪ seen) Hs) as (I1 & I2 & I3 & I4). split; [|split; [|split]].
    + constructor; [done|]. apply Forall_forall. intros x [Hx _]%I3. by apply Hz.
    + cbn [map]. constructor; [|done]. intros (x & He & Hx)%list_elem_of_fmap. apply I3 in Hx as [_ Hx]. set_solver.
    + intros x [-> |[Hx Hn]%I3]%elem_of_cons; [split; [apply elem_of_cons; by left|done]|split; [apply elem_of_cons; by right|set_solver]].
    + intros x Hx Hn. destruct (decide (pr_ip x = pr_ip z)) as [He|He].
      * exists z. split; [apply elem_of_cons; by left|]. split; [done|]. apply elem_of_cons in Hx as [-> |Hx]; [unfold rtt_le; lia|by apply Hz].
      * apply elem_of_cons in Hx as [-> |Hx]; [done|]. destruct (I4 x Hx ltac:(set_solver)) as (y & Hy & Hyx). exists y.
        split; [apply elem_of_cons; by right|done].
Qed.

(** The endpoints offered after a scan: sorted by round trip, one per address, its fastest. *)
Lemma distinct_by_ip_spec l :
  StronglySorted rtt_le (distinct_by_ip l) /\ NoDup (map pr_ip (distinct_by_ip l)) /\ (forall x, x ∈ distinct_by_ip l -> x ∈ l)
  /\ forall x, x ∈ l -> exists y, y ∈ distinct_by_ip l /\ pr_ip y = pr_ip x /\ rtt_le y x.
Proof.
  destruct (first_of_ip_spec (sort_by_rtt l) ∅ (sort_by_rtt_sorted l)) as (H1 & H2 & H3 & H4). unfold distinct_by_ip.
  split; [done|]. split; [done|]. split.
  - intros x [Hx _]%H3. by rewrite sort_by_rtt_perm in Hx.
  - intros x Hx. apply H4; [by rewrite sort_by_rtt_perm|set_solver].
Qed.

(** Everything the scan ends with was answered, and an early result is fast enough. *)
Lemma wg_run_spec env f st want deadline turns : forall s r later,
  wg_run env f st want deadline s turns = Some (r, later) ->
  exists used, turns = used ++ later
  /\ match r with
     | inl l => exists pr, l = [pr] /\ pr ∈ answers used /\ fast_enough env f pr = true
     | inr v => v = verified s ++ answers used
     end.
Proof.
  induction turns as [|t turns IH]; intros s r later; [done|]. cbn [wg_run].
  destruct (remaining (wg_quiet_until s) deadline (top t) =? 0).
  { intros [= <- <-]. exists []. cbn. by rewrite app_nil_r. }
  assert (forall u, answers (t :: u) = answers [t] ++ answers u) as Hcons by (intros u; exact (omap_app _ [t] u)).
  assert (forall s' extra, verified s' = verified s ++ extra -> answers [t] = extra ->
    wg_run env f st want deadline s' turns = Some (r, later) ->
    exists used, t :: turns = used ++ later
    /\ match r with
       | inl l => exists pr, l = [pr] /\ pr ∈ answers used /\ fast_enough env f pr = true
       | inr v => v = verified s ++ answers used
       end) as Hgo.
  { intros s' extra Hv Ht Hr. destruct (IH _ _ _ Hr) as (used & -> & Hu). exists (t :: used). split; [done|]. rewrite Hcons, Ht.
    destruct r as [l|v].
    - destruct Hu as (pr & -> & Hin & Hfe). exists pr. split; [done|]. split; [|done]. apply elem_of_app. by right.
    - by rewrite Hu, Hv, app_assoc. }
  unfold wg_turn. destruct (happened t) as [[ip port] [rtt|]| |] eqn:Hh.
  2-4: assert (answers [t] = []) as Ht by (unfold answers; cbn; by rewrite Hh).
  3-4: intros [= <- <-]; exists [t]; rewrite Ht, app_nil_r; done.
  - assert (answers [t] = [mkProbeResult ip port rtt]) as Ht by (unfold answers; cbn; by rewrite Hh).
    destruct (wg_early_exit s || hunting_for_fast s) eqn:He; cbn [andb].
    1: destruct (fast_enough env f (mkProbeResult ip port rtt)) eqn:Hfe.
    1: { intros [= <- <-]. exists [t]. rewrite Ht. split; [done|]. eexists. split; [done|]. split; [by apply list_elem_of_singleton|done]. }
    all: destruct (wg_early_exit s); [by apply (Hgo (mkWgHunt _ _ _ _ _) [mkProbeResult ip port rtt])|].
    all: destruct (_ && _); [intros [= <- <-]; exists [t]; by rewrite Ht|].
    all: destruct (_ && _ && _); [destruct (negb _)|];
      try (by apply (Hgo (mkWgHunt _ _ _ _ _) [mkProbeResult ip port rtt])); intros [= <- <-]; exists [t]; by rewrite Ht.
  - apply (Hgo s []); [by rewrite app_nil_r|done].
Qed.

(** The endpoint a scan picks: one that passed the probe, no slower than the floor, or the
    one that set the floor. *)
Lemma hunt_best_wg_picks env f mode cands start turns pr :
  hunt_best_wg_endpoint env f mode (Some cands) start turns = Some (Ok pr) ->
  (pr ∈ answers turns /\ match rtt_floor f with Some (_, floor) => pr_rtt pr <= floor | None => True end)
  \/ exists peer, rtt_floor f = Some (peer, pr_rtt pr) /\ mkSocketAddr (pr_ip pr) (pr_port pr) = peer.
Proof.
  unfold hunt_best_wg_endpoint, hunt_wg_endpoints. change (Z.max 1 1) with 1. change (1 <? 1) with false. cbn iota.
  set (st := wg_st (wg_strategy mode)).
  destruct (wg_run env f st 1 (start + overall_deadline st) (mkWgHunt (early_exit_first st) [] 0 None false) turns) as [[r later]|] eqn:Hr; [|done].
  destruct (wg_run_spec _ _ _ _ _ _ _ _ _ Hr) as (used & Hused & Hres). cbn [fmap option_fmap option_map fst]. intros Hh.
  assert (forall x, x ∈ answers used -> x ∈ answers turns) as Hin.
  { intros x Hx. rewrite Hused. unfold answers. rewrite omap_app. apply elem_of_app. by left. }
  destruct r as [l|v]; cbn [wg_pick] in Hh.
  - destruct Hres as (pr' & -> & Hp & Hfe). rsimp. cbn in Hh. injection Hh as <-. left. split; [by apply Hin|].
    unfold fast_enough in Hfe. destruct (rtt_floor f) as [[peer floor]|]; zbool; done.
  - cbn [verified app] in Hres. subst v. case_bool_decide; [done|]. unfold apply_rtt_floor in Hh.
    destruct (distinct_by_ip (answers used)) as [|b l] eqn:Hd.
    { by destruct (rtt_floor f) as [[peer floor]|]. }
    assert (b ∈ answers turns) as Hb by (apply Hin, distinct_by_ip_spec; rewrite Hd; apply elem_of_cons; by left).
    destruct (rtt_floor f) as [[peer floor]|]; [destruct (Z.leb_spec (pr_rtt b) floor)|]; cbn in Hh; injection Hh as <-; try (by left).
    right. exists peer. split; [done|]. by destruct peer.
Qed.

(** Rejecting a cached endpoint sets a floor that is no slower than what was measured. *)
Lemma rejected_floor env f0 peer rtt name :
  within_budget rtt (env_budget_ms env name) = false -> as_millis rtt <= U64_MAX ->
  exists floor, rtt_floor (set_rtt_floor f0 peer rtt) = Some (peer, floor) /\ floor <= rtt.
Proof.
  intros Hw Hm. assert (1000000 <= rtt) as Hl.
  { unfold env_budget_ms, env_ms in Hw. destruct (env name) as [v|]; [|done]. cbn in Hw. destruct (parse_u64 (trim v)) as [ms|]; [|done].
    cbn in Hw. destruct (Z.ltb_spec 0 ms); [|done]. unfold within_budget in Hw. cbn in Hw. unfold from_millis in *.
    destruct (Z.ltb_spec (ms * 1000000) rtt); [lia|done]. }
  assert (1 <= as_millis rtt /\ from_millis (as_millis rtt) <= rtt) as [Hms Hfl].
  { unfold as_millis, from_millis. split; [apply Z.div_le_lower_bound; lia|]. rewrite Z.mul_comm. apply Z.mul_div_le. lia. }
  exists (from_millis (as_millis rtt)). split; [|done].
  unfold rtt_floor, set_rtt_floor, wrap_u64, U64_MAX in *. cbn [floor_ms floor_peer]. rewrite Z.mod_small by lia.
  by rewrite (proj2 (Z.eqb_neq (as_millis rtt) 0)) by lia.
Qed.

(** A cached endpoint that is over its budget is replaced by nothing slower: what the scan
    for another one picks is at least as fast as the cached one was, and is an endpoint
    that passed the probe or the cached one itself. *)
Lemma rejected_cache_not_worsened env env' f0 mode cands start turns peer rtt name pr :
  within_budget rtt (env_budget_ms env' name) = false -> as_millis rtt <= U64_MAX ->
  hunt_best_wg_endpoint env (set_rtt_floor f0 peer rtt) mode (Some cands) start turns = Some (Ok pr) ->
  pr_rtt pr <= rtt /\ (pr ∈ answers turns \/ mkSocketAddr (pr_ip pr) (pr_port pr) = peer).
Proof.
  intros Hw Hm Hh. destruct (rejected_floor env' f0 peer rtt name Hw Hm) as (floor & Hf & Hle).
  destruct (hunt_best_wg_picks _ _ _ _ _ _ _ Hh) as [[Hin Hpr]|(p & Hp & Hpeer)]; rewrite Hf in *; [split; [lia|by left]|].
  injection Hp as <- Hrt. split; [lia|by right].
Qed.

(** ** Two errors of the scans *)

(** A range of the settings keeps the host part of its address, and the hosts are counted
    from there: more than half of the hosts tried for 188.114.96.200/24 are not in it. *)
Example manual_range_leaves_it :
  app_normalize_cidr_v4 (lit " 188.114.96.200/24 ") = Some (lit "188.114.96.200/24")
  /\ (length (filter (fun a => v4_in a (v4_new 188 114 96 0) 24 = false) (enumerate_cidr_v4 (lit "188.114.96.200/24"))) = 199)%nat.
Proof. split; vm_compute; reflexivity. Qed.

Definition example_cached : SocketAddr := mkSocketAddr (V4 (v4_new 162 159 192 115)) 859.
Definition example_edge : candidate := (V4 (v4_new 162 159 195 92), 1701).

Definition mod_rand : RandCrate.
Proof. refine {| random_below n w := w mod n |}. intros n w Hn. apply Z.mod_pos_bound. exact Hn. Defined.

(** The floor ignores the endpoints a run excludes: with 162.159.192.115:859 excluded from
    the candidates, the scan still picks it when its floor is set and the one answer is
    slower. *)
Example floor_restores_excluded :
  let env := fun _ => None in
  let excluded : gset SocketAddr := {[ example_cached ]} in
  let ms := from_millis in
  exists cands rest,
    @build_wg_candidates mod_rand (fun k => if bool_decide (k = lit "AETHER_WG_CIDRS") then Some (lit "162.159.192.115 162.159.195.92") else None)
      (wg_strategy Turbo) [859; 1701] ScanV4 excluded [] = Some (cands, rest)
    /\ cands = [example_edge]
    /\ hunt_best_wg_endpoint env (set_rtt_floor (mkFloor 0 None) example_cached (ms 396)) Turbo (Some cands) 0
         [mkTurn 0 (Item example_edge (Some (ms 475))) (ms 475); mkTurn (ms 475) Slept (ms 1675)]
       = Some (Ok (mkProbeResult (sa_ip example_cached) (sa_port example_cached) (ms 396))).
Proof. do 2 eexists. split; [vm_compute; reflexivity|]. split; [reflexivity|]. vm_compute. reflexivity. Qed.

(** ** The theorems at work *)

Section examples.
#[local] Existing Instance mod_rand.

Definition example_settings (k : bytes) : option bytes :=
  if bool_decide (k = lit "AETHER_SCAN_CIDRS") then Some (lit "192.0.2.1;192.0.2.2") else None.
Definition example_turns : list Turn :=
  [mkTurn 0 (Item (V4 (v4_new 192 0 2 2), 443) (Some (from_millis 90))) (from_millis 90); mkTurn (from_secs 1) StreamEnd (from_secs 2)].

Lemma scan_picks_fastest_allowed_witness :
  exists used, example_turns = used ++ [] /\ mkProbeResult (V4 (v4_new 192 0 2 2)) 443 (from_millis 90) ∈ answers used.
Proof.
  pose proof (scan_picks_fastest_allowed example_settings false true [443] ScanV4 Balanced {[ V4 (v4_new 192 0 2 1) ]} [] []
    [(V4 (v4_new 192 0 2 2), 443)] 0 example_turns) as H.
  destruct H as [_ H].
  - vm_compute. reflexivity.
  - intros t c rtt Ht Hh. apply elem_of_cons in Ht as [-> |Ht]; [injection Hh as <- _; apply elem_of_cons; by left|].
    apply elem_of_cons in Ht as [-> |Ht]; [discriminate|by apply elem_of_nil in Ht].
  - destruct (H (Ok (mkProbeResult (V4 (v4_new 192 0 2 2)) 443 (from_millis 90))) []) as (used & Hu & Hin & _); [vm_compute; reflexivity|]. eauto.
Defined.

Lemma sample_cidr_v4_in_range_witness :
  exists hosts rest, sample_cidr_v4 (lit "10.0.0.0/29") 3 [5; 4; 5; 11; 2] = Some (hosts, rest) /\ NoDup hosts /\ blen hosts = 3.
Proof.
  destruct (sample_cidr_v4_in_range (lit "10.0.0.0/29") (v4_new 10 0 0 0) 29 3 [5; 4; 5; 11; 2]) as [H _];
    try (vm_compute; reflexivity); try (vm_compute; split; discriminate); try (vm_compute; discriminate).
  do 2 eexists. split; [vm_compute; reflexivity|]. edestruct H as (Hn & Hl & _); [vm_compute; reflexivity|].
  split; [exact Hn|]. rewrite Hl. vm_compute. reflexivity.
Defined.

End examples.

End Prober.
