(* ===== verification/SocksWire.v ===== *)
(** * The wire formats of the SOCKS5 server ([aether/src/socks.rs])

    The client's greeting and request, the replies, the UDP datagrams, the DNS
    messages of the resolver and the HTTP CONNECT exchange with a gateway
    proxy.  A TCP stream to read from is the bytes it will deliver; a read
    returns what it consumed and what is left. *)

From S2P Require Import Prelude Str Ip Error RouteDns.
Local Open Scope Z_scope.

Module SocksWire.
Import Error.

Definition VER : Z := 5.
Definition CMD_CONNECT : Z := 1.
Definition CMD_UDP_ASSOCIATE : Z := 3.
Definition ATYP_V4 : Z := 1.
Definition ATYP_DOMAIN : Z := 3.
Definition ATYP_V6 : Z := 4.
Definition REP_OK : Z := 0.
Definition REP_GENERAL : Z := 1.
Definition REP_NOT_ALLOWED : Z := 2.
Definition REP_NOT_SUPPORTED : Z := 7.

Inductive Target :=
| TIp (ip : IpAddr)
| TDomain (name : bytes).

Definition Target_to_string (t : Target) : bytes :=
  match t with TIp ip => ip_to_string ip | TDomain name => name end.

(** ** The request *)

(** [sock.read_exact]: the stream may end first. *)
Definition read_exact (n : Z) (input : bytes) : res AetherError (bytes * bytes) :=
  if blen input <? n then Err (Io (lit "early eof"))
  else Ok (sub input 0 n, sub input n (blen input)).

(** What is written to the client and the rest of the input. *)
Definition handshake (input : bytes) : res AetherError (bytes * bytes) :=
  '(prefix, input) ← read_exact 2 input;
  v ← idx prefix 0;
  if negb (v =? VER) then Err (Other (lit "bad greeting version"))
  else
    nmethods ← idx prefix 1;
    '(methods, input) ← read_exact nmethods input;
    Ok ([VER; 0], input).

Definition read_target (input : bytes) (atyp : Z) : res AetherError ((Target * Z) * bytes) :=
  '(target, input) ←
    (if atyp =? ATYP_V4 then
       '(b, input) ← read_exact 4 input; Ok (TIp (V4 (be_combine b)), input)
     else if atyp =? ATYP_V6 then
       '(b, input) ← read_exact 16 input; Ok (TIp (V6 (be_combine b)), input)
     else if atyp =? ATYP_DOMAIN then
       '(len, input) ← read_exact 1 input;
       len ← idx len 0;
       '(name, input) ← read_exact len input;
       Ok (TDomain (from_utf8_lossy name), input)
     else Err (Other (lit "bad atyp")));
  '(port, input) ← read_exact 2 input;
  p0 ← idx port 0; p1 ← idx port 1;
  Ok ((target, u16_be p0 p1), input).

(** The command, the target and the port; what is written; the rest of the input. *)
Definition read_request (input : bytes) : res AetherError ((Z * Target * Z) * bytes * bytes) :=
  '(out, input) ← handshake input;
  '(head, input) ← read_exact 4 input;
  v ← idx head 0;
  if negb (v =? VER) then Err (Other (lit "bad socks version"))
  else
    atyp ← idx head 3;
    '(tp, input) ← read_target input atyp;
    cmd ← idx head 1;
    Ok ((cmd, tp.1, tp.2), out, input).

Definition reply (code : Z) : bytes := [VER; code; 0; ATYP_V4; 0; 0; 0; 0; 0; 0].

Definition reply_bound (bound : SocketAddr) : bytes :=
  [VER; REP_OK; 0]
  ++ match sa_ip bound with
     | V4 a => [ATYP_V4] ++ octets (V4 a)
     | V6 a => [ATYP_V6] ++ octets (V6 a)
     end
  ++ be16_bytes (sa_port bound).

(** ** UDP datagrams *)

Definition parse_udp_request (buf : bytes) : res unit (Target * (Z * bytes)) :=
  if blen buf <? 4 then Err tt
  else
    rsv ← idx buf 2;
    if negb (rsv =? 0) then Err tt
    else
      atyp ← idx buf 3;
      let pos := 4 in
      '(target, pos) ←
        (if atyp =? ATYP_V4 then
           if blen buf <? pos + 4 then Err tt
           else
             a ← idx buf pos; b ← idx buf (pos + 1); c ← idx buf (pos + 2); d ← idx buf (pos + 3);
             Ok (TIp (V4 (be_combine [a; b; c; d])), pos + 4)
         else if atyp =? ATYP_V6 then
           if blen buf <? pos + 16 then Err tt
           else b ← slice buf pos (pos + 16); Ok (TIp (V6 (be_combine b)), pos + 16)
         else if atyp =? ATYP_DOMAIN then
           len ← get_o buf pos;
           let pos := pos + 1 in
           if blen buf <? pos + len then Err tt
           else name ← slice buf pos (pos + len); Ok (TDomain (from_utf8_lossy name), pos + len)
         else Err tt);
      if blen buf <? pos + 2 then Err tt
      else
        p0 ← idx buf pos; p1 ← idx buf (pos + 1);
        let pos := pos + 2 in
        rest ← slice buf pos (blen buf);
        Ok (target, (u16_be p0 p1, rest)).

Definition build_udp_reply (src : SocketAddr) (data : bytes) : bytes :=
  [0; 0; 0]
  ++ match sa_ip src with
     | V4 a => [ATYP_V4] ++ octets (V4 a)
     | V6 a => [ATYP_V6] ++ octets (V6 a)
     end
  ++ be16_bytes (sa_port src) ++ data.

(** ** DNS messages of the resolver *)

Definition QTYPE_A : Z := 1.
Definition QTYPE_AAAA : Z := 28.
Definition RCODE_NXDOMAIN : Z := 3.

Definition dns_rcode (resp : bytes) : option Z := (fun flags => Z.land flags 15) <$> bget resp 3.

(** [id] is the random identifier. *)
Definition build_dns_query (name : bytes) (qtype id : Z) : bytes :=
  be16_bytes id ++ [1; 0] ++ [0; 1] ++ replicate 6 0
  ++ concat (map (fun label => [wrap_u8 (blen label)] ++ label) (split_char 46 name))
  ++ [0] ++ be16_bytes qtype ++ [0; 1].

(** The loop over the labels of the expected name: the position after them, or
    [None] when one differs. *)
Fixpoint match_labels (resp : bytes) (labels : list bytes) (pos : Z) : res unit (option Z) :=
  match labels with
  | [] => Ok (Some pos)
  | label :: labels =>
      if bool_decide (label = []) then match_labels resp labels pos
      else match bget resp pos with
           | None => Ok None
           | Some len =>
               if negb (len =? blen label) then Ok None
               else
                 let pos := pos + 1 in
                 match checked_add pos len with
                 | Some end_ =>
                     if end_ <=? blen resp then
                       s ← slice resp pos end_;
                       if negb (eq_ignore_ascii_case s label) then Ok None
                       else match_labels resp labels end_
                     else Ok None
                 | None => Ok None
                 end
           end
  end.

Definition dns_response_matches (resp : bytes) (expected_id : Z) (expected_name : bytes) (expected_qtype : Z)
  : res unit bool :=
  if blen resp <? 12 then Ok false
  else
    b0 ← idx resp 0; b1 ← idx resp 1;
    if negb (u16_be b0 b1 =? expected_id) then Ok false
    else
      b2 ← idx resp 2;
      if Z.land b2 128 =? 0 then Ok false
      else
        b4 ← idx resp 4; b5 ← idx resp 5;
        if negb (u16_be b4 b5 =? 1) then Ok false
        else
          m ← match_labels resp (split_char 46 expected_name) 12;
          match m with
          | None => Ok false
          | Some pos =>
              if negb (bool_decide (bget resp pos = Some 0)) then Ok false
              else
                let pos := pos + 1 in
                if blen resp <? pos + 4 then Ok false
                else
                  q0 ← idx resp pos; q1 ← idx resp (pos + 1);
                  Ok (u16_be q0 q1 =? expected_qtype)
          end.

Definition skip_name_step (buf : bytes) (pos : Z) : Z + option Z :=
  match bget buf pos with
  | None => inr None
  | Some len =>
      if Z.land len 192 =? 192 then inr (Some (pos + 2))
      else if len =? 0 then inr (Some (pos + 1))
      else inl (pos + (1 + len))
  end.
Definition skip_name (buf : bytes) (pos : Z) : option Z :=
  mjoin (loop (S (length buf)) (skip_name_step buf) pos).

Fixpoint skip_questions (resp : bytes) (qd : nat) (pos : Z) : res unit Z :=
  match qd with
  | O => Ok pos
  | S qd =>
      pos ← try_opt (skip_name resp pos);
      pos ← try_opt (checked_add pos 4);
      skip_questions resp qd pos
  end.

Fixpoint find_answer (resp : bytes) (qtype : Z) (an : nat) (pos : Z) : res unit IpAddr :=
  match an with
  | O => Err tt
  | S an =>
      pos ← try_opt (skip_name resp pos);
      if blen resp <? pos + 10 then Err tt
      else
        r0 ← idx resp pos; r1 ← idx resp (pos + 1);
        let rtype := u16_be r0 r1 in
        l0 ← idx resp (pos + 8); l1 ← idx resp (pos + 9);
        let rdlen := u16_be l0 l1 in
        let pos := pos + 10 in
        if blen resp <? pos + rdlen then Err tt
        else if (rtype =? qtype) && (qtype =? QTYPE_A) && (rdlen =? 4) then
          a ← idx resp pos; b ← idx resp (pos + 1); c ← idx resp (pos + 2); d ← idx resp (pos + 3);
          Ok (V4 (v4_new a b c d))
        else if (rtype =? qtype) && (qtype =? QTYPE_AAAA) && (rdlen =? 16) then
          o ← slice resp pos (pos + 16); Ok (V6 (be_combine o))
        else find_answer resp qtype an (pos + rdlen)
  end.

Definition parse_dns_answer (resp : bytes) (qtype : Z) : res unit IpAddr :=
  if blen resp <? 12 then Err tt
  else
    b4 ← idx resp 4; b5 ← idx resp 5; b6 ← idx resp 6; b7 ← idx resp 7;
    let qd := u16_be b4 b5 in
    let an := u16_be b6 b7 in
    pos ← skip_questions resp (Z.to_nat qd) 12;
    find_answer resp qtype (Z.to_nat an) pos.

(** The servers of the environment variable [AETHER_DNS]. *)
Definition resolver_addresses (env : bytes -> option bytes) : list SocketAddr :=
  let configured := default [] (env (lit "AETHER_DNS")) in
  let add servers token :=
    let entry := trim token in
    if bool_decide (entry = []) then servers
    else
      let parsed :=
        match parse_socket_addr entry with
        | Some a => Some a
        | None => (fun ip => mkSocketAddr ip 53) <$> parse_ip entry
        end in
      match parsed with
      | Some server => if bool_decide (server ∈ servers) then servers else servers ++ [server]
      | None => servers
      end in
  let servers := fold_left add (split_chars (fun b => (b =? 44) || (b =? 32) || (b =? 59)) configured) [] in
  if bool_decide (servers = []) then
    [mkSocketAddr (V4 (v4_new 1 1 1 1)) 53; mkSocketAddr (V4 (v4_new 1 0 0 1)) 53]
  else servers.

(** ** The gateway proxy *)

Definition should_use_gateway (port : Z) : bool := (port =? 80) || (port =? 443).

Definition UA_REGISTER : bytes := lit "WARP for Android".

Definition build_proxy_connect (target : bytes) (port : Z) : bytes :=
  let authority :=
    if contains_char 58 target && negb (starts_with (lit "[") target)
    then lit "[" ++ target ++ lit "]:" ++ dec port
    else target ++ lit ":" ++ dec port in
  lit "CONNECT " ++ authority ++ lit " HTTP/1.1" ++ [13; 10] ++ lit "Host: " ++ authority ++ [13; 10]
  ++ lit "User-Agent: " ++ UA_REGISTER ++ [13; 10; 13; 10].

Definition proxy_connect_succeeded (head : bytes) : option bool :=
  let text := from_utf8_lossy head in
  line_end ← find_sub [13; 10] text;
  word ← split_whitespace (sub text 0 line_end) !! 1%nat;
  status ← parse_u16 word;
  Some ((200 <=? status) && (status <? 300)).

(** The end of the head: just after the first empty line. *)
Definition find_head_end (buffer : bytes) : option Z :=
  (fun at_ => at_ + 4) <$> find_sub [13; 10; 13; 10] buffer.

Definition GATEWAY_HEAD_LIMIT : Z := 8192.

(** What the loop of [open_through_gateway] reads: the chunks the connection
    delivers, each [None] once it does not answer in time or is closed (with the
    text of that error).  It returns the bytes after the head and the chunks
    not yet received. *)
Fixpoint read_gateway_head (authority proxy : bytes) (port : Z) (head : bytes) (chunks : list (bytes + bytes))
  : res AetherError (bytes * list (bytes + bytes)) :=
  match chunks with
  | [] => Err (Other (lit "gateway " ++ proxy ++ lit " closed the connection"))
  | inr error :: _ => Err (Other error)
  | inl chunk :: chunks =>
      let head := head ++ chunk in
      match find_head_end head with
      | Some at_ =>
          match proxy_connect_succeeded head with
          | None => Err (Other (lit "gateway " ++ proxy ++ lit " sent a malformed response"))
          | Some true => leftover ← slice head at_ (blen head); Ok (leftover, chunks)
          | Some false =>
              h ← slice head 0 at_;
              let status := trim (default (lit "no status") (lines (from_utf8_lossy h) !! 0%nat)) in
              Err (Other (lit "gateway refused " ++ authority ++ lit ":" ++ dec port ++ lit " (" ++ status ++ lit ")"))
          end
      | None =>
          if GATEWAY_HEAD_LIMIT <? blen head
          then Err (Other (lit "gateway " ++ proxy ++ lit " sent an oversized response head"))
          else read_gateway_head authority proxy port head chunks
      end
  end.

(** ** Addresses *)

Definition dialable (bound : SocketAddr) : SocketAddr :=
  match sa_ip bound with
  | V4 ip => if v4_is_unspecified ip then mkSocketAddr (V4 (v4_new 127 0 0 1)) (sa_port bound) else bound
  | V6 ip => if v6_is_unspecified ip then mkSocketAddr (V6 1) (sa_port bound) else bound
  end.

Definition normalize_ip (ip : IpAddr) : IpAddr :=
  match ip with
  | V6 v6 => match to_ipv4_mapped v6 with Some v4 => V4 v4 | None => V6 v6 end
  | other => other
  end.

Definition expected_udp_source (control_peer : SocketAddr) (requested : Target) : IpAddr :=
  match requested with
  | TIp ip => if negb (ip_is_unspecified ip) then normalize_ip ip else normalize_ip (sa_ip control_peer)
  | TDomain _ => normalize_ip (sa_ip control_peer)
  end.

Definition udp_source_allowed (expected_ip : IpAddr) (latched : option SocketAddr) (from : SocketAddr) : bool :=
  match latched with
  | Some known => bool_decide (known = from)
  | None => bool_decide (normalize_ip (sa_ip from) = normalize_ip expected_ip)
  end.

Definition direct_target_allowed (client address : IpAddr) : bool :=
  let address := normalize_ip address in
  if ip_is_loopback address || ip_is_unspecified address then ip_is_loopback (normalize_ip client) else true.

(** ** Encodings *)

Definition target_wf (t : Target) : Prop :=
  match t with
  | TIp ip => ip_wf ip
  | TDomain name => blen name <= 255 /\ str_is_ascii name = true
  end.

(** The type and the bytes of an address. *)
Definition target_type (t : Target) : Z :=
  match t with TIp (V4 _) => ATYP_V4 | TIp (V6 _) => ATYP_V6 | TDomain _ => ATYP_DOMAIN end.
Definition target_body (t : Target) : bytes :=
  match t with TIp ip => octets ip | TDomain name => [blen name] ++ name end.

Definition enc_udp_request (t : Target) (port : Z) (data : bytes) : bytes :=
  [0; 0; 0; target_type t] ++ target_body t ++ be16_bytes port ++ data.

Lemma build_udp_reply_enc src data :
  build_udp_reply src data = enc_udp_request (TIp (sa_ip src)) (sa_port src) data.
Proof. unfold build_udp_reply, enc_udp_request. by destruct (sa_ip src). Qed.

Lemma be_bytes_4 v : exists a b c d, be_bytes 4 v = [a; b; c; d].
Proof. by repeat eexists. Qed.

Lemma octets_combine ip :
  ip_wf ip -> match ip with V4 a => be_combine (octets ip) = a | V6 a => be_combine (octets ip) = a end.
Proof.
  destruct ip as [a|a]; cbn [ip_wf octets]; intros; apply be_combine_bytes; cbn; unfold U32_MAX in *; lia.
Qed.

(** The address of a datagram, as [parse_udp_request] reads it at offset 4. *)
Lemma parse_udp_target l t post :
  target_wf t -> l = [0; 0; 0; target_type t] ++ target_body t ++ post ->
  (if target_type t =? ATYP_V4 then
     if blen l <? 4 + 4 then Err tt
     else
       a ← idx l 4; b ← idx l (4 + 1); c ← idx l (4 + 2); d ← idx l (4 + 3);
       Ok (TIp (V4 (be_combine [a; b; c; d])), 4 + 4)
   else if target_type t =? ATYP_V6 then
     if blen l <? 4 + 16 then Err tt
     else b ← slice l 4 (4 + 16); Ok (TIp (V6 (be_combine b)), 4 + 16)
   else if target_type t =? ATYP_DOMAIN then
     len ← get_o l 4;
     if blen l <? 4 + 1 + len then Err tt
     else name ← slice l (4 + 1) (4 + 1 + len); Ok (TDomain (from_utf8_lossy name), 4 + 1 + len)
   else Err tt) = Ok (t, 4 + blen (target_body t)).
Proof.
  intros Ht Hl. assert (Hlen : blen l = 4 + blen (target_body t) + blen post) by (rewrite Hl; blia).
  destruct t as [[a|a]|name]; cbn [target_type target_body target_wf] in *.
  - change (ATYP_V4 =? ATYP_V4) with true. cbn iota.
    pose proof (octets_combine (V4 a) Ht) as Hc. cbn [octets] in *.
    destruct (be_bytes_4 a) as (x & y & z & w & Hb). rewrite Hb in *. autorewrite with blens in Hlen.
    rewrite (proj2 (Z.ltb_ge _ _)) by blia. rewrite Hl.
    change (idx (?p ++ [x; y; z; w] ++ post) 4) with (@Ok unit Z x).
    change (idx (?p ++ [x; y; z; w] ++ post) (4 + 1)) with (@Ok unit Z y).
    change (idx (?p ++ [x; y; z; w] ++ post) (4 + 2)) with (@Ok unit Z z).
    change (idx (?p ++ [x; y; z; w] ++ post) (4 + 3)) with (@Ok unit Z w). rsimp. by rewrite Hc.
  - change (ATYP_V6 =? ATYP_V4) with false. change (ATYP_V6 =? ATYP_V6) with true. cbn iota.
    pose proof (octets_combine (V6 a) Ht) as Hc. cbn [octets] in *. rewrite blen_be_bytes in *.
    rewrite (proj2 (Z.ltb_ge _ _)) by blia. rewrite slice_ok by blia. rsimp.
    rewrite (sub_at l [0; 0; 0; ATYP_V6] (be_bytes 16 a) post) by (done || (rewrite ?blen_be_bytes; done)).
    by rewrite Hc.
  - destruct Ht as [Hn Ha]. change (ATYP_DOMAIN =? ATYP_V4) with false.
    change (ATYP_DOMAIN =? ATYP_V6) with false. change (ATYP_DOMAIN =? ATYP_DOMAIN) with true. cbn iota.
    unfold get_o. rewrite (bget_at l [0; 0; 0; ATYP_DOMAIN] (name ++ post) 4 (blen name)) by done. rsimp.
    autorewrite with blens in Hlen. rewrite (proj2 (Z.ltb_ge _ _)) by blia. rewrite slice_ok by blia. rsimp.
    rewrite (sub_at l ([0; 0; 0; ATYP_DOMAIN] ++ [blen name]) name post) by (done || blia).
    rewrite lossy_ascii by done. do 2 f_equal. blia.
Qed.

(** A UDP request for a target, and the reply that has its form. *)
Lemma parse_udp_request_of t port data :
  target_wf t -> 0 <= port <= U16_MAX ->
  parse_udp_request (enc_udp_request t port data) = Ok (t, (port, data))
  /\ forall ip, t = TIp ip -> build_udp_reply (mkSocketAddr ip port) data = enc_udp_request t port data.
Proof.
  intros Ht Hport. split; [|intros ip ->; apply build_udp_reply_enc].
  unfold parse_udp_request. set (l := enc_udp_request t port data).
  assert (Hlen : blen l = 4 + blen (target_body t) + 2 + blen data) by (unfold l, enc_udp_request; blia).
  assert (Hl : l = ([0; 0; 0; target_type t] ++ target_body t) ++ be16_bytes port ++ data)
    by (unfold l, enc_udp_request; solve_app).
  rewrite (proj2 (Z.ltb_ge _ _)) by blia.
  change (idx l 2) with (@Ok unit Z 0). change (idx l 3) with (@Ok unit Z (target_type t)). rsimp. cbn [negb Z.eqb].
  rewrite (parse_udp_target l t (be16_bytes port ++ data)) by done. rsimp.
  rewrite (proj2 (Z.ltb_ge _ _)) by blia.
  destruct (@idx_be16 unit l ([0; 0; 0; target_type t] ++ target_body t) port data (4 + blen (target_body t)))
    as [-> ->]; [done|blia|]. rsimp. rewrite u16_be_roundtrip, slice_ok by blia. rsimp.
  by rewrite (sub_at l (([0; 0; 0; target_type t] ++ target_body t) ++ be16_bytes port) data [])
    by (blia || (rewrite Hl, app_nil_r; solve_app)).
Qed.

(** A UDP request round trips for every target and payload; what
    [build_udp_reply] writes is such a datagram, so it is parsed back to its source
    and its data. *)
Theorem udp_request_roundtrip t port data :
  target_wf t -> 0 <= port <= U16_MAX ->
  parse_udp_request (enc_udp_request t port data) = Ok (t, (port, data))
  /\ forall ip, t = TIp ip -> build_udp_reply (mkSocketAddr ip port) data = enc_udp_request t port data.
Proof. apply parse_udp_request_of. Qed.

(** ** The client's request *)

Lemma read_exact_app n l rest : blen l = n -> read_exact n (l ++ rest) = Ok (l, rest).
Proof.
  intros <-. unfold read_exact. rewrite (proj2 (Z.ltb_ge _ _)) by blia.
  rewrite (sub_at _ [] l rest), (sub_at _ l rest []) by (done || (by rewrite app_nil_r) || blia). done.
Qed.

Lemma read_target_enc t port rest :
  target_wf t -> 0 <= port <= U16_MAX ->
  read_target (target_body t ++ be16_bytes port ++ rest) (target_type t) = Ok ((t, port), rest).
Proof.
  intros Ht Hport. unfold read_target.
  match goal with |- (?m ≫= _) = _ => assert (m = Ok (t, be16_bytes port ++ rest)) as -> end.
  { destruct t as [[a|a]|name]; cbn [target_type target_body target_wf] in *.
    - pose proof (octets_combine (V4 a) Ht) as Hc. rewrite read_exact_app by (apply blen_be_bytes).
      rsimp. by rewrite Hc.
    - pose proof (octets_combine (V6 a) Ht) as Hc. change (ATYP_V6 =? ATYP_V4) with false.
      change (ATYP_V6 =? ATYP_V6) with true. cbn iota. rewrite read_exact_app by (apply blen_be_bytes).
      rsimp. by rewrite Hc.
    - destruct Ht as [Hn Ha]. change (ATYP_DOMAIN =? ATYP_V4) with false.
      change (ATYP_DOMAIN =? ATYP_V6) with false. change (ATYP_DOMAIN =? ATYP_DOMAIN) with true. cbn iota.
      rewrite <- app_assoc, read_exact_app by done. rsimp.
      change (idx [blen name] 0) with (@Ok AetherError Z (blen name)). rsimp.
      rewrite read_exact_app by done. rsimp. by rewrite lossy_ascii. }
  rsimp. rewrite read_exact_app by done. rsimp. rewrite be16_bytes_spec.
  change (idx [?a; ?b] 0) with (@Ok AetherError Z a). change (idx [?a; ?b] 1) with (@Ok AetherError Z b). rsimp.
  by rewrite u16_be_roundtrip.
Qed.

(** The request of a client and what follows it. *)
Lemma read_request_of methods cmd rsv t port rest :
  target_wf t -> 0 <= port <= U16_MAX ->
  read_request ([VER; blen methods] ++ methods ++ [VER; cmd; rsv; target_type t] ++ target_body t
                ++ be16_bytes port ++ rest)
  = Ok ((cmd, t, port), [VER; 0], rest).
Proof.
  intros Ht Hport. unfold read_request, handshake.
  rewrite read_exact_app by done. rsimp.
  change (idx [VER; blen methods] 0) with (@Ok AetherError Z VER).
  change (idx [VER; blen methods] 1) with (@Ok AetherError Z (blen methods)). rsimp. cbn [negb Z.eqb Pos.eqb VER].
  rewrite read_exact_app by done. rsimp. rewrite read_exact_app by done. rsimp.
  change (idx [VER; cmd; rsv; target_type t] 0) with (@Ok AetherError Z VER). rsimp.
  change (negb (VER =? VER)) with false. cbn iota.
  change (idx [VER; cmd; rsv; target_type t] 3) with (@Ok AetherError Z (target_type t)).
  change (idx [VER; cmd; rsv; target_type t] 1) with (@Ok AetherError Z cmd). rsimp.
  by rewrite read_target_enc.
Qed.

(** The greeting and the request of a SOCKS5 client are read whatever its
    methods: the answer selects no authentication, the command, target and port are
    those of the request, and no byte after the request is consumed. *)
Theorem read_request_enc methods cmd rsv t port rest :
  target_wf t -> 0 <= port <= U16_MAX ->
  read_request ([VER; blen methods] ++ methods ++ [VER; cmd; rsv; target_type t] ++ target_body t
                ++ be16_bytes port ++ rest)
  = Ok ((cmd, t, port), [VER; 0], rest).
Proof. apply read_request_of. Qed.

(** ** DNS queries and responses *)

Import RouteDns.

(** A label of a name: 1 to 63 bytes, none of them a dot. *)
Definition plain_label (l : bytes) : Prop := 1 <= blen l <= 63 /\ no_char 46 l = true.

(** A query for a name of plain labels is the DNS query for these labels. *)
Lemma build_dns_query_enc l ls qtype id :
  Forall plain_label (l :: ls) ->
  build_dns_query (join_dots (l :: ls)) qtype id
  = enc_query (mkQuery (be16_bytes id) 1 0 (replicate 6 0) (l :: ls) qtype 1).
Proof.
  intros Hls. unfold build_dns_query. rewrite split_join_dots by (by eapply Forall_impl; [done|intros ? []]).
  unfold enc_query, enc_question, enc_name, enc_labels. cbn [q_id q_flags1 q_flags2 q_counts q_name q_type q_class].
  rewrite <- !app_assoc. do 5 f_equal. f_equal.
  apply map_ext_in. intros k Hk%list_elem_of_In. rewrite Forall_forall in Hls. destruct (Hls k Hk) as [Hl _].
  unfold wrap_u8. by rewrite Z.mod_small by lia.
Qed.

Lemma plain_label_ne l : plain_label l -> l <> [].
Proof. intros [Hl _] ->. change (blen (@nil Z)) with 0 in Hl. lia. Qed.

(** The loop over the labels against an encoded name. *)
Lemma match_labels_enc resp ls : forall ls' pre post pos,
  resp = pre ++ enc_name ls' ++ post -> pos = blen pre -> blen resp <= USIZE_MAX ->
  Forall plain_label ls -> Forall (fun l => 1 <= blen l <= 63) ls' ->
  exists r, match_labels resp ls pos = Ok r
    /\ match r with
       | Some p => exists ls1 ls2, ls' = ls1 ++ ls2 /\ map to_ascii_lowercase ls = map to_ascii_lowercase ls1
                                  /\ p = pos + blen (enc_labels ls1)
       | None => map to_ascii_lowercase ls <> map to_ascii_lowercase ls'
       end.
Proof.
  induction ls as [|l ls IH]; intros ls' pre post pos Hr Hpos Hmax Hls Hls'; cbn [match_labels].
  { eexists. split; [done|]. exists [], ls'. split; [done|]. split; [done|]. change (blen (enc_labels [])) with 0. lia. }
  apply Forall_cons in Hls as [Hl Hls]. pose proof (plain_label_ne l Hl) as Hne.
  rewrite bool_decide_eq_false_2 by done. destruct Hl as [Hl _].
  destruct ls' as [|l' ls'].
  { rewrite (bget_at resp pre post pos 0) by (done || (rewrite Hr; solve_app)).
    rewrite (proj2 (Z.eqb_neq 0 _)) by lia. by eexists. }
  apply Forall_cons in Hls' as [Hl' Hls']. unfold enc_name in Hr. rewrite enc_labels_cons in Hr.
  rewrite (bget_at resp pre (l' ++ enc_labels ls' ++ [0] ++ post) pos (blen l'))
    by (done || (rewrite Hr; solve_app)).
  destruct (blen l' =? blen l) eqn:Hlen; zbool; cbn [negb].
  2: { eexists. split; [done|]. cbn. intros [= Heq _]. apply Hlen.
       rewrite <- (blen_to_ascii_lowercase l), Heq. by rewrite blen_to_ascii_lowercase. }
  assert (Hle : pos + 1 + blen l' <= blen resp) by (rewrite Hr; blia).
  rewrite checked_add_ok by lia. rewrite (proj2 (Z.leb_le _ _)) by done.
  rewrite slice_ok by blia. rsimp.
  rewrite (sub_at resp (pre ++ [blen l']) l' (enc_labels ls' ++ [0] ++ post))
    by ((rewrite Hr; solve_app) || blia).
  unfold eq_ignore_ascii_case. case_bool_decide as Heq; cbn [negb].
  2: { eexists. split; [done|]. cbn. congruence. }
  destruct (IH ls' (pre ++ [blen l'] ++ l') post (pos + 1 + blen l')) as (r & Hm & Hp);
    [rewrite Hr; unfold enc_name; solve_app | blia | done | done | done |].
  exists r. split; [done|]. destruct r as [p|].
  - destruct Hp as (ls1 & ls2 & -> & Hmap & ->). exists (l' :: ls1), ls2. split; [done|].
    split; [cbn; congruence|]. rewrite enc_labels_cons. blia.
  - cbn. intros [= _ ?]. by apply Hp.
Qed.

(** A response to a question with the labels [ls]. *)
Definition enc_answer (id flags1 flags2 : Z) (ls : list bytes) (qtype class : Z) (counts : bytes) (rrs : list rr) : bytes :=
  enc_response (be16_bytes id) flags1 flags2 ls (be16_bytes qtype ++ be16_bytes class) counts rrs.

Lemma enc_answer_app id flags1 flags2 ls qtype class counts rrs :
  enc_answer id flags1 flags2 ls qtype class counts rrs
  = ([(id / 256) mod 256; id mod 256; flags1; flags2; 0; 1; (blen rrs / 256) mod 256; blen rrs mod 256] ++ counts)
    ++ enc_name ls ++ be16_bytes qtype ++ be16_bytes class ++ concat (map enc_rr rrs).
Proof. unfold enc_answer, enc_response. rewrite !be16_bytes_spec. solve_app. Qed.

Lemma enc_answer_idx {E} id flags1 flags2 ls qtype class counts rrs i v :
  bget [(id / 256) mod 256; id mod 256; flags1; flags2; 0; 1; (blen rrs / 256) mod 256; blen rrs mod 256] i = Some v ->
  @idx E Z (enc_answer id flags1 flags2 ls qtype class counts rrs) i = Ok v.
Proof.
  intros Hv. unfold idx. rewrite enc_answer_app, <- app_assoc, bget_app_l by (apply bget_Some in Hv; lia).
  by rewrite Hv.
Qed.

Lemma enc_name_head l ls post : 1 <= blen l -> bget (enc_name (l :: ls) ++ post) 0 = Some (blen l).
Proof. done. Qed.

(** A response against a query, field by field. *)
Lemma dns_response_matches_enc id flags1 flags2 ls' qtype class counts rrs eid l ls eqtype :
  let resp := enc_answer id flags1 flags2 ls' qtype class counts rrs in
  blen counts = 4 -> 0 <= id <= U16_MAX -> 0 <= qtype <= U16_MAX -> blen resp <= USIZE_MAX ->
  Forall plain_label (l :: ls) -> Forall (fun l => 1 <= blen l <= 63) ls' ->
  dns_response_matches resp eid (join_dots (l :: ls)) eqtype
  = Ok ((id =? eid) && negb (Z.land flags1 128 =? 0)
        && bool_decide (map to_ascii_lowercase (l :: ls) = map to_ascii_lowercase ls')
        && (qtype =? eqtype)).
Proof.
  intros resp Hc Hid Hqt Hmax Hls Hls'. unfold dns_response_matches.
  set (pre := [(id / 256) mod 256; id mod 256; flags1; flags2; 0; 1; (blen rrs / 256) mod 256; blen rrs mod 256] ++ counts).
  set (tail := concat (map enc_rr rrs)).
  assert (Hr : resp = pre ++ enc_name ls' ++ be16_bytes qtype ++ be16_bytes class ++ tail) by apply enc_answer_app.
  assert (Hpre : blen pre = 12) by (unfold pre; blia).
  assert (Hlen : blen resp = 12 + blen (enc_name ls') + 4 + blen tail) by (rewrite Hr; blia).
  pose proof (blen_nonneg (enc_name ls')). pose proof (blen_nonneg tail).
  rewrite (proj2 (Z.ltb_ge _ _)) by lia. unfold resp.
  rewrite !(enc_answer_idx _ _ _ _ _ _ _ _ 0 ((id / 256) mod 256)), !(enc_answer_idx _ _ _ _ _ _ _ _ 1 (id mod 256)),
    !(enc_answer_idx _ _ _ _ _ _ _ _ 2 flags1), !(enc_answer_idx _ _ _ _ _ _ _ _ 4 0),
    !(enc_answer_idx _ _ _ _ _ _ _ _ 5 1) by done.
  fold resp. rsimp. rewrite u16_be_roundtrip by done. destruct (id =? eid); [|done]. cbn [negb andb].
  destruct (Z.land flags1 128 =? 0); [done|]. cbn [negb andb]. change (negb (u16_be 0 1 =? 1)) with false. cbn iota.
  rewrite split_join_dots by (by eapply Forall_impl; [done|intros ? []]).
  destruct (match_labels_enc resp (l :: ls) ls' pre (be16_bytes qtype ++ be16_bytes class ++ tail) 12)
    as (r & -> & Hm); [done..|]. rsimp. destruct r as [p|]; [|by rewrite bool_decide_eq_false_2].
  destruct Hm as (ls1 & ls2 & -> & Hmap & ->).
  assert (Hn : enc_name (ls1 ++ ls2) = enc_labels ls1 ++ enc_name ls2)
    by (unfold enc_name, enc_labels; rewrite map_app, concat_app; solve_app).
  destruct ls2 as [|k ls2].
  - rewrite app_nil_r in *. rewrite (bool_decide_eq_true_2 (map _ _ = _)) by done.
    change (enc_name []) with [0] in Hn. rewrite Hn in *.
    rewrite (bool_decide_eq_true_2 (bget _ _ = _)).
    2: { apply (bget_at _ (pre ++ enc_labels ls1) (be16_bytes qtype ++ be16_bytes class ++ tail));
         [rewrite Hr; solve_app|blia]. }
    cbn [negb]. rewrite (proj2 (Z.ltb_ge _ _)) by blia.
    destruct (@idx_be16 unit resp (pre ++ enc_labels ls1 ++ [0]) qtype (be16_bytes class ++ tail)
      (12 + blen (enc_labels ls1) + 1)) as [-> ->]; [rewrite Hr; solve_app|blia|].
    rsimp. by rewrite u16_be_roundtrip.
  - rewrite (bool_decide_eq_false_2 (bget _ _ = _)).
    + rewrite (bool_decide_eq_false_2 (map _ _ = _)); [done|].
      * intros Heq. rewrite Hmap, map_app in Heq. apply (f_equal length) in Heq. rewrite length_app in Heq. cbn in Heq. lia.
    + apply Forall_app in Hls' as [_ Hk]. apply Forall_cons in Hk as [Hk _].
      rewrite (bget_at _ (pre ++ enc_labels ls1) (k ++ enc_name ls2 ++ be16_bytes qtype ++ be16_bytes class ++ tail) _ (blen k));
        [intros [= Hz]; lia | rewrite Hr, Hn; unfold enc_name; rewrite enc_labels_cons; solve_app | blia].
Qed.

(** A response is taken for the answer to a query exactly when it has the
    query's identifier, is a response, asks for the same labels whatever their case
    and has the query's type. *)
Theorem dns_response_matches_iff id flags1 flags2 ls' qtype class counts rrs eid l ls eqtype :
  let resp := enc_answer id flags1 flags2 ls' qtype class counts rrs in
  blen counts = 4 -> 0 <= id <= U16_MAX -> 0 <= qtype <= U16_MAX -> blen resp <= USIZE_MAX ->
  Forall plain_label (l :: ls) -> Forall (fun l => 1 <= blen l <= 63) ls' ->
  dns_response_matches resp eid (join_dots (l :: ls)) eqtype
  = Ok ((id =? eid) && negb (Z.land flags1 128 =? 0)
        && bool_decide (map to_ascii_lowercase (l :: ls) = map to_ascii_lowercase ls')
        && (qtype =? eqtype)).
Proof. apply dns_response_matches_enc. Qed.

(** ** The answer *)

Lemma skip_name_labels buf ls : forall pre post pos fuel,
  buf = pre ++ enc_labels ls ++ post -> pos = blen pre -> Forall (fun l => 1 <= blen l <= 63) ls ->
  (length ls <= fuel)%nat ->
  loop fuel (skip_name_step buf) pos
  = loop (fuel - length ls) (skip_name_step buf) (pos + blen (enc_labels ls)).
Proof.
  induction ls as [|l ls IH]; intros pre post pos fuel Hb Hp Hls Hf.
  - cbn [length]. change (blen (enc_labels [])) with 0. by rewrite Z.add_0_r, Nat.sub_0_r.
  - apply Forall_cons in Hls as [Hl Hls]. cbn [length] in *. rewrite enc_labels_cons in *.
    destruct fuel as [|fuel]; [lia|]. rewrite (loop_step _ _ _ (pos + (1 + blen l))).
    + rewrite (IH (pre ++ [blen l] ++ l) post) by (done || lia || blia || (rewrite Hb; solve_app)).
      replace (S fuel - S (length ls))%nat with (fuel - length ls)%nat by lia. f_equal. blia.
    + unfold skip_name_step. rewrite (bget_at buf pre (l ++ enc_labels ls ++ post) pos (blen l))
        by (done || (rewrite Hb; solve_app)).
      rewrite label_len_bits by done. by rewrite (proj2 (Z.eqb_neq (blen l) 0)) by lia.
Qed.

Lemma enc_labels_length ls : Forall (fun l => 1 <= blen l <= 63) ls -> (length ls <= length (enc_labels ls))%nat.
Proof.
  induction 1 as [|l ls Hl _ IH]; [done|]. rewrite enc_labels_cons, !length_app. cbn [length]. lia.
Qed.

(** Skipping a name that ends with the root or a pointer. *)
Lemma skip_name_end buf ls tail pre post pos :
  buf = pre ++ enc_labels ls ++ tail ++ post -> pos = blen pre -> Forall (fun l => 1 <= blen l <= 63) ls ->
  (tail = [0] \/ exists hi lo, tail = [hi; lo] /\ Z.land hi 192 = 192) ->
  skip_name buf pos = Some (pos + blen (enc_labels ls) + blen tail).
Proof.
  intros Hb Hp Hls Ht. unfold skip_name. pose proof (enc_labels_length ls Hls).
  rewrite (skip_name_labels buf ls pre (tail ++ post)) by (done || (rewrite Hb, !length_app; lia)).
  destruct (S (length buf) - length ls)%nat as [|fuel] eqn:Hf; [rewrite Hb, !length_app in Hf; lia|].
  rewrite (loop_exit _ _ _ (Some (pos + blen (enc_labels ls) + blen tail))); [done|].
  unfold skip_name_step. destruct Ht as [->|(hi & lo & -> & Hhi)].
  - rewrite (bget_at buf (pre ++ enc_labels ls) post _ 0) by ((rewrite Hb; solve_app) || blia). done.
  - rewrite (bget_at buf (pre ++ enc_labels ls) (lo :: post) _ hi) by ((rewrite Hb; solve_app) || blia).
    by rewrite Hhi.
Qed.

Lemma skip_name_owner buf r pre post pos :
  buf = pre ++ enc_owner r ++ post -> pos = blen pre -> rr_wf r ->
  skip_name buf pos = Some (pos + blen (enc_owner r)).
Proof.
  intros Hb Hp (_ & Hls & Hptr & _). unfold enc_owner in *. rewrite blen_app, Z.add_assoc.
  apply (skip_name_end _ _ _ pre post); [rewrite Hb; solve_app|done| |].
  - eapply Forall_impl; [exact Hls|]. by intros l [].
  - destruct (rr_pointer r) as [[hi lo]|]; [right; eauto|by left].
Qed.

(** The address a record gives as the answer to a query of type [qtype]. *)
Definition answer_of (qtype : Z) (r : rr) : option IpAddr :=
  if rr_type r =? qtype then rr_ip r else None.

Lemma answer_of_cases qtype r :
  answer_of qtype r =
  if (rr_type r =? qtype) && (qtype =? QTYPE_A) && (blen (rr_data r) =? 4) then Some (V4 (be_combine (rr_data r)))
  else if (rr_type r =? qtype) && (qtype =? QTYPE_AAAA) && (blen (rr_data r) =? 16) then Some (V6 (be_combine (rr_data r)))
  else None.
Proof.
  unfold answer_of, rr_ip, QTYPE_A, QTYPE_AAAA. destruct (rr_type r =? qtype) eqn:Hq; [|done].
  apply Z.eqb_eq in Hq as ->. done.
Qed.

Lemma find_answer_enc resp qtype rrs : forall pre post pos,
  resp = pre ++ concat (map enc_rr rrs) ++ post -> pos = blen pre -> Forall rr_wf rrs ->
  find_answer resp qtype (length rrs) pos = try_opt (omap (answer_of qtype) rrs !! 0%nat).
Proof.
  induction rrs as [|r rrs IH]; intros pre post pos Hr Hpos Hrs; [done|].
  apply Forall_cons in Hrs as [Hw Hrs]. cbn [map concat length find_answer omap list_omap] in *.
  pose proof Hw as (_ & _ & _ & Ht & _ & Hd). unfold enc_rr in Hr.
  set (o := enc_owner r) in *. set (t := be16_bytes (rr_type r)) in *.
  set (c := be16_bytes (rr_class r) ++ be32_bytes (rr_ttl r)) in *.
  set (l := be16_bytes (blen (rr_data r))) in *. set (d := rr_data r) in *.
  set (rest := concat (map enc_rr rrs) ++ post).
  assert (Hr' : resp = pre ++ o ++ t ++ c ++ l ++ d ++ rest) by (rewrite Hr; unfold c, rest; solve_app).
  assert (Hc : blen c = 6) by done. clearbody c.
  rewrite (skip_name_owner resp r pre (t ++ c ++ l ++ d ++ rest)) by done. fold o. rsimp.
  remember (pos + blen o) as w eqn:Hwq.
  assert (Hlen : blen resp = w + 10 + blen d + blen rest) by (rewrite Hr'; unfold t, l; blia).
  rewrite (proj2 (Z.ltb_ge _ _)) by blia.
  destruct (@idx_be16 unit resp (pre ++ o) (rr_type r) (c ++ l ++ d ++ rest) w) as [-> ->];
    [rewrite Hr'; solve_app | blia |].
  destruct (@idx_be16 unit resp (pre ++ o ++ t ++ c) (blen d) (d ++ rest) (w + 8)) as [H8 H9];
    [rewrite Hr'; solve_app | unfold t; blia |].
  replace (w + 8 + 1) with (w + 9) in H9 by lia. rewrite H8, H9. rsimp.
  rewrite !u16_be_roundtrip by (done || (split; [apply blen_nonneg|done])).
  rewrite (proj2 (Z.ltb_ge _ _)) by blia. rewrite answer_of_cases. fold d.
  assert (Hd' : resp = (pre ++ o ++ t ++ c ++ l) ++ d ++ rest) by (rewrite Hr'; solve_app).
  assert (Hw10 : w + 10 = blen (pre ++ o ++ t ++ c ++ l)) by (unfold t, l; blia).
  set (q := pre ++ o ++ t ++ c ++ l) in *. clearbody q.
  zcase; [|zcase].
  - destruct (blen_4_inv d) as (x & y & z & u & Hd4); [done|]. clearbody d. subst d.
    rewrite (idx_at resp q (y :: z :: u :: rest) (w + 10) x),
      (idx_at resp (q ++ [x]) (z :: u :: rest) (w + 10 + 1) y),
      (idx_at resp (q ++ [x; y]) (u :: rest) (w + 10 + 2) z),
      (idx_at resp (q ++ [x; y; z]) rest (w + 10 + 3) u)
      by (done || (rewrite Hd'; solve_app) || (rewrite Hw10; blia)). done.
  - rewrite slice_ok by blia. rsimp. by rewrite (sub_at resp _ d rest _ _ Hd' Hw10) by lia.
  - rewrite (IH (q ++ d) post); [done| |rewrite Hw10; blia|done].
    rewrite Hd'. unfold rest. solve_app.
Qed.

(** The resolver takes the first record of the type it asked for that holds an
    address of that type, whatever records (aliases, other types) come before it. *)
Theorem parse_dns_answer_first id flags1 flags2 ls qtype' class counts rrs qtype :
  let resp := enc_answer id flags1 flags2 ls qtype' class counts rrs in
  blen counts = 4 -> blen rrs <= U16_MAX -> blen resp <= USIZE_MAX ->
  Forall (fun l => 1 <= blen l <= 63) ls -> Forall rr_wf rrs ->
  parse_dns_answer resp qtype = try_opt (omap (answer_of qtype) rrs !! 0%nat).
Proof.
  intros resp Hc Hn Hmax Hls Hrs. unfold parse_dns_answer.
  set (pre := [(id / 256) mod 256; id mod 256; flags1; flags2; 0; 1; (blen rrs / 256) mod 256; blen rrs mod 256] ++ counts).
  assert (Hr : resp = pre ++ enc_labels ls ++ [0] ++ be16_bytes qtype' ++ be16_bytes class ++ concat (map enc_rr rrs))
    by (unfold resp; rewrite enc_answer_app; fold pre; unfold enc_name; solve_app).
  assert (Hpre : blen pre = 12) by (unfold pre; blia).
  assert (Hlen : blen resp = 12 + blen (enc_labels ls) + 5 + blen (concat (map enc_rr rrs))) by (rewrite Hr; blia).
  pose proof (blen_nonneg (enc_labels ls)). pose proof (blen_nonneg (concat (map enc_rr rrs))).
  rewrite (proj2 (Z.ltb_ge _ _)) by lia. unfold resp.
  rewrite !(enc_answer_idx _ _ _ _ _ _ _ _ 4 0), !(enc_answer_idx _ _ _ _ _ _ _ _ 5 1),
    !(enc_answer_idx _ _ _ _ _ _ _ _ 6 ((blen rrs / 256) mod 256)), !(enc_answer_idx _ _ _ _ _ _ _ _ 7 (blen rrs mod 256)) by done.
  fold resp. rsimp. change (Z.to_nat (u16_be 0 1)) with 1%nat.
  rewrite u16_be_roundtrip by (split; [apply blen_nonneg|done]).
  cbn [skip_questions]. rewrite (skip_name_end resp ls [0] pre (be16_bytes qtype' ++ be16_bytes class ++ concat (map enc_rr rrs)) 12)
    by (done || auto). rsimp. change (blen [0]) with 1.
  rewrite checked_add_ok by lia. rsimp. unfold blen at 1. rewrite Nat2Z.id.
  apply (find_answer_enc resp qtype rrs (pre ++ enc_labels ls ++ [0] ++ be16_bytes qtype' ++ be16_bytes class) []); [|blia|done].
  rewrite Hr, app_nil_r. solve_app.
Qed.

(** A query for a name with a trailing dot carries an empty label: the name is
    followed by a second zero byte, so a reader takes the type from one byte too
    early. *)
Theorem fqdn_query_is_shifted l ls qtype id :
  Forall plain_label (l :: ls) -> 0 <= qtype <= U16_MAX ->
  let q := build_dns_query (join_dots (l :: ls) ++ [46]) qtype id in
  let e := 12 + blen (enc_name (l :: ls)) in
  blen q = e + 5 /\ sub q 12 e = enc_name (l :: ls) /\ sub q e (e + 2) = [0; qtype / 256].
Proof.
  intros Hls Hqt q e.
  assert (Hj : join_dots (l :: ls) ++ [46] = join_dots (l :: (ls ++ [[]]))).
  { cbn [join_dots]. rewrite map_app, concat_app, <- app_assoc. done. }
  assert (Hq : q = (be16_bytes id ++ [1; 0; 0; 1; 0; 0; 0; 0; 0; 0]) ++ enc_name (l :: ls) ++ [0] ++ be16_bytes qtype ++ [0; 1]).
  { unfold q, build_dns_query. rewrite Hj, split_join_dots.
    - change (l :: ls ++ [[]]) with ((l :: ls) ++ [[]]). rewrite map_app, concat_app.
      replace (map (fun label => [wrap_u8 (blen label)] ++ label) (l :: ls)) with (map (fun l => [blen l] ++ l) (l :: ls)).
      + unfold enc_name, enc_labels. solve_app.
      + apply map_ext_in. intros k Hk%list_elem_of_In. rewrite Forall_forall in Hls. destruct (Hls k Hk) as [Hl _].
        unfold wrap_u8. by rewrite Z.mod_small by lia.
    - change (l :: ls ++ [[]]) with ((l :: ls) ++ [[]]). apply Forall_app. split; [|by constructor].
      by eapply Forall_impl; [exact Hls|intros ? []]. }
  clearbody q. unfold e. subst q. split; [blia|]. split; [eapply (sub_at _ _ _ _ _ _ eq_refl); blia|].
  apply (sub_at _ ((be16_bytes id ++ [1; 0; 0; 1; 0; 0; 0; 0; 0; 0]) ++ enc_name (l :: ls)) [0; qtype / 256] [qtype mod 256; 0; 1]);
    [|blia..].
  rewrite (be16_bytes_spec qtype), (Z.mod_small (qtype / 256))
    by (unfold U16_MAX in *; split; [apply Z.div_pos; lia|apply Z.div_lt_upper_bound; lia]).
  solve_app.
Qed.

(** ** Arbitrary bytes *)

Lemma parse_udp_no_panic buf : all_bytes buf -> parse_udp_request buf <> Panic.
Proof.
  intros Hb. unfold parse_udp_request. zcase; [done|]. read buf 2 as b2 H2. destruct (negb _); [done|].
  read buf 3 as b3 H3.
  match goal with |- (?m ≫= _) <> _ => assert (Hm : match m with Ok (_, p) => 4 <= p | Err _ => True | Panic => False end) end.
  { zcase; [|zcase; [|zcase; [|done]]].
    - zcase; [done|]. read buf 4 as a Ha. read buf (4 + 1) as b Hb'. read buf (4 + 2) as c Hc. read buf (4 + 3) as d Hd. done.
    - zcase; [done|]. rewrite slice_ok by lia. done.
    - unfold get_o. destruct (bget buf 4) as [len|] eqn:Hg; [|done]. rsimp.
      pose proof (all_bytes_bget _ _ _ Hb Hg) as Hl. unfold is_byte in Hl. zcase; [done|].
      rewrite slice_ok by lia. rsimp. lia. }
  match goal with |- (?m ≫= _) <> _ => destruct m as [[t p]| |]; [|done..] end. rsimp.
  zcase; [done|]. read buf p as p0 Hp0. read buf (p + 1) as p1 Hp1. rewrite slice_ok by lia. done.
Qed.

Lemma match_labels_no_panic resp ls : forall pos, 0 <= pos ->
  match match_labels resp ls pos with Ok (Some p) => 0 <= p | Ok None => True | Err _ => False | Panic => False end.
Proof.
  induction ls as [|l ls IH]; intros pos Hpos; cbn [match_labels]; [done|].
  case_bool_decide; [by apply IH|]. destruct (bget resp pos) as [len|]; [|done].
  destruct (len =? blen l) eqn:Hl; [|done]. cbn [negb]. zbool.
  destruct (checked_add (pos + 1) len) as [e|] eqn:He; [|done]. apply checked_add_Some in He.
  zcase; [|done]. rewrite slice_ok by blia. rsimp. destruct (negb _); [done|]. apply IH. blia.
Qed.

Lemma dns_response_matches_no_panic resp id name qtype :
  exists b, dns_response_matches resp id name qtype = Ok b.
Proof.
  unfold dns_response_matches. zcase; [by eexists|].
  read resp 0 as b0 H0. read resp 1 as b1 H1. destruct (negb _); [by eexists|].
  read resp 2 as b2 H2. destruct (_ =? 0); [by eexists|].
  read resp 4 as b4 H4. read resp 5 as b5 H5. destruct (negb _); [by eexists|].
  pose proof (match_labels_no_panic resp (split_char 46 name) 12 ltac:(lia)) as Hm.
  destruct (match_labels _ _ _) as [[p|]| |]; [|by eexists|done..]. rsimp.
  destruct (negb _); [by eexists|]. zcase; [by eexists|].
  read resp (p + 1) as q0 Hq0. read resp (p + 1 + 1) as q1 Hq1. by eexists.
Qed.

Lemma skip_name_bounds buf pos e : all_bytes buf -> 0 <= pos -> skip_name buf pos = Some e -> pos < e.
Proof.
  intros Hb Hp. unfold skip_name. destruct (loop _ _ _) as [r|] eqn:Hl; [|done].
  revert Hl. apply (loop_inv (skip_name_step buf) (fun p => pos <= p)
    (fun r => mjoin (Some r) = Some e -> pos < e)); [|lia].
  intros p Hpp. unfold skip_name_step. destruct (bget buf p) as [len|] eqn:Hg; [|done].
  pose proof (all_bytes_bget _ _ _ Hb Hg) as Hlen. unfold is_byte in Hlen.
  repeat (zcase; [cbn; intros; simplify_eq; lia|]). lia.
Qed.

Lemma skip_questions_no_panic resp n : forall pos, all_bytes resp -> 0 <= pos ->
  match skip_questions resp n pos with Ok p => 0 <= p | Err _ => True | Panic => False end.
Proof.
  induction n as [|n IH]; intros pos Hb Hp; cbn [skip_questions]; [done|].
  destruct (skip_name resp pos) as [p|] eqn:Hs; [|done]. rsimp. apply skip_name_bounds in Hs; [|done..].
  destruct (checked_add p 4) as [p'|] eqn:Hc; [|done]. apply checked_add_Some in Hc. rsimp. apply IH; [done|lia].
Qed.

Lemma find_answer_no_panic resp qtype n : forall pos, all_bytes resp -> 0 <= pos ->
  find_answer resp qtype n pos <> Panic.
Proof.
  induction n as [|n IH]; intros pos Hb Hp; cbn [find_answer]; [done|].
  destruct (skip_name resp pos) as [p|] eqn:Hs; [|done]. rsimp. apply skip_name_bounds in Hs; [|done..].
  zcase; [done|]. read resp p as r0 Hr0. read resp (p + 1) as r1 Hr1. read resp (p + 8) as l0 Hl0. read resp (p + 9) as l1 Hl1.
  assert (0 <= u16_be l0 l1 <= U16_MAX) by (apply u16_be_bound; by eapply all_bytes_bget).
  zcase; [done|]. zcase; [|zcase].
  - read resp (p + 10) as a Ha. read resp (p + 10 + 1) as b Hb'. read resp (p + 10 + 2) as c Hc. read resp (p + 10 + 3) as d Hd. done.
  - by rewrite slice_ok by lia.
  - apply IH; [done|lia].
Qed.

Lemma parse_dns_answer_no_panic buf qtype : all_bytes buf -> parse_dns_answer buf qtype <> Panic.
Proof.
  intros Hb. unfold parse_dns_answer. zcase; [done|].
  read buf 4 as b4 H4. read buf 5 as b5 H5. read buf 6 as b6 H6. read buf 7 as b7 H7.
  pose proof (skip_questions_no_panic buf (Z.to_nat (u16_be b4 b5)) 12 Hb ltac:(lia)) as Hs.
  destruct (skip_questions _ _ _) as [p| |]; [|done..]. rsimp. by apply find_answer_no_panic.
Qed.

(** No datagram makes the SOCKS5 server panic: the parser of UDP requests, the
    test of DNS responses and the search for the answer read in range on every
    input. *)
Theorem socks_parsers_no_panic buf id name qtype :
  all_bytes buf ->
  parse_udp_request buf <> Panic /\ (exists b, dns_response_matches buf id name qtype = Ok b)
  /\ parse_dns_answer buf qtype <> Panic.
Proof.
  intros Hb. split; [by apply parse_udp_no_panic|]. split; [apply dns_response_matches_no_panic|].
  by apply parse_dns_answer_no_panic.
Qed.

(** ** The gateway's answer *)

(** The verdict depends on the status line only. *)
Lemma proxy_connect_line line t word status :
  str_is_ascii line = true -> no_char 13 line = true ->
  split_whitespace line !! 1%nat = Some word -> parse_u16 word = Some status ->
  proxy_connect_succeeded (line ++ [13; 10] ++ t) = Some ((200 <=? status) && (status <? 300)).
Proof.
  intros Ha Hn Hw Hs. unfold proxy_connect_succeeded.
  destruct (lossy_app_ascii (line ++ [13; 10]) t) as [r Hr]; [by rewrite str_is_ascii_app, Ha|].
  rewrite <- !app_assoc in Hr. rewrite Hr, find_crlf by done. cbn [mbind option_bind].
  rewrite (sub_at _ [] line ([13; 10] ++ r)) by (done || blia).
  rewrite Hw. cbn [mbind option_bind]. by rewrite Hs.
Qed.

Definition chunk_bytes (c : bytes + bytes) : bytes := match c with inl b => b | inr _ => [] end.

Lemma find_head_end_app s t e : find_head_end s = Some e -> find_head_end (s ++ t) = Some e.
Proof.
  unfold find_head_end. destruct (find_sub _ s) as [i|] eqn:Hi; [|done]. intros [= <-]. by rewrite (find_sub_app _ s t i).
Qed.

(** However the gateway's answer is cut into chunks, an accepting head leaves
    exactly the bytes that follow it, those received with it first, and a refusing
    head is an error. *)
Theorem read_gateway_head_chunks authority proxy port line rest body word status chunks :
  let head := line ++ [13; 10] ++ rest in
  str_is_ascii line = true -> no_char 13 line = true ->
  split_whitespace line !! 1%nat = Some word -> parse_u16 word = Some status ->
  find_head_end head = Some (blen head) -> blen head <= GATEWAY_HEAD_LIMIT ->
  concat chunks = head ++ body ->
  match read_gateway_head authority proxy port [] (map inl chunks) with
  | Ok (leftover, chunks') =>
      200 <= status < 300 /\ leftover ++ concat (map chunk_bytes chunks') = body
  | Err _ => ~ 200 <= status < 300
  | Panic => False
  end.
Proof.
  intros head Ha Hn Hw Hs He Hlim Hc.
  enough (Hgen : forall chunks acc,
    acc ++ concat chunks = head ++ body -> blen acc < blen head ->
    match read_gateway_head authority proxy port acc (map inl chunks) with
    | Ok (leftover, chunks') => 200 <= status < 300 /\ leftover ++ concat (map chunk_bytes chunks') = body
    | Err _ => ~ 200 <= status < 300
    | Panic => False
    end) by (apply Hgen; [done|unfold head; blia]).
  clear chunks Hc. induction chunks as [|d chunks IH]; intros acc Hacc Hlt; cbn [map concat read_gateway_head] in *.
  { exfalso. rewrite app_nil_r in Hacc. subst acc. blia. }
  rewrite app_assoc in Hacc. set (h := acc ++ d) in *.
  destruct (Z.lt_ge_cases (blen h) (blen head)) as [Hshort|Hlong].
  - destruct (find_head_end h) as [e|] eqn:Hf.
    + exfalso. apply (find_head_end_app _ (concat chunks)) in Hf as Hf'. rewrite Hacc in Hf'.
      rewrite (find_head_end_app _ body _ He) in Hf'. injection Hf' as <-.
      unfold find_head_end in Hf. destruct (find_sub _ h) as [i|] eqn:Hi; [|done].
      injection Hf as Hf. apply find_sub_bounds in Hi. change (blen [13; 10; 13; 10]) with 4 in Hi. lia.
    + rewrite (proj2 (Z.ltb_ge _ _)) by lia. by apply IH.
  - assert (exists k, h = head ++ k) as [k Hk].
    { apply app_eq_inv in Hacc as [(k & Hk & _)|(k & Hk & _)]; [by eauto|].
      exists []. rewrite app_nil_r. rewrite Hk in Hlong |- *. destruct k; [by rewrite app_nil_r|]. blia. }
    rewrite Hk in *. rewrite (find_head_end_app _ k _ He).
    unfold head at 1. rewrite <- app_assoc. rewrite <- (app_assoc [13; 10]), (proxy_connect_line line (rest ++ k) word status) by done.
    destruct ((200 <=? status) && (status <? 300)) eqn:Hst.
    + rewrite slice_ok by blia. rsimp. zbool. split; [lia|].
      rewrite (sub_at _ head k []) by (done || blia || (by rewrite app_nil_r)).
      rewrite <- app_assoc in Hacc. apply app_inv_head in Hacc.
      rewrite <- Hacc. f_equal. clear. induction chunks as [|c chunks IH]; [done|]. cbn. by rewrite IH.
    + rewrite slice_ok by (unfold head; blia). rsimp. zbool. lia.
Qed.

(** ** Witnesses *)

Lemma udp_request_roundtrip_witness :
  parse_udp_request (enc_udp_request (TDomain (lit "a.example")) 53 [1; 2; 3]) = Ok (TDomain (lit "a.example"), (53, [1; 2; 3])).
Proof. apply udp_request_roundtrip; [split; [vm_compute; congruence|reflexivity]|unfold U16_MAX; lia]. Defined.

Lemma read_request_enc_witness :
  read_request ([5; 2; 0; 2] ++ [5; 1; 0; 1; 10; 0; 0; 1; 1; 187] ++ [22; 3])
  = Ok ((1, TIp (V4 (v4_new 10 0 0 1)), 443), [5; 0], [22; 3]).
Proof.
  apply (read_request_enc [0; 2] 1 0 (TIp (V4 (v4_new 10 0 0 1))) 443 [22; 3]); [|unfold U16_MAX; lia].
  vm_compute. split; congruence.
Defined.

Definition example_labels : Forall plain_label [lit "www"; lit "example"].
Proof. repeat constructor; vm_compute; congruence. Defined.

Lemma dns_response_matches_iff_witness :
  dns_response_matches (enc_answer 7 129 128 [lit "WWW"; lit "example"] 1 1 [0; 0; 0; 0] []) 7
    (join_dots [lit "www"; lit "example"]) 1 = Ok true.
Proof.
  rewrite (dns_response_matches_iff 7 129 128 [lit "WWW"; lit "example"] 1 1 [0; 0; 0; 0] [] 7 (lit "www") [lit "example"] 1).
  - vm_compute. reflexivity.
  - reflexivity.
  - unfold U16_MAX. lia.
  - unfold U16_MAX. lia.
  - vm_compute. congruence.
  - apply example_labels.
  - repeat constructor; vm_compute; congruence.
Defined.

Lemma parse_dns_answer_first_witness :
  parse_dns_answer (enc_answer 7 129 128 [lit "a"; lit "b"] 1 1 [0; 0; 0; 0] example_rrs) 1 = Ok (V4 (v4_new 1 2 3 4)).
Proof.
  rewrite (parse_dns_answer_first 7 129 128 [lit "a"; lit "b"] 1 1 [0; 0; 0; 0] example_rrs 1).
  - vm_compute. reflexivity.
  - reflexivity.
  - vm_compute. congruence.
  - vm_compute. congruence.
  - repeat constructor; vm_compute; congruence.
  - apply example_rrs_wf.
Defined.

Lemma fqdn_query_is_shifted_witness :
  sub (build_dns_query (lit "www.example.") 1 7) 25 27 = [0; 0].
Proof.
  destruct (fqdn_query_is_shifted (lit "www") [lit "example"] 1 7) as (_ & _ & Hs);
    [apply example_labels|unfold U16_MAX; lia|exact Hs].
Defined.

Lemma socks_parsers_no_panic_witness : parse_udp_request [0; 0; 0; 3; 200; 1] <> Panic.
Proof.
  apply (socks_parsers_no_panic [0; 0; 0; 3; 200; 1] 0 [] 1). repeat constructor; vm_compute; congruence.
Defined.

Lemma read_gateway_head_chunks_witness :
  exists r, read_gateway_head (lit "a") (lit "p") 443 []
    (map inl [lit "HTTP/1.1 20"; lit "0 OK" ++ [13; 10; 13]; [10; 1; 2]; [3]]) = Ok r
  /\ r.1 ++ concat (map chunk_bytes r.2) = [1; 2; 3].
Proof.
  pose proof (read_gateway_head_chunks (lit "a") (lit "p") 443 (lit "HTTP/1.1 200 OK") [13; 10] [1; 2; 3] (lit "200") 200
    [lit "HTTP/1.1 20"; lit "0 OK" ++ [13; 10; 13]; [10; 1; 2]; [3]]) as Hr.
  specialize (Hr eq_refl eq_refl eq_refl eq_refl eq_refl ltac:(vm_compute; congruence) eq_refl).
  destruct (read_gateway_head _ _ _ _ _) as [[l c]| |]; [|lia|done]. exists (l, c). by destruct Hr.
Defined.

End SocksWire.
