(* ===== verification/Dns.v ===== *)
(** * The lookup of an ECHConfigList ([aether/src/dns.rs])

    The resolver a setting names and its text, the query for the HTTPS record of a
    domain (RFC 9460), the check that a message answers it, the ech parameter of
    the answer, and the lookups over UDP, TCP and DNS over HTTPS.  What a socket
    delivers is an argument: the datagrams and timeouts of a UDP socket, the bytes
    of a TCP stream, the answer of an HTTPS request. *)

From S2P Require Import Prelude Str Ip Text Error RouteDns SocksWire.
Local Open Scope Z_scope.

Module Dns.
Import Error.

Definition DEFAULT_ECH_DNS : bytes := lit "udp://1.1.1.1".
Definition DEFAULT_ECH_DOMAIN : bytes := lit "cloudflare-ech.com".
Definition RR_HTTPS : Z := 65.
Definition SVCPARAM_ECH : Z := 5.

(** ** The resolver a setting names *)

Record DohEndpoint := mkDoh { url : bytes; address : option bytes; sni : option bytes }.

Inductive EchDns :=
| Udp (server : SocketAddr)
| Tcp (server : SocketAddr)
| Https (endpoint : DohEndpoint).

Definition strip_scheme (value scheme : bytes) : option bytes :=
  head ← bslice value 0 (blen scheme);
  if eq_ignore_ascii_case head scheme then Some (sub value (blen scheme) (blen value)) else None.

(** [value] between its brackets, or [value] itself. *)
Definition unbracket (value : bytes) : bytes :=
  default value (strip_prefix [91] value ≫= strip_suffix [93]).

Definition socket_address (text : bytes) (default_port : Z) : option SocketAddr :=
  match parse_socket_addr text with
  | Some address => Some address
  | None =>
      match parse_ip text with
      | Some ip => Some (mkSocketAddr ip default_port)
      | None =>
          inner ← strip_prefix [91] text ≫= strip_suffix [93];
          (fun ip => mkSocketAddr (V6 ip) default_port) <$> parse_ipv6 inner
      end
  end.

Definition label_char (b : Z) : bool := is_ascii_alphanumeric b || (b =? 45) || (b =? 95).
Definition valid_domain (name : bytes) : bool :=
  let name := default name (strip_suffix [46] name) in
  negb (bool_decide (name = [])) && (blen name <=? 253)
  && forallb (fun label => negb (bool_decide (label = [])) && (blen label <=? 63) && forallb label_char label)
       (split_char 46 name).

Definition host_address (value : bytes) : option bytes :=
  match parse_ip (unbracket value) with
  | Some ip => Some (ip_to_string ip)
  | None => if valid_domain value then Some value else None
  end.

Definition host_and_port (value : bytes) (default_port : Z) : option (bytes * Z) :=
  match host_address value with
  | Some host => Some (host, default_port)
  | None =>
      '(host, port) ← rsplit_once 58 value;
      if contains_char 58 host && negb (starts_with [91] host) then None
      else
        port ← parse_u16 port;
        if port =? 0 then None
        else (fun host => (host, port)) <$> host_address host
  end.

(** One [@name=setting] of an endpoint. *)
Definition doh_piece (value : bytes) (endpoint : DohEndpoint) (piece : bytes) : res bytes DohEndpoint :=
  let neither := [64] ++ piece ++ lit " in " ++ value ++ lit " is neither @address= nor @sni=" in
  '(name, setting) ← ok_or (split_once 61 piece) neither;
  let setting := trim setting in
  let bare := unbracket setting in
  let twice := value ++ lit " names @" ++ trim name ++ lit " twice" in
  let key := to_ascii_lowercase (trim name) in
  if bool_decide (key = lit "address") then
    let checked := ok_or (host_address setting)
      (lit "@address=" ++ setting ++ lit " is no IP address or domain name; the port is the URL's") in
    match address endpoint with
    | Some _ => Err twice
    | None => a ← checked; Ok (mkDoh (url endpoint) (Some a) (sni endpoint))
    end
  else if bool_decide (key = lit "sni") then
    let checked := if bool_decide (parse_ip bare = None) && valid_domain setting then Ok setting
                   else Err (lit "@sni=" ++ setting ++ lit " is no domain name") in
    match sni endpoint with
    | Some _ => Err twice
    | None => s ← checked; Ok (mkDoh (url endpoint) (address endpoint) (Some s))
    end
  else Err neither.

Fixpoint doh_pieces (value : bytes) (endpoint : DohEndpoint) (pieces : list bytes) : res bytes DohEndpoint :=
  match pieces with
  | [] => Ok endpoint
  | piece :: pieces => endpoint ← doh_piece value endpoint piece; doh_pieces value endpoint pieces
  end.

Definition url_end (b : Z) : bool := (b =? 47) || (b =? 63) || (b =? 35).

Definition DohEndpoint_parse (value : bytes) : res bytes DohEndpoint :=
  let pieces := split_char 64 value in
  let url := trim (hd [] pieces) in
  let host := default [] ((fun rest => hd [] (split_chars url_end rest)) <$> strip_scheme url (lit "https://")) in
  if bool_decide (host = []) then Err (value ++ lit " names no host")
  else doh_pieces value (mkDoh url None None) (tl pieces).

Definition EchDns_parse (value : bytes) : res bytes EchDns :=
  let value := trim value in
  match strip_scheme value (lit "https://") with
  | Some _ => Https <$> DohEndpoint_parse value
  | None =>
      '(rest, tcp) ←
        match strip_scheme value (lit "udp://") with
        | Some rest => Ok (rest, false)
        | None =>
            match strip_scheme value (lit "tcp://") with
            | Some rest => Ok (rest, true)
            | None => Err (value ++ lit " is no udp://, tcp:// or https:// address")
            end
        end;
      address ← ok_or (socket_address (trim_end_matches 47 rest) 53) (value ++ lit " names no IP address");
      Ok (if tcp : bool then Tcp address else Udp address)
  end.

Definition EchDns_to_string (d : EchDns) : bytes :=
  match d with
  | Udp address => lit "udp://" ++ sa_to_string address
  | Tcp address => lit "tcp://" ++ sa_to_string address
  | Https endpoint =>
      url endpoint
      ++ match address endpoint with Some a => lit "@address=" ++ a | None => [] end
      ++ match sni endpoint with Some s => lit "@sni=" ++ s | None => [] end
  end.

(** ** The settings *)

Record EchLookup := mkLookup { dns_flag : bytes; dns_variable : bytes; domain_flag : bytes; domain_variable : bytes }.
Definition SESSION_ECH : EchLookup :=
  mkLookup (lit "--ech-dns") (lit "AETHER_ECH_DNS") (lit "--ech-domain") (lit "AETHER_ECH_DOMAIN").

Definition configured_dns (env : bytes -> option bytes) (lookup : EchLookup) : res bytes EchDns :=
  let value := trim (default [] (env (dns_variable lookup))) in
  EchDns_parse (if bool_decide (value = []) then DEFAULT_ECH_DNS else value).

Definition configured_domain (env : bytes -> option bytes) (lookup : EchLookup) : res bytes bytes :=
  let value := trim (default [] (env (domain_variable lookup))) in
  let name := if bool_decide (value = []) then DEFAULT_ECH_DOMAIN else value in
  if valid_domain name then Ok (trim_end_matches 46 name) else Err (name ++ lit " is no domain name").

(** ** DNS messages *)

(** The query and its identifier; [id] is the random number drawn. *)
Definition build_query (name : bytes) (qtype id : Z) : bytes * Z :=
  (be16_bytes id ++ [1; 0] ++ [0; 1] ++ replicate 6 0
   ++ concat (map (fun label => if bool_decide (label = []) then [] else [wrap_u8 (blen label)] ++ label) (split_char 46 name))
   ++ [0] ++ be16_bytes qtype ++ [0; 1], id).

(** The loop over the labels of the expected name: the position after them, or
    [None] when one differs. *)
Fixpoint match_labels (msg : bytes) (labels : list bytes) (pos : Z) : res unit (option Z) :=
  match labels with
  | [] => Ok (Some pos)
  | label :: labels =>
      if bool_decide (label = []) then match_labels msg labels pos
      else match bget msg pos with
           | None => Ok None
           | Some len =>
               if negb (len =? blen label) then Ok None
               else
                 let pos := pos + 1 in
                 match checked_add pos len with
                 | Some end_ =>
                     if end_ <=? blen msg then
                       s ← slice msg pos end_;
                       if negb (eq_ignore_ascii_case s label) then Ok None
                       else match_labels msg labels end_
                     else Ok None
                 | None => Ok None
                 end
           end
  end.

Definition response_matches (msg : bytes) (expected_id : Z) (expected_name : bytes) (expected_qtype : Z)
  : res unit bool :=
  if blen msg <? 12 then Ok false
  else
    b0 ← idx msg 0; b1 ← idx msg 1;
    if negb (u16_be b0 b1 =? expected_id) then Ok false
    else
      b2 ← idx msg 2;
      if Z.land b2 128 =? 0 then Ok false
      else
        b4 ← idx msg 4; b5 ← idx msg 5;
        if negb (u16_be b4 b5 =? 1) then Ok false
        else
          m ← match_labels msg (split_char 46 expected_name) 12;
          match m with
          | None => Ok false
          | Some pos =>
              if negb (bool_decide (bget msg pos = Some 0)) then Ok false
              else
                let pos := pos + 1 in
                if blen msg <? pos + 4 then Ok false
                else
                  q0 ← idx msg pos; q1 ← idx msg (pos + 1);
                  Ok (u16_be q0 q1 =? expected_qtype)
          end.

Definition skip_name_step (buf : bytes) (pos : Z) : Z + option Z :=
  match bget buf pos with
  | None => inr None
  | Some len =>
      if Z.land len 192 =? 192 then inr (Some (pos + 2))
      else if len =? 0 then inr (Some (pos + 1))
      else inl (pos + (1 + len))
  end.
Definition skip_name (buf : bytes) (pos : Z) : option Z :=
  mjoin (loop (S (length buf)) (skip_name_step buf) pos).

(** The parameters of a record, at [p]: the value of the ech parameter. *)
Definition svcparams_step (msg : bytes) (end_ : Z) (p : Z) : Z + res unit bytes :=
  if p + 4 <=? end_ then
    step_of (k0 ← idx msg p; k1 ← idx msg (p + 1);
             l0 ← idx msg (p + 2); l1 ← idx msg (p + 3);
             let key := u16_be k0 k1 in
             let len := u16_be l0 l1 in
             let p := p + 4 in
             if end_ <? p + len then Err tt
             else if key =? SVCPARAM_ECH then inr <$> slice msg p (p + len)
             else Ok (inl (p + len)))
  else inr (Err tt).

(** A turn of the loop takes at least four bytes. *)
Definition parse_svcparams_ech (msg : bytes) (rdata_start rdlen : Z) : res unit bytes :=
  let end_ := rdata_start + rdlen in
  if end_ <? rdata_start + 2 then Err tt
  else
    p ← try_opt (skip_name msg (rdata_start + 2));
    default Panic (loop (S (length msg)) (svcparams_step msg end_) p).

Fixpoint skip_questions (msg : bytes) (qd : nat) (pos : Z) : res unit Z :=
  match qd with
  | O => Ok pos
  | S qd =>
      pos ← try_opt (skip_name msg pos);
      pos ← try_opt (checked_add pos 4);
      skip_questions msg qd pos
  end.

Fixpoint find_ech (msg : bytes) (an : nat) (pos : Z) : res unit bytes :=
  match an with
  | O => Err tt
  | S an =>
      pos ← try_opt (skip_name msg pos);
      if blen msg <? pos + 10 then Err tt
      else
        r0 ← idx msg pos; r1 ← idx msg (pos + 1);
        let rtype := u16_be r0 r1 in
        l0 ← idx msg (pos + 8); l1 ← idx msg (pos + 9);
        let rdlen := u16_be l0 l1 in
        let pos := pos + 10 in
        if blen msg <? pos + rdlen then Err tt
        else
          found ← (if rtype =? RR_HTTPS then catch (parse_svcparams_ech msg pos rdlen) else Ok None);
          match found with
          | Some ech => Ok ech
          | None => find_ech msg an (pos + rdlen)
          end
  end.

Definition parse_https_ech (msg : bytes) : res unit bytes :=
  if blen msg <? 12 then Err tt
  else
    b4 ← idx msg 4; b5 ← idx msg 5; b6 ← idx msg 6; b7 ← idx msg 7;
    let qd := u16_be b4 b5 in
    let an := u16_be b6 b7 in
    pos ← skip_questions msg (Z.to_nat qd) 12;
    find_ech msg (Z.to_nat an) pos.

Definition tcp_message (msg : bytes) : bytes := be16_bytes (wrap_u16 (blen msg)) ++ msg.

(** ** The lookups *)

Definition answer_ech (msg domain : bytes) : res AetherError bytes :=
  match parse_https_ech msg with
  | Ok (b :: ech) => Ok (b :: ech)
  | Panic => Panic
  | _ => Err (Ech (domain ++ lit " has no HTTPS record with an ech parameter"))
  end.

(** A check of the crate that cannot fail with an error. *)
Definition never_err {A} (m : res unit A) : res AetherError A :=
  match m with Ok a => Ok a | _ => Panic end.

(** What a UDP socket gives: a datagram (the buffer keeps its first 4096 bytes), an
    error, or nothing until the question goes out again. *)
Inductive UdpEvent := Received (data : bytes) | RecvError (text : bytes) | ResendTimeout.

(** The datagrams sent, and the result; [None] while no answer has come. *)
Fixpoint query_udp_events (query domain : bytes) (id : Z) (events : list UdpEvent)
  : list bytes * option (res AetherError bytes) :=
  match events with
  | [] => ([], None)
  | ResendTimeout :: events =>
      let '(sent, r) := query_udp_events query domain id events in (query :: sent, r)
  | RecvError text :: _ => ([], Some (Err (Io text)))
  | Received data :: events =>
      let msg := sub data 0 (Z.min (blen data) 4096) in
      match never_err (response_matches msg id domain RR_HTTPS) with
      | Ok true => ([], Some (answer_ech msg domain))
      | Ok false => query_udp_events query domain id events
      | Err e => ([], Some (Err e))
      | Panic => ([], Some Panic)
      end
  end.
Definition query_udp (domain : bytes) (random : Z) (events : list UdpEvent) : list bytes * option (res AetherError bytes) :=
  let '(query, id) := build_query domain RR_HTTPS random in
  let '(sent, r) := query_udp_events query domain id events in (query :: sent, r).

(** The bytes written to the stream and the result, over the bytes it delivers. *)
Definition query_tcp (domain : bytes) (random : Z) (input : bytes) : bytes * res AetherError bytes :=
  let '(query, id) := build_query domain RR_HTTPS random in
  (tcp_message query,
   '(length, input) ← SocksWire.read_exact 2 input;
   l0 ← idx length 0; l1 ← idx length 1;
   '(msg, _) ← SocksWire.read_exact (u16_be l0 l1) input;
   ok ← never_err (response_matches msg id domain RR_HTTPS);
   if negb ok then Err (Ech (lit "the reply does not match the query"))
   else answer_ech msg domain).

(** A URL as the url crate parses it, and a request to [https::send]. *)
Record ParsedUrl := mkParsedUrl { u_host : option bytes; u_path : bytes; u_query : option bytes; u_port : option Z }.
Record Request := mkRequest {
  rq_method : bytes; rq_host : bytes; rq_port : Z; rq_address : option (bytes * Z); rq_sni : option bytes;
  rq_path : bytes; rq_headers : list (bytes * bytes); rq_body : option bytes
}.

Definition https_request (endpoint : DohEndpoint) (parsed : ParsedUrl) (domain : bytes) (random : Z)
  : res AetherError Request :=
  host ← ok_or (u_host parsed) (Ech (url endpoint ++ lit " names no host"));
  let host := trim_end_matches 93 (trim_start_matches 91 host) in
  let path := match u_query parsed with Some q => u_path parsed ++ [63] ++ q | None => u_path parsed end in
  let query := (build_query domain RR_HTTPS random).1 in
  query ← set_idx query 0 0;
  query ← set_idx query 1 0;
  let port := default 443 (u_port parsed) in
  Ok (mkRequest (lit "POST") host port ((fun a => (a, port)) <$> address endpoint) (sni endpoint) path
        [(lit "Content-Type", lit "application/dns-message"); (lit "Accept", lit "application/dns-message")]
        (Some query)).

(** [parse_url] is [reqwest::Url::parse]; [send] is [https::send]: the status and
    the body, or the error. *)
Definition query_https (parse_url : bytes -> bytes + ParsedUrl) (send : Request -> AetherError + (Z * bytes))
    (endpoint : DohEndpoint) (domain : bytes) (random : Z) : res AetherError bytes :=
  parsed ← match parse_url (url endpoint) with
           | inl e => Err (Ech (url endpoint ++ lit ": " ++ e))
           | inr p => Ok p
           end;
  request ← https_request endpoint parsed domain random;
  '(status, msg) ← match send request with inl e => Err (Ech (to_string e)) | inr r => Ok r end;
  if negb ((200 <=? status) && (status <? 300)) then Err (Ech (lit "answered " ++ dec status))
  else
    ok ← never_err (response_matches msg 0 domain RR_HTTPS);
    if negb ok then Err (Ech (lit "the reply does not match the query"))
    else answer_ech msg domain.

(** [fetch_ech_config_with]: [query] runs the lookup over the transport the resolver
    names; [None] when it does not end within [ECH_LOOKUP_TIMEOUT]. *)
Definition fetch_ech_config_with (env : bytes -> option bytes) (lookup : EchLookup)
    (query : EchDns -> bytes -> option (res AetherError bytes)) : res AetherError bytes :=
  dns ← map_err (fun e => Ech (dns_flag lookup ++ lit ": " ++ e)) (configured_dns env lookup);
  domain ← map_err (fun e => Ech (domain_flag lookup ++ lit ": " ++ e)) (configured_domain env lookup);
  match query dns domain with
  | Some (Ok ech) => Ok ech
  | Some (Err e) =>
      let reason := match e with Ech reason => reason | other => to_string other end in
      Err (Ech (domain ++ lit " via " ++ EchDns_to_string dns ++ lit " failed: " ++ reason))
  | Some Panic => Panic
  | None => Err (Ech (EchDns_to_string dns ++ lit " did not answer for " ++ domain))
  end.

Example EchDns_parse_ex1 : EchDns_parse (lit " UDP://[2606:4700:4700::1111]/ ")
  = Ok (Udp (mkSocketAddr (V6 (v6_of_segments [9734; 18176; 18176; 0; 0; 0; 0; 4369])) 53)).
Proof. reflexivity. Qed.
Example EchDns_parse_ex2 : EchDns_parse (lit "https://dns.example/dns-query?x=1 @address=[::1] @sni=a.example")
  = Ok (Https (mkDoh (lit "https://dns.example/dns-query?x=1") (Some (lit "::1")) (Some (lit "a.example")))).
Proof. reflexivity. Qed.
Example EchDns_parse_ex3 : EchDns_parse (lit "https://dns.example@sni=1.2.3.4") = Err (lit "@sni=1.2.3.4 is no domain name").
Proof. reflexivity. Qed.
Example host_and_port_ex : host_and_port (lit "[::1]:8443") 443 = Some (lit "::1", 8443)
  /\ host_and_port (lit "a.example:0") 443 = None /\ host_and_port (lit "a.example.") 443 = Some (lit "a.example.", 443).
Proof. done. Qed.

(** ** The text of a resolver *)

Lemma sub_prefix {A} (p t : list A) : sub (p ++ t) 0 (blen p) = p.
Proof. apply (sub_at _ [] p t); [done|done|blia]. Qed.

Lemma strip_scheme_Some value scheme rest :
  strip_scheme value scheme = Some rest ->
  exists head, value = head ++ rest /\ to_ascii_lowercase head = to_ascii_lowercase scheme.
Proof.
  unfold strip_scheme. destruct (bslice value 0 (blen scheme)) as [head|] eqn:Hb; [|done]. cbn [mbind option_bind].
  apply bslice_Some in Hb as (-> & _ & _ & Hl). unfold eq_ignore_ascii_case. case_bool_decide as He; [|done].
  intros [= <-]. eexists. split; [|exact He]. pose proof (sub_split value 0 (blen scheme) ltac:(lia) ltac:(apply blen_nonneg) Hl) as Hs.
  by rewrite (sub_empty value 0 0) in Hs.
Qed.

Lemma strip_scheme_app head rest scheme :
  to_ascii_lowercase head = to_ascii_lowercase scheme -> strip_scheme (head ++ rest) scheme = Some rest.
Proof.
  intros He. assert (blen scheme = blen head) as Hl.
  { pose proof (f_equal blen He) as H. by rewrite !blen_to_ascii_lowercase in H. }
  unfold strip_scheme. rewrite Hl. rewrite bslice_ok by blia. rewrite sub_prefix. cbn [mbind option_bind].
  unfold eq_ignore_ascii_case. rewrite bool_decide_eq_true_2 by done. f_equal.
  apply (sub_at _ head rest []); [by rewrite app_nil_r|done|blia].
Qed.

Definition domain_char (b : Z) : bool := label_char b || (b =? 46).

Lemma valid_domain_chars name : valid_domain name = true -> forallb domain_char name = true /\ name <> [].
Proof.
  unfold valid_domain. intros [[Hne _]%andb_prop Hl]%andb_prop.
  assert (forallb domain_char (default name (strip_suffix [46] name)) = true) as Hd.
  { apply (split_char_forallb _ 46); [done|]. revert Hl. apply forallb_impl. intros w [_ Hw]%andb_prop.
    revert Hw. apply forallb_impl. intros x Hx. unfold domain_char. by rewrite Hx. }
  unfold strip_suffix in *. destruct (ends_with [46] name) eqn:He; cbn [default] in *.
  - apply ends_with_spec in He as [t ->]. split; [|by destruct t].
    rewrite forallb_app.
    rewrite length_app, Nat.add_sub, take_app_length in Hd. unfold id in Hd. by rewrite Hd.
  - split; [done|]. by intros ->.
Qed.

(** The characters of an IP address or of a domain. *)
Definition host_char (b : Z) : bool := ip_char b || domain_char b.

Lemma host_char_range b : host_char b = true -> 45 <= b <= 122 /\ b <> 64 /\ b <> 91 /\ b <> 47 /\ b <> 93.
Proof.
  unfold host_char, ip_char, domain_char, label_char, is_ascii_alphanumeric, is_ascii_digit, is_ascii_lower, is_ascii_upper.
  rewrite !orb_true_iff. intros H. zbool. lia.
Qed.

Lemma host_char_plain b : host_char b = true -> plain b = true.
Proof.
  intros (Hr & _)%host_char_range. unfold plain, is_ascii, ws1.
  rewrite (proj2 (Z.ltb_lt b 128)), (proj2 (Z.leb_gt b 13)), (proj2 (Z.eqb_neq b 32)) by lia. by rewrite andb_false_r.
Qed.

Lemma ip_text_char ip : forallb host_char (ip_to_string ip) = true.
Proof.
  apply (forallb_impl ip_char); [|apply ip_to_string_char]. intros x Hx. unfold host_char. by rewrite Hx.
Qed.

Lemma domain_text_char d : valid_domain d = true -> forallb host_char d = true.
Proof.
  intros [Hd _]%valid_domain_chars. revert Hd. apply forallb_impl. intros x Hx. unfold host_char. by rewrite Hx, orb_true_r.
Qed.

Lemma unbracket_host s : forallb host_char s = true -> unbracket s = s.
Proof.
  intros Hs. unfold unbracket, strip_prefix. destruct s as [|b s]; [done|]. cbn [forallb] in Hs.
  apply andb_prop in Hs as [Hb _]. apply host_char_range in Hb. cbn [starts_with].
  by rewrite (proj2 (Z.eqb_neq 91 b)) by lia.
Qed.

(** An address that is taken is read again as itself. *)
Lemma host_address_stable v a : host_address v = Some a -> forallb host_char a = true /\ host_address a = Some a.
Proof.
  unfold host_address at 1. destruct (parse_ip (unbracket v)) as [ip|] eqn:Hp.
  - intros [= <-]. pose proof (ip_text_char ip) as Hc. split; [done|]. unfold host_address.
    rewrite unbracket_host by done. rewrite parse_ip_to_string; [done|]. by eapply parse_ip_wf.
  - destruct (valid_domain v) eqn:Hv; [|done]. intros [= <-]. split; [by apply domain_text_char|].
    unfold host_address. by rewrite Hp, Hv.
Qed.

(** The endpoints that [DohEndpoint_parse] gives. *)
Definition url_host (u : bytes) : bytes :=
  default [] ((fun rest => hd [] (split_chars url_end rest)) <$> strip_scheme u (lit "https://")).
Definition endpoint_ok (e : DohEndpoint) : Prop :=
  no_char 64 (url e) = true /\ trim (url e) = url e /\ url_host (url e) <> []
  /\ match address e with Some a => forallb host_char a = true /\ host_address a = Some a | None => True end
  /\ match sni e with Some s => parse_ip (unbracket s) = None /\ valid_domain s = true | None => True end.

Lemma doh_piece_ok value e piece e' : doh_piece value e piece = Ok e' -> endpoint_ok e -> endpoint_ok e'.
Proof.
  unfold doh_piece. destruct (split_once 61 piece) as [[name setting]|]; [|done]. cbn [ok_or mbind res_bind].
  case_bool_decide; [|case_bool_decide; [|done]].
  - destruct (address e); [done|]. destruct (host_address (trim setting)) as [a|] eqn:Ha; [|done]. cbn.
    intros [= <-] (? & ? & ? & _ & ?). repeat split; try done; by eapply host_address_stable.
  - destruct (sni e); [done|]. case_bool_decide; [|done]. destruct (valid_domain (trim setting)) eqn:Hv; [|done]. cbn.
    intros [= <-] (? & ? & ? & ? & _). by repeat split.
Qed.

Lemma doh_pieces_ok value pieces : forall e e', doh_pieces value e pieces = Ok e' -> endpoint_ok e -> endpoint_ok e'.
Proof.
  induction pieces as [|p pieces IH]; intros e e'; cbn [doh_pieces]; [by intros [= <-]|].
  destruct (doh_piece value e p) as [e1| |] eqn:Hp; [|done..]. cbn. eauto using doh_piece_ok.
Qed.

(** A URL with a host starts with a plain character. *)
Lemma url_host_head u : url_host u <> [] -> exists b t, u = b :: t /\ plain b = true
  /\ exists head rest, u = head ++ rest /\ to_ascii_lowercase head = lit "https://".
Proof.
  unfold url_host. destruct (strip_scheme u (lit "https://")) as [rest|] eqn:Hs; [|done]. intros _.
  apply strip_scheme_Some in Hs as (head & -> & Hl). change (to_ascii_lowercase (lit "https://")) with (lit "https://") in Hl.
  destruct head as [|b head]; [done|]. exists b, (head ++ rest). split; [done|].
  split; [|by exists (b :: head), rest]. cbn in Hl. injection Hl as Hb _. unfold ascii_lower, is_ascii_upper in Hb.
  unfold plain, is_ascii, ws1. assert (b = 72 \/ b = 104) as [->| ->]; [|done..]. revert Hb. zcase; lia.
Qed.

Lemma trim_end_of_trim b t : plain b = true -> trim (b :: t) = b :: t -> trim_end (b :: t) = b :: t.
Proof. intros Hb. by rewrite trim_plain. Qed.

Lemma DohEndpoint_parse_ok value e : DohEndpoint_parse value = Ok e -> endpoint_ok e.
Proof.
  unfold DohEndpoint_parse. case_bool_decide as Hh; [done|]. intros Hp. eapply doh_pieces_ok; [exact Hp|].
  set (u := trim (hd [] (split_char 64 value))) in *.
  assert (no_char 64 u = true) as Hn.
  { apply trim_no_char. pose proof (split_char_no 64 value) as Hs. destruct (split_char 64 value); [done|]. by inversion Hs. }
  destruct (url_host_head u Hh) as (b & t & E & Hb & _).
  assert (trim u = u) as Ht; [|by repeat split].
  rewrite E. rewrite trim_plain by done. rewrite <- E. unfold u, trim. apply trim_end_idem.
Qed.

(** The pieces that [EchDns_to_string] writes behind the URL. *)
Definition shown (e : DohEndpoint) : list bytes :=
  match address e with Some a => [lit "address=" ++ a] | None => [] end
  ++ match sni e with Some s => [lit "sni=" ++ s] | None => [] end.

Lemma to_string_shown e : EchDns_to_string (Https e) = url e ++ concat (map (fun p => [64] ++ p) (shown e)).
Proof. unfold EchDns_to_string, shown. destruct (address e), (sni e); cbn [map concat app];
    rewrite <- ?app_assoc, ?app_nil_r; reflexivity. Qed.

Lemma host_no_at s : forallb host_char s = true -> no_char 64 s = true.
Proof. by apply forallb_no_char. Qed.

Lemma endpoint_shown e : endpoint_ok e ->
  Forall (fun p => no_char 64 p = true) (shown e) /\ forallb plain (concat (map (fun p => [64] ++ p) (shown e))) = true.
Proof.
  intros (_ & _ & _ & Ha & Hs).
  assert (Forall (fun p => no_char 64 p = true /\ forallb plain p = true) (shown e)) as Hf.
  { assert (forall w h, forallb host_char h = true -> no_char 64 w = true -> forallb plain w = true ->
      Forall (fun p => no_char 64 p = true /\ forallb plain p = true) [w ++ h]) as Hw.
    { intros w h Hh Hn Hp. constructor; [|constructor]. rewrite no_char_app, forallb_app, Hn, Hp, host_no_at by done.
      split; [done|]. apply (forallb_impl _ _ _ host_char_plain Hh). }
    apply Forall_app. split.
    - destruct (address e); [|constructor]. by apply Hw; [destruct Ha|..].
    - destruct (sni e); [|constructor]. by apply Hw; [destruct Hs; apply domain_text_char|..]. }
  split; [eapply Forall_impl; [exact Hf|by intros p []]|].
  clear -Hf. induction Hf as [|p ps [_ Hp] _ IH]; [done|]. cbn [map concat]. by rewrite !forallb_app, Hp, IH.
Qed.

Lemma doh_piece_address value u a s :
  forallb host_char a = true -> host_address a = Some a ->
  doh_piece value (mkDoh u None s) (lit "address=" ++ a) = Ok (mkDoh u (Some a) s).
Proof.
  intros Hc Ha. unfold doh_piece. change (lit "address=" ++ a) with (lit "address" ++ [61] ++ a). rewrite split_once_app by done. cbn [ok_or mbind res_bind].
  rewrite (trim_all_plain a) by (by apply (forallb_impl _ _ _ host_char_plain)).
  rewrite bool_decide_eq_true_2 by done. cbn [address]. by rewrite Ha.
Qed.

Lemma doh_piece_sni value u a s :
  parse_ip (unbracket s) = None -> valid_domain s = true ->
  doh_piece value (mkDoh u a None) (lit "sni=" ++ s) = Ok (mkDoh u a (Some s)).
Proof.
  intros Hp Hv. unfold doh_piece. change (lit "sni=" ++ s) with (lit "sni" ++ [61] ++ s). rewrite split_once_app by done. cbn [ok_or mbind res_bind].
  rewrite (trim_all_plain s) by (by apply (forallb_impl _ _ _ host_char_plain), domain_text_char).
  rewrite bool_decide_eq_false_2 by done. rewrite bool_decide_eq_true_2 by done. cbn [sni].
  rewrite bool_decide_eq_true_2 by done. by rewrite Hv.
Qed.

Lemma EchDns_parse_https e : endpoint_ok e -> EchDns_parse (EchDns_to_string (Https e)) = Ok (Https e).
Proof.
  intros Hok. pose proof (endpoint_shown e Hok) as [Hat Hpl]. pose proof Hok as (Hno & Htrim & Hhost & Ha & Hs).
  destruct (url_host_head (url e) Hhost) as (b & t & Hu & Hb & head & rest & Hhead & Hl).
  rewrite to_string_shown. unfold EchDns_parse.
  assert (trim (url e ++ concat (map (fun p => [64] ++ p) (shown e))) = url e ++ concat (map (fun p => [64] ++ p) (shown e))) as ->.
  { rewrite Hu in *. apply trim_app_plain; [done|by apply trim_end_of_trim|done]. }
  assert (exists r, strip_scheme (url e ++ concat (map (fun p => [64] ++ p) (shown e))) (lit "https://") = Some r) as [r ->].
  { rewrite Hhead, <- app_assoc. rewrite strip_scheme_app by done. eauto. }
  unfold DohEndpoint_parse. rewrite split_char_join by done. cbn [hd tl]. rewrite Htrim.
  fold (url_host (url e)). rewrite bool_decide_eq_false_2 by done.
  destruct e as [u [a|] [s|]]; unfold shown; cbn [url address sni app doh_pieces] in *.
  - rewrite doh_piece_address by (by destruct Ha). cbn [mbind res_bind]. by rewrite doh_piece_sni by (by destruct Hs).
  - by rewrite doh_piece_address by (by destruct Ha).
  - by rewrite doh_piece_sni by (by destruct Hs).
  - done.
Qed.

Lemma socket_address_wf text port a : 0 <= port <= U16_MAX -> socket_address text port = Some a -> sa_wf a.
Proof.
  intros Hp. unfold socket_address. destruct (parse_socket_addr text) as [s|] eqn:Hs.
  { intros [= <-]. by apply parse_socket_addr_wf in Hs. }
  destruct (parse_ip text) as [ip|] eqn:Hi; [intros [= <-]; split; [by apply parse_ip_wf in Hi|done]|].
  destruct (strip_prefix [91] text ≫= strip_suffix [93]) as [inner|]; [|done]. cbn [mbind option_bind].
  destruct (parse_ipv6 inner) as [v|] eqn:Hv; [|done]. cbn. intros [= <-]. split; [by apply parse_ipv6_wf in Hv|done].
Qed.

Lemma EchDns_parse_socket (scheme : bytes) a tcp : sa_wf a -> scheme = (if tcp : bool then lit "tcp://" else lit "udp://") ->
  EchDns_parse (scheme ++ sa_to_string a) = Ok (if tcp then Tcp a else Udp a).
Proof.
  intros Hwf Hsch. pose proof Hwf as [_ [Hport _]]. pose proof (sa_to_string_char a Hport) as Hc.
  unfold EchDns_parse. rewrite trim_all_plain.
  2: { rewrite forallb_app, (forallb_impl _ _ _ addr_char_plain Hc). by subst; destruct tcp. }
  assert (trim_end_matches 47 (sa_to_string a) = sa_to_string a) as Ht.
  { apply trim_end_matches_id. intros t E. rewrite E, forallb_app in Hc. by apply andb_prop in Hc as [_ Hc]. }
  assert (strip_scheme (scheme ++ sa_to_string a) (lit "https://") = None) as ->.
  { destruct (strip_scheme _ _) as [r|] eqn:E; [|done]. apply strip_scheme_Some in E as (h & E & Hl).
    destruct h as [|x h]; [done|]. subst scheme. destruct tcp; injection E as <- _; done. }
  destruct tcp; subst scheme.
  - assert (strip_scheme (lit "tcp://" ++ sa_to_string a) (lit "udp://") = None) as ->.
    { destruct (strip_scheme _ _) as [r|] eqn:E; [|done]. apply strip_scheme_Some in E as (h & E & Hl).
      destruct h as [|x h]; [done|]. injection E as <- _. done. }
    rewrite strip_scheme_app by done. cbn [mbind res_bind]. rewrite Ht. unfold socket_address. by rewrite parse_socket_addr_to_string.
  - rewrite strip_scheme_app by done. cbn [mbind res_bind]. rewrite Ht. unfold socket_address. by rewrite parse_socket_addr_to_string.
Qed.

(** The resolver that is read from a setting is the one read from its display: what
    is logged or shown to the user names the same server, address and server name. *)
Theorem EchDns_display_roundtrip value d :
  EchDns_parse value = Ok d -> EchDns_parse (EchDns_to_string d) = Ok d.
Proof.
  unfold EchDns_parse at 1. destruct (strip_scheme (trim value) (lit "https://")) as [r|].
  { destruct (DohEndpoint_parse (trim value)) as [e| |] eqn:He; [|done..]. cbn. intros [= <-].
    apply EchDns_parse_https. by eapply DohEndpoint_parse_ok. }
  destruct (match strip_scheme (trim value) (lit "udp://") with Some _ => _ | None => _ end) as [[rest tcp]| |]; [|done..].
  cbn [mbind res_bind]. destruct (socket_address _ 53) as [a|] eqn:Ha; [|done]. apply socket_address_wf in Ha; [|done].
  cbn. intros [= <-]. pose proof (EchDns_parse_socket (if tcp then lit "tcp://" else lit "udp://") a tcp Ha eq_refl) as H.
  by destruct tcp.
Qed.

(** ** The query and its answers *)

Import RouteDns.

(** The two copies of the message checks are the same function. *)
Lemma response_matches_eq : response_matches = SocksWire.dns_response_matches.
Proof. reflexivity. Qed.
Lemma skip_name_eq : skip_name = SocksWire.skip_name.
Proof. reflexivity. Qed.
Lemma skip_questions_eq : skip_questions = SocksWire.skip_questions.
Proof. reflexivity. Qed.

Lemma split_trailing_dot l ls : Forall SocksWire.plain_label (l :: ls) ->
  split_char 46 (join_dots (l :: ls) ++ [46]) = (l :: ls) ++ [[]].
Proof.
  intros Hls. replace (join_dots (l :: ls) ++ [46]) with (join_dots ((l :: ls) ++ [[]])).
  - apply (split_join_dots l (ls ++ [[]])). change (l :: ls ++ [[]]) with ((l :: ls) ++ [[]]). apply Forall_app.
    split; [eapply Forall_impl; [exact Hls|by intros ? []]|by repeat constructor].
  - cbn [join_dots app]. rewrite map_app, concat_app. cbn. by rewrite <- app_assoc.
Qed.

Lemma enc_query_labels ls : Forall SocksWire.plain_label ls ->
  concat (map (fun label => if bool_decide (label = []) then [] else [wrap_u8 (blen label)] ++ label) ls) = enc_labels ls.
Proof.
  unfold enc_labels. intros Hls. f_equal. apply map_ext_in. intros k Hk%list_elem_of_In. rewrite Forall_forall in Hls.
  pose proof (Hls k Hk) as Hp. pose proof (SocksWire.plain_label_ne k Hp). destruct Hp as [Hl _].
  rewrite bool_decide_eq_false_2 by done. unfold wrap_u8. by rewrite Z.mod_small by lia.
Qed.

(** The query for a name is the DNS query for its labels, and a trailing dot changes
    nothing of it. *)
Theorem build_query_labels l ls dot qtype id :
  Forall SocksWire.plain_label (l :: ls) ->
  build_query (join_dots (l :: ls) ++ (if dot : bool then [46] else [])) qtype id
  = (enc_query (mkQuery (be16_bytes id) 1 0 (replicate 6 0) (l :: ls) qtype 1), id).
Proof.
  intros Hls. unfold build_query. f_equal. unfold enc_query, enc_question. cbn [q_id q_flags1 q_flags2 q_counts q_name q_type q_class].
  replace (concat _) with (enc_labels (l :: ls)); [unfold enc_name; by rewrite <- !app_assoc|].
  destruct dot.
  - by rewrite split_trailing_dot, map_app, concat_app, enc_query_labels, app_nil_r by done.
  - rewrite app_nil_r, split_join_dots by (by eapply Forall_impl; [done|intros ? []]). by rewrite enc_query_labels.
Qed.

(** ** The ech parameter of an answer *)

(** The data of an HTTPS record: its priority, its target and its parameters. *)
Record svc := mkSvc { svc_priority : Z; svc_target : list bytes; svc_params : list (Z * bytes) }.
Definition enc_param (p : Z * bytes) : bytes := be16_bytes p.1 ++ be16_bytes (blen p.2) ++ p.2.
Definition enc_svc (s : svc) : bytes :=
  be16_bytes (svc_priority s) ++ enc_name (svc_target s) ++ concat (map enc_param (svc_params s)).
Definition param_ok (p : Z * bytes) : Prop := 0 <= p.1 <= U16_MAX /\ blen p.2 <= U16_MAX.

(** A record of another type, or an HTTPS record: the fields of [r] with the type and
    the data of its own. *)
Inductive record := OtherRR (r : rr) | SvcRR (r : rr) (s : svc).
Definition record_rr (x : record) : rr :=
  match x with
  | OtherRR r => r
  | SvcRR r s => mkRR (rr_labels r) (rr_pointer r) RR_HTTPS (rr_class r) (rr_ttl r) (enc_svc s)
  end.
Definition record_ok (x : record) : Prop :=
  rr_wf (record_rr x)
  /\ match x with
     | OtherRR r => rr_type r <> RR_HTTPS
     | SvcRR _ s => Forall (fun l => 1 <= blen l <= 63) (svc_target s) /\ Forall param_ok (svc_params s)
     end.
Fixpoint params_ech (ps : list (Z * bytes)) : option bytes :=
  match ps with
  | [] => None
  | (key, value) :: ps => if key =? SVCPARAM_ECH then Some value else params_ech ps
  end.
Definition record_ech (x : record) : option bytes :=
  match x with OtherRR _ => None | SvcRR _ s => params_ech (svc_params s) end.

Lemma blen_enc_param p : blen (enc_param p) = 4 + blen p.2.
Proof. unfold enc_param. blia. Qed.

Lemma svcparams_enc msg ps : forall pre post p fuel,
  msg = pre ++ concat (map enc_param ps) ++ post -> p = blen pre -> Forall param_ok ps -> (length ps < fuel)%nat ->
  loop fuel (svcparams_step msg (p + blen (concat (map enc_param ps)))) p = Some (try_opt (params_ech ps)).
Proof.
  induction ps as [|[k v] ps IH]; intros pre post p fuel Hm Hp Hps Hf; (destruct fuel as [|fuel]; [cbn in Hf; lia|]).
  - apply loop_exit. unfold svcparams_step. cbn [map concat]. by rewrite (proj2 (Z.leb_gt _ _)) by (autorewrite with blens; lia).
  - apply Forall_cons in Hps as [[Hk Hv] Hps]. cbn [fst snd map concat length] in *. unfold enc_param in Hm. cbn [fst snd] in Hm.
    set (rest := concat (map enc_param ps)) in *. pose proof (blen_nonneg v). pose proof (blen_nonneg rest).
    rewrite blen_app, blen_enc_param. cbn [snd].
    assert (svcparams_step msg (p + (4 + blen v + blen rest)) p
      = if k =? SVCPARAM_ECH then inr (Ok v) else inl (p + 4 + blen v)) as Hstep.
    { unfold svcparams_step. rewrite (proj2 (Z.leb_le _ _)) by lia.
      destruct (@idx_be16 unit msg pre k (be16_bytes (blen v) ++ v ++ rest ++ post) p) as [-> ->]; [rewrite Hm; solve_app|done|].
      destruct (@idx_be16 unit msg (pre ++ be16_bytes k) (blen v) (v ++ rest ++ post) (p + 2)) as [H2 H3]; [rewrite Hm; solve_app|blia|].
      replace (p + 2 + 1) with (p + 3) in H3 by lia. rewrite H2, H3. rsimp. rewrite !u16_be_roundtrip by lia.
      rewrite (proj2 (Z.ltb_ge _ _)) by lia. destruct (k =? SVCPARAM_ECH); [|done].
      rewrite slice_ok by (rewrite ?Hm; blia).
      rewrite (sub_at msg (pre ++ be16_bytes k ++ be16_bytes (blen v)) v (rest ++ post)) by (blia || (rewrite Hm; solve_app)). done. }
    cbn [params_ech]. destruct (k =? SVCPARAM_ECH); [by apply loop_exit|].
    rewrite (loop_step _ _ _ _ Hstep). replace (p + (4 + blen v + blen rest)) with (p + 4 + blen v + blen rest) by lia.
    apply (IH (pre ++ be16_bytes k ++ be16_bytes (blen v) ++ v) post); [rewrite Hm; solve_app|blia|done|lia].
Qed.

Lemma params_length ps : (length ps <= length (concat (map enc_param ps)))%nat.
Proof.
  induction ps as [|p ps IH]; [done|]. cbn [map concat length]. rewrite length_app.
  pose proof (blen_enc_param p). pose proof (blen_nonneg p.2). unfold blen in *. lia.
Qed.

Lemma parse_svcparams_enc msg s pre post start :
  msg = pre ++ enc_svc s ++ post -> start = blen pre ->
  Forall (fun l => 1 <= blen l <= 63) (svc_target s) -> Forall param_ok (svc_params s) ->
  parse_svcparams_ech msg start (blen (enc_svc s)) = try_opt (params_ech (svc_params s)).
Proof.
  intros Hm Hs Ht Hp. unfold enc_svc, enc_name in *. unfold parse_svcparams_ech.
  set (rest := concat (map enc_param (svc_params s))) in *. pose proof (blen_nonneg rest). pose proof (blen_nonneg (enc_labels (svc_target s))).
  rewrite (proj2 (Z.ltb_ge _ _)) by blia. rewrite skip_name_eq.
  rewrite (SocksWire.skip_name_end msg (svc_target s) [0] (pre ++ be16_bytes (svc_priority s)) (rest ++ post)); [|rewrite Hm; solve_app|blia|done|by left].
  rsimp. change (blen [0]) with 1. set (labels := enc_labels (svc_target s)) in *.
  replace (start + blen (be16_bytes (svc_priority s) ++ (labels ++ [0]) ++ rest)) with (start + 2 + blen labels + 1 + blen rest) by blia.
  rewrite (svcparams_enc msg (svc_params s) (pre ++ be16_bytes (svc_priority s) ++ labels ++ [0]) post); [done|rewrite Hm; solve_app|blia|done|].
  pose proof (params_length (svc_params s)) as Hl. fold rest in Hl. rewrite Hm, !length_app. lia.
Qed.

Lemma find_ech_enc msg xs : forall pre post pos,
  msg = pre ++ concat (map enc_rr (map record_rr xs)) ++ post -> pos = blen pre -> Forall record_ok xs ->
  find_ech msg (length xs) pos = try_opt (omap record_ech xs !! 0%nat).
Proof.
  induction xs as [|x xs IH]; intros pre post pos Hr Hpos Hxs; [done|].
  apply Forall_cons in Hxs as [[Hw Hx] Hxs]. cbn [map concat length find_ech omap list_omap] in *.
  pose proof Hw as (_ & _ & _ & Ht & _ & Hd). set (r := record_rr x) in *. unfold enc_rr at 1 in Hr.
  set (o := enc_owner r) in *. set (t := be16_bytes (rr_type r)) in *.
  set (c := be16_bytes (rr_class r) ++ be32_bytes (rr_ttl r)) in *.
  set (l := be16_bytes (blen (rr_data r))) in *. set (d := rr_data r) in *.
  set (rest := concat (map enc_rr (map record_rr xs)) ++ post).
  assert (Hr' : msg = pre ++ o ++ t ++ c ++ l ++ d ++ rest) by (rewrite Hr; unfold c, rest; solve_app).
  assert (Hc : blen c = 6) by done. clearbody c. rewrite skip_name_eq.
  rewrite (SocksWire.skip_name_owner msg r pre (t ++ c ++ l ++ d ++ rest)) by done. fold o. rsimp.
  remember (pos + blen o) as w eqn:Hwq.
  assert (Hlen : blen msg = w + 10 + blen d + blen rest) by (rewrite Hr'; unfold t, l; blia).
  rewrite (proj2 (Z.ltb_ge _ _)) by blia.
  destruct (@idx_be16 unit msg (pre ++ o) (rr_type r) (c ++ l ++ d ++ rest) w) as [-> ->]; [rewrite Hr'; solve_app | blia |].
  destruct (@idx_be16 unit msg (pre ++ o ++ t ++ c) (blen d) (d ++ rest) (w + 8)) as [H8 H9];
    [rewrite Hr'; solve_app | unfold t; blia |].
  replace (w + 8 + 1) with (w + 9) in H9 by lia. rewrite H8, H9. rsimp.
  rewrite !u16_be_roundtrip by (done || (split; [apply blen_nonneg|done])).
  rewrite (proj2 (Z.ltb_ge _ _)) by blia.
  assert (Hd' : msg = (pre ++ o ++ t ++ c ++ l) ++ d ++ rest) by (rewrite Hr'; solve_app).
  assert (Hw10 : w + 10 = blen (pre ++ o ++ t ++ c ++ l)) by (unfold t, l; blia).
  assert ((if rr_type r =? RR_HTTPS then catch (parse_svcparams_ech msg (w + 10) (blen d)) else Ok None)
    = Ok (record_ech x)) as ->.
  { destruct x as [r'|r' s]; cbn [record_rr] in r.
    - by rewrite (proj2 (Z.eqb_neq (rr_type r) RR_HTTPS) Hx).
    - destruct Hx as [Hx1 Hx2]. change (rr_type r =? RR_HTTPS) with true. cbn iota.
      change d with (enc_svc s) in Hd' |- *. rewrite (parse_svcparams_enc msg s _ rest (w + 10) Hd' Hw10 Hx1 Hx2).
      cbn [record_ech]. by destruct (params_ech (svc_params s)). }
  rsimp. destruct (record_ech x) as [e|]; [done|].
  rewrite (IH ((pre ++ o ++ t ++ c ++ l) ++ d) post); [done| |rewrite Hw10; blia|done].
  rewrite Hd'. unfold rest. solve_app.
Qed.

(** An HTTPS lookup takes the ech parameter of the first HTTPS record that has one,
    whatever other records and parameters surround it. *)
Lemma parse_https_ech_enc id flags1 flags2 ls qtype class counts xs :
  let resp := SocksWire.enc_answer id flags1 flags2 ls qtype class counts (map record_rr xs) in
  blen counts = 4 -> blen xs <= U16_MAX -> blen resp <= USIZE_MAX ->
  Forall (fun l => 1 <= blen l <= 63) ls -> Forall record_ok xs ->
  parse_https_ech resp = try_opt (omap record_ech xs !! 0%nat).
Proof.
  intros resp Hc Hn Hmax Hls Hrs. unfold parse_https_ech. set (rrs := map record_rr xs) in *.
  assert (blen rrs = blen xs) as Hbl by (unfold rrs, blen; by rewrite length_map).
  set (pre := [(id / 256) mod 256; id mod 256; flags1; flags2; 0; 1; (blen rrs / 256) mod 256; blen rrs mod 256] ++ counts).
  assert (Hr : resp = pre ++ enc_labels ls ++ [0] ++ be16_bytes qtype ++ be16_bytes class ++ concat (map enc_rr rrs))
    by (unfold resp; rewrite SocksWire.enc_answer_app; fold pre; unfold enc_name; solve_app).
  assert (Hpre : blen pre = 12) by (unfold pre; blia).
  assert (Hlen : blen resp = 12 + blen (enc_labels ls) + 5 + blen (concat (map enc_rr rrs))) by (rewrite Hr; blia).
  pose proof (blen_nonneg (enc_labels ls)). pose proof (blen_nonneg (concat (map enc_rr rrs))).
  rewrite (proj2 (Z.ltb_ge _ _)) by lia. unfold resp.
  rewrite !(SocksWire.enc_answer_idx _ _ _ _ _ _ _ _ 4 0), !(SocksWire.enc_answer_idx _ _ _ _ _ _ _ _ 5 1),
    !(SocksWire.enc_answer_idx _ _ _ _ _ _ _ _ 6 ((blen rrs / 256) mod 256)),
    !(SocksWire.enc_answer_idx _ _ _ _ _ _ _ _ 7 (blen rrs mod 256)) by done.
  fold resp. rsimp. change (Z.to_nat (u16_be 0 1)) with 1%nat.
  rewrite u16_be_roundtrip by (split; [apply blen_nonneg|lia]). rewrite Hbl.
  cbn [skip_questions]. rewrite skip_name_eq.
  rewrite (SocksWire.skip_name_end resp ls [0] pre (be16_bytes qtype ++ be16_bytes class ++ concat (map enc_rr rrs)) 12)
    by (done || auto). rsimp. change (blen [0]) with 1.
  rewrite checked_add_ok by lia. rsimp. unfold blen at 1. rewrite Nat2Z.id.
  apply (find_ech_enc resp xs (pre ++ enc_labels ls ++ [0] ++ be16_bytes qtype ++ be16_bytes class) []); [|blia|done].
  rewrite Hr, app_nil_r. solve_app.
Qed.

(** ** The lookups *)

(** What does not end a UDP lookup: a timeout, or a datagram that does not answer
    the query. *)
Definition unrelated (domain : bytes) (id : Z) (e : UdpEvent) : Prop :=
  match e with
  | Received data => response_matches (sub data 0 (Z.min (blen data) 4096)) id domain RR_HTTPS = Ok false
  | RecvError _ => False
  | ResendTimeout => True
  end.
Definition is_timeout (e : UdpEvent) : bool := match e with ResendTimeout => true | _ => false end.

Lemma query_udp_events_skip query domain id noise events :
  Forall (unrelated domain id) noise ->
  query_udp_events query domain id (noise ++ events)
  = let '(sent, r) := query_udp_events query domain id events in
    (replicate (length (List.filter is_timeout noise)) query ++ sent, r).
Proof.
  induction 1 as [|e noise He _ IH]; cbn [app]; [by destruct (query_udp_events query domain id events)|].
  destruct e as [data|text|]; cbn [query_udp_events unrelated List.filter is_timeout] in *; [|done|].
  - rewrite He. cbn [never_err]. exact IH.
  - rewrite IH. destruct (query_udp_events query domain id events). done.
Qed.

(** The answer of a resolver to the query for the HTTPS record of a domain. *)
Definition resolver_answer (id : Z) (ls : list bytes) (class : Z) (counts : bytes) (xs : list record) : bytes :=
  SocksWire.enc_answer id 129 128 ls RR_HTTPS class counts (map record_rr xs).

Lemma resolver_answer_matches id ls' class counts xs l ls :
  blen counts = 4 -> 0 <= id <= U16_MAX -> blen (resolver_answer id ls' class counts xs) <= USIZE_MAX ->
  Forall SocksWire.plain_label (l :: ls) -> Forall (fun l => 1 <= blen l <= 63) ls' ->
  map to_ascii_lowercase ls' = map to_ascii_lowercase (l :: ls) ->
  response_matches (resolver_answer id ls' class counts xs) id (join_dots (l :: ls)) RR_HTTPS = Ok true.
Proof.
  intros Hc Hid Hmax Hls Hls' He. rewrite response_matches_eq. unfold resolver_answer in *.
  rewrite SocksWire.dns_response_matches_enc by done. rewrite !Z.eqb_refl, bool_decide_eq_true_2 by done. done.
Qed.

Lemma answer_ech_found id ls' class counts xs domain b ech :
  blen counts = 4 -> blen xs <= U16_MAX -> blen (resolver_answer id ls' class counts xs) <= USIZE_MAX ->
  Forall (fun l => 1 <= blen l <= 63) ls' -> Forall record_ok xs -> omap record_ech xs !! 0%nat = Some (b :: ech) ->
  answer_ech (resolver_answer id ls' class counts xs) domain = Ok (b :: ech).
Proof. intros Hc Hx Hmax Hls Hxs He. unfold answer_ech, resolver_answer in *. by rewrite parse_https_ech_enc, He. Qed.

(** A lookup over UDP ends with the ech parameter of the first HTTPS record that has
    one as soon as the resolver's answer comes, in whatever case it repeats the name,
    and whatever timeouts and datagrams of others come before; the query went out once
    and again after each timeout. *)
Theorem query_udp_finds_ech l ls ls' class counts xs random noise later b ech :
  let domain := join_dots (l :: ls) in
  let answer := resolver_answer random ls' class counts xs in
  Forall SocksWire.plain_label (l :: ls) -> 0 <= random <= U16_MAX ->
  Forall (fun l => 1 <= blen l <= 63) ls' -> map to_ascii_lowercase ls' = map to_ascii_lowercase (l :: ls) ->
  blen counts = 4 -> blen xs <= U16_MAX -> Forall record_ok xs -> blen answer <= 4096 ->
  omap record_ech xs !! 0%nat = Some (b :: ech) ->
  Forall (unrelated domain random) noise ->
  query_udp domain random (noise ++ Received answer :: later)
  = (replicate (S (length (List.filter is_timeout noise))) (build_query domain RR_HTTPS random).1, Some (Ok (b :: ech))).
Proof.
  intros domain answer Hls Hid Hls' He Hc Hx Hxs Hmax Hech Hnoise. unfold query_udp.
  destruct (build_query domain RR_HTTPS random) as [query id] eqn:Hq. assert (id = random) as -> by (by injection Hq as <- <-).
  rewrite query_udp_events_skip by done. cbn [query_udp_events]. rewrite Z.min_l by done. rewrite sub_all. unfold answer, domain in *.
  rewrite resolver_answer_matches by (done || (unfold USIZE_MAX, U64_MAX; lia)). cbn [never_err].
  rewrite (answer_ech_found _ _ _ _ _ _ b ech) by (done || (unfold USIZE_MAX, U64_MAX; lia)). by rewrite app_nil_r.
Qed.

(** Over TCP the answer behind its length is read and nothing after it; what is
    written is the query behind its length. *)
Theorem query_tcp_finds_ech l ls ls' class counts xs random later b ech :
  let domain := join_dots (l :: ls) in
  let answer := resolver_answer random ls' class counts xs in
  Forall SocksWire.plain_label (l :: ls) -> 0 <= random <= U16_MAX ->
  Forall (fun l => 1 <= blen l <= 63) ls' -> map to_ascii_lowercase ls' = map to_ascii_lowercase (l :: ls) ->
  blen counts = 4 -> blen xs <= U16_MAX -> Forall record_ok xs -> blen answer <= U16_MAX ->
  omap record_ech xs !! 0%nat = Some (b :: ech) ->
  query_tcp domain random (tcp_message answer ++ later) = (tcp_message (build_query domain RR_HTTPS random).1, Ok (b :: ech)).
Proof.
  intros domain answer Hls Hid Hls' He Hc Hx Hxs Hmax Hech. unfold query_tcp.
  destruct (build_query domain RR_HTTPS random) as [query id] eqn:Hq. assert (id = random) as -> by (by injection Hq as <- <-).
  f_equal. unfold tcp_message. pose proof (blen_nonneg answer). unfold wrap_u16, U16_MAX in *. rewrite Z.mod_small by lia.
  rewrite <- app_assoc, SocksWire.read_exact_app by apply blen_be16_bytes. rsimp. rewrite be16_bytes_spec.
  change (idx [?a; ?b] 0) with (@Ok AetherError Z a). change (idx [?a; ?b] 1) with (@Ok AetherError Z b). rsimp.
  rewrite u16_be_roundtrip by (unfold U16_MAX; lia). rewrite SocksWire.read_exact_app by done. rsimp. unfold answer, domain in *.
  rewrite resolver_answer_matches by (done || (unfold USIZE_MAX, U64_MAX; lia)). cbn [never_err mbind res_bind negb].
  apply answer_ech_found; done || (unfold USIZE_MAX, U64_MAX, U16_MAX; lia).
Qed.

Lemma svcparams_total msg end_ p : all_bytes msg -> 0 <= p -> end_ <= blen msg ->
  exists r, loop (S (length msg)) (svcparams_step msg end_) p = Some r /\ r <> Panic.
Proof.
  intros Hb Hp He.
  apply (loop_correct (svcparams_step msg end_) (fun p => 0 <= p) (fun r => r <> Panic) (fun p => Z.to_nat (blen msg - p)));
    [|done|unfold blen; lia].
  intros q Hq. unfold svcparams_step. destruct (Z.leb_spec (q + 4) end_); [|done].
  read msg q as k0 Hk0. read msg (q + 1) as k1 Hk1.
  read msg (q + 2) as l0 Hl0. read msg (q + 3) as l1 Hl1.
  rsimp. assert (0 <= u16_be l0 l1 <= U16_MAX) by (apply u16_be_bound; by eapply all_bytes_bget).
  zcase; [done|]. zcase; [by rewrite slice_ok by lia|]. cbn [step_of]. lia.
Qed.

Lemma find_ech_no_panic msg an : forall pos, all_bytes msg -> 0 <= pos -> find_ech msg an pos <> Panic.
Proof.
  induction an as [|an IH]; intros pos Hb Hp; cbn [find_ech]; [done|]. rewrite skip_name_eq.
  destruct (SocksWire.skip_name msg pos) as [p|] eqn:Hs; [|done]. rsimp. apply SocksWire.skip_name_bounds in Hs; [|done..].
  zcase; [done|].
  read msg p as r0 Hr0. read msg (p + 1) as r1 Hr1.
  read msg (p + 8) as l0 Hl0. read msg (p + 9) as l1 Hl1.
  rsimp. assert (0 <= u16_be l0 l1 <= U16_MAX) by (apply u16_be_bound; by eapply all_bytes_bget). zcase; [done|].
  assert (forall rdlen, p + 10 + rdlen <= blen msg -> parse_svcparams_ech msg (p + 10) rdlen <> Panic) as Hsvc.
  { intros rdlen Hr. unfold parse_svcparams_ech. zcase; [done|]. rewrite skip_name_eq.
    destruct (SocksWire.skip_name msg (p + 10 + 2)) as [q|] eqn:Hq; [|done]. rsimp. apply SocksWire.skip_name_bounds in Hq; [|done|lia].
    destruct (svcparams_total msg (p + 10 + rdlen) q) as (r & -> & Hn); [done|lia|lia|]. done. }
  specialize (Hsvc (u16_be l0 l1) ltac:(lia)).
  destruct (if _ =? RR_HTTPS then _ else _) as [[e|]| |] eqn:Hc; rsimp; [done|apply IH; [done|lia]|done|].
  revert Hc. zcase; [|done]. by destruct (parse_svcparams_ech msg (p + 10) (u16_be l0 l1)).
Qed.

Lemma parse_https_ech_no_panic msg : all_bytes msg -> parse_https_ech msg <> Panic.
Proof.
  intros Hb. unfold parse_https_ech. zcase; [done|].
  read msg 4 as b4 Hb4. read msg 5 as b5 Hb5.
  read msg 6 as b6 Hb6. read msg 7 as b7 Hb7. rsimp.
  rewrite skip_questions_eq. pose proof (SocksWire.skip_questions_no_panic msg (Z.to_nat (u16_be b4 b5)) 12 Hb ltac:(lia)) as Hs.
  destruct (SocksWire.skip_questions _ _ _) as [p| |]; [|done..]. rsimp. by apply find_ech_no_panic.
Qed.

(** Whatever a socket delivers, a lookup over UDP does not panic, and what it returns
    is the ech parameter of a datagram that matches the query. *)
Theorem query_udp_safe domain random events :
  Forall (fun e => match e with Received data => all_bytes data | _ => True end) events ->
  match (query_udp domain random events).2 with
  | Some Panic => False
  | Some (Ok ech) =>
      exists data, In (Received data) events
        /\ response_matches (sub data 0 (Z.min (blen data) 4096)) random domain RR_HTTPS = Ok true
        /\ parse_https_ech (sub data 0 (Z.min (blen data) 4096)) = Ok ech /\ ech <> []
  | _ => True
  end.
Proof.
  intros Hev. unfold query_udp. cbn [build_query].
  match goal with |- context [query_udp_events ?q domain random events] => generalize q end. intros query.
  induction Hev as [|e events He _ IH]; [done|]. destruct e as [data|text|]; cbn [query_udp_events]; [|done|].
  - set (msg := sub data 0 (Z.min (blen data) 4096)). assert (all_bytes msg) as Hb by (by apply Forall_sub).
    destruct (SocksWire.dns_response_matches_no_panic msg random domain RR_HTTPS) as [ok Hok].
    rewrite response_matches_eq, Hok. cbn [never_err]. destruct ok.
    + cbn [snd]. unfold answer_ech. pose proof (parse_https_ech_no_panic msg Hb) as Hnp.
      destruct (parse_https_ech msg) as [[|b ech]| |] eqn:Hp; [done| |done..].
      exists data. split; [by left|]. fold msg. by rewrite Hok, Hp.
    + destruct (query_udp_events query domain random events) as [sent r]. cbn [snd] in *.
      destruct r as [[ech| |]|]; [|done..]. destruct IH as (d & Hd & H). exists d. split; [by right|done].
  - destruct (query_udp_events query domain random events) as [sent r]. cbn [snd] in *.
    destruct r as [[ech| |]|]; [|done..]. destruct IH as (d & Hd & H). exists d. split; [by right|done].
Qed.

(** ** The theorems at work *)

Lemma EchDns_display_roundtrip_witness :
  EchDns_parse (EchDns_to_string (Https (mkDoh (lit "https://dns.example/dns-query?x=1") (Some (lit "::1")) (Some (lit "a.example")))))
  = Ok (Https (mkDoh (lit "https://dns.example/dns-query?x=1") (Some (lit "::1")) (Some (lit "a.example")))).
Proof.
  apply (EchDns_display_roundtrip (lit " https://dns.example/dns-query?x=1 @SNI= a.example @address=[0:0::1]")). vm_compute. reflexivity.
Defined.

Definition example_labels : list bytes := [lit "ech"; lit "example"].
Lemma example_plain : Forall SocksWire.plain_label example_labels.
Proof. repeat constructor; (unfold blen; cbn; lia) || done. Qed.

Lemma build_query_labels_witness :
  build_query (lit "ech.example.") RR_HTTPS 7
  = (enc_query (mkQuery [0; 7] 1 0 (replicate 6 0) [lit "ech"; lit "example"] 65 1), 7).
Proof. apply (build_query_labels (lit "ech") [lit "example"] true 65 7). apply example_plain. Defined.

(** An alias, then an HTTPS record with an ALPN and an ech parameter. *)
Definition example_records : list record :=
  [OtherRR (mkRR [] (Some (192, 12)) 5 1 60 [1; 97; 0]);
   SvcRR (mkRR [] (Some (192, 12)) 65 1 60 []) (mkSvc 1 [] [(1, [2; 104; 50]); (5, [0; 4; 254; 13])])].
Lemma example_records_ok : Forall record_ok example_records.
Proof.
  repeat constructor; unfold param_ok, U16_MAX, U32_MAX, blen; cbn; (done || lia || (split; lia)).
Qed.

Lemma query_udp_finds_ech_witness :
  query_udp (lit "ech.example") 7
    [ResendTimeout; Received [1; 2; 3]; Received (resolver_answer 7 [lit "ECH"; lit "example"] 1 [0; 0; 0; 0] example_records)]
  = (replicate 2 (build_query (lit "ech.example") RR_HTTPS 7).1, Some (Ok [0; 4; 254; 13])).
Proof.
  apply (query_udp_finds_ech (lit "ech") [lit "example"] [lit "ECH"; lit "example"] 1 [0; 0; 0; 0] example_records 7
    [ResendTimeout; Received [1; 2; 3]] [] 0 [4; 254; 13]).
  - apply example_plain.
  - unfold U16_MAX. lia.
  - repeat constructor; unfold blen; cbn; lia.
  - reflexivity.
  - reflexivity.
  - unfold U16_MAX, blen. cbn. lia.
  - apply example_records_ok.
  - apply Z.leb_le. vm_compute. reflexivity.
  - reflexivity.
  - repeat constructor.
Defined.

Lemma query_tcp_finds_ech_witness :
  query_tcp (lit "ech.example") 7
    (tcp_message (resolver_answer 7 [lit "ech"; lit "example"] 1 [0; 0; 0; 0] example_records) ++ [255])
  = (tcp_message (build_query (lit "ech.example") RR_HTTPS 7).1, Ok [0; 4; 254; 13]).
Proof.
  apply (query_tcp_finds_ech (lit "ech") [lit "example"] [lit "ech"; lit "example"] 1 [0; 0; 0; 0] example_records 7 [255] 0 [4; 254; 13]).
  - apply example_plain.
  - unfold U16_MAX. lia.
  - repeat constructor; unfold blen; cbn; lia.
  - reflexivity.
  - reflexivity.
  - unfold U16_MAX, blen. cbn. lia.
  - apply example_records_ok.
  - apply Z.leb_le. vm_compute. reflexivity.
  - reflexivity.
Defined.

Lemma query_udp_safe_witness :
  exists data, In (Received data) [Received (resolver_answer 7 example_labels 1 [0; 0; 0; 0] example_records)]
    /\ response_matches (sub data 0 (Z.min (blen data) 4096)) 7 (lit "ech.example") RR_HTTPS = Ok true
    /\ parse_https_ech (sub data 0 (Z.min (blen data) 4096)) = Ok [0; 4; 254; 13] /\ [0; 4; 254; 13] <> [].
Proof.
  pose proof (query_udp_safe (lit "ech.example") 7 [Received (resolver_answer 7 example_labels 1 [0; 0; 0; 0] example_records)]) as H.
  assert ((query_udp (lit "ech.example") 7 [Received (resolver_answer 7 example_labels 1 [0; 0; 0; 0] example_records)]).2
    = Some (Ok [0; 4; 254; 13])) as E by (vm_compute; reflexivity).
  rewrite E in H. apply H. constructor; [|constructor]. vm_compute. repeat constructor; discriminate.
Defined.

End Dns.
