(* ===== verification/Upstream.v ===== *)
(** * The upstream proxy ([aether/src/upstream.rs])

    The proxy a setting names and the URLs it is given to other programs as; the
    client side of SOCKS5 and of HTTP CONNECT; the headers of the UDP relay; the
    detours that send the datagrams of a socket through the relay.  A TCP stream is
    the bytes it will deliver; a handshake is a computation that writes and reads. *)

From S2P Require Import Prelude Str Ip Text Error Routing SocksWire.
Local Open Scope Z_scope.

Module Upstream.
Import Error.

Definition VER : Z := 5.
Definition AUTH_NONE : Z := 0.
Definition AUTH_USERPASS : Z := 2.
Definition AUTH_REJECTED : Z := 255.
Definition CMD_CONNECT : Z := 1.
Definition CMD_ASSOCIATE : Z := 3.
Definition ATYP_V4 : Z := 1.
Definition ATYP_NAME : Z := 3.
Definition ATYP_V6 : Z := 4.
Definition REP_OK : Z := 0.

(** ** The setting *)

Inductive Kind := Socks5 | Http.
#[export] Instance Kind_eq_dec : EqDecision Kind.
Proof. solve_decision. Defined.
Definition label (k : Kind) : bytes := match k with Socks5 => lit "socks5" | Http => lit "http" end.

Record Upstream := mkUpstream { kind : Kind; host : bytes; port : Z; user : option bytes; password : option bytes }.
#[export] Instance Upstream_eq_dec : EqDecision Upstream.
Proof. solve_decision. Defined.

Definition split_endpoint (endpoint : bytes) : res AetherError (bytes * Z) :=
  let malformed := Other (endpoint ++ lit " is not a host and port an upstream proxy can live at") in
  match strip_prefix [91] endpoint with
  | Some rest =>
      '(host, tail) ← ok_or (split_once 93 rest) malformed;
      port ← ok_or (strip_prefix [58] tail) malformed;
      port ← ok_or (parse_u16 port) malformed;
      if bool_decide (host = []) || (port =? 0) then Err malformed else Ok (host, port)
  | None =>
      '(host, port) ← ok_or (rsplit_once 58 endpoint) malformed;
      port ← ok_or (parse_u16 port) malformed;
      if bool_decide (host = []) || (port =? 0) then Err malformed else Ok (host, port)
  end.

Definition unreserved (b : Z) : bool := is_ascii_alphanumeric b || (b =? 45) || (b =? 46) || (b =? 95) || (b =? 126).
(** [{byte:02X}] *)
Definition hex_upper (d : Z) : Z := if d <? 10 then 48 + d else 55 + d.
Definition percent_encode (value : bytes) : bytes :=
  concat (map (fun b => if unreserved b then [b] else [37; hex_upper (b / 16); hex_upper (b mod 16)]) value).

(** One turn of the loop at [at_]: the byte it adds and the next position. *)
Definition percent_step (bytes_ : bytes) (s : bytes * Z) : bytes * Z + res unit bytes :=
  let '(out, at_) := s in
  if at_ <? blen bytes_ then
    step_of (b ← idx bytes_ at_;
             decoded ← (if (b =? 37) && (at_ + 2 <? blen bytes_) then
                          hex ← slice bytes_ (at_ + 1) (at_ + 3);
                          Ok (parse_hex U8_MAX (default [] (from_utf8 hex)))
                        else Ok None);
             match decoded with
             | Some byte => Ok (inl (out ++ [byte], at_ + 3))
             | None => Ok (inl (out ++ [b], at_ + 1))
             end)
  else inr (Ok out).
Definition percent_decode (value : bytes) : res unit bytes :=
  out ← default Panic (loop (S (length value)) (percent_step value) ([], 0));
  Ok (from_utf8_lossy out).

(** A call that returns a value in any case. *)
Definition infallible {A} (m : res unit A) : res AetherError A := match m with Ok a => Ok a | _ => Panic end.

Section setting.
Context `{UnicodeCase}.

Definition refused_https : bytes :=
  lit "an https:// upstream with a password is refused: aether talks to its upstream over plain http, which would send the password in the clear; use http:// only if that is acceptable, or socks5://".

Definition parse (raw : bytes) : res AetherError Upstream :=
  let raw := trim raw in
  let '(scheme, rest) :=
    match split_once_str (lit "://") raw with
    | Some (scheme, rest) => (to_lowercase scheme, rest)
    | None => (lit "socks5", raw)
    end in
  kind ← (if bool_decide (scheme ∈ [lit "socks5"; lit "socks5h"; lit "socks"]) then Ok Socks5
          else if bool_decide (scheme ∈ [lit "http"; lit "https"]) then Ok Http
          else Err (Other (scheme ++ lit " is not an upstream proxy kind aether understands")));
  let '(credentials, endpoint) :=
    match rsplit_once 64 rest with
    | Some (credentials, endpoint) => (Some credentials, endpoint)
    | None => (None, rest)
    end in
  if bool_decide (scheme = lit "https") && bool_decide (is_Some credentials) then Err (Other refused_https)
  else
    let endpoint := trim_end_matches 47 endpoint in
    '(host, port) ← split_endpoint endpoint;
    '(user, password) ←
      match credentials with
      | Some both =>
          match split_once 58 both with
          | Some (user, password) =>
              user ← infallible (percent_decode user);
              password ← infallible (percent_decode password);
              Ok (Some user, Some password)
          | None => user ← infallible (percent_decode both); Ok (Some user, None)
          end
      | None => Ok (None, None)
      end;
    Ok (mkUpstream kind host port user password).

Definition from_value (raw : bytes) : option Upstream :=
  let trimmed := trim raw in
  if bool_decide (trimmed = []) then None
  else match parse trimmed with Ok u => Some u | _ => None end.

(** The setting that was parsed last and the proxy it names: the new memory and the
    answer. *)
Definition remembered (seen : option (bytes * option Upstream)) (raw : bytes)
  : option (bytes * option Upstream) * option Upstream :=
  let fresh := let u := from_value raw in (Some (raw, u), u) in
  match seen with
  | Some (last, u) => if bool_decide (last = raw) then (seen, u) else fresh
  | None => fresh
  end.

(** [task] is the proxy of the task, see [through]. *)
Definition configured (task : option Upstream) (env : bytes -> option bytes) (seen : option (bytes * option Upstream))
  : option (bytes * option Upstream) * option Upstream :=
  match task with
  | Some proxy => (seen, Some proxy)
  | None => remembered seen (default [] (env (lit "AETHER_UPSTREAM")))
  end.

Definition usable (raw : bytes) : res AetherError unit :=
  if bool_decide (trim raw = []) then Ok tt
  else match parse raw with
       | Ok _ => Ok tt
       | Err e => Err (Other (lit "--upstream cannot be used: " ++ detail e ++ lit "; aether ends rather than connect around it"))
       | Panic => Panic
       end.
End setting.

Definition endpoint (u : Upstream) : bytes := host u ++ [58] ++ dec (port u).
Definition url_authority (u : Upstream) : bytes :=
  (if contains_char 58 (host u) then [91] ++ host u ++ [93] else host u).
Definition url (u : Upstream) : bytes :=
  match kind u with Socks5 => lit "socks5h" | Http => lit "http" end
  ++ lit "://" ++ url_authority u ++ [58] ++ dec (port u).
Definition psiphon_url (u : Upstream) : bytes :=
  let credentials :=
    match user u, password u with
    | Some user, Some password => percent_encode user ++ [58] ++ percent_encode password ++ [64]
    | Some user, None => percent_encode user ++ [64]
    | _, _ => []
    end in
  match kind u with Socks5 => lit "socks5" | Http => lit "http" end
  ++ lit "://" ++ credentials ++ url_authority u ++ [58] ++ dec (port u).

Definition socks_address (u : Upstream) : option SocketAddr :=
  if negb (bool_decide (kind u = Socks5)) || bool_decide (is_Some (user u)) then None
  else (fun ip => mkSocketAddr ip (port u)) <$> parse_ip (host u).

(** ** Messages *)

Definition encode_address (target : SocketAddr) : bytes :=
  match sa_ip target with
  | V4 a => [ATYP_V4] ++ octets (V4 a)
  | V6 a => [ATYP_V6] ++ octets (V6 a)
  end ++ be16_bytes (sa_port target).
Definition encode_request (command : Z) (target : SocketAddr) : bytes := [VER; command; 0] ++ encode_address target.
(** [debug] is the [Debug] text of a string. *)
Definition encode_name_request (debug : bytes -> bytes) (command : Z) (name : bytes) (port : Z) : res AetherError bytes :=
  if (blen name <=? U8_MAX) && (0 <? blen name) then
    Ok ([VER; command; 0; ATYP_NAME; blen name] ++ name ++ be16_bytes port)
  else Err (Other (debug name ++ lit " is no name a socks5 proxy can be asked for")).
Definition encode_udp_header (target : SocketAddr) : bytes := [0; 0; 0] ++ encode_address target.

(** The origin of a datagram of the relay and where its payload starts. *)
Definition decode_udp_header (buf : bytes) : res unit (SocketAddr * Z) :=
  if blen buf <? 4 then Err tt
  else
    b2 ← idx buf 2;
    if negb (b2 =? 0) then Err tt
    else
      b3 ← idx buf 3;
      if b3 =? ATYP_V4 then
        if blen buf <? 10 then Err tt
        else
          a ← idx buf 4; b ← idx buf 5; c ← idx buf 6; d ← idx buf 7;
          p0 ← idx buf 8; p1 ← idx buf 9;
          Ok (mkSocketAddr (V4 (v4_new a b c d)) (u16_be p0 p1), 10)
      else if b3 =? ATYP_V6 then
        if blen buf <? 22 then Err tt
        else
          o ← slice buf 4 20;
          p0 ← idx buf 20; p1 ← idx buf 21;
          Ok (mkSocketAddr (V6 (be_combine o)) (u16_be p0 p1), 22)
      else if b3 =? ATYP_NAME then
        length ← get_o buf 4;
        let end_ := 5 + length in
        if blen buf <? end_ + 2 then Err tt
        else
          p0 ← idx buf end_; p1 ← idx buf (end_ + 1);
          name ← slice buf 5 end_;
          name ← try_opt (from_utf8 name);
          ip ← try_opt (parse_ip name);
          Ok (mkSocketAddr ip (u16_be p0 p1), end_ + 2)
      else Err tt.

Definition http_status (head : bytes) : option Z :=
  line ← lines (from_utf8_lossy head) !! 0%nat;
  let parts := split_whitespace line in
  version ← parts !! 0%nat;
  if starts_with (lit "HTTP/") version then parts !! 1%nat ≫= parse_u16 else None.

(** ** Handshakes *)

(** A computation on a stream: what it writes, and its result with the bytes that are
    left to read. *)
Definition talk (A : Type) : Type := bytes -> bytes * res AetherError (A * bytes).
#[export] Instance talk_ret : MRet talk := fun A a input => ([], Ok (a, input)).
#[export] Instance talk_bind : MBind talk := fun A B f m input =>
  match m input with
  | (out, Ok (a, input)) => let '(out', r) := f a input in (out ++ out', r)
  | (out, Err e) => (out, Err e)
  | (out, Panic) => (out, Panic)
  end.
Definition write_all (msg : bytes) : talk unit := fun input => (msg, Ok (tt, input)).
Definition read_exact (n : Z) : talk bytes := fun input => ([], SocksWire.read_exact n input).
Definition fail {A} (e : AetherError) : talk A := fun _ => ([], Err e).
Definition lift {A} (m : res AetherError A) : talk A := fun input => ([], (fun a => (a, input)) <$> m).

Definition socks_authenticate (u : Upstream) : talk unit :=
  let user := default [] (user u) in
  let password := default [] (password u) in
  if (255 <? blen user) || (255 <? blen password) then
    fail (Other (lit "the upstream proxy credentials are longer than socks5 allows"))
  else
    _ ← write_all ([1; wrap_u8 (blen user)] ++ user ++ [wrap_u8 (blen password)] ++ password);
    answer ← read_exact 2;
    a0 ← lift (idx answer 0);
    if negb (a0 =? 1) then
      fail (Other (lit "the upstream proxy answered the password negotiation with the wrong version"))
    else
      a1 ← lift (idx answer 1);
      if negb (a1 =? 0) then fail (Other (lit "the upstream proxy refused the credentials supplied"))
      else mret tt.

Definition socks_greet (u : Upstream) : talk unit :=
  let wants_auth := bool_decide (is_Some (user u)) in
  _ ← write_all (if wants_auth then [VER; 1; AUTH_USERPASS] else [VER; 1; AUTH_NONE]);
  answer ← read_exact 2;
  a0 ← lift (idx answer 0);
  if negb (a0 =? VER) then fail (Other (lit "the upstream proxy did not speak socks5"))
  else
    a1 ← lift (idx answer 1);
    if (a1 =? AUTH_NONE) && wants_auth then
      fail (Other (lit "the upstream proxy skipped authentication even though credentials are configured"))
    else if a1 =? AUTH_NONE then mret tt
    else if a1 =? AUTH_USERPASS then socks_authenticate u
    else if a1 =? AUTH_REJECTED then
      fail (Other (lit "the upstream proxy rejected every authentication method offered"))
    else fail (Other (lit "the upstream proxy asked for authentication method " ++ dec a1 ++ lit ", which aether cannot do")).

Definition read_reply : talk SocketAddr :=
  head ← read_exact 4;
  h0 ← lift (idx head 0);
  if negb (h0 =? VER) then fail (Other (lit "the upstream proxy answered with something other than socks5"))
  else
    h1 ← lift (idx head 1);
    if negb (h1 =? REP_OK) then fail (Other (lit "the upstream proxy refused the request with code " ++ dec h1))
    else
      h3 ← lift (idx head 3);
      ip ← (if h3 =? ATYP_V4 then o ← read_exact 4; mret (V4 (be_combine o))
            else if h3 =? ATYP_V6 then o ← read_exact 16; mret (V6 (be_combine o))
            else if h3 =? ATYP_NAME then
              length ← read_exact 1;
              l ← lift (idx length 0);
              name ← read_exact l;
              mret (default (V4 0) (parse_ip (from_utf8_lossy name)))
            else fail (Other (lit "the upstream proxy sent address type " ++ dec h3 ++ lit ", which aether cannot read")));
      port ← read_exact 2;
      p0 ← lift (idx port 0); p1 ← lift (idx port 1);
      mret (mkSocketAddr ip (u16_be p0 p1)).

(** The head of an answer, a byte at a time; 8193 bytes are read at most. *)
Fixpoint read_head (fuel : nat) (head : bytes) : talk bytes :=
  match fuel with
  | O => fail (Other (lit "the upstream proxy sent an oversized answer"))
  | S fuel => fun input =>
      if 8192 <? blen head then ([], Err (Other (lit "the upstream proxy sent an oversized answer")))
      else match input with
           | [] => ([], Err (Other (lit "the upstream proxy closed before answering the connect")))
           | b :: input =>
               let head := head ++ [b] in
               if ends_with [13; 10; 13; 10] head then ([], Ok (head, input))
               else read_head fuel head input
           end
  end.

Section handshakes.
(** The base64 crate's encoder. *)
Context (base64_encode : bytes -> bytes).

Definition CRLF : bytes := [13; 10].
Definition connect_request (u : Upstream) (authority : bytes) : bytes :=
  lit "CONNECT " ++ authority ++ lit " HTTP/1.1" ++ CRLF ++ lit "Host: " ++ authority ++ CRLF
  ++ lit "Proxy-Connection: Keep-Alive" ++ CRLF
  ++ match user u with
     | Some user =>
         let token := base64_encode (user ++ [58] ++ default [] (password u)) in
         lit "Proxy-Authorization: Basic " ++ token ++ CRLF
     | None => []
     end ++ CRLF.

Definition http_connect (u : Upstream) (authority : bytes) : talk unit :=
  _ ← write_all (connect_request u authority);
  head ← read_head (Z.to_nat 8194) [];
  match http_status head with
  | None => fail (Other (lit "the upstream proxy answer was not http"))
  | Some status =>
      if negb ((200 <=? status) && (status <? 300))
      then fail (Other (lit "the upstream proxy answered " ++ dec status ++ lit " to the connect"))
      else mret tt
  end.

(** The handshake of [open], on the stream to the proxy. *)
Definition open (u : Upstream) (socks_request authority : bytes) : talk unit :=
  match kind u with
  | Socks5 => _ ← socks_greet u; _ ← write_all socks_request; _ ← read_reply; mret tt
  | Http => http_connect u authority
  end.

Definition connect (u : Upstream) (target : SocketAddr) : talk unit :=
  open u (encode_request CMD_CONNECT target) (sa_to_string target).

Definition connect_host (debug : bytes -> bytes) (u : Upstream) (host : bytes) (port : Z) : talk unit :=
  match parse_ip host with
  | Some ip => connect u (mkSocketAddr ip port)
  | None =>
      request ← lift (encode_name_request debug CMD_CONNECT host port);
      open u request (host ++ [58] ++ dec port)
  end.
End handshakes.

Definition only_socks5 : AetherError := Other (lit "only a socks5 proxy can carry udp, an http proxy cannot").
(** [associate] up to the address the proxy bound. *)
Definition associate (u : Upstream) : talk SocketAddr :=
  if negb (bool_decide (kind u = Socks5)) then fail only_socks5
  else
    _ ← socks_greet u;
    _ ← write_all (encode_request CMD_ASSOCIATE (mkSocketAddr (V4 0) 0));
    read_reply.

(** [lookup] is the resolver of the system. *)
Definition relay_address (lookup : bytes -> Z -> AetherError + list SocketAddr) (bound : SocketAddr) (host : bytes) (port : Z)
  : res AetherError SocketAddr :=
  if negb (ip_is_unspecified (sa_ip bound)) && negb (sa_port bound =? 0) then Ok bound
  else
    let relay_port := if sa_port bound =? 0 then port else sa_port bound in
    match parse_ip host with
    | Some ip => Ok (mkSocketAddr ip relay_port)
    | None =>
        match lookup host relay_port with
        | inl e => Err e
        | inr addrs => ok_or (addrs !! 0%nat) (Other (host ++ lit " does not resolve to a usable relay address"))
        end
    end.

(** ** Detours *)

Record Detour := mkDetour { id : Z; shim : SocketAddr; peer : SocketAddr }.
(** The map [DETOURS] and the counter of [next_detour_id]. *)
Record Detours := mkDetours { detours : gmap SocketAddr Detour; next : Z }.

Definition next_detour_id (s : Detours) : Z * Detours := (next s, mkDetours (detours s) (wrap_u64 (next s + 1))).

(** [attach_detour_via] once the relay is open: the guard holds the client and the
    identifier. *)
Definition register_detour (client shim peer : SocketAddr) (s : Detours) : (SocketAddr * Z) * Detours :=
  let '(id, s) := next_detour_id s in
  ((client, id), mkDetours (<[client := mkDetour id shim peer]> (detours s)) (next s)).

(** [attach_detour] and [attach_detour_via]: [associated] tells whether the relay and
    the shim could be opened. *)
Definition attach_detour (proxy : option Upstream) (associated : res AetherError unit) (client shim peer : SocketAddr) (s : Detours)
  : res AetherError (option (SocketAddr * Z)) * Detours :=
  match proxy with
  | None => (Ok None, s)
  | Some _ =>
      if Routing.is_private (sa_ip peer) then (Ok None, s)
      else match associated with
           | Ok _ => let '(guard, s) := register_detour client shim peer s in (Ok (Some guard), s)
           | Err e => (Err e, s)
           | Panic => (Panic, s)
           end
  end.

Definition forget_detour (client : SocketAddr) (id_ : Z) (s : Detours) : Detours :=
  match detours s !! client with
  | Some d => if id d =? id_ then mkDetours (delete client (detours s)) (next s) else s
  | None => s
  end.

Definition relay_target (s : Detours) (local intended : SocketAddr) : SocketAddr :=
  match detours s !! local with Some d => shim d | None => intended end.
Definition real_source (s : Detours) (local observed : SocketAddr) : SocketAddr :=
  match detours s !! local with
  | Some d => if bool_decide (shim d = observed) then peer d else observed
  | None => observed
  end.

Definition from_detoured_socket (client origin : SocketAddr) : bool :=
  (sa_port origin =? sa_port client)
  && (bool_decide (sa_ip origin = sa_ip client)
      || (ip_is_unspecified (sa_ip client) && ip_is_loopback (sa_ip origin))).

(** [UdpRelay::recv_from] into a buffer of [out] bytes: the payload, which is cut to
    it; the buffer for the datagram is that long and at least 2048, plus 512. *)
Definition relay_recv (out : Z) (datagram : bytes) : res unit bytes :=
  let framed := sub datagram 0 (Z.min (blen datagram) (Z.max out 2048 + 512)) in
  '(origin, offset) ← decode_udp_header framed;
  payload ← slice framed offset (blen framed);
  let copied := Z.min (blen payload) out in
  slice payload 0 copied.

(** The pump between the shim and the relay. *)
Inductive PumpEvent := FromShim (data : bytes) (origin : SocketAddr) | FromRelay (datagram : bytes).
Inductive PumpOutput := ToRelay (datagram : bytes) | ToShim (data : bytes) (to : SocketAddr).
Definition pump_step (client peer : SocketAddr) (reply_to : option SocketAddr) (e : PumpEvent)
  : res unit (option SocketAddr * list PumpOutput) :=
  match e with
  | FromShim data origin =>
      let data := sub data 0 (Z.min (blen data) 65535) in
      if negb (from_detoured_socket client origin) then Ok (reply_to, [])
      else Ok (Some origin, [ToRelay (encode_udp_header peer ++ data)])
  | FromRelay datagram =>
      r ← catch (relay_recv 65535 datagram);
      match r, reply_to with
      | Some payload, Some to => Ok (reply_to, [ToShim payload to])
      | _, _ => Ok (reply_to, [])
      end
  end.
Fixpoint pump (client peer : SocketAddr) (reply_to : option SocketAddr) (events : list PumpEvent) : res unit (list PumpOutput) :=
  match events with
  | [] => Ok []
  | e :: events =>
      '(reply_to, out) ← pump_step client peer reply_to e;
      rest ← pump client peer reply_to events;
      Ok (out ++ rest)
  end.

(** ** The setting and its URLs *)

Lemma hex_upper_byte b : is_byte b ->
  from_utf8 [hex_upper (b / 16); hex_upper (b mod 16)] = Some [hex_upper (b / 16); hex_upper (b mod 16)]
  /\ parse_hex U8_MAX [hex_upper (b / 16); hex_upper (b mod 16)] = Some b.
Proof.
  intros Hb.
  assert (forallb (fun b => bool_decide (from_utf8 [hex_upper (b / 16); hex_upper (b mod 16)] = Some [hex_upper (b / 16); hex_upper (b mod 16)]
    /\ parse_hex U8_MAX [hex_upper (b / 16); hex_upper (b mod 16)] = Some b)) (seqZ 0 256) = true) as Hall by (vm_compute; reflexivity).
  rewrite forallb_forall in Hall. specialize (Hall b). rewrite bool_decide_eq_true in Hall. apply Hall, list_elem_of_In, elem_of_seqZ.
  unfold is_byte in Hb. lia.
Qed.

Lemma percent_loop full s : forall pre out fuel,
  all_bytes s -> full = pre ++ percent_encode s -> (length s < fuel)%nat ->
  loop fuel (percent_step full) (out, blen pre) = Some (Ok (out ++ s)).
Proof.
  induction s as [|b s IH]; intros pre out fuel Hb Hf Hl; (destruct fuel as [|fuel]; [cbn in Hl; lia|]).
  { apply loop_exit. cbn [percent_step]. rewrite Hf. change (percent_encode []) with (@nil Z).
    by rewrite !app_nil_r, Z.ltb_irrefl. }
  apply Forall_cons in Hb as [Hb Hs]. cbn [length] in Hl. pose proof (blen_nonneg pre). pose proof (blen_nonneg (percent_encode s)).
  unfold percent_encode in Hf. cbn [map concat] in Hf. fold (percent_encode s) in Hf.
  destruct (unreserved b) eqn:Hu.
  - rewrite (loop_step _ _ _ (out ++ [b], blen (pre ++ [b]))).
    + rewrite (IH (pre ++ [b])); [by rewrite <- app_assoc|done|rewrite Hf; solve_app|lia].
    + cbn [percent_step]. assert (blen full = blen pre + 1 + blen (percent_encode s)) as Hlen by (rewrite Hf; blia).
      rewrite (proj2 (Z.ltb_lt _ _)) by lia. rewrite (idx_at full pre (percent_encode s) (blen pre) b) by (done || (rewrite Hf; solve_app)). rsimp.
      assert (b =? 37 = false) as ->.
      { apply Z.eqb_neq. intros ->. done. }
      cbn [andb mbind res_bind step_of]. do 2 f_equal. blia.
  - destruct (hex_upper_byte b Hb) as [H8 Hhex]. set (h := [hex_upper (b / 16); hex_upper (b mod 16)]) in *.
    rewrite (loop_step _ _ _ (out ++ [b], blen (pre ++ [37] ++ h))).
    + rewrite (IH (pre ++ [37] ++ h)); [by rewrite <- app_assoc|done|rewrite Hf; unfold h; solve_app|lia].
    + cbn [percent_step]. assert (blen full = blen pre + 3 + blen (percent_encode s)) as Hlen by (rewrite Hf; unfold h; blia).
      rewrite (proj2 (Z.ltb_lt _ _)) by lia. rewrite (idx_at full pre (h ++ percent_encode s) (blen pre) 37) by (done || (rewrite Hf; unfold h; solve_app)). rsimp.
      rewrite (proj2 (Z.ltb_lt _ _)) by lia. cbn [Z.eqb Pos.eqb andb]. rewrite slice_ok by lia. rsimp.
      rewrite (sub_at full (pre ++ [37]) h (percent_encode s)) by (blia || (unfold h; blia) || (rewrite Hf; unfold h; solve_app)).
      rewrite H8. change (default [] (Some h)) with h. rewrite Hhex. cbn [step_of]. unfold h. do 2 f_equal. blia.
Qed.

Lemma length_percent_encode s : (length s <= length (percent_encode s))%nat.
Proof.
  unfold percent_encode. induction s as [|b s IH]; [done|]. cbn [map concat length]. rewrite length_app. destruct (unreserved b); cbn; lia.
Qed.

Lemma percent_roundtrip s : all_bytes s -> utf8_valid s = true -> percent_decode (percent_encode s) = Ok s.
Proof.
  intros Hb Hv. unfold percent_decode. rewrite (percent_loop _ s [] []); [|done|done|pose proof (length_percent_encode s); lia].
  change (Ok (from_utf8_lossy s) = @Ok unit bytes s). by rewrite lossy_valid.
Qed.

(** The characters of a percent-encoded text. *)
Definition percent_char (b : Z) : bool := unreserved b || (b =? 37).
Lemma percent_encode_chars s : all_bytes s -> forallb percent_char (percent_encode s) = true.
Proof.
  unfold percent_encode. induction 1 as [|b s Hb _ IH]; [done|]. cbn [map concat]. rewrite forallb_app, IH, andb_true_r.
  destruct (unreserved b) eqn:Hu; [cbn; unfold percent_char; by rewrite Hu|].
  assert (forall d, 0 <= d < 16 -> percent_char (hex_upper d) = true) as Hh.
  { intros d Hd. unfold percent_char, unreserved, is_ascii_alphanumeric, is_ascii_digit, is_ascii_upper, is_ascii_lower, hex_upper.
    destruct (Z.ltb_spec d 10).
    - rewrite (proj2 (Z.leb_le 48 _)), (proj2 (Z.leb_le _ 57)) by lia. done.
    - rewrite (proj2 (Z.leb_le 65 _)), (proj2 (Z.leb_le _ 90)) by lia. cbn. by rewrite !orb_true_r. }
  unfold is_byte in Hb. cbn [forallb]. rewrite !Hh; [done|apply Z.mod_pos_bound; lia|]. split; [apply Z.div_pos; lia|]. apply Z.div_lt_upper_bound; lia.
Qed.

(** The characters a host may hold: none that separates the parts of a URL. *)
Definition host_char (b : Z) : bool := plain b && negb (b =? 64) && negb (b =? 91) && negb (b =? 93) && negb (b =? 47).
Definition upstream_wf (u : Upstream) : Prop :=
  host u <> [] /\ forallb host_char (host u) = true /\ 0 < port u <= U16_MAX
  /\ (user u = None -> password u = None)
  /\ match user u with Some s => all_bytes s /\ utf8_valid s = true | None => True end
  /\ match password u with Some s => all_bytes s /\ utf8_valid s = true | None => True end.

Lemma split_endpoint_authority u : upstream_wf u -> split_endpoint (url_authority u ++ [58] ++ dec (port u)) = Ok (host u, port u).
Proof.
  intros (Hne & Hc & Hp & _). unfold split_endpoint, url_authority.
  assert (parse_u16 (dec (port u)) = Some (port u)) as Hport by (apply parse_uint_dec; unfold U16_MAX, U64_MAX in *; lia).
  assert (no_char 58 (dec (port u)) = true) as Hd by (apply (forallb_no_char is_ascii_digit); [done|apply dec_all; lia]).
  assert (contains_char 58 (host u) = false -> no_char 58 (host u) = true) as Hcc.
  { unfold contains_char, no_char. clear. induction (host u) as [|b s IH]; [done|]. cbn [existsb forallb].
    intros [Hb Hs]%orb_false_iff. rewrite Z.eqb_sym, Hb. by apply IH. }
  destruct (contains_char 58 (host u)) eqn:Hcol.
  - rewrite <- !app_assoc, strip_prefix_char.
    rewrite split_once_app by (by apply (forallb_no_char host_char)). rsimp.
    rewrite strip_prefix_char. rsimp. rewrite Hport. rsimp.
    by rewrite bool_decide_eq_false_2, (proj2 (Z.eqb_neq _ _)) by (done || lia).
  - assert (strip_prefix [91] (host u ++ [58] ++ dec (port u)) = None) as ->.
    { destruct (host u) as [|b s]; [done|]. cbn [forallb] in Hc. apply andb_prop in Hc as [Hb _].
      apply strip_prefix_other. by intros ->. }
    rewrite rsplit_once_app by done. rsimp. rewrite Hport. rsimp.
    by rewrite bool_decide_eq_false_2, (proj2 (Z.eqb_neq _ _)) by (done || lia).
Qed.

Section url_theorems.
Context `{UnicodeCase}.

(** The parts of a URL that ends with a port. *)
Lemma parse_scheme scheme k rest p :
  (scheme, k) ∈ [(lit "socks5", Socks5); (lit "socks5h", Socks5); (lit "http", Http)] -> 0 <= p ->
  parse (scheme ++ lit "://" ++ rest ++ dec p)
  = let '(credentials, endpoint) :=
      match rsplit_once 64 (rest ++ dec p) with Some (c, e) => (Some c, e) | None => (None, rest ++ dec p) end in
    '(host, port) ← split_endpoint (trim_end_matches 47 endpoint);
    '(user, password) ←
      match credentials with
      | Some both =>
          match split_once 58 both with
          | Some (user, password) =>
              user ← infallible (percent_decode user);
              password ← infallible (percent_decode password);
              Ok (Some user, Some password)
          | None => user ← infallible (percent_decode both); Ok (Some user, None)
          end
      | None => Ok (None, None)
      end;
    Ok (mkUpstream k host port user password).
Proof.
  intros Hs Hp. unfold parse.
  assert (trim (scheme ++ lit "://" ++ rest ++ dec p) = scheme ++ lit "://" ++ rest ++ dec p) as ->.
  { pose proof (dec_all p Hp) as Hd. assert (forallb plain (dec p) = true) as Hpl.
    { revert Hd. apply forallb_impl. intros x Hx. apply addr_char_plain. unfold addr_char, ip_char. by rewrite Hx. }
    rewrite !app_assoc. apply trim_ends; [|done|by apply dec_not_nil].
    rewrite !elem_of_cons in Hs. by destruct Hs as [[= -> ->]|[[= -> ->]|[[= -> ->]|[]%elem_of_nil]]]. }
  assert (split_once_str (lit "://") (scheme ++ lit "://" ++ rest ++ dec p) = Some (scheme, rest ++ dec p) /\ to_lowercase scheme = scheme) as [-> ->].
  { rewrite !elem_of_cons in Hs. destruct Hs as [[= -> ->]|[[= -> ->]|[[= -> ->]|[]%elem_of_nil]]];
      (split; [by apply split_once_str_app|by rewrite to_lowercase_ascii]). }
  rewrite !elem_of_cons in Hs. destruct Hs as [[= -> ->]|[[= -> ->]|[[= -> ->]|[]%elem_of_nil]]];
    cbn [mbind res_bind]; by destruct (rsplit_once 64 (rest ++ dec p)) as [[c e]|].
Qed.

Lemma authority_no_at u : upstream_wf u -> no_char 64 (url_authority u ++ [58] ++ dec (port u)) = true.
Proof.
  intros (_ & Hc & Hp & _). unfold url_authority. rewrite !no_char_app.
  rewrite (forallb_no_char is_ascii_digit 64 (dec (port u))) by (done || (apply dec_all; lia)).
  destruct (contains_char 58 (host u)); rewrite ?no_char_app, (forallb_no_char host_char 64 (host u)) by done; done.
Qed.

Lemma authority_no_slash u : upstream_wf u ->
  trim_end_matches 47 (url_authority u ++ [58] ++ dec (port u)) = url_authority u ++ [58] ++ dec (port u).
Proof.
  intros (_ & _ & Hp & _). apply trim_end_matches_id. intros t E.
  pose proof (dec_all (port u) ltac:(lia)) as Hd. destruct (exists_last (dec_not_nil (port u) ltac:(lia))) as (d & c & Hdc).
  rewrite Hdc, forallb_app in Hd. apply andb_prop in Hd as [_ Hd]. rewrite Hdc in E.
  assert (c = 47) as -> by (rewrite !app_assoc in E; by apply app_inj_tail in E as [_ ?]). done.
Qed.

(** The address given to another program names the same proxy: what [psiphon_url]
    writes, credentials included, is parsed back as the proxy, and so is [url] for a
    proxy without credentials. *)
Theorem upstream_url_roundtrip u :
  upstream_wf u -> parse (psiphon_url u) = Ok u /\ (user u = None -> parse (url u) = Ok u).
Proof.
  intros Hu. pose proof Hu as (Hne & Hc & Hp & Hpw & Huser & Hpass).
  pose proof (authority_no_at u Hu) as Hat. pose proof (authority_no_slash u Hu) as Hsl. pose proof (split_endpoint_authority u Hu) as Hse.
  assert (forall scheme, (scheme, kind u) ∈ [(lit "socks5", Socks5); (lit "socks5h", Socks5); (lit "http", Http)] -> user u = None ->
    parse (scheme ++ lit "://" ++ url_authority u ++ [58] ++ dec (port u)) = Ok u) as Hplain.
  { intros scheme Hs Hn. rewrite (app_assoc (url_authority u)), (parse_scheme scheme (kind u)) by (done || lia). rewrite <- app_assoc.
    rewrite rsplit_once_none, Hsl, Hse by done. cbn [mbind res_bind]. f_equal. destruct u; cbn in *. by rewrite Hn, Hpw. }
  split; [|intros Hn; unfold url; apply Hplain; [by destruct (kind u); set_solver|done]].
  unfold psiphon_url. assert (exists scheme, match kind u with Socks5 => lit "socks5" | Http => lit "http" end = scheme
    /\ (scheme, kind u) ∈ [(lit "socks5", Socks5); (lit "socks5h", Socks5); (lit "http", Http)]) as (scheme & -> & Hs).
  { destruct (kind u); eexists; (split; [reflexivity|set_solver]). }
  assert (forall s, all_bytes s -> no_char 58 (percent_encode s) = true) as Hn58.
  { intros s Hb. by apply (forallb_no_char percent_char), percent_encode_chars. }
  destruct (user u) as [name|] eqn:Hname; [|cbn [app]; apply Hplain; done]. destruct Huser as [Hnb Hnv].
  assert (forall creds, parse (scheme ++ lit "://" ++ (creds ++ [64]) ++ url_authority u ++ [58] ++ dec (port u))
    = ('(user, password) ←
      match split_once 58 creds with
      | Some (user, password) =>
          user ← infallible (percent_decode user);
          password ← infallible (percent_decode password);
          Ok (Some user, Some password)
      | None => user ← infallible (percent_decode creds); Ok (Some user, None)
      end;
      Ok (mkUpstream (kind u) (host u) (port u) user password))) as Hcred.
  { intros creds. rewrite (app_assoc (url_authority u)), (app_assoc (creds ++ [64])), (parse_scheme scheme (kind u)) by (done || lia).
    rewrite <- !app_assoc, rsplit_once_app, Hsl, Hse by done. done. }
  destruct (password u) as [word|] eqn:Hword.
  - destruct Hpass as [Hwb Hwv].
    replace (percent_encode name ++ [58] ++ percent_encode word ++ [64]) with ((percent_encode name ++ [58] ++ percent_encode word) ++ [64]) by solve_app.
    rewrite Hcred, split_once_app, !percent_roundtrip by auto. cbn. destruct u; cbn in *. by rewrite Hname, Hword.
  - rewrite Hcred, split_once_none, percent_roundtrip by auto. cbn. destruct u; cbn in *. by rewrite Hname, Hword.
Qed.

(** ** The setting at work *)

(** What is remembered of a setting is what it names. *)
Definition seen_ok (seen : option (bytes * option Upstream)) : Prop :=
  match seen with Some (raw, u) => u = from_value raw | None => True end.

Lemma remembered_spec seen raw : seen_ok seen -> (remembered seen raw).2 = from_value raw /\ seen_ok (remembered seen raw).1.
Proof.
  unfold remembered. destruct seen as [[last u]|]; cbn; [|done]. intros ->. by case_bool_decide; subst.
Qed.

Lemma parse_trim raw : parse (trim raw) = parse raw.
Proof. unfold parse. by rewrite trim_idem. Qed.

(** A setting that names a proxy and lets aether start is the proxy of every connection
    from then on, whatever was remembered of earlier settings: no connection goes around
    it; a blank setting names none. *)
Theorem checked_setting_is_used env seen :
  seen_ok seen -> usable (default [] (env (lit "AETHER_UPSTREAM"))) = Ok tt ->
  (trim (default [] (env (lit "AETHER_UPSTREAM"))) = [] /\ (configured None env seen).2 = None)
  \/ exists u, parse (default [] (env (lit "AETHER_UPSTREAM"))) = Ok u /\ (configured None env seen).2 = Some u.
Proof.
  set (raw := default [] (env (lit "AETHER_UPSTREAM"))). intros Hseen. unfold configured, usable. fold raw.
  destruct (remembered_spec seen raw Hseen) as [-> _]. unfold from_value. rewrite parse_trim.
  case_bool_decide as Hb; [by left|]. destruct (parse raw) as [u|e|]; [|done..]. intros _. right. by exists u.
Qed.
End url_theorems.

(** ** The handshake with a SOCKS5 server *)

Lemma talk_write {B} msg (f : unit -> talk B) input :
  (write_all msg ≫= f) input = let '(out, r) := f tt input in (msg ++ out, r).
Proof. done. Qed.
Lemma talk_read {B} l rest n (f : bytes -> talk B) : blen l = n -> (read_exact n ≫= f) (l ++ rest) = f l rest.
Proof.
  intros Hl. unfold read_exact, mbind, talk_bind. rewrite SocksWire.read_exact_app by done. by destruct (f l rest).
Qed.
Lemma talk_lift {A B} (a : A) (f : A -> talk B) input : (lift (Ok a) ≫= f) input = f a input.
Proof. unfold lift, mbind, talk_bind. cbn. by destruct (f a input). Qed.
Lemma talk_bind_assoc {A B C} (m : talk A) (f : A -> talk B) (g : B -> talk C) input :
  ((m ≫= f) ≫= g) input = (m ≫= (fun a => f a ≫= g)) input.
Proof.
  unfold mbind, talk_bind. destruct (m input) as [out [[a rest]|e|]]; [|done..]. destruct (f a rest) as [out' [[b rest']|e|]]; [|done..].
  destruct (g b rest'). by rewrite app_assoc.
Qed.
Lemma talk_mret {A B} (a : A) (f : A -> talk B) input : (mret a ≫= f) input = f a input.
Proof. unfold mret, talk_ret, mbind, talk_bind. by destruct (f a input). Qed.

Lemma socks_greet_none {B} u (f : unit -> talk B) rest : user u = None ->
  (socks_greet u ≫= f) ([VER; 0] ++ rest) = let '(out, r) := f tt rest in ([VER; 1; AUTH_NONE] ++ out, r).
Proof.
  intros Hu. unfold socks_greet. rewrite Hu. change (bool_decide (is_Some None)) with false. cbn iota.
  rewrite talk_bind_assoc, talk_write, talk_bind_assoc, talk_read by done.
  change (idx [VER; 0] 0) with (@Ok AetherError Z VER). change (idx [VER; 0] 1) with (@Ok AetherError Z 0).
  rewrite talk_bind_assoc, talk_lift. change (negb (VER =? VER)) with false. cbn iota.
  rewrite talk_bind_assoc, talk_lift. change ((0 =? AUTH_NONE) && false) with false. change (0 =? AUTH_NONE) with true. cbn iota.
  by rewrite talk_mret.
Qed.

Lemma read_reply_bound {B} (f : SocketAddr -> talk B) bound rest : sa_wf bound ->
  (read_reply ≫= f) (SocksWire.reply_bound bound ++ rest) = f bound rest.
Proof.
  intros [Hip Hport]. destruct bound as [ip port]. cbn [sa_ip sa_port] in *. unfold SocksWire.reply_bound. cbn [sa_ip sa_port].
  pose proof (SocksWire.octets_combine ip Hip) as Hc.
  assert (exists t, [SocksWire.VER; SocksWire.REP_OK; 0] ++ match ip with V4 a => [SocksWire.ATYP_V4] ++ octets (V4 a) | V6 a => [SocksWire.ATYP_V6] ++ octets (V6 a) end
    = [VER; REP_OK; 0; t] ++ octets ip /\ t = match ip with V4 _ => ATYP_V4 | V6 _ => ATYP_V6 end) as (t & E & Ht) by (destruct ip; eauto).
  rewrite (app_assoc [SocksWire.VER; _; _]), E. clear E. rewrite <- !app_assoc. unfold read_reply. rewrite talk_bind_assoc, talk_read by done.
  change (idx [VER; REP_OK; 0; t] 0) with (@Ok AetherError Z VER). change (idx [VER; REP_OK; 0; t] 1) with (@Ok AetherError Z REP_OK).
  change (idx [VER; REP_OK; 0; t] 3) with (@Ok AetherError Z t).
  rewrite talk_bind_assoc, talk_lift. change (negb (VER =? VER)) with false. cbn iota.
  rewrite talk_bind_assoc, talk_lift. change (negb (REP_OK =? REP_OK)) with false. cbn iota.
  rewrite talk_bind_assoc, talk_lift, talk_bind_assoc.
  assert (forall (g : IpAddr -> talk B) r,
    ((if t =? ATYP_V4 then o ← read_exact 4; mret (V4 (be_combine o))
      else if t =? ATYP_V6 then o ← read_exact 16; mret (V6 (be_combine o))
      else if t =? ATYP_NAME then
        length ← read_exact 1; l ← lift (idx length 0); name ← read_exact l;
        mret (default (V4 0) (parse_ip (from_utf8_lossy name)))
      else fail (Other (lit "the upstream proxy sent address type " ++ dec t ++ lit ", which aether cannot read"))) ≫= g)
      (octets ip ++ r) = g ip r) as Haddr.
  { intros g r. subst t. destruct ip as [a|a].
    - change (ATYP_V4 =? ATYP_V4) with true. cbn iota. rewrite talk_bind_assoc, talk_read by (apply blen_be_bytes). rewrite talk_mret. by rewrite Hc.
    - change (ATYP_V6 =? ATYP_V4) with false. change (ATYP_V6 =? ATYP_V6) with true. cbn iota.
      rewrite talk_bind_assoc, talk_read by (apply blen_be_bytes). rewrite talk_mret. by rewrite Hc. }
  rewrite Haddr. clear Haddr. rewrite talk_bind_assoc, talk_read by apply blen_be16_bytes. rewrite be16_bytes_spec.
  change (idx [?a; ?b] 0) with (@Ok AetherError Z a). change (idx [?a; ?b] 1) with (@Ok AetherError Z b).
  rewrite talk_bind_assoc, talk_lift, talk_bind_assoc, talk_lift, talk_mret. by rewrite u16_be_roundtrip.
Qed.

Lemma encode_request_target cmd target :
  encode_request cmd target
  = [SocksWire.VER; cmd; 0; SocksWire.target_type (SocksWire.TIp (sa_ip target))]
    ++ SocksWire.target_body (SocksWire.TIp (sa_ip target)) ++ be16_bytes (sa_port target).
Proof. unfold encode_request, encode_address. by destruct (sa_ip target). Qed.

Definition skipped_authentication : AetherError :=
  Other (lit "the upstream proxy skipped authentication even though credentials are configured").

Lemma socks_greet_skipped {B} u (f : unit -> talk B) rest : user u <> None ->
  (socks_greet u ≫= f) ([VER; 0] ++ rest) = ([VER; 1; AUTH_USERPASS], Err skipped_authentication).
Proof.
  intros Hu. unfold socks_greet. destruct (user u) as [name|]; [|done]. change (bool_decide (is_Some (Some name))) with true. cbn iota.
  rewrite talk_bind_assoc, talk_write, talk_bind_assoc, talk_read by done.
  change (idx [VER; 0] 0) with (@Ok AetherError Z VER). change (idx [VER; 0] 1) with (@Ok AetherError Z 0).
  rewrite talk_bind_assoc, talk_lift. change (negb (VER =? VER)) with false. cbn iota.
  rewrite talk_bind_assoc, talk_lift. by change ((0 =? AUTH_NONE) && true) with true.
Qed.

(** C31.  The client of this module and the server of [socks.rs] understand each other: for
    the answer [VER; 0] and a reply with a bound address, a client without credentials is
    connected (or learns the address), no byte behind the reply is taken, and what it wrote is
    read by the server as the command, the address or the name, and the port.  A client with
    credentials is not connected: the server takes its greeting and asks for no password, the
    client ends with its error and has written nothing but the greeting. *)
Theorem socks_client_meets_server base64_encode debug u target name port bound data later :
  kind u = Socks5 -> sa_wf target -> sa_wf bound -> 0 <= port <= U16_MAX ->
  1 <= blen name <= 255 -> str_is_ascii name = true -> parse_ip name = None ->
  let answers := [VER; 0] ++ SocksWire.reply_bound bound ++ data in
  match user u with
  | Some _ =>
  let greeting := [VER; 1; AUTH_USERPASS] in
  SocksWire.handshake (greeting ++ later) = Ok ([VER; 0], later)
  /\ connect base64_encode u target answers = (greeting, Err skipped_authentication)
  /\ connect_host base64_encode debug u name port answers = (greeting, Err skipped_authentication)
  /\ associate u answers = (greeting, Err skipped_authentication)
  | None =>
  (exists sent, connect base64_encode u target answers = (sent, Ok (tt, data))
     /\ SocksWire.read_request (sent ++ later) = Ok ((CMD_CONNECT, SocksWire.TIp (sa_ip target), sa_port target), [VER; 0], later))
  /\ (exists sent, connect_host base64_encode debug u name port answers = (sent, Ok (tt, data))
     /\ SocksWire.read_request (sent ++ later) = Ok ((CMD_CONNECT, SocksWire.TDomain name, port), [VER; 0], later))
  /\ (exists sent, associate u answers = (sent, Ok (bound, data))
     /\ SocksWire.read_request (sent ++ later) = Ok ((CMD_ASSOCIATE, SocksWire.TIp (V4 0), 0), [VER; 0], later))
  end.
Proof.
  intros Hk [Hti Htp] Hb Hp Hn Ha Hnone answers. destruct (user u) as [who|] eqn:Hu.
  { assert (forall B (f : unit -> talk B), (socks_greet u ≫= f) answers = ([VER; 1; AUTH_USERPASS], Err skipped_authentication)) as Hskip.
    { intros B f. apply socks_greet_skipped. by rewrite Hu. }
    unfold connect, connect_host, associate, open, encode_name_request. rewrite Hk, Hnone, bool_decide_eq_true_2 by done.
    rewrite (proj2 (Z.leb_le _ _)), (proj2 (Z.ltb_lt _ _)) by (unfold U8_MAX; lia). cbn [andb negb]. rewrite talk_lift, !Hskip.
    split; [|done]. unfold SocksWire.handshake. change ([VER; 1; AUTH_USERPASS] ++ later) with ([VER; 1] ++ [AUTH_USERPASS] ++ later).
    rewrite SocksWire.read_exact_app by done. rsimp. change (idx [VER; 1] 0) with (@Ok AetherError Z VER).
    change (idx [VER; 1] 1) with (@Ok AetherError Z 1). rsimp. change (negb (VER =? SocksWire.VER)) with false. cbn iota.
    by rewrite SocksWire.read_exact_app. }
  assert (forall request authority, open base64_encode u request authority answers = ([VER; 1; AUTH_NONE] ++ request, Ok (tt, data))) as Hopen.
  { intros request authority. unfold open. rewrite Hk. unfold answers. rewrite socks_greet_none by done. rewrite talk_write.
    rewrite read_reply_bound by done. unfold mret, talk_ret. by rewrite app_nil_r. }
  split; [|split].
  - eexists. split; [apply Hopen|]. rewrite encode_request_target, <- !app_assoc.
    by apply (SocksWire.read_request_of [AUTH_NONE] CMD_CONNECT 0 (SocksWire.TIp (sa_ip target))).
  - unfold connect_host. rewrite Hnone. unfold encode_name_request.
    rewrite (proj2 (Z.leb_le _ _)), (proj2 (Z.ltb_lt _ _)) by (unfold U8_MAX; lia). cbn [andb]. rewrite talk_lift.
    eexists. split; [apply Hopen|]. rewrite <- !app_assoc.
    pose proof (SocksWire.read_request_of [AUTH_NONE] CMD_CONNECT 0 (SocksWire.TDomain name) port later) as Hr.
    unfold SocksWire.target_body, SocksWire.target_wf in Hr. rewrite <- !app_assoc in Hr. apply Hr; [split; [lia|done]|done].
  - unfold associate. rewrite Hk. rewrite bool_decide_eq_true_2 by done. cbn [negb]. unfold answers. rewrite socks_greet_none by done.
    rewrite talk_write. pose proof (read_reply_bound (fun b => mret b) bound data Hb) as Hr.
    assert (read_reply (SocksWire.reply_bound bound ++ data) = ([], Ok (bound, data))) as ->.
    { unfold mbind, talk_bind, mret, talk_ret in Hr. destruct (read_reply (SocksWire.reply_bound bound ++ data)) as [out [[b rest]|e|]]; [|done..].
      injection Hr as Ho -> ->. by rewrite app_nil_r in Ho; subst. }
    eexists. split; [reflexivity|]. rewrite app_nil_r, encode_request_target, <- !app_assoc.
    apply (SocksWire.read_request_of [AUTH_NONE] CMD_ASSOCIATE 0 (SocksWire.TIp (V4 0)) 0); [done|unfold U16_MAX; lia].
Qed.

(** ** The UDP relay *)

Lemma encode_udp_header_target target payload :
  encode_udp_header target ++ payload = SocksWire.enc_udp_request (SocksWire.TIp (sa_ip target)) (sa_port target) payload.
Proof. unfold encode_udp_header, encode_address, SocksWire.enc_udp_request. destruct (sa_ip target); solve_app. Qed.

Lemma decode_udp_header_enc src data : sa_wf src ->
  let buf := SocksWire.enc_udp_request (SocksWire.TIp (sa_ip src)) (sa_port src) data in
  exists off, decode_udp_header buf = Ok (src, off) /\ 0 <= off <= blen buf /\ sub buf off (blen buf) = data.
Proof.
  intros [Hip Hport] buf. destruct src as [ip port]. cbn [sa_ip sa_port] in *.
  pose proof (SocksWire.octets_combine ip Hip) as Hc. unfold decode_udp_header. pose proof (blen_nonneg data).
  assert (forall (l : bytes) i b, bget l i = Some b -> @idx unit Z l i = Ok b) as Hidx by (intros l i b E; unfold idx; by rewrite E).
  destruct ip as [a|a]; cbn [octets] in Hc.
  - destruct (SocksWire.be_bytes_4 a) as (x & y & z & w & Hb). rewrite Hb in Hc.
    assert (buf = [0; 0; 0; ATYP_V4; x; y; z; w; (port / 256) mod 256; port mod 256] ++ data) as Hbuf.
    { unfold buf, SocksWire.enc_udp_request. cbn [SocksWire.target_type SocksWire.target_body octets]. by rewrite Hb, be16_bytes_spec. }
    assert (blen buf = 10 + blen data) as Hl by (rewrite Hbuf; blia). clearbody buf.
    rewrite !(proj2 (Z.ltb_ge (blen buf) _)) by lia.
    rewrite (Hidx buf 2 0), (Hidx buf 3 ATYP_V4), (Hidx buf 4 x), (Hidx buf 5 y), (Hidx buf 6 z), (Hidx buf 7 w),
      (Hidx buf 8 ((port / 256) mod 256)), (Hidx buf 9 (port mod 256)) by (by rewrite Hbuf).
    rsimp. change (negb (0 =? 0)) with false. change (ATYP_V4 =? ATYP_V4) with true. cbn iota. rsimp.
    eexists. split; [unfold v4_new; by rewrite Hc, u16_be_roundtrip|]. split; [lia|].
    apply (sub_at _ [0; 0; 0; ATYP_V4; x; y; z; w; (port / 256) mod 256; port mod 256] data []); [by rewrite app_nil_r|done|blia].
  - assert (buf = ([0; 0; 0; ATYP_V6] ++ be_bytes 16 a) ++ be16_bytes port ++ data) as Hbuf.
    { unfold buf, SocksWire.enc_udp_request. cbn [SocksWire.target_type SocksWire.target_body octets]. solve_app. }
    assert (blen buf = 22 + blen data) as Hl by (rewrite Hbuf; blia). clearbody buf.
    rewrite !(proj2 (Z.ltb_ge (blen buf) _)) by lia.
    rewrite (Hidx buf 2 0), (Hidx buf 3 ATYP_V6) by (by rewrite Hbuf).
    rsimp. change (negb (0 =? 0)) with false. change (ATYP_V6 =? ATYP_V4) with false. change (ATYP_V6 =? ATYP_V6) with true. cbn iota.
    rewrite slice_ok by lia. rsimp. rewrite (sub_at buf [0; 0; 0; ATYP_V6] (be_bytes 16 a) (be16_bytes port ++ data))
      by (done || (rewrite Hbuf; solve_app)).
    destruct (@idx_be16 unit buf ([0; 0; 0; ATYP_V6] ++ be_bytes 16 a) port data 20) as [-> H21]; [done|done|].
    change (20 + 1) with 21 in H21. rewrite H21. rsimp.
    eexists. split; [by rewrite Hc, u16_be_roundtrip|]. split; [lia|].
    apply (sub_at _ (([0; 0; 0; ATYP_V6] ++ be_bytes 16 a) ++ be16_bytes port) data []); [rewrite Hbuf, app_nil_r; solve_app|done|blia].
Qed.

(** What is sent through the relay is read by the server of [socks.rs] as a datagram
    for the target; what that server sends back is taken apart into its source and its
    data. *)
Theorem udp_relay_meets_server target src payload data :
  sa_wf target -> sa_wf src -> blen data <= 65535 ->
  SocksWire.parse_udp_request (encode_udp_header target ++ payload) = Ok (SocksWire.TIp (sa_ip target), (sa_port target, payload))
  /\ (exists off, decode_udp_header (SocksWire.build_udp_reply src data) = Ok (src, off))
  /\ relay_recv 65535 (SocksWire.build_udp_reply src data) = Ok data.
Proof.
  intros [Hti Htp] Hs Hd. split; [|split].
  - rewrite encode_udp_header_target. by apply SocksWire.parse_udp_request_of.
  - rewrite SocksWire.build_udp_reply_enc. destruct (decode_udp_header_enc src data Hs) as (off & Ho & _). eauto.
  - rewrite SocksWire.build_udp_reply_enc. destruct (decode_udp_header_enc src data Hs) as (off & Ho & Hr & Hsub).
    unfold relay_recv. set (buf := SocksWire.enc_udp_request _ _ _) in *.
    assert (blen buf <= 66047) as Hb.
    { unfold buf, SocksWire.enc_udp_request. destruct (sa_ip src); cbn [SocksWire.target_type SocksWire.target_body octets]; blia. }
    rewrite Z.min_l by (change (Z.max 65535 2048 + 512) with 66047; lia). rewrite sub_all, Ho. rsimp. rewrite slice_ok by lia. rsimp.
    rewrite Hsub. rewrite Z.min_l by lia. rewrite slice_ok by blia. by rewrite sub_all.
Qed.

Lemma decode_udp_header_total buf : all_bytes buf ->
  match decode_udp_header buf with Ok (_, off) => 0 <= off <= blen buf | Err _ => True | Panic => False end.
Proof.
  intros Hb. unfold decode_udp_header. zcase; [done|]. read buf 2 as b2 H2. zcase; [done|]. read buf 3 as b3 H3.
  zcase.
  { zcase; [done|]. read buf 4 as c4 H4. read buf 5 as c5 H5. read buf 6 as c6 H6. read buf 7 as c7 H7. read buf 8 as c8 H8. read buf 9 as c9 H9. cbn. lia. }
  zcase.
  { zcase; [done|]. rewrite slice_ok by lia. rsimp. read buf 20 as c8 H8. read buf 21 as c9 H9. cbn. lia. }
  zcase; [|done]. unfold get_o. destruct (bget buf 4) as [len|] eqn:Hlen; [|done]. rsimp.
  pose proof (all_bytes_bget _ _ _ Hb Hlen) as Hlb. unfold is_byte in Hlb. zcase; [done|].
  read buf (5 + len) as c8 H8. read buf (5 + len + 1) as c9 H9. rewrite slice_ok by lia. rsimp.
  destruct (from_utf8 _); [|done]. rsimp. destruct (parse_ip _); [|done]. rsimp. lia.
Qed.

Lemma relay_recv_no_panic out datagram : all_bytes datagram -> 0 <= out -> relay_recv out datagram <> Panic.
Proof.
  intros Hb Ho. unfold relay_recv. set (framed := sub _ _ _). assert (all_bytes framed) as Hf by (by apply Forall_sub).
  pose proof (decode_udp_header_total framed Hf) as Hd. destruct (decode_udp_header framed) as [[o off]| |]; [|done..]. rsimp.
  rewrite slice_ok by lia. rsimp. rewrite slice_ok; [done|lia|apply Z.min_glb; [apply blen_nonneg|done]|lia].
Qed.

Definition event_bytes (e : PumpEvent) : Prop := match e with FromShim d _ | FromRelay d => all_bytes d end.
Definition event_len (e : PumpEvent) : Z := match e with FromShim d _ | FromRelay d => blen d end.

(** The pump of a detour panics on no datagram; it sends to the relay only what the
    detoured socket sent, addressed to the peer, and to the shim only payloads of the
    relay, back to where the detoured socket sent from. *)
Theorem pump_safe client peer events :
  Forall (fun e => event_bytes e /\ event_len e <= 65535) events ->
  exists outs, pump client peer None events = Ok outs
  /\ Forall (fun o => match o with
                     | ToRelay d => exists data origin, In (FromShim data origin) events
                         /\ from_detoured_socket client origin = true /\ d = encode_udp_header peer ++ data
                     | ToShim payload to => (exists data, In (FromShim data to) events) /\ from_detoured_socket client to = true
                         /\ exists d, In (FromRelay d) events /\ relay_recv 65535 d = Ok payload
                     end) outs.
Proof.
  set (P := fun (events : list PumpEvent) (o : PumpOutput) => match o with
    | ToRelay d => exists data origin, In (FromShim data origin) events
        /\ from_detoured_socket client origin = true /\ d = encode_udp_header peer ++ data
    | ToShim payload to => (exists data, In (FromShim data to) events) /\ from_detoured_socket client to = true
        /\ exists d, In (FromRelay d) events /\ relay_recv 65535 d = Ok payload
    end).
  enough (forall later before reply_to, Forall (fun e => event_bytes e /\ event_len e <= 65535) later ->
    (forall to, reply_to = Some to -> (exists data, In (FromShim data to) before) /\ from_detoured_socket client to = true) ->
    exists outs, pump client peer reply_to later = Ok outs /\ Forall (P (before ++ later)) outs) as H.
  { intros Hev. apply (H events [] None Hev). done. }
  induction later as [|e later IH]; intros before reply_to Hev Hreply; [by exists []|].
  apply Forall_cons in Hev as [[Hb Hl] Hev]. cbn [pump].
  assert (forall x, In x (before ++ [e]) -> In x (before ++ e :: later)) as Hin.
  { intros x. rewrite !in_app_iff. cbn. tauto. }
  replace (before ++ e :: later) with ((before ++ [e]) ++ later) in * by (by rewrite <- app_assoc).
  enough (exists reply out, pump_step client peer reply_to e = Ok (reply, out)
    /\ (forall to, reply = Some to -> (exists data, In (FromShim data to) (before ++ [e])) /\ from_detoured_socket client to = true)
    /\ Forall (P (before ++ [e])) out) as (reply & out & -> & Hr & Hout).
  { cbn [mbind res_bind]. destruct (IH (before ++ [e]) reply Hev Hr) as (outs & -> & Houts). cbn [mbind res_bind].
    exists (out ++ outs). split; [done|]. apply Forall_app. split; [|done]. eapply Forall_impl; [exact Hout|].
    intros [d|payload to]; cbn.
    - intros (data & origin & Hi & Hd). exists data, origin. auto.
    - intros ((data & Hi) & Hd & dg & Hdg & Hrecv). eauto 10. }
  assert (forall to, reply_to = Some to -> (exists data, In (FromShim data to) (before ++ [e])) /\ from_detoured_socket client to = true) as Hkeep.
  { intros to Ht. destruct (Hreply to Ht) as [[data Hi] Hd]. split; [|done]. exists data. apply in_or_app. by left. }
  assert (In e (before ++ [e])) as He by (apply in_or_app; right; by left).
  destruct e as [data origin|dg]; cbn [pump_step event_bytes event_len] in *.
  - destruct (from_detoured_socket client origin) eqn:Hd; cbn [negb]; [|by exists reply_to, []].
    rewrite Z.min_l, sub_all by done. eexists _, _. split; [done|]. split; [intros to [= <-]; eauto|].
    constructor; [|constructor]. cbn. eauto 10.
  - pose proof (relay_recv_no_panic 65535 dg Hb ltac:(lia)) as Hnp. destruct (relay_recv 65535 dg) as [payload| |] eqn:Hrecv; [| |done]; cbn [catch mbind res_bind].
    + destruct reply_to as [to|]; [|by exists None, []]. exists (Some to), [ToShim payload to]. split; [done|]. split; [done|].
      constructor; [|constructor]. cbn. destruct (Hkeep to eq_refl). split; [done|]. split; [done|]. eauto.
    + exists reply_to, []. by destruct reply_to.
Qed.

(** ** Detours *)

(** The states of a process: detours are registered, and forgotten by the guards that
    were given out; [issued] are the guards given out so far.  The counter is far from
    its end. *)
Inductive dreach : Detours -> list (SocketAddr * Z) -> Prop :=
| dreach_init : dreach (mkDetours ∅ 1) []
| dreach_register s issued client shim peer :
    dreach s issued -> next s < U64_MAX ->
    dreach (register_detour client shim peer s).2 ((register_detour client shim peer s).1 :: issued)
| dreach_forget s issued client id :
    dreach s issued -> (client, id) ∈ issued -> dreach (forget_detour client id s) issued.

Lemma dreach_fresh s issued : dreach s issued -> 1 <= next s <= U64_MAX /\ Forall (fun g => g.2 < next s) issued.
Proof.
  induction 1 as [|s issued client shim peer _ [Hn Hi] Hlt|s issued client id _ [Hn Hi] _].
  - split; [cbn; unfold U64_MAX; lia|constructor].
  - cbn. unfold wrap_u64. rewrite Z.mod_small by (unfold U64_MAX in *; lia). split; [lia|].
    constructor; [cbn; lia|]. eapply Forall_impl; [exact Hi|]. cbn. lia.
  - unfold forget_detour. destruct (detours s !! client); [|done]. by destruct (_ =? _).
Qed.

(** What others do to the detours: register one for another socket, or drop a guard
    that was given out earlier or for another socket. *)
Inductive other_op (client : SocketAddr) (earlier : list (SocketAddr * Z)) : (Detours -> Detours) -> Prop :=
| other_register c shim peer : c <> client -> other_op client earlier (fun s => (register_detour c shim peer s).2)
| other_forget c id : c <> client \/ (c, id) ∈ earlier -> other_op client earlier (forget_detour c id).

(** The detour of a socket stands until its own guard drops it: the guard of an
    earlier detour of the same socket, dropped late, leaves it alone.  While it stands,
    what is meant for the peer goes to the shim, and what comes from the shim is
    attributed to the peer. *)
Theorem detour_outlives_stale_guards s issued client shim_ peer_ ops intended :
  dreach s issued -> next s < U64_MAX -> Forall (other_op client issued) ops ->
  let s' := fold_left (fun s op => op s) ops (register_detour client shim_ peer_ s).2 in
  relay_target s' client intended = shim_ /\ real_source s' client shim_ = peer_
  /\ forall observed, observed <> shim_ -> real_source s' client observed = observed.
Proof.
  intros Hr Hn Hops s'. destruct (dreach_fresh s issued Hr) as [_ Hi].
  assert (detours s' !! client = Some (mkDetour (next s) shim_ peer_)) as Hl.
  { assert (detours (register_detour client shim_ peer_ s).2 !! client = Some (mkDetour (next s) shim_ peer_)) as H0.
    { cbn. by rewrite lookup_insert_eq. }
    subst s'. revert H0. generalize (register_detour client shim_ peer_ s).2 as t. clear Hr.
    induction Hops as [|op ops Hop _ IH]; intros t Ht; [done|]. cbn [fold_left]. apply IH.
    destruct Hop as [c shim peer Hc|c id Hc].
    - cbn. by rewrite lookup_insert_ne.
    - unfold forget_detour. destruct (detours t !! c) as [d|] eqn:Hd; [|done].
      destruct (Z.eqb_spec (Upstream.id d) id) as [Heq|]; [|done]. cbn.
      destruct (decide (c = client)) as [->|Hne]; [|by rewrite lookup_delete_ne].
      destruct Hc as [|Hg]; [done|]. rewrite Ht in Hd. injection Hd as <-. cbn in Heq.
      rewrite Forall_forall in Hi. specialize (Hi _ Hg). cbn in Hi. lia. }
  unfold relay_target, real_source. rewrite Hl. cbn. split; [done|]. split; [by rewrite bool_decide_eq_true_2|].
  intros observed Ho. by rewrite bool_decide_eq_false_2.
Qed.

(** ** HTTP CONNECT *)

(** A head ends with the first empty line. *)
Definition head_complete (head : bytes) : Prop :=
  ends_with [13; 10; 13; 10] head = true
  /\ forall p q, head = p ++ q -> q <> [] -> ends_with [13; 10; 13; 10] p = false.

Lemma head_complete_check head :
  ends_with [13; 10; 13; 10] head = true ->
  forallb (fun n => negb (ends_with [13; 10; 13; 10] (firstn n head))) (seq 0 (length head)) = true -> head_complete head.
Proof.
  intros He Hall. split; [done|]. intros p q -> Hq. rewrite forallb_forall in Hall.
  specialize (Hall (length p)). rewrite in_seq, take_app_length, length_app in Hall.
  apply negb_true_iff, Hall. destruct q; [done|]. cbn. lia.
Qed.

Lemma read_head_exact head rest rem : forall acc fuel,
  head_complete head -> head = acc ++ rem -> rem <> [] -> blen head <= 8193 -> (length rem <= fuel)%nat ->
  read_head fuel acc (rem ++ rest) = ([], Ok (head, rest)).
Proof.
  induction rem as [|b rem IH]; intros acc fuel Hc Hh Hne Hl Hf; [done|]. cbn [length] in Hf. destruct fuel as [|fuel]; [lia|].
  cbn [read_head app]. assert (blen acc <= 8192) as Ha.
  { rewrite Hh in Hl. autorewrite with blens in Hl. pose proof (blen_nonneg rem). lia. }
  rewrite (proj2 (Z.ltb_ge _ _)) by done. destruct rem as [|c rem].
  - destruct Hc as [He _]. by rewrite <- Hh, He.
  - rewrite (proj2 Hc (acc ++ [b]) (c :: rem)) by (done || (rewrite Hh; solve_app)).
    apply IH; [done|rewrite Hh; solve_app|done|done|cbn [length] in *; lia].
Qed.

(** A CONNECT through an HTTP proxy succeeds exactly when the answer's status is 2xx, and
    takes no byte behind the answer's head: what the target sends first is kept. *)
Lemma http_connect_exact base64_encode u authority head rest :
  head_complete head -> blen head <= 8193 ->
  http_connect base64_encode u authority (head ++ rest)
  = (connect_request base64_encode u authority,
     match http_status head with
     | None => Err (Other (lit "the upstream proxy answer was not http"))
     | Some status =>
         if (200 <=? status) && (status <? 300) then Ok (tt, rest)
         else Err (Other (lit "the upstream proxy answered " ++ dec status ++ lit " to the connect"))
     end).
Proof.
  intros Hc Hl. unfold http_connect. rewrite talk_write. unfold mbind, talk_bind.
  rewrite (read_head_exact head rest head []); [|done|done|by intros ->; destruct Hc|done|unfold blen in Hl; lia].
  destruct (http_status head) as [status|]; [|unfold fail; by rewrite app_nil_r].
  unfold fail, mret, talk_ret. destruct ((200 <=? status) && (status <? 300)); cbn; by rewrite app_nil_r.
Qed.

(** ** The theorems at work *)

Definition example_proxy : Upstream := mkUpstream Socks5 (lit "::1") 1080 (Some (lit "us@r")) (Some [195; 169; 58]).
Lemma upstream_url_roundtrip_witness :
  @parse ascii_case (lit "socks5://us%40r:%C3%A9%3A@[::1]:1080") = Ok example_proxy.
Proof.
  apply (@upstream_url_roundtrip ascii_case example_proxy). unfold upstream_wf, U16_MAX. cbn.
  split; [discriminate|]. split; [reflexivity|]. split; [lia|]. split; [discriminate|].
  split; (split; [repeat constructor; discriminate|reflexivity]).
Defined.

Definition example_env (v : bytes) : option bytes := if bool_decide (v = lit "AETHER_UPSTREAM") then Some (lit " http://10.0.0.1:8080/ ") else None.
Lemma checked_setting_is_used_witness :
  exists u, @parse ascii_case (lit " http://10.0.0.1:8080/ ") = Ok u /\ (@configured ascii_case None example_env (Some (lit "x", None))).2 = Some u.
Proof.
  destruct (@checked_setting_is_used ascii_case example_env (Some (lit "x", None))) as [[H _]|H].
  - reflexivity.
  - vm_compute. reflexivity.
  - discriminate H.
  - exact H.
Defined.

Definition example_plain_proxy : Upstream := mkUpstream Socks5 (lit "127.0.0.1") 1080 None None.
Lemma socks_client_meets_server_witness :
  exists sent, associate example_plain_proxy ([5; 0] ++ SocksWire.reply_bound (mkSocketAddr (V4 (v4_new 127 0 0 1)) 4000) ++ [9])
    = (sent, Ok (mkSocketAddr (V4 (v4_new 127 0 0 1)) 4000, [9]))
    /\ SocksWire.read_request (sent ++ []) = Ok ((3, SocksWire.TIp (V4 0), 0), [5; 0], []).
Proof.
  pose proof (socks_client_meets_server (fun s => s) (fun s => s) example_plain_proxy (mkSocketAddr (V6 1) 443) (lit "example.com") 80
    (mkSocketAddr (V4 (v4_new 127 0 0 1)) 4000) [9] []) as H.
  cbn [user example_plain_proxy] in H. apply H; try reflexivity; repeat split; vm_compute; discriminate.
Defined.

Lemma udp_relay_meets_server_witness :
  relay_recv 65535 (SocksWire.build_udp_reply (mkSocketAddr (V6 1) 53) [1; 2; 3]) = Ok [1; 2; 3].
Proof.
  apply (udp_relay_meets_server (mkSocketAddr (V4 0) 0) (mkSocketAddr (V6 1) 53) [] [1; 2; 3]);
    repeat split; vm_compute; discriminate.
Defined.

Lemma pump_safe_witness :
  let client := mkSocketAddr (V4 0) 5000 in
  exists outs, pump client (mkSocketAddr (V4 (v4_new 1 1 1 1)) 443) None
    [FromShim [7] (mkSocketAddr (V4 (v4_new 127 0 0 1)) 5000); FromRelay (SocksWire.build_udp_reply (mkSocketAddr (V4 5) 5) [8]); FromRelay [1]]
    = Ok outs /\ length outs = 2%nat.
Proof.
  intros client. set (evs := [FromShim [7] _; _; _]).
  destruct (pump_safe client (mkSocketAddr (V4 (v4_new 1 1 1 1)) 443) evs) as (outs & H & _).
  - repeat constructor; try (unfold blen; cbn; lia); vm_compute; repeat constructor; discriminate.
  - exists outs. split; [exact H|]. vm_compute in H. injection H as <-. reflexivity.
Defined.

Lemma detour_outlives_stale_guards_witness :
  let client := mkSocketAddr (V4 0) 5000 in
  let s := (register_detour client (mkSocketAddr (V4 1) 1) (mkSocketAddr (V4 2) 2) (mkDetours ∅ 1)).2 in
  let s' := forget_detour client 1 (register_detour client (mkSocketAddr (V4 3) 3) (mkSocketAddr (V4 4) 4) s).2 in
  relay_target s' client (mkSocketAddr (V4 9) 9) = mkSocketAddr (V4 3) 3.
Proof.
  intros client s s'.
  apply (detour_outlives_stale_guards s [(client, 1)] client (mkSocketAddr (V4 3) 3) (mkSocketAddr (V4 4) 4) [forget_detour client 1] (mkSocketAddr (V4 9) 9)).
  - apply (dreach_register (mkDetours ∅ 1) [] client (mkSocketAddr (V4 1) 1) (mkSocketAddr (V4 2) 2)); [apply dreach_init|unfold U64_MAX; cbn; lia].
  - apply Z.ltb_lt. vm_compute. reflexivity.
  - constructor; [|constructor]. apply other_forget. right. apply list_elem_of_In. left. reflexivity.
Defined.

End Upstream.
