(* ===== verification/SocksRelay.v ===== *)
(** * The SOCKS5 server ([aether/src/socks.rs], decisions and relays)

    What the server does with a client: the routing decision of a flow and of a
    datagram, the UDP association as a state machine driven by the events of its
    [select!] loop, the CONNECT handler as the list of the actions it takes, and
    the DNS exchange of the resolver.  Sockets, timers and the tunnel are the
    events and outcomes these definitions take as arguments. *)

From S2P Require Import Prelude Str Ip Error Sniff Routing RouteDns SocksWire.
Local Open Scope Z_scope.

Module SocksRelay.
Import Error Routing RouteDns SocksWire.

Definition DNS_PORT : Z := 53.

(** ** Listening *)

(** [due]: whether it is time to warn again, and the time of the last warning. *)
Definition due (last : option Z) (every now : Z) : bool * option Z :=
  match last with
  | Some at_ => if now - at_ <? every then (false, last) else (true, Some now)
  | None => (true, Some now)
  end.

Inductive Tier := Low | Medium | High.

Definition client_limit (env : bytes -> option bytes) (tier : Tier) (open_file_limit : option Z) : Z :=
  match (env (lit "AETHER_MAX_CLIENTS") ≫= fun v => parse_u64 (trim v)) with
  | Some limit =>
      if 0 <? limit then limit
      else
        let by_tier := match tier with Low => 512 | Medium => 2048 | High => 8192 end in
        match open_file_limit with
        | Some files => Z.min by_tier (Z.max (Z.max (files - 64) 0 / 2) 32)
        | None => by_tier
        end
  | None =>
      let by_tier := match tier with Low => 512 | Medium => 2048 | High => 8192 end in
      match open_file_limit with
      | Some files => Z.min by_tier (Z.max (Z.max (files - 64) 0 / 2) 32)
      | None => by_tier
      end
  end.

(** The kinds of [std::io::Error] the server tells apart. *)
Inductive ErrorKind :=
| ConnectionAborted | ConnectionReset | ConnectionRefused | Interrupted | WouldBlock | TimedOut
| PermissionDenied | AddrInUse | AddrNotAvailable | NotFound | OtherKind.
#[export] Instance ErrorKind_eq_dec : EqDecision ErrorKind.
Proof. solve_decision. Defined.

(** The codes of Linux: EMFILE, ENFILE, ENOBUFS and ENOMEM. *)
Definition out_of_resources (code : Z) : bool := bool_decide (code ∈ [24; 23; 105; 12]).
(** ENETDOWN, EPROTO, ENOPROTOOPT, EHOSTDOWN, ENONET, EHOSTUNREACH, EOPNOTSUPP and ENETUNREACH. *)
Definition failed_while_queued (code : Z) : bool :=
  bool_decide (code ∈ [100; 71; 92; 112; 64; 113; 95; 101]).

(** How long to wait before the next accept (milliseconds); [None] ends the listener. *)
Definition accept_backoff (kind : ErrorKind) (raw_os_error : option Z) : option Z :=
  if bool_decide (kind ∈ [ConnectionAborted; ConnectionReset; ConnectionRefused; Interrupted; WouldBlock; TimedOut; PermissionDenied])
  then Some 0
  else
    code ← raw_os_error;
    if out_of_resources code then Some 100
    else if failed_while_queued code then Some 0 else None.

Definition bind_hint (kind : ErrorKind) (flag : bytes) : bytes :=
  match kind with
  | AddrInUse => lit "; another program already listens there, so stop it or choose another port with " ++ flag
  | PermissionDenied => lit "; ports below 1024 need extra privileges, so choose a higher one with " ++ flag
  | AddrNotAvailable => lit "; that address does not belong to this machine"
  | _ => []
  end.

Section relay.
Context `{UnicodeCase, IpNetCrate, RegexCrate}.

(** ** Routing decisions *)

Definition host_of (target : Target) : Host :=
  match target with
  | TDomain name => HDomain name
  | TIp ip => HIp ip
  end.

Definition decide_route (set : RuleSet) (target : Target) (sniffed : option bytes) (port : Z) : Action :=
  match sniffed with
  | Some name =>
      match decide set (HDomain name) port with
      | Proxy => decide set (host_of target) port
      | decided => decided
      end
  | None => decide set (host_of target) port
  end.

Definition recalled_block (now : Z) (m : NameMemory) (set : RuleSet) (target : Target) (port : Z) : option Action :=
  match target with
  | TDomain _ => None
  | TIp ip =>
      if negb (RuleSet_has_domain_rules set) then None
      else
        name ← recall_name now ip m;
        if bool_decide (decide set (HDomain name) port = Block) then Some Block else None
  end.

Definition decide_udp (now : Z) (m : NameMemory) (set : RuleSet) (target : Target) (port : Z) : Action :=
  match decide set (host_of target) port with
  | Proxy => default Proxy (recalled_block now m set target port)
  | decided => decided
  end.

Definition sinkhole_reply (set : RuleSet) (dst : Target) (dst_port : Z) (payload : bytes) : res unit bytes :=
  if negb (dst_port =? DNS_PORT) then Err tt
  else
    answer ← dns_block_reply set payload;
    let from :=
      match dst with
      | TIp ip => mkSocketAddr ip dst_port
      | TDomain _ => mkSocketAddr (V4 0) dst_port
      end in
    Ok (build_udp_reply from answer).

Definition learn_if_dns (now : Z) (set : RuleSet) (src_port : Z) (data : bytes) (m : NameMemory) : res unit NameMemory :=
  if (src_port =? DNS_PORT) && RuleSet_has_domain_rules set then learn_dns_answer now data m else Ok m.

Definition sniff_enabled (env : bytes -> option bytes) : bool :=
  negb (bool_decide (env (lit "AETHER_ROUTE_SNIFF") ∈ [Some (lit "0"); Some (lit "off"); Some (lit "false")])).

(** Milliseconds. *)
Definition sniff_window (env : bytes -> option bytes) : Z :=
  match (env (lit "AETHER_ROUTE_SNIFF_MS") ≫= fun v => parse_u64 (trim v)) with
  | Some ms => if 0 <? ms then ms else 400
  | None => 400
  end.

(** ** The UDP association *)

(** The client latched, the datagrams refused, the memory of names (shared by the
    process) and whether the loop has ended. *)
Record Assoc := mkAssoc {
  client : option SocketAddr;
  refused : Z;
  memory : NameMemory;
  ended : bool;
}.

(** What wakes the loop.  A datagram of the client comes with the outcome of the
    name lookups it may start: [lookup] by the system, [resolved] in the tunnel. *)
Inductive Event :=
| FromClient (datagram : bytes) (from : SocketAddr) (lookup : option SocketAddr) (resolved : option IpAddr)
| ClientFailed
| FromStack (src : SocketAddr) (data : bytes)
| StackClosed
| FromDirect (from : SocketAddr) (data : bytes)
| DirectFailed
| Control (read : option Z).

Inductive Output :=
| ToClient (pkt : bytes) (to_ : SocketAddr)
| ToDirect (payload : bytes) (to_ : SocketAddr)
| ToStack (dst : SocketAddr) (payload : bytes).

(** The branch of a datagram from the relay socket. *)
Definition client_datagram (now : Z) (set : RuleSet) (control_peer : SocketAddr) (expected_ip : IpAddr)
    (s : Assoc) (datagram : bytes) (from : SocketAddr) (lookup : option SocketAddr) (resolved : option IpAddr)
  : res unit (Assoc * list Output) :=
  if negb (udp_source_allowed expected_ip (client s) from) then
    Ok (mkAssoc (client s) (refused s + 1) (memory s) (ended s), [])
  else
    let s := mkAssoc (match client s with None => Some from | c => c end) (refused s) (memory s) (ended s) in
    match parse_udp_request datagram with
    | Panic => Panic
    | Err _ => Ok (s, [])
    | Ok (dst, (dst_port, payload)) =>
        match sinkhole_reply set dst dst_port payload with
        | Panic => Panic
        | Ok pkt => Ok (s, [ToClient pkt from])
        | Err _ =>
            match decide_udp now (memory s) set dst dst_port with
            | Block => Ok (s, [])
            | Direct =>
                let outside := match dst with TIp ip => Some (mkSocketAddr ip dst_port) | TDomain _ => lookup end in
                match outside with
                | Some addr =>
                    if negb (direct_target_allowed (sa_ip control_peer) (sa_ip addr)) then Ok (s, [])
                    else Ok (s, [ToDirect payload addr])
                | None => Ok (s, [])
                end
            | Proxy =>
                match (match dst with TIp ip => Some ip | TDomain _ => resolved end) with
                | Some ip => Ok (s, [ToStack (mkSocketAddr ip dst_port) payload])
                | None => Ok (s, [])
                end
            end
        end
    end.

(** The branch of a datagram from the tunnel or from the direct socket. *)
Definition answer_datagram (now : Z) (set : RuleSet) (s : Assoc) (src : SocketAddr) (data : bytes)
  : res unit (Assoc * list Output) :=
  m ← learn_if_dns now set (sa_port src) data (memory s);
  let s := mkAssoc (client s) (refused s) m (ended s) in
  Ok (s, match client s with Some c => [ToClient (build_udp_reply src data) c] | None => [] end).

Definition assoc_step (now : Z) (set : RuleSet) (control_peer : SocketAddr) (expected_ip : IpAddr)
    (s : Assoc) (e : Event) : res unit (Assoc * list Output) :=
  let stop := mkAssoc (client s) (refused s) (memory s) true in
  match e with
  | FromClient datagram from lookup resolved =>
      client_datagram now set control_peer expected_ip s datagram from lookup resolved
  | ClientFailed => Ok (stop, [])
  | FromStack src data => answer_datagram now set s src data
  | StackClosed => Ok (stop, [])
  | FromDirect from data => answer_datagram now set s from data
  | DirectFailed => Ok (s, [])
  | Control (Some n) => if n =? 0 then Ok (stop, []) else Ok (s, [])
  | Control None => Ok (stop, [])
  end.

Definition assoc_init (m : NameMemory) : Assoc := mkAssoc None 0 m false.

(** ** CONNECT *)

(** The outcomes of what the handler waits for. *)
Inductive DirectOutcome := DirectConnected | DirectError (kind : ErrorKind) | DirectTimedOut.
Record World := mkWorld {
  w_peer : SocketAddr;
  w_sniff_head : option bytes;
  w_gateway : option SocketAddr;
  w_through_gateway : bytes + AetherError;
  w_resolve : IpAddr + AetherError;
  w_open_tcp : unit + AetherError;
  w_direct : DirectOutcome;
  w_reply : bool;
  w_send_head : bool;
  w_write_leftover : bool;
}.

Inductive Act :=
| Reply (code : Z)
| ReplyBound
| OpenGateway (proxy : SocketAddr) (authority : bytes) (port : Z)
| RetireGateway
| OpenTcp (dst : SocketAddr)
| ConnectDirect (host : bytes) (port : Z)
| SendHead (head : bytes)
| WriteLeftover (leftover : bytes)
| RelayTunneled
| RelayDirect.

Definition write_failed : AetherError := Io (lit "write failed").

(** [reply_bound(..).await?] followed by the rest of the handler. *)
Definition reply_then (w : World) (k : list Act * res AetherError unit) : list Act * res AetherError unit :=
  if w_reply w then (ReplyBound :: k.1, k.2) else ([ReplyBound], Err write_failed).

Definition handle_direct (w : World) (target : Target) (port : Z) (head : bytes) (replied : bool)
  : list Act * res AetherError unit :=
  let host := match target with TDomain name => name | TIp ip => ip_to_string ip end in
  let '(acts, r) :=
    match w_direct w with
    | DirectError kind =>
        (if replied then []
         else [Reply (if bool_decide (kind = PermissionDenied) then REP_NOT_ALLOWED else REP_GENERAL)], Ok tt)
    | DirectTimedOut => (if replied then [] else [Reply REP_GENERAL], Ok tt)
    | DirectConnected =>
        let rest := ([RelayDirect], Ok tt) in
        let '(acts, r) := if replied then rest else reply_then w rest in
        if bool_decide (head = []) then (acts, r)
        else if w_send_head w then (SendHead head :: acts, r) else ([SendHead head], Ok tt)
    end in
  (ConnectDirect host port :: acts, r).

(** The part of the handler after the tunnel is open; [leftover] came with the
    answer of the gateway. *)
Definition start_relay (w : World) (head leftover : bytes) (replied : bool) : list Act * res AetherError unit :=
  let relay := ([RelayTunneled], Ok tt) in
  let after_leftover :=
    if bool_decide (leftover = []) then relay
    else if w_write_leftover w then (WriteLeftover leftover :: relay.1, relay.2)
    else ([WriteLeftover leftover], Ok tt) in
  let after_head :=
    if bool_decide (head = []) then after_leftover
    else if w_send_head w then (SendHead head :: after_leftover.1, after_leftover.2)
    else ([SendHead head], Ok tt) in
  if replied then after_head else reply_then w after_head.

(** Resolving the target and opening a connection to it in the tunnel. *)
Definition open_in_tunnel (w : World) (port : Z) (head : bytes) (replied : bool) : list Act * res AetherError unit :=
  match w_resolve w with
  | inr e => ([Reply REP_GENERAL], Err e)
  | inl ip =>
      let '(acts, r) :=
        match w_open_tcp w with
        | inr e => ([Reply REP_GENERAL], Err e)
        | inl _ => start_relay w head [] replied
        end in
      (OpenTcp (mkSocketAddr ip port) :: acts, r)
  end.

(** The handler once the first bytes of the flow are known, if they were read. *)
Definition connect_with (now : Z) (m : NameMemory) (set : RuleSet) (w : World) (target : Target) (port : Z)
    (head : bytes) (named : option bytes) (replied : bool) : list Act * res AetherError unit :=
  let verdict := decide_route set target named port in
  let verdict :=
    if bool_decide (verdict = Proxy) && bool_decide (named = None) && negb (bool_decide (head = []))
    then default verdict (recalled_block now m set target port) else verdict in
  match verdict with
  | Block => (if replied then [] else [Reply REP_NOT_ALLOWED], Ok tt)
  | Direct => handle_direct w target port head replied
  | Proxy =>
      let via_gateway := if should_use_gateway port then w_gateway w else None in
      match via_gateway with
      | Some proxy =>
          let authority := match target with TDomain name => name | TIp ip => ip_to_string ip end in
          let '(acts, r) :=
            match w_through_gateway w with
            | inl leftover => start_relay w head leftover replied
            | inr _ => let '(acts, r) := open_in_tunnel w port head replied in (RetireGateway :: acts, r)
            end in
          (OpenGateway proxy authority port :: acts, r)
      | None => open_in_tunnel w port head replied
      end
  end.

Definition handle_connect (now : Z) (m : NameMemory) (env : bytes -> option bytes) (set : RuleSet) (w : World)
    (target : Target) (port : Z) : list Act * res AetherError unit :=
  if (match target with TIp _ => true | TDomain _ => false end) && sniff_enabled env && RuleSet_has_domain_rules set then
    reply_then w
      match w_sniff_head w with
      | None => ([], Ok tt)
      | Some head =>
          let named := if bool_decide (head = []) then None else Sniff.hostname head in
          connect_with now m set w target port head named true
      end
  else connect_with now m set w target port [] None false.

(** ** Direct connections *)

(** The addresses a name resolves to, each with the outcome of connecting to it:
    the address connected, or the last error. *)
Fixpoint connect_direct (client : IpAddr) (last_error : option ErrorKind) (addrs : list (SocketAddr * option ErrorKind))
  : SocketAddr + ErrorKind :=
  match addrs with
  | [] => inr (default NotFound last_error)
  | (address, outcome) :: addrs =>
      if negb (direct_target_allowed client (sa_ip address)) then connect_direct client (Some PermissionDenied) addrs
      else match outcome with
           | None => inl address
           | Some error => connect_direct client (Some error) addrs
           end
  end.

End relay.

(** ** Resolving names in the tunnel *)

Inductive DnsAnswer :=
| Found (ip : IpAddr)
| NoRecord
| NoSuchName.

(** What happens with one server: the identifier drawn, the error of sending, the
    datagrams that arrive before the deadline and whether the channel then closes. *)
Record Exchange := mkExchange {
  x_server : SocketAddr;
  x_id : Z;
  x_send_error : option AetherError;
  x_datagrams : list bytes;
  x_closed : bool;
}.

Fixpoint wait_answer (name : bytes) (qtype id : Z) (datagrams : list bytes) : res unit (option DnsAnswer) :=
  match datagrams with
  | [] => Ok None
  | resp :: datagrams =>
      ok ← dns_response_matches resp id name qtype;
      if negb ok then wait_answer name qtype id datagrams
      else
        found ← catch (parse_dns_answer resp qtype);
        match found with
        | Some ip => Ok (Some (Found ip))
        | None =>
            if bool_decide (dns_rcode resp = Some RCODE_NXDOMAIN) then Ok (Some NoSuchName) else Ok (Some NoRecord)
        end
  end.

Fixpoint dns_exchange (name : bytes) (qtype : Z) (last : AetherError) (xs : list Exchange) : res AetherError DnsAnswer :=
  match xs with
  | [] => Err last
  | x :: xs =>
      match x_send_error x with
      | Some error => dns_exchange name qtype error xs
      | None =>
          match wait_answer name qtype (x_id x) (x_datagrams x) with
          | Panic | Err _ => Panic
          | Ok (Some answer) => Ok answer
          | Ok None =>
              if x_closed x then Err (Other (lit "dns channel closed"))
              else dns_exchange name qtype (Other (lit "dns timeout from " ++ sa_to_string (x_server x))) xs
          end
      end
  end.

(** The exchanges for the A record and those for the AAAA record. *)
Definition resolve_preferring_v4 (name : bytes) (a aaaa : list Exchange) : res AetherError IpAddr :=
  let timeout := Other (lit "dns timeout") in
  answer ← dns_exchange name QTYPE_A timeout a;
  match answer with
  | Found ip => Ok ip
  | NoSuchName => Err (Other (name ++ lit " does not exist"))
  | NoRecord =>
      answer ← dns_exchange name QTYPE_AAAA timeout aaaa;
      match answer with
      | Found ip => Ok ip
      | _ => Err (Other (lit "no A or AAAA record for " ++ name))
      end
  end.

Definition resolve (target : Target) (a aaaa : list Exchange) : res AetherError IpAddr :=
  match target with
  | TIp ip => Ok ip
  | TDomain name =>
      match parse_ip name with
      | Some ip => Ok ip
      | None => resolve_preferring_v4 name a aaaa
      end
  end.

Section theorems.
Context `{UnicodeCase, IpNetCrate, RegexCrate}.

(** ** The UDP association *)

Definition event_bytes (e : Event) : Prop :=
  match e with
  | FromClient d _ _ _ => all_bytes d
  | FromStack _ d | FromDirect _ d => all_bytes d
  | _ => True
  end.

(** The client latched has the address expected, and the memory is bounded. *)
Definition assoc_inv (expected_ip : IpAddr) (s : Assoc) : Prop :=
  match client s with Some c => normalize_ip (sa_ip c) = normalize_ip expected_ip | None => True end
  /\ len (memory s) <= NAME_MEMORY_MAX.

(** Where an output may go: to the client latched, or out on behalf of a datagram of
    that client whose verdict allows it. *)
Definition output_ok (now : Z) (set : RuleSet) (control_peer : SocketAddr) (s s' : Assoc) (e : Event) (o : Output) : Prop :=
  match o with
  | ToClient _ a => client s' = Some a
  | ToDirect payload a =>
      exists d from lookup resolved t port,
        e = FromClient d from lookup resolved /\ client s' = Some from
        /\ parse_udp_request d = Ok (t, (port, payload))
        /\ decide_udp now (memory s) set t port = Direct
        /\ direct_target_allowed (sa_ip control_peer) (sa_ip a) = true
  | ToStack dst payload =>
      exists d from lookup resolved t port,
        e = FromClient d from lookup resolved /\ client s' = Some from
        /\ parse_udp_request d = Ok (t, (port, payload)) /\ sa_port dst = port
        /\ decide_udp now (memory s) set t port = Proxy
  end.

Lemma udp_source_latched expected_ip s from :
  assoc_inv expected_ip s -> udp_source_allowed expected_ip (client s) from = true ->
  match client s with None => Some from | c => c end = Some from
  /\ normalize_ip (sa_ip from) = normalize_ip expected_ip.
Proof.
  intros [Hc _] Hu. unfold udp_source_allowed in Hu. destruct (client s) as [c|]; apply bool_decide_eq_true in Hu.
  - by subst.
  - done.
Qed.

Lemma parse_udp_payload_bytes d t port payload :
  all_bytes d -> parse_udp_request d = Ok (t, (port, payload)) -> all_bytes payload.
Proof.
  intros Hb Hp. unfold parse_udp_request in Hp. destruct (blen d <? 4); [done|].
  apply res_bind_Ok in Hp as (rsv & _ & Hp). destruct (negb _); [done|].
  apply res_bind_Ok in Hp as (atyp & _ & Hp). cbn zeta in Hp.
  apply res_bind_Ok in Hp as ([t' pos] & _ & Hp). destruct (_ <? _); [done|].
  apply res_bind_Ok in Hp as (p0 & _ & Hp). apply res_bind_Ok in Hp as (p1 & _ & Hp).
  apply res_bind_Ok in Hp as (rest & Hr & Hp). unfold slice in Hr.
  destruct (in_range _ _ _); [|done]. injection Hr as <-. injection Hp as <- <- <-. by apply Forall_sub.
Qed.

Lemma sinkhole_no_panic set dst port payload : all_bytes payload -> sinkhole_reply set dst port payload <> Panic.
Proof.
  intros Hb. unfold sinkhole_reply. destruct (negb _); [done|].
  pose proof (dns_block_reply_no_panic set payload Hb). by destruct (dns_block_reply _ _).
Qed.

Lemma client_datagram_ok now set peer expected_ip s d from lookup resolved :
  all_bytes d -> assoc_inv expected_ip s ->
  exists s' outs, client_datagram now set peer expected_ip s d from lookup resolved = Ok (s', outs)
    /\ assoc_inv expected_ip s' /\ (forall c, client s = Some c -> client s' = Some c)
    /\ Forall (output_ok now set peer s s' (FromClient d from lookup resolved)) outs.
Proof.
  intros Hb Hinv. unfold client_datagram.
  destruct (udp_source_allowed expected_ip (client s) from) eqn:Hu; cbn [negb].
  2: { do 2 eexists. split; [done|]. split; [done|]. split; [done|constructor]. }
  destruct (udp_source_latched _ _ _ Hinv Hu) as [Hl Hn]. rewrite Hl.
  set (s1 := mkAssoc (Some from) (refused s) (memory s) (ended s)).
  assert (Hinv1 : assoc_inv expected_ip s1) by (split; [done|apply Hinv]).
  assert (Hsame : forall c, client s = Some c -> client s1 = Some c) by (intros c Hc; rewrite Hc in Hl; done).
  assert (Hok : forall outs, Forall (output_ok now set peer s s1 (FromClient d from lookup resolved)) outs ->
    exists s' outs', @Ok unit _ (s1, outs) = Ok (s', outs') /\ assoc_inv expected_ip s'
      /\ (forall c, client s = Some c -> client s' = Some c)
      /\ Forall (output_ok now set peer s s' (FromClient d from lookup resolved)) outs') by (intros outs Ho; eauto 8).
  cbn zeta. destruct (parse_udp_request d) as [[t [port payload]]|e|] eqn:Hp.
  3: { by destruct (parse_udp_no_panic d Hb). }
  2: { by apply Hok. }
  pose proof (parse_udp_payload_bytes _ _ _ _ Hb Hp) as Hpb.
  pose proof (sinkhole_no_panic set t port payload Hpb) as Hs. destruct (sinkhole_reply set t port payload) as [pkt|e|]; [|clear Hs|done].
  { apply Hok. by repeat constructor. }
  cbn [memory s1]. destruct (decide_udp now (memory s) set t port) eqn:Hd.
  - destruct (match t with TIp ip => Some ip | TDomain _ => resolved end) as [ip|]; [|by apply Hok].
    apply Hok. repeat constructor. do 6 eexists. by repeat split.
  - destruct (match t with TIp ip => Some (mkSocketAddr ip port) | TDomain _ => lookup end) as [a|]; [|by apply Hok].
    destruct (direct_target_allowed (sa_ip peer) (sa_ip a)) eqn:Ha; cbn [negb]; [|by apply Hok].
    apply Hok. repeat constructor. do 6 eexists. by repeat split.
  - by apply Hok.
Qed.

Lemma answer_datagram_ok now set expected_ip peer s src d e :
  all_bytes d -> assoc_inv expected_ip s ->
  exists s' outs, answer_datagram now set s src d = Ok (s', outs)
    /\ assoc_inv expected_ip s' /\ (forall c, client s = Some c -> client s' = Some c)
    /\ Forall (output_ok now set peer s s' e) outs.
Proof.
  intros Hb [Hc Hm]. unfold answer_datagram, learn_if_dns.
  assert (exists m', (if (sa_port src =? DNS_PORT) && RuleSet_has_domain_rules set then learn_dns_answer now d (memory s)
                      else Ok (memory s)) = Ok m' /\ len m' <= NAME_MEMORY_MAX) as (m' & -> & Hm').
  { destruct (_ && _); [|eauto]. destruct (learn_dns_answer_entries now d (memory s) Hb Hm) as (m' & ? & ? & _). eauto. }
  rsimp. do 2 eexists. split; [done|]. split; [by split|]. split; [done|]. cbn [client].
  destruct (client s); repeat constructor.
Qed.

(** One event: no panic, the invariant, and where the outputs go. *)
Lemma assoc_step_safe now set peer expected_ip s e :
  event_bytes e -> assoc_inv expected_ip s ->
  exists s' outs, assoc_step now set peer expected_ip s e = Ok (s', outs)
    /\ assoc_inv expected_ip s' /\ (forall c, client s = Some c -> client s' = Some c)
    /\ Forall (output_ok now set peer s s' e) outs.
Proof.
  intros He Hinv. destruct e as [d from lookup resolved| |src d| |from d| |[n|]]; cbn [assoc_step event_bytes] in *;
    [by apply client_datagram_ok| |by apply answer_datagram_ok| |by apply answer_datagram_ok| |zcase|];
    do 2 eexists; (split; [done|]); (split; [by destruct Hinv|]); (split; [done|constructor]).
Qed.

(** The states an association reaches, with the log of its events: the time, the
    state before, the event and the outputs. *)
Inductive reach (set : RuleSet) (peer : SocketAddr) (expected_ip : IpAddr)
  : Assoc -> list (Z * Assoc * Event * list Output) -> Prop :=
| reach_init m : len m <= NAME_MEMORY_MAX -> reach set peer expected_ip (assoc_init m) []
| reach_step s log now e s' outs :
    reach set peer expected_ip s log -> ended s = false -> event_bytes e ->
    assoc_step now set peer expected_ip s e = Ok (s', outs) ->
    reach set peer expected_ip s' (log ++ [(now, s, e, outs)]).

Lemma output_ok_latched now set peer s0 s s' e o :
  (forall c, client s = Some c -> client s' = Some c) ->
  output_ok now set peer s0 s e o -> output_ok now set peer s0 s' e o.
Proof. destruct o; cbn; naive_solver. Qed.

(** C2.  In every run of a UDP association, whatever datagrams arrive: no event
    panics; the client latched has the address the association was made for; every
    datagram sent to a client goes to that one client; and a datagram goes out only
    on behalf of a datagram of that client, as its verdict says: into the tunnel for
    proxy, out directly (never to this machine's loopback for a remote client) for
    direct, nowhere for block. *)
Theorem assoc_run_safe set peer expected_ip s log :
  reach set peer expected_ip s log ->
  assoc_inv expected_ip s
  /\ (forall now s0 e outs, (now, s0, e, outs) ∈ log -> Forall (output_ok now set peer s0 s e) outs)
  /\ (forall now e, event_bytes e -> assoc_step now set peer expected_ip s e <> Panic).
Proof.
  intros Hr. assert (assoc_inv expected_ip s
    /\ forall now s0 e outs, (now, s0, e, outs) ∈ log -> Forall (output_ok now set peer s0 s e) outs) as [Hinv Hlog].
  { induction Hr as [m Hm|s log now e s' outs Hr [Hinv Hlog] Hend He Hs].
    - split; [done|]. intros. by set_solver.
    - destruct (assoc_step_safe now set peer expected_ip s e He Hinv) as (s1 & outs1 & Hs1 & Hinv1 & Hl & Ho).
      rewrite Hs in Hs1. injection Hs1 as <- <-. split; [done|].
      intros now0 s0 e0 outs0 [Hin|Hin]%elem_of_app.
      + eapply Forall_impl; [by apply (Hlog _ _ _ _ Hin)|]. intros o. by apply output_ok_latched.
      + apply list_elem_of_singleton in Hin. by simplify_eq. }
  split; [done|]. split; [done|]. intros now e He.
  destruct (assoc_step_safe now set peer expected_ip s e He Hinv) as (s1 & outs1 & -> & _). done.
Qed.

(** ** CONNECT *)

Definition is_reply (a : Act) : bool := match a with Reply _ | ReplyBound => true | _ => false end.
Definition replies (acts : list Act) : nat := length (List.filter is_reply acts).
Definition is_tunnel (a : Act) : bool := match a with OpenGateway _ _ _ | OpenTcp _ | RelayTunneled => true | _ => false end.
Definition is_direct (a : Act) : bool := match a with ConnectDirect _ _ | RelayDirect => true | _ => false end.

(** Whether the handler reads the first bytes of the flow before it decides. *)
Definition sniffs (env : bytes -> option bytes) (set : RuleSet) (target : Target) : bool :=
  (match target with TIp _ => true | TDomain _ => false end) && sniff_enabled env && RuleSet_has_domain_rules set.

Definition may_reply (replied : bool) (acts : list Act) : Prop := (replies acts <= (if replied then 0 else 1))%nat.

Lemma replies_nil : replies [] = 0%nat.
Proof. done. Qed.

Lemma replies_cons a acts : replies (a :: acts) = ((if is_reply a then 1 else 0) + replies acts)%nat.
Proof. unfold replies. cbn. by destruct (is_reply a). Qed.

Lemma reply_then_replies w k : replies k.1 = 0%nat -> (replies (reply_then w k).1 <= 1)%nat.
Proof.
  intros Hk. unfold reply_then. destruct (w_reply w); cbn [fst]; rewrite replies_cons; [by rewrite Hk|done].
Qed.

Lemma start_relay_replies w head leftover replied : may_reply replied (start_relay w head leftover replied).1.
Proof.
  unfold start_relay, may_reply. cbn zeta. set (k := if bool_decide (head = []) then _ else _).
  assert (Hk : replies k.1 = 0%nat) by (unfold k; repeat case_match; done).
  destruct replied; [lia|]. by apply reply_then_replies.
Qed.

Lemma handle_direct_replies w target port head replied : may_reply replied (handle_direct w target port head replied).1.
Proof.
  unfold handle_direct, may_reply. destruct (w_direct w); cbn [fst]; rewrite ?replies_cons; cbn [is_reply];
    [|destruct replied; rewrite ?replies_cons, ?replies_nil; cbn; lia..].
  set (k := if replied then _ else _). assert (Hk : (replies k.1 <= (if replied then 0 else 1))%nat).
  { unfold k. destruct replied; [done|]. by apply reply_then_replies. }
  destruct k as [acts r]. cbn [fst] in *. case_bool_decide; [|destruct (w_send_head w)];
    cbn [fst]; rewrite !replies_cons, ?replies_nil; cbn [is_reply]; lia.
Qed.

Lemma open_in_tunnel_replies w port head replied :
  (replied = true -> exists ip u, w_resolve w = inl ip /\ w_open_tcp w = inl u) ->
  may_reply replied (open_in_tunnel w port head replied).1.
Proof.
  intros Hopen. unfold open_in_tunnel, may_reply. destruct (w_resolve w) as [ip|e] eqn:Hr.
  - destruct (w_open_tcp w) as [u|e] eqn:Ho.
    + pose proof (start_relay_replies w head [] replied) as Hs. destruct (start_relay _ _ _ _) as [acts r].
      cbn [fst] in *. rewrite replies_cons. cbn. exact Hs.
    + destruct replied; [by destruct (Hopen eq_refl) as (? & ? & ? & ?)|]. cbn [fst]. rewrite !replies_cons, replies_nil. cbn. lia.
  - destruct replied; [by destruct (Hopen eq_refl) as (? & ? & ? & ?)|]. cbn [fst]. rewrite !replies_cons, replies_nil. cbn. lia.
Qed.

Lemma connect_with_replies now m set w target port head named (replied : bool) :
  (replied = true -> exists ip u, w_resolve w = inl ip /\ w_open_tcp w = inl u) ->
  may_reply replied (connect_with now m set w target port head named replied).1.
Proof.
  intros Hopen. unfold connect_with. cbn zeta. destruct (if _ && _ then _ else _).
  - destruct (if should_use_gateway port then _ else _) as [proxy|]; [|by apply open_in_tunnel_replies].
    destruct (w_through_gateway w) as [leftover|e].
    + pose proof (start_relay_replies w head leftover replied) as Hs. unfold may_reply in *.
      destruct (start_relay _ _ _ _) as [acts r]. cbn [fst] in *. by rewrite replies_cons.
    + pose proof (open_in_tunnel_replies w port head replied Hopen) as Hs. unfold may_reply in *.
      destruct (open_in_tunnel _ _ _ _) as [acts r]. cbn [fst] in *. by rewrite !replies_cons.
  - apply handle_direct_replies.
  - unfold may_reply. destruct replied; cbn [fst]; rewrite ?replies_cons, replies_nil; cbn; lia.
Qed.

(** A CONNECT client gets at most one reply when the name of its flow is not
    sniffed, or when the connection in the tunnel is opened. *)
Theorem connect_single_reply now m env set w target port :
  sniffs env set target = false \/ (exists ip u, w_resolve w = inl ip /\ w_open_tcp w = inl u) ->
  (replies (handle_connect now m env set w target port).1 <= 1)%nat.
Proof.
  intros Hor. unfold handle_connect. fold (sniffs env set target). destruct (sniffs env set target).
  - destruct Hor as [?|Hopen]; [done|]. apply reply_then_replies.
    destruct (w_sniff_head w) as [head|]; [|done].
    pose proof (connect_with_replies now m set w target port head
      (if bool_decide (head = []) then None else Sniff.hostname head) true (fun _ => Hopen)) as Hc.
    unfold may_reply in Hc. cbn zeta. lia.
  - by apply (connect_with_replies now m set w target port [] None false).
Qed.

(** A sniffed flow whose connection cannot be opened is sent a second reply
    after the first: the ten bytes of the failure arrive as data of the flow. *)
Theorem sniffed_failure_replies_twice now m env set w ip port head e :
  sniffs env set (TIp ip) = true -> w_reply w = true -> w_sniff_head w = Some head -> head <> [] ->
  decide_route set (TIp ip) (Sniff.hostname head) port = Proxy ->
  recalled_block now m set (TIp ip) port = None -> w_gateway w = None ->
  w_resolve w = inl ip -> w_open_tcp w = inr e ->
  handle_connect now m env set w (TIp ip) port
  = ([ReplyBound; OpenTcp (mkSocketAddr ip port); Reply REP_GENERAL], Err e).
Proof.
  intros Hs Hw Hh Hne Hd Hrec Hg Hr Ho. unfold handle_connect. fold (sniffs env set (TIp ip)).
  rewrite Hs, Hh. unfold reply_then. rewrite Hw. cbn zeta. rewrite bool_decide_eq_false_2 by done.
  unfold connect_with. cbn zeta. rewrite Hd, Hrec, Hg. cbn [default].
  destruct (_ && _), (should_use_gateway port); unfold open_in_tunnel; by rewrite Hr, Ho.
Qed.

(** The verdict of a flow, as the handler computes it. *)
Definition verdict (now : Z) (m : NameMemory) (env : bytes -> option bytes) (set : RuleSet) (w : World) (target : Target) (port : Z) : option Action :=
  if sniffs env set target then
    match w_sniff_head w with
    | None => None
    | Some [] => Some (decide_route set target None port)
    | Some head =>
        match Sniff.hostname head with
        | Some name => Some (decide_route set target (Some name) port)
        | None =>
            match decide_route set target None port with
            | Proxy => Some (default Proxy (recalled_block now m set target port))
            | d => Some d
            end
        end
    end
  else Some (decide_route set target None port).

Lemma reply_then_none (p : Act -> bool) w k :
  p ReplyBound = false -> existsb p k.1 = false -> existsb p (reply_then w k).1 = false.
Proof. intros Hp Hk. unfold reply_then. destruct (w_reply w); cbn; by rewrite Hp. Qed.

Lemma start_relay_no_direct w head leftover replied : existsb is_direct (start_relay w head leftover replied).1 = false.
Proof.
  unfold start_relay. cbn zeta. set (k := if bool_decide (head = []) then _ else _).
  assert (Hk : existsb is_direct k.1 = false) by (unfold k; repeat case_match; done).
  destruct replied; [done|by apply reply_then_none].
Qed.

Lemma open_in_tunnel_no_direct w port head replied : existsb is_direct (open_in_tunnel w port head replied).1 = false.
Proof.
  unfold open_in_tunnel. destruct (w_resolve w) as [ip|e]; [|done]. destruct (w_open_tcp w) as [u|e]; [|done].
  pose proof (start_relay_no_direct w head [] replied). by destruct (start_relay _ _ _ _).
Qed.

Lemma handle_direct_no_tunnel w target port head replied : existsb is_tunnel (handle_direct w target port head replied).1 = false.
Proof.
  unfold handle_direct. destruct (w_direct w); [|by destruct replied..].
  set (k := if replied then _ else _). assert (Hk : existsb is_tunnel k.1 = false).
  { unfold k. destruct replied; [done|by apply reply_then_none]. }
  destruct k as [acts r]. cbn in *. case_bool_decide; [done|]. by destruct (w_send_head w).
Qed.

(** What the actions after a verdict are limited to. *)
Definition respects (v : Action) (acts : list Act) : Prop :=
  match v with
  | Block => existsb is_tunnel acts = false /\ existsb is_direct acts = false
  | Direct => existsb is_tunnel acts = false
  | Proxy => existsb is_direct acts = false
  end.

Lemma connect_with_respects now m set w target port head named replied :
  let v := decide_route set target named port in
  let v := if bool_decide (v = Proxy) && bool_decide (named = None) && negb (bool_decide (head = []))
           then default v (recalled_block now m set target port) else v in
  respects v (connect_with now m set w target port head named replied).1.
Proof.
  cbn zeta. unfold connect_with. cbn zeta. destruct (if _ && _ then _ else _); cbn [respects].
  - destruct (if should_use_gateway port then _ else _) as [proxy|]; [|apply open_in_tunnel_no_direct].
    destruct (w_through_gateway w) as [leftover|e].
    + pose proof (start_relay_no_direct w head leftover replied). by destruct (start_relay _ _ _ _).
    + pose proof (open_in_tunnel_no_direct w port head replied). by destruct (open_in_tunnel _ _ _ _).
  - apply handle_direct_no_tunnel.
  - by destruct replied.
Qed.

Lemma respects_reply_then w v k : respects v k.1 -> respects v (reply_then w k).1.
Proof.
  destruct v; cbn [respects]; [by apply reply_then_none..|]. intros [? ?]. split; by apply reply_then_none.
Qed.

(** C3.  The CONNECT handler does what the routing rules say of the flow, whatever
    the outcomes of its connections: a blocked flow opens no connection, a direct
    flow none in the tunnel, a proxied flow none outside of it. *)
Theorem connect_respects_verdict now m env set w target port v :
  verdict now m env set w target port = Some v ->
  respects v (handle_connect now m env set w target port).1.
Proof.
  unfold verdict, handle_connect. fold (sniffs env set target). destruct (sniffs env set target).
  - destruct (w_sniff_head w) as [head|]; [|done]. intros Hv. apply respects_reply_then. cbn zeta.
    set (named := if bool_decide (head = []) then None else Sniff.hostname head).
    pose proof (connect_with_respects now m set w target port head named true) as Hc. cbn zeta in Hc.
    replace v with (if bool_decide (decide_route set target named port = Proxy) && bool_decide (named = None)
                       && negb (bool_decide (head = []))
                    then default (decide_route set target named port) (recalled_block now m set target port)
                    else decide_route set target named port); [done|].
    destruct head as [|b head].
    { injection Hv as <-. change (negb _) with false. by rewrite andb_false_r. }
    change named with (Sniff.hostname (b :: head)). change (negb _) with true. rewrite andb_true_r. destruct (Sniff.hostname (b :: head)) as [name|].
    + injection Hv as <-. rewrite (bool_decide_eq_false_2 (Some _ = None)) by done. by rewrite andb_false_r.
    + rewrite (bool_decide_eq_true_2 (None = None)), andb_true_r by done.
      destruct (decide_route set target None port); by injection Hv as <-.
  - intros [= <-]. pose proof (connect_with_respects now m set w target port [] None false) as Hc. cbn zeta in Hc.
    change (negb (bool_decide (@nil Z = []))) with false in Hc. by rewrite andb_false_r in Hc.
Qed.


(** ** DNS exchanges *)

(** The exchange with datagrams that do not answer the query left out. *)
Definition drop_unrelated (name : bytes) (qtype : Z) (x : Exchange) : Exchange :=
  mkExchange (x_server x) (x_id x) (x_send_error x)
    (List.filter (fun d => match dns_response_matches d (x_id x) name qtype with Ok ok => ok | _ => true end) (x_datagrams x))
    (x_closed x).

Lemma wait_answer_filter name qtype id ds :
  wait_answer name qtype id (List.filter (fun d => match dns_response_matches d id name qtype with Ok ok => ok | _ => true end) ds)
  = wait_answer name qtype id ds.
Proof.
  induction ds as [|d ds IH]; [done|]. cbn [List.filter wait_answer].
  destruct (dns_response_matches d id name qtype) as [[|]|e|] eqn:Hd; cbn [wait_answer]; rewrite ?Hd; rsimp; cbn [negb];
    [|exact IH|done..].
  destruct (catch _) as [[ip|]|e|]; [done| |done..]. rsimp. by case_bool_decide.
Qed.

Lemma dns_exchange_unrelated name qtype xs : forall last,
  dns_exchange name qtype last (map (drop_unrelated name qtype) xs) = dns_exchange name qtype last xs.
Proof.
  induction xs as [|x xs IH]; intros last; [done|]. cbn [map dns_exchange drop_unrelated x_send_error x_datagrams x_id x_closed x_server].
  rewrite wait_answer_filter, !IH. repeat case_match; done.
Qed.

Lemma dns_exchange_total name qtype xs : forall last,
  Forall (fun x => Forall all_bytes (x_datagrams x)) xs -> dns_exchange name qtype last xs <> Panic.
Proof.
  induction xs as [|x xs IH]; intros last Hx; [done|]. apply Forall_cons in Hx as [Hd Hx]. cbn [dns_exchange].
  destruct (x_send_error x); [by apply IH|].
  assert (exists r, wait_answer name qtype (x_id x) (x_datagrams x) = Ok r) as [r ->].
  { induction Hd as [|d ds Hb _ IHd]; [by eexists|]. cbn [wait_answer].
    destruct (dns_response_matches_no_panic d (x_id x) name qtype) as [ok ->]. rsimp.
    destruct ok; cbn [negb]; [|done]. pose proof (parse_dns_answer_no_panic d qtype Hb) as Hp.
    destruct (parse_dns_answer d qtype); [|clear Hp|done]; cbn [catch]; rsimp; [by eexists|].
    case_bool_decide; by eexists. }
  destruct r; [done|]. destruct (x_closed x); [done|by apply IH].
Qed.

(** Resolving a name in the tunnel never panics, and datagrams that do not
    answer the query (another identifier, another name or type, not a response)
    never change its outcome, however many arrive and in whatever order. *)
Theorem resolve_ignores_unrelated target a aaaa :
  Forall (fun x => Forall all_bytes (x_datagrams x)) (a ++ aaaa) ->
  resolve target a aaaa <> Panic
  /\ resolve target a aaaa
     = match target with
       | TIp _ => resolve target [] []
       | TDomain name =>
           resolve target (map (drop_unrelated name QTYPE_A) a) (map (drop_unrelated name QTYPE_AAAA) aaaa)
       end.
Proof.
  intros [Ha Haaaa]%Forall_app. destruct target as [ip|name]; [done|]. cbn [resolve].
  destruct (parse_ip name); [done|]. unfold resolve_preferring_v4. cbn zeta. rewrite !dns_exchange_unrelated.
  split; [|done]. pose proof (dns_exchange_total name QTYPE_A a (Other (lit "dns timeout")) Ha) as Hp.
  destruct (dns_exchange name QTYPE_A _ a) as [[ip| |]|e|]; try done.
  rsimp. pose proof (dns_exchange_total name QTYPE_AAAA aaaa (Other (lit "dns timeout")) Haaaa) as Hp'.
  by destruct (dns_exchange name QTYPE_AAAA _ aaaa) as [[ip| |]|e|].
Qed.

End theorems.

(** ** Witnesses *)

Section examples.
#[local] Existing Instances ascii_case Routing.prefix_nets Routing.literal_regex.

Definition example_set : RuleSet := RuleSet_parse (lit "ads.example") (lit "10.0.0.0/8").
Definition example_peer : SocketAddr := mkSocketAddr (V4 (v4_new 192 168 1 2)) 4000.
Definition example_world : World :=
  mkWorld example_peer (Some [1; 2; 3]) None (inl []) (inl (V4 (v4_new 1 1 1 1))) (inr (Other (lit "closed")))
    DirectConnected true true true.

Lemma assoc_run_safe_witness :
  exists s log, reach example_set example_peer (V4 (v4_new 192 168 1 2)) s log
    /\ client s = Some example_peer /\ assoc_inv (V4 (v4_new 192 168 1 2)) s.
Proof.
  pose (d := enc_udp_request (TIp (V4 (v4_new 1 1 1 1))) 443 [9]).
  assert (Hr : reach example_set example_peer (V4 (v4_new 192 168 1 2)) (mkAssoc (Some example_peer) 0 ∅ false)
    ([] ++ [(0, assoc_init ∅, FromClient d example_peer None None, [ToStack (mkSocketAddr (V4 (v4_new 1 1 1 1)) 443) [9]])])).
  { apply reach_step; [apply reach_init; vm_compute; congruence|reflexivity| |vm_compute; reflexivity].
    repeat constructor; vm_compute; congruence. }
  do 2 eexists. split; [exact Hr|]. split; [reflexivity|]. apply (assoc_run_safe _ _ _ _ _ Hr).
Defined.

Lemma connect_single_reply_witness :
  (replies (handle_connect 0 ∅ (fun _ => None) example_set example_world (TDomain (lit "a.test")) 443).1 <= 1)%nat.
Proof. apply connect_single_reply. left. reflexivity. Defined.

Lemma sniffed_failure_replies_twice_witness :
  handle_connect 0 ∅ (fun _ => None) example_set example_world (TIp (V4 (v4_new 1 1 1 1))) 443
  = ([ReplyBound; OpenTcp (mkSocketAddr (V4 (v4_new 1 1 1 1)) 443); Reply 1], Err (Other (lit "closed"))).
Proof.
  apply (sniffed_failure_replies_twice 0 ∅ (fun _ => None) example_set example_world (V4 (v4_new 1 1 1 1)) 443 [1; 2; 3]
    (Other (lit "closed"))); (discriminate || (vm_compute; reflexivity)).
Defined.

Lemma connect_respects_verdict_witness :
  existsb is_tunnel (handle_connect 0 ∅ (fun _ => None) example_set example_world (TIp (V4 (v4_new 10 1 1 1))) 443).1 = false.
Proof.
  apply (connect_respects_verdict 0 ∅ (fun _ => None) example_set example_world (TIp (V4 (v4_new 10 1 1 1))) 443 Direct).
  vm_compute. reflexivity.
Defined.

Lemma resolve_ignores_unrelated_witness :
  resolve (TDomain (lit "a.test")) [mkExchange example_peer 7 None [[1; 2]; [0; 7; 0]] false] [] <> Panic.
Proof.
  apply (resolve_ignores_unrelated (TDomain (lit "a.test")) [mkExchange example_peer 7 None [[1; 2]; [0; 7; 0]] false] []).
  repeat constructor; vm_compute; congruence.
Defined.
End examples.

End SocksRelay.
