(* ===== verification/HttpProxy.v ===== *)
(** * The HTTP proxy ([aether/src/socks.rs], the HTTP side)

    The head of a request, read in pieces; its request line; the handlers as the
    list of the actions they take: answers to the client, connections, bytes sent
    to the server, relays.  What sockets and the tunnel give is an argument. *)

From S2P Require Import Prelude Str Ip Text Error Routing SocksWire SocksRelay Upstream.
Local Open Scope Z_scope.

Module HttpProxy.
Import Error Routing SocksWire SocksRelay.

Definition HTTP_HEAD_LIMIT : Z := 16 * 1024.
Definition CRLF : bytes := [13; 10].

(** ** The request line *)

Record HttpRequestLine := mkRequestLine {
  method : bytes; authority : bytes; port : Z; rewritten : option bytes
}.

Definition parse_authority (raw : bytes) (default_port : Z) : option (bytes * Z) :=
  let raw := trim raw in
  if bool_decide (raw = []) then None
  else
    match strip_prefix [91] raw with
    | Some rest =>
        '(host, tail) ← split_once 93 rest;
        if bool_decide (host = []) then None
        else
          port ← match strip_prefix [58] tail with
                 | Some value => parse_u16 value
                 | None => Some default_port
                 end;
          Some (host, port)
    | None =>
        match rsplit_once 58 raw with
        | Some (host, port) =>
            if negb (contains_char 58 host) then
              if bool_decide (host = []) then None
              else port ← parse_u16 port; Some (host, port)
            else Some (raw, default_port)
        | None => Some (raw, default_port)
        end
    end.

Definition parse_request_line (line : bytes) : option HttpRequestLine :=
  let parts := split_whitespace line in
  method ← parts !! 0%nat;
  target ← parts !! 1%nat;
  let version := default (lit "HTTP/1.1") (parts !! 2%nat) in
  if eq_ignore_ascii_case method (lit "CONNECT") then
    '(authority, port) ← parse_authority target 443;
    Some (mkRequestLine method authority port None)
  else
    without_scheme ← match strip_prefix (lit "http://") target with
                     | Some rest => Some rest
                     | None => strip_prefix (lit "HTTP://") target
                     end;
    let '(authority_part, path) :=
      match find_char 47 without_scheme with
      | Some index => (sub without_scheme 0 index, sub without_scheme index (blen without_scheme))
      | None => (without_scheme, [47])
      end in
    '(authority, port) ← parse_authority authority_part 80;
    Some (mkRequestLine method authority port (Some (method ++ [32] ++ path ++ [32] ++ version ++ CRLF))).

(** ** The head of a request *)

Definition closed_early : AetherError := Other (lit "the http client closed before sending a request").
Definition head_too_large : AetherError := Other (lit "http request head too large").
Definition head_timeout : AetherError := Other (lit "the client did not send a request head in time").

(** The chunks of the socket, each a read of up to 2048 bytes (an empty one is the end
    of the stream) or an error; when they run out the deadline has passed.  The head,
    the bytes received with it, and the chunks not yet read. *)
Fixpoint read_head (buf : bytes) (chunks : list (bytes + bytes))
  : res AetherError (bytes * bytes * list (bytes + bytes)) :=
  match chunks with
  | [] => Err head_timeout
  | inr error :: _ => Err (Io error)
  | inl chunk :: chunks =>
      if bool_decide (chunk = []) then Err closed_early
      else
        let search_from := saturating_sub (blen buf) 3 in
        let buf := buf ++ chunk in
        tail ← slice buf search_from (blen buf);
        match find_sub [13; 10; 13; 10] tail with
        | Some pos =>
            let at_ := search_from + pos + 4 in
            head ← slice buf 0 at_; early ← slice buf at_ (blen buf);
            Ok (head, early, chunks)
        | None => if HTTP_HEAD_LIMIT <? blen buf then Err head_too_large else read_head buf chunks
        end
  end.

(** ** The handlers *)

Inductive HAct :=
| Answer (text : bytes)
| OpenGateway (proxy : SocketAddr) (authority : bytes) (port : Z)
| RetireGateway
| OpenTcp (dst : SocketAddr)
| ConnectThrough (host : bytes) (port : Z)
| ConnectDirect (host : bytes) (port : Z)
| WriteClient (data : bytes)
| SendServer (data : bytes)
| RelayTunneled
| RelayGeneric
| RelayDirect.

(** The outcomes of what the handlers wait for. *)
Record HWorld := mkHWorld {
  h_gateway : option SocketAddr;
  h_through_gateway : bytes + AetherError;
  h_resolve : IpAddr + AetherError;
  h_open_tcp : unit + AetherError;
  h_connect : unit + bytes;
  h_direct : unit + (SocksRelay.ErrorKind * bytes);
  h_answer : bool;
  h_leftover : bool;
  h_preamble : bool;
  h_early : bool;
}.

Definition BAD_REQUEST : bytes := lit "HTTP/1.1 400 Bad Request" ++ CRLF ++ lit "Connection: close" ++ CRLF ++ CRLF.
Definition FORBIDDEN : bytes := lit "HTTP/1.1 403 Forbidden" ++ CRLF ++ lit "Connection: close" ++ CRLF ++ CRLF.
Definition BAD_GATEWAY : bytes := lit "HTTP/1.1 502 Bad Gateway" ++ CRLF ++ lit "Connection: close" ++ CRLF ++ CRLF.
Definition ESTABLISHED : bytes := lit "HTTP/1.1 200 Connection established" ++ CRLF ++ CRLF.

Abbreviation run := (list HAct * res AetherError unit)%type.
Definition do_ (a : HAct) (k : run) : run := (a :: k.1, k.2).
(** An action that may fail: go on, or end with [e]. *)
Definition try_ (a : HAct) (ok : bool) (e : res AetherError unit) (k : run) : run := if ok then do_ a k else ([a], e).
Definition write_failed : res AetherError unit := Err (Io (lit "write failed")).

(** What is sent to the server instead of the head: the rewritten request line and the
    rest of the head, as text. *)
Definition preamble (request : HttpRequestLine) (text : bytes) : option bytes :=
  (fun line => line ++ match split_once_str CRLF text with Some (_, tail) => tail | None => [] end) <$> rewritten request.

Definition relay_http_direct (w : HWorld) (request : HttpRequestLine) (head early : bytes) : run :=
  do_ (ConnectDirect (authority request) (port request))
    match h_direct w with
    | inr (kind, text) =>
        let answer := if bool_decide (kind = SocksRelay.PermissionDenied) then FORBIDDEN else BAD_GATEWAY in
        ([Answer answer], Err (Io text))
    | inl _ =>
        let rest := if bool_decide (early = []) then ([RelayDirect], Ok tt)
                    else try_ (SendServer early) (h_early w) write_failed ([RelayDirect], Ok tt) in
        match preamble request (from_utf8_lossy head) with
        | Some bytes => try_ (SendServer bytes) (h_preamble w) write_failed rest
        | None => try_ (Answer ESTABLISHED) (h_answer w) write_failed rest
        end
    end.

(** [open_tunneled]: the actions it takes, and the bytes that came with a gateway's
    answer, or the error. *)
Definition open_tunneled (w : HWorld) (target : Target) (port : Z) : list HAct * (bytes + AetherError) :=
  let straight :=
    match h_resolve w with
    | inr e => ([], inr e)
    | inl ip =>
        ([OpenTcp (mkSocketAddr ip port)],
         match h_open_tcp w with inr e => inr e | inl _ => inl [] end)
    end in
  let via_gateway := if should_use_gateway port then h_gateway w else None in
  match via_gateway with
  | Some proxy =>
      let authority := match target with TDomain name => name | TIp ip => ip_to_string ip end in
      match h_through_gateway w with
      | inl leftover => ([OpenGateway proxy authority port], inl leftover)
      | inr _ => (OpenGateway proxy authority port :: RetireGateway :: straight.1, straight.2)
      end
  | None => straight
  end.

Section handlers.
Context `{UnicodeCase, IpNetCrate, RegexCrate}.

Definition request_target (request : HttpRequestLine) : Target :=
  match parse_ip (authority request) with Some ip => TIp ip | None => TDomain (authority request) end.

Definition first_line (text : bytes) : bytes := default [] (lines text !! 0%nat).

(** The part of [handle_http_client] after the tunnel is open. *)
Definition start_http (w : HWorld) (request : HttpRequestLine) (text early leftover : bytes) : run :=
  let relay := ([RelayTunneled], Ok tt) in
  let after_preamble := if bool_decide (early = []) then relay else try_ (SendServer early) (h_early w) (Ok tt) relay in
  let after_leftover :=
    match preamble request text with
    | Some bytes => try_ (SendServer bytes) (h_preamble w) (Ok tt) after_preamble
    | None => after_preamble
    end in
  let after_answer :=
    if bool_decide (leftover = []) then after_leftover
    else try_ (WriteClient leftover) (h_leftover w) (Ok tt) after_leftover in
  if bool_decide (rewritten request = None) then try_ (Answer ESTABLISHED) (h_answer w) write_failed after_answer
  else after_answer.

(** What follows the head of a request. *)
Definition http_request (set : RuleSet) (w : HWorld) (head early : bytes) : run :=
  let text := from_utf8_lossy head in
  let first_line := first_line text in
  match parse_request_line first_line with
  | None => ([Answer BAD_REQUEST], Err (Other (lit "unsupported http proxy request: " ++ first_line)))
  | Some request =>
      let target := request_target request in
      match decide set (SocksRelay.host_of target) (port request) with
      | Block => ([Answer FORBIDDEN], Ok tt)
      | Direct => relay_http_direct w request head early
      | Proxy =>
          let '(acts, opened) := open_tunneled w target (port request) in
          let k := match opened with
                   | inr e => ([Answer BAD_GATEWAY], Err e)
                   | inl leftover => start_http w request text early leftover
                   end in
          (acts ++ k.1, k.2)
      end
  end.

Definition handle_http_client (set : RuleSet) (w : HWorld) (chunks : list (bytes + bytes)) : run :=
  match read_head [] chunks with
  | Err e => ([], Err e)
  | Panic => ([], Panic)
  | Ok (head, early, _) => http_request set w head early
  end.

(** [handle_http_through]: the same with a connector in place of the tunnel. *)
Definition http_request_through (set : RuleSet) (w : HWorld) (head early : bytes) : run :=
  let text := from_utf8_lossy head in
  let first_line := first_line text in
  match parse_request_line first_line with
  | None => ([Answer BAD_REQUEST], Err (Other (lit "unsupported http proxy request: " ++ first_line)))
  | Some request =>
      let target := request_target request in
      match decide set (SocksRelay.host_of target) (port request) with
      | Block => ([Answer FORBIDDEN], Ok tt)
      | Direct => relay_http_direct w request head early
      | Proxy =>
          do_ (ConnectThrough (authority request) (port request))
            match h_connect w with
            | inr error =>
                ([Answer BAD_GATEWAY], Err (Other (authority request ++ [58] ++ dec (port request) ++ lit ": " ++ error)))
            | inl _ =>
                let rest := if bool_decide (early = []) then ([RelayGeneric], Ok tt)
                            else try_ (SendServer early) (h_early w) write_failed ([RelayGeneric], Ok tt) in
                match preamble request text with
                | Some bytes => try_ (SendServer bytes) (h_preamble w) write_failed rest
                | None => try_ (Answer ESTABLISHED) (h_answer w) write_failed rest
                end
            end
      end
  end.
Definition handle_http_through (set : RuleSet) (w : HWorld) (chunks : list (bytes + bytes)) : run :=
  match read_head [] chunks with
  | Err e => ([], Err e)
  | Panic => ([], Panic)
  | Ok (head, early, _) => http_request_through set w head early
  end.
End handlers.

Example parse_request_line_ex1 : parse_request_line (lit "GET http://a.example:8080/x?y HTTP/1.0")
  = Some (mkRequestLine (lit "GET") (lit "a.example") 8080 (Some (lit "GET /x?y HTTP/1.0" ++ CRLF))).
Proof. reflexivity. Qed.
Example parse_request_line_ex2 : parse_request_line (lit "connect [::1]:443") = Some (mkRequestLine (lit "connect") (lit "::1") 443 None).
Proof. reflexivity. Qed.
Example parse_request_line_ex3 : parse_request_line (lit "GET /index.html HTTP/1.1") = None.
Proof. reflexivity. Qed.
Example parse_authority_ex : parse_authority (lit "::1") 443 = Some (lit "::1", 443) /\ parse_authority (lit ":80") 443 = None.
Proof. done. Qed.

(** ** The head does not depend on how it is cut *)

Lemma sub_search (body : bytes) chunk :
  find_sub [13; 10; 13; 10] body = None ->
  let from := saturating_sub (blen body) 3 in
  find_sub [13; 10; 13; 10] (body ++ chunk)
  = (fun i => from + i) <$> find_sub [13; 10; 13; 10] (sub (body ++ chunk) from (blen (body ++ chunk))).
Proof.
  intros Hn from. pose proof (blen_nonneg body). pose proof (blen_nonneg chunk).
  pose proof (find_sub_resume [13; 10; 13; 10] (body ++ chunk) 0 (blen body) ltac:(lia) ltac:(lia) ltac:(blia) ltac:(done)) as Hr.
  rewrite (sub_app_l body chunk), sub_all in Hr by lia. specialize (Hr Hn).
  change (blen [13; 10; 13; 10] - 1) with 3 in Hr. cbn zeta in Hr. rewrite sub_all in Hr. rewrite Hr.
  unfold from, saturating_sub. replace (Z.max (Z.max (blen body - 3) 0) 0) with (Z.max (blen body - 3) 0) by lia.
  apply option_fmap_ext. intros j. lia.
Qed.

(** A head of up to 16 KiB is found whatever the chunks it comes in: it ends with the
    first empty line, and no byte after it is lost. *)
Lemma read_head_chunks all i chunks :
  find_sub [13; 10; 13; 10] all = Some i -> i + 4 <= HTTP_HEAD_LIMIT ->
  Forall (fun c => c <> []) chunks -> concat chunks = all ->
  exists early rest, read_head [] (map inl chunks) = Ok (sub all 0 (i + 4), early, map inl rest)
    /\ early ++ concat rest = sub all (i + 4) (blen all) /\ Forall (fun c => c <> []) rest.
Proof.
  intros Hf Hlim Hne Hall. destruct (find_sub_bounds _ _ _ Hf) as [Hi0 Hi]. change (blen [13; 10; 13; 10]) with 4 in Hi.
  enough (forall chunks buf, Forall (fun c => c <> []) chunks -> buf ++ concat chunks = all -> find_sub [13; 10; 13; 10] buf = None ->
    exists early rest, read_head buf (map inl chunks) = Ok (sub all 0 (i + 4), early, map inl rest)
      /\ early ++ concat rest = sub all (i + 4) (blen all) /\ Forall (fun c => c <> []) rest) as Hgen by (by apply Hgen).
  clear chunks Hne Hall. induction chunks as [|c chunks IH]; intros buf Hne Hall Hn; cbn [map concat read_head] in *.
  { rewrite app_nil_r in Hall. subst. congruence. }
  apply Forall_cons in Hne as [Hc Hne]. rewrite bool_decide_eq_false_2 by done. cbn zeta.
  rewrite app_assoc in Hall. pose proof (sub_search buf c Hn) as Hs. cbn zeta in Hs. set (from := saturating_sub (blen buf) 3) in *.
  pose proof (blen_nonneg buf). pose proof (blen_nonneg c).
  assert (0 <= from <= blen buf) as Hfrom by (unfold from, saturating_sub; lia). clearbody from.
  rewrite slice_ok by blia. rsimp. destruct (find_sub [13; 10; 13; 10] (sub (buf ++ c) from (blen (buf ++ c)))) as [pos|].
  - cbn in Hs. pose proof (find_sub_app _ _ (concat chunks) _ Hs) as Hs'. rewrite Hall in Hs'. rewrite Hf in Hs'. injection Hs' as Hs'.
    apply find_sub_bounds in Hs as [_ Hs]. change (blen [13; 10; 13; 10]) with 4 in Hs.
    replace (from + pos + 4) with (i + 4) by lia. rewrite slice_ok by lia. rsimp. rewrite slice_ok by lia. rsimp. eexists _, chunks. rewrite <- Hall. rewrite (sub_app_l (buf ++ c)) by lia. split; [done|].
    split; [|done]. by rewrite (sub_to_end (buf ++ c) (concat chunks)) by lia.
  - cbn in Hs. rewrite (proj2 (Z.ltb_ge _ _)); [by apply IH|].
    destruct (Z.le_gt_cases (blen (buf ++ c)) HTTP_HEAD_LIMIT); [done|]. exfalso. rewrite <- Hall in Hf.
    apply find_sub_within in Hf; [congruence|]. change (blen [13; 10; 13; 10]) with 4. lia.
Qed.

(** ** The verdict is respected *)

Definition is_direct (a : HAct) : bool := match a with ConnectDirect _ _ | RelayDirect => true | _ => false end.
Definition is_tunnel (a : HAct) : bool :=
  match a with OpenGateway _ _ _ | RetireGateway | OpenTcp _ | ConnectThrough _ _ | RelayTunneled | RelayGeneric => true | _ => false end.

Lemma try_existsb p a ok e k : existsb p (try_ a ok e k).1 = p a || (ok && existsb p k.1).
Proof. unfold try_, do_. destruct ok; cbn; by rewrite ?orb_false_r. Qed.

Section theorems.
Context `{UnicodeCase, IpNetCrate, RegexCrate}.

Lemma relay_http_direct_no_tunnel w request head early : existsb is_tunnel (relay_http_direct w request head early).1 = false.
Proof.
  unfold relay_http_direct. cbn [do_ fst existsb is_tunnel orb]. destruct (h_direct w) as [_|[kind text]]; [|done].
  destruct (preamble request (from_utf8_lossy head)); rewrite try_existsb; cbn [is_tunnel orb];
    case_bool_decide; rewrite ?try_existsb; cbn; by rewrite ?andb_false_r.
Qed.

Lemma start_http_no_direct w request text early leftover : existsb is_direct (start_http w request text early leftover).1 = false.
Proof.
  unfold start_http. destruct (bool_decide (rewritten request = None)), (bool_decide (leftover = [])), (preamble request text), (bool_decide (early = []));
    rewrite ?try_existsb; cbn; by rewrite ?andb_false_r.
Qed.

(** C16.  A blocked request gets 403 and nothing else happens; a direct one makes no use of
    the tunnel; a proxied one none of a direct connection; whatever connections and
    writes do.  The same for the proxy in front of a connector. *)
Theorem http_respects_verdict set w head early request :
  parse_request_line (first_line (from_utf8_lossy head)) = Some request ->
  match decide set (host_of (request_target request)) (port request) with
  | Block => http_request set w head early = ([Answer FORBIDDEN], Ok tt) /\ http_request_through set w head early = ([Answer FORBIDDEN], Ok tt)
  | Direct => existsb is_tunnel (http_request set w head early).1 = false
              /\ existsb is_tunnel (http_request_through set w head early).1 = false
  | Proxy => existsb is_direct (http_request set w head early).1 = false
             /\ existsb is_direct (http_request_through set w head early).1 = false
  end.
Proof.
  intros Hp. unfold http_request, http_request_through. rewrite Hp.
  destruct (decide set (host_of (request_target request)) (port request)); [|by split; apply relay_http_direct_no_tunnel|done].
  split.
  - assert (existsb is_direct (open_tunneled w (request_target request) (port request)).1 = false) as Ho.
    { unfold open_tunneled. destruct (if should_use_gateway _ then _ else _) as [proxy|]; destruct (h_resolve w); try done;
        destruct (h_through_gateway w); done. }
    destruct (open_tunneled w (request_target request) (port request)) as [acts [leftover|e]]; cbn [fst] in *.
    + by rewrite existsb_app, Ho, start_http_no_direct.
    + by rewrite existsb_app, Ho.
  - cbn [do_ fst existsb is_direct orb]. destruct (h_connect w) as [_|error]; [|done].
    destruct (preamble request (from_utf8_lossy head)); rewrite try_existsb; cbn [is_direct orb];
      case_bool_decide; rewrite ?try_existsb; cbn; by rewrite ?andb_false_r.
Qed.

(** ** What the server gets *)

Definition sent (acts : list HAct) : bytes := concat (map (fun a => match a with SendServer d => d | _ => [] end) acts).
Definition answers (acts : list HAct) : list bytes := omap (fun a => match a with Answer t => Some t | _ => None end) acts.

(** Every connection and every write succeeds. *)
Definition all_well (w : HWorld) : Prop :=
  (exists ip, h_resolve w = inl ip) /\ h_open_tcp w = inl tt /\ h_connect w = inl tt /\ h_direct w = inl tt
  /\ (exists leftover, h_through_gateway w = inl leftover)
  /\ h_answer w = true /\ h_leftover w = true /\ h_preamble w = true /\ h_early w = true.

Lemma http_request_sent set w head early request pre :
  all_well w -> parse_request_line (first_line (from_utf8_lossy head)) = Some request ->
  decide set (host_of (request_target request)) (port request) <> Block ->
  default [] (preamble request (from_utf8_lossy head)) = pre ->
  (http_request set w head early).2 = Ok tt /\ sent (http_request set w head early).1 = pre ++ early
  /\ answers (http_request set w head early).1 = match rewritten request with Some _ => [] | None => [ESTABLISHED] end.
Proof.
  intros ((ip & Hr) & Ho & Hc & Hd & (leftover & Hg) & Ha & Hl & Hpre & He) Hp Hv Hpr. unfold http_request. rewrite Hp. clear Hp.
  assert (forall l, preamble request l = None <-> rewritten request = None) as Hrew by (intros l; unfold preamble; by destruct (rewritten request)).
  destruct (decide set (host_of (request_target request)) (port request)); [| |done]; clear Hv.
  - assert (exists acts lo, open_tunneled w (request_target request) (port request) = (acts, inl lo) /\ sent acts = [] /\ answers acts = []) as (acts & lo & -> & Hs & Hans).
    { unfold open_tunneled. destruct (if should_use_gateway _ then _ else _); rewrite ?Hg, ?Hr, ?Ho; eauto. }
    unfold start_http. rewrite Ha, Hl, Hpre, He. unfold sent, answers in *. cbn [fst snd].
    rewrite map_app, concat_app, Hs, omap_app, Hans. cbn [app]. clear Hs Hans acts.
    destruct (preamble request (from_utf8_lossy head)) as [bytes|] eqn:Hpa.
    + destruct (rewritten request) eqn:Hre; [|by rewrite (proj2 (Hrew _) eq_refl) in Hpa]. cbn in Hpr. subst pre.
      rewrite bool_decide_eq_false_2 by done. case_bool_decide; case_bool_decide; subst; cbn; rewrite ?app_nil_r; done.
    + apply Hrew in Hpa. rewrite Hpa. cbn in Hpr. subst pre.
      rewrite bool_decide_eq_true_2 by done. case_bool_decide; case_bool_decide; subst; cbn; rewrite ?app_nil_r; done.
  - unfold relay_http_direct. rewrite Hd, Ha, Hpre, He. unfold sent, answers. cbn [fst snd do_].
    destruct (preamble request (from_utf8_lossy head)) as [bytes|] eqn:Hpa.
    + destruct (rewritten request) eqn:Hre; [|by rewrite (proj2 (Hrew _) eq_refl) in Hpa]. cbn in Hpr. subst pre.
      case_bool_decide; subst; cbn; rewrite ?app_nil_r; done.
    + apply Hrew in Hpa. rewrite Hpa. cbn in Hpr. subst pre.
      case_bool_decide; subst; cbn; rewrite ?app_nil_r; done.
Qed.

(** A request in absolute form, as a client sends it to a proxy. *)
Definition word (w : bytes) : Prop := forallb plain w = true /\ w <> [].
Definition absolute_line (method_ auth path version : bytes) : bytes :=
  method_ ++ [32] ++ lit "http://" ++ auth ++ path ++ [32] ++ version.

Lemma plain_no_char c w : plain c = false -> forallb plain w = true -> no_char c w = true.
Proof. intros Hc. by apply forallb_no_char. Qed.

Lemma parse_absolute method_ auth path version host_ port_ :
  word method_ -> eq_ignore_ascii_case method_ (lit "CONNECT") = false -> word auth -> no_char 47 auth = true ->
  forallb plain path = true -> head path = Some 47 -> word version -> parse_authority auth 80 = Some (host_, port_) ->
  parse_request_line (absolute_line method_ auth path version)
  = Some (mkRequestLine method_ host_ port_ (Some (method_ ++ [32] ++ path ++ [32] ++ version ++ CRLF))).
Proof.
  intros Hm Hnc Ha Hn Hp Hh Hv Hauth. unfold parse_request_line, absolute_line.
  assert (split_whitespace (method_ ++ [32] ++ lit "http://" ++ auth ++ path ++ [32] ++ version) = [method_; lit "http://" ++ auth ++ path; version]) as ->.
  { rewrite <- (split_whitespace_words [method_; lit "http://" ++ auth ++ path; version]).
    - cbn [spaced map concat]. f_equal. rewrite app_nil_r. solve_app.
    - constructor; [done|]. constructor; [|by constructor]. destruct Ha as [Ha _]. rewrite !forallb_app, Ha, Hp. done. }
  cbn [lookup list_lookup mbind option_bind default]. rewrite Hnc. cbn iota.
  assert (strip_prefix (lit "http://") (lit "http://" ++ auth ++ path) = Some (auth ++ path)) as -> by done. cbn [mbind option_bind].
  destruct path as [|b path]; [done|]. injection Hh as ->.
  assert (find_char 47 (auth ++ 47 :: path) = Some (blen auth)) as ->.
  { clear -Hn. induction auth as [|b auth IH]; [done|]. cbn [no_char forallb] in Hn. apply andb_prop in Hn as [Hb Hn].
    apply negb_true_iff in Hb. cbn [app find_char]. rewrite Z.eqb_sym, Hb, IH by done. cbn. f_equal. rewrite blen_cons. apply Z.add_comm. }
  rewrite (sub_at (auth ++ 47 :: path) [] auth (47 :: path) 0 (blen auth)) by done.
  rewrite (sub_at (auth ++ 47 :: path) auth (47 :: path) []) by (by rewrite ?app_nil_r, ?blen_app).
  by rewrite Hauth.
Qed.

(** What a request line is made of. *)
Definition line_char (b : Z) : bool := plain b || (b =? 32).
Lemma plain_line_char s : forallb plain s = true -> forallb line_char s = true.
Proof. apply forallb_impl. intros x Hx. unfold line_char. by rewrite Hx. Qed.
Lemma line_char_ascii s : forallb line_char s = true -> str_is_ascii s = true.
Proof. apply forallb_impl. intros x. unfold line_char, plain. destruct (is_ascii x) eqn:Hx; [done|]. cbn. intros ->%Z.eqb_eq. done. Qed.
Lemma absolute_line_chars method_ auth path version :
  word method_ -> word auth -> forallb plain path = true -> word version -> forallb line_char (absolute_line method_ auth path version) = true.
Proof. intros [Hm _] [Ha _] Hp [Hv _]. unfold absolute_line. rewrite !forallb_app, (plain_line_char method_), (plain_line_char auth), (plain_line_char path), (plain_line_char version) by done. done. Qed.
Lemma first_line_crlf line rest : forallb line_char line = true -> first_line (line ++ CRLF ++ rest) = line.
Proof. intros Hl. unfold first_line, CRLF. rewrite lines_first by (by apply (forallb_no_char line_char)). done. Qed.

(** A request in absolute form that is not blocked reaches the server in origin form,
    whatever pieces it comes in: method, path and version, the rest of the head as it
    was, then the bytes that came with the head; the others stay for the relay, and the
    client gets no answer of the proxy's own. *)
Theorem http_request_forwarded set w method_ auth path version rest body host_ port_ chunks :
  let line := absolute_line method_ auth path version in
  all_well w ->
  word method_ -> eq_ignore_ascii_case method_ (lit "CONNECT") = false -> word auth -> no_char 47 auth = true ->
  forallb plain path = true -> head path = Some 47 -> word version ->
  str_is_ascii rest = true -> parse_authority auth 80 = Some (host_, port_) ->
  decide set (host_of (match parse_ip host_ with Some ip => TIp ip | None => TDomain host_ end)) port_ <> Block ->
  blen (line ++ CRLF ++ rest) <= HTTP_HEAD_LIMIT ->
  find_sub [13; 10; 13; 10] (line ++ CRLF ++ rest ++ body) = Some (blen (line ++ CRLF ++ rest) - 4) ->
  Forall (fun c => c <> []) chunks -> concat chunks = line ++ CRLF ++ rest ++ body ->
  exists early later, body = early ++ concat later
  /\ let acts := handle_http_client set w (map inl chunks) in
     acts.2 = Ok tt /\ answers acts.1 = []
     /\ sent acts.1 = (method_ ++ [32] ++ path ++ [32] ++ version ++ CRLF ++ rest) ++ early.
Proof.
  intros line Hw Hm Hnc Ha Hn Hp Hh Hv Hr Hauth Hd Hlim Hf Hne Hcat.
  destruct (read_head_chunks _ _ chunks Hf ltac:(lia) Hne Hcat) as (early & later & Hread & Hbody & _).
  replace (line ++ CRLF ++ rest ++ body) with ((line ++ CRLF ++ rest) ++ body) in Hread, Hbody by solve_app.
  replace (blen (line ++ CRLF ++ rest) - 4 + 4) with (blen (line ++ CRLF ++ rest)) in Hread, Hbody by lia.
  rewrite sub_app_l, sub_all in Hread by lia.
  rewrite (sub_at _ (line ++ CRLF ++ rest) body []) in Hbody by (by rewrite ?app_nil_r, ?(blen_app _ body)).
  exists early, later. split; [done|]. unfold handle_http_client. rewrite Hread. clear Hread Hbody Hf Hcat.
  pose proof (absolute_line_chars method_ auth path version Hm Ha Hp Hv) as Hline. fold line in Hline.
  assert (from_utf8_lossy (line ++ CRLF ++ rest) = line ++ CRLF ++ rest) as Ht.
  { apply lossy_ascii. rewrite !str_is_ascii_app, Hr, line_char_ascii by done. done. }
  assert (parse_request_line line = Some (mkRequestLine method_ host_ port_ (Some (method_ ++ [32] ++ path ++ [32] ++ version ++ CRLF)))) as Hpl
    by (by apply parse_absolute).
  destruct (http_request_sent set w (line ++ CRLF ++ rest) early
    (mkRequestLine method_ host_ port_ (Some (method_ ++ [32] ++ path ++ [32] ++ version ++ CRLF)))
    (method_ ++ [32] ++ path ++ [32] ++ version ++ CRLF ++ rest)) as (H1' & H2' & H3'); [done| |done| |done].
  - by rewrite Ht, first_line_crlf.
  - rewrite Ht. unfold preamble. cbn [rewritten fmap option_fmap option_map default]. unfold CRLF at 2.
    rewrite split_once_crlf by (by apply (forallb_no_char line_char)). unfold id. solve_app.
Qed.
End theorems.

(** ** The client of [upstream.rs] and this proxy *)

Lemma parse_authority_socket a d : sa_wf a -> parse_authority (sa_to_string a) d = Some (ip_to_string (sa_ip a), sa_port a).
Proof.
  intros [Hip Hport]. pose proof (sa_to_string_char a ltac:(lia)) as Hc. unfold parse_authority.
  rewrite trim_all_plain by (by apply (forallb_impl _ _ _ addr_char_plain)).
  assert (parse_u16 (dec (sa_port a)) = Some (sa_port a)) as Hp by (apply parse_uint_dec; unfold U16_MAX, U64_MAX in *; lia).
  assert (no_char 58 (dec (sa_port a)) = true) as Hd by (apply (forallb_no_char is_ascii_digit); [done|apply dec_all; lia]).
  unfold sa_to_string in *. destruct (sa_ip a) as [v|v]; cbn [ip_to_string].
  - pose proof (read_ipv4_addr_print v [] Hip I) as Hrd. rewrite app_nil_r in Hrd.
    assert (v4_to_string v <> []) as Hne by (by intros E; rewrite E in Hrd).
    assert (forall b, is_ascii_digit b || (b =? 46) = true -> b <> 91 /\ b <> 58) as Hdot.
    { intros b. unfold is_ascii_digit. rewrite orb_true_iff. intros Hb. zbool. lia. }
    assert (forallb (fun b => is_ascii_digit b || (b =? 46)) (v4_to_string v) = true) as Hv4.
    { unfold v4_to_string. assert (forall z, 0 <= z -> forallb (fun b => is_ascii_digit b || (b =? 46)) (dec z) = true) as Hz.
      { intros z Hz. apply (forallb_impl is_ascii_digit); [|by apply dec_all]. intros x Hx. by rewrite Hx. }
      rewrite !forallb_app, !Hz by (apply octet_bound). done. }
    rewrite bool_decide_eq_false_2 by (by destruct (v4_to_string v)).
    assert (strip_prefix [91] (v4_to_string v ++ [58] ++ dec (sa_port a)) = None) as ->.
    { destruct (v4_to_string v) as [|b s]; [done|]. apply strip_prefix_other. cbn [forallb] in Hv4. apply andb_prop in Hv4 as [Hb _]. by apply Hdot in Hb as [? _]. }
    rewrite rsplit_once_app by done.
    assert (contains_char 58 (v4_to_string v) = false) as ->.
    { unfold contains_char. apply not_true_is_false. intros (x & Hx & E%Z.eqb_eq)%existsb_exists. subst x.
      rewrite forallb_forall in Hv4. apply Hv4 in Hx. by apply Hdot in Hx as [_ ?]. }
    cbn [negb]. rewrite bool_decide_eq_false_2 by done. by rewrite Hp.
  - rewrite bool_decide_eq_false_2 by done. rewrite strip_prefix_char. cbn [app].
    change (93 :: 58 :: dec (sa_port a)) with ([93] ++ [58] ++ dec (sa_port a)).
    rewrite split_once_app by (apply (forallb_no_char ip_char); [done|apply v6_ip_char]). cbn [mbind option_bind].
    assert (v6_to_string v <> []) as Hne by (destruct (v6_to_string_head v) as (h & r & -> & _); by destruct h).
    rewrite bool_decide_eq_false_2 by done. rewrite strip_prefix_char. by rewrite Hp.
Qed.

(** ** How long an address is in text *)

Lemma length_dec z : (length (dec z) <= 39)%nat.
Proof.
  unfold dec. generalize 39%nat at 1 2. intros n. revert z. induction n as [|n IH]; intros z; [done|].
  cbn [dec_digits]. rewrite length_app. cbn [length]. specialize (IH (z / 10)). destruct (z <? 10); cbn [length]; lia.
Qed.
Lemma length_hex16 g : (length (hex16 g) <= 4)%nat.
Proof. unfold hex16. rewrite hex_digits_print. apply (print_digits_length 16 4 g). lia. Qed.
Lemma length_join_hex gs : (length (join_hex gs) <= 5 * length gs)%nat.
Proof.
  induction gs as [|g gs IH]; [done|]. rewrite join_hex_cons, !length_app. pose proof (length_hex16 g).
  assert (length (lead 1 gs) <= 1)%nat by (destruct gs; cbn; lia). cbn [length]. lia.
Qed.
Lemma length_sa_to_string a : (length (sa_to_string a) <= 400)%nat.
Proof.
  assert (forall v, (length (v4_to_string v) <= 159)%nat) as H4.
  { intros v. unfold v4_to_string. rewrite !length_app. pose proof (length_dec (octet v 0)). pose proof (length_dec (octet v 1)).
    pose proof (length_dec (octet v 2)). pose proof (length_dec (octet v 3)). cbn [length]. lia. }
  pose proof (length_dec (sa_port a)). unfold sa_to_string. destruct (sa_ip a) as [v|v]; rewrite !length_app; cbn [length]; [specialize (H4 v); lia|].
  enough (length (v6_to_string v) <= 250)%nat by lia. unfold v6_to_string. destruct (to_ipv4_mapped v) as [v4|].
  { rewrite length_app. specialize (H4 v4). change (length (lit "::ffff:")) with 7%nat. lia. }
  assert (length (segments v) = 8%nat) as Hs by done. destruct (longest_zeros _ _ _ _) as [start n]. destruct (1 <? n).
  - rewrite !length_app. pose proof (length_join_hex (sub (segments v) 0 start)). pose proof (length_join_hex (sub (segments v) (start + n) 8)).
    assert (forall lo hi, (length (sub (segments v) lo hi) <= 8)%nat) as Hsub.
    { intros lo hi. unfold sub. rewrite length_take, length_drop. lia. }
    pose proof (Hsub 0 start). pose proof (Hsub (start + n) 8). cbn [length]. lia.
  - pose proof (length_join_hex (segments v)). lia.
Qed.

(** ** Where a head ends *)

Lemma find_end_line line t : no_char 13 line = true ->
  find_sub [13; 10; 13; 10] (line ++ [13; 10; 13; 10] ++ t) = Some (blen line).
Proof.
  induction line as [|b line IH]; intros Hl; [done|]. cbn [no_char forallb] in Hl. apply andb_prop in Hl as [Hb Hl].
  apply negb_true_iff, Z.eqb_neq in Hb. rewrite <- app_comm_cons. cbn [find_sub]. unfold starts_with at 1. rewrite (proj2 (Z.eqb_neq 13 b)) by lia. cbn [andb].
  rewrite (IH Hl). cbn. f_equal. rewrite blen_cons. apply Z.add_comm.
Qed.
Lemma find_end_next line b t : no_char 13 line = true -> b <> 13 ->
  find_sub [13; 10; 13; 10] (line ++ CRLF ++ b :: t) = (fun i => blen line + 2 + i) <$> find_sub [13; 10; 13; 10] (b :: t).
Proof.
  intros Hl Hb. induction line as [|x line IH].
  - assert (starts_with [13; 10; 13; 10] (13 :: 10 :: b :: t) = false) as E by (cbn [starts_with]; rewrite (proj2 (Z.eqb_neq 13 b)) by lia; done).
    change ([] ++ CRLF ++ b :: t) with (13 :: 10 :: b :: t). remember (b :: t) as bt. cbn [find_sub]. rewrite E.
    change (starts_with [13; 10; 13; 10] (10 :: bt)) with false. cbn iota. destruct (find_sub _ bt); [|done]. cbn [fmap option_fmap option_map]. f_equal. change (blen (@nil Z)) with 0. lia.
  - cbn [no_char forallb] in Hl. apply andb_prop in Hl as [Hx Hl]. apply negb_true_iff, Z.eqb_neq in Hx.
    rewrite <- app_comm_cons. remember (b :: t) as bt. cbn [find_sub]. unfold starts_with at 1. rewrite (proj2 (Z.eqb_neq 13 x)) by lia. cbn [andb].
    rewrite (IH Hl). destruct (find_sub _ bt); [|done]. cbn [fmap option_fmap option_map]. f_equal. rewrite blen_cons. lia.
Qed.

(** ** The CONNECT request of the client in [upstream.rs] *)

Definition connect_line (authority : bytes) : bytes := lit "CONNECT " ++ authority ++ lit " HTTP/1.1".
Definition connect_head (authority : bytes) : bytes :=
  (connect_line authority ++ CRLF ++ (lit "Host: " ++ authority) ++ CRLF ++ lit "Proxy-Connection: Keep-Alive") ++ [13; 10; 13; 10].

Lemma connect_request_head base64_encode u authority :
  Upstream.user u = None -> Upstream.connect_request base64_encode u authority = connect_head authority.
Proof. intros Hu. unfold Upstream.connect_request, connect_head, connect_line. rewrite Hu. unfold CRLF, Upstream.CRLF. solve_app. Qed.

Lemma connect_line_chars s : forallb line_char s = true ->
  forallb line_char (connect_line s) = true /\ forallb line_char (lit "Host: " ++ s) = true.
Proof. intros Hs. unfold connect_line. by rewrite !forallb_app, Hs. Qed.

Lemma connect_head_end s : forallb line_char s = true ->
  find_sub [13; 10; 13; 10] (connect_head s) = Some (blen (connect_head s) - 4).
Proof.
  intros [Hl Hh]%connect_line_chars. assert (no_char 13 (connect_line s) = true /\ no_char 13 (lit "Host: " ++ s) = true) as [Hn1 Hn2]
    by (split; by apply (forallb_no_char line_char)).
  unfold connect_head. generalize dependent (connect_line s). intros line _ Hn1. rewrite <- !app_assoc.
  change (lit "Host: " ++ s ++ ?t) with (72 :: (lit "ost: " ++ s ++ t)). rewrite find_end_next by done.
  change (72 :: (lit "ost: " ++ s ++ ?t)) with (lit "Host: " ++ s ++ t). rewrite (app_assoc (lit "Host: ")).
  change (lit "Proxy-Connection: Keep-Alive" ++ ?t) with (80 :: (lit "roxy-Connection: Keep-Alive" ++ t)). rewrite find_end_next by done.
  change (80 :: (lit "roxy-Connection: Keep-Alive" ++ ?t)) with (lit "Proxy-Connection: Keep-Alive" ++ t).
  change [13; 10; 13; 10] with ([13; 10; 13; 10] ++ []) at 2. rewrite find_end_line by done. cbn [fmap option_fmap option_map]. f_equal.
  autorewrite with blens. unfold CRLF. change (80 :: (lit "roxy-Connection: Keep-Alive" ++ [13; 10; 13; 10])) with (lit "Proxy-Connection: Keep-Alive" ++ [13; 10; 13; 10]).
  autorewrite with blens. change (blen [13; 10]) with 2. change (blen [13; 10; 13; 10]) with 4. lia.
Qed.

Lemma connect_head_fits s : blen s <= 400 -> blen (connect_head s) <= HTTP_HEAD_LIMIT.
Proof.
  intros Hs. unfold connect_head, connect_line, CRLF, HTTP_HEAD_LIMIT. autorewrite with blens.
  repeat match goal with |- context [blen (lit ?x)] => let v := eval vm_compute in (blen (lit x)) in change (blen (lit x)) with v end.
  change (blen [13; 10]) with 2. change (blen [13; 10; 13; 10]) with 4. lia.
Qed.

Lemma connect_head_parsed s host_ port_ :
  forallb plain s = true -> s <> [] -> parse_authority s 443 = Some (host_, port_) ->
  parse_request_line (first_line (from_utf8_lossy (connect_head s))) = Some (mkRequestLine (lit "CONNECT") host_ port_ None).
Proof.
  intros Hpl Hne Hp. destruct (connect_line_chars s (plain_line_char _ Hpl)) as [Hl Hh].
  unfold connect_head. rewrite <- !app_assoc, lossy_ascii.
  - rewrite first_line_crlf by done. unfold parse_request_line.
    assert (split_whitespace (connect_line s) = [lit "CONNECT"; s; lit "HTTP/1.1"]) as ->.
    { rewrite <- (split_whitespace_words [lit "CONNECT"; s; lit "HTTP/1.1"]).
      - unfold connect_line. cbn [spaced map concat]. by rewrite app_nil_r.
      - repeat constructor; done. }
    cbn [lookup list_lookup mbind option_bind default]. by rewrite Hp.
  - pose proof (line_char_ascii _ Hh) as Ha. rewrite str_is_ascii_app in Ha.
    rewrite !str_is_ascii_app, (line_char_ascii _ Hl). cbn [andb]. apply andb_prop in Ha as [-> ->]. done.
Qed.

(** The CONNECT of the client of [upstream.rs] through this proxy: whatever pieces the
    request comes in, the proxy reads its head to the end, takes the address and the port
    from it and sends nothing of it on; its answer connects the client, which keeps the
    bytes that follow. *)
Theorem http_client_meets_proxy base64_encode u target data chunks :
  Upstream.kind u = Upstream.Http -> Upstream.user u = None -> sa_wf target ->
  let request := Upstream.connect_request base64_encode u (sa_to_string target) in
  Forall (fun c => c <> []) chunks -> concat chunks = request ->
  Upstream.connect base64_encode u target (ESTABLISHED ++ data) = (request, Ok (tt, data))
  /\ read_head [] (map inl chunks) = Ok (request, [], [])
  /\ exists line, parse_request_line (first_line (from_utf8_lossy request)) = Some line
     /\ request_target line = TIp (sa_ip target) /\ port line = sa_port target /\ rewritten line = None.
Proof.
  intros Hk Hu Hwf request Hne Hcat. pose proof Hwf as [Hip Hport]. pose proof (sa_to_string_char target ltac:(lia)) as Hc.
  pose proof (forallb_impl _ _ _ addr_char_plain Hc) as Hpl. pose proof (length_sa_to_string target) as Hlen.
  assert (sa_to_string target <> []) as Hsne by (unfold sa_to_string; destruct (sa_ip target); [by destruct (v4_to_string _)|done]).
  assert (request = connect_head (sa_to_string target)) as Hreq by (by apply connect_request_head).
  split; [|split].
  - unfold Upstream.connect, Upstream.open. rewrite Hk, Upstream.http_connect_exact; [done| |done].
    apply Upstream.head_complete_check; reflexivity.
  - rewrite Hreq in *. pose proof (connect_head_end _ (plain_line_char _ Hpl)) as Hf.
    assert (blen (connect_head (sa_to_string target)) <= HTTP_HEAD_LIMIT) as Hlim by (apply connect_head_fits; unfold blen; lia).
    clear Hreq. generalize dependent (connect_head (sa_to_string target)). intros head Hcat Hf Hlim.
    destruct (read_head_chunks head (blen head - 4) chunks Hf ltac:(lia) Hne Hcat) as (early & later & Hread & Hbody & Hl).
    replace (blen head - 4 + 4) with (blen head) in Hread, Hbody by lia. rewrite sub_all in Hread. rewrite sub_empty in Hbody by lia.
    apply app_eq_nil in Hbody as [-> Hcl]. rewrite Hread. destruct Hl as [|c l Hcn _]; [done|]. by destruct c.
  - rewrite Hreq. eexists. split; [by apply connect_head_parsed, parse_authority_socket|].
    unfold request_target. cbn [authority port rewritten]. by rewrite parse_ip_to_string.
Qed.

(** ** The theorems at work *)

Section examples.
#[local] Existing Instances ascii_case Routing.prefix_nets Routing.literal_regex.

Definition example_http_world : HWorld :=
  mkHWorld None (inl []) (inl (V4 (v4_new 1 1 1 1))) (inl tt) (inl tt) (inl tt) true true true true.

Lemma http_respects_verdict_witness :
  existsb is_tunnel (http_request SocksRelay.example_set example_http_world (lit "GET http://10.1.1.1/ HTTP/1.1" ++ CRLF ++ CRLF) []).1 = false.
Proof.
  assert (decide SocksRelay.example_set (host_of (TIp (V4 (v4_new 10 1 1 1)))) 80 = Direct) as Hd by (vm_compute; reflexivity).
  pose proof (http_respects_verdict SocksRelay.example_set example_http_world (lit "GET http://10.1.1.1/ HTTP/1.1" ++ CRLF ++ CRLF) []
    (mkRequestLine (lit "GET") (lit "10.1.1.1") 80 (Some (lit "GET / HTTP/1.1" ++ CRLF))) ltac:(vm_compute; reflexivity)) as H.
  assert (request_target (mkRequestLine (lit "GET") (lit "10.1.1.1") 80 (Some (lit "GET / HTTP/1.1" ++ CRLF))) = TIp (V4 (v4_new 10 1 1 1))) as Ht
    by (vm_compute; reflexivity).
  rewrite Ht in H. cbn [port] in H. rewrite Hd in H. exact (proj1 H).
Defined.

Lemma http_request_forwarded_witness :
  exists early later, lit "xyz" = early ++ concat later
  /\ let acts := handle_http_client SocksRelay.example_set example_http_world
       (map inl [lit "GET http://a.test/x HTTP/1.1" ++ [13]; [10] ++ lit "Host: a.test" ++ CRLF ++ CRLF ++ lit "x"; lit "yz"]) in
     acts.2 = Ok tt /\ answers acts.1 = []
     /\ sent acts.1 = (lit "GET" ++ [32] ++ lit "/x" ++ [32] ++ lit "HTTP/1.1" ++ CRLF ++ (lit "Host: a.test" ++ CRLF ++ CRLF)) ++ early.
Proof.
  apply (http_request_forwarded SocksRelay.example_set example_http_world (lit "GET") (lit "a.test") (lit "/x") (lit "HTTP/1.1")
    (lit "Host: a.test" ++ CRLF ++ CRLF) (lit "xyz") (lit "a.test") 80);
    try (vm_compute; reflexivity); try (vm_compute; discriminate).
  - repeat split; eexists; reflexivity.
  - split; [vm_compute; reflexivity|discriminate].
  - split; [vm_compute; reflexivity|discriminate].
  - split; [vm_compute; reflexivity|discriminate].
  - repeat constructor; discriminate.
Defined.

Lemma http_client_meets_proxy_witness :
  Upstream.connect (fun s => s) (Upstream.mkUpstream Upstream.Http (lit "127.0.0.1") 8080 None None) (mkSocketAddr (V6 1) 443) (ESTABLISHED ++ [22; 3; 1])
  = (Upstream.connect_request (fun s => s) (Upstream.mkUpstream Upstream.Http (lit "127.0.0.1") 8080 None None) (lit "[::1]:443"), Ok (tt, [22; 3; 1])).
Proof.
  apply (http_client_meets_proxy (fun s => s) (Upstream.mkUpstream Upstream.Http (lit "127.0.0.1") 8080 None None) (mkSocketAddr (V6 1) 443) [22; 3; 1]
    [Upstream.connect_request (fun s => s) (Upstream.mkUpstream Upstream.Http (lit "127.0.0.1") 8080 None None) (lit "[::1]:443")]).
  - reflexivity.
  - reflexivity.
  - repeat split; vm_compute; discriminate.
  - repeat constructor; discriminate.
  - vm_compute. reflexivity.
Defined.

(** The head goes through [String::from_utf8_lossy] on its way to the server: a header
    byte that is not UTF-8 (here 0xE9 of a Latin-1 value) is replaced. *)
Example http_header_bytes_replaced :
  sent (http_request SocksRelay.example_set example_http_world
    (lit "GET http://a.test/ HTTP/1.1" ++ CRLF ++ lit "X: " ++ [233] ++ CRLF ++ CRLF) []).1
  = lit "GET / HTTP/1.1" ++ CRLF ++ lit "X: " ++ [239; 191; 189] ++ CRLF ++ CRLF.
Proof. vm_compute. reflexivity. Qed.
End examples.

End HttpProxy.
