(* ===== verification/Https.v ===== *)
(** * HTTP/1.1 answers ([aether/src/https.rs])

    The incremental reader of an HTTP/1.1 answer: the search for the end of its
    head past the interim answers ([Http1Answer::push]), the framing of its body
    and the joining of a chunked body as it comes in ([Dechunker]).  A connection
    is the chunks its reads return. *)

From S2P Require Import Prelude Str Error.
Local Open Scope Z_scope.

Module Https.
Import Error.

Definition MAX_BODY : Z := 512 * 1024.
Definition MAX_LINE : Z := 8 * 1024.

Definition CRLF : bytes := [13; 10].
Definition CRLF2 : bytes := [13; 10; 13; 10].

(** ** Chunked bodies *)

Record Dechunker := mkDechunker {
  d_at : Z;
  d_searched : Z;
  d_data : option Z;
  d_trailer : bool;
  d_done : bool;
  d_joined : bytes;
}.
Definition Dechunker_default : Dechunker := mkDechunker 0 0 None false false [].

Definition malformed (what : string) : AetherError := Api (lit "a chunked answer with " ++ lit what).

(** The data of a chunk of [size] bytes, then CRLF. *)
Definition advance_data (body : bytes) (d : Dechunker) (size : Z) : res AetherError (Dechunker + bool * Dechunker) :=
  end_ ← ok_or (checked_add (d_at d) size ≫= fun e => checked_add e 2) (malformed "a chunk too large");
  if blen body <? end_ then Ok (inr (false, d))
  else
    mark ← slice body (end_ - 2) end_;
    if negb (bool_decide (mark = CRLF)) then Err (malformed "no line end after a chunk")
    else
      piece ← slice body (d_at d) (end_ - 2);
      Ok (inl (mkDechunker end_ end_ None (d_trailer d) (d_done d) (d_joined d ++ piece))).

(** The size at the start of a chunk's line, before its extensions. *)
Definition chunk_size (line : bytes) : option Z :=
  line ← from_utf8 line;
  parse_hex USIZE_MAX (trim (default [] (split_char 59 line !! 0%nat))).

(** A line: a chunk size, or a field of the trailer. *)
Definition advance_line (body : bytes) (d : Dechunker) : res AetherError (Dechunker + bool * Dechunker) :=
  let from := Z.max (saturating_sub (d_searched d) 1) (d_at d) in
  rest ← slice body from (blen body);
  match find_sub CRLF rest with
  | None =>
      if blen body <? d_at d then Panic
      else if MAX_LINE <? blen body - d_at d then Err (malformed "a line too long")
      else Ok (inr (false, mkDechunker (d_at d) (blen body) (d_data d) (d_trailer d) (d_done d) (d_joined d)))
  | Some offset =>
      let end_ := from + offset in
      line ← slice body (d_at d) end_;
      if d_trailer d then
        Ok (inl (mkDechunker (end_ + 2) (end_ + 2) (d_data d) true (bool_decide (line = [])) (d_joined d)))
      else
        size ← ok_or (chunk_size line) (malformed "a bad chunk size");
        Ok (inl (if size =? 0
                 then mkDechunker (end_ + 2) (end_ + 2) (d_data d) true (d_done d) (d_joined d)
                 else mkDechunker (end_ + 2) (end_ + 2) (Some size) (d_trailer d) (d_done d) (d_joined d)))
  end.

(** One turn of the loop of [advance], which goes on while the body is not done. *)
Definition advance_step (body : bytes) (d : Dechunker) : res AetherError (Dechunker + bool * Dechunker) :=
  if d_done d then Ok (inr (true, d))
  else match d_data d with
       | Some size => advance_data body d size
       | None => advance_line body d
       end.

(** Every turn moves [d_at] on by two bytes or more. *)
Definition advance (d : Dechunker) (body : bytes) : res AetherError (bool * Dechunker) :=
  default Panic (loop (S (S (length body))) (fun d => step_of (advance_step body d)) d).

Definition Dechunker_finish (d : Dechunker) : res AetherError bytes :=
  if d_done d then Ok (d_joined d)
  else Err (Api (lit "the chunked answer ended before its last chunk")).

(** ** The head *)

Inductive Framing :=
| Length (length : Z)
| Chunked (dechunker : Dechunker)
| Close.

Record Http1Head := mkHttp1Head {
  status : Z;
  fields : list (bytes * bytes);
  body_start : Z;
  framing_of : Framing;
}.

Record Http1Answer := mkHttp1Answer {
  raw : bytes;
  head_start : Z;
  searched : Z;
  head : option Http1Head;
}.
Definition Http1Answer_default : Http1Answer := mkHttp1Answer [] 0 0 None.

Definition http1_head (h : bytes) : res AetherError (Z * list (bytes * bytes)) :=
  let lines := split_crlf (from_utf8_lossy h) in
  let status_line := default [] (lines !! 0%nat) in
  status ← ok_or (split_whitespace status_line !! 1%nat ≫= parse_u16)
                 (Api (lit "bad status line: " ++ status_line));
  Ok (status, (fun '(name, value) => (trim name, trim value)) <$> omap (split_once 58) (drop 1 lines)).

Definition field (fields : list (bytes * bytes)) (wanted : bytes) : option bytes :=
  snd <$> List.find (fun f => eq_ignore_ascii_case (fst f) wanted) fields.

Definition framing (status : Z) (fields : list (bytes * bytes)) : res AetherError Framing :=
  if (status =? 204) || (status =? 304) then Ok (Length 0)
  else if match field fields (lit "transfer-encoding") with
          | Some value => contains (lit "chunked") (to_ascii_lowercase value)
          | None => false
          end
  then Ok (Chunked Dechunker_default)
  else match field fields (lit "content-length") with
       | Some value => Length <$> ok_or (parse_uint USIZE_MAX value) (Api (lit "bad Content-Length: " ++ value))
       | None => Ok Close
       end.

(** ** The answer *)

(** One turn of the loop of [push] that looks for the head.  It leaves with
    [true] once there is a head. *)
Definition head_step (a : Http1Answer) : res AetherError (Http1Answer + bool * Http1Answer) :=
  match head a with
  | Some _ => Ok (inr (true, a))
  | None =>
      let from := Z.max (saturating_sub (searched a) 3) (head_start a) in
      rest ← slice (raw a) from (blen (raw a));
      match find_sub CRLF2 rest with
      | None => Ok (inr (false, mkHttp1Answer (raw a) (head_start a) (blen (raw a)) None))
      | Some offset =>
          let end_ := from + offset in
          h ← slice (raw a) (head_start a) end_;
          '(status, fields) ← http1_head h;
          if (100 <=? status) && (status <? 200) && negb (status =? 101) then
            Ok (inl (mkHttp1Answer (raw a) (end_ + 4) (end_ + 4) None))
          else
            framing ← framing status fields;
            Ok (inl (mkHttp1Answer (raw a) (head_start a) (searched a)
                       (Some (mkHttp1Head status fields (end_ + 4) framing))))
      end
  end.

Definition find_head (a : Http1Answer) : res AetherError (bool * Http1Answer) :=
  default Panic (loop (S (S (length (raw a)))) (fun a => step_of (head_step a)) a).

(** Whether the body that has come is whole, and the answer after looking at it. *)
Definition look_at_body (a : Http1Answer) : res AetherError (bool * Http1Answer) :=
  match head a with
  | None => Panic
  | Some h =>
      body ← slice (raw a) (body_start h) (blen (raw a));
      match framing_of h with
      | Length length => Ok (length <=? blen body, a)
      | Chunked dechunker =>
          '(whole, dechunker) ← advance dechunker body;
          Ok (whole, mkHttp1Answer (raw a) (head_start a) (searched a)
                       (Some (mkHttp1Head (status h) (fields h) (body_start h) (Chunked dechunker))))
      | Close => Ok (false, a)
      end
  end.

Definition push (a : Http1Answer) (b : bytes) : res AetherError (bool * Http1Answer) :=
  let a := mkHttp1Answer (raw a ++ b) (head_start a) (searched a) (head a) in
  if MAX_BODY <? blen (raw a) then Err (Api (lit "the answer is too large"))
  else
    '(found, a) ← find_head a;
    if found : bool then look_at_body a else Ok (false, a).

Definition finish (a : Http1Answer) : res AetherError (Z * list (bytes * bytes) * bytes) :=
  match head a with
  | None => Err (Api (if bool_decide (raw a = []) then lit "empty response" else lit "truncated response head"))
  | Some h =>
      body ← slice (raw a) (body_start h) (blen (raw a));
      body ←
        match framing_of h with
        | Length length =>
            if blen body <? length
            then Err (Api (lit "the answer ended after " ++ dec (blen body) ++ lit " of its " ++ dec length ++ lit " bytes"))
            else slice body 0 length
        | Chunked dechunker => Dechunker_finish dechunker
        | Close => Ok body
        end;
      Ok (status h, fields h, body)
  end.

(** The read loop of [http1_exchange]: the chunks the connection returns, until the
    answer is whole or the connection ends (an empty read). *)
Fixpoint read_answer (a : Http1Answer) (chunks : list bytes) : res AetherError (Z * list (bytes * bytes) * bytes) :=
  match chunks with
  | [] | [] :: _ => finish a
  | chunk :: chunks =>
      '(whole, a) ← push a chunk;
      if whole : bool then finish a else read_answer a chunks
  end.

Example chunked_1 :
  read_answer Http1Answer_default
    [lit "HTTP/1.1 100 Continue"; CRLF2; lit "HTTP/1.1 200 OK"; CRLF; lit "Transfer-Encoding: Chunked"; CRLF; CRLF;
     lit "4;x=y"; CRLF ++ lit "Wi"; lit "ki" ++ CRLF ++ lit "0"; CRLF ++ CRLF; lit "junk"]
  = Ok (200, [(lit "Transfer-Encoding", lit "Chunked")], lit "Wiki").
Proof. reflexivity. Qed.

(** ** The state between reads *)

(** What [advance] has of a body: [d_at] is within it, and no line ends between
    [d_at] and [d_searched]. *)
Definition dinv (d : Dechunker) (body : bytes) : Prop :=
  0 <= d_at d /\ d_at d <= d_searched d /\ d_searched d <= blen body /\
  find_sub CRLF (sub body (d_at d) (d_searched d)) = None /\
  (d_done d = true \/ d_data d <> None -> d_searched d = d_at d) /\
  match d_data d with Some size => 0 < size | None => True end.

Lemma dinv_app d body x : dinv d body -> dinv d (body ++ x).
Proof.
  intros (H0 & H1 & H2 & Hf & Hd & Hs). repeat split; auto; [blia|]. by rewrite sub_app_l by lia.
Qed.

(** The bytes left at each turn. *)
Definition dmeasure (body : bytes) (d : Dechunker) : nat := Z.to_nat (blen body - d_at d).

Lemma find_sub_nil_sub p (body : bytes) at_ : p <> [] -> find_sub p (sub body at_ at_) = None.
Proof. intros Hp. rewrite sub_empty by lia. by destruct p. Qed.

(** The line search, from where the last one stopped, finds what a search from the
    start of the line finds. *)
Lemma advance_line_search d body :
  dinv d body -> d_data d = None ->
  let from := Z.max (saturating_sub (d_searched d) 1) (d_at d) in
  0 <= from /\ d_at d <= from <= blen body /\
  find_sub CRLF (sub body (d_at d) (blen body))
  = (fun i => from - d_at d + i) <$> find_sub CRLF (sub body from (blen body)).
Proof.
  intros (H0 & H1 & H2 & Hf & _) _. cbn zeta. unfold saturating_sub. split; [lia|]. split; [lia|].
  apply (find_sub_resume CRLF body (d_at d) (d_searched d)); auto; done.
Qed.

(** What [advance_line] does with a whole line, and with the line found. *)
Definition take_line (d : Dechunker) (line : bytes) : res AetherError Dechunker :=
  let next := d_at d + blen line + 2 in
  if d_trailer d then Ok (mkDechunker next next (d_data d) true (bool_decide (line = [])) (d_joined d))
  else
    size ← ok_or (chunk_size line) (malformed "a bad chunk size");
    Ok (if size =? 0
        then mkDechunker next next (d_data d) true (d_done d) (d_joined d)
        else mkDechunker next next (Some size) (d_trailer d) (d_done d) (d_joined d)).

Lemma advance_line_eq d body :
  dinv d body -> d_data d = None ->
  advance_line body d
  = match find_sub CRLF (sub body (d_at d) (blen body)) with
    | None =>
        if MAX_LINE <? blen body - d_at d then Err (malformed "a line too long")
        else Ok (inr (false, mkDechunker (d_at d) (blen body) None (d_trailer d) (d_done d) (d_joined d)))
    | Some off => inl <$> take_line d (sub body (d_at d) (d_at d + off))
    end.
Proof.
  intros Hi Hd. destruct (advance_line_search d body Hi Hd) as (Hf0 & Hfr & Hs). unfold advance_line.
  set (from := Z.max _ _) in *. clearbody from. rewrite slice_ok by lia. rsimp. rewrite Hs.
  destruct (find_sub CRLF (sub body from (blen body))) as [off|] eqn:Ho; cbn.
  - apply find_sub_bounds in Ho as [? Hb]. rewrite blen_sub in Hb by lia. change (blen CRLF) with 2 in Hb.
    rewrite slice_ok by (destruct Hi; lia). rsimp.
    replace (d_at d + (from - d_at d + off)) with (from + off) by lia. unfold take_line.
    rewrite blen_sub by (destruct Hi; lia).
    replace (d_at d + (from + off - d_at d) + 2) with (from + off + 2) by lia.
    destruct (d_trailer d); [done|]. by destruct (chunk_size _).
  - destruct Hi as (? & ? & ? & _). rewrite Hd. zcase; [lia|]. done.
Qed.

Lemma take_line_inv d line body d' :
  dinv d body -> d_data d = None -> d_at d + blen line + 2 <= blen body ->
  take_line d line = Ok d' -> dinv d' body /\ d_at d' = d_at d + blen line + 2.
Proof.
  intros (H0 & _) Hn Hl. unfold take_line.
  assert (find_sub CRLF (sub body (d_at d + blen line + 2) (d_at d + blen line + 2)) = None)
    by by apply find_sub_nil_sub.
  pose proof (blen_nonneg line).
  destruct (d_trailer d).
  - intros [= <-]. unfold dinv. rewrite Hn. cbn. repeat split; auto; lia.
  - destruct (chunk_size line) as [size|] eqn:Hc; [|done]. rsimp. intros [= <-].
    assert (0 <= size) by (revert Hc; unfold chunk_size; destruct (from_utf8 line); [|done]; intros Hc%parse_hex_bounds; done || lia).
    zcase; unfold dinv; cbn; rewrite ?Hn; repeat split; auto; lia.
Qed.

Lemma take_line_no_panic d line : take_line d line <> Panic.
Proof. unfold take_line. destruct (d_trailer d); [done|]. by destruct (chunk_size line). Qed.

(** One turn keeps the invariant, moves on, and does not panic. *)
Lemma advance_step_ok d body :
  dinv d body ->
  match advance_step body d with
  | Ok (inl d') => dinv d' body /\ (dmeasure body d' < dmeasure body d)%nat
  | Ok (inr (w, d')) => dinv d' body /\ (w = true <-> d_done d' = true)
  | Err _ => True
  | Panic => False
  end.
Proof.
  intros Hi. unfold advance_step. destruct (d_done d) eqn:Hdone; [by rewrite Hdone|].
  destruct (d_data d) as [size|] eqn:Hdata.
  - unfold advance_data. pose proof Hi as (H0 & H1 & H2 & Hf & Hd & Hs). rewrite Hdata in Hs.
    unfold checked_add. destruct (d_at d + size <=? USIZE_MAX) eqn:Ha; [|done]. cbn [mbind option_bind].
    destruct (d_at d + size + 2 <=? USIZE_MAX); [|done]. rsimp. zbool. zcase.
    { split; [done|split; congruence]. }
    rewrite !slice_ok by lia. rsimp. destruct (negb _); [done|].
    split; [|unfold dmeasure; cbn; lia]. unfold dinv. cbn. repeat split; auto; try lia.
    by apply find_sub_nil_sub.
  - rewrite advance_line_eq by done. destruct (find_sub _ _) as [off|] eqn:Ho.
    + apply find_sub_bounds in Ho as [? Hb]. destruct Hi as (H0 & H1 & H2 & Hr).
      rewrite blen_sub in Hb by lia. change (blen CRLF) with 2 in Hb.
      destruct (take_line _ _) as [d'| |] eqn:Ht; cbn; [|done|by apply take_line_no_panic in Ht].
      assert (blen (sub body (d_at d) (d_at d + off)) = off) as Hl by (rewrite blen_sub; lia).
      eapply (take_line_inv _ _ body) in Ht as [Hi' Hat]; try done; [|lia].
      split; [done|]. unfold dmeasure. lia.
    + zcase; [done|]. destruct Hi as (H0 & H1 & H2 & Hr). split; [|cbn; split; congruence].
      unfold dinv. cbn. repeat split; auto; try lia; try (intros [|]; congruence).
Qed.

(** A turn that goes on does the same when more of the body has come. *)
Lemma advance_step_app d body x d' :
  dinv d body -> advance_step body d = Ok (inl d') -> advance_step (body ++ x) d = Ok (inl d').
Proof.
  intros Hi. unfold advance_step. destruct (d_done d); [done|]. destruct (d_data d) as [size|] eqn:Hdata.
  - destruct Hi as (H0 & H1 & H2 & Hr & Hd & Hs). rewrite Hdata in Hs. unfold advance_data.
    destruct (ok_or _ _) as [e| |] eqn:He; [|done|done]. rsimp. zcase; [done|].
    assert (d_at d + size + 2 = e) as <-.
    { unfold checked_add in He. destruct (d_at d + size <=? USIZE_MAX); [|done]. cbn in He.
      destruct (d_at d + size + 2 <=? USIZE_MAX); [|done]. by injection He. }
    rewrite (proj2 (Z.ltb_ge _ _)) by blia. rewrite !slice_ok by blia. rsimp.
    rewrite !sub_app_l by lia. done.
  - rewrite !advance_line_eq by auto using dinv_app. destruct Hi as (H0 & H1 & H2 & Hr).
    destruct (find_sub CRLF (sub body (d_at d) (blen body))) as [off|] eqn:Ho; [|by zcase].
    rewrite sub_to_end, (find_sub_app _ _ x _ Ho) by lia.
    apply find_sub_bounds in Ho as [? Hb]. rewrite blen_sub in Hb by lia. change (blen CRLF) with 2 in Hb.
    by rewrite sub_app_l by lia.
Qed.

(** [advance] ends within its fuel, without a panic, in a state it can go on from. *)
Lemma advance_loop d body :
  dinv d body ->
  exists r, loop (S (S (length body))) (fun d => step_of (advance_step body d)) d = Some r /\
    match r with
    | Ok (w, d') => dinv d' body /\ (w = true <-> d_done d' = true)
    | Err _ => True
    | Panic => False
    end.
Proof.
  intros Hi. apply (loop_correct _ (fun d => dinv d body) _ (dmeasure body)); [|done|].
  - intros e He. pose proof (advance_step_ok e body He) as H.
    destruct (advance_step body e) as [[e'|[w e']]| |]; cbn; done.
  - destruct Hi as (? & _). unfold dmeasure, blen. lia.
Qed.

Lemma advance_runs d body r :
  dinv d body -> r = advance d body <-> exists fuel, loop fuel (fun d => step_of (advance_step body d)) d = Some r.
Proof.
  intros Hi. destruct (advance_loop d body Hi) as (r' & Hl & _). unfold advance. rewrite Hl. cbn. split.
  - intros ->. eauto.
  - intros [fuel Hf]. symmetry. by eapply loop_det.
Qed.

(** A turn at the end of what has come does, once more has come, what the turn of
    the state it left does. *)
Lemma advance_step_resume d body x d' :
  dinv d body -> advance_step body d = Ok (inr (false, d')) ->
  advance_step (body ++ x) d = advance_step (body ++ x) d'.
Proof.
  intros Hi Hs. pose proof (advance_step_ok d body Hi) as Ho. rewrite Hs in Ho. destruct Ho as [Hi' _].
  revert Hs. unfold advance_step at 1. destruct (d_done d) eqn:Hdone; [done|].
  destruct (d_data d) as [size|] eqn:Hdata.
  - unfold advance_data. destruct (ok_or _ _) as [e| |]; [|done|done]. rsimp. zcase; [by intros [= <-]|].
    destruct (slice body (e - 2) e) as [m| |]; [|done|done]. rsimp. destruct (negb _); [done|].
    by destruct (slice body (d_at d) (e - 2)).
  - rewrite advance_line_eq by done. destruct (find_sub _ _) as [off|].
    { by destruct (take_line _ _). }
    zcase; [done|]. intros [= <-]. unfold advance_step. cbn. rewrite Hdone in Hi' |- *. rewrite Hdata.
    rewrite !advance_line_eq by auto using dinv_app. cbn [d_at d_data d_trailer d_done d_joined]. unfold take_line.
    cbn [d_at d_data d_trailer d_done d_joined]. destruct (find_sub _ _); [|by rewrite ?Hdone]. destruct (d_trailer d); [by rewrite Hdata|].
    destruct (chunk_size _); [|done]. rsimp. by rewrite ?Hdata, ?Hdone.
Qed.

Lemma advance_step_done d body d' :
  dinv d body -> advance_step body d = Ok (inr (true, d')) -> d' = d /\ d_done d = true.
Proof.
  intros Hi. unfold advance_step. destruct (d_done d); [by intros [= <-]|]. destruct (d_data d) as [size|] eqn:Hd.
  - unfold advance_data. destruct (ok_or _ _) as [e| |]; [|done|done]. rsimp. zcase; [done|].
    destruct (slice body (e - 2) e) as [m| |]; [|done|done]. rsimp. destruct (negb _); [done|].
    by destruct (slice body (d_at d) (e - 2)).
  - rewrite advance_line_eq by done. destruct (find_sub _ _); [by destruct (take_line _ _)|by zcase].
Qed.

(** Going on after more of the body has come gives what one pass over the whole gives. *)
Lemma advance_resume d body x w d' :
  dinv d body -> advance d body = Ok (w, d') -> advance d' (body ++ x) = advance d (body ++ x).
Proof.
  intros Hi Ha. symmetry in Ha. apply (advance_runs _ _ _ Hi) in Ha as [fuel Hf].
  assert (dinv d (body ++ x)) as Hix by auto using dinv_app. apply (advance_runs _ _ _ Hix).
  revert d Hi Hix Hf. induction fuel as [|fuel IH]; intros d Hi Hix Hf; [done|]. cbn in Hf.
  pose proof (advance_step_ok d body Hi) as Ho.
  destruct (advance_step body d) as [[d1|[w1 d1]]| |] eqn:Hs; cbn in Hf; [|simplify_eq|done|done].
  - destruct Ho as [Hi1 _]. destruct (IH d1) as [f Hf1]; auto using dinv_app.
    exists (S f). cbn. rewrite (advance_step_app _ _ _ _ Hi Hs). done.
  - destruct Ho as [Hi1 Hd]. destruct (advance_loop d' (body ++ x)) as (r & Hl & _); [by apply dinv_app|].
    unfold advance. rewrite Hl. cbn [default]. eexists. destruct w.
    + by destruct (advance_step_done _ _ _ Hi Hs) as [-> _].
    + cbn [loop]. rewrite (advance_step_resume _ _ _ _ Hi Hs). exact Hl.
Qed.

(** ** The answer between reads *)

Definition body_of (a : Http1Answer) (h : Http1Head) : bytes := sub (raw a) (body_start h) (blen (raw a)).

Definition ainv (a : Http1Answer) : Prop :=
  match head a with
  | None =>
      0 <= head_start a /\ head_start a <= searched a /\ searched a <= blen (raw a) /\
      find_sub CRLF2 (sub (raw a) (head_start a) (searched a)) = None
  | Some h =>
      0 <= body_start h /\ body_start h <= blen (raw a) /\
      match framing_of h with
      | Length n => 0 <= n
      | Chunked d => dinv d (body_of a h)
      | Close => True
      end
  end.

(** The answer once [x] has come. *)
Definition grow (a : Http1Answer) (x : bytes) : Http1Answer :=
  mkHttp1Answer (raw a ++ x) (head_start a) (searched a) (head a).

Lemma body_of_grow a h x :
  0 <= body_start h -> body_start h <= blen (raw a) -> body_of (grow a x) h = body_of a h ++ x.
Proof. intros. unfold body_of, grow. cbn. by apply sub_to_end. Qed.

Lemma ainv_grow a x : ainv a -> ainv (grow a x).
Proof.
  unfold ainv. cbn [grow raw head_start searched head]. destruct (head a) as [h|].
  - intros (H0 & H1 & Hf). split; [done|]. split; [blia|]. destruct (framing_of h); try done.
    rewrite body_of_grow by done. by apply dinv_app.
  - intros (H0 & H1 & H2 & Hf). repeat split; auto; [blia|]. by rewrite sub_app_l by lia.
Qed.

(** What a turn of the head loop does with the head it found. *)
Definition take_head (a : Http1Answer) (h : bytes) : res AetherError Http1Answer :=
  let next := head_start a + blen h + 4 in
  '(status, fields) ← http1_head h;
  if (100 <=? status) && (status <? 200) && negb (status =? 101) then Ok (mkHttp1Answer (raw a) next next None)
  else
    framing ← framing status fields;
    Ok (mkHttp1Answer (raw a) (head_start a) (searched a) (Some (mkHttp1Head status fields next framing))).

Lemma head_step_eq a :
  ainv a -> head a = None ->
  head_step a
  = match find_sub CRLF2 (sub (raw a) (head_start a) (blen (raw a))) with
    | None => Ok (inr (false, mkHttp1Answer (raw a) (head_start a) (blen (raw a)) None))
    | Some off => inl <$> take_head a (sub (raw a) (head_start a) (head_start a + off))
    end.
Proof.
  intros Hi Hn. unfold ainv in Hi. rewrite Hn in Hi. destruct Hi as (H0 & H1 & H2 & Hf).
  pose proof (find_sub_resume CRLF2 _ _ _ H0 H1 H2 ltac:(done) Hf) as Hs. unfold head_step, saturating_sub. rewrite Hn.
  change (blen CRLF2 - 1) with 3 in Hs. remember (Z.max (Z.max (searched a - 3) 0) (head_start a)) as from eqn:Hfr.
  cbn zeta in Hs. rewrite Hs. rewrite slice_ok by lia. rsimp.
  destruct (find_sub CRLF2 (sub (raw a) from (blen (raw a)))) as [off|] eqn:Ho; [|done]. cbn [fmap option_fmap option_map].
  apply find_sub_bounds in Ho as [? Hb]. rewrite blen_sub in Hb by lia. change (blen CRLF2) with 4 in Hb.
  rewrite slice_ok by lia. rsimp. replace (head_start a + (from - head_start a + off)) with (from + off) by lia.
  unfold take_head. rewrite blen_sub by lia.
  replace (head_start a + (from + off - head_start a) + 4) with (from + off + 4) by lia.
  destruct (http1_head _) as [[status fields]| |]; [|done|done]. rsimp.
  destruct (_ && _); [done|]. by destruct (framing status fields).
Qed.

Lemma http1_head_no_panic h : http1_head h <> Panic.
Proof. unfold http1_head. by destruct (split_whitespace _ !! 1%nat ≫= parse_u16). Qed.

Lemma framing_ok status fields :
  match framing status fields with
  | Ok (Length n) => 0 <= n
  | Ok (Chunked d) => d = Dechunker_default
  | Panic => False
  | _ => True
  end.
Proof.
  unfold framing. destruct (_ || _); [lia|].
  match goal with |- context [if ?b then _ else _] => destruct b; [done|] end.
  destruct (field fields (lit "content-length")) as [value|]; [|done].
  destruct (parse_uint USIZE_MAX value) as [n|] eqn:Hp; [|done]. cbn. by apply parse_uint_bounds in Hp as [? _].
Qed.

Lemma take_head_ok a h :
  ainv a -> head a = None -> head_start a + blen h + 4 <= blen (raw a) ->
  match take_head a h with
  | Ok a' => ainv a' /\ raw a' = raw a /\ (head a' = None -> head_start a < head_start a')
  | Err _ => True
  | Panic => False
  end.
Proof.
  intros Hi Hn Hl. unfold ainv in Hi. rewrite Hn in Hi. destruct Hi as (H0 & H1 & H2 & Hf). unfold take_head.
  pose proof (blen_nonneg h). pose proof (http1_head_no_panic h).
  destruct (http1_head h) as [[status fields]| |]; [|done|done]. rsimp. destruct (_ && _).
  - unfold ainv. cbn. repeat split; try lia. by apply find_sub_nil_sub.
  - pose proof (framing_ok status fields) as Hfr. destruct (framing status fields) as [f| |]; [|done|done]. rsimp.
    split; [|done]. unfold ainv. cbn. repeat split; try lia. destruct f; try done. subst dechunker.
    unfold body_of. cbn. unfold dinv. cbn. pose proof (blen_nonneg (sub (raw a) (head_start a + blen h + 4) (blen (raw a)))).
    repeat split; try lia; try done.
Qed.

Lemma take_head_grow a h x : take_head (grow a x) h = (fun a' => grow a' x) <$> take_head a h.
Proof.
  unfold take_head. cbn [grow head_start raw searched head]. destruct (http1_head h) as [[status fields]| |]; [|done|done]. rsimp.
  destruct (_ && _); [done|]. by destruct (framing status fields).
Qed.

Definition hmeasure (a : Http1Answer) : nat :=
  match head a with Some _ => 0 | None => S (Z.to_nat (blen (raw a) - head_start a)) end.

Lemma head_step_ok a :
  ainv a ->
  match head_step a with
  | Ok (inl a') => ainv a' /\ raw a' = raw a /\ (hmeasure a' < hmeasure a)%nat
  | Ok (inr (w, a')) => ainv a' /\ raw a' = raw a /\ (if w then a' = a /\ head a <> None else head a' = None)
  | Err _ => True
  | Panic => False
  end.
Proof.
  intros Hi. destruct (head a) as [h|] eqn:Hn; [unfold head_step; by rewrite Hn|]. rewrite head_step_eq by done.
  pose proof Hi as Hi'. unfold ainv in Hi'. rewrite Hn in Hi'. destruct Hi' as (H0 & H1 & H2 & Hf).
  destruct (find_sub CRLF2 (sub (raw a) (head_start a) (blen (raw a)))) as [off|] eqn:Ho.
  - apply find_sub_bounds in Ho as [? Hb]. rewrite blen_sub in Hb by lia. change (blen CRLF2) with 4 in Hb.
    pose proof (take_head_ok a (sub (raw a) (head_start a) (head_start a + off)) Hi Hn) as Ht.
    rewrite blen_sub in Ht by lia. specialize (Ht ltac:(lia)).
    destruct (take_head _ _) as [a'| |]; cbn; [|done|done]. destruct Ht as (Hi' & Hr & Hs). split; [done|]. split; [done|].
    unfold hmeasure. rewrite Hn, Hr. destruct (head a'); [lia|]. specialize (Hs eq_refl). lia.
  - split; [|done]. unfold ainv. cbn. repeat split; try lia. done.
Qed.

Lemma find_head_loop a :
  ainv a ->
  exists r, loop (S (S (length (raw a)))) (fun a => step_of (head_step a)) a = Some r /\
    match r with
    | Ok (w, a') => ainv a' /\ raw a' = raw a /\ (w = true <-> head a' <> None)
    | Err _ => True
    | Panic => False
    end.
Proof.
  intros Hi. apply (loop_correct _ (fun b => ainv b /\ raw b = raw a) _ hmeasure); [|done|].
  - intros b [Hb Hr]. pose proof (head_step_ok b Hb) as H. rewrite Hr in H.
    destruct (head_step b) as [[b'|[w b']]| |]; cbn; try done; destruct H as (H1 & H2 & H3); [done|].
    split; [done|]. split; [done|]. destruct w; [destruct H3 as [-> ?]; done|]. by rewrite H3.
  - unfold hmeasure. unfold ainv in Hi. destruct (head a); [lia|]. destruct Hi as (? & _). unfold blen. lia.
Qed.

Lemma find_head_runs a r :
  ainv a -> r = find_head a <-> exists fuel, loop fuel (fun a => step_of (head_step a)) a = Some r.
Proof.
  intros Hi. destruct (find_head_loop a Hi) as (r' & Hl & _). unfold find_head. rewrite Hl. cbn. split.
  - intros ->. eauto.
  - intros [fuel Hf]. symmetry. by eapply loop_det.
Qed.

(** An answer that has its head is looked at without [searched]. *)
Definition strip (a : Http1Answer) : Http1Answer :=
  match head a with Some _ => mkHttp1Answer (raw a) (head_start a) 0 (head a) | None => a end.
Definition strip_r (r : res AetherError (bool * Http1Answer)) : res AetherError (bool * Http1Answer) :=
  (fun '(w, a) => (w, strip a)) <$> r.

Lemma head_strip a : head (strip a) = head a.
Proof. unfold strip. by destruct (head a) eqn:Hh. Qed.
Lemma raw_strip a : raw (strip a) = raw a.
Proof. unfold strip. by destruct (head a) eqn:Hh. Qed.

Lemma head_start_strip a : head_start (strip a) = head_start a.
Proof. unfold strip. by destruct (head a) eqn:Hh. Qed.

Lemma head_step_grow a x a' : ainv a -> head_step a = Ok (inl a') -> head_step (grow a x) = Ok (inl (grow a' x)).
Proof.
  intros Hi. destruct (head a) as [h|] eqn:Hn; [unfold head_step; by rewrite Hn|].
  rewrite !head_step_eq by (try apply ainv_grow; done). cbn [grow raw head_start].
  unfold ainv in Hi. rewrite Hn in Hi. destruct Hi as (H0 & H1 & H2 & Hf).
  destruct (find_sub CRLF2 (sub (raw a) (head_start a) (blen (raw a)))) as [off|] eqn:Ho; [|done].
  rewrite sub_to_end, (find_sub_app _ _ x _ Ho) by lia.
  apply find_sub_bounds in Ho as [? Hb]. rewrite blen_sub in Hb by lia. change (blen CRLF2) with 4 in Hb.
  rewrite sub_app_l by lia. rewrite take_head_grow. by destruct (take_head _ _) as [b| |]; cbn; [intros [= <-]| |].
Qed.

(** The search goes on where it stopped. *)
Lemma head_step_resume a x a' :
  ainv a -> head_step a = Ok (inr (false, a')) ->
  step_of (head_step (grow a' x)) = step_of (head_step (grow a x)) \/
  (exists b b', head_step (grow a x) = Ok (inl b) /\ head_step (grow a' x) = Ok (inl b') /\
    head b <> None /\ strip b = strip b').
Proof.
  intros Hi Hs. pose proof (head_step_ok a Hi) as Ho. rewrite Hs in Ho. destruct Ho as (Hi' & Hr' & Hn').
  destruct (head a) as [h|] eqn:Hn; [unfold head_step in Hs; by rewrite Hn in Hs|].
  rewrite !head_step_eq by (try apply ainv_grow; done). rewrite head_step_eq in Hs by done.
  destruct (find_sub CRLF2 (sub (raw a) (head_start a) (blen (raw a)))) as [off|]; [by destruct (take_head _ _)|].
  injection Hs as <-. cbn [grow raw head_start]. destruct (find_sub _ _) as [off|]; [|by left].
  unfold take_head. cbn [grow raw head_start searched].
  destruct (http1_head _) as [[status fields]| |]; [|by left|by left]. rsimp.
  destruct (_ && _); [by left|]. destruct (framing status fields) as [f| |]; [|by left|by left]. right.
  eexists _, _. by repeat split.
Qed.

Lemma loop_head_some fuel a h : head a = Some h -> loop (S fuel) (fun a => step_of (head_step a)) a = Some (Ok (true, a)).
Proof. intros Hh. cbn. unfold head_step. by rewrite Hh. Qed.

Lemma find_head_resume a x w a' :
  ainv a -> find_head a = Ok (w, a') ->
  strip_r (find_head (grow a x)) = strip_r (if w then Ok (true, grow a' x) else find_head (grow a' x)).
Proof.
  intros Hi Hf. symmetry in Hf. apply (find_head_runs _ _ Hi) in Hf as [fuel Hf].
  enough (exists r f, loop f (fun a => step_of (head_step a)) (grow a x) = Some r /\
    strip_r r = strip_r (if w then Ok (true, grow a' x) else find_head (grow a' x))) as (r & f & Hl & <-).
  { f_equal. symmetry. apply find_head_runs; [by apply ainv_grow|eauto]. }
  revert a Hi Hf. induction fuel as [|fuel IH]; intros a Hi Hf; [done|]. cbn in Hf.
  pose proof (head_step_ok a Hi) as Ho.
  destruct (head_step a) as [[a1|[w1 a1]]| |] eqn:Hs; cbn in Hf; [|simplify_eq|done|done].
  - destruct Ho as (Hi1 & _). destruct (IH a1 Hi1 Hf) as (r & f & Hl & Hr). exists r, (S f). split; [|done].
    cbn. by rewrite (head_step_grow _ _ _ Hi Hs).
  - destruct Ho as (Hi1 & Hr1 & Hw). destruct w.
    { destruct Hw as [-> Hh]. destruct (head a) as [h|] eqn:Hah; [|done].
      exists (Ok (true, grow a x)), 1%nat. split; [|done]. by apply (loop_head_some _ _ h). }
    assert (ainv (grow a' x)) as Hig by by apply ainv_grow.
    destruct (find_head_loop _ Hig) as (r & Hl & Hr).
    assert (find_head (grow a' x) = r) as -> by (unfold find_head; by rewrite Hl).
    destruct (head_step_resume a x a' Hi Hs) as [He|(b & b' & Hb & Hb' & Hh & Hst)].
    + exists r, (S (S (length (raw (grow a' x))))). split; [|done]. rewrite <- Hl. cbn [loop]. by rewrite <- He.
    + assert (head b = head b') as Hbb by by rewrite <- (head_strip b), Hst, head_strip.
      destruct (head b) as [h|] eqn:Hhb; [|done].
      rewrite (loop_step _ _ _ b'), (loop_head_some _ _ h) in Hl by (rewrite ?Hb'; done).
      injection Hl as <-. exists (Ok (true, b)), 2%nat. split.
      * by rewrite (loop_step _ _ _ b), (loop_head_some 0 _ h) by (rewrite ?Hb; done).
      * unfold strip_r. cbn. by rewrite Hst.
Qed.

Lemma look_at_body_ok a h :
  ainv a -> head a = Some h ->
  match look_at_body a with
  | Ok (w, a') => ainv a' /\ raw a' = raw a /\ head a' <> None
  | Err _ => True
  | Panic => False
  end.
Proof.
  intros Hi Hh. pose proof Hi as Hi'. unfold ainv in Hi'. rewrite Hh in Hi'. destruct Hi' as (H0 & H1 & Hf).
  unfold look_at_body. rewrite Hh, slice_ok by lia. rsimp. destruct (framing_of h) as [n|d|]; [by rewrite Hh| |by rewrite Hh].
  destruct (advance_loop d _ Hf) as (r & Hl & Hr). unfold advance. fold (body_of a h). rewrite Hl. cbn [default].
  destruct r as [[w d']| |]; [|done|done]. rsimp. split; [|done]. unfold ainv. cbn. by repeat split; try apply Hr.
Qed.

(** The rest of [push] once the head was looked for. *)
Definition after_head (p : bool * Http1Answer) : res AetherError (bool * Http1Answer) :=
  let '(found, a) := p in if found : bool then look_at_body a else Ok (false, a).

Lemma push_eq a b :
  push a b = if MAX_BODY <? blen (raw a ++ b) then Err (Api (lit "the answer is too large"))
             else find_head (grow a b) ≫= after_head.
Proof. unfold push. cbn [raw]. destruct (_ <? _); [done|]. by destruct (find_head _) as [[[] ?]| |]. Qed.

Lemma after_head_strip w a : strip_r (after_head (w, strip a)) = strip_r (after_head (w, a)).
Proof.
  assert (strip (strip a) = strip a) as Hid by (unfold strip; destruct (head a) eqn:Hh; cbn; by rewrite ?Hh).
  destruct w; cbn; [|by rewrite Hid]. unfold look_at_body. rewrite head_strip, raw_strip.
  destruct (head a) as [h|]; [|done]. destruct (slice _ _ _) as [body| |]; [|done|done]. rsimp.
  destruct (framing_of h) as [n|d|]; [by cbn; rewrite Hid| |by cbn; rewrite Hid].
  destruct (advance d body) as [[w d']| |]; [|done|done]. rsimp. rewrite head_start_strip. done.
Qed.

Lemma bind_strip r r' : strip_r r = strip_r r' -> strip_r (r ≫= after_head) = strip_r (r' ≫= after_head).
Proof.
  destruct r as [[w a]| |], r' as [[w' a']| |]; try done.
  unfold strip_r at 1 2. cbn [fmap res_fmap]. intros [= <- Hs]. rsimp.
  rewrite <- (after_head_strip w a), Hs. apply after_head_strip.
Qed.

Lemma finish_strip a : finish (strip a) = finish a.
Proof. unfold finish. by rewrite head_strip, raw_strip. Qed.

(** A body that was looked at is looked at again once [x] has come. *)
Lemma look_resume a h x w a' :
  ainv a -> head a = Some h -> look_at_body a = Ok (w, a') ->
  if w then exists a2, look_at_body (grow a x) = Ok (true, a2) /\ finish a2 = finish a'
  else look_at_body (grow a x) = look_at_body (grow a' x).
Proof.
  intros Hi Hh. unfold ainv in Hi. rewrite Hh in Hi. destruct Hi as (H0 & H1 & Hf).
  unfold look_at_body. cbn [grow head raw]. rewrite Hh, !slice_ok by blia. rsimp. fold (body_of a h).
  rewrite sub_to_end by done. fold (body_of a h). destruct (framing_of h) as [n|d|] eqn:Hfr.
  - intros [= <- <-]. destruct (n <=? blen (body_of a h)) eqn:Hn.
    + exists (grow a x). zbool. rewrite (proj2 (Z.leb_le _ _)) by blia. split; [done|].
      unfold finish. cbn [grow head raw]. rewrite Hh, !slice_ok by blia. rsimp. rewrite sub_to_end by done.
      fold (body_of a h). rewrite Hfr, !(proj2 (Z.ltb_ge _ _)) by blia. rewrite !slice_ok by blia. by rewrite sub_app_l by lia.
    + rewrite Hh, Hfr, slice_ok by blia. rsimp. rewrite sub_to_end by done. by fold (body_of a h).
  - destruct (advance d (body_of a h)) as [[w1 d1]| |] eqn:Ha; [|done|done]. rsimp. intros [= <- <-].
    pose proof (advance_resume d _ x w1 d1 Hf Ha) as Hres. destruct w1.
    + destruct (advance_loop d _ Hf) as (r & Hl & Hr). unfold advance in Ha. rewrite Hl in Ha. cbn in Ha. subst r.
      destruct Hr as [Hi1 Hd1]. assert (d_done d1 = true) as Hdone by by apply Hd1.
      assert (advance d1 (body_of a h ++ x) = Ok (true, d1)) as H1' by (unfold advance; cbn; unfold advance_step; by rewrite Hdone).
      rewrite <- Hres, H1'. rsimp. eexists. split; [done|]. unfold finish. cbn [head raw body_start framing_of status fields].
      rewrite !slice_ok by blia. done.
    + rewrite <- Hres. cbn [head raw body_start framing_of status fields head_start searched grow].
      rewrite slice_ok by blia. rsimp. rewrite sub_to_end by done. fold (body_of a h). done.
  - intros [= <- <-]. by rewrite Hh, Hfr, slice_ok by blia.
Qed.

Lemma push_ok a b :
  ainv a ->
  match push a b with
  | Ok (_, a') => ainv a' /\ raw a' = raw a ++ b
  | Err _ => True
  | Panic => False
  end.
Proof.
  intros Hi. rewrite push_eq. destruct (_ <? _); [done|].
  destruct (find_head_loop (grow a b) (ainv_grow a b Hi)) as (r & Hl & Hr).
  assert (find_head (grow a b) = r) as -> by (unfold find_head; by rewrite Hl).
  destruct r as [[w a0]| |]; [|done|done]. destruct Hr as (Hi0 & Hr0 & Hw). rsimp. unfold after_head. destruct w; [|done].
  destruct (head a0) as [h|] eqn:Hh; [|by exfalso; apply Hw].
  pose proof (look_at_body_ok a0 h Hi0 Hh) as Hlook. destruct (look_at_body a0) as [[w' a1]| |]; [|done|done].
  destruct Hlook as (Hi1 & Hr1 & _). split; [done|]. by rewrite Hr1, Hr0.
Qed.

Lemma find_head_known a h : head a = Some h -> find_head a = Ok (true, a).
Proof. intros Hh. unfold find_head. by rewrite (loop_head_some _ _ h). Qed.

(** Pushing [b], then [x], is pushing [b ++ x]. *)
Lemma push_resume a b x w a1 :
  ainv a -> blen (raw a ++ b ++ x) <= MAX_BODY -> push a b = Ok (w, a1) ->
  if w then exists a2, push a (b ++ x) = Ok (true, a2) /\ finish a2 = finish a1
  else strip_r (push a (b ++ x)) = strip_r (push a1 x).
Proof.
  intros Hi Hm Hp. pose proof (push_ok a b Hi) as Hok. rewrite Hp in Hok. destruct Hok as [Hi1 Hr1].
  rewrite !push_eq in *. rewrite (proj2 (Z.ltb_ge _ _)) in Hp by blia.
  rewrite Hr1, <- !app_assoc, (proj2 (Z.ltb_ge _ _)) by lia.
  assert (grow a (b ++ x) = grow (grow a b) x) as -> by (unfold grow; cbn; by rewrite app_assoc).
  assert (ainv (grow a b)) as Hib by by apply ainv_grow.
  destruct (find_head_loop _ Hib) as (r & Hl & Hr).
  destruct (find_head (grow a b)) as [[f a0]| |] eqn:Hf; [|done|done].
  unfold find_head in Hf. rewrite Hl in Hf. cbn in Hf. subst r. destruct Hr as (Hi0 & Hr0 & Hw).
  assert (find_head (grow a b) = Ok (f, a0)) as Hf by (unfold find_head; by rewrite Hl).
  pose proof (find_head_resume _ x f a0 Hib Hf) as Hres. apply bind_strip in Hres.
  revert Hp. rsimp. unfold after_head at 1. destruct f.
  - destruct (head a0) as [h|] eqn:Hh; [|by exfalso; apply Hw]. intros Hlook.
    pose proof (look_resume a0 h x w a1 Hi0 Hh Hlook) as Hx.
    pose proof (look_at_body_ok a0 h Hi0 Hh) as Hl1. rewrite Hlook in Hl1. destruct Hl1 as (_ & _ & Hh1).
    cbn [mbind res_bind] in Hres. unfold after_head in Hres at 2. destruct w.
    + destruct Hx as (a2 & Ha2 & Hfin). rewrite Ha2 in Hres.
      destruct (find_head _ ≫= after_head) as [[w3 a3]| |]; try done. injection Hres as -> Hs. exists a3. split; [done|].
      by rewrite <- (finish_strip a3), Hs, finish_strip.
    + rewrite Hx in Hres. rewrite Hres. destruct (head a1) as [h1|] eqn:Hh1'; [|done].
      by rewrite (find_head_known (grow a1 x) h1).
  - by intros [= <- <-].
Qed.

Lemma ainv_default : ainv Http1Answer_default.
Proof. repeat split; try done. Qed.

Lemma read_answer_once a x :
  x <> [] -> read_answer a [x] = push a x ≫= fun p => finish p.2.
Proof. destruct x; [done|]. intros _. cbn [read_answer]. by destruct (push a _) as [[[] ?]| |]. Qed.

(** ** What the cut of the connection can change

    A line of a chunked body is refused for its length only while its end has not come, so that
    a line of more than [MAX_LINE] bytes is read or refused as the connection cuts it. *)

(** The turns of the loop of [advance] over a whole body. *)
Inductive turns (body : bytes) : Dechunker -> Dechunker -> Prop :=
| turns_refl d : turns body d d
| turns_step d d1 d2 : advance_step body d = Ok (inl d1) -> turns body d1 d2 -> turns body d d2.

(** A line is read at [d_at], and its end is not in its first [MAX_LINE] + 1 bytes. *)
Definition long_at (body : bytes) (d : Dechunker) : Prop :=
  d_done d = false /\ d_data d = None /\ MAX_LINE < blen body - d_at d /\
  find_sub CRLF (sub body (d_at d) (d_at d + (MAX_LINE + 1))) = None.

(** The answer has a chunked body, and reading it comes to such a line. *)
Definition long_line (answer : bytes) : Prop :=
  exists a h d, find_head (grow Http1Answer_default answer) = Ok (true, a) /\ head a = Some h /\
    framing_of h = Chunked Dechunker_default /\ turns (body_of a h) Dechunker_default d /\ long_at (body_of a h) d.

(** The state with its search begun anew. *)
Definition rewound (d : Dechunker) : Dechunker :=
  mkDechunker (d_at d) (d_at d) (d_data d) (d_trailer d) (d_done d) (d_joined d).

Lemma dinv_rewound d body : dinv d body -> dinv (rewound d) body.
Proof. intros (H0 & H1 & H2 & Hf & Hd & Hs). unfold dinv. cbn. repeat split; auto; try lia. by apply find_sub_nil_sub. Qed.

Lemma advance_step_moved body d d1 : advance_step body d = Ok (inl d1) -> rewound d1 = d1.
Proof.
  unfold advance_step. destruct (d_done d); [done|]. destruct (d_data d) as [size|].
  - unfold advance_data. destruct (ok_or _ _) as [e| |]; [|done|done]. rsimp. zcase; [done|].
    destruct (slice body (e - 2) e) as [m| |]; [|done|done]. rsimp. destruct (negb _); [done|].
    destruct (slice body (d_at d) (e - 2)) as [p| |]; [|done|done]. rsimp. by intros [= <-].
  - unfold advance_line. destruct (slice _ _ _) as [r| |]; [|done|done]. rsimp. destruct (find_sub _ _) as [off|]; [|destruct (blen body <? d_at d); [done|]; destruct (MAX_LINE <? blen body - d_at d); done].
    destruct (slice _ _ _) as [l| |]; [|done|done]. rsimp. destruct (d_trailer d); [by intros [= <-]|].
    destruct (chunk_size l); [|done]. rsimp. intros [= <-]. by zcase.
Qed.

Lemma advance_step_rewound body d d1 :
  dinv d body -> advance_step body d = Ok (inl d1) -> advance_step body (rewound d) = Ok (inl d1).
Proof.
  intros Hi. unfold advance_step. cbn [rewound d_done d_data]. destruct (d_done d); [done|]. destruct (d_data d) as [size|] eqn:Hd; [|].
  { unfold advance_data. cbn [rewound d_at d_trailer d_done d_joined]. destruct (ok_or _ _) as [e| |]; [|done|done]. rsimp. by zcase. }
  rewrite !advance_line_eq by auto using dinv_rewound. cbn [rewound d_at]. by destruct (find_sub _ _); [|zcase].
Qed.

(** A turn that fails fails in the same way once more has come, unless it refused a line for its length. *)
Lemma advance_step_app_err d body x e :
  dinv d body -> advance_step body d = Err e ->
  advance_step (body ++ x) d = Err e \/ (e = malformed "a line too long" /\ long_at (body ++ x) (rewound d)).
Proof.
  intros Hi. unfold advance_step. destruct (d_done d) eqn:Hdone; [done|]. destruct (d_data d) as [size|] eqn:Hdata.
  - destruct Hi as (H0 & H1 & H2 & Hr & Hd & Hs). rewrite Hdata in Hs. unfold advance_data.
    destruct (ok_or _ _) as [e'| |] eqn:He; [|by intros [= <-]; left|done]. rsimp. zcase; [done|].
    assert (d_at d + size + 2 = e') as <-.
    { unfold checked_add in He. destruct (d_at d + size <=? USIZE_MAX); [|done]. cbn in He.
      destruct (d_at d + size + 2 <=? USIZE_MAX); [|done]. by injection He. }
    rewrite (proj2 (Z.ltb_ge _ _)) by blia. rewrite !slice_ok by blia. rsimp. rewrite !sub_app_l by lia.
    destruct (negb _); [by left|done].
  - rewrite !advance_line_eq by auto using dinv_app. destruct Hi as (H0 & H1 & H2 & Hr).
    destruct (find_sub CRLF (sub body (d_at d) (blen body))) as [off|] eqn:Ho.
    + rewrite sub_to_end, (find_sub_app _ _ x _ Ho) by lia.
      apply find_sub_bounds in Ho as [? Hb]. rewrite blen_sub in Hb by lia. change (blen CRLF) with 2 in Hb.
      rewrite sub_app_l by lia. destruct (take_line _ _); [done|by left|done].
    + zcase; [|done]. intros [= <-]. right. split; [done|]. unfold long_at. cbn [rewound d_at d_done d_data].
      unfold MAX_LINE in *. repeat split; [done|done|blia|]. rewrite sub_app_l by lia.
      set (l := sub body (d_at d) (blen body)) in *. assert (blen l = blen body - d_at d) as Hl by (subst l; rewrite blen_sub; lia).
      assert (sub l 0 (8 * 1024 + 1) = sub body (d_at d) (d_at d + (8 * 1024 + 1))) as <- by (subst l; rewrite sub_sub, Z.add_0_r by lia; done).
      pose proof (sub_split l 0 (8 * 1024 + 1) ltac:(lia) ltac:(lia) ltac:(lia)) as Hsp. rewrite (sub_empty l 0 0) in Hsp by lia. cbn [app] in Hsp.
      destruct (find_sub CRLF (sub l 0 (8 * 1024 + 1))) as [i|] eqn:Hc; [exfalso|done].
      apply (find_sub_app _ _ (sub l (8 * 1024 + 1) (blen l))) in Hc. rewrite <- Hsp in Hc. congruence.
Qed.

Lemma advance_err d body x e :
  dinv d body -> advance d body = Err e ->
  advance d (body ++ x) = Err e \/
  (e = malformed "a line too long" /\ exists d1, turns (body ++ x) (rewound d) d1 /\ long_at (body ++ x) d1).
Proof.
  intros Hi Ha. symmetry in Ha. apply (advance_runs _ _ _ Hi) in Ha as [fuel Hf].
  assert (dinv d (body ++ x)) as Hix by auto using dinv_app.
  enough ((exists f, loop f (fun d => step_of (advance_step (body ++ x) d)) d = Some (Err e)) \/
    (e = malformed "a line too long" /\ exists d1, turns (body ++ x) (rewound d) d1 /\ long_at (body ++ x) d1)) as [[f Hl]|Hl]; [|by right|].
  { left. symmetry. apply (advance_runs _ _ _ Hix). eauto. }
  revert d Hi Hix Hf. induction fuel as [|fuel IH]; intros d Hi Hix Hf; [done|]. cbn in Hf.
  pose proof (advance_step_ok d body Hi) as Ho.
  destruct (advance_step body d) as [[d1|[w1 d1]]| |] eqn:Hs; cbn in Hf; [|done| |done].
  - destruct Ho as [Hi1 _]. pose proof (advance_step_app _ _ x _ Hi Hs) as Hsx.
    destruct (IH d1) as [[f Hf1]|(He & d2 & Ht & Hl)]; auto using dinv_app.
    + left. exists (S f). cbn. by rewrite Hsx.
    + right. split; [done|]. exists d2. split; [|done]. apply turns_step with d1; [by apply advance_step_rewound|].
      by rewrite <- (advance_step_moved _ _ _ Hs).
  - injection Hf as ->. destruct (advance_step_app_err d body x e Hi Hs) as [Hx|[He Hl]].
    + left. exists 1%nat. cbn. by rewrite Hx.
    + right. split; [done|]. exists (rewound d). split; [apply turns_refl|done].
Qed.

(** ** What reading any cut of an answer gives *)

Definition fresh (a : Http1Answer) : Prop :=
  match head a with
  | Some h => match framing_of h with Chunked d => d = Dechunker_default | _ => True end
  | None => True
  end.

Lemma take_head_fresh a h a' : take_head a h = Ok a' -> fresh a'.
Proof.
  unfold take_head. destruct (http1_head h) as [[status fields]| |]; [|done|done]. rsimp. destruct (_ && _); [by intros [= <-]|].
  pose proof (framing_ok status fields) as Hf. destruct (framing status fields) as [f| |]; [|done|done]. rsimp. intros [= <-].
  unfold fresh. cbn. by destruct f.
Qed.

Lemma head_step_fresh a a' : ainv a -> head_step a = Ok (inl a') -> fresh a'.
Proof.
  intros Hi. destruct (head a) as [h|] eqn:Hn; [unfold head_step; by rewrite Hn|]. rewrite head_step_eq by done.
  destruct (find_sub _ _); [|done]. destruct (take_head _ _) as [b| |] eqn:Ht; [|done|done]. intros [= <-]. by eapply take_head_fresh.
Qed.

Lemma find_head_fresh a w a' : ainv a -> fresh a -> find_head a = Ok (w, a') -> fresh a'.
Proof.
  intros Hi Hfr Hf. symmetry in Hf. apply (find_head_runs _ _ Hi) in Hf as [fuel Hf].
  revert a Hi Hfr Hf. induction fuel as [|fuel IH]; intros a Hi Hfr Hf; [done|]. cbn in Hf. pose proof (head_step_ok a Hi) as Ho.
  destruct (head_step a) as [[a1|[w1 a1]]| |] eqn:Hs; cbn in Hf; [|simplify_eq|done|done].
  - destruct Ho as (Hi1 & _). apply (IH a1); [done|by apply (head_step_fresh a)|done].
  - destruct Ho as (_ & _ & Hw). destruct w; [by destruct Hw as [-> _]|]. unfold fresh. by rewrite Hw.
Qed.

(** A head that is refused is refused when more has come. *)
Lemma head_step_err a x e : ainv a -> head_step a = Err e -> head_step (grow a x) = Err e.
Proof.
  intros Hi. destruct (head a) as [h|] eqn:Hn; [unfold head_step; by rewrite Hn|].
  rewrite !head_step_eq by (try apply ainv_grow; done). cbn [grow raw head_start].
  unfold ainv in Hi. rewrite Hn in Hi. destruct Hi as (H0 & H1 & H2 & Hf).
  destruct (find_sub CRLF2 (sub (raw a) (head_start a) (blen (raw a)))) as [off|] eqn:Ho; [|done].
  rewrite sub_to_end, (find_sub_app _ _ x _ Ho) by lia.
  apply find_sub_bounds in Ho as [? Hb]. rewrite blen_sub in Hb by lia. change (blen CRLF2) with 4 in Hb.
  rewrite sub_app_l by lia. rewrite take_head_grow. by destruct (take_head _ _) as [b| |].
Qed.

Lemma find_head_err a x e : ainv a -> find_head a = Err e -> find_head (grow a x) = Err e.
Proof.
  intros Hi Hf. symmetry in Hf. apply (find_head_runs _ _ Hi) in Hf as [fuel Hf].
  symmetry. apply find_head_runs; [by apply ainv_grow|]. revert a Hi Hf. induction fuel as [|fuel IH]; intros a Hi Hf; [done|]. cbn in Hf.
  pose proof (head_step_ok a Hi) as Ho. destruct (head_step a) as [[a1|[w1 a1]]|e1|] eqn:Hs; cbn in Hf; [|done| |done].
  - destruct Ho as (Hi1 & _). destruct (IH a1 Hi1 Hf) as [f Hf1]. exists (S f). cbn. by rewrite (head_step_grow _ _ _ Hi Hs).
  - injection Hf as ->. exists 1%nat. cbn. by rewrite (head_step_err _ _ _ Hi Hs).
Qed.

(** The first bytes of an answer that are refused are refused with what follows, unless it was a
    line that was refused for its length. *)
Lemma push_err p x e :
  blen (p ++ x) <= MAX_BODY -> push Http1Answer_default p = Err e ->
  push Http1Answer_default (p ++ x) = Err e \/ (e = malformed "a line too long" /\ long_line (p ++ x)).
Proof.
  intros Hm. rewrite !push_eq. cbn [Http1Answer_default raw app]. rewrite !(proj2 (Z.ltb_ge _ _)) by blia.
  set (a := grow Http1Answer_default p). assert (grow Http1Answer_default (p ++ x) = grow a x) as Hg by done.
  assert (ainv a) as Hi by (apply ainv_grow, ainv_default). unfold long_line. rewrite Hg.
  destruct (find_head_loop a Hi) as (r & Hl & Hr). assert (find_head a = r) as Hf by (unfold find_head; by rewrite Hl). rewrite Hf.
  destruct r as [[w a0]|e1|]; [| |done].
  2:{ intros [= ->]. left. by rewrite (find_head_err _ _ _ Hi Hf). }
  destruct Hr as (Hi0 & Hr0 & Hw). pose proof (find_head_fresh _ _ _ Hi ltac:(done) Hf) as Hfr. rsimp. unfold after_head at 1. destruct w; [|done].
  destruct (head a0) as [h|] eqn:Hh; [|by exfalso; apply Hw]. intros Hlook.
  pose proof (find_head_resume _ x _ _ Hi Hf) as Hres. cbn [strip_r] in Hres.
  unfold look_at_body in Hlook. unfold fresh in Hfr. unfold ainv in Hi0. rewrite Hh in Hlook, Hfr, Hi0. destruct Hi0 as (H0 & H1 & Hb).
  rewrite slice_ok in Hlook by lia. revert Hlook. rsimp. fold (body_of a0 h). destruct (framing_of h) as [n|d|] eqn:Hfrm; [done| |done].
  subst d. destruct (advance Dechunker_default (body_of a0 h)) as [[w1 d1]|e1|] eqn:Ha; [done| |done]. intros [= ->].
  assert (exists a1, find_head (grow a x) = Ok (true, a1) /\ head a1 = Some h /\ raw a1 = raw a0 ++ x) as (a1 & Hf1 & Hh1 & Hr1).
  { destruct (find_head (grow a x)) as [[w1 a1]| |]; [|done|done]. injection Hres as -> Hs. exists a1. split; [done|].
    split; [by rewrite <- head_strip, Hs, head_strip|]. by rewrite <- (raw_strip a1), Hs, raw_strip. }
  assert (body_of a1 h = body_of a0 h ++ x) as Hb1 by (rewrite <- (body_of_grow a0 h x) by done; unfold body_of; by rewrite Hr1).
  destruct (advance_err _ _ x _ Hb Ha) as [Hx|(He & d1 & Ht & Hlong)].
  - left. rewrite Hf1. rsimp. unfold after_head, look_at_body. rewrite Hh1, slice_ok by (rewrite ?Hr1; blia). rsimp.
    fold (body_of a1 h). by rewrite Hb1, Hfrm, Hx.
  - right. split; [done|]. exists a1, h, d1. by rewrite Hb1.
Qed.

(** Reading chunks gives what reading their bytes at once gives, or the error that reading the
    bytes of the first of them gives. *)
Lemma read_answer_cut chunks : forall a,
  ainv a -> Forall (fun c => c <> []) chunks -> blen (raw a ++ concat chunks) <= MAX_BODY ->
  read_answer a chunks = read_answer a [concat chunks] \/
  exists p s e, concat chunks = p ++ s /\ push a p = Err e /\ read_answer a chunks = Err e.
Proof.
  induction chunks as [|c cs IH]; intros a Hi Hne Hm; [by left|].
  apply Forall_cons in Hne as [Hc Hcs]. cbn [concat] in *. rewrite read_answer_once by (by destruct c).
  assert (read_answer a (c :: cs) = '(w, a1) ← push a c; if w : bool then finish a1 else read_answer a1 cs) as -> by by destruct c.
  destruct (push a c) as [[w a1]|e|] eqn:Hp; [|right; by exists c, (concat cs), e|by pose proof (push_ok a c Hi) as H; rewrite Hp in H].
  pose proof (fun x Hx => push_resume a c x w a1 Hi Hx Hp) as Hres. pose proof (push_ok a c Hi) as Hok. rewrite Hp in Hok.
  destruct Hok as [Hi1 Hr1]. rsimp. destruct w.
  { left. destruct (Hres (concat cs) Hm) as (a2 & -> & Hfin). cbn. by rewrite Hfin. }
  assert (blen (raw a1 ++ concat cs) <= MAX_BODY) as Hm1 by by rewrite Hr1, <- app_assoc.
  destruct (IH a1 Hi1 Hcs Hm1) as [->|(p & s & e & Hps & Hpp & ->)].
  - left. destruct (concat cs) as [|b rest] eqn:Hcc; [rewrite app_nil_r, Hp; done|]. rewrite read_answer_once by done.
    specialize (Hres (b :: rest) Hm). cbn zeta iota in Hres.
    destruct (push a (c ++ _)) as [[w3 a3]| |], (push a1 _) as [[w4 a4]| |]; try done; [|by injection Hres as ->].
    injection Hres as _ Hs. cbn. by rewrite <- (finish_strip a3), Hs, finish_strip.
  - right. exists (c ++ p), s, e. split; [by rewrite Hps, app_assoc|]. split; [|done].
    assert (blen (raw a ++ c ++ p) <= MAX_BODY) as Hmp by (rewrite Hps in Hm; pose proof (blen_nonneg s); rewrite !blen_app in *; lia).
    specialize (Hres p Hmp). cbn zeta iota in Hres. rewrite Hpp in Hres.
    by destruct (push a (c ++ p)) as [[w3 a3]| |].
Qed.

(** C38.  What comes of reading an answer of at most [MAX_BODY] bytes does not depend on how the
    connection cuts it, the errors included: read from any chunks, though each byte is searched
    about once, it is what is read from their bytes at once.  The one exception is a line of a
    chunked body of [MAX_LINE] bytes or more, which is refused as too long when it is read before
    its end has come; then, and only then, the outcome may be that error. *)
Theorem read_answer_chunks chunks :
  Forall (fun c => c <> []) chunks -> blen (concat chunks) <= MAX_BODY ->
  let once := read_answer Http1Answer_default [concat chunks] in
  read_answer Http1Answer_default chunks = once \/
  (read_answer Http1Answer_default chunks = Err (malformed "a line too long") /\ long_line (concat chunks)).
Proof.
  intros Hne Hm once. destruct (read_answer_cut chunks Http1Answer_default ainv_default Hne Hm) as [H|(p & s & e & Hps & Hp & He)]; [by left|].
  rewrite Hps in Hm. destruct (push_err p s e Hm Hp) as [Hx|[-> Hl]].
  - left. subst once. rewrite He, Hps. destruct (p ++ s) as [|b rest]; [by cbn in Hx|]. rewrite read_answer_once by done. by rewrite Hx.
  - right. by rewrite Hps.
Qed.

Lemma read_answer_inv chunks : forall a, ainv a -> read_answer a chunks <> Panic.
Proof.
  assert (forall a, ainv a -> finish a <> Panic) as Hfin.
  { intros a Hi. unfold finish, ainv in *. destruct (head a) as [h|]; [|done]. destruct Hi as (H0 & H1 & Hf).
    rewrite slice_ok by lia. rsimp. destruct (framing_of h) as [n|d|]; [| |done].
    - zcase; [done|]. by rewrite slice_ok by lia.
    - unfold Dechunker_finish. by destruct (d_done d). }
  induction chunks as [|[|b c] cs IH]; intros a Hi; [by apply Hfin|by apply Hfin|].
  cbn [read_answer]. pose proof (push_ok a (b :: c) Hi) as Hp. destruct (push a (b :: c)) as [[w a1]| |]; [|done|done].
  rsimp. destruct Hp as [Hp _]. destruct w; [by apply Hfin|by apply IH].
Qed.

(** Whatever bytes a server sends and however they are cut, reading the
    answer ends and does not panic. *)
Theorem read_answer_no_panic chunks : read_answer Http1Answer_default chunks <> Panic.
Proof. apply read_answer_inv, ainv_default. Qed.

(** ** Chunked bodies read back *)

(** The pieces of a chunked body, each the line before its data and its data. *)
Definition enc_pieces (pieces : list (bytes * bytes)) : bytes :=
  concat (map (fun '(line, data) => line ++ CRLF ++ data ++ CRLF) pieces).
Definition enc_trailer (trailer : list bytes) : bytes := concat (map (fun line => line ++ CRLF) trailer).
Definition enc_chunked (pieces : list (bytes * bytes)) (last : bytes) (trailer : list bytes) : bytes :=
  enc_pieces pieces ++ last ++ CRLF ++ enc_trailer trailer ++ CRLF.

Definition piece_ok (p : bytes * bytes) : Prop :=
  p.2 <> [] /\ no_char 13 p.1 = true /\ chunk_size p.1 = Some (blen p.2).
Definition field_line (line : bytes) : Prop := line <> [] /\ no_char 13 line = true.

(** The state at the start of a line. *)
Definition at_line (at_ : Z) (trailer : bool) (joined : bytes) : Dechunker := mkDechunker at_ at_ None trailer false joined.

Lemma dinv_at body at_ data trailer done_ joined :
  0 <= at_ <= blen body -> match data with Some size => 0 < size | None => True end ->
  dinv (mkDechunker at_ at_ data trailer done_ joined) body.
Proof. intros ? Hd. unfold dinv. cbn. repeat split; try lia; try done. by apply find_sub_nil_sub. Qed.

Lemma line_turn pre line rest trailer joined d' :
  no_char 13 line = true -> take_line (at_line (blen pre) trailer joined) line = Ok d' ->
  advance_step (pre ++ line ++ CRLF ++ rest) (at_line (blen pre) trailer joined) = Ok (inl d').
Proof.
  intros Hn Ht. change (advance_step ?b (at_line ?x ?t ?j)) with (advance_line b (at_line x t j)).
  rewrite advance_line_eq by (try (apply dinv_at; [blia|]); done). cbn [d_at at_line].
  rewrite (sub_at _ pre (line ++ CRLF ++ rest) []) by (rewrite ?app_nil_r; done || blia).
  rewrite find_crlf by done. rewrite (sub_at _ pre line (CRLF ++ rest)) by (solve_app || blia). by rewrite Ht.
Qed.

Lemma data_turn pre data rest joined :
  data <> [] -> blen pre + blen data + 2 <= USIZE_MAX ->
  advance_step (pre ++ data ++ CRLF ++ rest) (mkDechunker (blen pre) (blen pre) (Some (blen data)) false false joined)
  = Ok (inl (at_line (blen (pre ++ data ++ CRLF)) false (joined ++ data))).
Proof.
  intros Hd Hm. unfold advance_step, advance_data. cbn [d_done d_data d_at].
  unfold checked_add. rewrite (proj2 (Z.leb_le _ _)) by lia. cbn [mbind option_bind]. rewrite (proj2 (Z.leb_le _ _)) by lia. rsimp.
  assert (blen (pre ++ data ++ CRLF ++ rest) = blen pre + blen data + 2 + blen rest) as Hl.
  { rewrite !blen_app. change (blen CRLF) with 2. lia. }
  pose proof (blen_nonneg pre). pose proof (blen_nonneg data). pose proof (blen_nonneg rest).
  rewrite (proj2 (Z.ltb_ge _ _)) by lia. rewrite !slice_ok by lia. rsimp.
  rewrite (sub_at _ (pre ++ data) CRLF rest) by (solve_app || (rewrite ?blen_app; change (blen CRLF) with 2; lia)).
  rewrite bool_decide_true by done. cbn [negb].
  rewrite (sub_at _ pre data (CRLF ++ rest)) by (solve_app || lia). unfold at_line. cbn [d_trailer d_done d_joined].
  by rewrite !blen_app, Z.add_assoc.
Qed.

Lemma trailer_turns trailer : forall pre rest joined,
  Forall field_line trailer ->
  exists fuel d', loop fuel (fun d => step_of (advance_step (pre ++ enc_trailer trailer ++ CRLF ++ rest) d))
      (at_line (blen pre) true joined) = Some (Ok (true, d')) /\ d_done d' = true /\ d_joined d' = joined.
Proof.
  induction trailer as [|line trailer IH]; intros pre rest joined Ht.
  - eexists 2%nat, _. rewrite (loop_step _ _ _ (mkDechunker (blen pre + 0 + 2) (blen pre + 0 + 2) None true true joined)).
    { by split. }
    change (enc_trailer [] ++ CRLF ++ rest) with ([] ++ CRLF ++ rest). by rewrite (line_turn pre [] rest true joined _ eq_refl eq_refl).
  - apply Forall_cons in Ht as [[Hne Hn] Ht].
    destruct (IH (pre ++ line ++ CRLF) rest joined Ht) as (fuel & d' & Hl & Hd). exists (S fuel), d'. split; [|done].
    assert (pre ++ enc_trailer (line :: trailer) ++ CRLF ++ rest = (pre ++ line ++ CRLF) ++ enc_trailer trailer ++ CRLF ++ rest) as ->.
    { unfold enc_trailer. cbn [map concat]. by rewrite <- !app_assoc. }
    rewrite (loop_step _ _ _ (at_line (blen (pre ++ line ++ CRLF)) true joined)); [done|].
    rewrite <- !app_assoc. erewrite (line_turn pre line); [done|done|].
    unfold take_line, at_line. cbn [d_trailer d_at d_data d_joined]. rewrite bool_decide_false by done.
    rewrite !blen_app, Z.add_assoc. done.
Qed.

Lemma piece_turns pieces : forall pre last trailer rest joined,
  Forall piece_ok pieces -> no_char 13 last = true -> chunk_size last = Some 0 -> Forall field_line trailer ->
  blen (pre ++ enc_pieces pieces) <= USIZE_MAX ->
  exists fuel d', loop fuel (fun d => step_of (advance_step (pre ++ enc_chunked pieces last trailer ++ rest) d))
      (at_line (blen pre) false joined) = Some (Ok (true, d')) /\
    d_done d' = true /\ d_joined d' = joined ++ concat (map snd pieces).
Proof.
  induction pieces as [|[line data] pieces IH]; intros pre last trailer rest joined Hp Hl0 Hl1 Ht Hm.
  - destruct (trailer_turns trailer (pre ++ last ++ CRLF) rest joined Ht) as (fuel & d' & Hl & Hd & Hj).
    exists (S fuel), d'. rewrite app_nil_r. split; [|done].
    assert (pre ++ enc_chunked [] last trailer ++ rest = (pre ++ last ++ CRLF) ++ enc_trailer trailer ++ CRLF ++ rest) as ->.
    { unfold enc_chunked. cbn [enc_pieces map concat]. by rewrite <- !app_assoc. }
    rewrite (loop_step _ _ _ (at_line (blen (pre ++ last ++ CRLF)) true joined)); [done|].
    rewrite <- !app_assoc. erewrite (line_turn pre last); [done|done|].
    unfold take_line, at_line. cbn [d_trailer d_at d_data d_joined d_done]. rewrite Hl1. rsimp.
    rewrite !blen_app, Z.add_assoc. done.
  - apply Forall_cons in Hp as [(Hd & Hn & Hs) Hp]. cbn [fst snd] in *.
    assert (enc_pieces ((line, data) :: pieces) = line ++ CRLF ++ data ++ CRLF ++ enc_pieces pieces) as He.
    { unfold enc_pieces. cbn [map concat]. by rewrite <- !app_assoc. }
    rewrite He in Hm. change (blen CRLF) with 2 in Hm.
    destruct (IH (pre ++ line ++ CRLF ++ data ++ CRLF) last trailer rest (joined ++ data) Hp Hl0 Hl1 Ht) as (fuel & d' & Hl & Hdn & Hj).
    { by rewrite <- !app_assoc. }
    exists (S (S fuel)), d'. split; [|split; [done|]; cbn [map concat]; by rewrite Hj, <- app_assoc].
    unfold enc_chunked in *. rewrite He. rewrite <- !app_assoc in *.
    rewrite (loop_step _ _ _ (mkDechunker (blen (pre ++ line ++ CRLF)) (blen (pre ++ line ++ CRLF)) (Some (blen data)) false false joined)).
    2:{ erewrite (line_turn pre line); [done|done|]. unfold take_line, at_line. cbn [d_trailer d_at d_data d_joined d_done]. rewrite Hs. rsimp.
        assert (blen data =? 0 = false) as -> by (apply Z.eqb_neq; destruct data; [done|]; blia).
        by rewrite !blen_app, Z.add_assoc. }
    rewrite (loop_step _ _ _ (at_line (blen ((pre ++ line ++ CRLF) ++ data ++ CRLF)) false (joined ++ data))).
    + by rewrite <- !app_assoc.
    + replace (pre ++ line ++ CRLF ++ data ++ CRLF ++ enc_pieces pieces ++ last ++ CRLF ++ enc_trailer trailer ++ CRLF ++ rest)
        with ((pre ++ line ++ CRLF) ++ data ++ CRLF ++ enc_pieces pieces ++ last ++ CRLF ++ enc_trailer trailer ++ CRLF ++ rest)
        by by rewrite <- !app_assoc.
      rewrite data_turn; [done|done|]. rewrite !blen_app in *. change (blen CRLF) with 2 in *.
      pose proof (blen_nonneg (enc_pieces pieces)). lia.
Qed.

(** A chunked answer is read to the data of its chunks, joined, whatever the
    extensions of its chunks, its trailer, and the bytes after it. *)
Theorem read_answer_chunked h status fields pieces last trailer rest :
  find_sub CRLF2 (h ++ CRLF2) = Some (blen h) -> http1_head h = Ok (status, fields) ->
  ~ (100 <= status < 200 /\ status <> 101) -> framing status fields = Ok (Chunked Dechunker_default) ->
  Forall piece_ok pieces -> no_char 13 last = true -> chunk_size last = Some 0 -> Forall field_line trailer ->
  blen (h ++ CRLF2 ++ enc_chunked pieces last trailer ++ rest) <= MAX_BODY ->
  read_answer Http1Answer_default [h ++ CRLF2 ++ enc_chunked pieces last trailer ++ rest]
  = Ok (status, fields, concat (map snd pieces)).
Proof.
  intros Hh H1 Hst Hfr Hp Hl0 Hl1 Ht Hm. rewrite read_answer_once by (by destruct h).
  remember (enc_chunked pieces last trailer ++ rest) as body eqn:Hb.
  rewrite push_eq. cbn [Http1Answer_default raw app]. rewrite (proj2 (Z.ltb_ge _ _)) by done.
  set (a := grow Http1Answer_default (h ++ CRLF2 ++ body)).
  assert (ainv a) as Hi by (apply ainv_grow, ainv_default).
  assert (head_step a = Ok (inl (mkHttp1Answer (raw a) 0 0 (Some (mkHttp1Head status fields (blen (h ++ CRLF2)) (Chunked Dechunker_default)))))) as Hs.
  { rewrite head_step_eq by done. subst a. cbn [grow raw head_start Http1Answer_default app].
    rewrite sub_all, app_assoc, (find_sub_app _ _ body _ Hh), <- app_assoc, Z.add_0_l.
    rewrite (sub_at _ [] h (CRLF2 ++ body)) by (solve_app || done). unfold take_head. rewrite H1. rsimp.
    destruct (_ && _) eqn:Hc; [zbool; lia|]. rewrite Hfr. rsimp. by rewrite blen_app. }
  assert (find_head a = Ok (true, mkHttp1Answer (raw a) 0 0 (Some (mkHttp1Head status fields (blen (h ++ CRLF2)) (Chunked Dechunker_default))))) as ->.
  { symmetry. apply find_head_runs; [done|]. exists 2%nat. erewrite loop_step; [|by rewrite Hs]. done. }
  rsimp. unfold after_head, look_at_body. cbn [head body_start raw framing_of].
  pose proof (blen_nonneg body). assert (blen (raw a) = blen (h ++ CRLF2) + blen body) as Hla.
  { subst a. cbn [grow raw Http1Answer_default app]. by rewrite app_assoc, blen_app. }
  pose proof (blen_nonneg (h ++ CRLF2)). rewrite slice_ok by lia. rsimp.
  rewrite (sub_at _ (h ++ CRLF2) body []) by (rewrite ?app_nil_r; done || (subst a; cbn [grow raw Http1Answer_default app]; solve_app) || lia).
  destruct (piece_turns pieces [] last trailer rest [] Hp Hl0 Hl1 Ht) as (fuel & d' & Hl & Hd & Hj).
  { cbn [app]. revert Hm. rewrite Hb. unfold enc_chunked, MAX_BODY, USIZE_MAX, U64_MAX. rewrite !blen_app.
    pose proof (blen_nonneg h). pose proof (blen_nonneg last). pose proof (blen_nonneg (enc_trailer trailer)). pose proof (blen_nonneg rest).
    pose proof (blen_nonneg CRLF2). pose proof (blen_nonneg CRLF). lia. }
  assert (advance Dechunker_default body = Ok (true, d')) as ->.
  { symmetry. apply advance_runs; [by apply dinv_at|]. rewrite Hb. by exists fuel. }
  rsimp. unfold finish. cbn [head raw body_start framing_of snd]. rewrite slice_ok by lia. rsimp.
  unfold Dechunker_finish. rewrite Hd. rsimp. by rewrite Hj.
Qed.

(** ** Witnesses *)

Definition example_head : bytes := lit "HTTP/1.1 200 OK" ++ CRLF ++ lit "Transfer-Encoding: chunked".

Lemma read_answer_chunked_witness :
  read_answer Http1Answer_default
    [example_head ++ CRLF2 ++ enc_chunked [(lit "4", lit "Wiki"); (lit "5;x=y", lit "pedia")] (lit "0") [lit "X: y"] ++ lit "junk"]
  = Ok (200, [(lit "Transfer-Encoding", lit "chunked")], lit "Wikipedia").
Proof.
  apply (read_answer_chunked example_head 200 _ [(lit "4", lit "Wiki"); (lit "5;x=y", lit "pedia")] (lit "0") [lit "X: y"]).
  - reflexivity.
  - reflexivity.
  - lia.
  - reflexivity.
  - repeat constructor; done.
  - reflexivity.
  - reflexivity.
  - repeat constructor; done.
  - vm_compute. discriminate.
Defined.

Lemma read_answer_chunks_witness :
  let chunks := [lit "HTTP/1.1 20"; lit "4 No Content" ++ CRLF; CRLF; lit "junk"] in
  read_answer Http1Answer_default chunks = read_answer Http1Answer_default [concat chunks]
  /\ read_answer Http1Answer_default chunks = Ok (204, [], []).
Proof.
  intros chunks. destruct (read_answer_chunks chunks) as [H|[H _]].
  - repeat constructor; discriminate.
  - vm_compute. discriminate.
  - split; [exact H|]. reflexivity.
  - vm_compute in H. discriminate H.
Defined.

(** A chunk size with an extension of 9000 bytes is refused when it is read before its end has
    come, and taken when it comes at once, although [MAX_LINE] is said to be the longest line that
    is read. *)
Definition long_chunk_line : bytes := lit "1;" ++ replicate 9000 120.
Definition after_line : bytes := CRLF ++ lit "a" ++ CRLF ++ lit "0" ++ CRLF ++ CRLF.
Example long_line_as_it_is_cut :
  read_answer Http1Answer_default [example_head ++ CRLF2 ++ long_chunk_line; after_line] = Err (malformed "a line too long")
  /\ read_answer Http1Answer_default [example_head ++ CRLF2 ++ long_chunk_line ++ after_line]
    = Ok (200, [(lit "Transfer-Encoding", lit "chunked")], lit "a").
Proof. split; vm_compute; reflexivity. Qed.

End Https.
