(* ===== verification/Fragment.v ===== *)
(** * ClientHello fragmentation ([aether/src/fragment.rs])

    The configuration, the position of the server name in a ClientHello, and the
    writer that passes its bytes on in small pieces ([FragmentingStream]).  The
    generator of the [rand] crate is an argument: what it draws between two
    bounds.  The inner stream is an argument too: its answer to each poll, and
    whether the pending sleep has elapsed. *)

From S2P Require Import Prelude Str Sniff.
Local Open Scope Z_scope.

Module Fragment.

Record FragmentConfig := mkConfig {
  enabled : bool;
  size_min : Z;
  size_max : Z;
  delay_min_ms : Z;
  delay_max_ms : Z;
  sni_split : bool;
}.

Definition disabled : FragmentConfig := mkConfig false 1 1 0 0 false.

Section env.
Context `{UnicodeCase}.

Definition is_truthy (v : bytes) : bool :=
  bool_decide (to_lowercase (trim v) ∈ [lit "1"; lit "true"; lit "yes"; lit "on"]).

Definition parse_range (spec : bytes) (dflt : Z * Z) : Z * Z :=
  let spec := trim spec in
  if bool_decide (spec = []) then dflt
  else match split_once 45 spec with
       | Some (a, b) =>
           let lo := default dflt.1 (parse_u64 (trim a)) in
           let hi := default dflt.2 (parse_u64 (trim b)) in
           if hi <? lo then (hi, lo) else (lo, hi)
       | None => let v := default dflt.1 (parse_u64 spec) in (v, v)
       end.

Definition from_env (env : bytes -> option bytes) : FragmentConfig :=
  let enabled := default false (is_truthy <$> env (lit "AETHER_MASQUE_H2_FRAGMENT")) in
  let '(size_min, size_max) := parse_range (default [] (env (lit "AETHER_MASQUE_H2_FRAGMENT_SIZE"))) (8, 16) in
  let '(delay_min_ms, delay_max_ms) := parse_range (default [] (env (lit "AETHER_MASQUE_H2_FRAGMENT_DELAY"))) (2, 10) in
  let size_min := Z.max size_min 1 in
  let size_max := Z.max size_max size_min in
  let sni_split := default false (is_truthy <$> env (lit "AETHER_MASQUE_H2_FRAGMENT_SNI")) in
  mkConfig enabled size_min size_max delay_min_ms (Z.max delay_max_ms delay_min_ms) sni_split.
End env.

(** What [random_range(lo..=hi)] draws. *)
Definition Rng : Type := Z -> Z -> Z.

Definition pick_chunk_len (rng : Rng) (c : FragmentConfig) (remaining : Z) : Z :=
  let hi := Z.min (Z.max (size_max c) 1) remaining in
  let lo := Z.min (Z.max (size_min c) 1) hi in
  if hi <=? lo then hi else rng lo hi.

(** Milliseconds. *)
Definition pick_delay (rng : Rng) (c : FragmentConfig) : Z :=
  if delay_max_ms c =? 0 then 0
  else if delay_max_ms c <=? delay_min_ms c then delay_min_ms c
  else rng (delay_min_ms c) (delay_max_ms c).

(** ** The server name's place *)

(** The big-endian number in [n] bytes at [at_]. *)
Definition take_at (buf : bytes) (at_ n : Z) : option Z :=
  end_ ← checked_add at_ n;
  slice ← bslice buf at_ end_;
  Some (fold_left (fun acc b => Z.lor (Z.shiftl acc 8) b) slice 0).

(** One turn of the loop over the extensions. *)
Definition range_step (buf : bytes) (extensions_end : Z) (at_ : Z) : Z + option (Z * Z) :=
  if at_ + 4 <=? extensions_end then
    match take_at buf at_ 2, take_at buf (at_ + 2) 2 with
    | Some kind, Some len =>
        let body := at_ + 4 in
        if kind =? 0 then
          let entry := body + 2 in
          inr (first ← take_at buf entry 1;
               if negb (first =? 0) then None
               else
                 host_len ← take_at buf (entry + 1) 2;
                 let host := entry + 3 in
                 if (host_len =? 0) || (blen buf <? host + host_len) then None
                 else Some (host, host + host_len))
        else inl (body + len)
    | _, _ => inr None
    end
  else inr None.

Definition sni_host_range (buf : bytes) : option (Z * Z) :=
  first ← bget buf 0;
  if negb (first =? 22) then None
  else
    kind ← bget buf 5;
    if negb (kind =? 1) then None
    else
      let at_ := 43 in
      n ← take_at buf at_ 1; let at_ := at_ + (1 + n) in
      n ← take_at buf at_ 2; let at_ := at_ + (2 + n) in
      n ← take_at buf at_ 1; let at_ := at_ + (1 + n) in
      n ← take_at buf at_ 2;
      let extensions_end := at_ + 2 + n in
      mjoin (loop (S (length buf)) (range_step buf extensions_end) (at_ + 2)).

(** ** The writer *)

Inductive Poll (A : Type) := Ready (a : A) | Pending.
Arguments Ready {A}. Arguments Pending {A}.

(** What the inner writer answers: the bytes it took, or its error. *)
Definition Written : Type := Poll (Z + bytes).

Record FragmentingStream := mkStream {
  cfg : FragmentConfig;
  fragmenting : bool;
  first_write : bool;
  pending_delay : option Z;
}.

Definition FragmentingStream_new (c : FragmentConfig) : FragmentingStream := mkStream c (enabled c) true None.

(** The poll of the inner reader itself changes nothing here. *)
Definition poll_read (this : FragmentingStream) : FragmentingStream :=
  mkStream (cfg this) false (first_write this) (pending_delay this).

(** [slept] says whether the pending sleep is over; [inner] is what the inner
    writer answers when it is offered some bytes.  Returned: the stream after the
    poll, the answer, and the bytes offered to the inner writer. *)
Definition poll_write (rng : Rng) (slept : bool) (inner : bytes -> Written) (this : FragmentingStream) (buf : bytes)
  : res unit (FragmentingStream * Written * option bytes) :=
  if bool_decide (buf = []) || negb (fragmenting this) then Ok (this, inner buf, Some buf)
  else if match pending_delay this with Some _ => negb slept | None => false end then Ok (this, Pending, None)
  else
    let this := mkStream (cfg this) (fragmenting this) (first_write this) None in
    let targeted :=
      if first_write this && sni_split (cfg this)
      then (fun '(start, end_) => start + (end_ - start) / 2) <$> sni_host_range buf
      else None in
    let chunk_len :=
      match targeted with
      | Some split => if (0 <? split) && (split <? blen buf) then split else pick_chunk_len rng (cfg this) (blen buf)
      | None => pick_chunk_len rng (cfg this) (blen buf)
      end in
    chunk ← slice buf 0 chunk_len;
    let answer := inner chunk in
    let this :=
      match answer with
      | Ready (inl n) =>
          if 0 <? n then
            let delay := pick_delay rng (cfg this) in
            mkStream (cfg this) (fragmenting this) false (if delay =? 0 then pending_delay this else Some delay)
          else this
      | _ => this
      end in
    Ok (this, answer, Some chunk).

(** ** A message written through the stream *)

(** What happens to the connection: the writer polls again with what is left of the
    message, or the reader polls. *)
Inductive Ev := EvWrite (rng : Rng) (slept : bool) (inner : bytes -> Written) | EvRead.

(** What the inner writer took of the bytes it was offered, by its own answer and not by what
    the stream then says. *)
Definition taken (inner : bytes -> Written) (offered : option bytes) : list bytes :=
  match offered with
  | Some chunk => match inner chunk with Ready (inl n) => [sub chunk 0 n] | _ => [] end
  | None => []
  end.

(** The stream, what is left to write (the writer leaves out as many bytes as the stream
    says it took) and the pieces the inner writer took. *)
Record Conn := mkConn { stream : FragmentingStream; remaining : bytes; wire : list bytes }.

Definition conn_step (c : Conn) (e : Ev) : res unit Conn :=
  match e with
  | EvRead => Ok (mkConn (poll_read (stream c)) (remaining c) (wire c))
  | EvWrite rng slept inner =>
      '(s, answer, offered) ← poll_write rng slept inner (stream c) (remaining c);
      Ok (mkConn s (match answer with Ready (inl n) => sub (remaining c) n (blen (remaining c)) | _ => remaining c end)
                 (wire c ++ taken inner offered))
  end.

Fixpoint conn_run (c : Conn) (evs : list Ev) : res unit Conn :=
  match evs with
  | [] => Ok c
  | e :: evs => c ← conn_step c e; conn_run c evs
  end.

(** What is relied on of the generator and of the inner writer: a draw is within its
    bounds, and a writer takes no more than it is offered. *)
Definition rng_ok (rng : Rng) : Prop := forall lo hi, lo <= hi -> lo <= rng lo hi <= hi.
Definition inner_ok (inner : bytes -> Written) : Prop :=
  forall b, match inner b with Ready (inl n) => 0 <= n <= blen b | _ => True end.
Definition ev_ok (e : Ev) : Prop :=
  match e with EvWrite rng _ inner => rng_ok rng /\ inner_ok inner | EvRead => True end.

Lemma pick_chunk_len_bounds rng c n :
  rng_ok rng -> 1 <= n -> 1 <= pick_chunk_len rng c n <= n /\ pick_chunk_len rng c n <= Z.max (size_max c) 1.
Proof. intros Hr Hn. unfold pick_chunk_len. zcase; [lia|]. pose proof (Hr (Z.min (Z.max (size_min c) 1) (Z.min (Z.max (size_max c) 1) n)) (Z.min (Z.max (size_max c) 1) n)). lia. Qed.

(** What a poll offers: a prefix of the bytes, not empty if they are not. *)
Lemma poll_write_offers rng slept inner s buf :
  rng_ok rng ->
  exists s' answer offered, poll_write rng slept inner s buf = Ok (s', answer, offered) /\
    match offered with
    | None => answer = Pending /\ s' = s /\ slept = false /\ pending_delay s <> None
    | Some chunk => answer = inner chunk /\ (exists rest, buf = chunk ++ rest) /\ (buf <> [] -> chunk <> [])
    end.
Proof.
  intros Hr. unfold poll_write. destruct (bool_decide (buf = [])) eqn:Hb; cbn [orb].
  { eexists _, _, _. split; [done|]. cbn. split; [done|]. split; [exists []; by rewrite app_nil_r|done]. }
  destruct (negb (fragmenting s)).
  { eexists _, _, _. split; [done|]. cbn. split; [done|]. split; [exists []; by rewrite app_nil_r|done]. }
  apply bool_decide_eq_false in Hb. assert (1 <= blen buf) by (destruct buf; [done|]; blia).
  destruct (match pending_delay s with Some _ => _ | None => _ end) eqn:Hp.
  { eexists _, _, _. split; [done|]. cbn. by destruct (pending_delay s), slept. }
  cbn [first_write cfg pending_delay fragmenting].
  match goal with |- context [slice buf 0 ?n] => remember n as len eqn:Hlen end.
  assert (1 <= len <= blen buf) as Hl.
  { pose proof (pick_chunk_len_bounds rng (cfg s) (blen buf) Hr ltac:(done)). subst len.
    destruct (if _ && _ then _ else _) as [split|]; [|lia]. zcase; [|lia]. lia. }
  rewrite slice_ok by lia. rsimp. eexists _, _, _. split; [done|]. cbn. split; [done|].
  pose proof (sub_split buf 0 len ltac:(lia) ltac:(lia) ltac:(lia)) as Hs. rewrite (sub_empty buf 0 0) in Hs by lia. split; [eauto|].
  intros _ He. assert (blen (sub buf 0 len) = len) as Hbl by (rewrite blen_sub; lia). rewrite He in Hbl.
  change (blen (@nil Z)) with 0 in Hbl. lia.
Qed.

(** A step delivers a prefix of what was left, in order, and does not panic. *)
Lemma conn_step_ok c e :
  ev_ok e ->
  exists c', conn_step c e = Ok c' /\ concat (wire c') ++ remaining c' = concat (wire c) ++ remaining c.
Proof.
  destruct e as [rng slept inner|]; [|intros _; eexists; split; [done|done]]. intros [Hr Hw]. cbn [conn_step].
  destruct (poll_write_offers rng slept inner (stream c) (remaining c) Hr) as (s' & answer & offered & -> & Ho). rsimp.
  eexists. split; [done|]. destruct offered as [chunk|]; [|destruct Ho as (-> & _); cbn; by rewrite app_nil_r].
  destruct Ho as (-> & [rest Hrest] & _). specialize (Hw chunk). cbn.
  destruct (inner chunk) as [[n|e]|]; cbn; rewrite ?app_nil_r; try done.
  rewrite concat_app, Hrest. cbn. rewrite app_nil_r, <- app_assoc. f_equal.
  rewrite sub_to_end, app_assoc by lia. f_equal. symmetry.
  pose proof (sub_split chunk 0 n ltac:(lia) ltac:(lia) ltac:(lia)) as Hs. by rewrite (sub_empty chunk 0 0) in Hs by lia.
Qed.

(** A poll whose sleep is over and whose inner writer takes bytes makes progress. *)
Definition ev_live (e : Ev) : Prop :=
  match e with
  | EvWrite _ slept inner => slept = true /\ forall b, b <> [] -> exists n, inner b = Ready (inl n) /\ 1 <= n
  | EvRead => False
  end.

Lemma conn_step_live c e c' :
  ev_ok e -> ev_live e -> conn_step c e = Ok c' -> remaining c <> [] -> (length (remaining c') < length (remaining c))%nat.
Proof.
  destruct e as [rng slept inner|]; [|done]. intros [Hr Hw] [-> Hl]. cbn [conn_step].
  destruct (poll_write_offers rng true inner (stream c) (remaining c) Hr) as (s' & answer & offered & -> & Ho). rsimp.
  intros [= <-] Hne. destruct offered as [chunk|]; [|by destruct Ho as (_ & _ & ? & _)].
  destruct Ho as (-> & [rest Hrest] & Hc). destruct (Hl chunk (Hc Hne)) as (n & Hn & Hpos). specialize (Hw chunk).
  rewrite Hn in *. cbn. rewrite Hrest. assert (blen (sub (chunk ++ rest) n (blen (chunk ++ rest))) = blen (chunk ++ rest) - n) as Hb.
  { rewrite blen_sub by blia. done. }
  unfold blen in *. lia.
Qed.

Lemma conn_step_empty c e c' : conn_step c e = Ok c' -> ev_ok e -> remaining c = [] -> remaining c' = [].
Proof.
  intros Hs He Hr. destruct (conn_step_ok c e He) as (c1 & H1 & Happ). rewrite Hs in H1. injection H1 as <-.
  assert (length (remaining c') <= length (remaining c))%nat as Hl; [|rewrite Hr in Hl; destruct (remaining c'); [done|cbn in Hl; lia]].
  destruct e as [rng slept inner|]; [|by injection Hs as <-]. cbn [conn_step] in Hs. rewrite Hr in *.
  destruct (poll_write rng slept inner (stream c) []) as [[[s' [[n|?]|]] offered]| |]; rsimp; simplify_eq/=; rewrite ?Hr; try done.
  unfold sub. rewrite drop_nil. cbn. destruct (Z.to_nat _); cbn; lia.
Qed.

(** C39.  Fragmentation does not change what is sent: however the message is polled,
    slept on and taken, nothing panics and the pieces the inner writer says it took, then what is
    left when the writer leaves out what the stream says was taken, are the message; and once
    each poll finds its sleep over and a writer that takes bytes, as many polls as bytes send the
    whole message. *)
Theorem fragmenting_stream_transparent c data evs :
  Forall ev_ok evs ->
  exists c', conn_run (mkConn (FragmentingStream_new c) data []) evs = Ok c' /\
    concat (wire c') ++ remaining c' = data /\
    (Forall ev_live evs -> (length data <= length evs)%nat -> concat (wire c') = data).
Proof.
  intros Hev. remember (mkConn (FragmentingStream_new c) data []) as c0.
  assert (concat (wire c0) ++ remaining c0 = data) as H0 by by subst.
  assert (length (remaining c0) <= length data)%nat as H1 by by subst. clear Heqc0.
  assert (forall evs c0, Forall ev_ok evs -> exists c', conn_run c0 evs = Ok c' /\
    concat (wire c') ++ remaining c' = concat (wire c0) ++ remaining c0 /\
    (Forall ev_live evs -> (length (remaining c0) <= length evs)%nat -> remaining c' = [])) as Hrun.
  { clear. intros evs. induction evs as [|e evs IH]; intros c0 Hev.
    - exists c0. repeat split. intros _ Hl. destruct (remaining c0); [done|cbn in Hl; lia].
    - apply Forall_cons in Hev as [He Hev]. destruct (conn_step_ok c0 e He) as (c1 & Hs & Happ). cbn [conn_run]. rewrite Hs. rsimp.
      destruct (IH c1 Hev) as (c' & Hr & Happ' & Hlive). exists c'. split; [done|]. split; [congruence|].
      intros [Hl Hls]%Forall_cons Hlen. apply Hlive; [done|]. destruct (decide (remaining c0 = [])) as [Hnil|Hne].
      + rewrite (conn_step_empty c0 e c1 Hs He Hnil). cbn. lia.
      + pose proof (conn_step_live c0 e c1 He Hl Hs Hne). cbn in Hlen. lia. }
  destruct (Hrun evs c0 Hev) as (c' & Hr & Happ & Hlive). exists c'. split; [done|]. split; [congruence|].
  intros Hl Hlen. rewrite <- H0, <- Happ, Hlive, app_nil_r; [done|done|lia].
Qed.

(** ** The server name is split *)

Lemma take_at_1 buf i b : bget buf i = Some b -> i + 1 <= USIZE_MAX -> take_at buf i 1 = Some b.
Proof.
  intros Hg Hm. pose proof (bget_Some _ _ _ Hg). unfold take_at. rewrite checked_add_ok by done. cbn [mbind option_bind].
  rewrite bslice_ok by lia. cbn [mbind option_bind]. rewrite (sub_snoc buf i i (i + 1) b) by (done || lia).
  by rewrite sub_empty by lia.
Qed.

Lemma take_at_2 buf i v : Sniff.be16 buf i = Some v -> i + 2 <= USIZE_MAX -> take_at buf i 2 = Some v.
Proof.
  unfold Sniff.be16. intros (hi & H1 & (lo & H2 & [= <-])%bind_Some)%bind_Some Hm.
  pose proof (bget_Some _ _ _ H1). pose proof (bget_Some _ _ _ H2).
  unfold take_at. rewrite checked_add_ok by done. cbn [mbind option_bind]. rewrite bslice_ok by lia. cbn [mbind option_bind].
  rewrite (sub_snoc buf i (i + 1) (i + 2) lo), (sub_snoc buf i i (i + 1) hi) by (done || lia).
  by rewrite sub_empty by lia.
Qed.

(** A turn over another extension goes past it; the turn at the server name ends. *)
Lemma range_step_skip pre kd d rest end_ :
  1 <= kd <= U16_MAX -> blen d <= U16_MAX -> blen pre + 4 <= end_ -> blen pre + 4 <= USIZE_MAX ->
  range_step (pre ++ Sniff.enc_ext (kd, d) ++ rest) end_ (blen pre) = inl (blen (pre ++ Sniff.enc_ext (kd, d))).
Proof.
  intros Hk Hd He Hm. unfold range_step, Sniff.enc_ext. cbn [fst snd]. rewrite (proj2 (Z.leb_le _ _)) by lia.
  rewrite (take_at_2 _ _ kd)
    by (lia || apply (Sniff.be16_at _ pre _ (be16_bytes (blen d) ++ d ++ rest)); lia || solve_app).
  rewrite (take_at_2 _ _ (blen d))
    by (lia || apply (Sniff.be16_at _ (pre ++ be16_bytes kd) _ (d ++ rest)); blia || solve_app).
  rewrite (proj2 (Z.eqb_neq kd 0)) by lia. f_equal. blia.
Qed.

Lemma range_step_found pre name rest end_ :
  1 <= blen name <= U16_MAX - 5 -> blen pre + 9 <= end_ -> blen pre + 9 <= USIZE_MAX ->
  range_step (pre ++ Sniff.enc_ext (Sniff.EXT_SERVER_NAME, Sniff.sni_data name) ++ rest) end_ (blen pre)
  = inr (Some (blen pre + 9, blen pre + 9 + blen name)).
Proof.
  intros Hn He Hm. unfold U16_MAX in Hn. set (data := Sniff.sni_data name).
  assert (blen data = 5 + blen name) as Hd by (unfold data, Sniff.sni_data; blia).
  set (p6 := pre ++ be16_bytes 0 ++ be16_bytes (blen data) ++ be16_bytes (3 + blen name)).
  assert (blen p6 = blen pre + 6) as Hp6 by (unfold p6; blia).
  remember (pre ++ Sniff.enc_ext (Sniff.EXT_SERVER_NAME, data) ++ rest) as buf eqn:Hb.
  assert (buf = p6 ++ [0] ++ be16_bytes (blen name) ++ name ++ rest) as Hbuf
    by (rewrite Hb; unfold p6, data, Sniff.enc_ext, Sniff.sni_data; cbn [fst snd]; solve_app).
  assert (blen buf = blen pre + 9 + blen name + blen rest) as Hl by (rewrite Hbuf; blia). pose proof (blen_nonneg rest).
  unfold range_step. rewrite (proj2 (Z.leb_le _ _)) by lia.
  rewrite (take_at_2 _ _ Sniff.EXT_SERVER_NAME)
    by (lia || apply (Sniff.be16_at _ pre _ (be16_bytes (blen data) ++ data ++ rest));
        done || (rewrite Hb; unfold Sniff.enc_ext; solve_app)).
  rewrite (take_at_2 _ _ (blen data))
    by (lia || apply (Sniff.be16_at _ (pre ++ be16_bytes Sniff.EXT_SERVER_NAME) _ (data ++ rest));
        (unfold U16_MAX; lia) || blia || (rewrite Hb; unfold Sniff.enc_ext; solve_app)).
  cbn [Z.eqb Sniff.EXT_SERVER_NAME]. clearbody p6.
  rewrite (take_at_1 _ _ 0) by (lia || apply (bget_at _ p6 (be16_bytes (blen name) ++ name ++ rest)); done || lia).
  cbn [mbind option_bind Z.eqb negb].
  rewrite (take_at_2 _ _ (blen name))
    by (lia || apply (Sniff.be16_at _ (p6 ++ [0]) _ (name ++ rest)); (unfold U16_MAX; lia) || blia || (rewrite Hbuf; solve_app)).
  cbn [mbind option_bind]. destruct (_ || _) eqn:Hc; [zbool; lia|]. do 2 f_equal. f_equal; lia.
Qed.

(** The loop skips the extensions before the server name. *)
Lemma range_loop_ok before name k : forall pre post fuel,
  (length before < fuel)%nat -> Forall (fun e => 1 <= e.1 <= U16_MAX) before -> name <> [] -> 0 <= k ->
  let buf := pre ++ Sniff.enc_exts before ++ Sniff.enc_ext (Sniff.EXT_SERVER_NAME, Sniff.sni_data name) ++ post in
  let start := blen pre + blen (Sniff.enc_exts before) + 9 in
  blen (Sniff.enc_exts before) + blen name <= 65500 -> blen buf + 10 <= USIZE_MAX ->
  loop fuel (range_step buf (start + blen name + k)) (blen pre) = Some (Some (start, start + blen name)).
Proof.
  induction before as [|[kd d] before IH]; intros pre post fuel Hf Hk Hne Hk0 buf start Hl Hm;
    (destruct fuel as [|fuel]; [cbn in Hf; lia|]); pose proof (blen_nonneg pre);
    assert (1 <= blen name) by (destruct name; [done|]; blia).
  - subst start. change (Sniff.enc_exts []) with (@nil Z) in *. change (blen (@nil Z)) with 0 in *. rewrite Z.add_0_r.
    apply loop_exit, range_step_found; [unfold U16_MAX; lia|lia|]. unfold buf in Hm. cbn [app] in Hm.
    rewrite !blen_app in Hm. pose proof (blen_nonneg (Sniff.enc_ext (Sniff.EXT_SERVER_NAME, Sniff.sni_data name))).
    pose proof (blen_nonneg post). lia.
  - apply Forall_cons in Hk as [Hk1 Hk2].
    assert (blen (Sniff.enc_exts ((kd, d) :: before)) = 4 + blen d + blen (Sniff.enc_exts before)) as He.
    { rewrite Sniff.enc_exts_cons, blen_app, Sniff.blen_enc_ext. done. }
    pose proof (blen_nonneg d). pose proof (blen_nonneg (Sniff.enc_exts before)).
    assert (Heq : buf = (pre ++ Sniff.enc_ext (kd, d)) ++ Sniff.enc_exts before
                        ++ Sniff.enc_ext (Sniff.EXT_SERVER_NAME, Sniff.sni_data name) ++ post)
      by (unfold buf; rewrite Sniff.enc_exts_cons; solve_app).
    assert (start = blen (pre ++ Sniff.enc_ext (kd, d)) + blen (Sniff.enc_exts before) + 9) as Hst.
    { subst start. rewrite blen_app, Sniff.blen_enc_ext. cbn [snd]. lia. }
    erewrite loop_step.
    + rewrite Hst, Heq. apply IH; try done; [cbn in Hf; lia|lia|by rewrite <- Heq].
    + rewrite Heq, <- app_assoc. apply range_step_skip; [done|unfold U16_MAX; lia|lia|].
      rewrite Heq, !blen_app, Sniff.blen_enc_ext in Hm. cbn [snd] in Hm. pose proof (blen_nonneg post).
      pose proof (blen_nonneg (Sniff.enc_ext (Sniff.EXT_SERVER_NAME, Sniff.sni_data name))). lia.
Qed.

(** The fields before the extensions are read in their order. *)
Lemma sni_host_range_fields buf p1 s c m n rest :
  blen p1 = 43 -> bget buf 0 = Some 22 -> bget buf 5 = Some 1 ->
  buf = p1 ++ [blen s] ++ s ++ be16_bytes (blen c) ++ c ++ [blen m] ++ m ++ be16_bytes n ++ rest ->
  blen c <= U16_MAX -> 0 <= n <= U16_MAX -> blen s + blen c + blen m <= U32_MAX ->
  let at_ := 49 + blen s + blen c + blen m in
  sni_host_range buf = mjoin (loop (S (length buf)) (range_step buf (at_ + n)) at_).
Proof.
  intros Hp Hz Hk Hb Hc Hn Hs. unfold U32_MAX in Hs. assert (USIZE_MAX = 18446744073709551615) as HU by done.
  pose proof (blen_nonneg s). pose proof (blen_nonneg c). pose proof (blen_nonneg m).
  unfold sni_host_range. rewrite Hz, Hk. cbn [mbind option_bind]. change (22 =? 22) with true. cbn [negb mbind option_bind].
  change (1 =? 1) with true. cbn [negb].
  rewrite (take_at_1 _ _ (blen s))
    by (lia || apply (bget_at _ p1 (s ++ be16_bytes (blen c) ++ c ++ [blen m] ++ m ++ be16_bytes n ++ rest)); lia || done).
  cbn [mbind option_bind].
  rewrite (take_at_2 _ _ (blen c))
    by (lia || apply (Sniff.be16_at _ (p1 ++ [blen s] ++ s) _ (c ++ [blen m] ++ m ++ be16_bytes n ++ rest));
        lia || blia || (rewrite Hb; solve_app)). cbn [mbind option_bind].
  rewrite (take_at_1 _ _ (blen m))
    by (lia || apply (bget_at _ (p1 ++ [blen s] ++ s ++ be16_bytes (blen c) ++ c) (m ++ be16_bytes n ++ rest));
        blia || (rewrite Hb; solve_app)). cbn [mbind option_bind].
  rewrite (take_at_2 _ _ n)
    by (lia || apply (Sniff.be16_at _ (p1 ++ [blen s] ++ s ++ be16_bytes (blen c) ++ c ++ [blen m] ++ m) _ rest);
        lia || blia || (rewrite Hb; solve_app)). cbn [mbind option_bind].
  by replace (43 + (1 + blen s) + (2 + blen c) + (1 + blen m) + 2) with (49 + blen s + blen c + blen m) by lia.
Qed.

(** What comes before the extensions of a ClientHello record. *)
Definition before_exts (h : Sniff.client_hello) : bytes :=
  [22; 3; 1] ++ be16_bytes (4 + blen (Sniff.enc_hello h)) ++ [1] ++ be_bytes 3 (blen (Sniff.enc_hello h))
  ++ Sniff.ch_version h ++ Sniff.ch_random h ++ [blen (Sniff.ch_session h)] ++ Sniff.ch_session h
  ++ be16_bytes (blen (Sniff.ch_ciphers h)) ++ Sniff.ch_ciphers h
  ++ [blen (Sniff.ch_compression h)] ++ Sniff.ch_compression h
  ++ be16_bytes (blen (Sniff.hello_exts h)).

Definition name_start (h : Sniff.client_hello) : Z :=
  blen (before_exts h) + blen (Sniff.enc_exts (Sniff.ch_before h)) + 9.

Lemma sni_host_range_ok h trailing :
  Sniff.hello_wf h -> Sniff.ch_name h <> [] -> blen trailing <= U32_MAX ->
  sni_host_range (Sniff.enc_record h ++ trailing) = Some (name_start h, name_start h + blen (Sniff.ch_name h)).
Proof.
  intros (Hv & Hr & Hs & Hc & Hl & Hb) Hne Ht. unfold U16_MAX, U32_MAX in *. set (buf := Sniff.enc_record h ++ trailing).
  assert (buf = before_exts h ++ Sniff.hello_exts h ++ trailing) as Hbuf
    by (unfold buf, Sniff.enc_record, before_exts, Sniff.enc_hello; solve_app).
  assert (blen (Sniff.hello_exts h) = blen (Sniff.enc_exts (Sniff.ch_before h)) + (9 + blen (Sniff.ch_name h))
            + blen (Sniff.enc_exts (Sniff.ch_after h))) as He
    by (unfold Sniff.hello_exts, Sniff.sni_data, Sniff.enc_ext; cbn [fst snd]; blia).
  set (s := Sniff.ch_session h) in *. set (c := Sniff.ch_ciphers h) in *. set (m := Sniff.ch_compression h) in *.
  assert (blen (before_exts h) = 49 + blen s + blen c + blen m) as Hp by (unfold before_exts; fold s c m; blia).
  assert (blen (Sniff.enc_hello h) = 40 + blen s + blen c + blen m + blen (Sniff.hello_exts h)) as Hh
    by (unfold Sniff.enc_hello; fold s c m; blia).
  pose proof (blen_nonneg s). pose proof (blen_nonneg c). pose proof (blen_nonneg m). pose proof (blen_nonneg trailing).
  pose proof (blen_nonneg (Sniff.ch_name h)).
  pose proof (blen_nonneg (Sniff.enc_exts (Sniff.ch_before h))). pose proof (blen_nonneg (Sniff.enc_exts (Sniff.ch_after h))).
  assert (blen buf = blen (before_exts h) + blen (Sniff.hello_exts h) + blen trailing) as Hlen by (rewrite Hbuf; blia).
  assert (USIZE_MAX = 18446744073709551615) as HU by done.
  set (p1 := [22; 3; 1] ++ be16_bytes (4 + blen (Sniff.enc_hello h)) ++ [1] ++ be_bytes 3 (blen (Sniff.enc_hello h))
    ++ Sniff.ch_version h ++ Sniff.ch_random h).
  assert (blen p1 = 43) as Hp1 by (unfold p1; blia).
  set (rest := Sniff.hello_exts h ++ trailing).
  assert (buf = p1 ++ [blen s] ++ s ++ be16_bytes (blen c) ++ c ++ [blen m] ++ m ++ be16_bytes (blen (Sniff.hello_exts h)) ++ rest) as Hb1
    by (rewrite Hbuf; unfold p1, rest, before_exts; fold s c m; solve_app).
  assert (bget buf 0 = Some 22) as Hz by done.
  assert (bget buf 5 = Some 1) as Hk.
  { apply (bget_at buf ([22; 3; 1] ++ be16_bytes (4 + blen (Sniff.enc_hello h))) (be_bytes 3 (blen (Sniff.enc_hello h)) ++ Sniff.enc_hello h ++ trailing) 5 1);
      blia || (unfold buf, Sniff.enc_record; solve_app). }
  clearbody buf p1. rewrite (sni_host_range_fields buf p1 s c m (blen (Sniff.hello_exts h)) rest)
    by (done || (unfold U16_MAX, U32_MAX; lia)).
  replace (49 + blen s + blen c + blen m) with (blen (before_exts h)) by lia.
  replace (blen (before_exts h) + blen (Sniff.hello_exts h))
    with (name_start h + blen (Sniff.ch_name h) + blen (Sniff.enc_exts (Sniff.ch_after h))) by (unfold name_start; lia).
  assert (buf = before_exts h ++ Sniff.enc_exts (Sniff.ch_before h)
    ++ Sniff.enc_ext (Sniff.EXT_SERVER_NAME, Sniff.sni_data (Sniff.ch_name h)) ++ Sniff.enc_exts (Sniff.ch_after h) ++ trailing) as Hb2
    by (rewrite Hbuf; unfold Sniff.hello_exts; solve_app).
  rewrite Hb2. unfold name_start. rewrite range_loop_ok; try done.
  - rewrite <- Hb2. pose proof (Sniff.length_enc_exts (Sniff.ch_before h)). unfold blen in Hlen at 1. lia.
  - lia.
  - rewrite <- Hb2. lia.
Qed.

(** The first piece of a ClientHello ends in the middle of its server name,
    whatever its other fields and extensions: the place [sni_host_range] finds is
    the name's, and a stream with the option set offers just the bytes up to the
    middle of it. *)
Theorem client_hello_split h trailing c rng inner :
  Sniff.hello_wf h -> Sniff.ch_name h <> [] -> blen trailing <= U32_MAX -> enabled c = true -> sni_split c = true ->
  let buf := Sniff.enc_record h ++ trailing in
  let start := name_start h in
  let half := start + blen (Sniff.ch_name h) / 2 in
  sub buf start (start + blen (Sniff.ch_name h)) = Sniff.ch_name h /\
  exists s', poll_write rng true inner (FragmentingStream_new c) buf = Ok (s', inner (sub buf 0 half), Some (sub buf 0 half)).
Proof.
  intros Hwf Hne Ht He Hs buf start half.
  assert (buf = (before_exts h ++ Sniff.enc_exts (Sniff.ch_before h) ++ be16_bytes 0 ++ be16_bytes (blen (Sniff.sni_data (Sniff.ch_name h)))
    ++ be16_bytes (3 + blen (Sniff.ch_name h)) ++ [0] ++ be16_bytes (blen (Sniff.ch_name h)))
    ++ Sniff.ch_name h ++ Sniff.enc_exts (Sniff.ch_after h) ++ trailing) as Hbuf.
  { unfold buf, Sniff.enc_record, before_exts, Sniff.enc_hello, Sniff.hello_exts, Sniff.sni_data, Sniff.enc_ext. cbn [fst snd]. solve_app. }
  assert (1 <= blen (Sniff.ch_name h)) as Hn by (destruct (Sniff.ch_name h); [done|]; blia).
  assert (blen buf = start + blen (Sniff.ch_name h) + blen (Sniff.enc_exts (Sniff.ch_after h) ++ trailing)) as Hlen.
  { rewrite Hbuf. subst start. unfold name_start. blia. }
  pose proof (blen_nonneg (Sniff.enc_exts (Sniff.ch_after h) ++ trailing)).
  pose proof (blen_nonneg (before_exts h)). pose proof (blen_nonneg (Sniff.enc_exts (Sniff.ch_before h))).
  assert (9 <= start) by (subst start; unfold name_start; lia).
  assert (0 <= blen (Sniff.ch_name h) / 2 < blen (Sniff.ch_name h)) by (split; [apply Z.div_pos; lia|apply Z.div_lt; lia]).
  split.
  - rewrite Hbuf at 1. subst start. unfold name_start. eapply sub_at; [reflexivity|blia|blia].
  - unfold poll_write. cbn [FragmentingStream_new fragmenting cfg first_write pending_delay]. rewrite He, Hs. cbn [negb andb].
    rewrite bool_decide_false by (intros Hb; rewrite Hb in Hlen; change (blen (@nil Z)) with 0 in Hlen; lia). cbn [orb].
    unfold buf at 1 2 3. rewrite sni_host_range_ok by done. fold buf start. cbn [fmap option_fmap option_map].
    replace (start + (start + blen (Sniff.ch_name h) - start) / 2) with half by (subst half; do 2 f_equal; lia).
    destruct (_ && _) eqn:Hc; [|apply andb_false_iff in Hc; subst half; zbool; lia].
    rewrite slice_ok by (subst half; lia). rsimp. eauto.
Qed.

Lemma parse_range_ordered `{UnicodeCase} spec lo hi : 0 <= lo -> lo <= hi -> let r := parse_range spec (lo, hi) in 0 <= r.1 /\ r.1 <= r.2.
Proof.
  intros Hlo Hhi. assert (forall d s, 0 <= d -> 0 <= default d (parse_u64 s)) as Hd.
  { intros d s Hd. destruct (parse_u64 s) as [n|] eqn:Hp; [|done]. by apply parse_uint_bounds in Hp as [? _]. }
  unfold parse_range. destruct (bool_decide _); [done|]. destruct (split_once 45 (trim spec)) as [[a b]|].
  - pose proof (Hd lo (trim a) Hlo). pose proof (Hd hi (trim b) ltac:(lia)). cbn [fst snd]. zcase; cbn [fst snd]; lia.
  - pose proof (Hd lo (trim spec) Hlo). cbn [fst snd]. lia.
Qed.

(** A configuration read from the environment has a positive range of sizes and an
    increasing range of delays, whatever the variables hold. *)
Lemma from_env_ranges `{UnicodeCase} env :
  let c := from_env env in
  1 <= size_min c <= size_max c /\ 0 <= delay_min_ms c <= delay_max_ms c.
Proof.
  unfold from_env. destruct (parse_range (default [] (env (lit "AETHER_MASQUE_H2_FRAGMENT_SIZE"))) (8, 16)) as [lo hi].
  pose proof (parse_range_ordered (default [] (env (lit "AETHER_MASQUE_H2_FRAGMENT_DELAY"))) 2 10) as Hp.
  destruct (parse_range _ (2, 10)) as [a b]. cbn in *. lia.
Qed.

(** ** Witnesses *)

Definition example_inner (b : bytes) : Written := Ready (inl (Z.min 3 (blen b))).
Definition example_events : list Ev := replicate 5 (EvWrite (fun lo _ => lo) true example_inner).

Lemma fragmenting_stream_transparent_witness :
  exists c', conn_run (mkConn (FragmentingStream_new (mkConfig true 2 4 1 5 false)) (lit "hello") []) example_events = Ok c'
    /\ concat (wire c') = lit "hello".
Proof.
  destruct (fragmenting_stream_transparent (mkConfig true 2 4 1 5 false) (lit "hello") example_events) as (c' & Hr & _ & Hl).
  - apply Forall_replicate. split; [intros lo hi ?; lia|]. intros b. unfold example_inner. pose proof (blen_nonneg b). lia.
  - exists c'. split; [exact Hr|]. apply Hl; [|vm_compute; lia]. apply Forall_replicate. split; [reflexivity|].
    intros b Hb. exists (Z.min 3 (blen b)). split; [reflexivity|]. destruct b as [|x b]; [exfalso; exact (Hb eq_refl)|]. rewrite blen_cons. pose proof (blen_nonneg b). lia.
Defined.

Lemma client_hello_split_witness :
  exists s', poll_write (fun lo _ => lo) true example_inner (FragmentingStream_new (mkConfig true 2 4 1 5 true)) (Sniff.enc_record Sniff.example_hello)
    = Ok (s', Ready (inl 3), Some (sub (Sniff.enc_record Sniff.example_hello) 0
        (name_start Sniff.example_hello + blen (Sniff.ch_name Sniff.example_hello) / 2))).
Proof.
  destruct (client_hello_split Sniff.example_hello [] (mkConfig true 2 4 1 5 true) (fun lo _ => lo) example_inner) as [_ [s' Hs]].
  - repeat split; try (vm_compute; congruence); repeat constructor; cbn; done.
  - discriminate.
  - vm_compute. discriminate.
  - reflexivity.
  - reflexivity.
  - exists s'. rewrite app_nil_r in Hs. exact Hs.
Defined.

End Fragment.
