(* ===== verification/Tls.v ===== *)
(** * TLS options and Encrypted ClientHello keys ([aether/src/tls.rs])

    The check that an ECHConfigList can be offered, the key of the sessions of a
    process, the fingerprint the options give and the checks of the options, the
    verification of the server's certificate.  BoringSSL's own tables and setters
    are a class. *)

From S2P Require Import Prelude Str Text Error Fragment.
Local Open Scope Z_scope.

Module Tls.
Import Error.

(** ** The fields of an ECHConfigList *)

Abbreviation fields := bytes (only parsing).

(** Each reader returns what it read and the fields that are left. *)
Definition take (len : Z) (s : fields) : option (bytes * fields) :=
  if blen s <? len then None else Some (sub s 0 len, sub s len (blen s)).
Definition u8 (s : fields) : option (Z * fields) :=
  '(b, s) ← take 1 s; b0 ← bget b 0; Some (b0, s).
Definition u16 (s : fields) : option (Z * fields) :=
  '(b, s) ← take 2 s; b0 ← bget b 0; b1 ← bget b 1; Some (u16_be b0 b1, s).
Definition u8_prefixed (s : fields) : option (fields * fields) := '(len, s) ← u8 s; take len s.
Definition u16_prefixed (s : fields) : option (fields * fields) := '(len, s) ← u16 s; take len s.

Definition ECH_CONFIG_VERSION : Z := 65037.
Definition HPKE_DHKEM_X25519_HKDF_SHA256 : Z := 32.
Definition HPKE_HKDF_SHA256 : Z := 1.
Definition HPKE_AEADS : list Z := [1; 2; 3].
Definition X25519_PUBLIC_KEY_LEN : Z := 32.

(** [label[0]] and [label[len - 1]] are read behind [label.is_empty() ||]. *)
Definition public_label (label : bytes) : bool :=
  negb (bool_decide (label = [])) && (blen label <=? 63)
  && negb (bool_decide (head label = Some 45)) && negb (bool_decide (last label = Some 45))
  && forallb (fun b => is_ascii_alphanumeric b || (b =? 45)) label.

Definition is_ascii_hexdigit (b : Z) : bool :=
  is_ascii_digit b || ((97 <=? b) && (b <=? 102)) || ((65 <=? b) && (b <=? 70)).

Definition valid_public_name (name : bytes) : bool :=
  let labels := split_char 46 name in
  if forallb public_label labels then
    let last := default [] (last labels) in
    let decimal := forallb is_ascii_digit last in
    let hex := (2 <=? blen last) && bool_decide (bget last 0 = Some 48)
               && (bool_decide (bget last 1 = Some 120) || bool_decide (bget last 1 = Some 88))
               && forallb is_ascii_hexdigit (sub last 2 (blen last)) in
    negb decimal && negb hex
  else false.

(** The loop over the extensions: whether one is mandatory. *)
Fixpoint read_extensions (fuel : nat) (mandatory : bool) (s : fields) : option bool :=
  match s, fuel with
  | [], _ => Some mandatory
  | _, O => None
  | _, S fuel =>
      '(kind, s) ← u16 s;
      '(_, s) ← u16_prefixed s;
      read_extensions fuel (mandatory || negb (Z.land kind 32768 =? 0)) s
  end.

(** The loop over the cipher suites: whether BoringSSL has one. *)
Fixpoint read_suites (fuel : nat) (found : bool) (s : fields) : option bool :=
  match s, fuel with
  | [], _ => Some found
  | _, O => None
  | _, S fuel =>
      '(kdf, s) ← u16 s;
      '(aead, s) ← u16 s;
      read_suites fuel (found || ((kdf =? HPKE_HKDF_SHA256) && bool_decide (aead ∈ HPKE_AEADS))) s
  end.

(** What the fields of a config of this version say: the key to offer, [Some None]
    for a config that is passed over. *)
Definition ech_verdict (kem_id : Z) (public_key cipher_suites public_name extensions contents : bytes) : option (option bytes) :=
  if bool_decide (public_key = []) || bool_decide (cipher_suites = [])
     || negb (blen cipher_suites mod 4 =? 0) || bool_decide (public_name = [])
     || negb (bool_decide (contents = []))
  then None
  else if negb (valid_public_name public_name) then Some None
  else
    mandatory_extension ← read_extensions (length extensions) false extensions;
    cipher_suite ← read_suites (length cipher_suites) false cipher_suites;
    let offered := negb mandatory_extension && (kem_id =? HPKE_DHKEM_X25519_HKDF_SHA256) && cipher_suite in
    Some (if offered then Some public_key else None).

Definition ech_contents (contents : fields) : option (option bytes) :=
  '(_, contents) ← u8 contents;
  '(kem_id, contents) ← u16 contents;
  '(public_key, contents) ← u16_prefixed contents;
  '(cipher_suites, contents) ← u16_prefixed contents;
  '(_, contents) ← u8 contents;
  '(public_name, contents) ← u8_prefixed contents;
  '(extensions, contents) ← u16_prefixed contents;
  ech_verdict kem_id public_key cipher_suites public_name extensions contents.

Definition ech_config (configs : fields) : option (option bytes * fields) :=
  '(version, configs) ← u16 configs;
  '(contents, configs) ← u16_prefixed configs;
  if negb (version =? ECH_CONFIG_VERSION) then Some (None, configs)
  else config ← ech_contents contents; Some (config, configs).

(** The loop over the configs: the key of the first one that is offered. *)
Fixpoint read_configs (fuel : nat) (picked : option bytes) (configs : fields) : option (option bytes) :=
  match configs, fuel with
  | [], _ => Some picked
  | _, O => None
  | _, S fuel =>
      '(config, configs) ← ech_config configs;
      read_configs fuel (match picked with Some _ => picked | None => config end) configs
  end.

Definition malformed : bytes := lit "it is no ECHConfigList".
Definition short_key : bytes := lit "the X25519 key of its config is not 32 bytes long".
Definition no_config : bytes :=
  lit "it holds no config BoringSSL offers: ECH version 0xfe0d, X25519, and HKDF-SHA256 with AES-GCM or ChaCha20-Poly1305".

Definition check_ech_config_list (list : bytes) : res bytes unit :=
  '(configs, whole) ← ok_or (u16_prefixed list) malformed;
  if bool_decide (configs = []) || negb (bool_decide (whole = [])) then Err malformed
  else
    picked ← ok_or (read_configs (length configs) None configs) malformed;
    match picked with
    | Some key => if blen key =? X25519_PUBLIC_KEY_LEN then Ok tt else Err short_key
    | None => Err no_config
    end.

Definition ensure_offerable (list : bytes) : res AetherError unit :=
  map_err (fun reason => Ech (lit "the ECH key cannot be offered: " ++ reason)) (check_ech_config_list list).

Definition usable_retry (retry : bytes) : option bytes :=
  match check_ech_config_list retry with Ok _ => Some retry | _ => None end.

(** ** The key an option asks for *)

Definition NO_ECH_KEY : bytes := lit "ECH is on but there is no ECH key to offer".
Record EchOption := mkEchOption { flag : bytes; variable : bytes; purpose : bytes; refusal : bytes }.
Definition SESSION_ECH_OPTION : EchOption :=
  mkEchOption (lit "--ech") (lit "AETHER_ECH") [] (lit "stopping rather than send the server name in the clear").
Definition API_ECH_OPTION : EchOption :=
  mkEchOption (lit "--ech") (lit "AETHER_ECH") (lit " for the WARP API") (lit "not asking it rather than send its name in the clear").

Section key.
(** The base64 crate's decoder (or its error) and the lookup of [--ech auto]. *)
Context (base64_decode : bytes -> bytes + bytes) (fetch : res AetherError bytes).

Definition decode_ech_config_list (b64 : bytes) : res AetherError bytes :=
  match base64_decode (trim b64) with
  | inr key => Ok key
  | inl e => Err (Ech (lit "not base64: " ++ e))
  end.

Definition ech_key (option_ : EchOption) (setting : option bytes) : res AetherError (option bytes) :=
  let offer (key : res AetherError bytes) : res AetherError (option bytes) :=
    match (key ← key; _ ← ensure_offerable key; Ok key) with
    | Ok key => Ok (Some key)
    | Err e =>
        let reason := match e with Ech reason => reason | other => to_string other end in
        Err (Ech (NO_ECH_KEY ++ purpose option_ ++ lit " (" ++ reason ++ lit "); " ++ refusal option_))
    | Panic => Panic
    end in
  match setting with
  | Some v =>
      if eq_ignore_ascii_case (trim v) (lit "auto") then offer fetch
      else if negb (bool_decide (v = [])) then
        offer (map_err (fun e => match e with
                                 | Ech reason => Ech (lit "the " ++ flag option_ ++ lit " value is " ++ reason)
                                 | other => other
                                 end) (decode_ech_config_list v))
      else Ok None
  | None => Ok None
  end.
End key.

(** ** The key of the sessions of a process *)

(** The statics [SESSION_ECH] and [SESSIONS]. *)
Record Sessions := mkSessions { session_ech : option bytes; sessions : Z }.

Definition use_ech (ech : option bytes) (s : Sessions) : Sessions := mkSessions ech (sessions s).
Definition EchSession_start (ech : option bytes) (s : Sessions) : Sessions :=
  let s := mkSessions (session_ech s) (sessions s + 1) in
  if bool_decide (is_Some ech) || (sessions s =? 1) then use_ech ech s else s.
(** [*sessions -= 1] panics below zero. *)
Definition EchSession_drop (s : Sessions) : res unit Sessions :=
  if sessions s =? 0 then Panic
  else
    let s := mkSessions (session_ech s) (sessions s - 1) in
    Ok (if sessions s =? 0 then use_ech None s else s).
Definition adopt_ech_retry (retry : bytes) (s : Sessions) : Sessions :=
  match session_ech s with Some _ => use_ech (Some retry) s | None => s end.

(** The end of a connection, as quiche reports it: whether the error is the
    application's, and its code. *)
Definition ECH_REQUIRED_ALERT : Z := 121.
Definition QUIC_CRYPTO_ERROR : Z := 256.
Definition ech_rejected (local_error : option (bool * Z)) : bool :=
  match local_error with
  | Some (is_app, code) => negb is_app && (code =? QUIC_CRYPTO_ERROR + ECH_REQUIRED_ALERT)
  | None => false
  end.

(** ** The verification of the server *)

Section verification.
Context `{UnicodeCase} (env : bytes -> option bytes).

Definition team_run : bool :=
  match env (lit "AETHER_TEAM") with Some team => negb (bool_decide (trim team = [])) | None => false end.
Definition verify_enabled : bool :=
  match env (lit "AETHER_TLS_VERIFY") with
  | Some value => bool_decide (to_lowercase (trim value) ∈ [lit "1"; lit "true"; lit "yes"; lit "on"])
  | None => team_run
  end.

Inductive Verification := VerifyNone | VerifyPins (pins : list bytes).
Definition install_verification (pin_endpoint : bool) (expected_pins : list bytes) : Verification :=
  if negb verify_enabled then VerifyNone
  else if pin_endpoint && negb (bool_decide (expected_pins = [])) then VerifyPins expected_pins
  else VerifyNone.
End verification.

Inductive Alert := BAD_CERTIFICATE | INTERNAL_ERROR | CERTIFICATE_UNKNOWN.
(** The callback of a handshake: the certificate the peer presented, if any, and
    the SHA-256 of its public key, when it can be taken. *)
Definition verify_peer (v : Verification) (peer : option (option bytes)) : Alert + unit :=
  match v with
  | VerifyNone => inr tt
  | VerifyPins pins =>
      match peer with
      | None => inl BAD_CERTIFICATE
      | Some None => inl INTERNAL_ERROR
      | Some (Some hash) => if existsb (fun pin => bool_decide (pin = hash)) pins then inr tt else inl CERTIFICATE_UNKNOWN
      end
  end.

(** ** The fingerprint the options give *)

Definition CHROME_GROUPS : bytes := lit "P-256:X25519:P-384".
Definition CHROME_CIPHERS : bytes := lit "ALL:!aPSK:!ECDSA+SHA1:!3DES".

Record Fingerprint := mkFingerprint {
  ciphers : option bytes;
  tls13_ciphers : option bytes;
  groups : bytes;
  key_shares : option bytes;
  grease : bool;
  grease_sigalgs : bool;
  sigalgs : option bytes;
  cert_compression : option bytes;
  alps : option bytes;
  trust_anchors : option bytes;
  server_padding_ : option bytes;
  ech_grease : bool;
  ocsp_stapling : bool;
  sct : bool;
  session_ticket : bool;
  permute_extensions : bool
}.

Definition Fingerprint_default : Fingerprint :=
  mkFingerprint None None CHROME_GROUPS None true false None None None None None false true true true true.

Section configured.
Context `{UnicodeCase} (env : bytes -> option bytes).

Definition listed (variable : bytes) : option bytes :=
  value ← env variable;
  let value := trim value in
  if bool_decide (value = []) then None else Some value.

(** [CipherOption::configured] of [TLS_CIPHERS]. *)
Definition TLS_CIPHERS_flag : bytes := lit "--tls-ciphers".
Definition TLS_CIPHERS_variable : bytes := lit "AETHER_TLS_CIPHERS".
Definition CipherOption_configured (variable : bytes) : option bytes :=
  value ← env variable;
  let value := trim value in
  if bool_decide (value = []) then None else Some value.

Definition on (variable : bytes) : bool :=
  match env variable with Some value => Fragment.is_truthy value | None => false end.

Definition configured : Fingerprint :=
  mkFingerprint
    (CipherOption_configured TLS_CIPHERS_variable)
    (listed (lit "AETHER_TLS13_CIPHERS"))
    (default CHROME_GROUPS (listed (lit "AETHER_TLS_GROUPS")))
    (listed (lit "AETHER_TLS_KEY_SHARES"))
    (negb (on (lit "AETHER_DISABLE_GREASE")))
    (on (lit "AETHER_ENABLE_GREASE_SIGALGS"))
    (listed (lit "AETHER_TLS_SIGALGS"))
    (listed (lit "AETHER_TLS_CERT_COMPRESSION"))
    (listed (lit "AETHER_TLS_ALPS"))
    (listed (lit "AETHER_TLS_TRUST_ANCHORS"))
    (listed (lit "AETHER_TLS_SERVER_PADDING"))
    (on (lit "AETHER_ENABLE_ECH_GREASE"))
    (negb (on (lit "AETHER_DISABLE_OCSP_STAPLING")))
    (negb (on (lit "AETHER_DISABLE_SCT")))
    (negb (on (lit "AETHER_DISABLE_SESSION_TICKET")))
    (negb (on (lit "AETHER_DISABLE_EXTENSION_PERMUTATION"))).
End configured.

(** ** The options as BoringSSL takes them *)

(** What BoringSSL answers: whether a setter takes a list, and its tables of names.
    [key_share_alone name id]: whether a connection whose one group is [name] takes
    [id] as a key share. *)
Class Boring := {
  takes_cipher_list : bytes -> bool;
  tls13_standard_name : Z -> option bytes;
  takes_tls13_ciphers : list Z -> bool;
  takes_curves_list : bytes -> bool;
  has_group : Z -> bool;
  takes_groups_list : bytes -> bool;
  key_share_alone : bytes -> Z -> bool;
  takes_key_shares : bytes -> list Z -> bool;
  sigalg_name : Z -> option bytes;
  takes_verify_prefs : list Z -> bool;
  takes_cert_compression : list Z -> Z -> bool;
  takes_trust_anchors : bytes -> bool;
  takes_application_settings : bytes -> bool;
}.

Section options.
(** [debug] is the [Debug] text of a string. *)
Context `{Boring} (debug : bytes -> bytes).

Definition set_tls12_ciphers (text : bytes) : res AetherError unit :=
  if takes_cipher_list text then Ok tt
  else Err (Error.Tls (debug text ++ lit " is no cipher list BoringSSL takes (cipher names separated by ':')")).

Definition set_groups (groups : bytes) : res AetherError unit :=
  if takes_curves_list groups then Ok tt
  else Err (Error.Tls (debug groups ++ lit " is no group list BoringSSL takes (group names separated by ':')")).

Definition TLS13_CIPHER_IDS : list Z := seqZ 4864 256.
Definition tls13_cipher_id (name : bytes) : res AetherError Z :=
  ok_or (find (fun id => bool_decide (tls13_standard_name id = Some name)) TLS13_CIPHER_IDS)
    (Error.Tls (debug name ++ lit " is no TLS 1.3 cipher suite BoringSSL has (it has TLS_AES_128_GCM_SHA256, TLS_AES_256_GCM_SHA384 and TLS_CHACHA20_POLY1305_SHA256)")).
Definition tls13_cipher_ids (text : bytes) : res AetherError (list Z) := mapM tls13_cipher_id (split_char 58 text).
Definition set_tls13_ciphers (text : bytes) : res AetherError unit :=
  ids ← tls13_cipher_ids text;
  if takes_tls13_ciphers ids then Ok tt
  else Err (Error.Tls (debug text ++ lit " names a TLS 1.3 cipher suite more than once")).

Definition known_group_ids : list Z := List.filter has_group (seqZ 0 65536).
(** [CString::new] refuses a name that holds a zero. *)
Definition group_id (name : bytes) : res AetherError Z :=
  let unknown := Error.Tls (debug name ++ lit " is no group BoringSSL takes") in
  if contains_char 0 name then Err unknown
  else if bool_decide (name = []) || negb (takes_groups_list name) then Err unknown
  else ok_or (find (key_share_alone name) known_group_ids) unknown.
Definition group_ids (text : bytes) : res AetherError (list Z) := mapM group_id (split_char 58 text).
(** [groups] are those of the connection. *)
Definition set_key_shares (groups text : bytes) : res AetherError unit :=
  ids ← group_ids text;
  if takes_key_shares groups ids then Ok tt
  else Err (Error.Tls (debug text ++ lit " names no key shares BoringSSL sends: each must be one of the groups, in their order, and named once")).

Definition SIGN_RSA_PKCS1_MD5_SHA1 : Z := 65281.
Definition known_sigalgs : list (bytes * Z) :=
  omap (fun id => if id =? SIGN_RSA_PKCS1_MD5_SHA1 then None
                  else (fun name => (from_utf8_lossy name, id)) <$> sigalg_name id) (seqZ 0 65536).
Fixpoint join_comma (names : list bytes) : bytes :=
  match names with [] => [] | [n] => n | n :: names => n ++ lit ", " ++ join_comma names end.
Definition sigalg_id (name : bytes) : res AetherError Z :=
  ok_or (snd <$> find (fun k => bool_decide (k.1 = name)) known_sigalgs)
    (Error.Tls (debug name ++ lit " is no signature algorithm BoringSSL has (it has "
                ++ join_comma (map fst known_sigalgs) ++ lit ")")).
Definition sigalg_ids (text : bytes) : res AetherError (list Z) := mapM sigalg_id (split_char 58 text).
Definition set_sigalgs (text : bytes) : res AetherError unit :=
  ids ← sigalg_ids text;
  if takes_verify_prefs ids then Ok tt
  else Err (Error.Tls (debug text ++ lit " names a signature algorithm more than once")).

Definition CERT_COMPRESSIONS : list (bytes * Z) := [(lit "zlib", 1); (lit "brotli", 2); (lit "zstd", 3)].
Fixpoint offer_compressions (text : bytes) (added : list Z) (names : list bytes) : res AetherError (list Z) :=
  match names with
  | [] => Ok added
  | name :: names =>
      algorithm ← ok_or (find (fun a => bool_decide (a.1 = name)) CERT_COMPRESSIONS)
        (Error.Tls (debug name ++ lit " is no certificate compression Aether has (zlib, brotli and zstd)"));
      if takes_cert_compression added algorithm.2 then offer_compressions text (added ++ [algorithm.2]) names
      else Err (Error.Tls (debug text ++ lit " names " ++ name ++ lit " more than once"))
  end.
Definition offer_cert_compression (text : bytes) : res AetherError (list Z) :=
  offer_compressions text [] (split_char 58 text).

(** An arc in base 128, the last group first until it is reversed; ten groups hold
    64 bits. *)
Fixpoint base128_high (fuel : nat) (value : Z) : bytes :=
  match fuel with
  | O => []
  | S fuel => if value >? 0 then Z.lor 128 (Z.land value 127) :: base128_high fuel (Z.shiftr value 7) else []
  end.
Definition base128 (value : Z) : bytes := rev (Z.land value 127 :: base128_high 10 (Z.shiftr value 7)).

Definition bad_anchor (id : bytes) : AetherError :=
  Error.Tls (debug id ++ lit " is no trust anchor ID (a relative OID in dotted decimal, such as 11129.9.1)").
Definition encode_arc (id arc : bytes) : res AetherError bytes :=
  if bool_decide (arc = []) || negb (forallb is_ascii_digit arc) || ((1 <? blen arc) && starts_with [48] arc)
  then Err (bad_anchor id)
  else value ← ok_or (parse_u64 arc) (bad_anchor id); Ok (base128 value).
Definition encode_anchor (id : bytes) : res AetherError bytes :=
  arcs ← mapM (encode_arc id) (split_char 46 id);
  let encoded := concat arcs in
  if blen encoded <=? U8_MAX then Ok ([blen encoded] ++ encoded) else Err (bad_anchor id).
Definition trust_anchor_ids (text : bytes) : res AetherError bytes :=
  anchors ← mapM encode_anchor (split_char 58 text); Ok (concat anchors).
Definition ask_trust_anchors (text : bytes) : res AetherError unit :=
  ids ← trust_anchor_ids text;
  if takes_trust_anchors ids then Ok tt
  else Err (Error.Tls (debug text ++ lit " is no list of trust anchor IDs BoringSSL takes")).

Definition ALPS_PROTOCOLS : list bytes := [lit "h2"; lit "h3"].
Definition alpn_step (alpn : bytes) (s : list bytes * Z) : list bytes * Z + res unit (list bytes) :=
  let '(protocols, at_) := s in
  if at_ <? blen alpn then
    step_of (n ← idx alpn at_;
             let end_ := Z.min (at_ + 1 + n) (blen alpn) in
             p ← slice alpn (at_ + 1) end_;
             Ok (inl (protocols ++ [p], end_)))
  else inr (Ok protocols).
Definition alpn_protocols (alpn : bytes) : res unit (list bytes) :=
  default Panic (loop (S (length alpn)) (alpn_step alpn) ([], 0)).

Definition alps_new_codepoint (codepoint : bytes) : res AetherError bool :=
  if bool_decide (codepoint = lit "new") then Ok true
  else if bool_decide (codepoint = lit "old") then Ok false
  else Err (Error.Tls (debug codepoint ++ lit " is no ALPS codepoint: new (0x44cd, Chrome's now) or old (0x4469, Chrome 120's)")).

Fixpoint add_settings (protocols : list bytes) : res AetherError unit :=
  match protocols with
  | [] => Ok tt
  | protocol :: protocols =>
      if takes_application_settings protocol then add_settings protocols
      else Err (Error.Tls (lit "ALPS for " ++ from_utf8_lossy protocol ++ lit " cannot be offered"))
  end.
Definition offer_alps (codepoint alpn : bytes) : res AetherError unit :=
  new ← alps_new_codepoint codepoint;
  protocols ← match alpn_protocols alpn with Ok p => Ok p | _ => Panic end;
  add_settings (List.filter (fun p => bool_decide (p ∈ ALPS_PROTOCOLS)) protocols).

Definition server_padding (value : bytes) : res AetherError Z :=
  ok_or (parse_u16 value) (Error.Tls (debug value ++ lit " is no number of bytes from 0 to 65535")).

Definition ALPN_H2_HTTP1 : bytes := [2; 104; 50; 8] ++ lit "http/1.1".

(** An error with the option it comes from. *)
Definition named (flag : bytes) (e : AetherError) : AetherError :=
  let reason := match e with Error.Tls reason => reason | other => to_string other end in
  Error.Tls (flag ++ lit ": " ++ reason).
Definition checked {A} (flag : bytes) (o : option bytes) (f : bytes -> res AetherError A) : res AetherError unit :=
  match o with Some v => _ ← map_err (named flag) (f v); Ok tt | None => Ok tt end.

Definition check_tls_options (fingerprint : Fingerprint) : res AetherError unit :=
  _ ← checked TLS_CIPHERS_flag (ciphers fingerprint) set_tls12_ciphers;
  _ ← checked (lit "--tls13-ciphers") (tls13_ciphers fingerprint) set_tls13_ciphers;
  _ ← checked (lit "--tls-groups") (Some (groups fingerprint)) set_groups;
  _ ← checked (lit "--tls-sigalgs") (sigalgs fingerprint) set_sigalgs;
  _ ← checked (lit "--tls-cert-compression") (cert_compression fingerprint) offer_cert_compression;
  _ ← checked (lit "--tls-trust-anchors") (trust_anchors fingerprint) ask_trust_anchors;
  _ ← checked (lit "--tls-key-shares") (key_shares fingerprint) (set_key_shares (groups fingerprint));
  _ ← checked (lit "--tls-alps") (alps fingerprint) (fun c => offer_alps c ALPN_H2_HTTP1);
  checked (lit "--tls-server-padding") (server_padding_ fingerprint) server_padding.
End options.

(** ** Fields and their encodings *)

Lemma take_app f r : take (blen f) (f ++ r) = Some (f, r).
Proof.
  unfold take. rewrite (proj2 (Z.ltb_ge _ _)) by blia.
  by rewrite (sub_at _ [] f r), (sub_at _ f r []) by (done || (by rewrite app_nil_r) || blia).
Qed.

Lemma take_Some n s f r : 0 <= n -> take n s = Some (f, r) -> s = f ++ r /\ blen f = n.
Proof.
  intros Hn. unfold take. zcase; [done|]. intros [= <- <-]. split; [|rewrite blen_sub; lia].
  pose proof (sub_split s 0 n ltac:(lia) ltac:(lia) ltac:(lia)) as Hs. by rewrite (sub_empty s 0 0) in Hs.
Qed.

Lemma u8_cons b r : u8 (b :: r) = Some (b, r).
Proof. unfold u8. change (b :: r) with ([b] ++ r). change 1 with (blen [b]). by rewrite take_app. Qed.

Lemma u8_Some s b r : u8 s = Some (b, r) -> s = b :: r.
Proof.
  unfold u8. destruct (take 1 s) as [[f t]|] eqn:Ht; [|done]. apply take_Some in Ht as [-> Hl]; [|lia]. cbn [mbind option_bind].
  destruct f as [|x [|y f]]; [done| |unfold blen in Hl; cbn in Hl; lia]. cbn. by intros [= <- <-].
Qed.

Lemma u16_app v r : 0 <= v <= U16_MAX -> u16 (be16_bytes v ++ r) = Some (v, r).
Proof.
  intros Hv. unfold u16. rewrite <- (blen_be16_bytes v), take_app. cbn [mbind option_bind]. rewrite be16_bytes_spec.
  change (bget [?a; ?b] 0) with (Some a). change (bget [?a; ?b] 1) with (Some b). cbn [mbind option_bind].
  by rewrite u16_be_roundtrip.
Qed.

Lemma be16_bytes_u16_be a b : is_byte a -> is_byte b -> be16_bytes (u16_be a b) = [a; b].
Proof.
  unfold is_byte. intros Ha Hb. rewrite be16_bytes_spec, u16_be_spec by done.
  rewrite Z.add_comm, Z.div_add, (Z.div_small b) by lia. rewrite Z.mod_add, !Z.mod_small by lia. done.
Qed.

Lemma u16_Some s v r : all_bytes s -> u16 s = Some (v, r) -> s = be16_bytes v ++ r /\ 0 <= v <= U16_MAX.
Proof.
  unfold u16. intros Hb. destruct (take 2 s) as [[f t]|] eqn:Ht; [|done]. apply take_Some in Ht as [-> Hl]; [|lia]. cbn [mbind option_bind].
  destruct f as [|x [|y [|z f]]]; [done..| |unfold blen in Hl; cbn in Hl; lia]. apply Forall_app in Hb as [Hb _].
  inversion Hb as [|? ? Hx Hb']; subst. inversion Hb'; subst.
  change (bget [x; y] 0) with (Some x). change (bget [x; y] 1) with (Some y). cbn [mbind option_bind]. intros [= <- <-].
  rewrite be16_bytes_u16_be by done. split; [done|]. by apply u16_be_bound.
Qed.

Definition enc16 (f : bytes) : bytes := be16_bytes (blen f) ++ f.
Definition enc8 (f : bytes) : bytes := [blen f] ++ f.

Lemma u16_prefixed_app f r : blen f <= U16_MAX -> u16_prefixed (enc16 f ++ r) = Some (f, r).
Proof.
  intros Hf. unfold u16_prefixed, enc16. rewrite <- app_assoc, u16_app by (split; [apply blen_nonneg|done]). apply take_app.
Qed.
Lemma u8_prefixed_app f r : u8_prefixed (enc8 f ++ r) = Some (f, r).
Proof. unfold u8_prefixed, enc8. cbn [app]. rewrite u8_cons. apply take_app. Qed.

Lemma u16_prefixed_Some s f r : all_bytes s -> u16_prefixed s = Some (f, r) -> s = enc16 f ++ r /\ blen f <= U16_MAX.
Proof.
  intros Hb. unfold u16_prefixed. destruct (u16 s) as [[len t]|] eqn:Hu; [|done]. apply u16_Some in Hu as [-> Hl]; [|done].
  cbn [mbind option_bind]. intros [-> Hf]%take_Some; [|lia]. unfold enc16. rewrite Hf. split; [solve_app|lia].
Qed.
Lemma u8_prefixed_Some s f r : all_bytes s -> u8_prefixed s = Some (f, r) -> s = enc8 f ++ r /\ blen f <= U8_MAX.
Proof.
  intros Hb. unfold u8_prefixed. destruct (u8 s) as [[len t]|] eqn:Hu; [|done]. apply u8_Some in Hu as ->.
  inversion Hb as [|? ? Hl _]; subst. cbn [mbind option_bind]. intros [-> Hf]%take_Some; [|by destruct Hl].
  unfold enc8. rewrite Hf. split; [done|]. unfold is_byte in Hl. unfold U8_MAX. lia.
Qed.

(** ** ECHConfigs *)

(** A config of another version; one whose public name is invalid, whose extensions
    are not read; any other. *)
Inductive config :=
| Foreign (version : Z) (contents : bytes)
| Misnamed (config_id kem : Z) (key suites : bytes) (max_name : Z) (name extensions : bytes)
| Config (config_id kem : Z) (key : bytes) (suites : list (Z * Z)) (max_name : Z) (name : bytes) (extensions : list (Z * bytes)).

Definition enc_suites (suites : list (Z * Z)) : bytes := concat (map (fun s => be16_bytes s.1 ++ be16_bytes s.2) suites).
Definition enc_extensions (es : list (Z * bytes)) : bytes := concat (map (fun e => be16_bytes e.1 ++ enc16 e.2) es).
Definition contents_of (config_id kem : Z) (key suites : bytes) (max_name : Z) (name extensions : bytes) : bytes :=
  [config_id] ++ be16_bytes kem ++ enc16 key ++ enc16 suites ++ [max_name] ++ enc8 name ++ enc16 extensions.
Definition contents (c : config) : bytes :=
  match c with
  | Foreign _ s => s
  | Misnamed i k key suites m name es => contents_of i k key suites m name es
  | Config i k key suites m name es => contents_of i k key (enc_suites suites) m name (enc_extensions es)
  end.
Definition version (c : config) : Z := match c with Foreign v _ => v | _ => ECH_CONFIG_VERSION end.
Definition enc_config (c : config) : bytes := be16_bytes (version c) ++ enc16 (contents c).
Definition enc_configs (cs : list config) : bytes := concat (map enc_config cs).

Definition is_u16 (v : Z) : Prop := 0 <= v <= U16_MAX.
Definition fields_ok (kem : Z) (key suites name extensions : bytes) : Prop :=
  is_u16 kem /\ key <> [] /\ blen key <= U16_MAX /\ suites <> [] /\ blen suites <= U16_MAX
  /\ name <> [] /\ blen extensions <= U16_MAX.
Definition config_ok (c : config) : Prop :=
  blen (contents c) <= U16_MAX
  /\ match c with
     | Foreign v _ => is_u16 v /\ v <> ECH_CONFIG_VERSION
     | Misnamed _ k key suites _ name es =>
         fields_ok k key suites name es /\ blen suites mod 4 = 0 /\ valid_public_name name = false
     | Config _ k key suites _ name es =>
         fields_ok k key (enc_suites suites) name (enc_extensions es) /\ valid_public_name name = true
         /\ Forall (fun s => is_u16 s.1 /\ is_u16 s.2) suites
         /\ Forall (fun e => is_u16 e.1 /\ blen e.2 <= U16_MAX) es
     end.

(** BoringSSL has the suite: HKDF-SHA256 and one of its AEADs. *)
Definition known_suite (s : Z * Z) : bool := (s.1 =? HPKE_HKDF_SHA256) && bool_decide (s.2 ∈ HPKE_AEADS).
Definition mandatory (e : Z * bytes) : bool := negb (Z.land e.1 32768 =? 0).
(** The key of a config BoringSSL offers. *)
Definition offered (c : config) : option bytes :=
  match c with
  | Config _ kem key suites _ _ es =>
      if negb (existsb mandatory es) && (kem =? HPKE_DHKEM_X25519_HKDF_SHA256) && existsb known_suite suites
      then Some key else None
  | _ => None
  end.

Lemma read_extensions_enc es : forall fuel m,
  Forall (fun e => is_u16 e.1 /\ blen e.2 <= U16_MAX) es -> (length es <= fuel)%nat ->
  read_extensions fuel m (enc_extensions es) = Some (m || existsb mandatory es).
Proof.
  unfold enc_extensions. induction es as [|[k d] es IH]; intros fuel m Hes Hf.
  { cbn. rewrite orb_false_r. by destruct fuel. }
  apply Forall_cons in Hes as [[Hk Hd] Hes]. cbn [fst snd map concat existsb length] in *. destruct fuel as [|fuel]; [lia|].
  cbn [read_extensions]. rewrite <- !app_assoc. rewrite u16_app by done. cbn [mbind option_bind].
  rewrite u16_prefixed_app by done. cbn [mbind option_bind]. rewrite IH by (done || lia).
  unfold mandatory at 2. cbn [fst]. by rewrite orb_assoc.
Qed.

Lemma read_suites_enc ss : forall fuel m,
  Forall (fun s => is_u16 s.1 /\ is_u16 s.2) ss -> (length ss <= fuel)%nat ->
  read_suites fuel m (enc_suites ss) = Some (m || existsb known_suite ss).
Proof.
  unfold enc_suites. induction ss as [|[k a] ss IH]; intros fuel m Hss Hf.
  { cbn. rewrite orb_false_r. by destruct fuel. }
  apply Forall_cons in Hss as [[Hk Ha] Hss]. cbn [fst snd map concat existsb length] in *. destruct fuel as [|fuel]; [lia|].
  cbn [read_suites]. rewrite <- !app_assoc. rewrite u16_app by done. cbn [mbind option_bind].
  rewrite u16_app by done. cbn [mbind option_bind]. rewrite IH by (done || lia).
  unfold known_suite at 2. cbn [fst snd]. by rewrite orb_assoc.
Qed.

Lemma read_extensions_Some fuel : forall s m r, all_bytes s -> read_extensions fuel m s = Some r ->
  exists es, s = enc_extensions es /\ Forall (fun e => is_u16 e.1 /\ blen e.2 <= U16_MAX) es /\ r = m || existsb mandatory es.
Proof.
  assert (forall (m r : bool), Some m = Some r ->
    exists es, [] = enc_extensions es /\ Forall (fun e : Z * bytes => is_u16 e.1 /\ blen e.2 <= U16_MAX) es /\ r = m || existsb mandatory es) as Hnil.
  { intros m r [= ->]. exists []. cbn. by rewrite orb_false_r. }
  induction fuel as [|fuel IH]; intros s m r Hb; (destruct s as [|x s]; [apply Hnil|]); cbn [read_extensions]; [done|].
  destruct (u16 (x :: s)) as [[kind t]|] eqn:Hk; [|done]. apply u16_Some in Hk as [Hs Hkind]; [|done]. cbn [mbind option_bind].
  rewrite Hs in Hb. apply Forall_app in Hb as [_ Hb].
  destruct (u16_prefixed t) as [[d u]|] eqn:Hp; [|done]. apply u16_prefixed_Some in Hp as [-> Hd]; [|done]. cbn [mbind option_bind].
  apply Forall_app in Hb as [_ Hb]. intros (es & -> & Hes & ->)%IH; [|done]. exists ((kind, d) :: es).
  unfold enc_extensions in *. cbn [map concat fst snd existsb]. rewrite Hs. split; [solve_app|]. split; [by constructor|].
  unfold mandatory at 2. cbn [fst]. by rewrite orb_assoc.
Qed.

Lemma read_suites_Some fuel : forall s m r, all_bytes s -> read_suites fuel m s = Some r ->
  exists ss, s = enc_suites ss /\ Forall (fun s => is_u16 s.1 /\ is_u16 s.2) ss /\ r = m || existsb known_suite ss.
Proof.
  assert (forall (m r : bool), Some m = Some r ->
    exists ss, [] = enc_suites ss /\ Forall (fun s : Z * Z => is_u16 s.1 /\ is_u16 s.2) ss /\ r = m || existsb known_suite ss) as Hnil.
  { intros m r [= ->]. exists []. cbn. by rewrite orb_false_r. }
  induction fuel as [|fuel IH]; intros s m r Hb; (destruct s as [|x s]; [apply Hnil|]); cbn [read_suites]; [done|].
  destruct (u16 (x :: s)) as [[kdf t]|] eqn:Hk; [|done]. apply u16_Some in Hk as [Hs Hkdf]; [|done]. cbn [mbind option_bind].
  rewrite Hs in Hb. apply Forall_app in Hb as [_ Hb].
  destruct (u16 t) as [[aead u]|] eqn:Hp; [|done]. apply u16_Some in Hp as [-> Ha]; [|done]. cbn [mbind option_bind].
  apply Forall_app in Hb as [_ Hb]. intros (ss & -> & Hss & ->)%IH; [|done]. exists ((kdf, aead) :: ss).
  unfold enc_suites in *. cbn [map concat fst snd existsb]. rewrite Hs. split; [solve_app|]. split; [by constructor|].
  unfold known_suite at 2. cbn [fst snd]. by rewrite orb_assoc.
Qed.

Lemma blen_enc_suites ss : blen (enc_suites ss) = 4 * blen ss.
Proof. unfold enc_suites. induction ss as [|s ss IH]; [done|]. cbn [map concat]. blia. Qed.

Lemma enc_extensions_length es : (length es <= length (enc_extensions es))%nat.
Proof.
  unfold enc_extensions. induction es as [|e es IH]; [done|]. cbn [map concat length]. rewrite !length_app. cbn [length be16_bytes]. lia.
Qed.

(** ** Reading configs *)

Lemma ech_contents_of i k key suites m name es :
  is_u16 k -> blen key <= U16_MAX -> blen suites <= U16_MAX -> blen es <= U16_MAX ->
  ech_contents (contents_of i k key suites m name es) = ech_verdict k key suites name es [].
Proof.
  intros Hk Hlk Hls Hle. unfold ech_contents, contents_of. cbn [app]. rewrite u8_cons. cbn [mbind option_bind].
  rewrite u16_app by done. cbn [mbind option_bind]. rewrite u16_prefixed_app by done. cbn [mbind option_bind].
  rewrite u16_prefixed_app by done. cbn [mbind option_bind]. rewrite u8_cons. cbn [mbind option_bind].
  rewrite u8_prefixed_app. cbn [mbind option_bind]. rewrite <- (app_nil_r (enc16 es)). by rewrite u16_prefixed_app.
Qed.

Lemma ech_contents_Some s r : all_bytes s -> ech_contents s = Some r ->
  exists i k key suites m name es tail, s = contents_of i k key suites m name es ++ tail
    /\ is_u16 k /\ blen key <= U16_MAX /\ blen suites <= U16_MAX /\ blen es <= U16_MAX
    /\ all_bytes suites /\ all_bytes es /\ ech_verdict k key suites name es tail = Some r.
Proof.
  unfold ech_contents. intros Hb. destruct (u8 s) as [[i s1]|] eqn:E; [|done]. apply u8_Some in E as ->.
  inversion Hb as [|? ? _ Hb1]; subst. cbn [mbind option_bind].
  destruct (u16 s1) as [[k s2]|] eqn:E; [|done]. apply u16_Some in E as [-> Hk]; [|done]. apply Forall_app in Hb1 as [_ Hb2]. cbn [mbind option_bind].
  destruct (u16_prefixed s2) as [[key s3]|] eqn:E; [|done]. apply u16_prefixed_Some in E as [-> Hlk]; [|done]. apply Forall_app in Hb2 as [_ Hb3]. cbn [mbind option_bind].
  destruct (u16_prefixed s3) as [[suites s4]|] eqn:E; [|done]. apply u16_prefixed_Some in E as [-> Hls]; [|done].
  apply Forall_app in Hb3 as [[_ Hbs]%Forall_app Hb4]. cbn [mbind option_bind].
  destruct (u8 s4) as [[m s5]|] eqn:E; [|done]. apply u8_Some in E as ->. inversion Hb4 as [|? ? _ Hb5]; subst. cbn [mbind option_bind].
  destruct (u8_prefixed s5) as [[name s6]|] eqn:E; [|done]. apply u8_prefixed_Some in E as [-> Hln]; [|done]. apply Forall_app in Hb5 as [_ Hb6]. cbn [mbind option_bind].
  destruct (u16_prefixed s6) as [[es tail]|] eqn:E; [|done]. apply u16_prefixed_Some in E as [-> Hle]; [|done].
  apply Forall_app in Hb6 as [[_ Hbe]%Forall_app _]. cbn [mbind option_bind]. intros Hv.
  exists i, k, key, suites, m, name, es, tail. unfold contents_of. split; [solve_app|done].
Qed.

Lemma ech_config_enc c rest : config_ok c -> ech_config (enc_config c ++ rest) = Some (offered c, rest).
Proof.
  intros [Hl Hok]. unfold ech_config, enc_config. rewrite <- app_assoc.
  assert (is_u16 (version c)) as Hv by (destruct c; [apply Hok|done..]).
  rewrite u16_app by done. cbn [mbind option_bind]. rewrite u16_prefixed_app by done. cbn [mbind option_bind].
  destruct c as [v s|i k key suites m name es|i k key suites m name es]; cbn [version contents offered].
  - destruct Hok as [_ Hne]. by rewrite (proj2 (Z.eqb_neq _ _) Hne).
  - destruct Hok as ((Hk & Hkey & Hlk & Hs & Hls & Hn & Hle) & Hm & Hname). change (negb (_ =? _)) with false. cbn iota.
    rewrite ech_contents_of by done. unfold ech_verdict.
    rewrite !bool_decide_eq_false_2, Hm, Hname by done. done.
  - destruct Hok as ((Hk & Hkey & Hlk & Hs & Hls & Hn & Hle) & Hname & Hss & Hes). change (negb (_ =? _)) with false. cbn iota.
    rewrite ech_contents_of by done. unfold ech_verdict.
    assert (blen (enc_suites suites) mod 4 = 0) as Hm by (rewrite blen_enc_suites, Z.mul_comm; by apply Z.mod_mul).
    rewrite !bool_decide_eq_false_2, Hm, Hname by done. cbn [orb negb Z.eqb]. change (bool_decide (@nil Z = [])) with true. cbn [negb orb].
    rewrite read_extensions_enc by (done || apply enc_extensions_length). cbn [mbind option_bind].
    rewrite read_suites_enc; [done|done|]. pose proof (blen_enc_suites suites). unfold blen in *. lia.
Qed.

Lemma ech_config_Some s r rest : all_bytes s -> ech_config s = Some (r, rest) ->
  exists c, config_ok c /\ s = enc_config c ++ rest /\ offered c = r.
Proof.
  unfold ech_config. intros Hb. destruct (u16 s) as [[v t]|] eqn:E; [|done]. apply u16_Some in E as [-> Hv]; [|done].
  apply Forall_app in Hb as [_ Hb]. cbn [mbind option_bind].
  destruct (u16_prefixed t) as [[body u]|] eqn:E; [|done]. apply u16_prefixed_Some in E as [-> Hl]; [|done].
  apply Forall_app in Hb as [[_ Hb]%Forall_app _]. cbn [mbind option_bind]. destruct (Z.eqb_spec v ECH_CONFIG_VERSION) as [->|Hne]; cbn [negb].
  2: { intros [= <- <-]. exists (Foreign v body).
       split; [split; [done|by split]|]. split; [unfold enc_config; solve_app|done]. }
  destruct (ech_contents body) as [c|] eqn:Hc; [|done]. cbn [mbind option_bind]. intros [= <- <-].
  apply ech_contents_Some in Hc as (i & k & key & suites & m & name & es & tail & -> & Hk & Hlk & Hls & Hle & Hbs & Hbe & Hv'); [|done].
  unfold ech_verdict in Hv'.
  destruct (bool_decide (key = [])) eqn:H1; [done|]. destruct (bool_decide (suites = [])) eqn:H2; [done|].
  destruct (blen suites mod 4 =? 0) eqn:H3; [|done]. destruct (bool_decide (name = [])) eqn:H4; [done|].
  destruct (bool_decide (tail = [])) eqn:H5; [|done]. apply bool_decide_eq_true in H5 as ->. cbn [negb orb] in Hv'.
  apply bool_decide_eq_false in H1, H2, H4. apply Z.eqb_eq in H3. rewrite app_nil_r in *.
  destruct (valid_public_name name) eqn:Hn; cbn [negb] in Hv'.
  - destruct (read_extensions _ false es) as [me|] eqn:He; [|done]. apply read_extensions_Some in He as (exts & -> & Hex & ->); [|done].
    cbn [mbind option_bind] in Hv'. destruct (read_suites _ false suites) as [cs|] eqn:Hs; [|done].
    apply read_suites_Some in Hs as (ss & -> & Hss & ->); [|done]. cbn [mbind option_bind orb] in Hv'. injection Hv' as <-.
    exists (Config i k key ss m name exts).
    split; [by split; [|split; [|split]]|]. split; [unfold enc_config; solve_app|done].
  - injection Hv' as <-. exists (Misnamed i k key suites m name es).
    split; [by split; [|split]|]. split; [unfold enc_config; solve_app|done].
Qed.

Lemma read_configs_enc cs : forall fuel picked, Forall config_ok cs -> (length cs <= fuel)%nat ->
  read_configs fuel picked (enc_configs cs) = Some (match picked with Some _ => picked | None => omap offered cs !! 0%nat end).
Proof.
  unfold enc_configs. induction cs as [|c cs IH]; intros fuel picked Hcs Hf; [by destruct fuel, picked|].
  apply Forall_cons in Hcs as [Hc Hcs]. cbn [map concat length omap list_omap] in *. destruct fuel as [|fuel]; [lia|].
  pose proof (ech_config_enc c (concat (map enc_config cs)) Hc) as He.
  destruct (enc_config c ++ concat (map enc_config cs)) as [|x l] eqn:Hx; [done|]. cbn [read_configs]. rewrite He.
  cbn [mbind option_bind]. rewrite IH by (done || lia). destruct picked; [done|]. by destruct (offered c).
Qed.

Lemma read_configs_Some fuel : forall s picked r, all_bytes s -> read_configs fuel picked s = Some r ->
  exists cs, Forall config_ok cs /\ s = enc_configs cs.
Proof.
  induction fuel as [|fuel IH]; intros s picked r Hb; (destruct s as [|x s]; [by exists []|]); cbn [read_configs]; [done|].
  destruct (ech_config (x :: s)) as [[c t]|] eqn:Hc; [|done]. cbn [mbind option_bind].
  apply ech_config_Some in Hc as (k & Hk & Hs & _); [|done]. rewrite Hs in Hb |- *. apply Forall_app in Hb as [_ Hb].
  intros (cs & Hcs & ->)%IH; [|done]. exists (k :: cs). split; [by constructor|]. done.
Qed.

Lemma enc_configs_length cs : (length cs <= length (enc_configs cs))%nat.
Proof.
  unfold enc_configs. induction cs as [|c cs IH]; [done|]. cbn [map concat length]. unfold enc_config at 1.
  rewrite !length_app. cbn [length be16_bytes]. lia.
Qed.

(** What the check says of a list of configs. *)
Lemma check_enc cs : Forall config_ok cs -> cs <> [] -> blen (enc_configs cs) <= U16_MAX ->
  check_ech_config_list (enc16 (enc_configs cs))
  = match omap offered cs !! 0%nat with
    | Some key => if blen key =? X25519_PUBLIC_KEY_LEN then Ok tt else Err short_key
    | None => Err no_config
    end.
Proof.
  intros Hcs Hne Hl. unfold check_ech_config_list. rewrite <- (app_nil_r (enc16 _)), u16_prefixed_app by done. rsimp.
  assert (enc_configs cs <> []) as Hn.
  { pose proof (enc_configs_length cs) as H. destruct cs; [done|]. intros E. rewrite E in H. cbn in H. lia. }
  rewrite bool_decide_eq_false_2, bool_decide_eq_true_2 by done. cbn [negb orb].
  rewrite read_configs_enc by (done || apply enc_configs_length). by rsimp.
Qed.

(** A list is taken exactly when it is an ECHConfigList, of one config or more, in
    which the first config that BoringSSL offers (this version, a valid public name, no
    mandatory extension, X25519, HKDF-SHA256 and a known AEAD) holds a key of 32 bytes. *)
Theorem check_ech_config_list_iff list :
  all_bytes list ->
  check_ech_config_list list = Ok tt
  <-> exists cs key, list = enc16 (enc_configs cs) /\ Forall config_ok cs /\ cs <> [] /\ blen (enc_configs cs) <= U16_MAX
        /\ omap offered cs !! 0%nat = Some key /\ blen key = X25519_PUBLIC_KEY_LEN.
Proof.
  intros Hb. split.
  - intros Hok. pose proof Hok as Hc. unfold check_ech_config_list in Hc.
    destruct (u16_prefixed list) as [[configs whole]|] eqn:Hp; [|done]. apply u16_prefixed_Some in Hp as [-> Hl]; [|done].
    apply Forall_app in Hb as [[_ Hb]%Forall_app _]. cbn [ok_or mbind res_bind] in Hc.
    destruct (bool_decide (configs = [])) eqn:Hne; [done|]. destruct (bool_decide (whole = [])) eqn:Hw; [|done].
    apply bool_decide_eq_true in Hw as ->. apply bool_decide_eq_false in Hne. cbn [negb orb] in Hc. rewrite app_nil_r in *.
    destruct (read_configs _ None configs) as [picked|] eqn:Hr; [|done]. apply read_configs_Some in Hr as (cs & Hcs & ->); [|done].
    assert (cs <> []) as Hcne by (by intros ->). rewrite check_enc in Hok by done.
    destruct (omap offered cs !! 0%nat) as [key|] eqn:Hk; [|done]. destruct (Z.eqb_spec (blen key) X25519_PUBLIC_KEY_LEN); [|done].
    by exists cs, key.
  - intros (cs & key & -> & Hcs & Hne & Hl & Hk & Hlen). rewrite check_enc, Hk by done. by rewrite (proj2 (Z.eqb_eq _ _) Hlen).
Qed.

(** ** The key of the sessions *)

(** The sessions that run and the key they offer: a session that starts with a key
    brings it, a server that hands one back replaces it, and it is gone when no session
    runs.  [sreach s n key]: [n] sessions run and the specification says [key]. *)
Inductive sreach : Sessions -> nat -> option bytes -> Prop :=
| sreach_init : sreach (mkSessions None 0) 0 None
| sreach_start s n key ech :
    sreach s n key -> sreach (EchSession_start ech s) (S n) (match ech with Some _ => ech | None => key end)
| sreach_end s n key s' :
    sreach s (S n) key -> EchSession_drop s = Ok s' -> sreach s' n (match n with O => None | S _ => key end)
| sreach_retry s n key retry :
    sreach s n key -> sreach (adopt_ech_retry retry s) n ((fun _ => retry) <$> key).

(** The key the handshakes offer is that of the last session that brought one or the
    one a server handed back since, as long as one session runs, and none after the
    last has ended; no session's end underflows the count. *)
Theorem session_key_lifetime s n key :
  sreach s n key ->
  sessions s = Z.of_nat n /\ session_ech s = key /\ (n = O -> session_ech s = None)
  /\ (n <> O -> exists s', EchSession_drop s = Ok s').
Proof.
  intros Hr. assert (sessions s = Z.of_nat n /\ session_ech s = key /\ (n = O -> key = None)) as (Hs & Hk & Hn).
  { induction Hr as [|s n key ech _ (Hs & Hk & Hn)|s n key s' _ (Hs & Hk & Hn) Hd|s n key retry _ (Hs & Hk & Hn)].
    - done.
    - unfold EchSession_start, use_ech. cbn [sessions session_ech].
      destruct ech as [e|]; cbn; [repeat split; lia || done|]. destruct (Z.eqb_spec (sessions s + 1) 1); cbn; repeat split; try lia.
      + rewrite Hn by lia. done.
      + done.
    - unfold EchSession_drop, use_ech in Hd. revert Hd. zcase; [done|]. intros [= <-]. cbn [sessions session_ech].
      destruct n as [|n]; [rewrite (proj2 (Z.eqb_eq _ _)) by lia|rewrite (proj2 (Z.eqb_neq _ _)) by lia]; cbn; repeat split; lia || done.
    - unfold adopt_ech_retry, use_ech. rewrite Hk. destruct key as [k|]; cbn; repeat split; try done. intros E. by specialize (Hn E). }
  repeat split; [done|done|intros E; rewrite Hk; auto|].
  intros Hne. unfold EchSession_drop. rewrite (proj2 (Z.eqb_neq _ _)) by lia. eauto.
Qed.

(** ** The key an option asks for *)

(** With a key asked for, a handshake gets one that can be offered, or the run stops
    with an error that says so: it never goes on without. *)
Theorem ech_key_never_without base64_decode fetch option_ v :
  v <> [] ->
  match ech_key base64_decode fetch option_ (Some v) with
  | Ok key => exists k, key = Some k /\ check_ech_config_list k = Ok tt
  | Err e => exists text, e = Ech (NO_ECH_KEY ++ text)
  | Panic => fetch = Panic
  end.
Proof.
  intros Hv. unfold ech_key.
  assert (forall m : res AetherError bytes,
    match (match (key ← m; _ ← ensure_offerable key; Ok key) with
           | Ok key => Ok (Some key)
           | Err e =>
               let reason := match e with Ech reason => reason | other => to_string other end in
               Err (Ech (NO_ECH_KEY ++ purpose option_ ++ lit " (" ++ reason ++ lit "); " ++ refusal option_))
           | Panic => Panic
           end) with
    | Ok key => exists k, key = Some k /\ check_ech_config_list k = Ok tt
    | Err e => exists text, e = Ech (NO_ECH_KEY ++ text)
    | Panic => m = Panic
    end) as Hoffer.
  { intros [k|e|]; [|by eexists|done]. cbn [mbind res_bind]. unfold ensure_offerable.
    destruct (check_ech_config_list k) as [[]|reason|] eqn:Hc; cbn [map_err mbind res_bind]; [eauto|by eexists|].
    exfalso. clear -Hc. unfold check_ech_config_list in Hc. destruct (u16_prefixed k) as [[c w]|]; [|done]. cbn [ok_or mbind res_bind] in Hc.
    destruct (_ || _); [done|]. destruct (read_configs _ None c) as [[key|]|]; cbn in Hc; [by destruct (_ =? _)|done..]. }
  destruct (eq_ignore_ascii_case (trim v) (lit "auto")); [apply Hoffer|].
  rewrite (bool_decide_eq_false_2 (v = [])) by done. cbn [negb].
  specialize (Hoffer (map_err (fun e => match e with Ech reason => Ech (lit "the " ++ flag option_ ++ lit " value is " ++ reason) | other => other end)
    (decode_ech_config_list base64_decode v))).
  destruct (match (key ← map_err _ _; _) with Ok _ => _ | Err _ => _ | Panic => _ end) as [k|e|]; [done..|].
  revert Hoffer. unfold decode_ech_config_list. by destruct (base64_decode (trim v)).
Qed.

(** ** Verification *)

(** A server is taken exactly when verification is off, or there is nothing to pin, or
    its key is one of the pins. *)
Theorem server_taken_iff `{UnicodeCase} env pin pins peer :
  verify_peer (install_verification env pin pins) peer = inr tt
  <-> verify_enabled env = false \/ pin = false \/ pins = [] \/ exists hash, peer = Some (Some hash) /\ hash ∈ pins.
Proof.
  unfold install_verification, verify_peer. destruct (verify_enabled env); cbn [negb]; [|split; [by left|done]].
  destruct pin; cbn [andb]; [|split; [by right; left|done]].
  case_bool_decide as Hp; cbn [negb]; [split; [by right; right; left|done]|].
  assert (forall hash, existsb (fun pin => bool_decide (pin = hash)) pins = true <-> hash ∈ pins) as He.
  { intros hash. rewrite existsb_exists. split.
    - intros (x & Hx & ->%bool_decide_eq_true). by apply list_elem_of_In.
    - intros Hx. exists hash. split; [by apply list_elem_of_In|by apply bool_decide_eq_true]. }
  destruct peer as [[hash|]|].
  - specialize (He hash). destruct (existsb _ pins); split.
    + intros _. right. right. right. exists hash. split; [done|by apply He].
    + done.
    + done.
    + intros [|[|[|(h & [= ->] & Hh)]]]; [done..|]. by apply He in Hh.
  - split; [done|]. by intros [|[|[|(h & ? & _)]]].
  - split; [done|]. by intros [|[|[|(h & ? & _)]]].
Qed.

(** ** ALPN lists *)

Lemma alpn_loop alpn ps : forall pre acc fuel,
  alpn = pre ++ concat (map enc8 ps) -> (length ps < fuel)%nat ->
  loop fuel (alpn_step alpn) (acc, blen pre) = Some (Ok (acc ++ ps)).
Proof.
  induction ps as [|p ps IH]; intros pre acc fuel Ha Hf; (destruct fuel as [|fuel]; [cbn in Hf; lia|]).
  - apply loop_exit. cbn [alpn_step]. rewrite Ha. cbn [map concat]. rewrite !app_nil_r, Z.ltb_irrefl. done.
  - cbn [map concat length] in *. unfold enc8 at 1 in Ha.
    rewrite (loop_step _ _ _ (acc ++ [p], blen (pre ++ enc8 p))).
    + rewrite (IH (pre ++ enc8 p) (acc ++ [p])); [by rewrite <- app_assoc| |lia]. rewrite Ha. unfold enc8 at 2. solve_app.
    + cbn [alpn_step]. set (rest := concat (map enc8 ps)) in *. pose proof (blen_nonneg rest). pose proof (blen_nonneg p). pose proof (blen_nonneg pre).
      assert (blen alpn = blen pre + 1 + blen p + blen rest) as Hl by (rewrite Ha; blia).
      rewrite (proj2 (Z.ltb_lt _ _)) by lia. rewrite (idx_at alpn pre (p ++ rest) (blen pre) (blen p)) by (done || (rewrite Ha; solve_app)).
      rsimp. rewrite Z.min_l by lia. rewrite slice_ok by lia. rsimp. cbn [step_of].
      rewrite (sub_at alpn (pre ++ [blen p]) p rest) by (blia || (rewrite Ha; solve_app)). unfold enc8. do 2 f_equal. blia.
Qed.

(** An ALPN list in wire format is read as its protocols; no list makes the reader
    panic. *)
Theorem alpn_protocols_read :
  (forall ps, alpn_protocols (concat (map enc8 ps)) = Ok ps)
  /\ forall alpn, all_bytes alpn -> exists ps, alpn_protocols alpn = Ok ps.
Proof.
  split.
  - intros ps. unfold alpn_protocols. rewrite (alpn_loop _ ps [] []); [done|done|].
    assert (length ps <= length (concat (map enc8 ps)))%nat; [|lia].
    induction ps as [|p ps IH]; [done|]. cbn [map concat length enc8 app]. rewrite length_app. lia.
  - intros alpn Hb. unfold alpn_protocols.
    destruct (loop_correct (alpn_step alpn) (fun s => 0 <= s.2) (fun r => exists ps, r = Ok ps) (fun s => Z.to_nat (blen alpn - s.2)))
      with (fuel := S (length alpn)) (s := (@nil bytes, 0)) as (r & -> & ps & ->); [|done|cbn; unfold blen; lia|by exists ps].
    intros [acc at_] Hat. cbn [snd alpn_step] in *. zcase; [|by eexists].
    read alpn at_ as n Hn. pose proof (all_bytes_bget _ _ _ Hb Hn) as Hnb. unfold is_byte in Hnb. rsimp.
    rewrite slice_ok by lia. rsimp. cbn [step_of snd]. lia.
Qed.

(** ** Trust anchors *)

(** A reader of relative OIDs in base 128. *)
Fixpoint read_arcs (acc : Z) (s : bytes) : list Z :=
  match s with
  | [] => []
  | b :: s => if b <? 128 then (acc * 128 + b) :: read_arcs 0 s else read_arcs (acc * 128 + (b - 128)) s
  end.

Lemma land_127 v : Z.land v 127 = v mod 128.
Proof. change 127 with (Z.ones 7). by rewrite Z.land_ones. Qed.

Lemma base128_high_read fuel : forall v t, 0 <= v < 128 ^ Z.of_nat fuel ->
  read_arcs 0 (rev (base128_high fuel v) ++ t) = read_arcs v t.
Proof.
  induction fuel as [|fuel IH]; intros v t Hv; [replace v with 0 by lia; done|]. cbn [base128_high].
  destruct (Z.gtb_spec v 0); [|by replace v with 0 by lia]. cbn [rev]. rewrite <- app_assoc, IH.
  - cbn [app read_arcs]. rewrite land_127. pose proof (Z.mod_pos_bound v 128 ltac:(lia)).
    assert (Z.lor 128 (v mod 128) = 128 + v mod 128) as ->.
    { change 128 with (Z.shiftl 1 7) at 1. rewrite lor_shiftl by (change (2 ^ 7) with 128; lia). change (1 * 2 ^ 7) with 128. lia. }
    rewrite (proj2 (Z.ltb_ge _ _)) by lia. f_equal. rewrite Z.shiftr_div_pow2 by lia. change (2 ^ 7) with 128.
    pose proof (Z.div_mod v 128 ltac:(lia)). lia.
  - rewrite Z.shiftr_div_pow2 by lia. change (2 ^ 7) with 128. split; [apply Z.div_pos; lia|].
    apply Z.div_lt_upper_bound; [lia|]. rewrite <- Z.pow_succ_r by lia. rewrite <- Nat2Z.inj_succ. lia.
Qed.

Lemma base128_read v t : 0 <= v <= U64_MAX -> read_arcs 0 (base128 v ++ t) = v :: read_arcs 0 t.
Proof.
  unfold U64_MAX. intros Hv. unfold base128. cbn [rev]. rewrite <- app_assoc, base128_high_read.
  - cbn [app read_arcs]. rewrite land_127. pose proof (Z.mod_pos_bound v 128 ltac:(lia)). rewrite (proj2 (Z.ltb_lt _ _)) by lia.
    f_equal. rewrite Z.shiftr_div_pow2 by lia. change (2 ^ 7) with 128. pose proof (Z.div_mod v 128 ltac:(lia)). lia.
  - rewrite Z.shiftr_div_pow2 by lia. change (2 ^ 7) with 128. split; [apply Z.div_pos; lia|].
    apply Z.div_lt_upper_bound; [lia|]. apply Z.le_lt_trans with (2 ^ 64); [lia|]. by vm_compute.
Qed.

Fixpoint read_anchors (fuel : nat) (s : bytes) : option (list (list Z)) :=
  match s, fuel with
  | [], _ => Some []
  | _, O => None
  | _, S fuel => '(id, s) ← u8_prefixed s; ids ← read_anchors fuel s; Some (read_arcs 0 id :: ids)
  end.

(** IDs as the option takes them. *)
Definition joined (c : Z) (ps : list bytes) : bytes :=
  match ps with [] => [] | p :: ps => p ++ concat (map (fun p => [c] ++ p) ps) end.
Definition show_id (arcs : list Z) : bytes := joined 46 (map dec arcs).
Definition show_ids (ids : list (list Z)) : bytes := joined 58 (map show_id ids).
Definition id_ok (arcs : list Z) : Prop :=
  arcs <> [] /\ Forall (fun a => 0 <= a <= U64_MAX) arcs /\ blen (concat (map base128 arcs)) <= U8_MAX.

Lemma split_joined c ps : ps <> [] -> Forall (fun p => no_char c p = true) ps -> split_char c (joined c ps) = ps.
Proof. intros Hne Hps. destruct ps as [|p ps]; [done|]. inversion Hps; subst. by apply split_char_join. Qed.

Lemma forallb_joined p c ps : p c = true -> Forall (fun s => forallb p s = true) ps -> forallb p (joined c ps) = true.
Proof.
  intros Hc Hps. destruct Hps as [|w ps Hw Hps]; [done|]. cbn [joined]. rewrite forallb_app, Hw. cbn [andb].
  induction Hps as [|v ps Hv _ IH]; [done|]. cbn [map concat]. by rewrite !forallb_app, Hv, IH; cbn; rewrite Hc.
Qed.

Lemma encode_arc_dec debug id a : 0 <= a <= U64_MAX -> encode_arc debug id (dec a) = Ok (base128 a).
Proof.
  intros Ha. pose proof (dec_all a ltac:(lia)) as Hd. pose proof (dec_not_nil a ltac:(lia)) as Hn. unfold encode_arc.
  rewrite bool_decide_eq_false_2, Hd by done. cbn [orb negb].
  assert ((1 <? blen (dec a)) && starts_with [48] (dec a) = false) as ->.
  { destruct (Z.ltb_spec 1 (blen (dec a))) as [H1|]; [|done]. cbn [andb].
    unfold dec in *. rewrite dec_digits_print in * by lia.
    pose proof (print_digits_head 10 ltac:(lia) 39 a (dec_range a Ha) ltac:(unfold blen in H1; lia)) as Hh.
    destruct (print_digits 10 39 a) as [|b s]; [done|]. cbn [starts_with]. by rewrite (proj2 (Z.eqb_neq 48 b)) by congruence. }
  unfold parse_u64. by rewrite parse_uint_dec by lia.
Qed.

Lemma mapM_res {E A B C} (f : B -> res E C) (g : A -> B) (h : A -> C) l :
  Forall (fun a => f (g a) = Ok (h a)) l -> mapM f (map g l) = Ok (map h l).
Proof. induction 1 as [|a l Ha _ IH]; [done|]. cbn [map mapM]. rewrite Ha. cbn [mbind res_bind]. by rewrite IH. Qed.

Lemma encode_anchor_show debug id : id_ok id -> encode_anchor debug (show_id id) = Ok (enc8 (concat (map base128 id))).
Proof.
  intros (Hne & Ha & Hl). unfold encode_anchor, show_id. rewrite split_joined.
  - rewrite (mapM_res _ dec base128) by (eapply Forall_impl; [exact Ha|intros; by apply encode_arc_dec]). cbn [mbind res_bind].
    by rewrite (proj2 (Z.leb_le _ _) Hl).
  - by destruct id.
  - apply Forall_map. eapply Forall_impl; [exact Ha|]. intros a [Ha0 _]. cbn. apply (forallb_no_char is_ascii_digit); [done|]. by apply dec_all.
Qed.

Lemma show_id_no_colon id : id_ok id -> no_char 58 (show_id id) = true.
Proof.
  intros (_ & Ha & _). apply (forallb_no_char (fun b => is_ascii_digit b || (b =? 46))); [done|]. apply forallb_joined; [done|].
  apply Forall_map. eapply Forall_impl; [exact Ha|]. intros a [Ha0 _]. cbn.
  apply (forallb_impl is_ascii_digit); [|by apply dec_all]. intros x Hx. by rewrite Hx.
Qed.

Lemma read_arcs_concat arcs : Forall (fun a => 0 <= a <= U64_MAX) arcs -> read_arcs 0 (concat (map base128 arcs)) = arcs.
Proof.
  induction 1 as [|a arcs Ha _ IH]; [done|]. cbn [map concat]. by rewrite base128_read, IH.
Qed.

(** Trust anchor IDs in dotted decimal go on the wire so that a reader of relative
    OIDs in base 128 gets the same arcs back, up to the largest 64-bit one. *)
Theorem trust_anchor_roundtrip debug ids :
  ids <> [] -> Forall id_ok ids ->
  exists wire, trust_anchor_ids debug (show_ids ids) = Ok wire /\ read_anchors (length wire) wire = Some ids.
Proof.
  intros Hne Hids. exists (concat (map (fun id => enc8 (concat (map base128 id))) ids)). split.
  - unfold trust_anchor_ids, show_ids. rewrite split_joined.
    + by rewrite (mapM_res _ show_id (fun id => enc8 (concat (map base128 id)))) by
        (eapply Forall_impl; [exact Hids|intros; by apply encode_anchor_show]).
    + by destruct ids.
    + apply Forall_map. eapply Forall_impl; [exact Hids|]. apply show_id_no_colon.
  - clear Hne. set (f := fun id => enc8 (concat (map base128 id))).
    assert (forall fuel, (length ids <= fuel)%nat -> read_anchors fuel (concat (map f ids)) = Some ids) as Hr.
    { induction Hids as [|id ids Hid _ IH]; intros fuel Hf; [by destruct fuel|]. cbn [length] in Hf. destruct fuel as [|fuel]; [lia|].
      cbn [map concat]. pose proof (u8_prefixed_app (concat (map base128 id)) (concat (map f ids))) as Hu. fold (f id) in Hu.
      destruct (f id ++ concat (map f ids)) as [|x l] eqn:Hx; [done|]. cbn [read_anchors]. rewrite Hu. cbn [mbind option_bind].
      rewrite IH by lia. cbn [mbind option_bind]. destruct Hid as (_ & Ha & _). by rewrite read_arcs_concat. }
    apply Hr. clear. induction ids as [|id ids IH]; [done|]. cbn [map concat length]. rewrite length_app. cbn. lia.
Qed.

(** ** The check of the options *)

(** The options that are given, by their flags. *)
Definition given (f : Fingerprint) : list bytes :=
  let opt (flag : bytes) (o : option bytes) := match o with Some _ => [flag] | None => [] end in
  opt TLS_CIPHERS_flag (ciphers f) ++ opt (lit "--tls13-ciphers") (tls13_ciphers f) ++ [lit "--tls-groups"]
  ++ opt (lit "--tls-sigalgs") (sigalgs f) ++ opt (lit "--tls-cert-compression") (cert_compression f)
  ++ opt (lit "--tls-trust-anchors") (trust_anchors f) ++ opt (lit "--tls-key-shares") (key_shares f)
  ++ opt (lit "--tls-alps") (alps f) ++ opt (lit "--tls-server-padding") (server_padding_ f).

Lemma checked_error {A} flag o (f : bytes -> res AetherError A) e :
  checked flag o f = Err e -> o <> None /\ exists reason, e = Error.Tls (flag ++ lit ": " ++ reason).
Proof.
  unfold checked. destruct o as [v|]; [|done]. destruct (f v) as [a|e'|]; cbn; [done| |done]. intros [= <-]. split; [done|]. by eexists.
Qed.

(** A start that the TLS options stop names an option that was given (or the groups),
    and why. *)
Theorem check_tls_options_names_option `{Boring} debug f e :
  check_tls_options debug f = Err e ->
  exists flag reason, In flag (given f) /\ e = Error.Tls (flag ++ lit ": " ++ reason).
Proof.
  unfold check_tls_options, given. intros Hc.
  assert (forall A flag o (g : bytes -> res AetherError A) (k : unit -> res AetherError unit) l,
    (checked flag o g ≫= k) = Err e ->
    (k tt = Err e -> exists flag reason, In flag l /\ e = Error.Tls (flag ++ lit ": " ++ reason)) ->
    exists flag' reason, In flag' (match o with Some _ => [flag] | None => [] end ++ l) /\ e = Error.Tls (flag' ++ lit ": " ++ reason)) as Hstep.
  { intros A flag o g k l Hb Hk. destruct (checked flag o g) as [[]|e'|] eqn:E; cbn in Hb; [|injection Hb as ->|done].
    - destruct (Hk Hb) as (fl & r & Hin & ->). exists fl, r. split; [apply in_or_app; by right|done].
    - apply checked_error in E as [Ho [reason ->]]. exists flag, reason. split; [|done]. destruct o; [by left|done]. }
  do 2 (eapply Hstep; [exact Hc|clear Hc; intros Hc]).
  apply (Hstep _ (lit "--tls-groups") (Some (groups f)) (set_groups debug) _ _ Hc). clear Hc; intros Hc.
  do 5 (eapply Hstep; [exact Hc|clear Hc; intros Hc]).
  apply checked_error in Hc as [Ho [reason ->]]. exists (lit "--tls-server-padding"), reason. split; [|done].
  destruct (server_padding_ f); [by left|done].
Qed.

(** ** The theorems at work *)

(** A config of another version, then one that is offered. *)
Definition example_configs : list config :=
  [Foreign 65034 [1; 2; 3]; Config 7 32 (replicate 32 9) [(1, 5); (1, 3)] 0 (lit "cloudflare-ech.com") [(10, [1])]].
Definition example_list : bytes := enc16 (enc_configs example_configs).
(** A list of one config, as a server hands it back. *)
Definition retry_list : bytes := enc16 (enc_configs [Config 9 32 (replicate 32 8) [(1, 3)] 0 (lit "cloudflare-ech.com") []]).

Lemma example_configs_ok : Forall config_ok example_configs.
Proof.
  unfold config_ok, fields_ok, is_u16, U16_MAX.
  repeat constructor; try (by vm_compute); intros E; discriminate E.
Qed.

Lemma check_ech_config_list_iff_witness : check_ech_config_list example_list = Ok tt.
Proof.
  apply (check_ech_config_list_iff example_list).
  - vm_compute. repeat constructor; discriminate.
  - exists example_configs, (replicate 32 9). split; [reflexivity|]. split; [apply example_configs_ok|]. split; [discriminate|].
    split; [apply Z.leb_le; vm_compute; reflexivity|]. split; reflexivity.
Defined.

Lemma session_key_lifetime_witness :
  session_ech (adopt_ech_retry [2] (EchSession_start None (EchSession_start (Some [1]) (mkSessions None 0)))) = Some [2].
Proof.
  apply (session_key_lifetime _ 2 (Some [2])).
  apply (sreach_retry _ 2 (Some [1])), (sreach_start _ 1 (Some [1]) None), (sreach_start _ 0 None (Some [1])), sreach_init.
Defined.

Lemma ech_key_never_without_witness :
  exists text, ech_key (fun _ => inr [0; 0]) Panic SESSION_ECH_OPTION (Some (lit "AAA=")) = Err (Ech (NO_ECH_KEY ++ text)).
Proof.
  pose proof (ech_key_never_without (fun _ => inr [0; 0]) Panic SESSION_ECH_OPTION (lit "AAA=")) as H.
  destruct (ech_key (fun _ => inr [0; 0]) Panic SESSION_ECH_OPTION (Some (lit "AAA="))) as [k|e|] eqn:E.
  - discriminate E.
  - destruct H as [text ->]; [discriminate|]. exists text. reflexivity.
  - discriminate E.
Defined.

Lemma trust_anchor_roundtrip_witness :
  exists wire, trust_anchor_ids (fun s => s) (lit "11129.9.1:0") = Ok wire /\ read_anchors (length wire) wire = Some [[11129; 9; 1]; [0]].
Proof.
  apply (trust_anchor_roundtrip (fun s => s) [[11129; 9; 1]; [0]]).
  - discriminate.
  - unfold id_ok, U64_MAX. repeat constructor; try discriminate; try lia; apply Z.leb_le; reflexivity.
Defined.

(** A BoringSSL that takes everything but a group list. *)
Definition example_boring : Boring := {|
  takes_cipher_list _ := true; tls13_standard_name _ := None; takes_tls13_ciphers _ := true;
  takes_curves_list l := bool_decide (l = CHROME_GROUPS); has_group _ := false; takes_groups_list _ := true;
  key_share_alone _ _ := false; takes_key_shares _ _ := true; sigalg_name _ := None; takes_verify_prefs _ := true;
  takes_cert_compression added id := bool_decide (id ∉ added); takes_trust_anchors _ := true; takes_application_settings _ := true |}.

Lemma check_tls_options_names_option_witness :
  let f := mkFingerprint None None CHROME_GROUPS None true false None (Some (lit "zlib:zlib")) None None None false true true true true in
  exists flag reason, In flag [lit "--tls-groups"; lit "--tls-cert-compression"]
    /\ Error.Tls (lit "--tls-cert-compression: zlib:zlib names zlib more than once") = Error.Tls (flag ++ lit ": " ++ reason).
Proof.
  intros f. apply (@check_tls_options_names_option example_boring (fun s => s) f). vm_compute. reflexivity.
Defined.

End Tls.
