(* ===== verification/Netstack.v ===== *)
(** * The uplink of the user-space network stack ([aether/src/netstack.rs])

    What carries the app's data to the network: the admission of a flow
    ([FlowCredit]), the data a flow cannot take yet ([Backlog]), the pass that
    hands it on ([ingest], [drain_backlog], [drain_app_data]), the part of
    [service_tcp] that feeds a socket and watches it drain, the reaping of dead
    flows ([reap_wedged]) and the queue of the device ([StackDevice], [flush_tx]).
    The sockets are the smoltcp crate's: what a socket answers is an argument.
    An [Instant] is a number of nanoseconds. *)

From stdpp Require Import gmap.
From S2P Require Import Prelude Str Ip.
Local Open Scope Z_scope.

Module Netstack.

Definition secs (n : Z) : Z := n * 1000000000.

Definition MAX_BACKLOG_BYTES : Z := 512 * 1024.
Definition TCP_WEDGE_TIMEOUT : Z := secs 30.
Definition TCP_DRAIN_STALL_TIMEOUT : Z := secs 8.
Definition TCP_DRAIN_STALL_WARN : Z := secs 3.
Definition MIN_FLOW_QUEUE_BYTES : Z := 48 * 1024.
Definition CREDIT_WAIT_MAX : Z := secs 20.
Definition STALL_FLAP_WINDOW : Z := secs 60.
Definition STALL_FLAP_LIMIT : Z := 2.
Definition MAX_TX_RETAINED : Z := 256.
Definition MAX_DEVICE_TX : Z := 64.
Definition MAX_DEVICE_TX_HARD : Z := MAX_TX_RETAINED.

Definition max_tcp_pending (tcp_buf : Z) : Z := Z.max (Z.min (tcp_buf * 2) USIZE_MAX) (64 * 1024).

(** ** Admission *)

Record FlowCredit := mkCredit { sent : Z; acked : Z; cap : Z; closed : bool }.

Definition FlowCredit_new : FlowCredit := mkCredit 0 0 MIN_FLOW_QUEUE_BYTES false.
Definition outstanding (c : FlowCredit) : Z := saturating_sub (sent c) (acked c).
Definition budget (c : FlowCredit) : Z := cap c.
Definition publish (c : FlowCredit) (acked_ cap_ : Z) : FlowCredit :=
  mkCredit (sent c) (if acked c <? acked_ then acked_ else acked c) (Z.max cap_ MIN_FLOW_QUEUE_BYTES) (closed c).
Definition close (c : FlowCredit) : FlowCredit := mkCredit (sent c) (acked c) (cap c) true.

(** One look of [reserve] at the credit: whether it stops waiting. *)
Definition reserve_stops (len deadline : Z) (c : FlowCredit) (now : Z) : bool :=
  closed c
  || (outstanding c =? 0) || (Z.min (outstanding c + len) U64_MAX <=? budget c)
  || (deadline <=? now).

(** [reserve] over what it finds each time it looks: the credit and the time. *)
Fixpoint reserve (len deadline : Z) (looks : list (FlowCredit * Z)) : option FlowCredit :=
  match looks with
  | [] => None
  | (c, now) :: looks =>
      if reserve_stops len deadline c now
      then Some (mkCredit (wrap_u64 (sent c + len)) (acked c) (cap c) (closed c))
      else reserve len deadline looks
  end.

(** ** Flows *)

Inductive DataIn :=
| Tcp (id : Z) (data : bytes)
| TcpClose (id : Z)
| Udp (id : Z) (dst : SocketAddr) (data : bytes)
| UdpClose (id : Z).

Definition data_in_id (d : DataIn) : Z :=
  match d with Tcp id _ | TcpClose id | Udp id _ _ | UdpClose id => id end.
Definition data_in_bytes (d : DataIn) : Z :=
  match d with Tcp _ data => blen data | Udp _ _ data => blen data | _ => 0 end.

(** The fields of [TcpState] the uplink uses, and whether its socket was aborted. *)
Record TcpState := mkTcp {
  pending : bytes;
  half_closed : bool;
  carrier : bool;
  last_progress : Z;
  send_queue_high : Z;
  accepted_total : Z;
  acked_high : Z;
  last_drain : Z;
  drain_warned : bool;
  stall_mark : Z;
  stall_count : Z;
  credit : FlowCredit;
  sock_aborted : bool;
}.

Definition set_pending (st : TcpState) (p : bytes) : TcpState :=
  mkTcp p (half_closed st) (carrier st) (last_progress st) (send_queue_high st) (accepted_total st) (acked_high st)
    (last_drain st) (drain_warned st) (stall_mark st) (stall_count st) (credit st) (sock_aborted st).
Definition set_half_closed (st : TcpState) : TcpState :=
  mkTcp (pending st) true (carrier st) (last_progress st) (send_queue_high st) (accepted_total st) (acked_high st)
    (last_drain st) (drain_warned st) (stall_mark st) (stall_count st) (credit st) (sock_aborted st).

(** The flows, the UDP sockets that are open and what was handed to them. *)
Record NetStack := mkStack {
  tcp_conns : gmap Z TcpState;
  udp_conns : gset Z;
  udp_sent : list (Z * SocketAddr * bytes);
}.
Definition set_tcp (s : NetStack) (m : gmap Z TcpState) : NetStack := mkStack m (udp_conns s) (udp_sent s).

Section stack.
Variable tcp_buf : Z.
Notation max := (max_tcp_pending tcp_buf).

(** The rest of the item when the flow could not take all of it. *)
Definition try_handle_data (s : NetStack) (d : DataIn) : NetStack * option DataIn :=
  match d with
  | Tcp id data =>
      match tcp_conns s !! id with
      | Some st =>
          if max <=? blen (pending st) then (s, Some (Tcp id data))
          else
            let space := max - blen (pending st) in
            if blen data <=? space then (set_tcp s (<[id := set_pending st (pending st ++ data)]> (tcp_conns s)), None)
            else (set_tcp s (<[id := set_pending st (pending st ++ sub data 0 space)]> (tcp_conns s)),
                  Some (Tcp id (sub data space (blen data))))
      | None => (s, None)
      end
  | TcpClose id =>
      match tcp_conns s !! id with
      | Some st => (set_tcp s (<[id := set_half_closed st]> (tcp_conns s)), None)
      | None => (s, None)
      end
  | Udp id dst data =>
      if bool_decide (id ∈ udp_conns s)
      then (mkStack (tcp_conns s) (udp_conns s) (udp_sent s ++ [(id, dst, data)]), None)
      else (s, None)
  | UdpClose id => (mkStack (tcp_conns s) (udp_conns s ∖ {[id]}) (udp_sent s), None)
  end.

(** ** The backlog *)

Record Backlog := mkBacklog { queue : list DataIn; blocked : gset Z; bytes_ : Z }.
Definition Backlog_default : Backlog := mkBacklog [] ∅ 0.

Definition is_empty (b : Backlog) : bool := bool_decide (queue b = []).
Definition holds (b : Backlog) (id : Z) : bool := bool_decide (id ∈ blocked b).
Definition push (b : Backlog) (d : DataIn) : Backlog :=
  mkBacklog (queue b ++ [d]) ({[data_in_id d]} ∪ blocked b) (saturating_add (bytes_ b) (data_in_bytes d)).
Definition sum_bytes (ds : list DataIn) : Z := foldr (fun d n => data_in_bytes d + n) 0 ds.
Definition purge (b : Backlog) (id : Z) : Backlog :=
  let queue := List.filter (fun d => negb (data_in_id d =? id)) (queue b) in
  mkBacklog queue (blocked b ∖ {[id]}) (sum_bytes queue).

Definition ingest (s : NetStack) (b : Backlog) (d : DataIn) : NetStack * Backlog :=
  if holds b (data_in_id d) then (s, push b d)
  else match try_handle_data s d with
       | (s, Some back) => (s, push b back)
       | (s, None) => (s, b)
       end.

(** The loop of [drain_backlog] over the items of the queue. *)
Fixpoint drain_queue (s : NetStack) (q kept : list DataIn) (blocked : gset Z) (n : Z) : NetStack * Backlog :=
  match q with
  | [] => (s, mkBacklog kept blocked n)
  | d :: q =>
      let id := data_in_id d in
      if bool_decide (id ∈ blocked) then drain_queue s q (kept ++ [d]) blocked (saturating_add n (data_in_bytes d))
      else match try_handle_data s d with
           | (s, Some back) => drain_queue s q (kept ++ [back]) ({[id]} ∪ blocked) (saturating_add n (data_in_bytes back))
           | (s, None) => drain_queue s q kept blocked n
           end
  end.

Definition drain_backlog (s : NetStack) (b : Backlog) : NetStack * Backlog :=
  if is_empty b then (s, b) else drain_queue s (queue b) [] ∅ 0.

(** [drain_app_data] over the items waiting in the channel; returned: the stack,
    the backlog, the items left in the channel, and how many were moved. *)
Fixpoint drain_app_data (s : NetStack) (b : Backlog) (rx : list DataIn) (budget : nat) : NetStack * Backlog * list DataIn * Z :=
  match budget with
  | O => (s, b, rx, 0)
  | S budget =>
      if negb (bytes_ b <? MAX_BACKLOG_BYTES) then (s, b, rx, 0)
      else match rx with
           | [] => (s, b, [], 0)
           | d :: rx =>
               let '(s, b) := ingest s b d in
               let '(s, b, rx, moved) := drain_app_data s b rx budget in
               (s, b, rx, moved + 1)
           end
  end.

End stack.

(** ** What [service_tcp] does for the uplink of an established flow *)

(** Feeding the socket: [can_send] and [send_slice] are what the socket answers.
    Returned: the flow, and the bytes the socket took. *)
Definition service_send (now : Z) (can_send : bool) (send_slice : bytes -> option Z) (st : TcpState)
  : res unit (TcpState * bytes) :=
  if bool_decide (pending st = []) then
    Ok (mkTcp (pending st) (half_closed st) (carrier st) now (send_queue_high st) (accepted_total st) (acked_high st)
          (last_drain st) (drain_warned st) (stall_mark st) (stall_count st) (credit st) (sock_aborted st), [])
  else if can_send then
    let sent := default 0 (send_slice (pending st)) in
    if 0 <? sent then
      taken ← slice (pending st) 0 sent;
      rest ← slice (pending st) sent (blen (pending st));
      Ok (mkTcp rest (half_closed st) (carrier st) now (send_queue_high st) (Z.min (accepted_total st + sent) U64_MAX)
            (acked_high st) (last_drain st) (drain_warned st) (stall_mark st) (stall_count st) (credit st) (sock_aborted st),
          taken)
    else Ok (st, [])
  else Ok (st, []).

(** Watching it drain: [queued] is the socket's [send_queue()] and [budget] the
    budget computed from the measured rate (floating point).  Returned: the flow,
    and whether it stalls so often that it is to be reset. *)
Definition service_liveness (now queued budget : Z) (st : TcpState) : TcpState * bool :=
  let acked := saturating_sub (accepted_total st) queued in
  let done (acked_high last_drain : Z) (drain_warned : bool) (stall_mark stall_count : Z) :=
    mkTcp (pending st) (half_closed st) (carrier st) (last_progress st) queued (accepted_total st) acked_high last_drain
      drain_warned stall_mark stall_count (publish (credit st) acked budget) (sock_aborted st) in
  if (queued =? 0) || (acked_high st <? acked) then
    (done acked now false (stall_mark st) (stall_count st), false)
  else if negb (drain_warned st) && (TCP_DRAIN_STALL_WARN <=? now - last_drain st) then
    let count := if STALL_FLAP_WINDOW <=? now - stall_mark st then 0 else stall_count st in
    let count := Z.min (count + 1) U32_MAX in
    (done (acked_high st) (last_drain st) true now count, (STALL_FLAP_LIMIT <=? count) && negb (carrier st))
  else (done (acked_high st) (last_drain st) (drain_warned st) (stall_mark st) (stall_count st), false).

(** ** Reaping *)

(** Clearing a dead flow and aborting its socket. *)
Definition reset_flow (st : TcpState) : TcpState :=
  mkTcp [] (half_closed st) (carrier st) (last_progress st) (send_queue_high st) (accepted_total st) (acked_high st)
    (last_drain st) (drain_warned st) (stall_mark st) (stall_count st) (close (credit st)) true.

Definition stalled (now : Z) (st : TcpState) : bool :=
  negb (carrier st) && (0 <? send_queue_high st) && (TCP_DRAIN_STALL_TIMEOUT <=? now - last_drain st).
Definition wedged (now : Z) (o : option TcpState) : bool :=
  match o with
  | Some st => negb (carrier st) && (TCP_WEDGE_TIMEOUT <=? now - last_progress st)
  | None => true
  end.

(** The loop over the flows to reset. *)
Fixpoint reset_all (s : NetStack) (b : Backlog) (ids : list Z) : NetStack * Backlog :=
  match ids with
  | [] => (s, b)
  | id :: ids =>
      let s := match tcp_conns s !! id with
               | Some st => set_tcp s (<[id := reset_flow st]> (tcp_conns s))
               | None => s
               end in
      reset_all s (purge b id) ids
  end.

Definition stalled_ids (now : Z) (s : NetStack) : list Z :=
  map fst (List.filter (fun p => stalled now p.2) (map_to_list (tcp_conns s))).
Definition wedged_ids (now : Z) (s : NetStack) (b : Backlog) : list Z :=
  List.filter (fun id => wedged now (tcp_conns s !! id)) (elements (blocked b)).

Definition reap_wedged (now : Z) (s : NetStack) (b : Backlog) : NetStack * Backlog :=
  let '(s, b) := reset_all s b (stalled_ids now s) in
  if bool_decide (blocked b = ∅) then (s, b)
  else reset_all s b (wedged_ids now s b).

(** ** The device *)

Record StackDevice := mkDevice {
  rx : list bytes;
  tx : list bytes;
  mtu : Z;
  tx_stalls : Z;
  tx_shed : Z;
  tx_peak : Z;
}.
Definition StackDevice_new (mtu : Z) : StackDevice := mkDevice [] [] mtu 0 0 0.

(** The packet a receive token carries. *)
Definition receive (d : StackDevice) : option (bytes * StackDevice) :=
  match rx d with
  | [] => None
  | pkt :: rx => Some (pkt, mkDevice rx (tx d) (mtu d) (tx_stalls d) (tx_shed d) (tx_peak d))
  end.

(** Whether a transmit token is given. *)
Definition transmit (d : StackDevice) : bool * StackDevice :=
  if MAX_DEVICE_TX <=? blen (tx d)
  then (false, mkDevice (rx d) (tx d) (mtu d) (saturating_add (tx_stalls d) 1) (tx_shed d) (tx_peak d))
  else (true, d).

(** Using a transmit token. *)
Definition consume (d : StackDevice) (pkt : bytes) : StackDevice :=
  mkDevice (rx d) (tx d ++ [pkt]) (mtu d) (tx_stalls d) (tx_shed d) (tx_peak d).

(** The channel to the tunnel: room for so many packets, or closed. *)
Inductive Channel := Room (n : nat) | Closed.

(** The loop of [flush_tx]: what was sent, then what the loop leaves in the queue
    and whether it was full. *)
Fixpoint flush_loop (tx : list bytes) (ch : Channel) (sent : list bytes) : list bytes * list bytes * bool :=
  match tx with
  | [] => (sent, [], false)
  | pkt :: tx =>
      match ch with
      | Room (S n) => flush_loop tx (Room n) (sent ++ [pkt])
      | Room O => (sent, pkt :: tx, true)
      | Closed => (sent, tx, false)
      end
  end.

(** Returned: the device, the packets sent, the number dropped, and whether packets
    are held back. *)
Definition flush_tx (d : StackDevice) (ch : Channel) : StackDevice * list bytes * Z * bool :=
  let peak := if tx_peak d <? blen (tx d) then blen (tx d) else tx_peak d in
  let '(out, held, full) := flush_loop (tx d) ch [] in
  if full && (MAX_DEVICE_TX_HARD <? blen held) then
    let excess := blen held - MAX_DEVICE_TX_HARD in
    (mkDevice (rx d) (sub held excess (blen held)) (mtu d) (tx_stalls d) (saturating_add (tx_shed d) excess) peak,
     out, excess, true)
  else (mkDevice (rx d) held (mtu d) (tx_stalls d) (tx_shed d) peak, out, 0, full).

(** [drain_inbound]: packets of the tunnel moved to the device, within a budget. *)
Definition drain_inbound (d : StackDevice) (inbound : list bytes) (budget : nat) : StackDevice * list bytes * Z :=
  (mkDevice (rx d ++ firstn budget inbound) (tx d) (mtu d) (tx_stalls d) (tx_shed d) (tx_peak d),
   skipn budget inbound, blen (firstn budget inbound)).

Definition alloc_port (p : Z) : Z * Z := (p, if 65000 <=? p then 49152 else p + 1).

(** ** The order of a flow *)

(** What the items of a flow carry, one element at a time. *)
Inductive Elem := EByte (b : Z) | EFin | EDgram (dst : SocketAddr) (data : bytes) | EUdpClose.
Definition elems (d : DataIn) : list Elem :=
  match d with
  | Tcp _ data => EByte <$> data
  | TcpClose _ => [EFin]
  | Udp _ dst data => [EDgram dst data]
  | UdpClose _ => [EUdpClose]
  end.
Definition flow_elems (id : Z) (ds : list DataIn) : list Elem :=
  concat (elems <$> List.filter (fun d => data_in_id d =? id) ds).
Definition ebytes (es : list Elem) : bytes := omap (fun e => match e with EByte b => Some b | _ => None end) es.
Definition has_fin (es : list Elem) : bool := existsb (fun e => match e with EFin => true | _ => false end) es.

Definition ids (q : list DataIn) : gset Z := list_to_set (data_in_id <$> q).

(** The flows that are blocked are those that have something in the queue. *)
Definition binv (b : Backlog) : Prop := blocked b = ids (queue b).

Lemma flow_elems_app id ds ds' : flow_elems id (ds ++ ds') = flow_elems id ds ++ flow_elems id ds'.
Proof. unfold flow_elems. by rewrite List.filter_app, fmap_app, concat_app. Qed.

Lemma flow_elems_one id d : flow_elems id [d] = if data_in_id d =? id then elems d else [].
Proof. unfold flow_elems. cbn. destruct (_ =? _); cbn; [by rewrite app_nil_r|done]. Qed.

Lemma flow_elems_cons id d ds : flow_elems id (d :: ds) = flow_elems id [d] ++ flow_elems id ds.
Proof. apply (flow_elems_app id [d] ds). Qed.

Lemma flow_elems_free id q : id ∉ ids q -> flow_elems id q = [].
Proof.
  induction q as [|d q IH]; intros Hn; [done|]. unfold ids in Hn. cbn in Hn.
  rewrite flow_elems_cons, flow_elems_one, IH by set_solver. rewrite (proj2 (Z.eqb_neq _ _)) by set_solver. done.
Qed.

Lemma ids_snoc q d : ids (q ++ [d]) = {[data_in_id d]} ∪ ids q.
Proof. unfold ids. rewrite fmap_app, list_to_set_app_L. cbn. set_solver. Qed.

Lemma ebytes_app h h' : ebytes (h ++ h') = ebytes h ++ ebytes h'.
Proof. unfold ebytes. apply omap_app. Qed.
Lemma ebytes_bytes data : ebytes (EByte <$> data) = data.
Proof. induction data as [|b data IH]; [done|]. unfold ebytes in *. cbn. by rewrite IH. Qed.
Lemma has_fin_app h h' : has_fin (h ++ h') = has_fin h || has_fin h'.
Proof. apply existsb_app. Qed.
Lemma has_fin_bytes data : has_fin (EByte <$> data) = false.
Proof. by induction data. Qed.

(** The flow once the elements [h] were handed to it. *)
Definition applied (st st' : TcpState) (h : list Elem) : Prop :=
  pending st' = pending st ++ ebytes h /\ half_closed st' = half_closed st || has_fin h.

Lemma applied_nil st : applied st st [].
Proof. split; cbn; by rewrite ?app_nil_r, ?orb_false_r. Qed.
Lemma applied_trans st st1 st2 h h' : applied st st1 h -> applied st1 st2 h' -> applied st st2 (h ++ h').
Proof.
  intros [Hp Hf] [Hp' Hf']. split.
  - by rewrite Hp', Hp, ebytes_app, app_assoc.
  - by rewrite Hf', Hf, has_fin_app, orb_assoc.
Qed.

Definition back_elems (back : option DataIn) : list Elem := match back with Some d => elems d | None => [] end.

Section order.
Variable tcp_buf : Z.
Notation max := (max_tcp_pending tcp_buf).

(** An item is handed to its flow from its first element on; what is left comes back. *)
Lemma try_handle_elems s d s' back :
  try_handle_data tcp_buf s d = (s', back) ->
  (forall d', back = Some d' -> data_in_id d' = data_in_id d) /\
  (forall id, id <> data_in_id d -> tcp_conns s' !! id = tcp_conns s !! id) /\
  (forall st, tcp_conns s !! data_in_id d = Some st ->
    exists h st', tcp_conns s' !! data_in_id d = Some st' /\ applied st st' h /\ h ++ back_elems back = elems d).
Proof.
  destruct d as [id data|id|id dst data|id]; cbn [try_handle_data data_in_id].
  - destruct (tcp_conns s !! id) as [st|] eqn:Hst; [|intros [= <- <-]; by rewrite ?Hst].
    destruct (max <=? blen (pending st)) eqn:Hfull; [|destruct (blen data <=? max - blen (pending st)) eqn:Hfit].
    + intros [= <- <-]. split; [by intros ? [= <-]|]. split; [done|]. intros ? [= <-]. exists [], st. rewrite ?Hst.
      by split; [|split; [apply applied_nil|]].
    + intros [= <- <-]. split; [done|]. split; [intros i Hi; cbn; by rewrite lookup_insert_ne by done|].
      rewrite ?Hst. intros ? [= <-]. exists (EByte <$> data), (set_pending st (pending st ++ data)).
      cbn. rewrite lookup_insert_eq, app_nil_r. split; [done|]. split; [|done].
      split; cbn; [by rewrite ebytes_bytes|by rewrite has_fin_bytes, orb_false_r].
    + zbool. intros [= <- <-]. split; [by intros ? [= <-]|]. split; [intros i Hi; cbn; by rewrite lookup_insert_ne by done|].
      rewrite ?Hst. intros ? [= <-].
      exists (EByte <$> sub data 0 (max - blen (pending st))), (set_pending st (pending st ++ sub data 0 (max - blen (pending st)))).
      cbn. rewrite lookup_insert_eq. split; [done|].
      split; [split; cbn; [by rewrite ebytes_bytes|by rewrite has_fin_bytes, orb_false_r]|].
      rewrite <- fmap_app. f_equal. pose proof (sub_split data 0 (max - blen (pending st)) ltac:(lia) ltac:(lia) ltac:(lia)) as Hs.
      by rewrite (sub_empty data 0 0) in Hs by lia.
  - destruct (tcp_conns s !! id) as [st|] eqn:Hst; intros [= <- <-]; (split; [done|]); [|by rewrite ?Hst].
    split; [intros i Hi; cbn; by rewrite lookup_insert_ne by done|]. rewrite ?Hst. intros ? [= <-].
    exists [EFin], (set_half_closed st). cbn. rewrite lookup_insert_eq. split; [done|]. split; [|done].
    split; cbn; [by rewrite app_nil_r|by rewrite orb_true_r].
  - destruct (bool_decide _); intros [= <- <-]; (split; [done|]; split; [done|]); intros st Hst;
      exists [EDgram dst data], st; by split; [|split; [split; cbn; by rewrite ?app_nil_r, ?orb_false_r|]].
  - intros [= <- <-]. split; [done|]. split; [done|]. intros st Hst.
    exists [EUdpClose], st. by split; [|split; [split; cbn; by rewrite ?app_nil_r, ?orb_false_r|]].
Qed.

Lemma drain_queue_order q : forall s kept bl n s' b',
  drain_queue tcp_buf s q kept bl n = (s', b') -> bl = ids kept ->
  binv b' /\
  forall id st, tcp_conns s !! id = Some st ->
  exists h st', tcp_conns s' !! id = Some st' /\ applied st st' h /\ (id ∈ bl -> h = []) /\
    h ++ flow_elems id (queue b') = flow_elems id kept ++ flow_elems id q.
Proof.
  induction q as [|d q IH]; intros s kept bl n s' b' Hd Hbl; cbn [drain_queue] in Hd.
  - injection Hd as <- <-. split; [done|]. intros id st Hst. exists [], st. rewrite app_nil_r.
    by split; [|split; [apply applied_nil|]].
  - destruct (bool_decide (data_in_id d ∈ bl)) eqn:Hin.
    + apply bool_decide_eq_true in Hin. apply IH in Hd as [Hb' Hd]; [|rewrite ids_snoc; set_solver]. split; [done|].
      intros id st Hst. destruct (Hd id st Hst) as (h & st' & H1 & H2 & H3 & H4). exists h, st'.
      split; [done|]. split; [done|]. split; [done|]. by rewrite H4, flow_elems_app, (flow_elems_cons id d q), app_assoc.
    + apply bool_decide_eq_false in Hin. destruct (try_handle_data tcp_buf s d) as [s1 back] eqn:Ht.
      apply try_handle_elems in Ht as (Hid & Hother & Hown).
      assert (binv b' /\ forall id st, tcp_conns s1 !! id = Some st ->
        exists h st', tcp_conns s' !! id = Some st' /\ applied st st' h /\
          (id ∈ bl \/ (id = data_in_id d /\ back <> None) -> h = []) /\
          h ++ flow_elems id (queue b') = flow_elems id kept ++ (if data_in_id d =? id then back_elems back else []) ++ flow_elems id q)
        as [Hb' Hrest].
      { destruct back as [d'|].
        - apply IH in Hd as [Hb' Hd]; [|rewrite ids_snoc, (Hid d' eq_refl); set_solver]. split; [done|]. intros id st Hst.
          destruct (Hd id st Hst) as (h & st' & H1 & H2 & H3 & H4). exists h, st'. split; [done|]. split; [done|].
          split; [intros Hor; apply H3; set_solver|]. by rewrite H4, flow_elems_app, flow_elems_one, (Hid d' eq_refl), app_assoc.
        - apply IH in Hd as [Hb' Hd]; [|done]. split; [done|]. intros id st Hst.
          destruct (Hd id st Hst) as (h & st' & H1 & H2 & H3 & H4). exists h, st'. split; [done|]. split; [done|].
          split; [intros [?|[? []]]; auto|]. rewrite H4. by destruct (_ =? id). }
      split; [done|]. intros id st Hst. rewrite (flow_elems_cons id d q), (flow_elems_one id d).
      destruct (Z.eq_dec (data_in_id d) id) as [<-|Hne].
      * destruct (Hown st Hst) as (h0 & st1 & Hs1 & Ha & He). destruct (Hrest _ st1 Hs1) as (h & st' & H1 & H2 & H3 & H4).
        exists (h0 ++ h), st'. split; [done|]. split; [by eapply applied_trans|]. split; [done|].
        rewrite Z.eqb_refl in *. rewrite (flow_elems_free (data_in_id d) kept) in * by by rewrite <- Hbl. cbn [app] in *.
        by rewrite <- app_assoc, H4, <- He, <- app_assoc.
      * rewrite <- (Hother id) in Hst by done. destruct (Hrest id st Hst) as (h & st' & H1 & H2 & H3 & H4).
        exists h, st'. split; [done|]. split; [done|]. split; [auto|]. rewrite H4. by rewrite (proj2 (Z.eqb_neq _ _) Hne).
Qed.

Lemma drain_backlog_order s b s' b' :
  drain_backlog tcp_buf s b = (s', b') -> binv b ->
  binv b' /\
  forall id st, tcp_conns s !! id = Some st ->
  exists h st', tcp_conns s' !! id = Some st' /\ applied st st' h /\ h ++ flow_elems id (queue b') = flow_elems id (queue b).
Proof.
  unfold drain_backlog, is_empty. destruct (bool_decide _).
  - intros [= <- <-] Hb. split; [done|]. intros id st Hst. exists [], st. by split; [|split; [apply applied_nil|]].
  - intros Hd%drain_queue_order _; [|done]. destruct Hd as [Hb Hd]. split; [done|]. intros id st Hst.
    destruct (Hd id st Hst) as (h & st' & H1 & H2 & _ & H4). by exists h, st'.
Qed.

Lemma ingest_order s b d s' b' :
  ingest tcp_buf s b d = (s', b') -> binv b ->
  binv b' /\
  forall id st, tcp_conns s !! id = Some st ->
  exists h st', tcp_conns s' !! id = Some st' /\ applied st st' h /\
    h ++ flow_elems id (queue b') = flow_elems id (queue b) ++ flow_elems id [d].
Proof.
  unfold ingest, holds. intros Hi Hb. destruct (bool_decide _) eqn:Hin.
  - injection Hi as <- <-. split; [unfold binv, push; cbn [blocked queue]; by rewrite Hb, ids_snoc|]. intros id st Hst. exists [], st.
    split; [done|]. split; [apply applied_nil|]. unfold push. cbn [queue app]. by rewrite flow_elems_app.
  - apply bool_decide_eq_false in Hin. destruct (try_handle_data tcp_buf s d) as [s1 back] eqn:Ht.
    apply try_handle_elems in Ht as (Hid & Hother & Hown).
    assert (s' = s1 /\ binv b' /\ forall id, flow_elems id (queue b')
      = flow_elems id (queue b) ++ (if data_in_id d =? id then back_elems back else [])) as (-> & Hb' & Hq).
    { destruct back as [d'|]; injection Hi as <- <-.
      - split; [done|]. split; [unfold binv, push; cbn [blocked queue]; by rewrite Hb, ids_snoc|]. intros id. unfold push. cbn [queue].
        by rewrite flow_elems_app, flow_elems_one, (Hid d' eq_refl).
      - split; [done|]. split; [done|]. intros id. by destruct (_ =? id); rewrite app_nil_r. }
    split; [done|]. intros id st Hst. rewrite Hq, flow_elems_one. destruct (Z.eq_dec (data_in_id d) id) as [<-|Hne].
    + rewrite Z.eqb_refl. destruct (Hown st Hst) as (h & st' & H1 & H2 & H3). exists h, st'. split; [done|]. split; [done|].
      rewrite flow_elems_free by (by rewrite <- Hb). done.
    + exists [], st. rewrite (Hother id) by done. rewrite (proj2 (Z.eqb_neq _ _) Hne). by split; [|split; [apply applied_nil|]].
Qed.

(** What happens on the uplink: an item comes from the app, the backlog is drained,
    or a socket is fed. *)
Inductive Op :=
| OpIngest (d : DataIn)
| OpDrain
| OpSend (id now : Z) (can_send : bool) (send_slice : bytes -> option Z).

(** The stack, the backlog, and what each socket took. *)
Definition uplink_step (x : NetStack * Backlog * list (Z * bytes)) (op : Op) : res unit (NetStack * Backlog * list (Z * bytes)) :=
  let '(s, b, out) := x in
  match op with
  | OpIngest d => Ok (ingest tcp_buf s b d, out)
  | OpDrain => Ok (drain_backlog tcp_buf s b, out)
  | OpSend id now can_send send_slice =>
      match tcp_conns s !! id with
      | Some st =>
          '(st, taken) ← service_send now can_send send_slice st;
          Ok (set_tcp s (<[id := st]> (tcp_conns s)), b, out ++ [(id, taken)])
      | None => Ok (s, b, out)
      end
  end.

Fixpoint uplink_run (x : NetStack * Backlog * list (Z * bytes)) (ops : list Op) : res unit (NetStack * Backlog * list (Z * bytes)) :=
  match ops with
  | [] => Ok x
  | op :: ops => x ← uplink_step x op; uplink_run x ops
  end.

(** A socket takes no more than it is given. *)
Definition op_ok (op : Op) : Prop :=
  match op with OpSend _ _ _ send_slice => forall b n, send_slice b = Some n -> 0 <= n <= blen b | _ => True end.

Definition ingested (ops : list Op) : list DataIn := omap (fun op => match op with OpIngest d => Some d | _ => None end) ops.
Definition taken_by (id : Z) (out : list (Z * bytes)) : bytes := concat (snd <$> List.filter (fun p => p.1 =? id) out).

Lemma taken_by_snoc id out i t : taken_by id (out ++ [(i, t)]) = taken_by id out ++ (if i =? id then t else []).
Proof.
  unfold taken_by. rewrite List.filter_app, fmap_app, concat_app. cbn. destruct (i =? id); cbn; by rewrite ?app_nil_r.
Qed.

Lemma service_send_ok now can_send send_slice st :
  (forall b n, send_slice b = Some n -> 0 <= n <= blen b) ->
  exists st' taken, service_send now can_send send_slice st = Ok (st', taken) /\
    taken ++ pending st' = pending st /\ half_closed st' = half_closed st.
Proof.
  intros Hs. unfold service_send. destruct (bool_decide _); [by eexists _, _|]. destruct can_send; [|by eexists _, _].
  destruct (send_slice (pending st)) as [n|] eqn:Hn; cbn [default from_option id]; [|by eexists _, _].
  apply Hs in Hn. unfold id. zcase; [|by eexists _, _]. rewrite !slice_ok by lia. rsimp. eexists _, _. split; [done|]. cbn.
  pose proof (sub_split (pending st) 0 n ltac:(lia) ltac:(lia) ltac:(lia)) as Hp. by rewrite (sub_empty _ 0 0) in Hp by lia.
Qed.

(** The state of flow [id]: what was handed to it, what the socket took of it. *)
Definition flow_inv (id : Z) (st0 : TcpState) (ing : list DataIn) (x : NetStack * Backlog * list (Z * bytes)) : Prop :=
  let '(s, b, out) := x in
  binv b /\ exists log st, tcp_conns s !! id = Some st /\
    log ++ flow_elems id (queue b) = flow_elems id ing /\
    taken_by id out ++ pending st = pending st0 ++ ebytes log /\
    half_closed st = half_closed st0 || has_fin log.

(** A pass that hands on the elements [h] keeps the invariant. *)
Lemma flow_inv_apply id st0 ing ing' s b out s' b' :
  flow_inv id st0 ing (s, b, out) -> binv b' ->
  (forall st, tcp_conns s !! id = Some st -> exists h st', tcp_conns s' !! id = Some st' /\ applied st st' h /\
    h ++ flow_elems id (queue b') = flow_elems id (queue b) ++ ing') ->
  binv b' /\ exists log st, tcp_conns s' !! id = Some st /\
    log ++ flow_elems id (queue b') = flow_elems id ing ++ ing' /\
    taken_by id out ++ pending st = pending st0 ++ ebytes log /\
    half_closed st = half_closed st0 || has_fin log.
Proof.
  intros (_ & log & st & Hst & Hlog & Htk & Hfin) Hb' Hap. split; [done|].
  destruct (Hap st Hst) as (h & st' & Hst' & [Hp Hf] & He). exists (log ++ h), st'. split; [done|].
  split; [by rewrite <- app_assoc, He, app_assoc, Hlog|].
  split; [by rewrite Hp, app_assoc, Htk, ebytes_app, app_assoc|]. by rewrite Hf, Hfin, has_fin_app, orb_assoc.
Qed.

Lemma uplink_step_inv id st0 ing x op :
  op_ok op -> flow_inv id st0 ing x ->
  exists x', uplink_step x op = Ok x' /\ flow_inv id st0 (ing ++ ingested [op]) x'.
Proof.
  destruct x as [[s b] out]. intros Hok Hi. destruct op as [d| |i now can_send send_slice]; cbn [uplink_step].
  - destruct (ingest tcp_buf s b d) as [s' b'] eqn:Hin. eexists. split; [done|].
    apply ingest_order in Hin as [Hb' Ho]; [|by destruct Hi]. unfold flow_inv. rewrite flow_elems_app.
    apply (flow_inv_apply id st0 ing (flow_elems id [d]) s b); [done|done|]. intros st Hst. by apply Ho.
  - destruct (drain_backlog tcp_buf s b) as [s' b'] eqn:Hd. eexists. split; [done|].
    apply drain_backlog_order in Hd as [Hb' Ho]; [|by destruct Hi]. unfold flow_inv. rewrite flow_elems_app.
    apply (flow_inv_apply id st0 ing [] s b); [done|done|]. intros st Hst. rewrite app_nil_r. by apply Ho.
  - cbn [ingested omap list_omap]. rewrite app_nil_r. destruct (tcp_conns s !! i) as [sti|] eqn:Hsti; [|by eexists].
    destruct (service_send_ok now can_send send_slice sti Hok) as (st' & taken & -> & Ht & Hh). rsimp. eexists. split; [done|].
    destruct Hi as (Hb & log & st & Hst & Hlog & Htk & Hfin). split; [done|]. rewrite taken_by_snoc.
    destruct (Z.eq_dec i id) as [->|Hne].
    + simplify_eq. exists log, st'. cbn. rewrite lookup_insert_eq, Z.eqb_refl. split; [done|]. split; [done|].
      split; [by rewrite <- app_assoc, Ht|congruence].
    + exists log, st. cbn. rewrite lookup_insert_ne, (proj2 (Z.eqb_neq _ _) Hne), app_nil_r by done. done.
Qed.

Lemma fin_in_prefix log q (data : bytes) rest :
  log ++ q = (EByte <$> data) ++ EFin :: rest -> has_fin log = true -> exists more, log = (EByte <$> data) ++ EFin :: more.
Proof.
  intros Heq Hf. revert log Heq Hf. induction data as [|b data IH]; intros log Heq Hf; (destruct log as [|e log]; [done|]); cbn in Heq; injection Heq as -> Heq.
  - by exists log.
  - destruct (IH log Heq Hf) as [more ->]. by exists more.
Qed.

(** C5.  No byte of a flow is lost, repeated or reordered on the uplink, and its
    end is not told before its bytes: whatever the order of items, of ends that are sent more
    than once and of bytes after them, of passes over the backlog and sockets fed, the items of
    the flow are those handed on, then those in the backlog, in order; what its socket took, then
    what is pending, are the bytes of those handed on; and it is half closed exactly when it was
    or an end was handed on.  So a flow that was open and is half closed was handed every byte
    sent before its first end. *)
Theorem uplink_in_order id st0 s0 ops :
  tcp_conns s0 !! id = Some st0 -> Forall op_ok ops ->
  exists s b out st,
    uplink_run (s0, Backlog_default, []) ops = Ok (s, b, out) /\ tcp_conns s !! id = Some st /\
    taken_by id out ++ pending st ++ ebytes (flow_elems id (queue b))
      = pending st0 ++ ebytes (flow_elems id (ingested ops)) /\
    (exists handed, flow_elems id (ingested ops) = handed ++ flow_elems id (queue b) /\
      taken_by id out ++ pending st = pending st0 ++ ebytes handed /\
      half_closed st = half_closed st0 || has_fin handed) /\
    (half_closed st0 = false -> half_closed st = true ->
      forall data rest, flow_elems id (ingested ops) = (EByte <$> data) ++ EFin :: rest ->
      exists more, taken_by id out ++ pending st = pending st0 ++ data ++ more).
Proof.
  intros Hst0 Hops.
  assert (forall ops x ing, Forall op_ok ops -> flow_inv id st0 ing x ->
    exists x', uplink_run x ops = Ok x' /\ flow_inv id st0 (ing ++ ingested ops) x') as Hrun.
  { clear. induction ops as [|op ops IH]; intros x ing Hops Hi; [exists x; by rewrite app_nil_r|].
    apply Forall_cons in Hops as [Hop Hops]. destruct (uplink_step_inv id st0 ing x op Hop Hi) as (x1 & Hs & Hi1).
    cbn [uplink_run]. rewrite Hs. rsimp. destruct (IH x1 _ Hops Hi1) as (x' & Hr & Hx). exists x'. split; [done|].
    rewrite <- app_assoc in Hx. by destruct op. }
  destruct (Hrun ops (s0, Backlog_default, []) [] Hops) as ([[s b] out] & Hr & Hb & log & st & Hst & Hlog & Htk & Hfin).
  { split; [done|]. exists [], st0. cbn. by rewrite app_nil_r, orb_false_r. }
  exists s, b, out, st. split; [done|]. split; [done|]. cbn [app] in Hlog. split.
  - by rewrite app_assoc, Htk, <- Hlog, ebytes_app, app_assoc.
  - split; [by exists log|]. intros Hf Hc data rest Hall. rewrite Hf, Hc in Hfin. cbn in Hfin. rewrite <- Hlog in Hall.
    destruct (fin_in_prefix _ _ _ _ Hall (eq_sym Hfin)) as [more ->]. exists (ebytes more).
    rewrite Htk, ebytes_app, ebytes_bytes. done.
Qed.

(** A flow that sends an item back is full, and stays so while others are served. *)
Definition full (s : NetStack) (id : Z) : Prop := exists st, tcp_conns s !! id = Some st /\ max <= blen (pending st).

Lemma try_handle_full s d s' back :
  try_handle_data tcp_buf s d = (s', back) ->
  (back <> None -> full s' (data_in_id d)) /\ (forall id, full s id -> full s' id).
Proof.
  intros Ht. split.
  - destruct d as [id data|id|id dst data|id]; cbn in Ht.
    + destruct (tcp_conns s !! id) as [st|] eqn:Hst; [|by simplify_eq].
      destruct (max <=? blen (pending st)) eqn:Hfull; [|destruct (blen data <=? max - blen (pending st)) eqn:Hfit]; simplify_eq; zbool; [|done|].
      * intros _. by exists st.
      * intros _. eexists. cbn. rewrite lookup_insert_eq. split; [done|]. cbn. rewrite blen_app, blen_sub by lia. lia.
    + by destruct (tcp_conns s !! id); simplify_eq.
    + by destruct (bool_decide _); simplify_eq.
    + by simplify_eq.
  - intros id (st & Hst & Hm). apply try_handle_elems in Ht as (_ & Hother & Hown).
    destruct (Z.eq_dec id (data_in_id d)) as [->|Hne].
    + destruct (Hown st Hst) as (h & st' & Hst' & [Hp _] & _). exists st'. split; [done|]. rewrite Hp, blen_app.
      pose proof (blen_nonneg (ebytes h)). lia.
    + exists st. by rewrite Hother.
Qed.

Lemma drain_queue_full q : forall s kept bl n s' b',
  drain_queue tcp_buf s q kept bl n = (s', b') -> (forall id, id ∈ bl -> full s id) -> (forall id, id ∈ blocked b' -> full s' id).
Proof.
  induction q as [|d q IH]; intros s kept bl n s' b' Hd Hf; cbn [drain_queue] in Hd; [by simplify_eq|].
  destruct (bool_decide _); [by eapply IH|]. destruct (try_handle_data tcp_buf s d) as [s1 back] eqn:Ht.
  apply try_handle_full in Ht as [Hback Hkeep]. destruct back as [d'|]; eapply IH; try done.
  - intros id [->%elem_of_singleton|Hin]%elem_of_union; [by apply Hback|by apply Hkeep, Hf].
  - intros id Hin. by apply Hkeep, Hf.
Qed.

(** A flow that cannot take its data holds back no other flow: after a pass
    over the backlog the items left are those of flows whose pending buffer is full,
    and the blocked flows are exactly the flows of these items. *)
Theorem drain_backlog_isolates s b s' b' :
  binv b -> drain_backlog tcp_buf s b = (s', b') ->
  binv b' /\ forall d, d ∈ queue b' -> full s' (data_in_id d).
Proof.
  intros Hb Hd. pose proof (drain_backlog_order _ _ _ _ Hd Hb) as [Hb' _]. split; [done|]. intros d Hin.
  assert (data_in_id d ∈ blocked b') as Hbl.
  { rewrite Hb'. unfold ids. apply elem_of_list_to_set, list_elem_of_fmap. eauto. }
  revert Hbl. unfold drain_backlog, is_empty in Hd. destruct (bool_decide _) eqn:He.
  - apply bool_decide_eq_true in He. simplify_eq. by rewrite He in Hin; apply elem_of_nil in Hin.
  - eapply drain_queue_full; [done|]. intros id Hid. by apply elem_of_empty in Hid.
Qed.

End order.

(** ** The device's queue *)

Lemma flush_loop_eq tx : forall n sent,
  flush_loop tx (Room n) sent = (sent ++ firstn n tx, skipn n tx, bool_decide (n < length tx)%nat).
Proof.
  induction tx as [|pkt tx IH]; intros n sent; [by destruct n; cbn; rewrite app_nil_r|].
  destruct n as [|n]; cbn [flush_loop firstn skipn]; [cbn; by rewrite app_nil_r|]. rewrite IH, <- app_assoc.
  f_equal. apply bool_decide_ext. cbn. lia.
Qed.

(** A pass over the device's queue sends packets in order, as many as the
    tunnel has room for, and loses none of the others unless more than the hard
    limit are left; it then drops the oldest and keeps exactly that many. *)
Theorem flush_tx_conserves d n :
  let '(d', out, dropped, held) := flush_tx d (Room n) in
  exists shed, tx d = out ++ shed ++ tx d' /\ out = firstn n (tx d) /\
    blen shed = dropped /\ dropped = Z.max 0 (blen (tx d) - Z.of_nat n - MAX_DEVICE_TX_HARD) /\
    (held = true <-> tx d' <> []) /\ rx d' = rx d /\ mtu d' = mtu d.
Proof.
  unfold flush_tx. rewrite flush_loop_eq. cbn [app].
  assert (blen (skipn n (tx d)) = Z.max 0 (blen (tx d) - Z.of_nat n)) as Hl.
  { unfold blen. rewrite length_skipn. lia. }
  assert (tx d = firstn n (tx d) ++ skipn n (tx d)) as Htx by by rewrite firstn_skipn.
  remember (skipn n (tx d)) as held_ eqn:Hh. unfold MAX_DEVICE_TX_HARD, MAX_TX_RETAINED in *.
  destruct (bool_decide (n < length (tx d))%nat) eqn:Hf; cbn [andb]; [zcase|].
  - exists (sub held_ 0 (blen held_ - 256)). cbn. assert (blen (tx d) = Z.of_nat (length (tx d))) by done.
    assert (blen (sub held_ 0 (blen held_ - 256)) = blen held_ - 256) as Hs by (rewrite blen_sub; lia).
    pose proof (sub_split held_ 0 (blen held_ - 256) ltac:(lia) ltac:(lia) ltac:(lia)) as Hsp.
    rewrite (sub_empty held_ 0 0) in Hsp by lia. cbn [app] in Hsp. rewrite <- Hsp. split; [done|]. split; [done|].
    split; [done|]. split; [lia|]. split; [|done]. split; [|done]. intros _ He.
    apply (f_equal blen) in He. rewrite blen_sub in He by lia. change (blen (@nil bytes)) with 0 in He. lia.
  - apply bool_decide_eq_true in Hf. exists []. cbn. split; [done|]. split; [done|]. split; [done|].
    split; [unfold blen in *; lia|]. split; [|done]. split; [|done]. intros _ He. rewrite He in Hl. unfold blen in *. cbn in Hl. lia.
  - apply bool_decide_eq_false in Hf. exists []. cbn. split; [done|]. split; [done|]. split; [done|].
    split; [unfold blen in *; lia|]. split; [|done]. split; [done|]. destruct held_; [done|]. unfold blen in *. cbn in Hl. lia.
Qed.

(** ** Admission *)

(** A write is admitted only when the flow is closed, its pipe is empty, the
    write fits its budget, or the wait has lasted its maximum; while it waits no
    byte is counted; and a wait whose deadline passes ends. *)
Theorem reserve_admits len deadline looks :
  0 <= len ->
  (exists c now, (c, now) ∈ looks /\ deadline <= now) ->
  exists c now, (c, now) ∈ looks /\
    reserve len deadline looks = Some (mkCredit (wrap_u64 (sent c + len)) (acked c) (cap c) (closed c)) /\
    (closed c = true \/ deadline <= now \/
     (sent c + len <= U64_MAX -> 0 <= acked c -> acked c <= sent c ->
      sent c + len - acked c <= Z.max len (budget c))).
Proof.
  intros Hlen. induction looks as [|[c now] looks IH]; intros (c1 & now1 & Hin & Hdl); [by apply elem_of_nil in Hin|].
  cbn [reserve]. destruct (reserve_stops len deadline c now) eqn:Hs.
  - exists c, now. split; [left|]. split; [done|]. unfold reserve_stops in Hs.
    destruct (closed c); [by left|]. right. destruct (deadline <=? now) eqn:Hd; [zbool; by left|]. right.
    intros Hm Ha Has. unfold outstanding, saturating_sub in Hs. destruct (Z.eqb_spec (Z.max (sent c - acked c) 0) 0); [lia|].
    cbn in Hs. rewrite orb_false_r in Hs. zbool. lia.
  - destruct IH as (c2 & now2 & H2 & Hr & Hc); [|by exists c2, now2; split; [right|]].
    exists c1, now1. split; [|done]. apply elem_of_cons in Hin as [[= -> ->]|]; [|done].
    unfold reserve_stops in Hs. rewrite (proj2 (Z.leb_le _ _) Hdl), orb_true_r in Hs. done.
Qed.

(** Publishing never takes back what was acknowledged, and keeps the floor. *)
Lemma publish_monotone c a k : acked c <= acked (publish c a k) /\ MIN_FLOW_QUEUE_BYTES <= cap (publish c a k).
Proof. unfold publish. cbn. zcase; lia. Qed.

(** ** Dead flows *)

Lemma ids_filter q id : ids (List.filter (fun d => negb (data_in_id d =? id)) q) = ids q ∖ {[id]}.
Proof.
  unfold ids. induction q as [|d q IH]; [set_solver|]. cbn. destruct (Z.eqb_spec (data_in_id d) id); cbn; rewrite IH; set_solver.
Qed.

Lemma flow_elems_purge b id i : i <> id -> flow_elems i (queue (purge b id)) = flow_elems i (queue b).
Proof.
  intros Hne. cbn. induction (queue b) as [|d q IH]; [done|]. rewrite (flow_elems_cons i d), <- IH. cbn [List.filter].
  destruct (Z.eqb_spec (data_in_id d) id) as [He|]; cbn [negb]; [|apply flow_elems_cons].
  by rewrite flow_elems_one, (proj2 (Z.eqb_neq _ _)) by congruence.
Qed.

Lemma reset_all_ok l : forall s b s' b',
  reset_all s b l = (s', b') -> binv b ->
  binv b' /\ blocked b' = blocked b ∖ list_to_set l /\
  forall id,
    (id ∈ l -> tcp_conns s' !! id = reset_flow <$> tcp_conns s !! id) /\
    (id ∉ l -> tcp_conns s' !! id = tcp_conns s !! id /\ flow_elems id (queue b') = flow_elems id (queue b)).
Proof.
  induction l as [|i l IH]; intros s b s' b' Hr Hb; cbn [reset_all] in Hr.
  - simplify_eq. split; [done|]. split; [set_solver|]. intros id. split; [by intros ?%elem_of_nil|done].
  - apply IH in Hr as (Hb' & Hbl & Hr); [|unfold binv in *; unfold purge; cbn [blocked queue]; by rewrite Hb, ids_filter].
    split; [done|]. split; [rewrite Hbl; cbn; set_solver|]. intros id. destruct (Hr id) as [Hin Hout].
    set (s1 := match tcp_conns s !! i with Some st => _ | None => s end) in *.
    assert (tcp_conns s1 !! id = if decide (id = i) then reset_flow <$> tcp_conns s !! id else tcp_conns s !! id) as Hs1.
    { subst s1. destruct (tcp_conns s !! i) as [st|] eqn:Hst; cbn; case_decide as Hd; subst; rewrite ?lookup_insert_eq, ?Hst; try done.
      by rewrite lookup_insert_ne. }
    rewrite Hs1 in *. split.
    + intros [->|Hl]%elem_of_cons.
      * rewrite decide_True in * by done. destruct (decide (i ∈ l)) as [Hl|Hl]; [rewrite (Hin Hl)|by rewrite (proj1 (Hout Hl))].
        by destruct (tcp_conns s !! i).
      * rewrite (Hin Hl). case_decide; [|done]. by destruct (tcp_conns s !! id).
    + intros [Hne Hl]%not_elem_of_cons. rewrite decide_False in * by done. destruct (Hout Hl) as [H1 H2]. split; [done|].
      by rewrite H2, flow_elems_purge.
Qed.

(** Reaping touches dead flows only: a flow is either left as it was, with all
    it has in the backlog, or it is no carrier, it has stalled or taken nothing for
    too long, and it is cleared, closed and out of the backlog; every stalled flow
    is. *)
Theorem reap_wedged_only_dead now s b s' b' :
  binv b -> reap_wedged now s b = (s', b') ->
  binv b' /\ forall id st, tcp_conns s !! id = Some st ->
    (stalled now st = false /\ tcp_conns s' !! id = Some st /\ flow_elems id (queue b') = flow_elems id (queue b)) \/
    (carrier st = false /\ (stalled now st = true \/ wedged now (Some st) = true) /\
     tcp_conns s' !! id = Some (reset_flow st) /\ flow_elems id (queue b') = []).
Proof.
  intros Hb. unfold reap_wedged. destruct (reset_all s b (stalled_ids now s)) as [s1 b1] eqn:H1.
  apply reset_all_ok in H1 as (Hb1 & Hbl1 & H1); [|done]. intros Hr.
  assert (forall id st, tcp_conns s !! id = Some st -> id ∈ stalled_ids now s <-> stalled now st = true) as Hst.
  { intros id st Hst. unfold stalled_ids. rewrite list_elem_of_In, in_map_iff. split.
    - intros ([i st'] & <- & [Hin Hs]%filter_In). apply list_elem_of_In, elem_of_map_to_list in Hin. cbn in *. congruence.
    - intros Hs. exists (id, st). split; [done|]. apply filter_In. split; [|done]. by apply list_elem_of_In, elem_of_map_to_list. }
  assert (binv b' /\ exists l, (forall id, id ∈ l -> id ∈ blocked b1 /\ wedged now (tcp_conns s1 !! id) = true) /\
    blocked b' = blocked b1 ∖ list_to_set l /\
    forall id, (id ∈ l -> tcp_conns s' !! id = reset_flow <$> tcp_conns s1 !! id) /\
      (id ∉ l -> tcp_conns s' !! id = tcp_conns s1 !! id /\ flow_elems id (queue b') = flow_elems id (queue b1))) as [Hb' (l & Hl & Hbl & H2)].
  { destruct (bool_decide (blocked b1 = ∅)).
    - simplify_eq. split; [done|]. exists []. split; [by intros ? ?%elem_of_nil|]. split; [set_solver|]. intros id. split; [by intros ?%elem_of_nil|done].
    - apply reset_all_ok in Hr as (Hb' & Hbl & Hr); [|done]. split; [done|]. eexists. split; [|by split].
      unfold wedged_ids. intros id Hin. apply list_elem_of_In, filter_In in Hin as [Hin Hw].
      by apply list_elem_of_In, elem_of_elements in Hin. }
  split; [done|]. intros id st Hid. destruct (H1 id) as [H1in H1out], (H2 id) as [H2in H2out].
  assert (forall c, binv c -> id ∉ blocked c -> flow_elems id (queue c) = []) as Hfree.
  { intros c Hc Hn. apply flow_elems_free. by rewrite <- Hc. }
  destruct (stalled now st) eqn:Hs.
  - right. assert (id ∈ stalled_ids now s) as Hin by by apply (Hst id st Hid).
    assert (id ∉ blocked b1) as Hnb by (rewrite Hbl1; set_solver).
    assert (id ∉ l) as Hnl by (intros Hc; by apply Hl in Hc as [? _]).
    split; [unfold stalled in Hs; by destruct (carrier st)|]. split; [by left|].
    destruct (H2out Hnl) as [-> ->]. rewrite (H1in Hin), Hid. split; [done|]. by apply Hfree.
  - assert (id ∉ stalled_ids now s) as Hnin by (rewrite (Hst id st Hid); congruence).
    destruct (H1out Hnin) as [E1 F1]. destruct (decide (id ∈ l)) as [Hil|Hil].
    + right. destruct (Hl id Hil) as [_ Hw]. rewrite E1, Hid in Hw. split; [cbn in Hw; by destruct (carrier st)|].
      split; [by right|]. rewrite (H2in Hil), E1, Hid. split; [done|]. apply Hfree; [done|]. rewrite Hbl. set_solver.
    + left. destruct (H2out Hil) as [-> ->]. by rewrite E1, Hid.
Qed.

(** The clock of a flow moves only when its peer acknowledged something or nothing is
    queued; a carrier is never reset for stalling, and any other flow only at its
    second stall within the window. *)
Lemma service_liveness_clock now queued budget st :
  let '(st', flap) := service_liveness now queued budget st in
  pending st' = pending st /\
  (last_drain st' <> last_drain st -> queued = 0 \/ acked_high st < saturating_sub (accepted_total st) queued) /\
  (flap = true -> carrier st = false /\ 1 <= stall_count st /\ now - stall_mark st < STALL_FLAP_WINDOW).
Proof.
  unfold service_liveness. destruct ((queued =? 0) || _) eqn:Hp; [|destruct (negb (drain_warned st) && _)]; cbn [pending last_drain fst snd].
  - split; [done|]. split; [|done]. intros _. zbool. destruct Hp; zbool; auto.
  - split; [done|]. split; [done|]. unfold STALL_FLAP_LIMIT, U32_MAX. destruct (STALL_FLAP_WINDOW <=? now - stall_mark st) eqn:Hw.
    + done.
    + intros Hf. zbool. split; [done|]. lia.
  - done.
Qed.

(** The port after [n] allocations; any 15849 ports in a row are distinct. *)
Lemma alloc_port_cycles n p :
  49152 <= p <= 65000 ->
  Nat.iter n (fun p => (alloc_port p).2) p = 49152 + (p - 49152 + Z.of_nat n) mod 15849.
Proof.
  intros Hp. induction n as [|n IH].
  - rewrite Z.mod_small by lia. change (Nat.iter 0 _ p) with p. lia.
  - rewrite Nat.iter_succ, IH. unfold alloc_port. cbn [snd].
    pose proof (Z.mod_pos_bound (p - 49152 + Z.of_nat n) 15849 ltac:(lia)) as Hm.
    replace (p - 49152 + Z.of_nat (S n)) with (p - 49152 + Z.of_nat n + 1) by lia.
    rewrite <- (Z.add_mod_idemp_l (p - 49152 + Z.of_nat n) 1) by lia.
    destruct (Z.leb_spec 65000 (49152 + (p - 49152 + Z.of_nat n) mod 15849)).
    + replace ((p - 49152 + Z.of_nat n) mod 15849 + 1) with 15849 by lia. done.
    + rewrite (Z.mod_small (_ + 1)) by lia. lia.
Qed.

(** ** Witnesses *)

Definition example_flow : TcpState := mkTcp [] false false 0 0 0 0 0 false 0 0 FlowCredit_new false.
Definition example_stack : NetStack := mkStack {[1 := example_flow; 2 := example_flow]} {[3]} [].
Definition example_ops : list Op :=
  [OpIngest (Tcp 1 [1; 2]); OpIngest (Tcp 2 [9]); OpDrain; OpSend 1 5 true (fun b => Some (Z.min 1 (blen b)));
   OpIngest (Tcp 1 [3]); OpIngest (TcpClose 1); OpIngest (TcpClose 1)].

Lemma uplink_in_order_witness :
  exists s b out st,
    uplink_run 0 (example_stack, Backlog_default, []) example_ops = Ok (s, b, out) /\ tcp_conns s !! 1 = Some st /\
    taken_by 1 out ++ pending st ++ ebytes (flow_elems 1 (queue b)) = [1; 2; 3].
Proof.
  destruct (uplink_in_order 0 1 example_flow example_stack example_ops) as (s & b & out & st & H1 & H2 & H3 & _).
  - reflexivity.
  - apply Forall_forall. intros op Hin. unfold example_ops in Hin.
    repeat (apply elem_of_cons in Hin as [->|Hin]; [try exact I; intros c n [= <-]; pose proof (blen_nonneg c); lia|]).
    by apply elem_of_nil in Hin.
  - exists s, b, out, st. split; [exact H1|]. split; [exact H2|]. exact H3.
Defined.

(** Flow 1 has no room left; flow 2 has. *)
Definition full_flow : TcpState := set_pending example_flow (replicate 65536 0).
Definition full_stack : NetStack := mkStack {[1 := full_flow; 2 := example_flow]} ∅ [].
Definition example_backlog : Backlog := mkBacklog [Tcp 1 [7]; Tcp 2 [8]; Tcp 1 [9]] {[1; 2]} 3.

Lemma drain_backlog_isolates_witness :
  let '(s', b') := drain_backlog 0 full_stack example_backlog in
  queue b' = [Tcp 1 [7]; Tcp 1 [9]] /\ full 0 s' 1.
Proof.
  assert (binv example_backlog) as Hb by (unfold binv; set_solver).
  destruct (drain_backlog 0 full_stack example_backlog) as [s' b'] eqn:Hd.
  destruct (drain_backlog_isolates 0 full_stack example_backlog s' b' Hb Hd) as [_ Hf].
  assert (queue b' = [Tcp 1 [7]; Tcp 1 [9]]) as Hq.
  { change b' with (s', b').2. rewrite <- Hd. vm_compute. reflexivity. }
  split; [exact Hq|]. apply (Hf (Tcp 1 [7])). rewrite Hq. left.
Defined.

Lemma reserve_admits_witness :
  exists c now, (c, now) ∈ [(mkCredit 49152 0 MIN_FLOW_QUEUE_BYTES false, 1); (mkCredit 49152 8000 MIN_FLOW_QUEUE_BYTES false, 3);
      (mkCredit 49152 8000 MIN_FLOW_QUEUE_BYTES false, 20)] /\
    reserve 1000 10 [(mkCredit 49152 0 MIN_FLOW_QUEUE_BYTES false, 1); (mkCredit 49152 8000 MIN_FLOW_QUEUE_BYTES false, 3);
      (mkCredit 49152 8000 MIN_FLOW_QUEUE_BYTES false, 20)] = Some (mkCredit (wrap_u64 (sent c + 1000)) (acked c) (cap c) (closed c)).
Proof.
  destruct (reserve_admits 1000 10 [(mkCredit 49152 0 MIN_FLOW_QUEUE_BYTES false, 1); (mkCredit 49152 8000 MIN_FLOW_QUEUE_BYTES false, 3);
      (mkCredit 49152 8000 MIN_FLOW_QUEUE_BYTES false, 20)]) as (c & now & H1 & H2 & _).
  - lia.
  - exists (mkCredit 49152 8000 MIN_FLOW_QUEUE_BYTES false), 20. split; [right; right; left|lia].
  - exists c, now. split; [exact H1|exact H2].
Defined.

Definition idle_flow : TcpState := set_pending example_flow [5].
Definition idle_stack : NetStack := mkStack {[1 := idle_flow; 2 := example_flow]} ∅ [].

Lemma reap_wedged_only_dead_witness :
  let '(s', b') := reap_wedged (secs 40) idle_stack example_backlog in tcp_conns s' !! 1 = Some (reset_flow idle_flow).
Proof.
  assert (binv example_backlog) as Hb by (unfold binv; set_solver).
  destruct (reap_wedged (secs 40) idle_stack example_backlog) as [s' b'] eqn:Hd.
  destruct (reap_wedged_only_dead (secs 40) idle_stack example_backlog s' b' Hb Hd) as [_ Hf].
  destruct (Hf 1 idle_flow eq_refl) as [(_ & H1 & _)|(_ & _ & H1 & _)]; [|exact H1].
  change s' with (s', b').1 in H1. rewrite <- Hd in H1. vm_compute in H1. discriminate.
Defined.

End Netstack.
