(* ===== verification/Flows.v ===== *)
(** * The life of the flows of the network stack ([aether/src/netstack.rs])

    From the command that opens a flow to its removal: the connect and its answer,
    what the network sends to the app, the flow whose app or whose peer is gone
    ([handle_cmd], [service_tcp], [service_udp]), the addresses of the interface
    ([apply_addrs]) and one pass of the loop of the stack ([run]), which composes
    them with the uplink of [Netstack].  The sockets are the smoltcp crate's: a
    class, with what is relied on as laws. *)

From stdpp Require Import gmap.
From S2P Require Import Prelude Str Ip Text Error Netstack.
Local Open Scope Z_scope.

Module Flows.
Import Netstack Error.

Definition MAX_INGEST_PER_TICK : nat := 512.
Definition MAX_RECV_CHUNKS : nat := 128.
Definition MAX_APP_INGEST_PER_TICK : nat := 512.
Definition MAX_CMD_PER_TICK : nat := 64.
Definition BACKPRESSURE_RETRY : Z := 2000000.
Definition MAX_IDLE_TICK : Z := 250000000.
Definition ORPHAN_LINGER : Z := secs 10.
Definition TCP_KEEPALIVE : Z := secs 15.

(** ** The limits of the settings *)

(** The value of a variable of the environment is an argument. *)
Definition env_secs (value : option bytes) (default_ : Z) : Z :=
  secs match value ≫= (fun v => parse_u64 (trim v)) with
       | Some v => if 0 <? v then Z.min v 86400 else default_
       | None => default_
       end.

Definition tcp_keepalive (value : option bytes) : Z := env_secs value 15.
Definition tcp_dead_peer_timeout (keepalive : option bytes) : Z := tcp_keepalive keepalive * 6.
Definition tcp_connect_timeout (value : option bytes) : Z := env_secs value 30.

Record TcpLimits := mkLimits { connect : Z; keepalive : Z; dead_peer : Z; orphan_linger : Z }.
Definition TcpLimits_from_env (keepalive_secs connect_secs : option bytes) : TcpLimits :=
  mkLimits (tcp_connect_timeout connect_secs) (tcp_keepalive keepalive_secs) (tcp_dead_peer_timeout keepalive_secs) ORPHAN_LINGER.

(** ** Sockets *)

Inductive SockState :=
| SClosed | SListen | SSynSent | SSynReceived | SEstablished | SFinWait1 | SFinWait2 | SCloseWait | SClosing | SLastAck | STimeWait.

#[export] Instance sock_state_eq_dec : EqDecision SockState.
Proof. solve_decision. Defined.

(** What the code uses of smoltcp's sockets.  [received] and [udp_queue] are what
    a socket holds for the application; [recv] stands for the call that copies
    and consumes the whole contiguous part of it. *)
Class Smol := {
  Socket : Type;
  state : Socket -> SockState;
  can_send : Socket -> bool;
  send_slice : Socket -> bytes -> option Z * Socket;
  send_queue : Socket -> Z;
  can_recv : Socket -> bool;
  recv : Socket -> option (bytes * Socket);
  sock_close : Socket -> Socket;
  sock_abort : Socket -> Socket;
  received : Socket -> bytes;
  UdpSocket : Type;
  udp_can_recv : UdpSocket -> bool;
  udp_recv : UdpSocket -> option (SocketAddr * bytes * UdpSocket);
  udp_queue : UdpSocket -> list (SocketAddr * bytes);
  (** The addresses an interface may have, the unicast ones: [update_ip_addrs] panics on another. *)
  is_unicast : IpAddr -> bool;
}.

(** The documented behaviour the theorems rely on. *)
Class SmolLaws (smol : Smol) := {
  send_slice_bound k p n k' : send_slice k p = (Some n, k') -> 0 <= n <= blen p;
  send_slice_received k p : received (send_slice k p).2 = received k;
  can_recv_iff k : can_recv k = true <-> received k <> [];
  recv_prefix k v k' : recv k = Some (v, k') -> received k = v ++ received k';
  recv_some k : received k <> [] -> exists v k', recv k = Some (v, k') /\ v <> [];
  recv_state k v k' : recv k = Some (v, k') -> state k' = state k;
  close_received k : received (sock_close k) = received k;
  abort_state k : state (sock_abort k) = SClosed;
  udp_recv_queue u d u' : udp_recv u = Some (d, u') -> udp_queue u = d :: udp_queue u';
  udp_can_recv_iff u : udp_can_recv u = true <-> udp_queue u <> [];
  udp_recv_some u : udp_queue u <> [] -> exists d u', udp_recv u = Some (d, u');
}.

(** ** Flows *)

Section flows.
Context `{smol : Smol}.

(** [TcpState]: the uplink's fields are [up]; [connect_resp] and [from_stack_rx]
    say whether the answer to the connect and the app's end of the channel are
    still to be handed out. *)
Record Conn := mkConn {
  up : TcpState;
  sock : Socket;
  connect_resp : bool;
  from_stack_rx : bool;
  established : bool;
  connect_deadline : Z;
  orphaned_at : option Z;
  aborted : bool;
}.
Definition set_up (c : Conn) (u : TcpState) : Conn :=
  mkConn u (sock c) (connect_resp c) (from_stack_rx c) (established c) (connect_deadline c) (orphaned_at c) (aborted c).
Definition set_sock (c : Conn) (k : Socket) : Conn :=
  mkConn (up c) k (connect_resp c) (from_stack_rx c) (established c) (connect_deadline c) (orphaned_at c) (aborted c).

(** What [try_reserve] answers on the channel to the app. *)
Inductive Reserve := Permit | RFull | RGone.

(** What a pass over a flow finds: the time at the start of the pass, when it feeds
    the socket and when it watches it; the budget computed from the measured rate;
    whether the one who asked for the connection is gone; and the answers of the
    channel to the app. *)
Record Env := mkEnv {
  now : Z;
  t_send : Z;
  t_live : Z;
  rate_budget : Z;
  caller_gone : bool;
  reserve_app : nat -> Reserve;
}.

Inductive Reply := Connected | Refused (msg : bytes).
Inductive Act :=
| Answer (r : Reply)
| Deliver (chunk : bytes)
| CreditClose
| SockRemove.

Definition connected (st : SockState) : bool := bool_decide (st = SEstablished) || bool_decide (st = SCloseWait).
Definition finished (st : SockState) : bool := bool_decide (st = SClosed) || bool_decide (st = STimeWait).

(** The socket is connected: the flow is established, its caller gets the connection. *)
Definition establish (c : Conn) : Conn * list Act :=
  if negb (established c) && connected (state (sock c)) then
    (mkConn (up c) (sock c) false false true (connect_deadline c) (orphaned_at c) (aborted c),
     if connect_resp c && from_stack_rx c then [Answer Connected] else [])
  else (c, []).

Definition answer (c : Conn) (msg : bytes) : list Act := if connect_resp c then [Answer (Refused msg)] else [].

(** Feeding the socket from what is pending. *)
Definition feed (e : Env) (c : Conn) : res unit Conn :=
  let k := sock c in
  '(u, _) ← service_send (t_send e) (can_send k) (fun p => (send_slice k p).1) (up c);
  Ok (set_sock (set_up c u)
        (if negb (bool_decide (pending (up c) = [])) && can_send k then (send_slice k (pending (up c))).2 else k)).

(** What a flow that stalls too often is left with. *)
Definition flap_reset (u : TcpState) : TcpState :=
  mkTcp [] (half_closed u) (carrier u) (last_progress u) (send_queue_high u) (accepted_total u) (acked_high u)
    (last_drain u) false (stall_mark u) 0 (close (credit u)) true.

Definition watch (e : Env) (c : Conn) : Conn :=
  let '(u, flap) := service_liveness (t_live e) (send_queue (sock c)) (rate_budget e) (up c) in
  if flap then set_sock (set_up c (flap_reset u)) (sock_abort (sock c)) else set_up c u.

Definition half_close (c : Conn) : Conn :=
  if half_closed (up c) && bool_decide (pending (up c) = []) then set_sock c (sock_close (sock c)) else c.

(** The loop that hands what the socket received to the app, from its [i]-th turn
    on: the chunks, the socket, and why it stopped. *)
Inductive Stop := Drained | Backpressured | AppGone.
#[export] Instance stop_eq_dec : EqDecision Stop.
Proof. solve_decision. Defined.
Fixpoint deliver (turns i : nat) (reserve_app : nat -> Reserve) (k : Socket) : list bytes * Socket * Stop :=
  match turns with
  | O => ([], k, Drained)
  | S turns =>
      match reserve_app i with
      | RFull => ([], k, Backpressured)
      | RGone => ([], k, AppGone)
      | Permit =>
          if negb (can_recv k) then ([], k, Drained)
          else match recv k with
               | Some ([], k') => ([], k', Drained)
               | Some (v, k') => let '(vs, k'', stop) := deliver turns (S i) reserve_app k' in (v :: vs, k'', stop)
               | None => ([], k, Drained)
               end
      end
  end.

(** A flow whose app is gone: closed, or reset once it lingered or still delivers. *)
Definition orphan (linger : Z) (e : Env) (c : Conn) : Conn :=
  let at_ := default (now e) (orphaned_at c) in
  let c := mkConn (up c) (sock c) (connect_resp c) (from_stack_rx c) (established c) (connect_deadline c) (Some at_) (aborted c) in
  if can_recv (sock c) || (linger <=? saturating_sub (now e) at_) then
    mkConn (up c) (if bool_decide (state (sock c) = SClosed) then sock c else sock_abort (sock c))
      (connect_resp c) (from_stack_rx c) (established c) (connect_deadline c) (orphaned_at c) true
  else set_sock c (sock_close (sock c)).

(** The end of a pass: the peer's half-close is answered, a finished flow removed. *)
Definition wind_up (c : Conn) : option Conn * list Act :=
  let st := state (sock c) in
  let c := if bool_decide (st = SCloseWait) then set_sock c (sock_close (sock c)) else c in
  let c := if bool_decide (st = STimeWait) then set_up c (set_pending (up c) []) else c in
  if finished st && established c then (None, [CreditClose; SockRemove]) else (Some c, []).

(** A flow that is established, for the rest of the pass. *)
Definition service_established (linger : Z) (e : Env) (c : Conn) : res unit (option Conn * list Act * bool) :=
  c ← feed e c;
  let c := half_close (watch e c) in
  let '(chunks, k, stop) := deliver MAX_RECV_CHUNKS 0 (reserve_app e) (sock c) in
  let c := set_sock c k in
  let c := match stop with AppGone => orphan linger e c | _ => c end in
  let '(c, acts) := if aborted c then (Some c, []) else wind_up c in
  Ok (c, map Deliver chunks ++ acts, bool_decide (stop = Backpressured)).

(** One flow in [service_tcp]: the flow unless it is removed, what was done, and
    whether the app is behind. *)
Definition service_flow (linger : Z) (e : Env) (c : Conn) : res unit (option Conn * list Act * bool) :=
  if aborted c then Ok (None, [CreditClose; SockRemove], false)
  else
    let st := state (sock c) in
    let '(c, acts) := establish c in
    if established c then
      '(o, acts', bp) ← service_established linger e c;
      Ok (o, acts ++ acts', bp)
    else if finished st then Ok (None, answer c (lit "connection refused") ++ [CreditClose; SockRemove], false)
    else if (negb (connect_resp c) || caller_gone e) || (connect_deadline c <=? now e)
    then Ok (None, answer c (lit "connection timed out") ++ [CreditClose; SockRemove], false)
    else Ok (Some c, [], false).

End flows.

(** ** Addresses of the interface *)

Definition strip_cidr (s : bytes) : bytes :=
  match split_once 47 s with Some (ip, _) => ip | None => s end.
Definition cidr_prefix (s : bytes) : option Z :=
  '(_, p) ← split_once 47 s; parse_uint U8_MAX p.

Definition parse_ipv4 (s : bytes) : option Z := if 15 <? blen s then None else parse_with read_ipv4_addr s.

Definition parse_v4 (s : bytes) : res AetherError (option (Z * Z)) :=
  if bool_decide (s = []) then Ok None
  else match parse_ipv4 (strip_cidr s) with
       | Some ip => Ok (Some (ip, default 32 (cidr_prefix s)))
       | None => Err (Other (lit "bad ipv4 " ++ s))
       end.
Definition parse_v6 (s : bytes) : res AetherError (option (Z * Z)) :=
  if bool_decide (s = []) then Ok None
  else match parse_ipv6 (strip_cidr s) with
       | Some ip => Ok (Some (ip, default 128 (cidr_prefix s)))
       | None => Err (Other (lit "bad ipv6 " ++ s))
       end.

Definition routable_prefix_v4 (p : Z) : Z := if 31 <=? p then 24 else p.
Definition routable_prefix_v6 (p : Z) : Z := if 127 <=? p then 64 else p.

(** The addresses of the interface, and its default routes. *)
Record Interface := mkIface { ip_addrs : list (IpAddr * Z); route_v4 : option Z; route_v6 : option Z }.
Definition Interface_new : Interface := mkIface [] None None.

(** smoltcp's [IpCidr::new], which panics on a prefix that is too long. *)
Definition IpCidr_new {E} (ip : IpAddr) (p : Z) : res E (IpAddr * Z) :=
  if p <=? match ip with V4 _ => 32 | V6 _ => 128 end then Ok (ip, p) else Panic.

(** The address the default route goes through: the first host of the /24, or of
    the last byte, that is not the address itself. *)
Definition gateway_v4 (ip : Z) : Z :=
  v4_new (octet ip 0) (octet ip 1) (octet ip 2) (if octet ip 3 =? 1 then 2 else 1).
Definition gateway_v6 (ip : Z) : Z := ip - ip mod 256 + (if ip mod 256 =? 1 then 2 else 1).

(** [update_ip_addrs] checks the addresses it is left with. *)
Definition update_ip_addrs `{smol : Smol} {E} (addrs : list (IpAddr * Z)) : res E (list (IpAddr * Z)) :=
  if forallb (fun c => is_unicast c.1) addrs then Ok addrs else Panic.

Definition apply_addrs `{smol : Smol} {E} (iface : Interface) (v4 v6 : option (Z * Z)) : res E Interface :=
  a4 ← match v4 with
       | Some (ip, p) => c ← IpCidr_new (V4 ip) (routable_prefix_v4 p); Ok [c]
       | None => Ok []
       end;
  a6 ← match v6 with
       | Some (ip, p) => c ← IpCidr_new (V6 ip) (routable_prefix_v6 p); Ok [c]
       | None => Ok []
       end;
  addrs ← update_ip_addrs (a4 ++ a6);
  Ok (mkIface addrs
        (match v4 with Some (ip, _) => Some (gateway_v4 ip) | None => route_v4 iface end)
        (match v6 with Some (ip, _) => Some (gateway_v6 ip) | None => route_v6 iface end)).

(** The last address of each family. *)
Definition current_addrs (iface : Interface) : option (Z * Z) * option (Z * Z) :=
  fold_left (fun '(v4, v6) '(ip, p) =>
    match ip with V4 a => (Some (a, p), v6) | V6 a => (v4, Some (a, p)) end) (ip_addrs iface) (None, None).

(** ** The stack *)

Inductive Cmd :=
| OpenTcp (dst : SocketAddr) (carrier : bool)
| OpenUdp
| SetAddrs (v4 v6 : option (Z * Z)).

(** The answer to a command that is given at once. *)
Inductive CmdReply := TcpRefused (msg : bytes) | UdpOpened (id : Z) | UdpRefused (msg : bytes).

Section stack.
Context `{smol : Smol}.

Record Stack := mkStk {
  conns : gmap Z Conn;
  udps : gmap Z UdpSocket;
  udp_out : list (Z * SocketAddr * bytes);
  next_id : Z;
  next_port : Z;
  iface : Interface;
  device : StackDevice;
  limits : TcpLimits;
}.
Definition set_conns (s : Stack) (m : gmap Z Conn) : Stack :=
  mkStk m (udps s) (udp_out s) (next_id s) (next_port s) (iface s) (device s) (limits s).
Definition set_udps (s : Stack) (m : gmap Z UdpSocket) : Stack :=
  mkStk (conns s) m (udp_out s) (next_id s) (next_port s) (iface s) (device s) (limits s).
Definition set_device (s : Stack) (d : StackDevice) : Stack :=
  mkStk (conns s) (udps s) (udp_out s) (next_id s) (next_port s) (iface s) d (limits s).

(** [spawn_with_limits], up to the start of the loop. *)
Definition spawn_with_limits (ipv4 ipv6 : bytes) (mtu : Z) (tcp_limits : TcpLimits) : res AetherError Stack :=
  v4 ← parse_v4 ipv4;
  v6 ← parse_v6 ipv6;
  i ← apply_addrs Interface_new v4 v6;
  Ok (mkStk ∅ ∅ [] 1 49152 i (StackDevice_new mtu) tcp_limits).

Definition spawn (ipv4 ipv6 : bytes) (mtu : Z) (keepalive_secs connect_secs : option bytes) : res AetherError Stack :=
  spawn_with_limits ipv4 ipv6 mtu (TcpLimits_from_env keepalive_secs connect_secs).

(** The fields of a new flow. *)
Definition new_uplink (carrier : bool) (t : Z) : TcpState :=
  mkTcp [] false carrier t 0 0 0 t false t 0 FlowCredit_new false.
Definition new_conn (carrier : bool) (t : Z) (limits : TcpLimits) (k : Socket) : Conn :=
  mkConn (new_uplink carrier t) k true true false (t + connect limits) None false.

Variable open_socket : Interface -> SocketAddr -> Z -> bytes + Socket.
Variable bind_socket : Z -> bytes + UdpSocket.

Definition handle_cmd (t : Z) (s : Stack) (cmd : Cmd) : res unit (Stack * list CmdReply) :=
  match cmd with
  | OpenTcp dst carrier =>
      let '(local_port, next_port) := alloc_port (next_port s) in
      match open_socket (iface s) dst local_port with
      | inl e =>
          Ok (mkStk (conns s) (udps s) (udp_out s) (next_id s) next_port (iface s) (device s) (limits s),
              [TcpRefused (lit "connect: " ++ e)])
      | inr k =>
          Ok (mkStk (<[next_id s := new_conn carrier t (limits s) k]> (conns s)) (udps s) (udp_out s) (next_id s + 1)
                next_port (iface s) (device s) (limits s), [])
      end
  | OpenUdp =>
      let '(local_port, next_port) := alloc_port (next_port s) in
      match bind_socket local_port with
      | inl e =>
          Ok (mkStk (conns s) (udps s) (udp_out s) (next_id s) next_port (iface s) (device s) (limits s),
              [UdpRefused (lit "bind: " ++ e)])
      | inr k =>
          Ok (mkStk (conns s) (<[next_id s := k]> (udps s)) (udp_out s) (next_id s + 1) next_port (iface s) (device s) (limits s),
              [UdpOpened (next_id s)])
      end
  | SetAddrs v4 v6 =>
      let '(current_v4, current_v6) := current_addrs (iface s) in
      i ← apply_addrs (iface s) (match v4 with Some _ => v4 | None => current_v4 end)
            (match v6 with Some _ => v6 | None => current_v6 end);
      Ok (mkStk (conns s) (udps s) (udp_out s) (next_id s) (next_port s) i (device s) (limits s), [])
  end.

(** [service_tcp]: every flow in turn, in the order of [ids], the keys of the map. *)
Fixpoint service_ids (env : Z -> Env) (s : Stack) (ids : list Z) : res unit (Stack * list (Z * Act) * bool) :=
  match ids with
  | [] => Ok (s, [], false)
  | id :: ids =>
      match conns s !! id with
      | None => service_ids env s ids
      | Some c =>
          '(o, acts, bp) ← service_flow (orphan_linger (limits s)) (env id) c;
          '(s, acts', bp') ← service_ids env
             (set_conns s (match o with Some c => <[id := c]> (conns s) | None => delete id (conns s) end)) ids;
          Ok (s, map (pair id) acts ++ acts', bp || bp')
      end
  end.
Definition service_tcp (env : Z -> Env) (s : Stack) : res unit (Stack * list (Z * Act) * bool) :=
  service_ids env s (map_to_list (conns s)).*1.

(** The loop of [service_udp] that hands datagrams to the app. *)
Fixpoint deliver_udp (turns i : nat) (reserve_app : nat -> Reserve) (u : UdpSocket)
  : list (SocketAddr * bytes) * UdpSocket * Stop :=
  match turns with
  | O => ([], u, Drained)
  | S turns =>
      match reserve_app i with
      | RFull => ([], u, Backpressured)
      | RGone => ([], u, AppGone)
      | Permit =>
          if negb (udp_can_recv u) then ([], u, Drained)
          else match udp_recv u with
               | Some (d, u') => let '(ds, u'', stop) := deliver_udp turns (S i) reserve_app u' in (d :: ds, u'', stop)
               | None => ([], u, Drained)
               end
      end
  end.

Fixpoint service_udp_ids (env : Z -> nat -> Reserve) (s : Stack) (ids : list Z)
  : Stack * list (Z * (SocketAddr * bytes)) * bool :=
  match ids with
  | [] => (s, [], false)
  | id :: ids =>
      match udps s !! id with
      | None => service_udp_ids env s ids
      | Some u =>
          let '(ds, u, stop) := deliver_udp MAX_RECV_CHUNKS 0 (env id) u in
          let m := match stop with AppGone => delete id (udps s) | _ => <[id := u]> (udps s) end in
          let '(s, out, bp) := service_udp_ids env (set_udps s m) ids in
          (s, map (pair id) ds ++ out, bool_decide (stop = Backpressured) || bp)
      end
  end.
Definition service_udp (env : Z -> nat -> Reserve) (s : Stack) : Stack * list (Z * (SocketAddr * bytes)) * bool :=
  service_udp_ids env s (map_to_list (udps s)).*1.

(** ** The uplink within the stack *)

(** What the uplink sees of the stack, and the stack once the uplink changed it. *)
Definition uplink (s : Stack) : NetStack := mkStack (up <$> conns s) (dom (udps s)) (udp_out s).
Definition put_uplink (s : Stack) (n : NetStack) : Stack :=
  mkStk (map_imap (fun id c =>
           match tcp_conns n !! id with
           | Some u => Some (set_sock (set_up c u) (if sock_aborted u && negb (sock_aborted (up c)) then sock_abort (sock c) else sock c))
           | None => Some c
           end) (conns s))
    (filter (fun '(id, _) => id ∈ udp_conns n) (udps s)) (udp_sent n)
    (next_id s) (next_port s) (iface s) (device s) (limits s).

Variable tcp_buf : Z.

Definition ingest_ (s : Stack) (b : Backlog) (d : DataIn) : Stack * Backlog :=
  let '(n, b) := ingest tcp_buf (uplink s) b d in (put_uplink s n, b).
Definition drain_backlog_ (s : Stack) (b : Backlog) : Stack * Backlog :=
  let '(n, b) := drain_backlog tcp_buf (uplink s) b in (put_uplink s n, b).
Definition reap_wedged_ (t : Z) (s : Stack) (b : Backlog) : Stack * Backlog :=
  let '(n, b) := reap_wedged t (uplink s) b in (put_uplink s n, b).
Definition drain_app_data_ (s : Stack) (b : Backlog) (rx : list DataIn) (budget : nat) : Stack * Backlog * list DataIn * Z :=
  let '(n, b, rx, moved) := drain_app_data tcp_buf (uplink s) b rx budget in (put_uplink s n, b, rx, moved).

Fixpoint drain_cmds (t : Z) (s : Stack) (rx : list Cmd) (budget : nat) : res unit (Stack * list CmdReply * list Cmd * Z) :=
  match budget, rx with
  | O, _ | _, [] => Ok (s, [], rx, 0)
  | S budget, cmd :: rx =>
      '(s, replies) ← handle_cmd t s cmd;
      '(s, replies', rx, moved) ← drain_cmds t s rx budget;
      Ok (s, replies ++ replies', rx, moved + 1)
  end.

(** ** The loop *)

(** What a pass finds: what the stack's poll does to the sockets and the device, or
    that it panicked; what the flows find; the channel to the tunnel; the time; how
    long smoltcp may sleep; and what wakes the loop up. *)
Inductive Wake := WakeInbound (pkt : bytes) | WakeCmd (cmd : Cmd) | WakeData (d : DataIn) | WakeSleep | WakeClosed.
Record Pass := mkPass {
  poll_tcp : Z -> Socket -> Socket;
  poll_udp : Z -> UdpSocket -> UdpSocket;
  poll_device : StackDevice -> StackDevice;
  poll_panics : bool;
  tcp_env : Z -> Env;
  udp_env : Z -> nat -> Reserve;
  outbound : Channel;
  t_pass : Z;
  poll_delay : option Z;
  data_gone : bool;
  inbound_gone : bool;
  cmd_gone : bool;
}.

(** The three queues the loop reads. *)
Record Queues := mkQueues { q_data : list DataIn; q_inbound : list bytes; q_cmd : list Cmd }.
Record RunState := mkRun { stk : Stack; backlog : Backlog; prefer_app_data : bool }.

(** What a pass did: the actions on the flows, the datagrams and the packets sent,
    the replies, how many items of each queue were moved. *)
Record Done := mkDone {
  d_acts : list (Z * Act);
  d_udp : list (Z * (SocketAddr * bytes));
  d_out : list bytes;
  d_replies : list CmdReply;
  moved_app : Z;
  moved_in : Z;
  moved_cmd : Z;
}.
Inductive Next := Again | Park (delay : option Z) | Return.

Definition poll (p : Pass) (s : Stack) : Stack :=
  let d := poll_device p (device s) in
  mkStk (map_imap (fun id c => Some (set_sock c (poll_tcp p id (sock c)))) (conns s)) (map_imap (fun id u => Some (poll_udp p id u)) (udps s))
    (udp_out s) (next_id s) (next_port s) (iface s)
    (if poll_panics p then mkDevice [] [] (mtu d) (tx_stalls d) (tx_shed d) (tx_peak d) else d) (limits s).

(** [drain_app_data] and [drain_inbound] in the loop: also whether the channel was
    found closed. *)
Definition turn_app (p : Pass) (s : Stack) (b : Backlog) (rx : list DataIn) : Stack * Backlog * list DataIn * Z * bool :=
  let '(s, b, rx, moved) := drain_app_data_ s b rx MAX_APP_INGEST_PER_TICK in
  (s, b, rx, moved,
   data_gone p && bool_decide (rx = []) && (moved <? Z.of_nat MAX_APP_INGEST_PER_TICK) && (bytes_ b <? MAX_BACKLOG_BYTES)).
Definition turn_inbound (p : Pass) (s : Stack) (rx : list bytes) : Stack * list bytes * Z * bool :=
  let '(d, rx, moved) := drain_inbound (device s) rx MAX_INGEST_PER_TICK in
  (set_device s d, rx, moved, inbound_gone p && (moved <? Z.of_nat MAX_INGEST_PER_TICK)).

Definition idle_delay (busy : bool) (s : Stack) (polled : option Z) : option Z :=
  if busy then Some BACKPRESSURE_RETRY
  else if bool_decide (conns s = ∅) && bool_decide (udps s = ∅) then polled
  else Some (match polled with Some d => Z.min d MAX_IDLE_TICK | None => MAX_IDLE_TICK end).

(** One turn of the loop up to where it parks. *)
Definition run_pass (p : Pass) (r : RunState) (q : Queues) : res unit (RunState * Queues * Done * Next) :=
  let s := poll p (stk r) in
  '(s, acts, tcp_busy) ← service_tcp (tcp_env p) s;
  let '(s, dgrams, udp_busy) := service_udp (udp_env p) s in
  let '(d, out, _, tx_busy) := flush_tx (device s) (outbound p) in
  let s := set_device s d in
  let '(s, b) := drain_backlog_ s (backlog r) in
  let '(s, b) := reap_wedged_ (t_pass p) s b in
  let '(s, b, rx_data, rx_in, n_app, n_in, closed) :=
    if prefer_app_data r then
      let '(s, rx_in, n_in, done_in) := turn_inbound p s (q_inbound q) in
      let '(s, b, rx_data, n_app, done_app) := turn_app p s b (q_data q) in
      (s, b, rx_data, rx_in, n_app, n_in, done_in || done_app)
    else
      let '(s, b, rx_data, n_app, done_app) := turn_app p s b (q_data q) in
      let '(s, rx_in, n_in, done_in) := turn_inbound p s (q_inbound q) in
      (s, b, rx_data, rx_in, n_app, n_in, done_app || done_in) in
  '(s, replies, rx_cmd, n_cmd) ← drain_cmds (t_pass p) s (q_cmd q) MAX_CMD_PER_TICK;
  let closed := closed || (cmd_gone p && (n_cmd <? Z.of_nat MAX_CMD_PER_TICK)) in
  let busy := tcp_busy || udp_busy || tx_busy || negb (is_empty b) in
  Ok (mkRun s b (negb (prefer_app_data r)), mkQueues rx_data rx_in rx_cmd,
      mkDone acts dgrams out replies n_app n_in n_cmd,
      if closed then Return
      else if (0 <? n_in) || (0 <? n_app) || (0 <? n_cmd) then Again
      else Park (idle_delay busy s (poll_delay p))).

(** The item that wakes the loop; application data is not taken while the backlog is
    full. *)
Definition wake (t : Z) (r : RunState) (w : Wake) : res unit (RunState * list CmdReply) :=
  match w with
  | WakeInbound pkt =>
      let d := device (stk r) in
      Ok (mkRun (set_device (stk r) (mkDevice (rx d ++ [pkt]) (tx d) (mtu d) (tx_stalls d) (tx_shed d) (tx_peak d)))
            (backlog r) (prefer_app_data r), [])
  | WakeCmd cmd =>
      '(s, replies) ← handle_cmd t (stk r) cmd;
      Ok (mkRun s (backlog r) (prefer_app_data r), replies)
  | WakeData d =>
      if bytes_ (backlog r) <? MAX_BACKLOG_BYTES then
        let '(s, b) := ingest_ (stk r) (backlog r) d in Ok (mkRun s b (prefer_app_data r), [])
      else Ok (r, [])
  | WakeSleep | WakeClosed => Ok (r, [])
  end.

(** The loop, over the passes, what the channels hold when each reads them, and
    what wakes the loop up after a pass that parks: an item, the delay, or a channel
    that was closed, which ends it. *)
Fixpoint run (r : RunState) (steps : list (Pass * Queues * Wake)) : res unit (RunState * list Done) :=
  match steps with
  | [] => Ok (r, [])
  | (p, q, w) :: steps =>
      '(r, _, done_, next) ← run_pass p r q;
      match next with
      | Return => Ok (r, [done_])
      | Again => '(r, ds) ← run r steps; Ok (r, done_ :: ds)
      | Park _ =>
          if (match w with WakeClosed => true | _ => false end) then Ok (r, [done_])
          else '(r, _) ← wake (t_pass p) r w; '(r, ds) ← run r steps; Ok (r, done_ :: ds)
      end
  end.

End stack.

(** ** One flow *)

Section flow_proofs.
Context `{smol : Smol, laws : !SmolLaws smol}.
Implicit Types (c : Conn) (e : Env) (k : Socket).

Definition delivered (acts : list Act) : bytes := concat (omap (fun a => match a with Deliver v => Some v | _ => None end) acts).
Definition answers (acts : list Act) : list Reply := omap (fun a => match a with Answer r => Some r | _ => None end) acts.

Lemma delivered_app a b : delivered (a ++ b) = delivered a ++ delivered b.
Proof. unfold delivered. by rewrite omap_app, concat_app. Qed.
Lemma answers_app a b : answers (a ++ b) = answers a ++ answers b.
Proof. apply omap_app. Qed.
Lemma delivered_chunks vs : delivered (map Deliver vs) = concat vs.
Proof. unfold delivered. f_equal. induction vs as [|v vs IH]; [done|]. cbn. by rewrite IH. Qed.
Lemma answers_chunks vs : answers (map Deliver vs) = [].
Proof. by induction vs. Qed.

(** The set-up fields do not change. *)
Definition same_setup c c' : Prop :=
  connect_resp c' = connect_resp c /\ from_stack_rx c' = from_stack_rx c /\ established c' = established c /\
  orphaned_at c' = orphaned_at c /\ aborted c' = aborted c /\ connect_deadline c' = connect_deadline c.

Lemma same_setup_refl c : same_setup c c.
Proof. done. Qed.
Lemma same_setup_trans c1 c2 c3 : same_setup c1 c2 -> same_setup c2 c3 -> same_setup c1 c3.
Proof. unfold same_setup. intuition congruence. Qed.

Lemma feed_ok e c : exists c', feed e c = Ok c' /\ same_setup c c' /\ received (sock c') = received (sock c) /\
  sock_aborted (up c') = sock_aborted (up c) /\ half_closed (up c') = half_closed (up c).
Proof.
  unfold feed, service_send. destruct (bool_decide (pending (up c) = [])) eqn:Hp; cbn [mbind res_bind negb andb].
  { by eexists. }
  destruct (can_send (sock c)); cbn [mbind res_bind]; [|by eexists].
  destruct (send_slice (sock c) (pending (up c))) as [n k'] eqn:Hs.
  pose proof (send_slice_received (sock c) (pending (up c))) as Hr. rewrite Hs in Hr. cbn [fst snd] in *.
  destruct (0 <? default 0 n) eqn:Hn; cbn [mbind res_bind]; [|by eexists].
  destruct n as [n|]; [|done]. apply send_slice_bound in Hs. cbn in *. zbool.
  rewrite slice_ok by lia. cbn [mbind res_bind]. rewrite slice_ok by lia. cbn [mbind res_bind]. by eexists.
Qed.

Lemma watch_ok e c : same_setup c (watch e c) /\ half_closed (up (watch e c)) = half_closed (up c) /\
  (sock_aborted (up (watch e c)) = false -> sock_aborted (up c) = false /\ sock (watch e c) = sock c) /\
  (sock (watch e c) = sock c \/ sock (watch e c) = sock_abort (sock c)).
Proof.
  unfold watch. destruct (service_liveness _ _ _ _) as [u flap] eqn:Hl.
  assert (half_closed u = half_closed (up c) /\ sock_aborted u = sock_aborted (up c)) as [H1 H2].
  { unfold service_liveness in Hl. repeat case_match; by simplify_eq. }
  destruct flap; cbn; (split; [done|]); (split; [done|]); (split; [|by auto]); [done|by rewrite H2].
Qed.

Lemma half_close_ok c : same_setup c (half_close c) /\ up (half_close c) = up c /\ received (sock (half_close c)) = received (sock c).
Proof. unfold half_close. zcase; cbn; [|done]. by rewrite close_received. Qed.

(** The app gets the bytes the socket received, in order, in chunks that are not
    empty. *)
Lemma deliver_ok r turns : forall i k vs k' stop, deliver turns i r k = (vs, k', stop) ->
  concat vs ++ received k' = received k /\ state k' = state k /\ Forall (fun v => v <> []) vs.
Proof.
  induction turns as [|turns IH]; intros i k vs k' stop; cbn [deliver]; [by intros [= <- <- <-]|].
  destruct (r i); [|by intros [= <- <- <-]..].
  destruct (can_recv k) eqn:Hc; cbn [negb]; [|by intros [= <- <- <-]].
  destruct (recv k) as [[v k1]|] eqn:Hr; [|by intros [= <- <- <-]].
  pose proof (recv_prefix _ _ _ Hr) as Hp. pose proof (recv_state _ _ _ Hr) as Hst.
  destruct v as [|b v]; [by intros [= <- <- <-]|].
  destruct (deliver turns (S i) r k1) as [[vs1 k2] stop1] eqn:Hd. apply IH in Hd as (H1 & H2 & H3).
  intros [= <- <- <-]. cbn [concat]. split; [by rewrite <- app_assoc, H1|]. split; [congruence|by constructor].
Qed.

Lemma deliver_gone r turns k : r 0%nat = RGone -> deliver (S turns) 0 r k = ([], k, AppGone).
Proof. intros H. cbn [deliver]. by rewrite H. Qed.

Lemma orphan_ok linger e c : let c' := orphan linger e c in
  connect_resp c' = connect_resp c /\ from_stack_rx c' = from_stack_rx c /\ established c' = established c /\
  connect_deadline c' = connect_deadline c /\ up c' = up c /\ orphaned_at c' = Some (default (now e) (orphaned_at c)) /\
  (aborted c' = false -> received (sock c') = received (sock c) /\ aborted c = false).
Proof. unfold orphan. zcase; cbn; [done|]. repeat (split; [done|]). intros ->. by rewrite close_received. Qed.

Lemma wind_up_ok c o acts : wind_up c = (o, acts) ->
  match o with
  | Some c' => acts = [] /\ same_setup c c' /\ received (sock c') = received (sock c) /\
               sock_aborted (up c') = sock_aborted (up c)
  | None => acts = [CreditClose; SockRemove] /\ established c = true /\ finished (state (sock c)) = true
  end.
Proof.
  unfold wind_up, finished. intros H. repeat case_bool_decide; cbn in *; try congruence; destruct (established c) eqn:He; cbn in *;
    simplify_eq; cbn; rewrite ?close_received; done.
Qed.

Lemma wind_up_closed c : state (sock c) = SClosed -> established c = true -> wind_up c = (None, [CreditClose; SockRemove]).
Proof. intros Hs He. unfold wind_up, finished. rewrite Hs. repeat case_bool_decide; try congruence. cbn. by rewrite He. Qed.

(** A pass over an established flow does not panic, and answers nobody; what it
    keeps is what it had, and what was delivered is what the socket received. *)
Lemma service_established_ok linger e c : established c = true -> aborted c = false ->
  exists o acts bp, service_established linger e c = Ok (o, acts, bp) /\ answers acts = [] /\
  match o with
  | Some c' =>
      connect_resp c' = connect_resp c /\ from_stack_rx c' = from_stack_rx c /\ established c' = true /\
      connect_deadline c' = connect_deadline c /\
      (aborted c' = false -> sock_aborted (up c') = false ->
        sock_aborted (up c) = false /\ delivered acts ++ received (sock c') = received (sock c)) /\
      (orphaned_at c' = orphaned_at c \/ orphaned_at c' = Some (default (now e) (orphaned_at c)))
  | None => exists acts', acts = acts' ++ [CreditClose; SockRemove]
  end.
Proof.
  intros He Ha. unfold service_established.
  destruct (feed_ok e c) as (c1 & -> & S1 & R1 & A1 & _). cbn [mbind res_bind].
  destruct (watch_ok e c1) as (S2 & _ & A2 & _), (half_close_ok (watch e c1)) as (S3 & U3 & R3).
  set (c3 := half_close (watch e c1)) in *.
  pose proof (same_setup_trans _ _ _ S1 (same_setup_trans _ _ _ S2 S3)) as (Q1 & Q2 & Q3 & Q4 & Q5 & Q6).
  destruct (deliver _ _ _ _) as [[vs k'] stop] eqn:Hd. apply deliver_ok in Hd as (D1 & D2 & _).
  set (c4 := match stop with AppGone => orphan linger e (set_sock c3 k') | _ => set_sock c3 k' end).
  assert (connect_resp c4 = connect_resp c /\ from_stack_rx c4 = from_stack_rx c /\ established c4 = true /\ connect_deadline c4 = connect_deadline c /\ up c4 = up c3 /\
    (aborted c4 = false -> received (sock c4) = received k') /\
    (orphaned_at c4 = orphaned_at c \/ orphaned_at c4 = Some (default (now e) (orphaned_at c)))) as (C1 & C2 & C3 & C7 & C4 & C5 & C6).
  { subst c4. destruct stop; cbn [connect_resp from_stack_rx established connect_deadline up sock orphaned_at set_sock]; try (rewrite Q1, Q2, Q3, Q4, Q6, He; by auto 10).
    destruct (orphan_ok linger e (set_sock c3 k')) as (O1 & O2 & O3 & O7 & O4 & O5 & O6). rewrite O1, O2, O3, O4, O5, O7. cbn.
    rewrite Q1, Q2, Q3, Q4, Q6, He. repeat (split; [done|]). split; [|by right]. intros H. by apply O6 in H as [? _]. }
  assert (sock_aborted (up c3) = false -> sock_aborted (up c) = false /\ received (sock c3) = received (sock c)) as Hab.
  { rewrite U3, R3. intros H. apply A2 in H as [H ->]. by rewrite A1 in H. }
  destruct (aborted c4) eqn:Ha4.
  - eexists _, _, _. split; [done|]. rewrite app_nil_r, answers_chunks, C1, C2, C3, C7, Ha4. by repeat (split; [done|]).
  - destruct (wind_up c4) as [o acts] eqn:Hw. apply wind_up_ok in Hw. eexists _, _, _. split; [done|].
    rewrite answers_app, answers_chunks, delivered_app, delivered_chunks. destruct o as [c5|].
    + destruct Hw as (-> & (W1 & W2 & W3 & W4 & W5 & W8) & W6 & W7). split; [done|]. rewrite W1, W2, W3, W4, W6, W7, W8, C1, C2, C3, C4, C5, C7 by done.
      repeat (split; [done|]). split; [|done]. intros _ Hs. destruct (Hab Hs) as [? <-]. split; [done|]. cbn. by rewrite app_nil_r, D1.
    + destruct Hw as (-> & _). split; [done|]. by eexists.
Qed.

(** A flow waits for its answer until it is established, and only then can it be an
    orphan. *)
Definition conn_wf c : Prop :=
  connect_resp c = negb (established c) /\ from_stack_rx c = negb (established c) /\
  (established c = false -> aborted c = false).

(** One pass over a flow: it does not panic, and the caller is answered when the
    flow is established or removed, once. *)
Lemma service_flow_ok linger e c : conn_wf c ->
  exists o acts bp, service_flow linger e c = Ok (o, acts, bp) /\
  match o with
  | Some c' =>
      conn_wf c' /\ (established c = true -> established c' = true) /\ aborted c = false /\ connect_deadline c' = connect_deadline c /\
      answers acts = (if negb (established c) && established c' then [Connected] else []) /\
      (aborted c' = false -> sock_aborted (up c') = false ->
        sock_aborted (up c) = false /\ delivered acts ++ received (sock c') = received (sock c)) /\
      (orphaned_at c' = orphaned_at c \/ orphaned_at c' = Some (default (now e) (orphaned_at c)))
  | None =>
      (exists acts', acts = acts' ++ [CreditClose; SockRemove]) /\
      exists r, answers acts = if established c then [] else [r]
  end.
Proof.
  intros (W1 & W2 & W3). unfold service_flow. destruct (aborted c) eqn:Ha.
  { eexists _, _, _. split; [done|]. split; [by exists []|]. destruct (established c); [by exists Connected|by specialize (W3 eq_refl)]. }
  destruct (establish c) as [c1 acts1] eqn:Hest. unfold establish in Hest.
  assert (established c1 = true -> connect_resp c1 = false /\ from_stack_rx c1 = false /\ aborted c1 = false /\ sock c1 = sock c /\
    up c1 = up c /\ orphaned_at c1 = orphaned_at c /\ connect_deadline c1 = connect_deadline c /\ acts1 = if established c then [] else [Answer Connected]) as H1.
  { destruct (established c) eqn:He; cbn in *; simplify_eq; [rewrite W1, W2, He; done|].
    destruct (connected _); simplify_eq; [|congruence]. by rewrite W1, W2. }
  destruct (established c1) eqn:He1.
  - destruct (H1 eq_refl) as (E1 & E2 & E3 & E4 & E5 & E6 & E7 & ->).
    destruct (service_established_ok linger e c1 He1 E3) as (o & acts & bp & -> & A & Ho). cbn [mbind res_bind].
    eexists _, _, _. split; [done|]. rewrite answers_app, delivered_app, A, app_nil_r, <- E4, <- E5, <- E6, <- E7. destruct o as [c2|].
    + destruct Ho as (O1 & O2 & O3 & O6 & O4 & O5). rewrite O3, O6. split; [unfold conn_wf; by rewrite O1, O2, O3, E1, E2|].
      by destruct (established c).
    + destruct Ho as [acts' ->]. split; [eexists; by rewrite app_assoc|]. destruct (established c); [by exists Connected|by eexists].
  - assert (established c = false /\ c1 = c /\ acts1 = []) as (He & -> & ->).
    { destruct (established c) eqn:He; cbn in Hest; simplify_eq; [congruence|]. destruct (connected _); by simplify_eq. }
    rewrite He in *. cbn [negb] in *. unfold answer. rewrite W1. destruct (finished _); [|zcase].
    + eexists _, _, _. split; [done|]. split; [by eexists [_]|by eexists].
    + eexists _, _, _. split; [done|]. split; [by eexists [_]|by eexists].
    + eexists _, _, _. split; [done|]. unfold conn_wf. rewrite ?He, ?Ha, ?W1, ?W2. repeat (split; [done|]). by left.
Qed.

(** ** The life of a flow *)

(** From [c] to [c'] by what the network does to its socket, what the uplink does to
    it and the passes that keep it; the actions of the passes, and what arrived. *)
Inductive life (linger : Z) : Conn -> Conn -> list Act -> bytes -> Prop :=
| life_nil c : life linger c c [] []
| life_poll c k data c' acts arrived :
    received k = received (sock c) ++ data ->
    life linger (set_sock c k) c' acts arrived -> life linger c c' acts (data ++ arrived)
| life_uplink c u c' acts arrived :
    sock_aborted u = sock_aborted (up c) ->
    life linger (set_up c u) c' acts arrived -> life linger c c' acts arrived
| life_service c e c1 acts bp c' acts' arrived :
    service_flow linger e c = Ok (Some c1, acts, bp) ->
    life linger c1 c' acts' arrived -> life linger c c' (acts ++ acts') arrived.

Lemma service_flow_Some linger e c c1 acts bp : conn_wf c -> service_flow linger e c = Ok (Some c1, acts, bp) ->
  conn_wf c1 /\ (established c = true -> established c1 = true) /\ aborted c = false /\ connect_deadline c1 = connect_deadline c /\
  answers acts = (if negb (established c) && established c1 then [Connected] else []) /\
  (aborted c1 = false -> sock_aborted (up c1) = false ->
    sock_aborted (up c) = false /\ delivered acts ++ received (sock c1) = received (sock c)) /\
  (orphaned_at c1 = orphaned_at c \/ orphaned_at c1 = Some (default (now e) (orphaned_at c))).
Proof. intros Hw Hs. destruct (service_flow_ok linger e c Hw) as (o & a & b & H & Ho). rewrite Hs in H. by simplify_eq. Qed.

Lemma life_ok linger c c' acts arrived : life linger c c' acts arrived -> conn_wf c ->
  conn_wf c' /\ (established c = true -> established c' = true) /\
  (aborted c = true -> aborted c' = true) /\ connect_deadline c' = connect_deadline c /\
  answers acts = (if negb (established c) && established c' then [Connected] else []) /\
  (aborted c' = false -> sock_aborted (up c') = false ->
    sock_aborted (up c) = false /\ delivered acts ++ received (sock c') = received (sock c) ++ arrived) /\
  (forall t, orphaned_at c = Some t -> orphaned_at c' = Some t).
Proof.
  induction 1 as [c|c k data c' acts arr Hr Hl IH|c u c' acts arr Hu Hl IH|c e c1 a bp c' acts arr Hs Hl IH]; intros Hw.
  - rewrite andb_comm, andb_negb_r. cbn. by rewrite app_nil_r.
  - destruct (IH Hw) as (H1 & H2 & H3 & H7 & H4 & H5 & H6). repeat (split; [done|]). split; [|done].
    intros Ha Hs. destruct (H5 Ha Hs) as [? E]. split; [done|]. by rewrite E, app_assoc, <- Hr.
  - destruct (IH Hw) as (H1 & H2 & H3 & H7 & H4 & H5 & H6). repeat (split; [done|]). split; [|done].
    intros Ha Hs. destruct (H5 Ha Hs) as [? E]. split; [by rewrite <- Hu|done].
  - apply service_flow_Some in Hs as (S1 & S2 & S3 & S7 & S4 & S5 & S6); [|done].
    destruct (IH S1) as (H1 & H2 & H3 & H7 & H4 & H5 & H6). split; [done|]. split; [by auto|]. split; [congruence|]. split; [congruence|].
    split; [|split].
    + rewrite answers_app, S4, H4. destruct (established c), (established c1), (established c') eqn:Hc'; try done.
      * by specialize (S2 eq_refl).
      * by specialize (H2 eq_refl).
    + intros Ha Hs. destruct (H5 Ha Hs) as [Hs1 E]. assert (aborted c1 = false) as Ha1 by (destruct (aborted c1); [by rewrite H3 in Ha|done]).
      destruct (S5 Ha1 Hs1) as [? E1]. split; [done|]. by rewrite delivered_app, <- app_assoc, E, app_assoc, E1.
    + intros t Ht. rewrite Ht in S6. apply H6. by destruct S6 as [->| ->].
Qed.

Lemma new_conn_wf carrier t limits k : conn_wf (new_conn carrier t limits k).
Proof. done. Qed.

(** C17.  A connect is answered once: whatever the network does, its caller has one answer
    when the flow is established or removed, none before, and once the deadline has
    passed or the caller is gone the next pass settles it. *)
Theorem connect_answered_once carrier t limits k c acts arrived e :
  life (orphan_linger limits) (new_conn carrier t limits k) c acts arrived ->
  answers acts = (if established c then [Connected] else []) /\
  exists o acts' bp, service_flow (orphan_linger limits) e c = Ok (o, acts', bp) /\
    (o = None -> exists r, answers (acts ++ acts') = [r]) /\
    (caller_gone e = true \/ t + connect limits <= now e -> exists r, answers (acts ++ acts') = [r]).
Proof.
  intros Hl. destruct (life_ok _ _ _ _ _ Hl (new_conn_wf _ _ _ _)) as (Hw & _ & _ & Hd & Ha & _). cbn in Ha, Hd.
  split; [done|]. destruct (service_flow_ok (orphan_linger limits) e c Hw) as (o & acts' & bp & Hs & Ho).
  exists o, acts', bp. split; [done|]. rewrite answers_app, Ha. split.
  - intros ->. destruct Ho as (_ & r & ->). destruct (established c); [by exists Connected|by exists r].
  - intros Hlate. destruct o as [c'|].
    + destruct Ho as (_ & Hmono & Hab & _ & -> & _). destruct (established c) eqn:He.
      { cbn. by exists Connected. }
      destruct (established c') eqn:He'; [by exists Connected|]. exfalso. clear -laws Hs He He' Hlate Hab Hd Hw.
      unfold service_flow, establish in Hs. rewrite Hab, He in Hs. cbn in Hs. destruct (connected _).
      { cbn [established] in Hs. apply res_bind_Ok in Hs as ([[? ?] ?] & Hs & [= -> <- <-]).
        edestruct service_established_ok as (? & ? & ? & Hs' & _ & Ho); [| |rewrite Hs in Hs'; simplify_eq; by destruct Ho as (_ & _ & ? & _); congruence]; done. }
      rewrite He in Hs. destruct (finished _); [done|]. destruct (_ || _) eqn:Hb; [done|].
      zbool. rewrite Hd in *. destruct Hlate; [congruence|lia].
    + destruct Ho as (_ & r & ->). destruct (established c); [by exists Connected|by exists r].
Qed.

(** C6.  What the app was handed, then what its socket still holds, is what the socket
    received, in order. *)
Theorem downlink_in_order linger c c' acts arrived :
  conn_wf c -> life linger c c' acts arrived -> aborted c' = false -> sock_aborted (up c') = false ->
  delivered acts ++ received (sock c') = received (sock c) ++ arrived.
Proof. intros Hw Hl Ha Hs. by apply (life_ok _ _ _ _ _ Hl Hw). Qed.

(** A pass that finds the app gone delivers nothing, remembers when it was gone first,
    and resets the flow once it lingered. *)
Lemma service_gone linger e c c' acts bp :
  conn_wf c -> established c = true -> reserve_app e 0%nat = RGone ->
  service_flow linger e c = Ok (Some c', acts, bp) ->
  orphaned_at c' = Some (default (now e) (orphaned_at c)) /\
  (default (now e) (orphaned_at c) + linger <= now e -> aborted c' = true).
Proof.
  intros (W1 & W2 & W3) He Hg. unfold service_flow, establish. destruct (aborted c) eqn:Ha; [done|]. rewrite He. cbn [negb andb]. rewrite He.
  intros ([[o a] b] & Hs & [= -> <- <-])%res_bind_Ok. unfold service_established in Hs.
  destruct (feed_ok e c) as (c1 & Hf & S1 & _). rewrite Hf in Hs. cbn [mbind res_bind] in Hs.
  destruct (watch_ok e c1) as (S2 & _), (half_close_ok (watch e c1)) as (S3 & _). set (c3 := half_close (watch e c1)) in *.
  destruct (same_setup_trans _ _ _ S1 (same_setup_trans _ _ _ S2 S3)) as (_ & _ & _ & Q4 & Q5 & _).
  change MAX_RECV_CHUNKS with (S 127) in Hs. rewrite deliver_gone in Hs by done. cbn [map app] in Hs.
  destruct (orphan_ok linger e (set_sock c3 (sock c3))) as (_ & _ & _ & _ & _ & O5 & _). cbn in O5. rewrite Q4 in O5.
  set (c4 := orphan linger e (set_sock c3 (sock c3))) in *.
  assert (default (now e) (orphaned_at c) + linger <= now e -> aborted c4 = true) as H4.
  { intros Hl. subst c4. unfold orphan. cbn [orphaned_at set_sock sock]. rewrite Q4, (proj2 (Z.leb_le linger _)) by (unfold saturating_sub; lia).
    by rewrite orb_true_r. }
  destruct (aborted c4) eqn:Ha4; [by simplify_eq|]. destruct (wind_up c4) as [o acts'] eqn:Hw. apply wind_up_ok in Hw. simplify_eq.
  destruct Hw as (_ & (_ & _ & _ & -> & -> & _) & _). split; [done|]. intros H. by rewrite H4 in Ha4.
Qed.

Lemma service_aborted linger e c : aborted c = true -> service_flow linger e c = Ok (None, [CreditClose; SockRemove], false).
Proof. intros H. unfold service_flow. by rewrite H. Qed.

(** A flow whose app is gone does not stay: whatever the network does meanwhile, a pass
    after its linger removes it or resets it, and a flow that was reset is removed by the
    next pass. *)
Theorem orphan_is_removed linger c e1 c1 acts1 bp1 c2 acts arrived e2 :
  conn_wf c -> established c = true -> orphaned_at c = None ->
  reserve_app e1 0%nat = RGone -> service_flow linger e1 c = Ok (Some c1, acts1, bp1) ->
  life linger c1 c2 acts arrived ->
  reserve_app e2 0%nat = RGone -> now e1 + linger <= now e2 ->
  exists o acts2 bp2, service_flow linger e2 c2 = Ok (o, acts2, bp2) /\
    forall c3, o = Some c3 -> forall c4 acts' arrived' e3, life linger c3 c4 acts' arrived' ->
      service_flow linger e3 c4 = Ok (None, [CreditClose; SockRemove], false).
Proof.
  intros Hw He Ho Hg1 Hs1 Hl Hg2 Ht. destruct (service_gone _ _ _ _ _ _ Hw He Hg1 Hs1) as [Ho1 _]. rewrite Ho in Ho1. cbn in Ho1.
  apply service_flow_Some in Hs1 as (Hw1 & Hm1 & _); [|done].
  destruct (life_ok _ _ _ _ _ Hl Hw1) as (Hw2 & Hm2 & _ & _ & _ & _ & Ho2). specialize (Ho2 _ Ho1).
  destruct (service_flow_ok linger e2 c2 Hw2) as (o & acts2 & bp2 & Hs2 & _). exists o, acts2, bp2. split; [done|].
  intros c3 -> c4 acts' arrived' e3 Hl'. apply service_aborted.
  destruct (service_gone _ _ _ _ _ _ Hw2 (Hm2 (Hm1 He)) Hg2 Hs2) as [_ Hr]. rewrite Ho2 in Hr. cbn in Hr.
  apply service_flow_Some in Hs2 as (Hw3 & _); [|done]. apply (life_ok _ _ _ _ _ Hl' Hw3). by apply Hr.
Qed.

(** A flow whose connection has finished while the app is behind is removed with what its
    socket holds for the app: a download whose reader is slow loses its end. *)
Theorem finished_flow_drops_received linger e c :
  established c = true -> aborted c = false -> pending (up c) = [] -> half_closed (up c) = false ->
  state (sock c) = SClosed -> send_queue (sock c) = 0 -> reserve_app e 0%nat = RFull ->
  service_flow linger e c = Ok (None, [CreditClose; SockRemove], true).
Proof.
  intros He Ha Hp Hh Hst Hq Hf. unfold service_flow, establish. rewrite Ha, He. cbn [negb andb]. rewrite He.
  unfold service_established, feed, service_send. rewrite Hp. cbn [mbind res_bind bool_decide negb andb].
  rewrite bool_decide_eq_true_2 by done. cbn [mbind res_bind negb andb]. unfold watch, service_liveness. cbn [sock set_sock set_up up].
  rewrite Hq. cbn [Z.eqb orb]. unfold half_close. cbn [up set_up half_closed sock set_sock]. rewrite Hh. cbn [andb].
  change MAX_RECV_CHUNKS with (S 127). cbn [deliver]. rewrite Hf. cbn [aborted set_sock set_up]. rewrite Ha.
  rewrite wind_up_closed by done. by rewrite bool_decide_eq_true_2.
Qed.

End flow_proofs.

(** ** Addresses *)

Definition routable_v4 (o : option (Z * Z)) : option (Z * Z) := '(ip, p) ← o; Some (ip, routable_prefix_v4 p).
Definition routable_v6 (o : option (Z * Z)) : option (Z * Z) := '(ip, p) ← o; Some (ip, routable_prefix_v6 p).

Definition prefix_ok (o : option (Z * Z)) : Prop := match o with Some (_, p) => 0 <= p <= U8_MAX | None => True end.

(** An address that the interface may be given. *)
Definition unicast_v4 `{smol : Smol} (o : option (Z * Z)) : Prop := match o with Some (ip, _) => is_unicast (V4 ip) = true | None => True end.
Definition unicast_v6 `{smol : Smol} (o : option (Z * Z)) : Prop := match o with Some (ip, _) => is_unicast (V6 ip) = true | None => True end.

(** At most one address of each family, unicast, with a prefix that leaves room for a gateway,
    through which the default route of its family goes. *)
Definition iface_wf `{smol : Smol} (i : Interface) : Prop :=
  exists v4 v6, unicast_v4 v4 /\ unicast_v6 v6 /\ ip_addrs i = match v4 with Some (ip, p) => [(V4 ip, p)] | None => [] end ++
                             match v6 with Some (ip, p) => [(V6 ip, p)] | None => [] end /\
    match v4 with Some (ip, p) => 0 <= p <= 30 /\ route_v4 i = Some (gateway_v4 ip) | None => True end /\
    match v6 with Some (ip, p) => 0 <= p <= 126 /\ route_v6 i = Some (gateway_v6 ip) | None => True end.

Lemma current_addrs_wf `{smol : Smol} i : iface_wf i ->
  unicast_v4 (current_addrs i).1 /\ unicast_v6 (current_addrs i).2 /\
  match (current_addrs i).1 with Some (ip, p) => 0 <= p <= 30 /\ route_v4 i = Some (gateway_v4 ip) | None => True end /\
  match (current_addrs i).2 with Some (ip, p) => 0 <= p <= 126 /\ route_v6 i = Some (gateway_v6 ip) | None => True end.
Proof. intros (v4 & v6 & U4 & U6 & Ha & H4 & H6). unfold current_addrs. rewrite Ha. by destruct v4 as [[? ?]|], v6 as [[? ?]|]. Qed.

Lemma IpCidr_new_v4 {E} ip p : 0 <= p <= U8_MAX -> @IpCidr_new E (V4 ip) (routable_prefix_v4 p) = Ok (V4 ip, routable_prefix_v4 p).
Proof. unfold IpCidr_new, routable_prefix_v4. intros. repeat zcase; try done; lia. Qed.
Lemma IpCidr_new_v6 {E} ip p : 0 <= p <= U8_MAX -> @IpCidr_new E (V6 ip) (routable_prefix_v6 p) = Ok (V6 ip, routable_prefix_v6 p).
Proof. unfold IpCidr_new, routable_prefix_v6. intros. repeat zcase; try done; lia. Qed.

(** Setting unicast addresses never panics, whatever the prefixes; the interface then has what
    was given, made routable, and keeps the routes of a family that was not given. *)
Lemma apply_addrs_ok `{smol : Smol} {E} i v4 v6 : prefix_ok v4 -> prefix_ok v6 -> unicast_v4 v4 -> unicast_v6 v6 ->
  exists i', @apply_addrs smol E i v4 v6 = Ok i' /\ iface_wf i' /\ current_addrs i' = (routable_v4 v4, routable_v6 v6) /\
    route_v4 i' = match v4 with Some (ip, _) => Some (gateway_v4 ip) | None => route_v4 i end /\
    route_v6 i' = match v6 with Some (ip, _) => Some (gateway_v6 ip) | None => route_v6 i end.
Proof.
  intros H4 H6 U4 U6. unfold apply_addrs, update_ip_addrs.
  assert (forall ip p, v4 = Some (ip, p) -> 0 <= routable_prefix_v4 p <= 30) as B4.
  { intros ip p ->. unfold routable_prefix_v4. cbn in H4. zcase; lia. }
  assert (forall ip p, v6 = Some (ip, p) -> 0 <= routable_prefix_v6 p <= 126) as B6.
  { intros ip p ->. unfold routable_prefix_v6. cbn in H6. zcase; lia. }
  destruct v4 as [[i4 p4]|], v6 as [[i6 p6]|]; cbn [prefix_ok] in *; rewrite ?IpCidr_new_v4, ?IpCidr_new_v6 by done; cbn [mbind res_bind];
    cbn [app forallb fst]; cbn [unicast_v4 unicast_v6] in U4, U6; rewrite ?U4, ?U6; cbn [andb mbind res_bind];
    (eexists; split; [done|]; split; [|done]).
  - exists (Some (i4, routable_prefix_v4 p4)), (Some (i6, routable_prefix_v6 p6)). do 3 (split; [done|]). split; [split; [by eapply B4|done]|split; [by eapply B6|done]].
  - exists (Some (i4, routable_prefix_v4 p4)), None. do 3 (split; [done|]). split; [split; [by eapply B4|done]|done].
  - exists None, (Some (i6, routable_prefix_v6 p6)). do 3 (split; [done|]). split; [done|split; [by eapply B6|done]].
  - by exists None, None.
Qed.

(** Another address panics. *)
Lemma apply_addrs_panics `{smol : Smol} {E} i v4 v6 : prefix_ok v4 -> prefix_ok v6 -> ~ (unicast_v4 v4 /\ unicast_v6 v6) -> @apply_addrs smol E i v4 v6 = Panic.
Proof.
  intros H4 H6 Hn. unfold apply_addrs, update_ip_addrs.
  destruct v4 as [[i4 p4]|], v6 as [[i6 p6]|]; cbn [prefix_ok] in *; rewrite ?IpCidr_new_v4, ?IpCidr_new_v6 by done; cbn [mbind res_bind];
    cbn [app forallb fst]; cbn [unicast_v4 unicast_v6] in Hn; try (destruct (is_unicast (V4 i4))); try (destruct (is_unicast (V6 i6))); cbn; try done; exfalso; by apply Hn.
Qed.

Lemma apply_addrs_unicast `{smol : Smol} {E} i v4 v6 i' :
  prefix_ok v4 -> prefix_ok v6 -> @apply_addrs smol E i v4 v6 = Ok i' -> unicast_v4 v4 /\ unicast_v6 v6.
Proof.
  intros H4 H6 Hi. assert (Decision (unicast_v4 v4 /\ unicast_v6 v6)) as Hd by (unfold unicast_v4, unicast_v6; destruct v4 as [[? ?]|], v6 as [[? ?]|]; apply _).
  destruct Hd as [|Hn]; [done|]. by rewrite apply_addrs_panics in Hi.
Qed.

(** The gateway is an address other than the interface's own. *)
Lemma gateway_v4_other ip : 0 <= ip <= U32_MAX -> gateway_v4 ip <> ip.
Proof.
  intros H E. pose proof (v4_new_octets ip H) as Hi. unfold gateway_v4 in E. rewrite <- Hi in E at 5.
  unfold v4_new, be_combine in E. cbn in E. destruct (octet ip 3 =? 1) eqn:E3; zbool; lia.
Qed.

(** ** The stack *)

Section stack_proofs.
Context `{smol : Smol, laws : !SmolLaws smol}.
Variable open_socket : Interface -> SocketAddr -> Z -> bytes + Socket.
Variable bind_socket : Z -> bytes + UdpSocket.
Variable tcp_buf : Z.
Implicit Types (s : Stack) (c : Conn).

(** Identifiers are below the next one and used once, ports stay in their range, every
    flow waits for its answer until it is established, the interface is well formed. *)
Definition stack_wf s : Prop :=
  (forall id c, conns s !! id = Some c -> 1 <= id < next_id s /\ conn_wf c) /\
  (forall id u, udps s !! id = Some u -> 1 <= id < next_id s) /\
  (forall id, conns s !! id = None \/ udps s !! id = None) /\
  1 <= next_id s /\ 49152 <= next_port s <= 65000 /\ iface_wf (iface s).

Definition cmd_wf (cmd : Cmd) : Prop :=
  match cmd with SetAddrs v4 v6 => (prefix_ok v4 /\ prefix_ok v6) /\ (unicast_v4 v4 /\ unicast_v6 v6) | _ => True end.

Lemma alloc_port_range p port next : 49152 <= p <= 65000 -> alloc_port p = (port, next) -> port = p /\ 49152 <= next <= 65000.
Proof. unfold alloc_port. intros H [= <- <-]. split; [done|]. zcase; lia. Qed.

(** Keeping some flows and sockets, each well formed, keeps the stack well formed. *)
Lemma stack_wf_sub s s' :
  stack_wf s ->
  (forall id c', conns s' !! id = Some c' -> exists c, conns s !! id = Some c /\ (conn_wf c -> conn_wf c')) ->
  (forall id u', udps s' !! id = Some u' -> exists u, udps s !! id = Some u) ->
  next_id s' = next_id s -> next_port s' = next_port s -> iface s' = iface s ->
  stack_wf s'.
Proof.
  intros (H1 & H2 & H3 & H4 & H5 & H6) Hc Hu Hi Hp Hf. unfold stack_wf. rewrite Hi, Hp, Hf.
  split; [|split; [|split; [|done]]].
  - intros id c' (c & Hcc & Hw)%Hc. destruct (H1 _ _ Hcc). by auto.
  - intros id u' (u & Hcu)%Hu. by eapply H2.
  - intros id. destruct (conns s' !! id) as [c'|] eqn:Ec; [|by left]. destruct (udps s' !! id) as [u'|] eqn:Eu; [|by right].
    apply Hc in Ec as (c & Ec & _). apply Hu in Eu as (u & Eu). destruct (H3 id); congruence.
Qed.

Lemma handle_cmd_ok t s cmd : stack_wf s -> cmd_wf cmd ->
  exists s' rs, handle_cmd open_socket bind_socket t s cmd = Ok (s', rs) /\ stack_wf s'.
Proof.
  intros Hw Hc. pose proof Hw as (H1 & H2 & H3 & H4 & H5 & H6). destruct cmd as [dst carrier| |v4 v6]; cbn [handle_cmd].
  - destruct (alloc_port (next_port s)) as [port next] eqn:Hp. apply alloc_port_range in Hp as [-> Hn]; [|done].
    destruct (open_socket _ _ _) as [e|k]; eexists _, _; (split; [done|]); unfold stack_wf; cbn; [done|].
    split; [|split; [|split; [|split; [lia|done]]]].
    + intros id c [[<- <-]|[Hne Hl]]%lookup_insert_Some; [split; [lia|apply new_conn_wf]|]. destruct (H1 _ _ Hl). split; [lia|done].
    + intros id u Hl. pose proof (H2 _ _ Hl). lia.
    + intros id. destruct (decide (id = next_id s)) as [->|Hne]; [|rewrite lookup_insert_ne by done; apply H3].
      right. destruct (udps s !! next_id s) eqn:E; [|done]. pose proof (H2 _ _ E). lia.
  - destruct (alloc_port (next_port s)) as [port next] eqn:Hp. apply alloc_port_range in Hp as [-> Hn]; [|done].
    destruct (bind_socket _) as [e|k]; eexists _, _; (split; [done|]); unfold stack_wf; cbn; [done|].
    split; [|split; [|split; [|split; [lia|done]]]].
    + intros id c Hl. destruct (H1 _ _ Hl). split; [lia|done].
    + intros id u [[<- <-]|[Hne Hl]]%lookup_insert_Some; [lia|]. pose proof (H2 _ _ Hl). lia.
    + intros id. destruct (decide (id = next_id s)) as [->|Hne]; [|rewrite lookup_insert_ne by done; apply H3].
      left. destruct (conns s !! next_id s) eqn:E; [|done]. destruct (H1 _ _ E). lia.
  - destruct (current_addrs (iface s)) as [c4 c6] eqn:Hcur. destruct Hc as [[P4 P6] [U4 U6]]. pose proof (current_addrs_wf _ H6) as (C4 & C6 & W4 & W6). rewrite Hcur in W4, W6, C4, C6.
    destruct (@apply_addrs_ok smol unit (iface s) (match v4 with Some _ => v4 | None => c4 end) (match v6 with Some _ => v6 | None => c6 end))
      as (i' & -> & Hi & _).
    + unfold U8_MAX in *. destruct v4; [done|]. destruct c4 as [[? ?]|]; [|done]. cbn in *. unfold U8_MAX. lia.
    + destruct v6; [done|]. destruct c6 as [[? ?]|]; [|done]. cbn in *. unfold U8_MAX. lia.
    + by destruct v4.
    + by destruct v6.
    + cbn [mbind res_bind]. eexists _, _. split; [done|]. by unfold stack_wf; cbn.
Qed.

Lemma set_addrs_panics t s v4 v6 : stack_wf s -> prefix_ok v4 -> prefix_ok v6 -> ~ (unicast_v4 v4 /\ unicast_v6 v6) ->
  handle_cmd open_socket bind_socket t s (SetAddrs v4 v6) = Panic.
Proof.
  intros (_ & _ & _ & _ & _ & H6) P4 P6 Hn. cbn [handle_cmd]. pose proof (current_addrs_wf _ H6) as (C4 & C6 & W4 & W6).
  destruct (current_addrs (iface s)) as [c4 c6] eqn:Hcur. cbn [fst snd] in *. rewrite apply_addrs_panics; [done|..].
  - destruct v4; [done|]. destruct c4 as [[? ?]|]; [|done]. cbn in *. unfold U8_MAX. lia.
  - destruct v6; [done|]. destruct c6 as [[? ?]|]; [|done]. cbn in *. unfold U8_MAX. lia.
  - intros [U4 U6]. apply Hn. by destruct v4, v6.
Qed.

(** [SetAddrs] replaces the families it names, and only them. *)
Theorem set_addrs_keeps_other_family t s v4 v6 s' rs :
  stack_wf s -> prefix_ok v4 -> prefix_ok v6 ->
  handle_cmd open_socket bind_socket t s (SetAddrs v4 v6) = Ok (s', rs) ->
  rs = [] /\ conns s' = conns s /\ udps s' = udps s /\
  current_addrs (iface s') =
    (match v4 with Some _ => routable_v4 v4 | None => (current_addrs (iface s)).1 end,
     match v6 with Some _ => routable_v6 v6 | None => (current_addrs (iface s)).2 end) /\
  (v4 = None -> route_v4 (iface s') = route_v4 (iface s)) /\ (v6 = None -> route_v6 (iface s') = route_v6 (iface s)).
Proof.
  intros (_ & _ & _ & _ & _ & H6) P4 P6. cbn [handle_cmd]. pose proof (current_addrs_wf _ H6) as (_ & _ & W4 & W6).
  destruct (current_addrs (iface s)) as [c4 c6] eqn:Hcur. cbn [fst snd] in *.
  assert (prefix_ok (match v4 with Some _ => v4 | None => c4 end)) as Q4 by (destruct v4; [done|]; destruct c4 as [[? ?]|]; [|done]; cbn in *; unfold U8_MAX; lia).
  assert (prefix_ok (match v6 with Some _ => v6 | None => c6 end)) as Q6 by (destruct v6; [done|]; destruct c6 as [[? ?]|]; [|done]; cbn in *; unfold U8_MAX; lia).
  destruct (@apply_addrs smol unit _ _ _) as [i'| |] eqn:Hi; [|done|done]. destruct (apply_addrs_unicast _ _ _ _ Q4 Q6 Hi) as [U4 U6].
  destruct (@apply_addrs_ok smol unit (iface s) _ _ Q4 Q6 U4 U6) as (i1 & Hi1 & _ & Hcur' & R4 & R6). rewrite Hi in Hi1. injection Hi1 as <-.
  - cbn [mbind res_bind]. intros [= <- <-]. cbn [conns udps iface]. split; [done|]. split; [done|]. split; [done|]. split; [|split].
    + rewrite Hcur'. f_equal.
      * destruct v4; [done|]. destruct c4 as [[i p]|]; [|done]. cbn in *. unfold routable_prefix_v4. zcase; [lia|done].
      * destruct v6; [done|]. destruct c6 as [[i p]|]; [|done]. cbn in *. unfold routable_prefix_v6. zcase; [lia|done].
    + intros ->. rewrite R4. destruct c4 as [[i p]|]; [|done]. by destruct W4 as [_ ->].
    + intros ->. rewrite R6. destruct c6 as [[i p]|]; [|done]. by destruct W6 as [_ ->].
Qed.

(** What a pass makes of a flow, on its own. *)
Definition served (linger : Z) (e : Env) (c : Conn) : option Conn :=
  match service_flow linger e c with Ok (o, _, _) => o | _ => Some c end.

Lemma served_wf linger e c c' : conn_wf c -> served linger e c = Some c' -> conn_wf c'.
Proof.
  intros Hw. unfold served. destruct (service_flow_ok linger e c Hw) as (o & acts & bp & -> & Ho). intros ->. apply Ho.
Qed.

(** The pass over all flows does to each what it does to that flow alone. *)
Lemma service_ids_ok env ids : forall s, stack_wf s -> NoDup ids ->
  exists s' acts bp, service_ids env s ids = Ok (s', acts, bp) /\ s' = set_conns s (conns s') /\
    forall id, conns s' !! id =
      c ← conns s !! id; if decide (id ∈ ids) then served (orphan_linger (limits s)) (env id) c else Some c.
Proof.
  induction ids as [|i ids IH]; intros s Hw Hnd; cbn [service_ids].
  { eexists _, _, _. split; [done|]. split; [by destruct s|]. intros id. destruct (_ !! _); [|done]. cbn [mbind option_bind]. by rewrite decide_False by apply not_elem_of_nil. }
  apply NoDup_cons in Hnd as [Hni Hnd]. destruct (conns s !! i) as [c|] eqn:Hc.
  - destruct (proj1 Hw _ _ Hc) as [_ Hcw]. destruct (service_flow_ok (orphan_linger (limits s)) (env i) c Hcw) as (o & acts & bp & Hs & Ho).
    assert (served (orphan_linger (limits s)) (env i) c = o) as Hsv by (unfold served; by rewrite Hs).
    rewrite Hs. cbn [mbind res_bind]. set (m := match o with Some c => <[i := c]> (conns s) | None => delete i (conns s) end).
    assert (forall id, m !! id = if decide (id = i) then o else conns s !! id) as Hm.
    { intros id. subst m. case_decide as Hd; [subst id|]; destruct o as [c'|]; rewrite ?lookup_insert_eq, ?lookup_delete_eq, ?lookup_insert_ne, ?lookup_delete_ne; by auto. }
    destruct (IH (set_conns s m)) as (s' & acts' & bp' & -> & Heq & Hl); [|done|].
    { eapply (stack_wf_sub s); [done| |by eauto|done..]. cbn. intros id c'. rewrite Hm. case_decide as Hd; [|by eauto].
      subst id. intros ->. exists c. split; [done|]. intros _. by eapply served_wf. }
    cbn [mbind res_bind]. eexists _, _, _. split; [done|]. split; [rewrite Heq; by destruct s|]. intros id. rewrite Hl. cbn [conns set_conns limits].
    rewrite Hm. destruct (decide (id = i)) as [->|Hne].
    + rewrite Hc. cbn [mbind option_bind]. rewrite decide_True by left. rewrite Hsv. destruct o; [|done]. cbn [mbind option_bind]. by rewrite decide_False.
    + destruct (conns s !! id); [|done]. cbn [mbind option_bind]. destruct (decide (id ∈ ids)).
      * by rewrite decide_True by (by right).
      * rewrite decide_False; [done|]. by intros [->|?]%elem_of_cons.
  - destruct (IH s Hw Hnd) as (s' & acts' & bp' & -> & Heq & Hl). eexists _, _, _. split; [done|]. split; [done|].
    intros id. rewrite Hl. destruct (decide (id = i)) as [->|Hne]; [by rewrite Hc|]. destruct (conns s !! id); [|done]. cbn.
    destruct (decide (id ∈ ids)).
    + by rewrite decide_True by (by right).
    + rewrite decide_False; [done|]. by intros [->|?]%elem_of_cons.
Qed.

Lemma keys_elem {A} (m : gmap Z A) id : id ∈ (map_to_list m).*1 <-> is_Some (m !! id).
Proof.
  rewrite list_elem_of_fmap. split.
  - intros ([i x] & -> & Hin%elem_of_map_to_list). by eexists.
  - intros [x Hx]. exists (id, x). split; [done|]. by apply elem_of_map_to_list.
Qed.

Lemma service_tcp_ok env s : stack_wf s ->
  exists s' acts bp, service_tcp env s = Ok (s', acts, bp) /\ stack_wf s' /\ s' = set_conns s (conns s') /\
    forall id, conns s' !! id = c ← conns s !! id; served (orphan_linger (limits s)) (env id) c.
Proof.
  intros Hw. destruct (service_ids_ok env (map_to_list (conns s)).*1 s Hw (NoDup_fst_map_to_list _)) as (s' & acts & bp & Hs & Heq & Hl).
  exists s', acts, bp. split; [done|]. assert (forall id, conns s' !! id = c ← conns s !! id; served (orphan_linger (limits s)) (env id) c) as Hl'.
  { intros id. rewrite Hl. destruct (conns s !! id) eqn:Hc; [|done]. cbn [mbind option_bind]. by rewrite decide_True by (apply keys_elem; by rewrite Hc). }
  split; [|done]. eapply (stack_wf_sub s); [done| | |by rewrite Heq..].
  - intros id c'. rewrite Hl'. intros (c & Hc & Hs')%bind_Some. exists c. split; [done|]. intros Hcw. by eapply served_wf.
  - rewrite Heq. cbn. by eauto.
Qed.

Lemma service_udp_ids_ok env ids : forall s,
  let '(s', _, _) := service_udp_ids env s ids in
  s' = set_udps s (udps s') /\ forall id u', udps s' !! id = Some u' -> exists u, udps s !! id = Some u.
Proof.
  induction ids as [|i ids IH]; intros s; cbn [service_udp_ids]; [split; [by destruct s|by eauto]|].
  destruct (udps s !! i) as [u|] eqn:Hu; [|apply IH]. destruct (deliver_udp _ _ _ _) as [[ds u1] stop].
  set (m := match stop with AppGone => delete i (udps s) | _ => <[i := u1]> (udps s) end).
  specialize (IH (set_udps s m)). destruct (service_udp_ids env (set_udps s m) ids) as [[s' out] bp]. destruct IH as [Heq Hl].
  split; [rewrite Heq; by destruct s|]. intros id u' Hl'. apply Hl in Hl' as (u2 & Hl'). cbn in Hl'. subst m.
  destruct (decide (id = i)) as [->|Hne]; [by exists u|]. destruct stop; rewrite ?lookup_insert_ne, ?lookup_delete_ne in Hl' by done; by eauto.
Qed.

Lemma service_udp_wf env s : stack_wf s -> let '(s', _, _) := service_udp env s in stack_wf s'.
Proof.
  intros Hw. unfold service_udp. pose proof (service_udp_ids_ok env (map_to_list (udps s)).*1 s) as H.
  destruct (service_udp_ids _ _ _) as [[s' out] bp]. destruct H as [Heq Hl].
  eapply (stack_wf_sub s); [done| |done|by rewrite Heq..]. rewrite Heq. cbn. by eauto.
Qed.

Lemma put_uplink_wf s n : stack_wf s -> stack_wf (put_uplink s n).
Proof.
  intros Hw. eapply (stack_wf_sub s); [done| | |done..]; cbn.
  - intros id c'. rewrite map_lookup_imap. intros (c & Hc & Hf)%bind_Some. exists c. split; [done|]. intros Hcw.
    by case_match; simplify_eq.
  - intros id u' [Hu _]%map_lookup_filter_Some. by eexists.
Qed.

Lemma poll_wf p s : stack_wf s -> stack_wf (poll p s).
Proof.
  intros Hw. eapply (stack_wf_sub s); [done| | |done..]; cbn.
  - intros id c'. rewrite map_lookup_imap. intros (c & Hc & [= <-])%bind_Some. by exists c.
  - intros id u'. rewrite map_lookup_imap. intros (u & Hu & _)%bind_Some. by exists u.
Qed.

Lemma set_device_wf s d : stack_wf s -> stack_wf (set_device s d).
Proof. intros Hw. by eapply (stack_wf_sub s); [done|eauto..]. Qed.

Lemma drain_cmds_ok t budget : forall s rx, stack_wf s -> Forall cmd_wf rx ->
  exists s' rs, drain_cmds open_socket bind_socket t s rx budget = Ok (s', rs, skipn budget rx, blen (firstn budget rx)) /\ stack_wf s'.
Proof.
  induction budget as [|budget IH]; intros s rx Hw Hc; [destruct rx; by eexists _, _|]. destruct rx as [|cmd rx]; [by eexists _, _|].
  apply Forall_cons in Hc as [Hc Hcs]. cbn [drain_cmds firstn skipn]. destruct (handle_cmd_ok t s cmd Hw Hc) as (s1 & rs & -> & Hw1).
  cbn [mbind res_bind]. destruct (IH s1 rx Hw1 Hcs) as (s2 & rs' & -> & Hw2). cbn [mbind res_bind]. rewrite blen_cons.
  rewrite (Z.add_comm 1). by eexists _, _.
Qed.

Lemma drain_app_data_moved budget : forall n b rx,
  let '(_, b', rx', moved) := drain_app_data tcp_buf n b rx budget in
  blen rx = moved + blen rx' /\ 0 <= moved <= Z.of_nat budget /\
  (moved = Z.of_nat budget \/ rx' = [] \/ MAX_BACKLOG_BYTES <= bytes_ b').
Proof.
  induction budget as [|budget IH]; intros n b rx; [destruct rx; cbn; (split; [lia|]); (split; [lia|]); by left|].
  destruct rx as [|d rx]; cbn [drain_app_data]; destruct (bytes_ b <? MAX_BACKLOG_BYTES) eqn:Hb; cbn [negb]; zbool;
    try (split; [lia|]; split; [lia|]; by auto).
  destruct (ingest tcp_buf n b d) as [n1 b1]. specialize (IH n1 b1 rx).
  destruct (drain_app_data tcp_buf n1 b1 rx budget) as [[[n2 b2] rx2] moved]. destruct IH as (H1 & H2 & H3).
  rewrite blen_cons. split; [lia|]. split; [lia|]. destruct H3 as [->|H3]; [left; lia|by right].
Qed.

Lemma turn_app_ok p s b rx : stack_wf s ->
  let '(s', b', rx', moved, _) := turn_app tcp_buf p s b rx in
  stack_wf s' /\ blen rx = moved + blen rx' /\ 0 <= moved <= Z.of_nat MAX_APP_INGEST_PER_TICK /\
  (moved = Z.of_nat MAX_APP_INGEST_PER_TICK \/ rx' = [] \/ MAX_BACKLOG_BYTES <= bytes_ b').
Proof.
  intros Hw. unfold turn_app, drain_app_data_. pose proof (drain_app_data_moved MAX_APP_INGEST_PER_TICK (uplink s) b rx) as H.
  destruct (drain_app_data _ _ _ _ _) as [[[n b'] rx'] moved]. split; [by apply put_uplink_wf|done].
Qed.

Lemma turn_inbound_ok p s rx : stack_wf s ->
  let '(s', rx', moved, _) := turn_inbound p s rx in
  stack_wf s' /\ rx' = skipn MAX_INGEST_PER_TICK rx /\ moved = blen (firstn MAX_INGEST_PER_TICK rx).
Proof. intros Hw. cbn. split; [by apply set_device_wf|done]. Qed.

(** One pass does not panic, keeps the stack well formed, and visits every queue. *)
Lemma run_pass_ok p r q : stack_wf (stk r) -> Forall cmd_wf (q_cmd q) ->
  exists r' q' d next, run_pass open_socket bind_socket tcp_buf p r q = Ok (r', q', d, next) /\ stack_wf (stk r') /\
    prefer_app_data r' = negb (prefer_app_data r) /\
    moved_in d = blen (firstn MAX_INGEST_PER_TICK (q_inbound q)) /\ q_inbound q' = skipn MAX_INGEST_PER_TICK (q_inbound q) /\
    moved_cmd d = blen (firstn MAX_CMD_PER_TICK (q_cmd q)) /\ q_cmd q' = skipn MAX_CMD_PER_TICK (q_cmd q) /\
    blen (q_data q) = moved_app d + blen (q_data q') /\ 0 <= moved_app d <= Z.of_nat MAX_APP_INGEST_PER_TICK /\
    (moved_app d = Z.of_nat MAX_APP_INGEST_PER_TICK \/ q_data q' = [] \/ MAX_BACKLOG_BYTES <= bytes_ (backlog r')) /\
    (forall delay, next = Park delay -> moved_in d = 0 /\ moved_app d = 0 /\ moved_cmd d = 0).
Proof.
  intros Hw Hc. unfold run_pass. destruct (service_tcp_ok (tcp_env p) (poll p (stk r)) (poll_wf p _ Hw)) as (s1 & acts & bp & -> & W1 & _).
  cbn [mbind res_bind]. pose proof (service_udp_wf (udp_env p) s1 W1) as W2. destruct (service_udp _ s1) as [[s2 dgrams] ubp].
  destruct (flush_tx _ _) as [[[d out] dropped] tbusy]. apply (set_device_wf _ d) in W2. revert W2. generalize (set_device s2 d). intros s3 W3.
  unfold drain_backlog_. destruct (drain_backlog _ _ _) as [n4 b4]. apply (put_uplink_wf _ n4) in W3. revert W3. generalize (put_uplink s3 n4). intros s4 W4.
  unfold reap_wedged_. destruct (reap_wedged _ _ _) as [n5 b5]. apply (put_uplink_wf _ n5) in W4. revert W4. generalize (put_uplink s4 n5). intros s5 W5.
  assert (exists s6 b6 rx n closed,
    (if prefer_app_data r then
      let '(s, rx_in, n_in, done_in) := turn_inbound p s5 (q_inbound q) in
      let '(s, b, rx_data, n_app, done_app) := turn_app tcp_buf p s b5 (q_data q) in
      (s, b, rx_data, rx_in, n_app, n_in, done_in || done_app)
    else
      let '(s, b, rx_data, n_app, done_app) := turn_app tcp_buf p s5 b5 (q_data q) in
      let '(s, rx_in, n_in, done_in) := turn_inbound p s (q_inbound q) in
      (s, b, rx_data, rx_in, n_app, n_in, done_app || done_in)) =
    (s6, b6, rx, skipn MAX_INGEST_PER_TICK (q_inbound q), n, blen (firstn MAX_INGEST_PER_TICK (q_inbound q)), closed) /\ stack_wf s6 /\
    blen (q_data q) = n + blen rx /\ 0 <= n <= Z.of_nat MAX_APP_INGEST_PER_TICK /\
    (n = Z.of_nat MAX_APP_INGEST_PER_TICK \/ rx = [] \/ MAX_BACKLOG_BYTES <= bytes_ b6)) as (s6 & b6 & rx & n & closed & -> & W6 & F1 & F2 & F3).
  { destruct (prefer_app_data r).
    - pose proof (turn_inbound_ok p s5 (q_inbound q) W5) as H. destruct (turn_inbound _ _ _) as [[[s rx_in] n_in] din]. destruct H as (Wa & -> & ->).
      pose proof (turn_app_ok p s b5 (q_data q) Wa) as H. destruct (turn_app _ _ _ _ _) as [[[[s' b'] rx'] n'] dapp].
      eexists _, _, _, _, _. by split.
    - pose proof (turn_app_ok p s5 b5 (q_data q) W5) as H. destruct (turn_app _ _ _ _ _) as [[[[s' b'] rx'] n'] dapp]. destruct H as [Wa H].
      pose proof (turn_inbound_ok p s' (q_inbound q) Wa) as H'. destruct (turn_inbound _ _ _) as [[[s rx_in] n_in] din]. destruct H' as (Wb & -> & ->).
      eexists _, _, _, _, _. by split. }
  destruct (drain_cmds_ok (t_pass p) MAX_CMD_PER_TICK s6 (q_cmd q) W6 Hc) as (s7 & rs & -> & W7). cbn [mbind res_bind].
  eexists _, _, _, _. split; [done|]. cbn [stk prefer_app_data moved_in moved_app moved_cmd q_inbound q_data q_cmd backlog].
  repeat (split; [done|]). intros delay. destruct (closed || _); [done|].
  pose proof (blen_nonneg (firstn MAX_INGEST_PER_TICK (q_inbound q))). pose proof (blen_nonneg (firstn MAX_CMD_PER_TICK (q_cmd q))).
  zcase; [done|]. intros _. zbool. lia.
Qed.

(** No direction starves: a pass takes from every queue what its budget allows, from the
    app's queue unless the backlog is full, in an order that alternates; it parks only
    with every queue it may read empty. *)
Theorem pass_serves_every_queue p r q r' q' d next :
  stack_wf (stk r) -> Forall cmd_wf (q_cmd q) ->
  run_pass open_socket bind_socket tcp_buf p r q = Ok (r', q', d, next) ->
  moved_in d = Z.min 512 (blen (q_inbound q)) /\ q_inbound q' = skipn 512 (q_inbound q) /\
  moved_cmd d = Z.min 64 (blen (q_cmd q)) /\ q_cmd q' = skipn 64 (q_cmd q) /\
  (moved_app d = Z.min 512 (blen (q_data q)) \/ MAX_BACKLOG_BYTES <= bytes_ (backlog r')) /\
  prefer_app_data r' = negb (prefer_app_data r) /\
  (forall delay, next = Park delay ->
    q_inbound q = [] /\ q_cmd q = [] /\ (q_data q = [] \/ MAX_BACKLOG_BYTES <= bytes_ (backlog r'))).
Proof.
  intros Hw Hc Hr. destruct (run_pass_ok p r q Hw Hc) as (r1 & q1 & d1 & n1 & Hr1 & _ & P1 & P2 & P3 & P4 & P5 & P6 & P7 & P8 & P9).
  rewrite Hr in Hr1. injection Hr1 as <- <- <- <-. unfold blen in *. rewrite ?length_take in *.
  unfold MAX_INGEST_PER_TICK, MAX_CMD_PER_TICK, MAX_APP_INGEST_PER_TICK in *.
  split; [lia|]. split; [done|]. split; [lia|]. split; [done|]. split; [|split; [done|]].
  { destruct P8 as [P8|[P8|P8]]; [left; lia|left; rewrite P8 in P6; cbn in P6; lia|by right]. }
  intros delay (H1 & H2 & H3)%P9. split; [|split].
  - apply nil_length_inv. lia.
  - apply nil_length_inv. lia.
  - destruct P8 as [P8|[P8|P8]]; [lia|left|by right]. apply nil_length_inv. rewrite P8 in P6. cbn in P6. lia.
Qed.

Lemma cidr_prefix_ok (s : bytes) d : 0 <= d <= U8_MAX -> 0 <= default d (cidr_prefix s) <= U8_MAX.
Proof.
  intros Hd. unfold cidr_prefix. destruct (split_once 47 s) as [[a p]|]; [|done]. cbn [mbind option_bind].
  destruct (parse_uint U8_MAX p) eqn:Hp; [|done]. by apply parse_uint_bounds in Hp.
Qed.

Lemma spawn_wf ipv4 ipv6 mtu limits s : spawn_with_limits ipv4 ipv6 mtu limits = Ok s -> stack_wf s.
Proof.
  unfold spawn_with_limits. intros (v4 & H4 & (v6 & H6 & (i & Hi & [= <-])%res_bind_Ok)%res_bind_Ok)%res_bind_Ok.
  assert (prefix_ok v4) as P4.
  { unfold parse_v4 in H4. match_in H4; cbn; try done; by apply cidr_prefix_ok. }
  assert (prefix_ok v6) as P6.
  { unfold parse_v6 in H6. match_in H6; cbn; try done; by apply cidr_prefix_ok. }
  destruct (apply_addrs_unicast _ _ _ _ P4 P6 Hi) as [U4 U6].
  destruct (@apply_addrs_ok smol AetherError Interface_new v4 v6 P4 P6 U4 U6) as (i' & Hi' & Hw & _). rewrite Hi in Hi'. injection Hi' as <-.
  unfold stack_wf; cbn. repeat (split; [try done; try lia|]); try done; by left.
Qed.

Definition step_wf (st : Pass * Queues * Wake) : Prop :=
  Forall cmd_wf (q_cmd st.1.2) /\ match st.2 with WakeCmd cmd => cmd_wf cmd | _ => True end.

Lemma wake_ok t r w : stack_wf (stk r) -> match w with WakeCmd cmd => cmd_wf cmd | _ => True end ->
  exists r' rs, wake open_socket bind_socket tcp_buf t r w = Ok (r', rs) /\ stack_wf (stk r').
Proof.
  intros Hw Hc. destruct w as [pkt|cmd|dt| |]; cbn [wake].
  - eexists _, _. split; [done|]. by apply set_device_wf.
  - destruct (handle_cmd_ok t (stk r) cmd Hw Hc) as (s' & rs & -> & Hw'). cbn [mbind res_bind]. by eexists _, _.
  - destruct (_ <? _); [|by eexists _, _]. unfold ingest_. destruct (ingest _ _ _ _) as [n b]. eexists _, _. split; [done|]. by apply put_uplink_wf.
  - by eexists _, _.
  - by eexists _, _.
Qed.

(** C4.  Whatever the network, the apps and the commands do, as long as every address the commands
    set is unicast, the loop of the stack does not panic and keeps its state well formed:
    identifiers used once, ports in their range, flows that wait for their answer until they are
    established, and an interface with at most one address of each family, unicast and routable,
    and its gateway.  A command that sets another address panics, in every such state: the
    addresses of the edge are passed on unchecked. *)
Theorem run_keeps_well_formed ipv4 ipv6 mtu limits s steps :
  spawn_with_limits ipv4 ipv6 mtu limits = Ok s -> Forall step_wf steps ->
  exists r ds, run open_socket bind_socket tcp_buf (mkRun s Backlog_default false) steps = Ok (r, ds) /\ stack_wf (stk r) /\
    forall t v4 v6, prefix_ok v4 -> prefix_ok v6 -> ~ (unicast_v4 v4 /\ unicast_v6 v6) ->
      handle_cmd open_socket bind_socket t (stk r) (SetAddrs v4 v6) = Panic.
Proof.
  intros Hs. enough (forall steps, Forall step_wf steps -> exists r ds,
    run open_socket bind_socket tcp_buf (mkRun s Backlog_default false) steps = Ok (r, ds) /\ stack_wf (stk r)) as Hrun.
  { intros Hst. destruct (Hrun steps Hst) as (r & ds & Hr & Hw). exists r, ds. split; [done|]. split; [done|].
    intros t v4 v6 P4 P6 Hn. by apply set_addrs_panics. }
  clear steps. intros steps. assert (stack_wf (stk (mkRun s Backlog_default false))) as Hw by by eapply spawn_wf.
  revert Hw. generalize (mkRun s Backlog_default false). clear Hs.
  induction steps as [|[[p q] w] steps IH]; intros r Hw Hst; cbn [run]; [by eexists _, _|].
  apply Forall_cons in Hst as [[Hq Hwk] Hst]. destruct (run_pass_ok p r q Hw Hq) as (r1 & q1 & d & next & -> & Hw1 & _).
  cbn [mbind res_bind]. destruct next as [|delay|].
  - destruct (IH r1 Hw1 Hst) as (r2 & ds & -> & Hw2). cbn [mbind res_bind]. by eexists _, _.
  - destruct (match w with WakeClosed => true | _ => false end); [by eexists _, _|].
    destruct (wake_ok (t_pass p) r1 w Hw1 Hwk) as (r2 & rs & -> & Hw2). cbn [mbind res_bind].
    destruct (IH r2 Hw2 Hst) as (r3 & ds & -> & Hw3). cbn [mbind res_bind]. by eexists _, _.
  - by eexists _, _.
Qed.

End stack_proofs.

(** ** Witnesses *)

(** A socket that takes all it is given, over what it holds in each direction; of the addresses
    that are not unicast, the hosts of the local network and the broadcast address. *)
Record PlainSocket := mkPlain { p_state : SockState; p_tx : bytes; p_rx : bytes }.
Definition closing (st : SockState) : SockState :=
  match st with SEstablished => SFinWait1 | SCloseWait => SLastAck | SSynSent => SClosed | st => st end.
Definition plain_smol : Smol := {|
  Socket := PlainSocket;
  state := p_state;
  can_send k := connected (p_state k);
  send_slice k p := (Some (blen p), mkPlain (p_state k) (p_tx k ++ p) (p_rx k));
  send_queue k := blen (p_tx k);
  can_recv k := negb (bool_decide (p_rx k = []));
  recv k := match p_rx k with [] => None | v => Some (v, mkPlain (p_state k) (p_tx k) []) end;
  sock_close k := mkPlain (closing (p_state k)) (p_tx k) (p_rx k);
  sock_abort k := mkPlain SClosed [] (p_rx k);
  received := p_rx;
  UdpSocket := list (SocketAddr * bytes);
  udp_can_recv u := negb (bool_decide (u = []));
  udp_recv u := match u with [] => None | d :: u => Some (d, u) end;
  udp_queue u := u;
  is_unicast ip := match ip with V4 a => negb ((a =? v4_new 224 0 0 1) || (a =? U32_MAX)) | V6 a => negb (a =? 0) end;
|}.

Lemma plain_laws : SmolLaws plain_smol.
Proof.
  constructor; cbn; intros.
  - simplify_eq. split; [apply blen_nonneg|done].
  - done.
  - destruct (p_rx k); cbn; split; done.
  - destruct (p_rx k) eqn:E; simplify_eq. cbn. by rewrite app_nil_r.
  - destruct (p_rx k) eqn:E; [done|]. by eexists _, _.
  - destruct (p_rx k) eqn:E; by simplify_eq.
  - done.
  - done.
  - destruct u; by simplify_eq.
  - destruct u; cbn; split; done.
  - destruct u; [done|]. by eexists _, _.
Qed.

Definition example_limits : TcpLimits := TcpLimits_from_env None None.
Definition example_env : Env := mkEnv 5 5 5 MIN_FLOW_QUEUE_BYTES false (fun i => match i with 0%nat => Permit | _ => RFull end).
Definition gone_env (t : Z) : Env := mkEnv t t t MIN_FLOW_QUEUE_BYTES false (fun _ => RGone).
Definition syn_socket : PlainSocket := mkPlain SSynSent [] [].
Definition open_plain (_ : Interface) (dst : SocketAddr) (_ : Z) : bytes + PlainSocket :=
  if sa_port dst =? 0 then inl (lit "Unaddressable") else inr syn_socket.
Definition bind_plain (_ : Z) : bytes + list (SocketAddr * bytes) := inr [].

Section examples.
Local Existing Instance plain_smol.
Local Existing Instance plain_laws.

(** The connect of a flow succeeds with three bytes on the way, which the app gets. *)
Definition fresh : Conn := new_conn false 0 example_limits syn_socket.
Definition arrived_socket : PlainSocket := mkPlain SEstablished [] [1; 2; 3].
Definition opened : Conn := match service_flow (secs 10) example_env (set_sock fresh arrived_socket) with Ok (Some c, _, _) => c | _ => fresh end.

Lemma opened_life : life (secs 10) fresh opened ([Answer Connected; Deliver [1; 2; 3]] ++ []) ([1; 2; 3] ++ []).
Proof.
  apply (life_poll (smol := plain_smol) (secs 10) fresh arrived_socket [1; 2; 3]); [reflexivity|]. eapply (life_service _ _ example_env _ _ true); [vm_compute; reflexivity|constructor].
Defined.

Lemma connect_answered_once_witness :
  answers [Answer Connected; Deliver [1; 2; 3]] = [Connected] /\
  exists o acts bp r, service_flow (secs 10) (gone_env (secs 60)) fresh = Ok (o, acts, bp) /\ answers acts = [r].
Proof.
  split.
  - exact (proj1 (connect_answered_once (smol := plain_smol) false 0 example_limits syn_socket opened _ _ example_env opened_life)).
  - destruct (connect_answered_once (smol := plain_smol) false 0 example_limits syn_socket fresh [] [] (gone_env (secs 60))) as (_ & o & acts & bp & H1 & _ & H2);
      [constructor|]. destruct H2 as [r H2]; [right; vm_compute; discriminate|]. exists o, acts, bp, r. split; [exact H1|exact H2].
Defined.

Lemma downlink_in_order_witness : delivered [Answer Connected; Deliver [1; 2; 3]] ++ received (sock opened) = [1; 2; 3].
Proof.
  exact (downlink_in_order (secs 10) fresh opened _ _ (new_conn_wf _ _ _ _) opened_life eq_refl eq_refl).
Defined.

(** Its app goes away at 20 s; at 30 s it is reset, and then removed. *)
Definition orphaned : Conn := match service_flow (secs 10) (gone_env (secs 20)) opened with Ok (Some c, _, _) => c | _ => fresh end.
Definition reset : Conn := match service_flow (secs 10) (gone_env (secs 30)) orphaned with Ok (Some c, _, _) => c | _ => fresh end.

Lemma orphan_is_removed_witness :
  service_flow (secs 10) (gone_env (secs 31)) reset = Ok (None, [CreditClose; SockRemove], false).
Proof.
  destruct (orphan_is_removed (secs 10) opened (gone_env (secs 20)) orphaned [] false orphaned [] [] (gone_env (secs 30)))
    as (o & acts & bp & H1 & H2).
  - by apply (life_ok _ _ _ _ _ opened_life (new_conn_wf _ _ _ _)).
  - reflexivity.
  - reflexivity.
  - reflexivity.
  - vm_compute. reflexivity.
  - constructor.
  - reflexivity.
  - vm_compute. discriminate.
  - apply (H2 reset) with (acts' := []) (arrived' := []); [|constructor]. vm_compute in H1. injection H1 as <- <- <-. vm_compute. reflexivity.
Defined.

(** The peer has closed; the app is behind with five bytes. *)
Definition behind : Conn := set_sock opened (mkPlain SClosed [] [4; 5; 6; 7; 8]).

Lemma finished_flow_drops_received_witness :
  received (sock behind) = [4; 5; 6; 7; 8] /\
  service_flow (secs 10) (mkEnv 9 9 9 MIN_FLOW_QUEUE_BYTES false (fun _ => RFull)) behind = Ok (None, [CreditClose; SockRemove], true).
Proof.
  split; [reflexivity|]. apply finished_flow_drops_received; vm_compute; reflexivity.
Defined.

Definition example_spawned : Stack :=
  match spawn_with_limits (lit "172.16.0.2/32") (lit "2606:4700::2/128") 1280 example_limits with Ok s => s | _ => mkStk ∅ ∅ [] 1 49152 Interface_new (StackDevice_new 0) example_limits end.

Lemma set_addrs_keeps_other_family_witness :
  exists s rs, handle_cmd (smol := plain_smol) open_plain bind_plain 0 example_spawned (SetAddrs (Some (v4_new 10 0 0 1, 32)) None) = Ok (s, rs) /\
    current_addrs (iface s) = (Some (v4_new 10 0 0 1, 24), (current_addrs (iface example_spawned)).2).
Proof.
  assert (stack_wf example_spawned) as Hw.
  { apply (spawn_wf (lit "172.16.0.2/32") (lit "2606:4700::2/128") 1280 example_limits). vm_compute. reflexivity. }
  destruct (handle_cmd (smol := plain_smol) open_plain bind_plain 0 example_spawned (SetAddrs (Some (v4_new 10 0 0 1, 32)) None)) as [[s rs]| |] eqn:H.
  - exists s, rs. split; [reflexivity|].
    apply (set_addrs_keeps_other_family (smol := plain_smol) open_plain bind_plain 0 example_spawned (Some (v4_new 10 0 0 1, 32)) None s rs Hw); [vm_compute; split; discriminate|exact I|exact H].
  - vm_compute in H. discriminate.
  - vm_compute in H. discriminate.
Defined.

(** A pass with something in every queue, then one that connects the new flow. *)
Definition example_pass : Pass :=
  mkPass (fun _ k => match k with mkPlain SSynSent _ _ => mkPlain SEstablished [] [9] | _ => k end) (fun _ u => u) (fun d => d) false (fun _ => example_env) (fun _ _ => Permit) (Room 4) 0 None
    false false false.
Definition example_queues : Queues :=
  mkQueues [Tcp 1 [7]] [[69; 0]; [69; 1]] [OpenTcp (mkSocketAddr (V4 (v4_new 1 1 1 1)) 443) false; OpenUdp].

Lemma pass_serves_every_queue_witness :
  exists r q d next,
    run_pass (smol := plain_smol) open_plain bind_plain 65536 example_pass (mkRun example_spawned Backlog_default false) example_queues = Ok (r, q, d, next) /\
    moved_in d = 2 /\ moved_cmd d = 2.
Proof.
  assert (stack_wf example_spawned) as Hw.
  { apply (spawn_wf (lit "172.16.0.2/32") (lit "2606:4700::2/128") 1280 example_limits). vm_compute. reflexivity. }
  assert (Forall cmd_wf (q_cmd example_queues)) as Hc by (repeat constructor).
  destruct (run_pass_ok (smol := plain_smol) open_plain bind_plain 65536 example_pass (mkRun example_spawned Backlog_default false) example_queues Hw Hc) as (r & q & d & next & H & _).
  exists r, q, d, next. split; [exact H|].
  destruct (pass_serves_every_queue (smol := plain_smol) open_plain bind_plain 65536 example_pass (mkRun example_spawned Backlog_default false) example_queues r q d next Hw Hc H) as (H1 & _ & H2 & _).
  split; [exact H1|exact H2].
Defined.

Lemma run_keeps_well_formed_witness :
  exists r ds,
    run (smol := plain_smol) open_plain bind_plain 65536 (mkRun example_spawned Backlog_default false)
      [(example_pass, example_queues, WakeSleep); (example_pass, mkQueues [Tcp 1 [7]] [] [SetAddrs (Some (v4_new 10 0 0 1, 32)) None], WakeSleep)] = Ok (r, ds) /\ stack_wf (stk r) /\
    handle_cmd (smol := plain_smol) open_plain bind_plain 0 (stk r) (SetAddrs (Some (v4_new 224 0 0 1, 32)) None) = Panic.
Proof.
  destruct (run_keeps_well_formed (smol := plain_smol) open_plain bind_plain 65536 (lit "172.16.0.2/32") (lit "2606:4700::2/128") 1280 example_limits
    example_spawned [(example_pass, example_queues, WakeSleep); (example_pass, mkQueues [Tcp 1 [7]] [] [SetAddrs (Some (v4_new 10 0 0 1, 32)) None], WakeSleep)])
    as (r & ds & Hr & Hw & Hp).
  - vm_compute. reflexivity.
  - repeat (constructor || split); vm_compute; first [reflexivity|discriminate|exact I].
  - exists r, ds. split; [exact Hr|]. split; [exact Hw|]. apply Hp; [vm_compute; split; discriminate|exact I|]. intros [H _]. vm_compute in H. discriminate H.
Defined.

End examples.

End Flows.
