(* ===== verification/Session.v ===== *)
(** * The session ([aether/src/lib.rs], [aether/src/lastconn.rs])

    The endpoints named by the settings, the connections remembered in a file, the
    gateways a MASQUE run leaves after failures, the run itself as a machine over its
    rounds, and the two hops of a nested tunnel.  A file is the text it holds; the toml
    crate is a class.  A duration and an instant are numbers of nanoseconds. *)

From Stdlib Require Import Sorted.
From S2P Require Import Prelude Str Ip Text Error Prober.
Local Open Scope Z_scope.

Module Session.
Import Error.
#[local] Existing Instances Prober.draw_ret Prober.draw_bind.

(** ** The last connections *)

Definition RECENT_CAP : Z := 8.
Definition CARRIER_MASQUE_H3 : bytes := lit "masque-h3".
Definition CARRIER_MASQUE_H2 : bytes := lit "masque-h2".
Definition CARRIER_WIREGUARD : bytes := lit "wireguard".

Record LastConnection := mkLast { last_peer : bytes; profile : bytes; carrier : bytes; recent : list bytes }.

(** The toml crate on this type: what it writes reads back. *)
Class TomlCrate := {
  to_string_pretty : LastConnection -> option bytes;
  from_str : bytes -> option LastConnection;
  from_to_string c text : to_string_pretty c = Some text -> from_str text = Some c;
}.

Section lastconn.
Context `{TomlCrate}.

(** The text of the file, when it is there and readable. *)
Definition load (file : option bytes) : option LastConnection := text ← file; from_str text.

Definition carried_over (previous : option LastConnection) (carrier_ : bytes) : list bytes :=
  match previous with
  | Some c => if bool_decide (carrier c = []) || bool_decide (carrier c = carrier_) then recent c else []
  | None => []
  end.

(** [save] on the file: [written] says whether the write succeeds. *)
Definition save (file : option bytes) (peer profile_ carrier_ : bytes) (written : bool) : option bytes :=
  let recent_ := fold_left (fun recent entry => if negb (bool_decide (entry = peer)) && (blen recent <? RECENT_CAP) then recent ++ [entry] else recent)
                   (carried_over (load file) carrier_) [peer] in
  match to_string_pretty (mkLast peer profile_ carrier_ recent_) with
  | Some text => if written then Some text else file
  | None => file
  end.
End lastconn.

Definition usable_peers (cached : LastConnection) (carrier_ : bytes) : list SocketAddr :=
  if negb (bool_decide (carrier cached = [])) && negb (bool_decide (carrier cached = carrier_)) then []
  else (push_all ([], ∅) (omap parse_socket_addr (last_peer cached :: recent cached))).1.

(** ** Endpoints of the settings *)

Definition WG_EXAMPLE_PORT : Z := 2408.

Record WiwEndpoints := mkEndpoints { outer : option SocketAddr; inner : option SocketAddr }.

Definition WiwEndpoints_is_empty (e : WiwEndpoints) : bool := bool_decide (outer e = None) && bool_decide (inner e = None).

Definition checked (e : WiwEndpoints) : res AetherError WiwEndpoints :=
  match outer e, inner e with
  | Some outer, Some inner =>
      if bool_decide (sa_ip outer = sa_ip inner)
      then Err (Other (lit "the two hops need separate edges, but both point at " ++ ip_to_string (sa_ip outer)))
      else Ok e
  | _, _ => Ok e
  end.

Definition parse_endpoint (raw : bytes) : res AetherError SocketAddr :=
  let text := trim raw in
  match parse_socket_addr text with
  | Some peer => Ok peer
  | None =>
      let portless :=
        match parse_ip text with
        | Some ip => Some ip
        | None => rest ← strip_prefix [91] text; inner ← strip_suffix [93] rest; parse_ip inner
        end in
      match portless with
      | Some address =>
          Err (Other (text ++ lit " carries no port, and the port is required; write it out, as in "
                      ++ sa_to_string (mkSocketAddr address WG_EXAMPLE_PORT)))
      | None =>
          Err (Other (lit "'" ++ text ++ lit "' is not an endpoint; write an address and a port together, such as 162.159.192.1:"
                      ++ dec WG_EXAMPLE_PORT))
      end
  end.

(** The loop of [parse_endpoint_list] over the pieces. *)
Fixpoint parse_pieces (parts : list bytes) : res AetherError (list SocketAddr) :=
  match parts with
  | [] => Ok []
  | part :: parts =>
      if bool_decide (trim part = []) then parse_pieces parts
      else peer ← parse_endpoint part; peers ← parse_pieces parts; Ok (peer :: peers)
  end.

Definition separator (b : Z) : bool := (b =? 44) || (b =? 59) || (b =? 32).

Definition parse_endpoint_list (raw : bytes) : res AetherError (list SocketAddr) :=
  peers ← parse_pieces (split_chars separator raw);
  if blen peers =? 0 then Err (Other (lit "no endpoint was given; expected one or two addresses"))
  else if blen peers <=? 2 then Ok peers
  else Err (Other (lit "warp-in-warp has two hops, but " ++ dec (blen peers) ++ lit " addresses were given")).

Definition env_value (env : bytes -> option bytes) (key : bytes) : option bytes :=
  value ← env key; let value := trim value in if bool_decide (value = []) then None else Some value.

Definition SCAN_KEYWORDS : list bytes := [lit "auto"; lit "scan"; lit "none"; lit "off"; lit "0"].

Section endpoints.
Context `{UnicodeCase}.

Definition scan_keyword (value : bytes) : bool := Prober.one_of (to_lowercase value) SCAN_KEYWORDS.
Definition wiw_scan_requested (lookup : bytes -> option bytes) : bool :=
  match lookup (lit "AETHER_WIW_PEERS") with Some value => scan_keyword value | None => false end.

Definition nested_endpoints_of (lookup : bytes -> option bytes) (list_key outer_key inner_key : bytes) : res AetherError WiwEndpoints :=
  chosen ← match lookup list_key with
           | Some list =>
               if negb (scan_keyword list) then
                 peers ← parse_endpoint_list list; Ok (mkEndpoints (peers !! 0%nat) (peers !! 1%nat))
               else Ok (mkEndpoints None None)
           | None => Ok (mkEndpoints None None)
           end;
  chosen ← match lookup outer_key with
           | Some value => peer ← parse_endpoint value; Ok (mkEndpoints (Some peer) (inner chosen))
           | None => Ok chosen
           end;
  chosen ← match lookup inner_key with
           | Some value => peer ← parse_endpoint value; Ok (mkEndpoints (outer chosen) (Some peer))
           | None => Ok chosen
           end;
  checked chosen.

Definition wiw_endpoints_of lookup := nested_endpoints_of lookup (lit "AETHER_WIW_PEERS") (lit "AETHER_WIW_OUTER_PEER") (lit "AETHER_WIW_INNER_PEER").
Definition wiw_endpoints_from_env env := wiw_endpoints_of (env_value env).
Definition mim_endpoints_of lookup := nested_endpoints_of lookup (lit "AETHER_MIM_PEERS") (lit "AETHER_MIM_OUTER_PEER") (lit "AETHER_MIM_INNER_PEER").
Definition mim_endpoints_from_env env := mim_endpoints_of (env_value env).

Definition wiw_endpoints_with_fallback (lookup : bytes -> option bytes) : res AetherError WiwEndpoints :=
  chosen ← wiw_endpoints_of lookup;
  if negb (bool_decide (outer chosen = None)) then Ok chosen
  else
    match (match lookup (lit "AETHER_WG_PEER") with Some v => Some v | None => lookup (lit "AETHER_PEER") end) with
    | None => Ok chosen
    | Some forced =>
        peers ← parse_endpoint_list forced;
        checked (mkEndpoints (peers !! 0%nat) (match inner chosen with Some i => Some i | None => peers !! 1%nat end))
    end.

(** ** What [--register] asks for *)

Record RegisterSet := mkRegister { wireguard : bool; wireguard_inner : bool; masque : bool; masque_inner : bool; gool : bool }.
Definition RegisterSet_parse (value : bytes) : res AetherError RegisterSet :=
  let value := to_lowercase (trim value) in
  if bool_decide (value = lit "all") then Ok (mkRegister true true true true true)
  else if bool_decide (value = lit "masque") then Ok (mkRegister false false true false false)
  else if Prober.one_of value [lit "wg"; lit "wireguard"; lit "warp"] then Ok (mkRegister true false false false false)
  else if Prober.one_of value [lit "gool"; lit "wg-over-masque"] then Ok (mkRegister false false true false true)
  else if Prober.one_of value [lit "gool-classic"; lit "wiw"; lit "warp-in-warp"] then Ok (mkRegister true true false false false)
  else if Prober.one_of value [lit "mim"; lit "masque-in-masque"] then Ok (mkRegister false false true true false)
  else Err (Other (lit "--register takes masque, wg, gool, gool-classic, mim or all, not '" ++ value ++ lit "'")).
Definition register_request (env : bytes -> option bytes) : res AetherError (option RegisterSet) :=
  match env_value env (lit "AETHER_REGISTER") with Some value => set ← RegisterSet_parse value; Ok (Some set) | None => Ok None end.
End endpoints.

(** ** Paths *)

(** The last byte of [s] that is one of [p], and what follows. *)
Fixpoint rfind (p : Z -> bool) (s : bytes) : option Z :=
  match s with
  | [] => None
  | b :: t => match rfind p t with Some i => Some (Z.succ i) | None => if p b then Some 0 else None end
  end.
Definition derive_sibling_path (base suffix : bytes) : bytes :=
  let dir_end := match rfind (fun c => (c =? 47) || (c =? 92)) base with Some i => i + 1 | None => 0 end in
  match rfind (Z.eqb 46) (sub base dir_end (blen base)) with
  | Some rel =>
      let dot := dir_end + rel in
      sub base 0 dot ++ [45] ++ suffix ++ sub base dot (blen base)
  | None => base ++ [45] ++ suffix
  end.
Definition gool_identity_path (masque_config : bytes) : bytes := derive_sibling_path masque_config (lit "gool").
Definition lastconn_path (config_path : bytes) : bytes := derive_sibling_path config_path (lit "lastconn").
Definition warp_config_path (env : bytes -> option bytes) (team : option bytes) (base : bytes) : bytes :=
  match env (lit "AETHER_WG_CONFIG") with
  | Some p => p
  | None => match team with Some team => derive_sibling_path base (lit "team-" ++ team) | None => base end
  end.
Definition masque_config_path (env : bytes -> option bytes) (team : option bytes) (base : bytes) : bytes :=
  match env (lit "AETHER_MASQUE_CONFIG") with
  | Some p => p
  | None => match team with Some team => derive_sibling_path base (lit "team-" ++ team) | None => derive_sibling_path base (lit "masque") end
  end.
Definition keep_saved_identity (env : bytes -> option bytes) : bool :=
  match env (lit "AETHER_REPROVISION") with Some v => negb (Prober.one_of v [lit "0"; lit "off"; lit "false"]) | None => true end.

(** ** Delays *)

Definition env_secs (env : bytes -> option bytes) (name : bytes) (default_ : Z) : Z :=
  Prober.from_secs
    (default default_ (v ← env name; v ← parse_u64 v; if 0 <? v then Some (Z.min v 86400) else None)).
Definition masque_reconnect_delay env : Z := env_secs env (lit "AETHER_MASQUE_RECONNECT_SECS") 2.
Definition masque_startup_timeout env : Z := env_secs env (lit "AETHER_MASQUE_STARTUP_SECS") 30.
Definition wg_reconnect_delay env : Z := env_secs env (lit "AETHER_WG_RECONNECT_SECS") 2.
Definition wg_endpoint_cooldown env : Z := env_secs env (lit "AETHER_WG_ENDPOINT_COOLDOWN_SECS") 300.
Definition wg_tunnel_validate_timeout env : Z := env_secs env (lit "AETHER_WG_VALIDATE_SECS") 10.
Definition wg_keepalive_secs (env : bytes -> option bytes) : Z :=
  default 5 (v ← env (lit "AETHER_WG_KEEPALIVE"); v ← parse_u16 v; if 0 <? v then Some v else None).
Definition cached_peer_fast_enough env (rtt : Z) : bool :=
  Prober.within_budget rtt (Prober.env_budget_ms env (lit "AETHER_QUICK_RECONNECT_MAX_RTT_MS")).
Definition cached_handshake_fast_enough env (elapsed : Z) : bool :=
  Prober.within_budget elapsed (Prober.env_budget_ms env (lit "AETHER_QUICK_RECONNECT_MAX_HANDSHAKE_MS")).

(** ** Gateways that failed *)

Definition TUNNEL_STAYED_UP : Z := Prober.from_secs 300.
Definition MASQUE_GATEWAY_STRIKES : Z := 2.
Definition MASQUE_GATEWAY_REST : Z := Prober.from_secs 300.

Definition count_tunnel_end (in_a_row lasted : Z) : Z :=
  if TUNNEL_STAYED_UP <=? lasted then 0 else Z.min (in_a_row + 1) U32_MAX.

Record GatewayStrikes := mkStrikes { current : option SocketAddr; in_a_row : Z; resting : gmap IpAddr Z }.
Definition GatewayStrikes_default : GatewayStrikes := mkStrikes None 0 ∅.

Definition using_ (s : GatewayStrikes) (peer : SocketAddr) : GatewayStrikes :=
  if negb (bool_decide (current s = Some peer)) then mkStrikes (Some peer) 0 (resting s) else s.
Definition ended (s : GatewayStrikes) (lasted : Z) : GatewayStrikes :=
  mkStrikes (current s) (count_tunnel_end (in_a_row s) lasted) (resting s).
Definition give_up_ (s : GatewayStrikes) (now rest : Z) : GatewayStrikes * option SocketAddr :=
  if in_a_row s <? MASQUE_GATEWAY_STRIKES then (s, None)
  else
    match current s with
    | None => (mkStrikes None 0 (resting s), None)
    | Some peer => (mkStrikes None 0 (<[sa_ip peer := now + rest]> (resting s)), Some peer)
    end.
Definition left_out (s : GatewayStrikes) (now : Z) : GatewayStrikes * gset IpAddr :=
  let resting := filter (fun kv => now < kv.2) (resting s) in
  (mkStrikes (current s) (in_a_row s) resting, dom resting).

(** ** The MASQUE run *)

(** What the scans promise: never an address that is left out. *)
Class Scanner (S : Type) := {
  scan : S -> gset IpAddr -> res AetherError SocketAddr;
  scan_avoids s avoid p : scan s avoid = Ok p -> sa_ip p ∉ avoid;
}.

Section run.
Context {S : Type} `{Scanner S} `{TomlCrate}.

(** The state at the top of the loop, with the time of the last round. *)
Record Run := mkRun {
  strikes : GatewayStrikes; quick_peer : option SocketAddr; last_good_peer : option SocketAddr; saved : option bytes; clock : Z
}.

(** What happens in a round: when it starts, whether the last gateway passes the check,
    when the scan starts and what it meets, whether the file is written, and how long the
    tunnel lasts. *)
Record Round := mkRound { at_start : Z; still_answers : bool; at_scan : Z; meets : S; writes : bool; lasted : Z }.

(** The gateways given up and the tunnels opened, with the time; the newest first. *)
Inductive Event := GaveUp (peer : SocketAddr) (t : Z) | Tunnel (peer : SocketAddr) (t lasted : Z).

(** How a round ends: the run goes on in a new state, or ends with an error. *)
Definition run_round (forced : option bytes) (profile_ carrier_ : bytes) (s : Run) (r : Round) : (Run + AetherError) * list Event :=
  let '(st, gave_up) := match forced with None => give_up_ (strikes s) (at_start r) MASQUE_GATEWAY_REST | Some _ => (strikes s, None) end in
  let last_good := match gave_up with Some _ => None | None => last_good_peer s end in
  let log := match gave_up with Some peer => [GaveUp peer (at_start r)] | None => [] end in
  let '(st, choice) :=
    match quick_peer s with
    | Some p => (st, inl (Some p))
    | None =>
        match (if still_answers r then last_good else None) with
        | Some p => (st, inl (Some p))
        | None =>
            match forced with
            | Some p => (st, match parse_socket_addr p with Some peer => inl (Some peer) | None => inr (Other (lit "bad peer address " ++ p)) end)
            | None =>
                let '(st, avoid) := left_out st (at_scan r) in
                (st, match scan (meets r) avoid with Ok peer => inl (Some peer) | _ => inl None end)
            end
        end
    end in
  match choice with
  | inr e => (inr e, log)
  | inl None => (inl (mkRun st None last_good (saved s) (at_scan r)), log)
  | inl (Some peer) =>
      let file := match forced with None => save (saved s) (sa_to_string peer) profile_ carrier_ (writes r) | Some _ => saved s end in
      let st := ended (using_ st peer) (lasted r) in
      (inl (mkRun st None (Some peer) file (at_scan r)), Tunnel peer (at_scan r) (lasted r) :: log)
  end.

(** The states a run that was not told its gateway reaches, with what it did. *)
Inductive reach (profile_ carrier_ : bytes) : Run -> list Event -> Prop :=
| reach_start quick file t : reach profile_ carrier_ (mkRun GatewayStrikes_default quick None file t) []
| reach_round s log r s' evs :
    reach profile_ carrier_ s log -> clock s <= at_start r -> at_start r <= at_scan r ->
    run_round None profile_ carrier_ s r = (inl s', evs) -> reach profile_ carrier_ s' (evs ++ log).
End run.

(** ** Two hops *)

Definition MAX_DATAGRAM_SIZE : Z := 1350.
Definition MIN_DATAGRAM_SIZE : Z := 1200.
Definition TUNNEL_MTU : Z := 1280.
Definition MASQUE_DATAGRAM_OVERHEAD : Z := MAX_DATAGRAM_SIZE - TUNNEL_MTU.
Definition MASQUE_INNER_PORT : Z := 443.

Definition clamp (v lo hi : Z) : Z := Z.max lo (Z.min v hi).
Definition mim_inner_budget (outer_mtu : Z) (inner_peer : SocketAddr) (h2 : bool) : Z * Z :=
  if h2 then
    let mtu := clamp (saturating_sub outer_mtu 100) 576 1500 in
    (MAX_DATAGRAM_SIZE, mtu)
  else
    let headers := match sa_ip inner_peer with V4 _ => 28 | V6 _ => 48 end in
    let datagram := clamp (saturating_sub outer_mtu headers) MIN_DATAGRAM_SIZE MAX_DATAGRAM_SIZE in
    let mtu := clamp (saturating_sub datagram MASQUE_DATAGRAM_OVERHEAD) 576 1500 in
    (datagram, mtu).

Definition edge_network (ip : IpAddr) : option (Z * Z * Z) :=
  match ip with V4 a => Some (octet a 0, octet a 1, octet a 2) | V6 _ => None end.

(** [found.iter().position(p)] *)
Fixpoint position {A} (p : A -> bool) (l : list A) : option nat :=
  match l with [] => None | x :: l => if p x then Some 0%nat else Datatypes.S <$> position p l end.

Definition spread_hops (found : list SocketAddr) : list SocketAddr :=
  match found with
  | first :: _ :: _ =>
      let network := edge_network (sa_ip first) in
      match position (fun peer => negb (bool_decide (edge_network (sa_ip peer) = network))) found with
      | Some other => if (1 <=? other)%nat then swap found 1 other else found
      | None => found
      end
  | _ => found
  end.

(** The closure [push]: never the outer address, and no peer twice. *)
Definition push_other (outer : SocketAddr) (s : list SocketAddr * gset SocketAddr) (peer : SocketAddr) :=
  if bool_decide (sa_ip peer = sa_ip outer) then s else push_new s peer.

Definition truncate {A} (n : Z) (l : list A) : list A := take (Z.to_nat n) l.

Definition masque_verified_ladder (outer : SocketAddr) (count : Z) : list SocketAddr :=
  match sa_ip outer with
  | V6 _ => []
  | V4 _ =>
      let outer_network := edge_network (sa_ip outer) in
      let verified := omap parse_ip Prober.MASQUE_VERIFIED_GATEWAYS in
      let on port := map (fun ip => mkSocketAddr ip port) in
      let s := fold_left (push_other outer) (on MASQUE_INNER_PORT (filter (fun ip => edge_network ip <> outer_network) verified)) ([], ∅) in
      let s := fold_left (push_other outer) (on MASQUE_INNER_PORT verified) s in
      let s := fold_left (push_other outer) (concat (map (fun port => on port verified) Prober.MASQUE_ALT_PORTS)) s in
      truncate (Z.max count 1) s.1
  end.

(** The shuffle of [sibling_candidates]: [for index in (1..len).rev() { swap(index, random(0..=index)) }] *)
Fixpoint shuffle `{RandCrate} {A} (n : nat) (l : list A) : Prober.draw (list A) :=
  match n with
  | O => mret l
  | Datatypes.S n => w ← Prober.next_word; shuffle n (swap l (Datatypes.S n) (Z.to_nat (random_below (Z.of_nat n + 2) w)))
  end.

(** The loop of [sibling_candidates] over the last segment of an IPv6 address. *)
Fixpoint sibling_v6 `{RandCrate} (v6 last count : Z) (seen : gset Z) (out : list SocketAddr) (words : list Z) : option (list SocketAddr * list Z) :=
  if (blen out <? count) && (Z.of_nat (size seen) <? count * 8) then
    match words with
    | [] => None
    | w :: words =>
        let candidate := 1 + random_below U16_MAX w in
        if (candidate =? last) || bool_decide (candidate ∈ seen) then sibling_v6 v6 last count seen out words
        else sibling_v6 v6 last count ({[candidate]} ∪ seen)
               (out ++ [mkSocketAddr (V6 (v6 - last + candidate)) MASQUE_INNER_PORT]) words
    end
  else Some (out, words).

Definition sibling_candidates `{RandCrate} (outer : SocketAddr) (count : Z) : Prober.draw (list SocketAddr) :=
  match sa_ip outer with
  | V4 a =>
      let hosts := filter (fun host => host <> octet a 3) (seqZ 1 254) in
      hosts ← shuffle (length hosts - 1) hosts;
      mret (map (fun host => mkSocketAddr (V4 (v4_new (octet a 0) (octet a 1) (octet a 2) host)) MASQUE_INNER_PORT) (take (Z.to_nat count) hosts))
  | V6 a => sibling_v6 a (a mod 65536) count ∅ []
  end.

(** [for peer in siblings { if out.len() >= count { break } if seen.insert(peer) { out.push(peer) } }] *)
Fixpoint fill_up (count : Z) (s : list SocketAddr * gset SocketAddr) (l : list SocketAddr) : list SocketAddr * gset SocketAddr :=
  match l with
  | [] => s
  | peer :: l => if count <=? blen s.1 then s else fill_up count (push_new s peer) l
  end.

Definition inner_masque_candidates `{RandCrate} (outer : SocketAddr) (count : Z) (verified : bool) : Prober.draw (list SocketAddr) :=
  let s := if verified then push_all ([], ∅) (masque_verified_ladder outer (Z.max (saturating_sub count 2) 1)) else ([], ∅) in
  siblings ← sibling_candidates outer count;
  mret (truncate (Z.max count 1) (fill_up count s siblings).1).

(** ** The ring of last connections *)

(** The elements of a list without the later repetitions. *)
Fixpoint nub {A} `{EqDecision A} (l : list A) : list A :=
  match l with [] => [] | x :: l => x :: filter (fun y => y <> x) (nub l) end.

Lemma nub_elem {A} `{EqDecision A} (l : list A) x : x ∈ nub l <-> x ∈ l.
Proof.
  induction l as [|y l IH]; [done|]. cbn [nub]. rewrite !elem_of_cons, list_elem_of_filter, IH.
  destruct (decide (x = y)); tauto.
Qed.
Lemma nub_NoDup {A} `{EqDecision A} (l : list A) : NoDup (nub l).
Proof.
  induction l as [|y l IH]; [constructor|]. cbn [nub]. constructor; [|by apply NoDup_filter].
  rewrite list_elem_of_filter. tauto.
Qed.

Lemma take_filter_take {A} `{EqDecision A} (p : A) l : forall n, NoDup l ->
  take n (filter (fun y => y <> p) (take (S n) l)) = take n (filter (fun y => y <> p) l).
Proof.
  induction l as [|x l IH]; intros n Hn; [by destruct n|]. apply NoDup_cons in Hn as [Hx Hn]. cbn [take]. rewrite !filter_cons.
  destruct (decide (x <> p)) as [Hp|Hp].
  - destruct n as [|n]; [done|]. cbn [take]. f_equal. by apply IH.
  - assert (x = p) as -> by (by destruct (decide (x = p))).
    assert (forall l' : list A, (forall y, y ∈ l' -> y ∈ l) -> filter (fun y => y <> p) l' = l') as Hid.
    { intros l' Hl'. induction l' as [|y l' IH']; [done|]. rewrite filter_cons, decide_True.
      - rewrite IH'; [done|]. intros z Hz. apply Hl', elem_of_cons. by right.
      - intros ->. apply Hx, Hl', elem_of_cons. by left. }
    rewrite (Hid l), (Hid (take n l)); [by rewrite take_take, Nat.min_id| |done].
    intros y (i & Hi & _)%elem_of_take. by eapply list_elem_of_lookup_2.
Qed.

Lemma fold_recent (peer : bytes) (carried : list bytes) : forall acc : list bytes, peer ∈ acc -> (1 <= length acc)%nat ->
  fold_left (fun recent entry => if negb (bool_decide (entry = peer)) && (blen recent <? RECENT_CAP) then recent ++ [entry] else recent) carried acc
  = acc ++ take (8 - length acc) (filter (fun e => e <> peer) carried).
Proof.
  induction carried as [|e carried IH]; intros acc Hin Hl; cbn [fold_left]; [by rewrite filter_nil, take_nil, app_nil_r|]. rewrite filter_cons.
  case_bool_decide as He; cbn [negb andb].
  - rewrite decide_False by (by intros ?). by apply IH.
  - rewrite decide_True by done. unfold blen, RECENT_CAP. destruct (Z.ltb_spec (Z.of_nat (length acc)) 8) as [Hlt|Hge].
    + rewrite IH by (rewrite ?length_app; cbn; (lia || (apply elem_of_app; by left))). rewrite <- app_assoc. f_equal. rewrite length_app. cbn [length].
      replace (8 - length acc)%nat with (S (8 - (length acc + 1)))%nat by lia. done.
    + rewrite IH by done. replace (8 - length acc)%nat with 0%nat by lia. done.
Qed.

Section ring.
Context `{TomlCrate}.
Context (encodes : forall c, is_Some (to_string_pretty c)).

(** A connection that was made: its address, profile and carrier. *)
Record Made := mkMade { made_peer : SocketAddr; made_profile : bytes; made_carrier : bytes }.

(** The file after the connections [h], the newest first. *)
Fixpoint after (h : list Made) : option bytes :=
  match h with
  | [] => None
  | m :: h => save (after h) (sa_to_string (made_peer m)) (made_profile m) (made_carrier m) true
  end.

(** The addresses used over [c] since another carrier was last used, the newest first. *)
Fixpoint same_carrier (c : bytes) (h : list Made) : list SocketAddr :=
  match h with
  | [] => []
  | m :: h => if bool_decide (made_carrier m = c) then made_peer m :: same_carrier c h else []
  end.

Lemma sa_to_string_inj : forall a b, sa_wf a -> sa_wf b -> sa_to_string a = sa_to_string b -> a = b.
Proof. intros a b Ha Hb He. apply parse_socket_addr_to_string in Ha, Hb. congruence. Qed.

Lemma nub_to_string l : Forall sa_wf l -> nub (map sa_to_string l) = map sa_to_string (nub l).
Proof.
  induction l as [|a l IH]; intros Hl; [done|]. apply Forall_cons in Hl as [Ha Hl]. cbn [map nub]. f_equal. rewrite (IH Hl).
  assert (forall k, (forall b, b ∈ k -> sa_wf b) ->
    filter (fun y => y <> sa_to_string a) (map sa_to_string k) = map sa_to_string (filter (fun y => y <> a) k)) as Hf.
  { induction k as [|b k IHk]; intros Hk; [done|]. cbn [map]. rewrite !filter_cons.
    assert (sa_wf b) as Hb by (apply Hk, elem_of_cons; by left). rewrite IHk by (intros c Hc; apply Hk, elem_of_cons; by right).
    destruct (decide (b = a)) as [-> |Hne]; [by rewrite !decide_False by tauto|].
    rewrite !decide_True; [done|done|]. by intros ?%sa_to_string_inj. }
  apply Hf. intros b Hb%(proj1 (nub_elem _ _)). rewrite Forall_forall in Hl. by apply Hl.
Qed.

Lemma load_save file peer profile_ carrier_ :
  load (save file peer profile_ carrier_ true)
  = Some (mkLast peer profile_ carrier_ (peer :: take 7 (filter (fun e => e <> peer) (carried_over (load file) carrier_)))).
Proof.
  unfold save. rewrite fold_recent by (by apply list_elem_of_singleton || done). cbn [length app Nat.sub].
  destruct (encodes (mkLast peer profile_ carrier_ (peer :: take 7 (filter (fun e => e <> peer) (carried_over (load file) carrier_))))) as [text Ht].
  rewrite Ht. unfold load at 1. cbn [mbind option_bind]. by apply from_to_string.
Qed.

Lemma load_after h : Forall (fun m => sa_wf (made_peer m) /\ made_carrier m <> []) h ->
  match h with
  | [] => load (after h) = None
  | m :: _ => load (after h) = Some (mkLast (sa_to_string (made_peer m)) (made_profile m) (made_carrier m)
      (map sa_to_string (take 8 (nub (same_carrier (made_carrier m) h)))))
  end.
Proof.
  induction h as [|m h IH]; intros Hh; [done|]. apply Forall_cons in Hh as [[Hw Hc] Hh]. specialize (IH Hh). cbn [after same_carrier].
  rewrite bool_decide_eq_true_2 by done. rewrite load_save. do 2 f_equal. cbn [nub take map]. f_equal.
  assert (carried_over (load (after h)) (made_carrier m) = map sa_to_string (take 8 (nub (same_carrier (made_carrier m) h)))) as ->.
  { destruct h as [|m' h']; [by rewrite IH|]. rewrite IH. apply Forall_cons in Hh as [[_ Hc'] _]. cbn [carried_over carrier recent].
    rewrite (bool_decide_eq_false_2 (made_carrier m' = [])) by done. cbn [orb same_carrier]. case_bool_decide as He; [by rewrite He, bool_decide_eq_true_2|done]. }
  assert (Forall sa_wf (same_carrier (made_carrier m) h)) as Hsw.
  { clear -Hh. induction Hh as [|m' h [Hw _] _ IH]; [constructor|]. cbn [same_carrier]. case_bool_decide; [by constructor|constructor]. }
  assert (forall l : list SocketAddr, Forall sa_wf l ->
    filter (fun e => e <> sa_to_string (made_peer m)) (map sa_to_string l) = map sa_to_string (filter (fun e => e <> made_peer m) l)) as Hf.
  { induction 1 as [|b l Hb _ IHl]; [done|]. cbn [map]. rewrite !filter_cons, IHl. destruct (decide (b = made_peer m)) as [-> |Hne];
      [by rewrite !decide_False by tauto|]. rewrite !decide_True; [done|done|]. by intros ?%sa_to_string_inj. }
  assert (Forall sa_wf (nub (same_carrier (made_carrier m) h))) as Hnw.
  { rewrite Forall_forall in *. intros b Hb%(proj1 (nub_elem _ _)). by apply Hsw. }
  rewrite Hf by (by apply Forall_take). rewrite firstn_map. f_equal. apply take_filter_take, nub_NoDup.
Qed.

(** The addresses offered for a quick reconnection: over the carrier of the newest
    connection, the eight most recently used since another carrier was used, each once,
    the newest first; over another carrier none. *)
Theorem last_connections_ring m h c :
  let all := m :: h in
  Forall (fun m => sa_wf (made_peer m) /\ made_carrier m <> []) all ->
  exists cached, load (after all) = Some cached
  /\ usable_peers cached c = if bool_decide (c = made_carrier m) then take 8 (nub (same_carrier c all)) else [].
Proof.
  intros all Hall. pose proof (load_after all Hall) as Hl. cbn [all] in Hl. eexists. split; [exact Hl|].
  unfold usable_peers. cbn [carrier last_peer recent]. fold all.
  pose proof Hall as Hall'. apply Forall_cons in Hall' as [[Hw Hc] Hh].
  rewrite (bool_decide_eq_false_2 (made_carrier m = [])) by done. cbn [negb andb].
  destruct (decide (c = made_carrier m)) as [-> |Hne].
  2: { by rewrite (bool_decide_eq_false_2 (made_carrier m = c)), (bool_decide_eq_false_2 (c = made_carrier m)) by congruence. }
  rewrite !bool_decide_eq_true_2 by done. cbn [negb].
  assert (exists l, take 8 (nub (same_carrier (made_carrier m) all)) = made_peer m :: l) as (l & He).
  { cbn [all same_carrier]. rewrite bool_decide_eq_true_2 by done. cbn. eauto. }
  assert (NoDup (made_peer m :: l)) as Hn.
  { rewrite <- He. eapply sublist_NoDup; [apply nub_NoDup|apply sublist_take]. }
  assert (Forall sa_wf (made_peer m :: l)) as Hwf.
  { rewrite <- He. apply Forall_take. rewrite Forall_forall. intros b Hb%(proj1 (nub_elem _ _)). clear -Hall Hb. generalize dependent all. clear.
    intros all. induction all as [|m' all IH]; intros Hall Hb; [by apply elem_of_nil in Hb|]. apply Forall_cons in Hall as [[Hw _] Hall].
    cbn [same_carrier] in Hb. case_bool_decide; [|by apply elem_of_nil in Hb]. apply elem_of_cons in Hb as [-> |Hb]; [done|by apply IH]. }
  rewrite He. assert (omap parse_socket_addr (sa_to_string (made_peer m) :: map sa_to_string (made_peer m :: l)) = made_peer m :: made_peer m :: l) as ->.
  { change (sa_to_string (made_peer m) :: map sa_to_string (made_peer m :: l)) with (map sa_to_string (made_peer m :: made_peer m :: l)).
    assert (Forall sa_wf (made_peer m :: made_peer m :: l)) as Hwf' by (by constructor). clear -Hwf'.
    induction Hwf' as [|a k Ha _ IH]; [done|]. cbn [map omap list_omap]. by rewrite parse_socket_addr_to_string, IH. }
  assert (push_all ([], ∅) (made_peer m :: made_peer m :: l) = push_all ([made_peer m], {[made_peer m]} ∪ ∅) l) as ->.
  { unfold push_all. cbn [fold_left]. f_equal.
    assert (push_new ([], ∅) (made_peer m) = ([made_peer m], {[made_peer m]} ∪ ∅)) as ->.
    { unfold push_new. cbn [fst snd]. by rewrite decide_False by apply not_elem_of_empty. }
    unfold push_new. rewrite decide_True; [done|]. cbn [snd]. set_solver. }
  apply NoDup_cons in Hn as [Hn1 Hn2]. rewrite push_all_distinct; [done| |done]. cbn [snd]. set_solver.
Qed.
End ring.

(** ** A run leaves a gateway that fails *)

(** No tunnel is opened to an address that rests. *)
Definition rests (log : list Event) : Prop :=
  forall newer older q t l g t', log = newer ++ Tunnel q t l :: older -> GaveUp g t' ∈ older -> sa_ip g = sa_ip q -> t' + MASQUE_GATEWAY_REST <= t.
(** Two tunnels in a row through one gateway that both ended soon are the last two before
    it is given up. *)
Definition gives_up (log : list Event) : Prop :=
  forall newer older q t3 l3 p t2 l2 t1 l1, log = newer ++ Tunnel q t3 l3 :: Tunnel p t2 l2 :: Tunnel p t1 l1 :: older ->
  TUNNEL_STAYED_UP <= l2 \/ TUNNEL_STAYED_UP <= l1.

(** Addresses given up are still left out, or their rest is over. *)
Definition resting_ok (log : list Event) (m : gmap IpAddr Z) (now : Z) : Prop :=
  forall g t', GaveUp g t' ∈ log -> t' <= now /\ (t' + MASQUE_GATEWAY_REST <= now \/ exists u, m !! sa_ip g = Some u /\ t' + MASQUE_GATEWAY_REST <= u).
(** The strikes are those of the newest tunnels. *)
Definition strikes_ok (log : list Event) (s : GatewayStrikes) : Prop :=
  0 <= in_a_row s <= 2
  /\ (forall p t l older, log = Tunnel p t l :: older -> l < TUNNEL_STAYED_UP -> current s = Some p /\ 1 <= in_a_row s)
  /\ (forall p t l t' l' older, log = Tunnel p t l :: Tunnel p t' l' :: older -> l < TUNNEL_STAYED_UP -> l' < TUNNEL_STAYED_UP -> 2 <= in_a_row s).
(** The rest of the gateway to try again is over. *)
Definition may_retry (log : list Event) (p : option SocketAddr) (now : Z) : Prop :=
  match p with Some p => forall g t', GaveUp g t' ∈ log -> sa_ip g = sa_ip p -> t' + MASQUE_GATEWAY_REST <= now | None => True end.

Lemma rests_gave_up log g t : rests log -> rests (GaveUp g t :: log).
Proof. intros Hr [|e newer] older q t0 l g' t' Heq; [done|]. injection Heq as _ Heq. by apply (Hr _ _ _ _ _ _ _ Heq). Qed.
Lemma gives_up_gave_up log g t : gives_up log -> gives_up (GaveUp g t :: log).
Proof. intros Hr [|e newer] older q t3 l3 p t2 l2 t1 l1 Heq; [done|]. injection Heq as _ Heq. by apply (Hr _ _ _ _ _ _ _ _ _ _ Heq). Qed.

(** Opening a tunnel to an address that may be tried. *)
Lemma tunnel_ok log st q now lasted_ : rests log -> gives_up log -> strikes_ok log st -> in_a_row st < 2 -> may_retry log (Some q) now ->
  let log' := Tunnel q now lasted_ :: log in
  rests log' /\ gives_up log' /\ strikes_ok log' (ended (using_ st q) lasted_).
Proof.
  intros Hr Hg (Hb & H1 & H2) Hlt Hm log'. split; [|split].
  - intros [|e newer] older q' t l g t' Heq Hin Hip.
    + injection Heq as -> -> -> ->. by apply (Hm g t').
    + injection Heq as _ Heq. by apply (Hr _ _ _ _ _ _ _ Heq Hin).
  - intros [|e newer] older q' t3 l3 p t2 l2 t1 l1 Heq.
    + injection Heq as -> -> -> Heq. destruct (Z.le_gt_cases TUNNEL_STAYED_UP l2); [by left|]. destruct (Z.le_gt_cases TUNNEL_STAYED_UP l1); [by right|].
      specialize (H2 _ _ _ _ _ _ Heq ltac:(done) ltac:(done)). lia.
    + injection Heq as _ Heq. by apply (Hg _ _ _ _ _ _ _ _ _ _ Heq).
  - assert (current (using_ st q) = Some q /\ 0 <= in_a_row (using_ st q) <= 1 /\ (current st = Some q -> in_a_row (using_ st q) = in_a_row st)) as (Hc & Hi & Hs).
    { unfold using_. case_bool_decide as Hc; cbn [negb]; [by split; [|split; [lia|]]|]. cbn. split; [done|]. split; [lia|]. done. }
    assert (lasted_ < TUNNEL_STAYED_UP -> in_a_row (ended (using_ st q) lasted_) = in_a_row (using_ st q) + 1) as He.
    { intros Hl. unfold ended, count_tunnel_end. cbn. rewrite (proj2 (Z.leb_gt _ _)) by lia. unfold U32_MAX. lia. }
    split; [|split].
    + unfold ended, count_tunnel_end. cbn [in_a_row]. destruct (_ <=? _); unfold U32_MAX; lia.
    + intros p t l older Heq Hl. injection Heq as <- <- <- <-. split; [done|]. rewrite He by done. lia.
    + intros p t l t' l' older Heq Hl Hl'. injection Heq as <- <- <- Heq. rewrite He by done.
      destruct (H1 _ _ _ _ Heq Hl') as [Hcur Hge]. rewrite (Hs Hcur). lia.
Qed.

Section run_safe.
Context {S : Type} `{Scanner S} `{TomlCrate}.

Definition run_inv (s : Run) (log : list Event) : Prop :=
  rests log /\ gives_up log /\ strikes_ok log (strikes s) /\ resting_ok log (resting (strikes s)) (clock s)
  /\ may_retry log (last_good_peer s) (clock s) /\ (quick_peer s <> None -> log = [] /\ in_a_row (strikes s) = 0).

(** The top of a round: a gateway with two strikes is given up. *)
Lemma give_up_ok s log now : run_inv s log -> clock s <= now ->
  let '(st, g) := give_up_ (strikes s) now MASQUE_GATEWAY_REST in
  let log' := match g with Some peer => GaveUp peer now :: log | None => log end in
  rests log' /\ gives_up log' /\ strikes_ok log' st /\ in_a_row st < 2 /\ resting_ok log' (resting st) now
  /\ may_retry log' (match g with Some _ => None | None => last_good_peer s end) now /\ (quick_peer s <> None -> log' = []).
Proof.
  intros (Hr & Hg & Hst & Hro & Hm & Hq) Hnow.
  assert (resting_ok log (resting (strikes s)) now) as Hro'.
  { intros g t' Hin. destruct (Hro g t' Hin) as [? [?|Hu]]; (split; [lia|]); [left; lia|by right]. }
  assert (may_retry log (last_good_peer s) now) as Hm'.
  { unfold may_retry in *. destruct (last_good_peer s); [|done]. intros g t' Hin Hip. specialize (Hm g t' Hin Hip). lia. }
  unfold give_up_, MASQUE_GATEWAY_STRIKES. destruct (Z.ltb_spec (in_a_row (strikes s)) 2) as [Hlt|Hge].
  { do 6 (split; [done|]). intros Hne. by apply Hq. }
  destruct (current (strikes s)) as [peer|] eqn:Hc; cbn [in_a_row resting].
  - split; [by apply rests_gave_up|]. split; [by apply gives_up_gave_up|]. split; [split; [cbn; lia|split; intros; discriminate]|]. split; [lia|].
    split; [|split; [done|]].
    + intros g t' [Heq|Hin]%elem_of_cons.
      * injection Heq as <- <-. split; [lia|]. right. eexists. rewrite lookup_insert, decide_True by done. split; [done|lia].
      * destruct (Hro' g t' Hin) as [Ht Hor]. split; [done|]. destruct (decide (sa_ip peer = sa_ip g)) as [He|He].
        -- right. exists (now + MASQUE_GATEWAY_REST). rewrite <- He, lookup_insert, decide_True by done. split; [done|lia].
        -- destruct Hor as [?|(u & Hu & Hle)]; [by left|right]. exists u. by rewrite lookup_insert_ne.
    + intros [_ Hz]%Hq. lia.
  - destruct Hst as (Hb & H1 & H2). split; [done|]. split; [done|].
    assert (forall p t l older, log = Tunnel p t l :: older -> l < TUNNEL_STAYED_UP -> False) as Hno.
    { intros p t l older Heq Hl. destruct (H1 _ _ _ _ Heq Hl) as [Hcur _]. congruence. }
    split; [split; [cbn; lia|split; [intros; exfalso; eauto|intros; exfalso; eauto]]|]. split; [lia|]. split; [done|]. split; [done|].
    intros [_ Hz]%Hq. lia.
Qed.

Lemma reach_inv profile_ carrier_ s log : reach profile_ carrier_ s log -> run_inv s log.
Proof.
  induction 1 as [quick file t|s log r s' evs _ IH Hc1 Hc2 Hround].
  - assert (forall e : Event, e ∉ []) as Hnil by (intros e He; by apply elem_of_nil in He).
    split; [by intros [] ?|]. split; [by intros [] ?|]. split; [split; [done|split; intros; discriminate]|].
    split; [by intros g t' ?%Hnil|]. split; [done|]. done.
  - pose proof (give_up_ok s log (at_start r) IH Hc1) as Hgu. unfold run_round in Hround.
    destruct (give_up_ (strikes s) (at_start r) MASQUE_GATEWAY_REST) as [st g]. cbn zeta in Hgu.
    set (log1 := match g with Some peer => GaveUp peer (at_start r) :: log | None => log end) in *.
    set (last_good := match g with Some _ => None | None => last_good_peer s end) in *.
    assert (match g with Some peer => [GaveUp peer (at_start r)] | None => [] end ++ log = log1) as Hlog by (by destruct g).
    destruct Hgu as (Hr & Hg & Hst & Hlt & Hro & Hm & Hq).
    assert (forall t, at_start r <= t -> resting_ok log1 (resting st) t) as Hro'.
    { intros t Ht g' t' Hin. destruct (Hro g' t' Hin) as [? [?|?]]; (split; [lia|]); [left; lia|by right]. }
    assert (forall st' q, in_a_row st' = in_a_row st -> current st' = current st -> resting_ok log1 (resting st') (at_scan r) ->
      may_retry log1 (Some q) (at_scan r) ->
      run_inv (mkRun (ended (using_ st' q) (lasted r)) None (Some q) (save (saved s) (sa_to_string q) profile_ carrier_ (writes r)) (at_scan r))
        (Tunnel q (at_scan r) (lasted r) :: log1)) as Htun.
    { intros st' q Hi Hcur Hres Hmay. assert (strikes_ok log1 st') as Hst' by (unfold strikes_ok in *; by rewrite Hi, Hcur).
      destruct (tunnel_ok log1 st' q (at_scan r) (lasted r) Hr Hg Hst' ltac:(lia) Hmay) as (T1 & T2 & T3).
      split; [done|]. split; [done|]. split; [done|]. cbn [strikes clock last_good_peer quick_peer].
      assert (resting (ended (using_ st' q) (lasted r)) = resting st') as -> by (unfold ended, using_; cbn; by destruct (negb _)).
      split; [|split; [|done]].
      - intros g' t' [Heq|Hin]%elem_of_cons; [discriminate|by apply Hres].
      - intros g' t' [Heq|Hin]%elem_of_cons; [discriminate|by apply Hmay]. }
    assert (forall q, last_good = Some q \/ log1 = [] -> may_retry log1 (Some q) (at_scan r)) as Hretry.
    { intros q [Hl|Hl] g' t' Hin Hip; [|rewrite Hl in Hin; by apply elem_of_nil in Hin].
      rewrite Hl in Hm. specialize (Hm g' t' Hin Hip). lia. }
    destruct (quick_peer s) as [q|] eqn:Hqp.
    { injection Hround as <- <-. cbn [app]. rewrite Hlog. apply Htun; [done|done|apply Hro'; lia|]. apply Hretry. right. by apply Hq. }
    destruct (if still_answers r then last_good else None) as [q|] eqn:Hret.
    { injection Hround as <- <-. cbn [app]. rewrite Hlog. apply Htun; [done|done|apply Hro'; lia|]. apply Hretry. left.
      by destruct (still_answers r). }
    unfold left_out in Hround. set (m := filter (fun kv => at_scan r < kv.2) (resting st)) in *.
    assert (resting_ok log1 m (at_scan r)) as Hres.
    { intros g' t' Hin. destruct (Hro' (at_scan r) ltac:(lia) g' t' Hin) as [Ht [Hle|(u & Hu & Hle)]]; (split; [done|]); [by left|].
      destruct (Z.le_gt_cases u (at_scan r)); [left; lia|right]. exists u. split; [|done]. apply map_lookup_filter_Some. by split. }
    destruct (scan (meets r) (dom m)) as [q|e|] eqn:Hscan; injection Hround as <- <-; cbn [app]; rewrite ?Hlog.
    + apply (Htun (mkStrikes (current st) (in_a_row st) m)); [done|done|done|].
      intros g' t' Hin Hip. destruct (Hres g' t' Hin) as [_ [Hle|(u & Hu & _)]]; [done|]. exfalso.
      apply (scan_avoids _ _ _ Hscan). rewrite <- Hip. by apply elem_of_dom_2 in Hu.
    + split; [done|]. split; [done|]. split; [done|]. split; [done|]. cbn [last_good_peer clock quick_peer]. split; [|done].
      unfold may_retry in *. destruct last_good; [|done]. intros g' t' Hin Hip. specialize (Hm g' t' Hin Hip). lia.
    + split; [done|]. split; [done|]. split; [done|]. split; [done|]. cbn [last_good_peer clock quick_peer]. split; [|done].
      unfold may_retry in *. destruct last_good; [|done]. intros g' t' Hin Hip. specialize (Hm g' t' Hin Hip). lia.
Qed.

(** A gateway is given up for the two newest tunnels, which both went through it and ended soon. *)
Definition two_failures (g : SocketAddr) (log : list Event) : Prop :=
  exists t2 l2 t1 l1 older, log = Tunnel g t2 l2 :: Tunnel g t1 l1 :: older /\ l2 < TUNNEL_STAYED_UP /\ l1 < TUNNEL_STAYED_UP.
Definition gave_up_for_cause (log : list Event) : Prop :=
  forall newer older g t, log = newer ++ GaveUp g t :: older -> two_failures g older.
(** The strikes are failures of the gateway in use. *)
Definition strikes_earned (log : list Event) (s : GatewayStrikes) : Prop :=
  (1 <= in_a_row s -> exists p t l older, current s = Some p /\ log = Tunnel p t l :: older /\ l < TUNNEL_STAYED_UP)
  /\ (2 <= in_a_row s -> exists p, current s = Some p /\ two_failures p log).

Lemma strikes_earned_none log s : in_a_row s = 0 -> strikes_earned log s.
Proof. intros Hz. by split; intros; lia. Qed.

Lemma gave_up_for_cause_tunnel log q t l : gave_up_for_cause log -> gave_up_for_cause (Tunnel q t l :: log).
Proof. intros Hg [|e newer] older g t' Heq; [done|]. injection Heq as _ Heq. by apply (Hg _ _ _ _ Heq). Qed.

Lemma give_up_earned log st now rest :
  gave_up_for_cause log -> strikes_earned log st -> 0 <= in_a_row st <= 2 ->
  let '(st', g) := give_up_ st now rest in
  let log' := match g with Some peer => [GaveUp peer now] | None => [] end ++ log in
  gave_up_for_cause log' /\ strikes_earned log' st' /\ 0 <= in_a_row st' < 2.
Proof.
  intros Hg Hs Hb. unfold give_up_, MASQUE_GATEWAY_STRIKES. destruct (Z.ltb_spec (in_a_row st) 2) as [Hlt|Hge]; [cbn; split; [done|]; split; [done|lia]|].
  destruct (proj2 Hs Hge) as (p & -> & Hf). cbn [app in_a_row]. split; [|split; [by apply strikes_earned_none|lia]].
  intros [|e newer] older g t Heq; [by injection Heq as -> -> ->|]. injection Heq as _ Heq. by apply (Hg _ _ _ _ Heq).
Qed.

Lemma tunnel_earned log st q now lasted_ :
  strikes_earned log st -> 0 <= in_a_row st < 2 ->
  strikes_earned (Tunnel q now lasted_ :: log) (ended (using_ st q) lasted_) /\ 0 <= in_a_row (ended (using_ st q) lasted_) <= 2.
Proof.
  intros [H1 _] Hb. unfold ended, count_tunnel_end. cbn [in_a_row].
  destruct (Z.leb_spec TUNNEL_STAYED_UP lasted_) as [Hl|Hl]; [split; [by apply strikes_earned_none|lia]|].
  assert (current (using_ st q) = Some q /\ 0 <= in_a_row (using_ st q) <= in_a_row st /\ (1 <= in_a_row (using_ st q) -> current st = Some q)) as (Hc & Hi & Hcur).
  { unfold using_. case_bool_decide as Hc; cbn [negb]; [by split; [|split; [lia|]]|]. cbn. split; [done|]. split; [lia|]. lia. }
  unfold U32_MAX. split; [|lia]. unfold strikes_earned. cbn [in_a_row current]. rewrite Hc. split.
  - intros _. by exists q, now, lasted_, log.
  - intros Htwo. exists q. split; [done|]. assert (1 <= in_a_row (using_ st q)) as Hone by lia.
    destruct (H1 ltac:(lia)) as (p & t & l & older & Hp & -> & Hlp). rewrite (Hcur Hone) in Hp. injection Hp as <-.
    by exists now, lasted_, t, l, older.
Qed.

Lemma reach_earned profile_ carrier_ s log :
  reach profile_ carrier_ s log -> gave_up_for_cause log /\ strikes_earned log (strikes s) /\ 0 <= in_a_row (strikes s) <= 2.
Proof.
  induction 1 as [quick file t|s log r s' evs _ (Hg & Hs & Hb) Hc1 Hc2 Hround].
  - split; [by intros [] ?|]. split; [by apply strikes_earned_none|done].
  - pose proof (give_up_earned log (strikes s) (at_start r) MASQUE_GATEWAY_REST Hg Hs Hb) as Hgu. unfold run_round in Hround.
    destruct (give_up_ (strikes s) (at_start r) MASQUE_GATEWAY_REST) as [st g]. cbn zeta in Hgu.
    set (log1 := match g with Some peer => [GaveUp peer (at_start r)] | None => [] end) in *. destruct Hgu as (Hg1 & Hs1 & Hb1).
    assert (forall st' q, in_a_row st' = in_a_row st -> current st' = current st ->
      gave_up_for_cause (Tunnel q (at_scan r) (lasted r) :: log1 ++ log) /\
      strikes_earned (Tunnel q (at_scan r) (lasted r) :: log1 ++ log) (ended (using_ st' q) (lasted r)) /\
      0 <= in_a_row (ended (using_ st' q) (lasted r)) <= 2) as Htun.
    { intros st' q Hi Hcur. split; [by apply gave_up_for_cause_tunnel|]. apply tunnel_earned; [|lia]. unfold strikes_earned in *. by rewrite Hi, Hcur. }
    destruct (quick_peer s) as [q|]; [injection Hround as <- <-; by apply Htun|].
    destruct (if still_answers r then _ else None) as [q|]; [injection Hround as <- <-; by apply Htun|].
    unfold left_out in Hround. match type of Hround with context [scan ?m ?a] => destruct (scan m a) as [q|e|] end; injection Hround as <- <-; [by apply (Htun (mkStrikes _ _ _))|..];
      cbn [strikes in_a_row]; (split; [done|]; split; [exact Hs1|lia]).
Qed.

(** C12.  A MASQUE run that picks its gateways: after two tunnels in a row through one gateway
    that each ended before five minutes were over, the gateway is given up before another
    tunnel is opened, and for five minutes no tunnel goes to its address; the gateway given up
    is the one that failed: the two tunnels before that both went through it and ended soon.
    The count never passes two.  Whatever scans find, checks answer and tunnels last. *)
Theorem masque_run_leaves_failing_gateway profile_ carrier_ s log : reach profile_ carrier_ s log ->
  0 <= in_a_row (strikes s) <= 2
  /\ (forall newer older q t3 l3 p t2 l2 t1 l1, log = newer ++ Tunnel q t3 l3 :: Tunnel p t2 l2 :: Tunnel p t1 l1 :: older ->
      TUNNEL_STAYED_UP <= l2 \/ TUNNEL_STAYED_UP <= l1)
  /\ (forall newer older q t l g t', log = newer ++ Tunnel q t l :: older -> GaveUp g t' ∈ older -> sa_ip g = sa_ip q ->
      t' + MASQUE_GATEWAY_REST <= t)
  /\ (forall newer older g t, log = newer ++ GaveUp g t :: older -> two_failures g older).
Proof. intros Hreach. destruct (reach_inv _ _ _ _ Hreach) as (Hr & Hg & [Hb _] & _). destruct (reach_earned _ _ _ _ Hreach) as [He _]. done. Qed.
End run_safe.

(** ** The scans of [prober.rs] keep the promise *)

(** A scan: its settings, the words of the generator, and the turns of its loop. *)
Record ScanRun := mkScanRun {
  sr_env : bytes -> option bytes; sr_custom_tcp : bool; sr_has_ipv6 : bool; sr_ip : Prober.IpScan; sr_mode : Prober.ScanMode;
  sr_words : list Z; sr_start : Z; sr_turns : list Prober.Turn
}.

(** The turns that the stream over [cands] can yield. *)
Definition of_stream (cands : list (IpAddr * Z)) (t : Prober.Turn) : bool :=
  match Prober.happened t with Prober.Item c _ => bool_decide (c ∈ cands) | _ => true end.

(** [hunt_masque_peer]; [Panic] stands for a scan that has not ended. *)
Definition hunt_masque_peer `{RandCrate} (r : ScanRun) (avoid : gset IpAddr) : res AetherError SocketAddr :=
  match Prober.scanned (sr_env r) (sr_custom_tcp r) (sr_has_ipv6 r) Prober.MASQUE_PORTS (sr_ip r) (sr_mode r) avoid (sr_words r) with
  | Some (Some cands, _) =>
      match Prober.hunt_best_gateway_avoiding (sr_custom_tcp r) (sr_mode r) (Some cands) (sr_start r)
              (filter (fun t => of_stream cands t = true) (sr_turns r)) with
      | Some (Ok best, _) => Ok (mkSocketAddr (Prober.pr_ip best) (Prober.pr_port best))
      | Some (Err e, _) => Err e
      | _ => Panic
      end
  | Some (None, _) => Err NoCleanEndpoint
  | None => Panic
  end.

#[export] Instance prober_scanner `{RandCrate} : Scanner ScanRun.
Proof.
  refine {| scan := hunt_masque_peer |}. intros r avoid p. unfold hunt_masque_peer.
  destruct (Prober.scanned _ _ _ _ _ _ avoid (sr_words r)) as [[[cands|] rest]|] eqn:Hs; try done.
  set (turns := filter (fun t => of_stream cands t = true) (sr_turns r)).
  destruct (Prober.hunt_best_gateway_avoiding _ _ (Some cands) _ turns) as [[[best|e|] later]|] eqn:Hh; try done.
  intros [= <-]. cbn [sa_ip]. apply Prober.hunt_picks_candidate in Hh.
  - by apply (Prober.scanned_allowed _ _ _ _ _ _ _ _ _ _ _ Hs) in Hh as [? _].
  - intros t c rtt Ht Hi. apply list_elem_of_filter in Ht as [Hof _]. unfold of_stream in Hof. rewrite Hi in Hof. by apply bool_decide_eq_true in Hof.
Defined.

(** ** The hops of the settings *)

Lemma checked_Ok e e' : checked e = Ok e' ->
  e' = e /\ forall o i, outer e = Some o -> inner e = Some i -> sa_ip o <> sa_ip i.
Proof.
  unfold checked. destruct e as [[o|] [i|]]; cbn [outer inner]; try (intros [= <-]; by split).
  case_bool_decide; [done|]. intros [= <-]. split; [done|]. by intros ?? [= <-] [= <-].
Qed.

Section hops.
Context `{UnicodeCase}.

Lemma nested_endpoints_Ok lookup list_key outer_key inner_key e :
  nested_endpoints_of lookup list_key outer_key inner_key = Ok e ->
  (forall o i, outer e = Some o -> inner e = Some i -> sa_ip o <> sa_ip i)
  /\ (forall v, lookup outer_key = Some v -> exists p, parse_endpoint v = Ok p /\ outer e = Some p)
  /\ (forall v, lookup inner_key = Some v -> exists p, parse_endpoint v = Ok p /\ inner e = Some p)
  /\ (lookup list_key = None -> lookup outer_key = None -> outer e = None)
  /\ (lookup list_key = None -> lookup inner_key = None -> inner e = None).
Proof.
  unfold nested_endpoints_of. rewrite res_bind_Ok. intros (c1 & H1 & H2). rewrite res_bind_Ok in H2. destruct H2 as (c2 & H2 & H3).
  rewrite res_bind_Ok in H3. destruct H3 as (c3 & H3 & Hc). apply checked_Ok in Hc as [-> Hsep].
  assert (lookup list_key = None -> c1 = mkEndpoints None None) as H1' by (intros E; rewrite E in H1; by injection H1 as <-).
  assert (match lookup outer_key with Some v => exists p, parse_endpoint v = Ok p /\ c2 = mkEndpoints (Some p) (inner c1) | None => c2 = c1 end) as H2'.
  { destruct (lookup outer_key) as [v|]; [|by injection H2 as <-]. rewrite res_bind_Ok in H2. destruct H2 as (p & Hp & [= <-]). eauto. }
  assert (match lookup inner_key with Some v => exists p, parse_endpoint v = Ok p /\ c3 = mkEndpoints (outer c2) (Some p) | None => c3 = c2 end) as H3'.
  { destruct (lookup inner_key) as [v|]; [|by injection H3 as <-]. rewrite res_bind_Ok in H3. destruct H3 as (p & Hp & [= <-]). eauto. }
  clear H1 H2 H3. split; [done|]. split; [|split; [|split]].
  - intros v Hv. rewrite Hv in H2'. destruct H2' as (p & Hp & ->). exists p. split; [done|].
    destruct (lookup inner_key); [destruct H3' as (? & _ & ->)|subst c3]; done.
  - intros v Hv. rewrite Hv in H3'. destruct H3' as (p & Hp & ->). by exists p.
  - intros Hl Ho. rewrite Ho in H2'. subst c2. rewrite (H1' Hl) in *. destruct (lookup inner_key); [destruct H3' as (? & _ & ->)|subst c3]; done.
  - intros Hl Hi. rewrite Hi in H3'. subst c3. rewrite (H1' Hl) in *. destruct (lookup outer_key); [destruct H2' as (? & _ & ->)|subst c2]; done.
Qed.

(** The hops of warp-in-warp: never on one address; a hop that is named by its own
    variable is that endpoint, and one that is not readable is an error, not a scan;
    without any of the variables both are left to the scan. *)
Theorem wiw_hops_of_settings lookup e :
  wiw_endpoints_with_fallback lookup = Ok e ->
  (forall o i, outer e = Some o -> inner e = Some i -> sa_ip o <> sa_ip i)
  /\ (forall v, lookup (lit "AETHER_WIW_OUTER_PEER") = Some v -> exists p, parse_endpoint v = Ok p /\ outer e = Some p)
  /\ (forall v, lookup (lit "AETHER_WIW_INNER_PEER") = Some v -> exists p, parse_endpoint v = Ok p /\ inner e = Some p)
  /\ ((forall k, lookup k = None) -> e = mkEndpoints None None).
Proof.
  unfold wiw_endpoints_with_fallback. rewrite res_bind_Ok. intros (c & Hc & He).
  destruct (nested_endpoints_Ok _ _ _ _ _ Hc) as (Hsep & Ho & Hi & Hno & Hni). clear Hc.
  assert ((forall k, lookup k = None) -> c = mkEndpoints None None) as Hnone.
  { intros Hk. destruct c as [o i]. cbn in *. by rewrite Hno, Hni. }
  case_bool_decide as Hout; cbn [negb] in He; [|injection He as <-; by split; [|split]].
  destruct (match lookup (lit "AETHER_WG_PEER") with Some v => Some v | None => lookup (lit "AETHER_PEER") end) as [forced|] eqn:Hf.
  - rewrite res_bind_Ok in He. destruct He as (peers & _ & He). apply checked_Ok in He as [-> Hsep']. split; [done|]. split; [|split].
    + intros v Hv. destruct (Ho v Hv) as (p & _ & E). congruence.
    + intros v Hv. destruct (Hi v Hv) as (p & Hp & E). exists p. split; [done|]. cbn. by rewrite E.
    + intros Hk. by rewrite !Hk in Hf.
  - injection He as <-. by split; [|split].
Qed.

Lemma parse_endpoint_printed a : sa_wf a -> parse_endpoint (sa_to_string a) = Ok a.
Proof.
  intros Ha. pose proof Ha as [_ Hport]. unfold parse_endpoint. rewrite trim_all_plain.
  - by rewrite parse_socket_addr_to_string.
  - apply (forallb_impl addr_char plain); [apply addr_char_plain|apply sa_to_string_char; lia].
Qed.

Lemma sa_to_string_plain a : sa_wf a -> forallb plain (sa_to_string a) = true /\ sa_to_string a <> []
  /\ forallb (fun b => negb (separator b)) (sa_to_string a) = true.
Proof.
  intros [_ Hport]. pose proof (sa_to_string_char a ltac:(lia)) as Hc. split; [by apply (forallb_impl _ _ _ addr_char_plain)|]. split.
  - unfold sa_to_string. destruct (sa_ip a); [by destruct (v4_to_string _)|done].
  - revert Hc. apply forallb_impl. intros x. unfold addr_char, ip_char, separator, is_ascii_digit. destruct (x =? 44) eqn:E1, (x =? 59) eqn:E2, (x =? 32) eqn:E3;
      zbool; subst; done.
Qed.

(** The hops named in one setting, with a comma, a semicolon or a space between them. *)
Lemma endpoint_list_printed a b sep : sa_wf a -> sa_wf b -> separator sep = true ->
  parse_endpoint_list (sa_to_string a ++ [sep] ++ sa_to_string b) = Ok [a; b].
Proof.
  intros Ha Hb Hs. destruct (sa_to_string_plain a Ha) as (Pa & Na & Sa), (sa_to_string_plain b Hb) as (Pb & Nb & Sb).
  unfold parse_endpoint_list. rewrite split_chars_app, split_chars_none by done. cbn [parse_pieces].
  rewrite !trim_all_plain, !bool_decide_eq_false_2, !parse_endpoint_printed by done. done.
Qed.

Lemma printed_no_keyword a b sep : sa_wf a -> sa_wf b -> separator sep = true ->
  scan_keyword (sa_to_string a ++ [sep] ++ sa_to_string b) = false.
Proof.
  intros Ha Hb Hs. destruct (sa_to_string_plain a Ha) as (Pa & _), (sa_to_string_plain b Hb) as (Pb & _).
  assert (forall s, forallb plain s = true -> str_is_ascii s = true) as Hpl.
  { intros s. apply forallb_impl. intros x. unfold plain. by intros [? _]%andb_prop. }
  unfold scan_keyword. rewrite to_lowercase_ascii.
  2: { assert (sep = 44 \/ sep = 59 \/ sep = 32) as Hsep.
       { unfold separator in Hs. apply orb_true_iff in Hs as [[Hs|Hs]%orb_true_iff|Hs]; apply Z.eqb_eq in Hs; tauto. }
       rewrite !str_is_ascii_app, (Hpl (sa_to_string a)), (Hpl (sa_to_string b)) by done. by destruct Hsep as [-> |[-> | ->]]. }
  assert (In 58 (to_ascii_lowercase (sa_to_string a ++ [sep] ++ sa_to_string b))) as Hin.
  { unfold to_ascii_lowercase. apply in_map_iff. exists 58. split; [done|]. apply in_or_app. left. unfold sa_to_string.
    destruct (sa_ip a); rewrite !in_app_iff; cbn; tauto. }
  destruct (Prober.one_of _ _) eqn:Ho; [|done]. exfalso. unfold Prober.one_of in Ho. apply existsb_exists in Ho as (w & Hw & Heq%bool_decide_eq_true).
  rewrite Heq in Hin. unfold SCAN_KEYWORDS in Hw. cbn in Hw. destruct Hw as [<-|[<-|[<-|[<-|[<-|[]]]]]]; cbn in Hin; intuition discriminate.
Qed.

(** Two hops on separate addresses written in [AETHER_WIW_PEERS] are the two hops of the
    tunnel. *)
Theorem wiw_pair_roundtrip lookup a b sep :
  sa_wf a -> sa_wf b -> sa_ip a <> sa_ip b -> separator sep = true ->
  lookup (lit "AETHER_WIW_PEERS") = Some (sa_to_string a ++ [sep] ++ sa_to_string b) ->
  lookup (lit "AETHER_WIW_OUTER_PEER") = None -> lookup (lit "AETHER_WIW_INNER_PEER") = None ->
  wiw_endpoints_with_fallback lookup = Ok (mkEndpoints (Some a) (Some b)).
Proof.
  intros Ha Hb Hne Hs Hl Ho Hi. unfold wiw_endpoints_with_fallback, wiw_endpoints_of, nested_endpoints_of. rewrite Hl, Ho, Hi.
  rewrite printed_no_keyword, endpoint_list_printed by done. cbn. by rewrite bool_decide_eq_false_2.
Qed.
End hops.

(** ** Sizes of nested tunnels *)

(** The datagrams of an inner QUIC connection fit the outer tunnel, with the IP and UDP
    headers around them, and the packets of the inner tunnel fit its datagrams, whenever
    the outer tunnel carries the smallest datagrams QUIC allows. *)
Theorem inner_tunnel_fits outer_mtu peer :
  let headers := match sa_ip peer with V4 _ => 28 | V6 _ => 48 end in
  MIN_DATAGRAM_SIZE + headers <= outer_mtu ->
  let '(datagram, mtu) := mim_inner_budget outer_mtu peer false in
  datagram + headers <= outer_mtu /\ MIN_DATAGRAM_SIZE <= datagram <= MAX_DATAGRAM_SIZE
  /\ mtu + MASQUE_DATAGRAM_OVERHEAD <= datagram /\ 576 <= mtu <= 1500.
Proof.
  unfold mim_inner_budget, clamp, saturating_sub, MASQUE_DATAGRAM_OVERHEAD, MIN_DATAGRAM_SIZE, MAX_DATAGRAM_SIZE, TUNNEL_MTU.
  destruct (sa_ip peer); cbn zeta; intros; lia.
Qed.

(** ** The inner hop is another edge *)

(** Every address of [l] is another than [outer]'s. *)
Definition elsewhere (outer : SocketAddr) (l : list SocketAddr) : Prop := Forall (fun p => sa_ip p <> sa_ip outer) l.

Lemma push_other_elsewhere outer l : forall s, elsewhere outer s.1 -> elsewhere outer (fold_left (push_other outer) l s).1.
Proof.
  induction l as [|p l IH]; intros s Hs; cbn [fold_left]; [done|]. apply IH. unfold push_other. case_bool_decide as Hp; [done|].
  unfold push_new. destruct (decide (p ∈ s.2)); [done|]. cbn [fst]. apply Forall_app. split; [done|]. by constructor.
Qed.

Lemma ladder_elsewhere outer count : elsewhere outer (masque_verified_ladder outer count).
Proof.
  unfold masque_verified_ladder. destruct (sa_ip outer) eqn:Ho; [|constructor]. rewrite <- Ho. cbn zeta. apply Forall_take.
  do 3 apply push_other_elsewhere. constructor.
Qed.

Lemma swap_elem {A} (l : list A) i j x : x ∈ swap l i j -> x ∈ l.
Proof.
  unfold swap. destruct (l !! i) as [a|] eqn:Ha; [|done]. destruct (l !! j) as [b|] eqn:Hb; [|done].
  intros (n & Hn)%list_elem_of_lookup. apply list_lookup_insert_Some in Hn as [(_ & <- & _)|[_ Hn]]; [by eapply list_elem_of_lookup_2|].
  apply list_lookup_insert_Some in Hn as [(_ & <- & _)|[_ Hn]]; by eapply list_elem_of_lookup_2.
Qed.

Section inner.
Context `{RandCrate}.

Lemma shuffle_elem {A} n : forall (l l' : list A) words rest, shuffle n l words = Some (l', rest) -> forall x, x ∈ l' -> x ∈ l.
Proof.
  induction n as [|n IH]; intros l l' words rest; cbn [shuffle]; [by intros [= <- _]|].
  rewrite Prober.draw_bind_Some. intros (w & words' & _ & Hr) x Hx. eapply swap_elem, IH; [exact Hr|exact Hx].
Qed.

Lemma sibling_v6_elsewhere v6 count words : forall seen out l rest o,
  sa_ip o = V6 v6 -> elsewhere o out -> sibling_v6 v6 (v6 mod 65536) count seen out words = Some (l, rest) -> elsewhere o l.
Proof.
  induction words as [|w words IH]; intros seen out l rest o Ho Hout; cbn [sibling_v6];
    (destruct ((blen out <? count) && (Z.of_nat (size seen) <? count * 8)); [|by intros [= <- _]]); [done|].
  destruct (Z.eqb_spec (1 + random_below U16_MAX w) (v6 mod 65536)) as [|Hne]; cbn [orb]; [by apply IH|].
  case_bool_decide; [by apply IH|]. apply IH; [done|]. apply Forall_app. split; [done|]. constructor; [|constructor]. cbn. rewrite Ho.
  intros [= He]. lia.
Qed.

Lemma siblings_elsewhere outer count words l rest : ip_wf (sa_ip outer) ->
  sibling_candidates outer count words = Some (l, rest) -> elsewhere outer l.
Proof.
  intros Hwf. unfold sibling_candidates. destruct (sa_ip outer) as [a|a] eqn:Ho.
  - rewrite Prober.draw_bind_Some. intros (hosts & words' & Hsh & Hl). injection Hl as <- _. apply Forall_map, Forall_take, Forall_forall.
    intros h Hh. apply (shuffle_elem _ _ _ _ _ Hsh) in Hh. apply list_elem_of_filter in Hh as [Hne _]. cbn [sa_ip]. rewrite Ho. intros [= He].
    apply Hne. cbn in Hwf. pose proof (v4_new_octets a Hwf) as Ha. rewrite <- Ha in He at 4. unfold v4_new, be_combine in He. cbn [fold_left] in He. lia.
  - intros Hs. by eapply (sibling_v6_elsewhere a count words ∅ [] l rest outer); [|constructor|].
Qed.

Lemma fill_up_inv count outer l : forall s, seen_inv s -> elsewhere outer s.1 -> elsewhere outer l ->
  seen_inv (fill_up count s l) /\ elsewhere outer (fill_up count s l).1.
Proof.
  induction l as [|p l IH]; intros s Hs He Hl; cbn [fill_up]; [done|]. apply Forall_cons in Hl as [Hp Hl].
  destruct (count <=? blen s.1); [done|]. destruct (push_new_inv s p Hs) as [Hi Hm]. apply IH; [done| |done].
  unfold elsewhere in *. rewrite Forall_forall in He. apply Forall_forall. intros y [Hy| ->]%Hm; [by apply He|done].
Qed.

(** The candidates for the inner hop are distinct, as many as asked for at most, and none
    of them is on the address of the outer hop. *)
Theorem inner_hop_elsewhere outer count verified words cands rest :
  ip_wf (sa_ip outer) -> inner_masque_candidates outer count verified words = Some (cands, rest) ->
  NoDup cands /\ blen cands <= Z.max count 1 /\ Forall (fun p => sa_ip p <> sa_ip outer) cands.
Proof.
  intros Hwf. unfold inner_masque_candidates. rewrite Prober.draw_bind_Some. intros (sib & words' & Hsib & Hc). injection Hc as <- _.
  apply siblings_elsewhere in Hsib; [|done].
  set (s := if verified then push_all ([], ∅) (masque_verified_ladder outer (Z.max (saturating_sub count 2) 1)) else ([], ∅)).
  assert (seen_inv s /\ elsewhere outer s.1) as [Hs He].
  { unfold s. destruct verified; [|split; [apply seen_inv_nil|constructor]].
    destruct (push_all_inv (masque_verified_ladder outer (Z.max (saturating_sub count 2) 1)) ([], ∅) seen_inv_nil) as [Hi Hm]. split; [done|].
    pose proof (ladder_elsewhere outer (Z.max (saturating_sub count 2) 1)) as Hl. unfold elsewhere in *. rewrite Forall_forall in Hl. apply Forall_forall.
    intros p [Hp|Hp]%Hm; [by apply elem_of_nil in Hp|by apply Hl]. }
  destruct (fill_up_inv count outer sib s Hs He Hsib) as [[Hn _] Hf]. unfold truncate. split; [|split].
  - eapply sublist_NoDup; [exact Hn|apply sublist_take].
  - unfold blen. rewrite length_take. lia.
  - by apply Forall_take.
Qed.
End inner.

(** ** The theorems at work *)

(** An encoding that reads back. *)
Definition number_toml : TomlCrate.
Proof.
  refine {| to_string_pretty c := Some [Zpos (encode (last_peer c, profile c, carrier c, recent c))];
            from_str text := match text with
                             | [Zpos n] => '(p, f, c, r) ← decode n; Some (mkLast p f c r)
                             | _ => None
                             end |}.
  intros [p f c r] text [= <-]. cbn [last_peer profile carrier recent]. by rewrite decode_encode.
Defined.

(** A scan that finds nothing but the addresses it is given. *)
Definition list_scanner : Scanner (list SocketAddr).
Proof.
  refine {| scan l avoid := match filter (fun p => sa_ip p ∉ avoid) l with p :: _ => Ok p | [] => Err NoCleanEndpoint end |}.
  intros l avoid p. destruct (filter (fun p => sa_ip p ∉ avoid) l) as [|q l'] eqn:Hf; [done|]. intros [= <-].
  assert (q ∈ filter (fun p => sa_ip p ∉ avoid) l) as Hq by (rewrite Hf; apply elem_of_cons; by left). by apply list_elem_of_filter in Hq as [? _].
Defined.

Section examples.
#[local] Existing Instances number_toml list_scanner Prober.mod_rand ascii_case.

Definition gateway_a : SocketAddr := mkSocketAddr (V4 (v4_new 162 159 198 1)) 443.
Definition gateway_b : SocketAddr := mkSocketAddr (V4 (v4_new 162 159 198 2)) 500.

Lemma last_connections_ring_witness :
  exists cached, load (after [mkMade gateway_b [] CARRIER_MASQUE_H3; mkMade gateway_a [] CARRIER_MASQUE_H3; mkMade gateway_b [] CARRIER_MASQUE_H3;
                              mkMade gateway_a [] CARRIER_WIREGUARD]) = Some cached
  /\ usable_peers cached CARRIER_MASQUE_H3 = [gateway_b; gateway_a].
Proof.
  destruct (last_connections_ring ltac:(intros c; eexists; reflexivity) (mkMade gateway_b [] CARRIER_MASQUE_H3)
    [mkMade gateway_a [] CARRIER_MASQUE_H3; mkMade gateway_b [] CARRIER_MASQUE_H3; mkMade gateway_a [] CARRIER_WIREGUARD] CARRIER_MASQUE_H3) as (cached & Hl & Hu).
  - repeat constructor; vm_compute; discriminate.
  - exists cached. split; [exact Hl|]. rewrite Hu. vm_compute. reflexivity.
Defined.

Definition soon : Z := Prober.from_secs 5.
Definition round (t : Z) : @Round (list SocketAddr) := mkRound t true t [gateway_a; gateway_b] true soon.

Lemma masque_run_leaves_failing_gateway_witness :
  exists s log, reach (S := list SocketAddr) [] CARRIER_MASQUE_H3 s log
  /\ log = [Tunnel gateway_b 20 soon; GaveUp gateway_a 20; Tunnel gateway_a 10 soon; Tunnel gateway_a 0 soon]
  /\ 0 <= in_a_row (strikes s) <= 2.
Proof.
  assert (exists s, reach (S := list SocketAddr) [] CARRIER_MASQUE_H3 s
    ([Tunnel gateway_b 20 soon; GaveUp gateway_a 20] ++ [Tunnel gateway_a 10 soon] ++ [Tunnel gateway_a 0 soon] ++ [])) as (s & Hr).
  { eexists. eapply (reach_round _ _ _ _ (round 20)); [eapply (reach_round _ _ _ _ (round 10)); [eapply (reach_round _ _ _ _ (round 0));
      [apply (reach_start _ _ None None 0)| | |]| | |]| | |].
    all: try (vm_compute; reflexivity). all: try (vm_compute; discriminate). }
  exists s. eexists. split; [exact Hr|]. split; [reflexivity|]. exact (proj1 (masque_run_leaves_failing_gateway _ _ _ _ Hr)).
Defined.

Definition example_lookup (k : bytes) : option bytes :=
  if bool_decide (k = lit "AETHER_WIW_PEERS") then Some (lit "162.159.198.1:443,162.159.198.2:500") else None.

Lemma wiw_pair_roundtrip_witness : wiw_endpoints_with_fallback example_lookup = Ok (mkEndpoints (Some gateway_a) (Some gateway_b)).
Proof.
  apply (wiw_pair_roundtrip example_lookup gateway_a gateway_b 44); try (vm_compute; reflexivity); try (repeat split; vm_compute; discriminate).
Defined.

Lemma wiw_hops_of_settings_witness : sa_ip gateway_a <> sa_ip gateway_b.
Proof.
  destruct (wiw_hops_of_settings example_lookup (mkEndpoints (Some gateway_a) (Some gateway_b))) as [Hsep _]; [vm_compute; reflexivity|].
  apply Hsep; reflexivity.
Defined.

Lemma inner_tunnel_fits_witness : mim_inner_budget TUNNEL_MTU gateway_a false = (1252, 1182) /\ 1252 + 28 <= TUNNEL_MTU.
Proof. split; [reflexivity|]. apply (inner_tunnel_fits TUNNEL_MTU gateway_a). vm_compute. discriminate. Defined.

Lemma inner_hop_elsewhere_witness :
  exists cands rest, inner_masque_candidates gateway_a 3 true (replicate 300 7) = Some (cands, rest) /\ NoDup cands.
Proof.
  do 2 eexists. split; [vm_compute; reflexivity|].
  apply (inner_hop_elsewhere gateway_a 3 true (replicate 300 7) _ (replicate 48 7)); [vm_compute; split; discriminate|vm_compute; reflexivity].
Defined.
End examples.

End Session.
