(* ===== verification/WireGuard.v ===== *)
(** * The WireGuard tunnel ([aether/src/wireguard.rs])

    The reserved bytes that carry the client identifier, the health probe, and the four
    tasks of [WgTunnel::run] over the session they share: the reader, the writer, the
    timer and the health check, each iteration a function of the shared state, the run an
    interleaving of iterations.  The session is boringtun's and a parameter; sockets,
    channels and clocks are arguments.  Times are in nanoseconds. *)

From S2P Require Import Prelude Str Ip Error Octets Masque Prober.
Local Open Scope Z_scope.

(** The result of a call of the session. *)
Inductive TunnResult :=
| Done
| TunnErr (e : bytes)
| WriteToNetwork (pkt : bytes)
| WriteToTunnelV4 (pkt : bytes)
| WriteToTunnelV6 (pkt : bytes).

(** boringtun's sessions.  [decapsulate] of an empty datagram hands out what the session
    has queued for the network, one packet at a time, and the queue is finite. *)
Class BoringTun := {
  Tunn : Type;
  fresh_session : Tunn;
  decapsulate : Tunn -> bytes -> Tunn * TunnResult;
  encapsulate : Tunn -> bytes -> Tunn * TunnResult;
  update_timers : Tunn -> Z -> Tunn * TunnResult;
  queued : Tunn -> nat;
  decapsulate_drains t t' pkt : decapsulate t [] = (t', WriteToNetwork pkt) -> (queued t' < queued t)%nat;
}.

Module WireGuard.
Import Error.

Definition WG_MSG_TYPE_MIN : Z := 1.
Definition WG_MSG_TYPE_MAX : Z := 4.
Definition MAX_TRANSIENT_RECV_ERRORS : Z := 64.
Definition ENCAP_ERRORS_BEFORE_REKEY : Z := 24.
Definition REKEY_MIN_GAP : Z := Prober.from_secs 3.
Definition STALE_STRIKES_BEFORE_DEATH : Z := 2.
Definition MAX_ENCAP_BATCH : Z := 64.

(** ** The client identifier in the reserved bytes *)

(** [pkt[1..4].copy_from_slice(id)], when the packet is a WireGuard message. *)
Definition set_reserved (pkt id : bytes) : bytes :=
  if blen pkt <? 4 then pkt
  else
    match pkt with
    | ty :: rest => if (ty <? WG_MSG_TYPE_MIN) || (WG_MSG_TYPE_MAX <? ty) then pkt else ty :: id ++ drop 3 rest
    | [] => pkt
    end.
Definition inject_client_id (pkt client_id : bytes) : bytes := set_reserved pkt client_id.
Definition strip_client_id (pkt : bytes) : bytes := set_reserved pkt [0; 0; 0].

(** ** The health probe *)

Definition build_dns_query (id : Z) : bytes :=
  be16_bytes id ++ [1; 0] ++ [0; 1] ++ [0; 0; 0; 0; 0; 0]
  ++ concat (map (fun label => [wrap_u8 (blen label)] ++ label) [lit "cloudflare"; lit "com"])
  ++ [0] ++ [0; 1] ++ [0; 1].

(** The sum of the 16-bit words, a last odd byte in the high half. *)
Fixpoint add_words (header : bytes) (sum : Z) : Z :=
  match header with
  | a :: b :: t => add_words t (wrap_u32 (sum + u16_be a b))
  | [a] => wrap_u32 (sum + Z.shiftl a 8)
  | [] => sum
  end.
Definition fold_carry (sum : Z) : Z + Z :=
  if Z.shiftr sum 16 =? 0 then inr sum else inl (Z.land sum 65535 + Z.shiftr sum 16).
Definition ipv4_checksum (header : bytes) : Z :=
  65535 - wrap_u16 (default 0 (loop 4 fold_carry (add_words header 0))).

(** [id], [dns_id] and [sport] are the random numbers drawn. *)
Definition build_dataplane_probe (src dns_id id sport : Z) : bytes :=
  let dns := build_dns_query dns_id in
  let udp_len := 8 + blen dns in
  let total_len := 20 + udp_len in
  let head := [69] ++ [0] ++ be16_bytes (wrap_u16 total_len) ++ be16_bytes id ++ [0; 0] ++ [64] ++ [17] in
  let addresses := octets (V4 src) ++ octets (V4 (v4_new 8 8 8 8)) in
  let csum := ipv4_checksum (head ++ [0; 0] ++ addresses) in
  head ++ be16_bytes csum ++ addresses
  ++ be16_bytes sport ++ be16_bytes 53 ++ be16_bytes (wrap_u16 udp_len) ++ [0; 0] ++ dns.

Definition wg_stale_timeout (env : bytes -> option bytes) : Z :=
  Prober.from_secs (default 20 (v ← env (lit "AETHER_WG_STALE_SECS"); v ← parse_u64 v; if 0 <? v then Some (Z.min v 86400) else None)).

(** ** The tasks *)

Section tunnel.
Context `{BoringTun}.
Context (client_id : bytes) (noise : bool) (jc_after_hs stale_timeout : Z).

(** What the tasks share, and the locals they keep between iterations. *)
Record Wg := mkWg {
  tunn : Tunn; last_valid_rx : Z; rekey_now : bool; session_dead : bool; obf_sent : bool;
  transient_errors : Z; encap_errors : Z; obfuscation_settled : bool; post_hs_junk_sent : bool; last_rekey : Z; strikes : Z
}.

(** What an iteration does: a packet on the wire, a packet for the stack, noise of the
    three kinds, a new handshake. *)
Inductive Act := ToWire (pkt : bytes) | ToStack (pkt : bytes) | Obfuscation | PostHandshakeJunk | KeepaliveJunk | Rekey (t : Z).
(** How the tunnel ends, when a task ends it. *)
Inductive Outcome := Closed | Failed (e : AetherError).

Definition expired : AetherError := Other (lit "wireguard session expired and could not be re-handshaked").
Definition stale : AetherError := Other (lit "wireguard tunnel stale: no valid data from peer").

(** The reader's loop over the results of [decapsulate]: the session, what goes to the
    network, what goes to the stack, and whether anything valid came. *)
Fixpoint drain_session (fuel : nat) (t : Tunn) (result : TunnResult) (to_network : list bytes) (progressed : bool)
  : option (Tunn * list bytes * list bytes * bool) :=
  match result with
  | Done => Some (t, to_network, [], true)
  | TunnErr _ => Some (t, to_network, [], progressed)
  | WriteToTunnelV4 pkt | WriteToTunnelV6 pkt => Some (t, to_network, [pkt], true)
  | WriteToNetwork pkt =>
      match fuel with
      | O => None
      | S fuel => let '(t, result) := decapsulate t [] in drain_session fuel t result (to_network ++ [inject_client_id pkt client_id]) true
      end
  end.
Definition decapsulate_all (t : Tunn) (datagram : bytes) : option (Tunn * list bytes * list bytes * bool) :=
  let '(t, result) := decapsulate t datagram in drain_session (S (queued t)) t result [] false.

(** What the socket gives, and whether the stack takes a packet ([deliver_inbound]). *)
Inductive Received := Datagram (data : bytes) (stack_gone : bool) | RecvError (transient : bool).

Definition recv_iteration (s : Wg) (now : Z) (r : Received) : Wg * list Act * option Outcome :=
  match r with
  | Datagram [] _ => (s, [], None)
  | Datagram data stack_gone =>
      match decapsulate_all (tunn s) (strip_client_id data) with
      | None => (s, [], None)
      | Some (t, to_network, to_tunnel, progressed) =>
          let s := mkWg t (if progressed then now else last_valid_rx s) (rekey_now s) (session_dead s) (obf_sent s) 0 (encap_errors s)
                     (obfuscation_settled s) (post_hs_junk_sent s) (last_rekey s) (strikes s) in
          if stack_gone && negb (bool_decide (to_tunnel = [])) then (s, map ToWire to_network, Some Closed)
          else (s, map ToWire to_network ++ map ToStack to_tunnel, None)
      end
  | RecvError true =>
      let errors := transient_errors s + 1 in
      let s := mkWg (tunn s) (last_valid_rx s) (rekey_now s) (session_dead s) (obf_sent s) errors (encap_errors s)
                 (obfuscation_settled s) (post_hs_junk_sent s) (last_rekey s) (strikes s) in
      (s, [], if MAX_TRANSIENT_RECV_ERRORS <? errors then Some Closed else None)
  | RecvError false => (s, [], Some Closed)
  end.

(** The writer's loop over a batch: the session, the count of refusals, whether a new
    handshake is asked for, and the packets to send. *)
Definition encap_one (st : Tunn * Z * bool * list bytes) (ip_packet : bytes) : Tunn * Z * bool * list bytes :=
  let '(t, errors, rekey, wire) := st in
  match encapsulate t ip_packet with
  | (t, Done) => (t, 0, rekey, wire)
  | (t, TunnErr _) =>
      let errors := Z.min (errors + 1) U32_MAX in
      (t, errors, rekey || (ENCAP_ERRORS_BEFORE_REKEY <=? errors), wire)
  | (t, WriteToNetwork pkt) => (t, 0, rekey, wire ++ [inject_client_id pkt client_id])
  | (t, _) => (t, errors, rekey, wire)
  end.

(** An iteration of the writer: the packets of the queue, up to [MAX_ENCAP_BATCH]; [None]
    when the queue is closed. *)
Definition send_iteration (s : Wg) (batch : option (list bytes)) : Wg * list Act * option Outcome :=
  match batch with
  | None => (s, [], Some Closed)
  | Some batch =>
      let '(t, errors, rekey, wire) := fold_left encap_one batch (tunn s, encap_errors s, rekey_now s, []) in
      let s := mkWg t (last_valid_rx s) rekey (session_dead s) (obf_sent s) (transient_errors s) errors
                 (obfuscation_settled s) (post_hs_junk_sent s) (last_rekey s) (strikes s) in
      if bool_decide (wire = []) then (s, [], None)
      else
        let obfuscate := negb (obfuscation_settled s) && negb (obf_sent s) && noise in
        let junk := (0 <? jc_after_hs) && negb (post_hs_junk_sent s) in
        (mkWg (tunn s) (last_valid_rx s) (rekey_now s) (session_dead s) (obf_sent s || obfuscate) (transient_errors s) (encap_errors s)
           true (post_hs_junk_sent s || junk) (last_rekey s) (strikes s),
         (if obfuscate then [Obfuscation] else []) ++ map ToWire wire ++ (if junk then [PostHandshakeJunk] else []), None)
  end.

Definition timer_iteration (s : Wg) (now : Z) : Wg * list Act * option Outcome :=
  let want_rekey := rekey_now s in
  let '(t, result) := update_timers (tunn s) now in
  let '(want_rekey, outgoing) :=
    match result with
    | WriteToNetwork pkt => (want_rekey, [inject_client_id pkt client_id])
    | TunnErr _ => (true, [])
    | _ => (want_rekey, [])
    end in
  let '(t, dead, at_, outgoing, acts) :=
    if want_rekey && (REKEY_MIN_GAP <=? now - last_rekey s) then
      match encapsulate fresh_session [] with
      | (t, WriteToNetwork pkt) => (t, session_dead s, now, outgoing ++ [inject_client_id pkt client_id], [Rekey now])
      | (t, _) => (t, true, now, outgoing, [Rekey now])
      end
    else (t, session_dead s, last_rekey s, outgoing, []) in
  (mkWg t (last_valid_rx s) false dead (obf_sent s) (transient_errors s) (encap_errors s) (obfuscation_settled s) (post_hs_junk_sent s) at_ (strikes s),
   acts ++ (if negb (bool_decide (outgoing = [])) && noise then [KeepaliveJunk] else []) ++ map ToWire outgoing, None).

Definition send_dataplane_probe (t : Tunn) (probe : bytes) : Tunn * list Act :=
  match encapsulate t probe with
  | (t, WriteToNetwork pkt) => (t, [ToWire (inject_client_id pkt client_id)])
  | (t, _) => (t, [])
  end.

Definition health_iteration (s : Wg) (now : Z) (probe : bytes) : Wg * list Act * option Outcome :=
  if session_dead s then (s, [], Some (Failed expired))
  else
    let idle := now - last_valid_rx s in
    let rekey := rekey_now s || (stale_timeout / 2 <=? idle) in
    let strikes_ := if stale_timeout <=? idle then Z.min (strikes s + 1) U32_MAX else 0 in
    let s := mkWg (tunn s) (last_valid_rx s) rekey (session_dead s) (obf_sent s) (transient_errors s) (encap_errors s)
               (obfuscation_settled s) (post_hs_junk_sent s) (last_rekey s) strikes_ in
    if (stale_timeout <=? idle) && (STALE_STRIKES_BEFORE_DEATH <=? strikes_) then (s, [], Some (Failed stale))
    else
      let '(t, acts) := send_dataplane_probe (tunn s) probe in
      (mkWg t (last_valid_rx s) (rekey_now s) (session_dead s) (obf_sent s) (transient_errors s) (encap_errors s)
         (obfuscation_settled s) (post_hs_junk_sent s) (last_rekey s) (strikes s), acts, None).

(** ** The run: iterations of the four tasks in any order *)

Inductive Event := Recv (now : Z) (r : Received) | Send (now : Z) (batch : option (list bytes)) | Timer (now : Z) | Health (now : Z) (probe : bytes).
Definition time (e : Event) : Z := match e with Recv t _ | Send t _ | Timer t | Health t _ => t end.
Definition iteration (s : Wg) (e : Event) : Wg * list Act * option Outcome :=
  match e with
  | Recv now r => recv_iteration s now r
  | Send _ batch => send_iteration s batch
  | Timer now => timer_iteration s now
  | Health now probe => health_iteration s now probe
  end.

(** The state at the start of [run] at [t]. *)
Definition wg_start (session : Tunn) (t : Z) (obf_sent : bool) : Wg := mkWg session t false false obf_sent 0 0 false false (t - REKEY_MIN_GAP) 0.

(** The run over events: the state, what was done (the newest first), and the end. *)
Inductive reach (session : Tunn) (t0 : Z) (obf : bool) : Wg -> Z -> list Act -> Prop :=
| reach_start : reach session t0 obf (wg_start session t0 obf) t0 []
| reach_step s now acts e s' new :
    reach session t0 obf s now acts -> now <= time e -> iteration s e = (s', new, None) -> reach session t0 obf s' (time e) (rev new ++ acts).
End tunnel.

(** ** The reserved bytes *)

Definition is_message (pkt : bytes) : bool :=
  match pkt with ty :: _ => (4 <=? blen pkt) && (1 <=? ty) && (ty <=? 4) | [] => false end.

Lemma set_reserved_spec pkt id : blen id = 3 ->
  set_reserved pkt id = if is_message pkt then sub pkt 0 1 ++ id ++ sub pkt 4 (blen pkt) else pkt.
Proof.
  intros Hid. unfold set_reserved, is_message, WG_MSG_TYPE_MIN, WG_MSG_TYPE_MAX. destruct pkt as [|ty rest]; [done|].
  destruct (Z.ltb_spec (blen (ty :: rest)) 4), (Z.leb_spec 4 (blen (ty :: rest))); try lia; try done. cbn [andb].
  destruct (Z.ltb_spec ty 1), (Z.leb_spec 1 ty); try lia; try done. cbn [orb andb].
  destruct (Z.ltb_spec 4 ty), (Z.leb_spec ty 4); try lia; try done.
  change (sub (ty :: rest) 0 1) with [ty]. cbn [app]. f_equal. f_equal. unfold sub. change (Z.to_nat 4) with 4%nat. cbn [drop].
  rewrite take_ge; [done|]. rewrite length_drop. unfold blen. cbn [length]. lia.
Qed.

(** A message that carries the identifier, and any packet that is no message. *)
Definition carries (client_id pkt : bytes) : Prop := is_message pkt = true -> sub pkt 1 4 = client_id.

Lemma inject_carries pkt id : blen id = 3 -> carries id (inject_client_id pkt id).
Proof.
  intros Hid. unfold carries, inject_client_id. rewrite set_reserved_spec by done. destruct (is_message pkt) eqn:Hm; [|by rewrite Hm].
  intros _. destruct pkt as [|ty rest]; [done|]. apply (sub_at _ [ty] id (sub (ty :: rest) 4 (blen (ty :: rest)))); [done|done|].
  change (blen [ty]) with 1. lia.
Qed.

Lemma is_message_reserved pkt id : blen id = 3 -> is_message (set_reserved pkt id) = is_message pkt.
Proof.
  intros Hid. rewrite set_reserved_spec by done. destruct (is_message pkt) eqn:Hm; [|done]. destruct pkt as [|ty rest]; [done|].
  cbn [is_message sub] in *. change (sub (ty :: rest) 0 1) with [ty]. cbn [app is_message]. zbool.
  assert (blen (sub (ty :: rest) 4 (blen (ty :: rest))) = blen (ty :: rest) - 4) as Hb by (apply blen_sub; lia).
  rewrite (proj2 (Z.leb_le 4 _)), (proj2 (Z.leb_le 1 ty)), (proj2 (Z.leb_le ty 4)); [done|lia|lia|].
  rewrite blen_cons, blen_app, Hb. lia.
Qed.

(** The peer that strips the identifier gets the packet of the session. *)
Lemma strip_inject pkt id : blen id = 3 -> strip_client_id (inject_client_id pkt id) = strip_client_id pkt.
Proof.
  intros Hid. unfold strip_client_id, inject_client_id. rewrite (set_reserved_spec (set_reserved pkt id)) by done. rewrite is_message_reserved by done.
  rewrite !(set_reserved_spec pkt) by done. destruct (is_message pkt) eqn:Hm; [|done].
  destruct pkt as [|ty rest]; [done|]. cbn [is_message] in Hm. zbool. change (sub (ty :: rest) 0 1) with [ty]. f_equal. f_equal.
  set (tail := sub (ty :: rest) 4 (blen (ty :: rest))). apply (sub_at _ ([ty] ++ id) tail []).
  - rewrite app_nil_r. by rewrite <- app_assoc.
  - rewrite blen_app, Hid. done.
  - rewrite !blen_app. lia.
Qed.

(** ** The two probe builders *)

(** The health probe of this tunnel is the probe packet of the MASQUE tunnel. *)
Theorem probe_builders_agree src dns_id id sport :
  Masque.build_dns_probe_packet src id dns_id sport = Ok (build_dataplane_probe src dns_id id sport).
Proof.
  unfold Masque.build_dns_probe_packet, build_dataplane_probe. cbn zeta.
  change (Masque.probe_dns_query dns_id) with (build_dns_query dns_id). set (dns := build_dns_query dns_id).
  assert (blen dns = 32) as Hd by done. rewrite Hd. change (wrap_u16 (20 + (8 + 32))) with 60. change (wrap_u16 (8 + 32)) with 40. clearbody dns.
  set (pre := [69] ++ [0] ++ be16_bytes 60 ++ be16_bytes id ++ [0; 0] ++ [64] ++ [17]).
  set (post := octets (V4 src) ++ octets (V4 (v4_new 8 8 8 8))).
  change ([69] ++ [0] ++ be16_bytes 60 ++ be16_bytes id ++ [0; 0] ++ [64] ++ [17] ++ [0; 0] ++ ?t) with (pre ++ [0; 0] ++ t). fold post.
  assert (blen post = 8) as Hpost by done. assert (blen pre = 10) as Hpre by done.
  rewrite !slice_ok by (vm_compute; congruence). rsimp.
  rewrite (sub_at _ [] (pre ++ [0; 0] ++ post) []) by ((by rewrite app_nil_r) || done).
  change (Masque.ipv4_header_checksum (pre ++ [0; 0] ++ post)) with (ipv4_checksum (pre ++ [0; 0] ++ post)).
  set (c := ipv4_checksum (pre ++ [0; 0] ++ post)). clearbody c.
  assert (Octets.splice (pre ++ [0; 0] ++ post) 10 (be16_bytes c) = pre ++ be16_bytes c ++ post) as ->.
  { unfold Octets.splice. rewrite (sub_at _ [] pre ([0; 0] ++ post)) by done.
    rewrite (sub_at _ (pre ++ [0; 0]) post []) by ((rewrite app_nil_r; solve_app) || done). done. }
  clearbody pre post. by rewrite <- !app_assoc.
Qed.

(** ** The run *)

Section run.
Context `{BoringTun}.
Context (client_id : bytes) (noise : bool) (jc_after_hs stale_timeout : Z).

(** The reader's loop ends: the session's queue is finite. *)
Lemma drain_session_total fuel : forall t result to_network progressed,
  (match result with WriteToNetwork _ => queued t < fuel | _ => True end)%nat ->
  is_Some (drain_session client_id fuel t result to_network progressed).
Proof.
  induction fuel as [|fuel IH]; intros t result to_network progressed Hq; destruct result; cbn [drain_session]; try (by eexists); [lia|].
  destruct (decapsulate t []) as [t' r'] eqn:Hd. apply IH. destruct r'; try done. apply decapsulate_drains in Hd. lia.
Qed.
Lemma decapsulate_all_total t datagram : is_Some (decapsulate_all client_id t datagram).
Proof. unfold decapsulate_all. destruct (decapsulate t datagram) as [t' r]. apply drain_session_total. destruct r; (done || lia). Qed.

Definition wire_ok (a : Act) : Prop := match a with ToWire pkt => carries client_id pkt | _ => True end.

Lemma map_wire_ok l : Forall (carries client_id) l -> Forall wire_ok (map ToWire l).
Proof. intros Hl. apply Forall_map. eapply Forall_impl; [exact Hl|]. done. Qed.

Lemma drain_session_wire fuel : blen client_id = 3 -> forall t result to_network progressed t' net stack p,
  drain_session client_id fuel t result to_network progressed = Some (t', net, stack, p) -> Forall (carries client_id) to_network -> Forall (carries client_id) net.
Proof.
  intros Hid. induction fuel as [|fuel IH]; intros t result to_network progressed t' net stack p; destruct result; cbn [drain_session];
    try (intros [= <- <- <- <-]; done).
  destruct (decapsulate t []) as [t1 r1]. intros Hr Hall. apply (IH _ _ _ _ _ _ _ _ Hr). apply Forall_app. split; [done|].
  constructor; [by apply inject_carries|constructor].
Qed.

Lemma encap_batch_wire : blen client_id = 3 -> forall batch t errors rekey wire,
  Forall (carries client_id) wire -> Forall (carries client_id) (fold_left (encap_one client_id) batch (t, errors, rekey, wire)).2.
Proof.
  intros Hid. induction batch as [|pkt batch IH]; intros t errors rekey wire Hw; cbn [fold_left]; [done|].
  unfold encap_one at 2. destruct (encapsulate t pkt) as [t' []]; apply IH; try done. apply Forall_app. split; [done|].
  constructor; [by apply inject_carries|constructor].
Qed.

Ltac invert_iteration H := injection H as <- <- <-.

Lemma iteration_wire s e s' acts o : blen client_id = 3 ->
  iteration client_id noise jc_after_hs stale_timeout s e = (s', acts, o) -> Forall wire_ok acts.
Proof.
  intros Hid. assert (forall pkt, wire_ok (ToWire (inject_client_id pkt client_id))) as Hinj by (intros pkt; by apply inject_carries).
  destruct e as [now r|now batch|now|now probe]; cbn [iteration].
  - unfold recv_iteration. destruct r as [[|b data] gone|[]]; try (intros Hi; invert_iteration Hi; constructor).
    destruct (decapsulate_all client_id (tunn s) (strip_client_id (b :: data))) as [[[[t net] stack] p]|] eqn:Hd; [|intros Hi; invert_iteration Hi; constructor].
    assert (Forall wire_ok (map ToWire net)) as Hnet.
    { apply map_wire_ok. unfold decapsulate_all in Hd. destruct (decapsulate (tunn s) _) as [t1 r1]. by eapply drain_session_wire. }
    destruct (gone && _); intros Hi; invert_iteration Hi; [done|]. apply Forall_app. split; [done|]. by apply Forall_map, Forall_true.
  - unfold send_iteration. destruct batch as [batch|]; [|intros Hi; invert_iteration Hi; constructor].
    pose proof (encap_batch_wire Hid batch (tunn s) (encap_errors s) (rekey_now s) [] ltac:(constructor)) as Hw.
    destruct (fold_left (encap_one client_id) batch _) as [[[t errors] rekey] wire]. cbn [snd] in Hw. case_bool_decide; intros Hi; invert_iteration Hi; [constructor|].
    apply Forall_app. split; [destruct (_ && _); repeat constructor|]. apply Forall_app. split; [by apply map_wire_ok|]. destruct (_ && _); repeat constructor.
  - unfold timer_iteration. destruct (update_timers (tunn s) now) as [t r].
    assert (exists w out, (match r with WriteToNetwork pkt => (rekey_now s, [inject_client_id pkt client_id]) | TunnErr _ => (true, []) | _ => (rekey_now s, []) end) = (w, out)
      /\ Forall (carries client_id) out) as (w & out & -> & Hout).
    { destruct r; do 2 eexists; (split; [reflexivity|]); try constructor; [by apply inject_carries|constructor]. }
    assert (forall out, Forall (carries client_id) out -> Forall wire_ok ((if negb (bool_decide (out = [])) && noise then [KeepaliveJunk] else []) ++ map ToWire out)) as Hall.
    { intros l Hl. apply Forall_app. split; [destruct (_ && _); repeat constructor|by apply map_wire_ok]. }
    destruct (w && _); [|intros Hi; invert_iteration Hi; by apply Hall].
    destruct (encapsulate fresh_session []) as [t' []]; intros Hi; invert_iteration Hi; (constructor; [done|]); apply Hall; try done.
    apply Forall_app. split; [done|]. constructor; [by apply inject_carries|constructor].
  - unfold health_iteration. destruct (session_dead s); [intros Hi; invert_iteration Hi; constructor|]. destruct (_ && _); [intros Hi; invert_iteration Hi; constructor|].
    cbn [tunn]. unfold send_dataplane_probe. destruct (encapsulate (tunn s) probe) as [t []]; intros Hi; invert_iteration Hi; repeat constructor. by apply inject_carries.
Qed.

(** Times of the handshakes forced in place. *)
Lemma iteration_rekey s e s' acts o :
  iteration client_id noise jc_after_hs stale_timeout s e = (s', acts, o) ->
  (last_rekey s' = last_rekey s /\ forall t, Rekey t ∉ acts)
  \/ (last_rekey s' = time e /\ last_rekey s + REKEY_MIN_GAP <= time e
      /\ exists rest, acts = Rekey (time e) :: rest /\ forall t, Rekey t ∉ rest).
Proof.
  assert (forall l t, Rekey t ∉ map ToWire l) as Hw by (intros l t (p & E & _)%list_elem_of_fmap; discriminate).
  assert (forall l t, Rekey t ∉ map ToStack l) as Hs by (intros l t (p & E & _)%list_elem_of_fmap; discriminate).
  destruct e as [now r|now batch|now|now probe]; cbn [iteration time].
  - unfold recv_iteration. intros Hi. left. destruct r as [[|b data] gone|[]]; try (invert_iteration Hi; split; [done|set_solver]).
    destruct (decapsulate_all client_id (tunn s) (strip_client_id (b :: data))) as [[[[t net] stack] p]|]; [|invert_iteration Hi; split; [done|set_solver]].
    destruct (gone && _); invert_iteration Hi; (split; [done|]); [done|]. intros t' [?|?]%elem_of_app; [by eapply Hw|by eapply Hs].
  - unfold send_iteration. intros Hi. left. destruct batch as [batch|]; [|invert_iteration Hi; split; [done|set_solver]].
    destruct (fold_left (encap_one client_id) batch _) as [[[t errors] rekey] wire]. case_bool_decide; invert_iteration Hi; (split; [done|]); [set_solver|].
    intros t' [Hin|[Hin|Hin]%elem_of_app]%elem_of_app; [|by eapply Hw|]; destruct (_ && _) in Hin; set_solver.
  - unfold timer_iteration. destruct (update_timers (tunn s) now) as [t r].
    destruct (match r with WriteToNetwork pkt => (rekey_now s, [inject_client_id pkt client_id]) | TunnErr _ => (true, []) | _ => (rekey_now s, []) end) as [w out].
    assert (forall out t, Rekey t ∉ (if negb (bool_decide (out = [])) && noise then [KeepaliveJunk] else []) ++ map ToWire out) as Hno.
    { intros l t' [Hin|Hin]%elem_of_app; [destruct (_ && _) in Hin; set_solver|by eapply Hw]. }
    destruct (w && (REKEY_MIN_GAP <=? now - last_rekey s)) eqn:Hc; [|intros Hi; invert_iteration Hi; left; by split].
    zbool. intros Hi. right. destruct (encapsulate fresh_session []) as [t' []]; invert_iteration Hi; (split; [done|]); (split; [lia|]); eexists; (split; [reflexivity|apply Hno]).
  - unfold health_iteration. intros Hi. left. destruct (session_dead s); [invert_iteration Hi; split; [done|set_solver]|].
    destruct (_ && _); [invert_iteration Hi; split; [done|set_solver]|]. cbn [tunn] in Hi. unfold send_dataplane_probe in Hi.
    destruct (encapsulate (tunn s) probe) as [t []]; invert_iteration Hi; (split; [done|set_solver]).
Qed.

Lemma elem_of_rev {A} (x : A) l : x ∈ rev l <-> x ∈ l.
Proof. rewrite !list_elem_of_In. symmetry. apply in_rev. Qed.

(** Every WireGuard message the tunnel puts on the wire carries the client's identifier
    in its reserved bytes, in whatever order the tasks run; a peer that clears them gets
    what the session made of the packet. *)
Theorem wire_carries_client_id session t0 obf s now acts pkt : blen client_id = 3 ->
  reach client_id noise jc_after_hs stale_timeout session t0 obf s now acts -> ToWire pkt ∈ acts ->
  is_message pkt = true -> sub pkt 1 4 = client_id.
Proof.
  intros Hid Hr Hin. enough (Forall wire_ok acts) as Hall by (rewrite Forall_forall in Hall; exact (Hall _ Hin)).
  clear Hin. induction Hr as [|s now acts e s' new _ IH _ Hi]; [constructor|]. apply Forall_app. split; [|done].
  apply Forall_rev. by apply iteration_wire in Hi.
Qed.

(** C20.  Whatever asks for it, and in whatever order the tasks run, the session is handshaked
    anew in place at most once in three seconds. *)
Theorem rekeys_are_spaced session t0 obf s now acts :
  reach client_id noise jc_after_hs stale_timeout session t0 obf s now acts ->
  forall newer older t t', acts = newer ++ Rekey t :: older -> Rekey t' ∈ older -> t' + REKEY_MIN_GAP <= t.
Proof.
  intros Hr. enough (last_rekey s <= now /\ (forall t, Rekey t ∈ acts -> t <= last_rekey s)
    /\ forall newer older t t', acts = newer ++ Rekey t :: older -> Rekey t' ∈ older -> t' + REKEY_MIN_GAP <= t) by tauto.
  induction Hr as [|s now acts e s' new _ (Hn & Hl & Hs) Ht Hi].
  - unfold wg_start, REKEY_MIN_GAP, Prober.from_secs. cbn. split; [lia|]. split; [set_solver|]. intros [] ???; done.
  - assert (forall l, (forall t, Rekey t ∉ l) -> forall newer older t t', l ++ acts = newer ++ Rekey t :: older -> Rekey t' ∈ older -> t' + REKEY_MIN_GAP <= t) as Hskip.
    { induction l as [|a l IHl]; intros Hno newer older t t' Heq Hin; [by eapply Hs|]. destruct newer as [|b newer].
      - injection Heq as -> _. exfalso. apply (Hno t). set_solver.
      - injection Heq as _ Heq. eapply (IHl ltac:(set_solver)); [exact Heq|done]. }
    destruct (iteration_rekey _ _ _ _ _ Hi) as [[He Hno]|(He & Hgap & rest & -> & Hno)]; rewrite He.
    + split; [lia|]. split.
      * intros t [Hin|Hin]%elem_of_app; [|by apply Hl]. rewrite elem_of_rev in Hin. by apply Hno in Hin.
      * apply Hskip. intros t. rewrite elem_of_rev. apply Hno.
    + cbn [rev]. rewrite <- app_assoc. cbn [app]. assert (forall t, Rekey t ∉ rev rest) as Hno' by (intros t; rewrite elem_of_rev; apply Hno).
      assert (forall t, Rekey t ∈ acts -> t + REKEY_MIN_GAP <= time e) as Hold by (intros t Hin%Hl; lia).
      split; [lia|]. split.
      * intros t [Hin|[[= ->]|Hin]%elem_of_cons]%elem_of_app; [by apply Hno' in Hin|lia|]. apply Hl in Hin. unfold REKEY_MIN_GAP, Prober.from_secs in *. lia.
      * clear Hi Hskip. induction (rev rest) as [|a l IHl]; intros newer older t t' Heq Hin.
        -- destruct newer as [|b newer]; [injection Heq as <- <-; by apply Hold|]. injection Heq as _ Heq. by eapply Hs.
        -- destruct newer as [|b newer]; [injection Heq as -> _; exfalso; apply (Hno' t); set_solver|].
           injection Heq as _ Heq. eapply (IHl ltac:(set_solver)); [exact Heq|done].
Qed.

(** Iterations that bring no valid data: none of the health check, and of the reader only
    errors. *)
Definition silent (e : Event) : Prop := match e with Send _ _ | Timer _ | Recv _ (RecvError _) => True | _ => False end.
Inductive silence : Wg -> Wg -> Prop :=
| silence_nil s : silence s s
| silence_step s e s' acts s'' : silent e -> iteration client_id noise jc_after_hs stale_timeout s e = (s', acts, None) -> silence s' s'' -> silence s s''.

Lemma silence_keeps s s' : silence s s' -> last_valid_rx s' = last_valid_rx s /\ strikes s' = strikes s.
Proof.
  induction 1 as [|s e s1 acts s'' Hq Hi _ [IH1 IH2]]; [done|]. rewrite IH1, IH2. clear IH1 IH2.
  destruct e as [now r|now batch|now|now probe]; [destruct r as [data gone|[]]|destruct batch as [batch|]| |]; try done; cbn [iteration recv_iteration send_iteration] in Hi.
  - by simplify_eq/=.
  - destruct (fold_left _ _ _) as [[[t errors] rekey] wire]. case_bool_decide; by simplify_eq/=.
  - unfold timer_iteration in Hi. destruct (update_timers (tunn s) now) as [t r]. destruct (match r with WriteToNetwork pkt => _ | _ => _ end) as [w out].
    destruct (w && _); [destruct (encapsulate fresh_session []) as [t' []]|]; by simplify_eq/=.
Qed.

(** A peer that is silent is noticed: when two health checks in a row find that nothing
    valid came for the time allowed, the second ends the tunnel, whatever the other tasks
    do between them.  A check that finds something newer never does. *)
Theorem silent_peer_is_noticed s now1 probe1 s1 acts1 s2 now2 probe2 :
  0 <= strikes s -> iteration client_id noise jc_after_hs stale_timeout s (Health now1 probe1) = (s1, acts1, None) -> silence s1 s2 -> now1 <= now2 ->
  (stale_timeout <= now1 - last_valid_rx s ->
   exists e, (iteration client_id noise jc_after_hs stale_timeout s2 (Health now2 probe2)).2 = Some (Failed e))
  /\ (now2 - last_valid_rx s < stale_timeout ->
      (iteration client_id noise jc_after_hs stale_timeout s2 (Health now2 probe2)).2 = if session_dead s2 then Some (Failed expired) else None).
Proof.
  intros Hs0 H1 Hsil Hle. cbn [iteration] in *. destruct (silence_keeps _ _ Hsil) as [Hlv Hst]. unfold health_iteration in H1.
  destruct (session_dead s); [done|]. cbn zeta in H1. destruct (_ && _) eqn:Hdead; [done|]. destruct (send_dataplane_probe client_id _ probe1) as [t a].
  injection H1 as <- _. cbn [last_valid_rx strikes] in Hlv, Hst. unfold health_iteration. split.
  - intros Hidle. destruct (session_dead s2); [by eexists|]. cbn zeta. rewrite Hlv, Hst. rewrite !(proj2 (Z.leb_le stale_timeout _)) by lia.
    rewrite (proj2 (Z.leb_le STALE_STRIKES_BEFORE_DEATH _)) by (unfold STALE_STRIKES_BEFORE_DEATH, U32_MAX; lia). by eexists.
  - intros Hidle. destruct (session_dead s2); [done|]. cbn zeta. rewrite Hlv, (proj2 (Z.leb_gt stale_timeout _)) by lia. cbn [andb].
    by destruct (send_dataplane_probe client_id _ probe2).
Qed.
End run.

(** ** The theorems at work *)

(** A session whose state is the length of its queue, and whose timers always expire. *)
Definition queue_tun : BoringTun.
Proof.
  refine {| Tunn := nat; fresh_session := 0%nat;
            decapsulate n data := match data, n with
                                  | [], O => (O, Done)
                                  | [], S n => (n, WriteToNetwork [1; 0; 0; 0])
                                  | _, _ => (n, WriteToTunnelV4 data)
                                  end;
            encapsulate n pkt := (n, WriteToNetwork ([4; 0; 0; 0] ++ pkt));
            update_timers n _ := (n, TunnErr (lit "ConnectionExpired"));
            queued n := n |}.
  intros [|n] t' pkt Hd; [done|]. injection Hd as <- _. lia.
Defined.

Section examples.
#[local] Existing Instance queue_tun.

Definition q0 : @Tunn queue_tun := 0%nat.
Definition example_reach :
  reach [7; 8; 9] true 0 (Prober.from_secs 20) q0 0 true
    (mkWg q0 0 false false true 0 0 true false (Prober.from_secs 4) 0) (Prober.from_secs 4)
    (rev [Rekey (Prober.from_secs 4); KeepaliveJunk; ToWire [4; 7; 8; 9]]
     ++ rev [Rekey 1; KeepaliveJunk; ToWire [4; 7; 8; 9]] ++ rev [ToWire [4; 7; 8; 9; 69]] ++ []).
Proof.
  refine (reach_step [7; 8; 9] true 0 (Prober.from_secs 20) q0 0 true _ 1 _ (Timer (Prober.from_secs 4)) _ _
    (reach_step [7; 8; 9] true 0 (Prober.from_secs 20) q0 0 true _ 0 _ (Timer 1) _ _
      (reach_step [7; 8; 9] true 0 (Prober.from_secs 20) q0 0 true _ 0 _ (Send 0 (Some [[69]])) _ _ (reach_start _ _ _ _ _ _ _) _ _) _ _) _ _).
  all: try (vm_compute; reflexivity). all: vm_compute; discriminate.
Defined.

Lemma wire_carries_client_id_witness : sub [4; 7; 8; 9; 69] 1 4 = [7; 8; 9].
Proof.
  apply (wire_carries_client_id [7; 8; 9] true 0 (Prober.from_secs 20) q0 0 true _ _ _ [4; 7; 8; 9; 69] eq_refl example_reach); [|reflexivity].
  apply list_elem_of_In. cbn. tauto.
Defined.

Lemma rekeys_are_spaced_witness : 1 + REKEY_MIN_GAP <= Prober.from_secs 4.
Proof.
  apply (rekeys_are_spaced [7; 8; 9] true 0 (Prober.from_secs 20) q0 0 true _ _ _ example_reach
    [ToWire [4; 7; 8; 9]; KeepaliveJunk] (rev [Rekey 1; KeepaliveJunk; ToWire [4; 7; 8; 9]] ++ rev [ToWire [4; 7; 8; 9; 69]] ++ [])); [reflexivity|].
  apply list_elem_of_In. cbn. tauto.
Defined.

Lemma silent_peer_is_noticed_witness :
  exists e, (iteration [7; 8; 9] true 0 (Prober.from_secs 20)
    (mkWg q0 0 true false true 0 0 false false (- REKEY_MIN_GAP) 1) (Health (Prober.from_secs 24) [])).2 = Some (Failed e).
Proof.
  apply (silent_peer_is_noticed [7; 8; 9] true 0 (Prober.from_secs 20) (wg_start q0 0 true) (Prober.from_secs 21) [] 
    (mkWg q0 0 true false true 0 0 false false (- REKEY_MIN_GAP) 1) [ToWire [4; 7; 8; 9]]); try (vm_compute; reflexivity); try (vm_compute; discriminate).
  apply silence_nil.
Defined.
End examples.

End WireGuard.
