(* ===== verification/Noize.v ===== *)
(** * Packet noise ([aether/src/noize.rs], [aether/src/aethernoize.rs])

    The packets sent before and after a handshake to hide it: the profiles, junk of a
    random size, and signature packets made from a specification such as
    [<b 0d0a0d0a><t><r 24>].  The generator is a list of words, the clock an argument, and
    the hex and regex crates are classes.  What is sent is a list of packets in order. *)

From S2P Require Import Prelude Str Ip Text Error Octets Masque Prober WireGuard.
Local Open Scope Z_scope.

(** The hex crate: [decode] reads the digits [encode] writes. *)
Class HexCrate := {
  hex_decode : bytes -> option bytes;
  hex_decode_digits l : all_bytes l -> hex_decode (concat (map (fun b => [hex_digit (b / 16); hex_digit (b mod 16)]) l)) = Some l;
}.

(** The captures of the static pattern of [parse_cps] in a text: small letters after [<],
    and the rest up to [>]. *)
Class TagPattern := { captures : bytes -> list (bytes * bytes) }.

Module Noize.
#[local] Existing Instances Prober.draw_ret Prober.draw_bind.
Import Prober(draw, next_word, draw_map).

(** ** Profiles of the MASQUE tunnel *)

Record NoizeConfig := mkNoize {
  jc_before_hs : Z; jc_after_i1 : Z; jmin : Z; jmax : Z; i1 : option bytes; i2 : option bytes; junk_interval : Z
}.
Definition noize_off : NoizeConfig := mkNoize 0 0 0 0 None None 0.
Definition noize_firewall : NoizeConfig := mkNoize 2 2 48 190 (Some (lit "<b 0d0a0d0a><t><r 24>")) (Some (lit "<r 48>")) (Prober.from_millis 4).
Definition noize_light : NoizeConfig := mkNoize 1 0 32 96 (Some (lit "<b 0d0a0d0a><t><r 16>")) None (Prober.from_millis 3).
Definition noize_gfw : NoizeConfig := mkNoize 2 1 64 256 (Some (lit "<b 0d0a0d0a><t><r 24>")) (Some (lit "<r 32>")) (Prober.from_millis 5).
Definition noize_is_enabled (c : NoizeConfig) : bool := (0 <? jc_before_hs c) || (0 <? jc_after_i1 c) || negb (bool_decide (i1 c = None)).
Definition noize_from_profile (name : bytes) : NoizeConfig :=
  if Prober.one_of name [lit "off"; lit "none"] then noize_off
  else if bool_decide (name = lit "light") then noize_light
  else if Prober.one_of name [lit "gfw"; lit "aggressive"; lit "heavy"] then noize_gfw
  else noize_firewall.

Section noise.
Context `{RandCrate, HexCrate}.

(** [random_range(lo..=hi)] and [fill_bytes] on [n] bytes. *)
Definition random_in (lo hi : Z) : draw Z := w ← next_word; mret (lo + random_below (hi - lo + 1) w).
Definition fill_bytes (n : Z) : draw bytes := draw_map (fun _ => w ← next_word; mret (random_below 256 w)) (replicate (Z.to_nat n) tt).

Definition junk_packet (c : NoizeConfig) : draw bytes :=
  let '(lo, hi) := if (jmin c <? jmax c) && (0 <? jmin c) then (jmin c, jmax c) else (40, 90) in
  size ← random_in lo hi;
  fill_bytes size.

(** What a tag stands for; [now] is the time in seconds. *)
Definition cps_tag (now : Z) (tag data : bytes) : draw bytes :=
  if bool_decide (tag = lit "b") then mret (default [] (hex_decode (concat (split_whitespace data))))
  else if bool_decide (tag = lit "t") then mret (be32_bytes (wrap_u32 now))
  else if bool_decide (tag = lit "n") then w ← next_word; mret (be_bytes 8 (random_below (2 ^ 64) w))
  else if bool_decide (tag = lit "r") then
    let len := Z.min (default 0 (parse_u64 data)) 1024 in
    if 0 <? len then fill_bytes len else mret []
  else mret [].

(** The loop of [parse_cps] over what is left of the specification. *)
Fixpoint cps_loop (fuel : nat) (now : Z) (spec : bytes) (out : bytes) : draw bytes :=
  match fuel with
  | O => mret out
  | S fuel =>
      match spec with
      | [] => mret out
      | b :: rest =>
          if negb (b =? 60) then cps_loop fuel now rest out
          else
            match find_char 62 spec with
            | None => mret out
            | Some e =>
                let inner := trim (sub spec 1 e) in
                let '(tag, rest) := take_word inner in
                piece ← cps_tag now tag (trim rest);
                cps_loop fuel now (sub spec (e + 1) (blen spec)) (out ++ piece)
            end
      end
  end.
Definition noize_parse_cps (now : Z) (spec : bytes) : draw bytes := cps_loop (S (length spec)) now spec [].

(** The packets of [pre_handshake], in order. *)
Definition signature (now : Z) (spec : option bytes) : draw (list bytes) :=
  match spec with
  | Some spec => pkt ← noize_parse_cps now spec; mret (if bool_decide (pkt = []) then [] else [pkt])
  | None => mret []
  end.
Definition pre_handshake (now : Z) (c : NoizeConfig) : draw (list bytes) :=
  if negb (noize_is_enabled c) then mret []
  else
    before ← draw_map (fun _ => junk_packet c) (replicate (Z.to_nat (jc_before_hs c)) tt);
    s1 ← signature now (i1 c);
    after ← draw_map (fun _ => junk_packet c) (replicate (Z.to_nat (jc_after_i1 c)) tt);
    s2 ← signature now (i2 c);
    mret (before ++ s1 ++ after ++ s2).

(** ** Profiles of the WireGuard tunnel *)

Record AetherNoizeConfig := mkAether {
  a_i1 : option bytes; a_i2 : option bytes; a_i3 : option bytes; a_i4 : option bytes; a_i5 : option bytes;
  jc : Z; a_jc_before_hs : Z; a_jc_after_i1 : Z; jc_after_hs : Z; a_jmin : Z; a_jmax : Z;
  a_junk_interval : Z; handshake_delay : Z; allow_zero_size : bool
}.
Definition aether_off : AetherNoizeConfig := mkAether None None None None None 0 0 0 0 0 0 0 0 false.
Definition aether_light : AetherNoizeConfig :=
  mkAether (Some (lit "<b 0d0a0d0a><t><r 20-32>")) (Some (lit "<rc 24-48>")) None None None 4 2 1 1 48 190
    (Prober.from_millis 3) (Prober.from_millis 5) false.
Definition aether_balanced : AetherNoizeConfig :=
  mkAether (Some (lit "<b 0d0a0d0a><t><rc 20-40>")) (Some (lit "<b 504f5354><rd 10-20><rc 20-30>")) (Some (lit "<r 30-50>")) None None 6 3 2 1 64 256
    (Prober.from_millis 2) (Prober.from_millis 8) false.
Definition aether_aggressive : AetherNoizeConfig :=
  mkAether (Some (lit "<b 0d0a0d0a><t><rc 40-64>")) (Some (lit "<b 504f5354><t><rd 15-30><rc 30-50>")) (Some (lit "<b 474554><rc 40-60>"))
    (Some (lit "<r 60-100>")) (Some (lit "<c><rd 20-40>")) 10 4 3 3 80 384 (Prober.from_millis 1) (Prober.from_millis 12) false.
Definition aether_firewall : AetherNoizeConfig :=
  mkAether (Some (lit "<b 0d0a0d0a><t><rc 24-44>")) (Some (lit "<b 504f5354><c><rd 12-24><rc 24-36>")) (Some (lit "<b 474554><r 30-50>")) None None
    7 3 2 2 64 300 (Prober.from_millis 2) (Prober.from_millis 10) false.
Definition aether_gfw : AetherNoizeConfig :=
  mkAether (Some (lit "<b 16030100><c><rc 48-72>")) (Some (lit "<b 0d0a0d0a><t><rd 20-40><rc 36-60>"))
    (Some (lit "<b 474554202f20485454502f312e31><rc 40-64>")) (Some (lit "<b 504f5354><c><r 64-110>")) (Some (lit "<rd 24-48><rc 32-56>"))
    12 5 3 4 96 420 (Prober.from_millis 1) (Prober.from_millis 16) true.
Definition aether_is_enabled (c : AetherNoizeConfig) : bool := (0 <? jc c) || negb (bool_decide (a_i1 c = None)).
Definition aether_from_profile (name : bytes) : AetherNoizeConfig :=
  let name := to_ascii_lowercase (trim name) in
  if Prober.one_of name [lit "off"; lit "none"] then aether_off
  else if bool_decide (name = lit "light") then aether_light
  else if bool_decide (name = lit "firewall") then aether_firewall
  else if bool_decide (name = lit "gfw") then aether_gfw
  else if Prober.one_of name [lit "aggressive"; lit "heavy"] then aether_aggressive
  else aether_balanced.

Definition parse_range (data : bytes) : draw Z :=
  let whole := Z.min (default 0 (parse_u64 (trim data))) 2048 in
  match split_char 45 data with
  | min_str :: max_str :: _ =>
      let min := default 0 (parse_u64 (trim min_str)) in
      let max := default 0 (parse_u64 (trim max_str)) in
      if (min <? max) && (0 <? min) then n ← random_in min max; mret (Z.min n 2048) else mret whole
  | _ => mret whole
  end.

(** [n] characters of [chars]. *)
Definition random_chars (chars : bytes) (n : Z) : draw bytes :=
  draw_map (fun _ => w ← next_word; mret (default 0 (chars !! Z.to_nat (random_below (blen chars) w)))) (replicate (Z.to_nat n) tt).
Definition LETTERS : bytes := lit "abcdefghijklmnopqrstuvwxyzABCDEFGHIJKLMNOPQRSTUVWXYZ".
Definition DIGITS : bytes := lit "0123456789".

(** What a tag stands for, and the counter [CPS_COUNTER] after it. *)
Definition aether_tag (now counter : Z) (tag data : bytes) : draw (bytes * Z) :=
  if bool_decide (tag = lit "b") then
    let hex := concat (split_whitespace data) in
    let clean := match strip_prefix (lit "0x") hex with Some c => c | None => default hex (strip_prefix (lit "0X") hex) end in
    mret (default [] (hex_decode clean), counter)
  else if bool_decide (tag = lit "t") then mret (be32_bytes (wrap_u32 now), counter)
  else if bool_decide (tag = lit "c") then mret (be32_bytes counter, wrap_u32 (counter + 1))
  else if bool_decide (tag = lit "r") then len ← parse_range data; piece ← (if 0 <? len then fill_bytes len else mret []); mret (piece, counter)
  else if bool_decide (tag = lit "rc") then len ← parse_range data; piece ← (if 0 <? len then random_chars LETTERS len else mret []); mret (piece, counter)
  else if bool_decide (tag = lit "rd") then len ← parse_range data; piece ← (if 0 <? len then random_chars DIGITS len else mret []); mret (piece, counter)
  else mret ([], counter).

Fixpoint aether_tags (now counter : Z) (tags : list (bytes * bytes)) (out : bytes) : draw (bytes * Z) :=
  match tags with
  | [] => mret (out, counter)
  | (tag, data) :: tags => '(piece, counter) ← aether_tag now counter tag (trim data); aether_tags now counter tags (out ++ piece)
  end.
Definition aether_parse_cps `{TagPattern} (now counter : Z) (spec : bytes) : draw (bytes * Z) := aether_tags now counter (captures spec) [].

Definition wrap_ikev2 (payload : bytes) : draw bytes :=
  if bool_decide (payload = []) then mret payload
  else
    initiator_spi ← (if 8 <=? blen payload then mret (sub payload 0 8) else fill_bytes 8);
    responder_spi ← fill_bytes 8;
    let total_length := wrap_u32 (28 + 24 + wrap_u32 (blen payload)) in
    let sa_payload_length := wrap_u16 (24 + wrap_u16 (blen payload)) in
    mret (initiator_spi ++ responder_spi ++ [33; 32; 34; 8] ++ [0; 0; 0; 0] ++ be32_bytes total_length
          ++ [0; 0] ++ be16_bytes sa_payload_length
          ++ [0; 0; 0; 20; 1; 1; 0; 4; 3; 0; 0; 8; 1; 0; 0; 12; 0; 0; 0; 0] ++ payload).

(** The sizes between which junk is drawn, or the packet sent instead. *)
Definition junk_sizes (c : AetherNoizeConfig) : (Z * Z) + bytes :=
  if (a_jmin c =? 0) && (a_jmax c =? 0) then inr (if allow_zero_size c then [] else [0])
  else if allow_zero_size c then inl (a_jmin c, Z.max (a_jmax c) (a_jmin c))
  else if a_jmax c =? 0 then inl (Z.max (a_jmin c) 1, Z.max (a_jmin c) 1)
  else inl (Z.max (a_jmin c) 1, Z.max (a_jmax c) (a_jmin c)).

Definition generate_junk (c : AetherNoizeConfig) : draw bytes :=
  match junk_sizes c with
  | inr pkt => mret pkt
  | inl (min_size, max_size) =>
      size ← (if max_size =? min_size then mret min_size else random_in min_size max_size);
      if size =? 0 then mret (if allow_zero_size c then [] else [0]) else fill_bytes size
  end.

(** The packets of [apply_obfuscation], in order, and the counter after them. *)
Definition aether_signature `{TagPattern} (now counter : Z) (spec : option bytes) : draw (bytes * Z) :=
  match spec with Some spec => aether_parse_cps now counter spec | None => mret ([], counter) end.
Fixpoint aether_signatures `{TagPattern} (now counter : Z) (specs : list (option bytes)) : draw (list bytes * Z) :=
  match specs with
  | [] => mret ([], counter)
  | spec :: specs =>
      '(pkt, counter) ← aether_signature now counter spec;
      '(pkts, counter) ← aether_signatures now counter specs;
      mret (if bool_decide (pkt = []) then pkts else pkt :: pkts, counter)
  end.
Definition apply_obfuscation `{TagPattern} (now counter : Z) (c : AetherNoizeConfig) : draw (list bytes * Z) :=
  if negb (aether_is_enabled c) then mret ([], counter)
  else
    '(payload, counter) ← aether_signature now counter (a_i1 c);
    first ← (if bool_decide (payload = []) then mret [] else framed ← wrap_ikev2 payload; mret [framed]);
    after ← draw_map (fun _ => generate_junk c) (replicate (Z.to_nat (a_jc_after_i1 c)) tt);
    before ← draw_map (fun _ => generate_junk c) (replicate (Z.to_nat (a_jc_before_hs c)) tt);
    '(signatures, counter) ← aether_signatures now counter [a_i2 c; a_i3 c; a_i4 c; a_i5 c];
    mret (first ++ after ++ before ++ signatures, counter).

(** A junk packet of [send_keepalive_junk]: its first byte is no WireGuard type. *)
Definition mask_first (junk : bytes) : bytes :=
  match junk with
  | first :: rest => (if (1 <=? first) && (first <=? 4) then wrap_u8 (first + 64) else first) :: rest
  | [] => []
  end.
Definition send_keepalive_junk (c : AetherNoizeConfig) : draw (list bytes) :=
  if negb (aether_is_enabled c) then mret []
  else
    let base := Z.max (a_jc_before_hs c) 1 in
    extra ← random_in 0 base;
    draw_map (fun _ => junk ← generate_junk c; _ ← next_word; mret (mask_first junk)) (replicate (Z.to_nat (base + extra)) tt).
Definition send_post_handshake_junk (c : AetherNoizeConfig) : draw (list bytes) :=
  draw_map (fun _ => generate_junk c) (replicate (Z.to_nat (jc_after_hs c)) tt).
End noise.

(** ** A specification stands for its tags *)

Inductive Tag := TagBytes (l : bytes) | TagTime | TagNonce | TagRandom (n : Z).
Definition hex_of (l : bytes) : bytes := concat (map (fun b => [hex_digit (b / 16); hex_digit (b mod 16)]) l).
Definition tag_name (t : Tag) : bytes := match t with TagBytes _ => lit "b" | TagTime => lit "t" | TagNonce => lit "n" | TagRandom _ => lit "r" end.
Definition tag_data (t : Tag) : bytes := match t with TagBytes l => hex_of l | TagRandom n => dec n | _ => [] end.
Definition print_tag (t : Tag) : bytes :=
  [60] ++ tag_name t ++ (match tag_data t with [] => [] | data => [32] ++ data end) ++ [62].
Definition tag_ok (t : Tag) : Prop :=
  match t with TagBytes l => all_bytes l /\ l <> [] | TagRandom n => 1 <= n <= 1024 | _ => True end.

Lemma hex_of_plain l : all_bytes l -> forallb (fun b => plain b && negb (b =? 62)) (hex_of l) = true.
Proof.
  assert (forall d, 0 <= d < 16 -> plain (hex_digit d) && negb (hex_digit d =? 62) = true) as Hd.
  { intros d Hd. assert (d = 0 \/ d = 1 \/ d = 2 \/ d = 3 \/ d = 4 \/ d = 5 \/ d = 6 \/ d = 7 \/ d = 8 \/ d = 9 \/ d = 10 \/ d = 11 \/ d = 12 \/ d = 13 \/ d = 14 \/ d = 15)
      as Hc by lia. by repeat destruct Hc as [-> |Hc]; subst. }
  induction 1 as [|b l Hb _ IH]; [done|]. unfold is_byte in Hb. unfold hex_of in *. cbn [map concat app forallb]. rewrite !Hd, IH; [done| |].
  - apply Z.mod_pos_bound. lia.
  - split; [apply Z.div_pos; lia|apply Z.div_lt_upper_bound; lia].
Qed.

Lemma tag_data_plain t : tag_ok t -> forallb (fun b => plain b && negb (b =? 62)) (tag_data t) = true.
Proof.
  destruct t as [l| | |n]; cbn [tag_ok tag_data]; [intros [Hl _]; by apply hex_of_plain|done|done|]. intros Hn.
  apply (forallb_impl is_ascii_digit); [|apply dec_all; lia]. intros x. unfold is_ascii_digit, plain, is_ascii, ws1. intros Hx. zbool.
  destruct (x <? 128) eqn:E1; [|zbool; lia]. cbn [andb]. rewrite (proj2 (Z.eqb_neq x 62)) by lia.
  destruct (9 <=? x) eqn:E2, (x <=? 13) eqn:E3; zbool; try lia; cbn; rewrite (proj2 (Z.eqb_neq x 32)) by lia; done.
Qed.

Section meaning.
Context `{RandCrate, HexCrate}.

Definition meaning (now : Z) (t : Tag) : draw bytes :=
  match t with
  | TagBytes l => mret l
  | TagTime => mret (be32_bytes (wrap_u32 now))
  | TagNonce => w ← next_word; mret (be_bytes 8 (random_below (2 ^ 64) w))
  | TagRandom n => fill_bytes n
  end.

Lemma cps_tag_meaning now t : tag_ok t -> cps_tag now (tag_name t) (tag_data t) = meaning now t.
Proof.
  intros Hok. pose proof (tag_data_plain t Hok) as Hp. destruct t as [l| | |n]; cbn [tag_name tag_data tag_ok meaning] in *; try done.
  - destruct Hok as [Hl Hne]. unfold cps_tag. rewrite bool_decide_eq_true_2 by done.
    replace (concat (split_whitespace (hex_of l))) with (hex_of l); [unfold hex_of; by rewrite hex_decode_digits|].
    rewrite <- (app_nil_r (hex_of l)) at 2. change (hex_of l ++ []) with (spaced [hex_of l]). rewrite split_whitespace_words; [cbn; by rewrite app_nil_r|].
    constructor; [|constructor]. split; [|destruct l; [done|discriminate]]. revert Hp. apply forallb_impl. intros x [? _]%andb_prop. done.
  - unfold cps_tag. cbn [tag_name]. rewrite !bool_decide_eq_false_2, (bool_decide_eq_true_2 (lit "r" = lit "r")) by done.
    assert (parse_u64 (dec n) = Some n) as -> by (apply parse_uint_dec; unfold U64_MAX; lia). change (default 0 (Some n)) with n.
    rewrite (Z.min_l n 1024), (proj2 (Z.ltb_lt 0 n)) by lia. done.
Qed.

Lemma cps_loop_tag fuel now t rest out : tag_ok t ->
  cps_loop (S fuel) now (print_tag t ++ rest) out = (piece ← meaning now t; cps_loop fuel now rest (out ++ piece)).
Proof.
  intros Hok. pose proof (tag_data_plain t Hok) as Hd. rewrite <- (cps_tag_meaning now t Hok).
  set (inner := tag_name t ++ match tag_data t with [] => [] | data => [32] ++ data end).
  assert (print_tag t ++ rest = [60] ++ inner ++ [62] ++ rest) as -> by (unfold print_tag, inner; solve_app).
  assert (forallb plain (tag_data t) = true) as Hpl by (revert Hd; apply forallb_impl; by intros x [? _]%andb_prop).
  assert (no_char 62 inner = true) as Hn.
  { unfold inner. rewrite no_char_app. apply andb_true_intro. split; [by destruct t|]. destruct (tag_data t) as [|d ds] eqn:E; [done|].
    rewrite <- E in *. rewrite no_char_app. cbn [no_char forallb andb]. revert Hd. apply forallb_impl. by intros x [_ ?]%andb_prop. }
  assert (trim inner = inner /\ take_word inner = (tag_name t, match tag_data t with [] => [] | data => [32] ++ data end)) as [Htr Htw].
  { assert (forallb plain (tag_name t) = true) as Hnm by (by destruct t). split.
    - unfold inner. destruct (tag_data t) as [|d ds] eqn:E; [rewrite app_nil_r; by apply trim_all_plain|].
      rewrite <- E in *. rewrite app_assoc. apply trim_ends; [by destruct t|done|by rewrite E].
    - unfold inner. apply take_word_plain; [done|]. by destruct (tag_data t). }
  assert (find_char 62 ([60] ++ inner ++ [62] ++ rest) = Some (1 + blen inner)) as Hf.
  { assert (forall w, no_char 62 w = true -> find_char 62 (w ++ [62] ++ rest) = Some (blen w)) as Hfc.
    { induction w as [|b w IH]; [done|]. cbn [no_char forallb]. intros [Hb Hw]%andb_prop. apply negb_true_iff in Hb.
      rewrite <- app_comm_cons. cbn [find_char]. rewrite Z.eqb_sym, Hb, (IH Hw). cbn [fmap option_fmap option_map]. f_equal. rewrite blen_cons. apply Z.add_comm. }
    rewrite app_assoc, Hfc by done. by rewrite blen_app. }
  cbn [cps_loop]. change ([60] ++ inner ++ [62] ++ rest) with (60 :: inner ++ [62] ++ rest) at 1. change (negb (60 =? 60)) with false. cbn iota. rewrite Hf.
  rewrite (sub_at _ [60] inner ([62] ++ rest)) by done. rewrite Htr, Htw.
  assert (trim (match tag_data t with [] => [] | data => [32] ++ data end) = tag_data t) as ->.
  { destruct (tag_data t) as [|d ds] eqn:E; [done|]. rewrite <- E in *. change (trim ([32] ++ tag_data t)) with (trim (tag_data t)). by apply trim_all_plain. }
  rewrite (sub_at _ ([60] ++ inner ++ [62]) rest []); [done|rewrite app_nil_r; solve_app| |].
  - rewrite !blen_app. change (blen [60]) with 1. change (blen [62]) with 1. lia.
  - rewrite !blen_app. lia.
Qed.

(** A signature packet is what its specification says, tag by tag: the bytes given, the
    time, a nonce, random bytes. *)
Theorem signature_of_tags now tags words : Forall tag_ok tags ->
  noize_parse_cps now (concat (map print_tag tags)) words = (pieces ← draw_map (meaning now) tags; mret (concat pieces)) words.
Proof.
  intros Hok. unfold noize_parse_cps.
  enough (forall fuel out words, (length tags <= fuel)%nat ->
    cps_loop (S fuel) now (concat (map print_tag tags)) out words = (pieces ← draw_map (meaning now) tags; mret (out ++ concat pieces)) words) as Hgen.
  { apply Hgen. clear. induction tags as [|t tags IH]; [done|]. cbn [map concat length]. rewrite length_app. unfold print_tag at 1. cbn [app length]. lia. }
  induction Hok as [|t tags Ht _ IH]; intros fuel out ws Hl.
  - cbn. unfold mret, Prober.draw_ret, mbind, Prober.draw_bind. by rewrite app_nil_r.
  - cbn [length] in Hl. destruct fuel as [|fuel]; [lia|]. cbn [map concat draw_map]. rewrite cps_loop_tag by done.
    unfold mbind, Prober.draw_bind. destruct (meaning now t ws) as [[piece ws']|]; [|done]. rewrite IH by lia.
    unfold mbind, Prober.draw_bind. destruct (draw_map (meaning now) tags ws') as [[pieces ws'']|]; [|done].
    unfold mret, Prober.draw_ret. cbn [concat]. by rewrite app_assoc.
Qed.

End meaning.

(** ** Junk *)

Section junk.
Context `{RandCrate}.

Lemma draw_map_Forall {A B} (f : A -> draw B) (P : B -> Prop) l :
  (forall a words b rest, f a words = Some (b, rest) -> P b) ->
  forall words bs rest, draw_map f l words = Some (bs, rest) -> Forall P bs /\ length bs = length l.
Proof.
  intros Hf. induction l as [|a l IH]; intros words bs rest; cbn [draw_map]; [by intros [= <- _]|].
  rewrite Prober.draw_bind_Some. intros (b & w1 & Hb & Hrest). rewrite Prober.draw_bind_Some in Hrest. destruct Hrest as (bs' & w2 & Hbs & [= <- _]).
  destruct (IH _ _ _ Hbs) as [Hall Hlen]. split; [constructor; [by eapply Hf|done]|cbn; lia].
Qed.

Lemma fill_bytes_spec n words l rest : fill_bytes n words = Some (l, rest) -> all_bytes l /\ blen l = Z.max n 0.
Proof.
  intros Hf. apply (draw_map_Forall _ is_byte) in Hf as [Hall Hlen].
  - split; [done|]. unfold blen. rewrite Hlen, length_replicate. lia.
  - intros a w b r. rewrite Prober.draw_bind_Some. intros (x & w' & _ & [= <- _]). unfold is_byte. pose proof (random_below_range 256 x ltac:(lia)). lia.
Qed.

Lemma generate_junk_spec c words l rest : 0 <= a_jmin c -> 0 <= a_jmax c -> generate_junk c words = Some (l, rest) ->
  all_bytes l /\ blen l <= Z.max (Z.max (a_jmax c) (a_jmin c)) 1 /\ (allow_zero_size c = false -> Z.max (a_jmin c) 1 <= blen l).
Proof.
  intros H0 H1. unfold generate_junk, junk_sizes.
  assert (forall w l' r (b : bool), @mret draw Prober.draw_ret bytes (if b then [] else [0]) w = Some (l', r) -> all_bytes l' /\ 0 <= blen l' <= 1 /\ (b = false -> blen l' = 1)) as Hone.
  { intros w l' r b [= <- _]. destruct b; (split; [repeat constructor; vm_compute; congruence|done]). }
  destruct (Z.eqb_spec (a_jmin c) 0) as [E0|E0], (Z.eqb_spec (a_jmax c) 0) as [E1|E1]; cbn [andb].
  1: { intros (Ha & Hb & Hc)%Hone. split; [done|]. split; [lia|]. intros Hz. rewrite E0. specialize (Hc Hz). lia. }
  all: assert (forall lo hi, lo <= hi -> 0 <= lo -> hi <= Z.max (Z.max (a_jmax c) (a_jmin c)) 1 -> (allow_zero_size c = false -> Z.max (a_jmin c) 1 <= lo) ->
    forall words l rest, (size ← (if hi =? lo then mret lo else random_in lo hi); if size =? 0 then mret (if allow_zero_size c then [] else [0]) else fill_bytes size) words = Some (l, rest) ->
    all_bytes l /\ blen l <= Z.max (Z.max (a_jmax c) (a_jmin c)) 1 /\ (allow_zero_size c = false -> Z.max (a_jmin c) 1 <= blen l)) as Hrange.
  1, 3, 5: intros lo hi Hlh Hlo Hhi Hz ws l' r; rewrite Prober.draw_bind_Some; intros (size & ws' & Hs & Hl);
    assert (lo <= size <= hi) as Hsz by (destruct (hi =? lo); [by injection Hs as <- _|]; unfold random_in in Hs; rewrite Prober.draw_bind_Some in Hs;
      destruct Hs as (w & ? & _ & [= <- _]); pose proof (random_below_range (hi - lo + 1) w ltac:(lia)); lia);
    destruct (Z.eqb_spec size 0) as [-> |Hne];
    [apply Hone in Hl as (Ha & Hb & Hc); (split; [done|]); (split; [lia|]); intros Hzz; specialize (Hz Hzz); lia
    |apply fill_bytes_spec in Hl as [Ha Hb]; (split; [done|]); (split; [lia|]); intros Hzz; specialize (Hz Hzz); lia].
  all: destruct (allow_zero_size c) eqn:Ez; apply Hrange; try lia; intros; (done || lia).
Qed.

(** The junk sent with keepalives is never taken for a WireGuard message, whatever the
    generator gives: its first byte is none of the four types, so that the identifier is
    not written into it; every packet is within the sizes of the profile. *)
Theorem keepalive_junk_is_no_message c words pkts rest : 0 <= a_jmin c -> 0 <= a_jmax c ->
  send_keepalive_junk c words = Some (pkts, rest) ->
  Forall (fun pkt => WireGuard.is_message pkt = false /\ all_bytes pkt /\ blen pkt <= Z.max (Z.max (a_jmax c) (a_jmin c)) 1) pkts
  /\ (aether_is_enabled c = true -> Z.max (a_jc_before_hs c) 1 <= blen pkts <= 2 * Z.max (a_jc_before_hs c) 1).
Proof.
  intros H0 H1. unfold send_keepalive_junk. destruct (aether_is_enabled c); cbn [negb]; [|by intros [= <- _]].
  rewrite Prober.draw_bind_Some. intros (extra & ws & He & Hm).
  assert (0 <= extra <= Z.max (a_jc_before_hs c) 1) as Hex.
  { unfold random_in in He. rewrite Prober.draw_bind_Some in He. destruct He as (w & ? & _ & [= <- _]).
    pose proof (random_below_range (Z.max (a_jc_before_hs c) 1 - 0 + 1) w ltac:(lia)). lia. }
  apply (draw_map_Forall _ (fun pkt => WireGuard.is_message pkt = false /\ all_bytes pkt /\ blen pkt <= Z.max (Z.max (a_jmax c) (a_jmin c)) 1)) in Hm as [Hall Hlen].
  - split; [done|]. intros _. unfold blen. rewrite Hlen, length_replicate. lia.
  - intros _ w b r. rewrite Prober.draw_bind_Some. intros (junk & w1 & Hj & Hb). rewrite Prober.draw_bind_Some in Hb. destruct Hb as (x & w2 & _ & [= <- _]).
    apply generate_junk_spec in Hj as (Ha & Hb & _); [|done|done]. destruct junk as [|first junk]; [done|]. cbn [mask_first].
    apply Forall_cons in Ha as [Hf Ha]. unfold is_byte in Hf. rewrite blen_cons in Hb.
    destruct ((1 <=? first) && (first <=? 4)) eqn:E; zbool.
    + assert (wrap_u8 (first + 64) = first + 64) as -> by (unfold wrap_u8; apply Z.mod_small; lia). cbn [WireGuard.is_message].
      rewrite (proj2 (Z.leb_gt (first + 64) 4)), andb_false_r by lia. split; [done|]. rewrite blen_cons. split; [constructor; [unfold is_byte; lia|done]|lia].
    + cbn [WireGuard.is_message]. rewrite <- andb_assoc. destruct ((1 <=? first) && (first <=? 4)) eqn:E2; [zbool; lia|]. rewrite andb_false_r.
      split; [done|]. rewrite blen_cons. split; [constructor; [unfold is_byte; lia|done]|lia].
Qed.
End junk.

(** ** The theorems at work *)

(** Two digits a byte; anything else is refused. *)
Fixpoint hex_pairs (s : bytes) : option bytes :=
  match s with
  | [] => Some []
  | a :: b :: t => x ← to_digit 16 a; y ← to_digit 16 b; l ← hex_pairs t; Some (x * 16 + y :: l)
  | _ => None
  end.
Definition pairs_hex : HexCrate.
Proof.
  refine {| hex_decode := hex_pairs |}. induction l as [|b l IH]; [done|]. intros [Hb Hl]%Forall_cons. unfold is_byte in Hb. cbn [map concat app hex_pairs].
  assert (0 <= b / 16 < 16 /\ 0 <= b mod 16 < 16) as [Hq Hr].
  { split; [split; [apply Z.div_pos; lia|apply Z.div_lt_upper_bound; lia]|apply Z.mod_pos_bound; lia]. }
  rewrite !to_digit_hex_digit by lia. cbn [mbind option_bind]. rewrite IH by done. cbn. do 2 f_equal. pose proof (Z.div_mod b 16). lia.
Defined.

Section examples.
#[local] Existing Instances pairs_hex Prober.mod_rand.

Lemma signature_of_tags_witness :
  noize_parse_cps 1 (lit "<b 0d0a0d0a><t><r 2>") [300; 5] = Some ([13; 10; 13; 10; 0; 0; 0; 1; 44; 5], []).
Proof.
  change (lit "<b 0d0a0d0a><t><r 2>") with (concat (map print_tag [TagBytes [13; 10; 13; 10]; TagTime; TagRandom 2])).
  rewrite (signature_of_tags 1 [TagBytes [13; 10; 13; 10]; TagTime; TagRandom 2] [300; 5]); [vm_compute; reflexivity|].
  repeat constructor; vm_compute; congruence.
Defined.

Lemma keepalive_junk_is_no_message_witness :
  exists pkts rest, send_keepalive_junk aether_light (replicate 600 3) = Some (pkts, rest) /\ Forall (fun pkt => WireGuard.is_message pkt = false) pkts.
Proof.
  destruct (send_keepalive_junk aether_light (replicate 600 3)) as [[pkts rest]|] eqn:E; [|vm_compute in E; discriminate E].
  exists pkts, rest. split; [reflexivity|].
  destruct (keepalive_junk_is_no_message aether_light (replicate 600 3) pkts rest) as [H _];
    [vm_compute; discriminate|vm_compute; discriminate|exact E|]. eapply Forall_impl; [exact H|]. intros pkt [Hm _]. exact Hm.
Defined.
End examples.

End Noize.
