(* ===== verification/Reconnect.v ===== *)
(** * Quick reconnection and the WireGuard run ([aether/src/lib.rs])

    The start of both runs, which tries the endpoint an organization assigned and then the
    remembered ones before it scans, and the loop of [run_wireguard] as a machine over its
    rounds: the endpoints it leaves for a while, the floor under the scans, the profiles it
    tries.  What a check of an endpoint answers, how long a tunnel lasts and what a scan
    meets are arguments; the scans are used through a class that [Prober] implements. *)

From S2P Require Import Prelude Str Ip Text Error Prober Session WireGuard Noize.
Local Open Scope Z_scope.

Module Reconnect.
Import Error.
Import Session(TomlCrate, load, save, usable_peers, count_tunnel_end, TUNNEL_STAYED_UP).
Import Noize(AetherNoizeConfig, aether_from_profile).
#[local] Existing Instances Prober.draw_ret Prober.draw_bind.

(** ** Profiles *)

Definition FALLBACKS : list bytes := [lit "balanced"; lit "aggressive"; lit "light"; lit "off"].
Definition wg_profile_candidates (env : bytes -> option bytes) : list (bytes * AetherNoizeConfig) :=
  let primary := default (lit "balanced") (env (lit "AETHER_NOIZE")) in
  let names :=
    if bool_decide (env (lit "AETHER_WG_NO_PROFILE_RETRY") = None) then
      fold_left (fun names fallback => if negb (existsb (fun n => eq_ignore_ascii_case n fallback) names) then names ++ [fallback] else names)
        FALLBACKS [primary]
    else [primary] in
  map (fun n => (n, aether_from_profile n)) names.

(** ** The start of a run *)

(** [want_quick_reconnect]: [answer] is the line typed at the prompt. *)
Definition want_quick_reconnect (env : bytes -> option bytes) (answer : option bytes) : bool :=
  let asked := negb (match answer with Some a => eq_ignore_ascii_case a (lit "n") || eq_ignore_ascii_case a (lit "no") | None => false end) in
  match env (lit "AETHER_QUICK_RECONNECT") with
  | Some v =>
      if Prober.one_of v [lit "1"; lit "true"; lit "yes"; lit "on"] then true
      else if Prober.one_of v [lit "0"; lit "false"; lit "no"; lit "off"] then false
      else asked
  | None => asked
  end.

(** The loop over the ring: the first endpoint that passes the check, and what was measured. *)
Fixpoint first_answering (check : SocketAddr -> option Z) (ring : list SocketAddr) : option (SocketAddr * Z) :=
  match ring with
  | [] => None
  | peer :: ring => match check peer with Some measured => Some (peer, measured) | None => first_answering check ring end
  end.

Definition assigned_endpoint (env : bytes -> option bytes) : option SocketAddr :=
  v ← env (lit "AETHER_TEAM_ENDPOINT"); parse_socket_addr v.

(** An endpoint with the profile to use and the profile's name. *)
Definition Choice : Type := SocketAddr * AetherNoizeConfig * bytes.
Definition chosen (c : Choice) : SocketAddr := c.1.1.

Section start.
Context `{TomlCrate} (env : bytes -> option bytes).

(** The remembered endpoints, when there are some and the user wants them tried. *)
Definition ring_to_try (file : option bytes) (carrier_ : bytes) (answer : option bytes) : option (Session.LastConnection * list SocketAddr) :=
  cached ← load file;
  let ring := usable_peers cached carrier_ in
  if negb (bool_decide (ring = [])) && want_quick_reconnect env answer then Some (cached, ring) else None.

(** The start of [run_masque] without a forced gateway: [assigned_answers] is the check of
    the assigned endpoint, [check] that of a remembered one, with the time it took. *)
Definition masque_quick (carrier_ : bytes) (assigned_answers : bool) (check : SocketAddr -> option Z) (file answer : option bytes) : option SocketAddr :=
  match (if assigned_answers then assigned_endpoint env else None) with
  | Some assigned => Some assigned
  | None =>
      '(_, ring) ← ring_to_try file carrier_ answer;
      '(peer, elapsed) ← first_answering check ring;
      if Session.cached_handshake_fast_enough env elapsed then Some peer else None
  end.

(** The profile the assigned endpoint passes with, the first of the candidates. *)
Fixpoint first_profile (passes : AetherNoizeConfig -> bool) (candidates : list (bytes * AetherNoizeConfig)) : option (AetherNoizeConfig * bytes) :=
  match candidates with
  | [] => None
  | (name, profile) :: candidates => if passes profile then Some (profile, name) else first_profile passes candidates
  end.
Definition try_profiles (passes : AetherNoizeConfig -> bool) (peer : SocketAddr) (candidates : list (bytes * AetherNoizeConfig)) : option Choice :=
  '(profile, name) ← first_profile passes candidates; Some (peer, profile, name).

(** The start of [run_wireguard] without a forced endpoint; it may set the floor under the
    scans. *)
Definition wg_quick (assigned_passes : AetherNoizeConfig -> bool) (check : SocketAddr -> option Z) (file answer : option bytes) (f : Prober.Floor)
  : option Choice * Prober.Floor :=
  match (assigned ← assigned_endpoint env; try_profiles assigned_passes assigned (wg_profile_candidates env)) with
  | Some q => (Some q, f)
  | None =>
      match ring_to_try file Session.CARRIER_WIREGUARD answer with
      | Some (cached, ring) =>
          match first_answering check ring with
          | Some (peer, rtt) =>
              if Session.cached_peer_fast_enough env rtt
              then (Some (peer, aether_from_profile (Session.profile cached), Session.profile cached), f)
              else (None, Prober.set_rtt_floor f peer rtt)
          | None => (None, f)
          end
      | None => (None, f)
      end
  end.
End start.

(** ** The loop of [run_wireguard] *)

Definition MAX_CONSECUTIVE_FAILS : Z := 2.

(** What a scan promises: an endpoint that is not excluded, or the one that set the floor. *)
Class WgScanner (S : Type) := {
  wg_scan : S -> Prober.Floor -> gset SocketAddr -> res AetherError SocketAddr;
  wg_scan_allowed s f excluded p : wg_scan s f excluded = Ok p ->
    p ∉ excluded \/ exists rtt, Prober.rtt_floor f = Some (p, rtt);
}.

(** One scan for each profile, until one finds an endpoint. *)
Fixpoint hunt_wg_peer (scan : bytes -> AetherNoizeConfig -> res AetherError SocketAddr) (candidates : list (bytes * AetherNoizeConfig)) : res AetherError Choice :=
  match candidates with
  | [] => Err NoCleanEndpoint
  | (name, profile) :: candidates =>
      match scan name profile with
      | Ok peer => Ok (peer, profile, name)
      | Err _ => hunt_wg_peer scan candidates
      | Panic => Panic
      end
  end.

Section run.
Context {S : Type} `{WgScanner S} `{TomlCrate} (env : bytes -> option bytes).

(** The state at the top of the loop, with the floor, the file and the time. *)
Record Run := mkRun {
  quick : option Choice; last_good : option Choice; fails : Z; cooldowns : gmap SocketAddr Z;
  floor : Prober.Floor; saved : option bytes; clock : Z
}.

(** What happens in a round: when it starts, whether the last endpoint passes the check,
    what a forced endpoint answers to each profile, when the scan is over and what it meets
    for each profile, whether the file is written, whether the tunnel is validated and how
    long it lasts. *)
Record Round := mkRound {
  at_start : Z; still_answers : bool; forced_passes : AetherNoizeConfig -> bool; at_open : Z; meets : bytes -> S;
  writes : bool; validates : bool; lasted : Z
}.

(** The endpoints given up and the tunnels opened, with the time; the newest first. *)
Inductive Event := GaveUp (peer : SocketAddr) (t : Z) | Tunnel (peer : SocketAddr) (t lasted : Z) (validated : bool).

(** The top of a round. *)
Definition round_top (s : Run) (now : Z) : Run * list Event :=
  let cooldowns_ := filter (fun kv => now < kv.2) (cooldowns s) in
  if MAX_CONSECUTIVE_FAILS <=? fails s then
    match last_good s with
    | Some c =>
        (mkRun (quick s) None 0 (<[chosen c := now + Session.wg_endpoint_cooldown env]> cooldowns_) (floor s) (saved s) now, [GaveUp (chosen c) now])
    | None => (mkRun (quick s) None 0 cooldowns_ (floor s) (saved s) now, [])
    end
  else (mkRun (quick s) (last_good s) (fails s) cooldowns_ (floor s) (saved s) now, []).

(** The endpoint of the round: [inl None] when there is none and the loop goes on. *)
Definition pick (forced : option bytes) (s : Run) (r : Round) : option Choice + AetherError :=
  match quick s with
  | Some q => inl (Some q)
  | None =>
      match (if still_answers r then last_good s else None) with
      | Some c => inl (Some c)
      | None =>
          match forced with
          | Some p =>
              match parse_socket_addr p with
              | Some peer => inl (try_profiles (forced_passes r) peer (wg_profile_candidates env))
              | None => inr (Other (lit "bad peer address " ++ p))
              end
          | None =>
              match hunt_wg_peer (fun name _ => wg_scan (meets r name) (floor s) (dom (cooldowns s))) (wg_profile_candidates env) with
              | Ok c => inl (Some c)
              | _ => inl None
              end
          end
      end
  end.

(** The tunnel of the round; one that is validated clears the floor. *)
Definition run_tunnel (forced : option bytes) (s : Run) (c : Choice) (r : Round) : Run :=
  let file := match forced with
              | None => save (saved s) (sa_to_string (chosen c)) c.2 Session.CARRIER_WIREGUARD (writes r)
              | Some _ => saved s
              end in
  let same := bool_decide (chosen <$> last_good s = Some (chosen c)) in
  let fails_ := if negb same then 0 else fails s in
  let floor_ := if validates r then Prober.clear_rtt_floor (floor s) else floor s in
  mkRun None (Some c) (count_tunnel_end fails_ (lasted r)) (cooldowns s) floor_ file (at_open r).

Definition run_round (forced : option bytes) (s : Run) (r : Round) : (Run + AetherError) * list Event :=
  let '(s, log) := round_top s (at_start r) in
  match pick forced s r with
  | inr e => (inr e, log)
  | inl None => (inl (mkRun None (last_good s) (fails s) (cooldowns s) (floor s) (saved s) (at_open r)), log)
  | inl (Some c) => (inl (run_tunnel forced s c r), Tunnel (chosen c) (at_open r) (lasted r) (validates r) :: log)
  end.

(** The states a run that picks its own endpoints reaches, from a floor. *)
Inductive reach (f0 : Prober.Floor) : Run -> list Event -> Prop :=
| reach_start quick file t : reach f0 (mkRun quick None 0 ∅ f0 file t) []
| reach_round s log r s' evs :
    reach f0 s log -> clock s <= at_start r -> at_start r <= at_open r ->
    run_round None s r = (inl s', evs) -> reach f0 s' (evs ++ log).
End run.

(** ** A run leaves an endpoint that fails *)


Section run_safe.
Context {S : Type} `{WgScanner S} `{TomlCrate} (env : bytes -> option bytes) (f0 : Prober.Floor).
Notation rest := (Session.wg_endpoint_cooldown env).






Lemma hunt_wg_peer_ok scan candidates c :
  hunt_wg_peer scan candidates = Ok c -> exists name profile, scan name profile = Ok (chosen c).
Proof.
  induction candidates as [|[name profile] l IH]; [done|]. cbn. destruct (scan name profile) as [peer|e|] eqn:Hs; [|done|done].
  intros [= <-]. eauto.
Qed.



End run_safe.

(** ** The scans of [wg_prober.rs] keep the promise *)

(** A scan: its settings, the words of the generator, and the turns of its loop. *)
Record WgScanRun := mkWgScanRun {
  wr_env : bytes -> option bytes; wr_has_ipv6 : bool; wr_ip : Prober.IpScan; wr_mode : Prober.ScanMode;
  wr_words : list Z; wr_start : Z; wr_turns : list Prober.Turn
}.

(** [hunt_wg_peer_with_profile]; [Panic] stands for a scan that has not ended. *)
Definition hunt_wg_peer_with_profile `{RandCrate} (r : WgScanRun) (f : Prober.Floor) (excluded : gset SocketAddr) : res AetherError SocketAddr :=
  match Prober.effective_ip (wr_ip r) (wr_has_ipv6 r) with
  | None => Err NoCleanEndpoint
  | Some ip =>
      match Prober.build_wg_candidates (wr_env r) (Prober.wg_strategy (wr_mode r)) Prober.WG_PORTS ip excluded (wr_words r) with
      | Some (cands, _) =>
          match Prober.hunt_best_wg_endpoint (wr_env r) f (wr_mode r) (Some cands) (wr_start r)
                  (filter (fun t => Session.of_stream cands t = true) (wr_turns r)) with
          | Some (Ok best) => Ok (mkSocketAddr (Prober.pr_ip best) (Prober.pr_port best))
          | Some (Err e) => Err e
          | _ => Panic
          end
      | None => Panic
      end
  end.

Lemma hunt_wg_peer_with_profile_ok `{RandCrate} r f excluded p : hunt_wg_peer_with_profile r f excluded = Ok p ->
  exists cands rest pr, Prober.build_wg_candidates (wr_env r) (Prober.wg_strategy (wr_mode r)) Prober.WG_PORTS
      (default Prober.ScanV4 (Prober.effective_ip (wr_ip r) (wr_has_ipv6 r))) excluded (wr_words r) = Some (cands, rest)
  /\ Prober.hunt_best_wg_endpoint (wr_env r) f (wr_mode r) (Some cands) (wr_start r)
       (filter (fun t => Session.of_stream cands t = true) (wr_turns r)) = Some (Ok pr)
  /\ p = mkSocketAddr (Prober.pr_ip pr) (Prober.pr_port pr).
Proof.
  unfold hunt_wg_peer_with_profile. destruct (Prober.effective_ip _ _) as [ip|]; [|done]. cbn [default].
  destruct (Prober.build_wg_candidates _ _ _ _ _ _) as [[cands rest]|] eqn:Hb; [|done].
  destruct (Prober.hunt_best_wg_endpoint _ _ _ _ _ _) as [[pr|e|]|] eqn:Hh; try done. intros [= <-]. by exists cands, rest, pr.
Qed.

#[export] Instance prober_wg_scanner `{RandCrate} : WgScanner WgScanRun.
Proof.
  refine {| wg_scan := hunt_wg_peer_with_profile |}. intros r f excluded p Hp.
  destruct (hunt_wg_peer_with_profile_ok r f excluded p Hp) as (cands & rest & pr & Hb & Hh & ->).
  destruct (Prober.hunt_best_wg_picks _ _ _ _ _ _ _ Hh) as [[Hin _]|(peer & Hf & ->)]; [left|right; eauto].
  apply (Prober.answers_from_stream cands) in Hin.
  - destruct (Prober.build_wg_candidates_allowed _ _ _ _ _ _ _ _ Hb) as [_ Hall]. by apply Hall in Hin as [? _].
  - intros t c rtt Ht Hi. apply list_elem_of_filter in Ht as [Hof _]. unfold Session.of_stream in Hof. rewrite Hi in Hof. by apply bool_decide_eq_true in Hof.
Defined.

(** ** The start of a run *)

Lemma first_answering_Some check ring peer m : first_answering check ring = Some (peer, m) ->
  exists before after, ring = before ++ peer :: after /\ Forall (fun p => check p = None) before /\ check peer = Some m.
Proof.
  induction ring as [|p ring IH]; [done|]. cbn. destruct (check p) as [m'|] eqn:Hc.
  - intros [= <- <-]. by exists [], ring.
  - intros (before & after & -> & Hb & Hm)%IH. exists (p :: before), after. split; [done|]. split; [by constructor|done].
Qed.
Lemma first_answering_None check ring : first_answering check ring = None -> Forall (fun p => check p = None) ring.
Proof. induction ring as [|p ring IH]; [done|]. cbn. destruct (check p) eqn:Hc; [done|]. intros Hn. constructor; [done|by apply IH]. Qed.

(** The gateway a MASQUE run starts with: the assigned one, or the newest remembered one that
    answers, when its handshake was within the budget. *)
Lemma masque_quick_Some `{TomlCrate} env carrier_ assigned_answers check file answer p :
  masque_quick env carrier_ assigned_answers check file answer = Some p ->
  assigned_endpoint env = Some p
  \/ exists cached before after elapsed, load file = Some cached /\ usable_peers cached carrier_ = before ++ p :: after
     /\ Forall (fun p => check p = None) before /\ check p = Some elapsed /\ Session.cached_handshake_fast_enough env elapsed = true.
Proof.
  unfold masque_quick. destruct (if assigned_answers then assigned_endpoint env else None) as [a|] eqn:Ha.
  { intros [= <-]. left. by destruct assigned_answers. }
  unfold ring_to_try. destruct (load file) as [cached|]; [|done]. cbn [mbind option_bind]. destruct (negb _ && _); [|done]. cbn [mbind option_bind].
  destruct (first_answering check (usable_peers cached carrier_)) as [[peer elapsed]|] eqn:Hfa; [|done]. cbn.
  destruct (Session.cached_handshake_fast_enough env elapsed) eqn:Hfast; [|done]. intros [= <-]. right.
  destruct (first_answering_Some _ _ _ _ Hfa) as (before & after & Hr & Hb & Hc). by exists cached, before, after, elapsed.
Qed.

Lemma try_profiles_Some passes peer candidates c : try_profiles passes peer candidates = Some c ->
  chosen c = peer /\ passes c.1.2 = true /\ (c.2, c.1.2) ∈ candidates.
Proof.
  unfold try_profiles. induction candidates as [|[name profile] l IH]; [done|]. cbn. destruct (passes profile) eqn:Hp.
  - intros [= <-]. split; [done|]. split; [done|]. apply elem_of_cons. by left.
  - intros (? & ? & ?)%IH. split; [done|]. split; [done|]. apply elem_of_cons. by right.
Qed.

Lemma wg_quick_floor `{TomlCrate} env passes check file answer f :
  let r := wg_quick env passes check file answer f in
  r.2 = f \/ exists peer rtt, check peer = Some rtt /\ Session.cached_peer_fast_enough env rtt = false /\ r = (None, Prober.set_rtt_floor f peer rtt).
Proof.
  intros r. unfold r, wg_quick. destruct (_ ← assigned_endpoint env; _); [by left|]. destruct (ring_to_try _ _ _ _) as [[cached ring]|]; [|by left].
  destruct (first_answering check ring) as [[peer rtt]|] eqn:Hfa; [|by left]. destruct (first_answering_Some _ _ _ _ Hfa) as (before & after & _ & _ & Hc).
  destruct (Session.cached_peer_fast_enough env rtt) eqn:Hfast; [by left|]. right. by exists peer, rtt.
Qed.

(** The endpoint a WireGuard run starts with: the one the organization assigned, when it
    passes with one of the profiles; or else the newest remembered endpoint that answers,
    when it is within the budget of the settings.  An endpoint that answers but is too slow
    is the floor of the scan that follows; nothing else changes the floor. *)
Theorem wg_quick_start `{TomlCrate} env passes check file answer f : 
  match wg_quick env passes check file answer f with
  | (Some c, f') => f' = f
      /\ ((assigned_endpoint env = Some (chosen c) /\ passes c.1.2 = true /\ (c.2, c.1.2) ∈ wg_profile_candidates env)
          \/ exists cached before after rtt, load file = Some cached
             /\ usable_peers cached Session.CARRIER_WIREGUARD = before ++ chosen c :: after /\ Forall (fun p => check p = None) before
             /\ check (chosen c) = Some rtt /\ Session.cached_peer_fast_enough env rtt = true /\ c.2 = Session.profile cached)
  | (None, f') =>
      f' = f \/ exists cached before peer after rtt, load file = Some cached
             /\ usable_peers cached Session.CARRIER_WIREGUARD = before ++ peer :: after /\ Forall (fun p => check p = None) before
             /\ check peer = Some rtt /\ Session.cached_peer_fast_enough env rtt = false /\ f' = Prober.set_rtt_floor f peer rtt
  end.
Proof.
  unfold wg_quick. destruct (_ ← assigned_endpoint env; _) as [q|] eqn:Ha.
  { split; [done|]. left. destruct (assigned_endpoint env) as [assigned|]; [|done]. cbn in Ha.
    by destruct (try_profiles_Some _ _ _ _ Ha) as (-> & ? & ?). }
  unfold ring_to_try. destruct (load file) as [cached|]; cbn [mbind option_bind]; [|by left].
  set (ring := usable_peers cached Session.CARRIER_WIREGUARD). destruct (negb _ && _); [|by left].
  destruct (first_answering check ring) as [[peer rtt]|] eqn:Hfa; [|by left].
  destruct (first_answering_Some _ _ _ _ Hfa) as (before & after & Hr & Hb & Hc).
  destruct (Session.cached_peer_fast_enough env rtt) eqn:Hfast.
  - split; [done|]. right. exists cached, before, after, rtt. done.
  - right. exists cached, before, peer, after, rtt. done.
Qed.

(** A remembered endpoint that is dropped for being slow is never replaced by a slower
    one: the scan of the first round picks an endpoint that passed the probe and is at least
    as fast, or the remembered one. *)
Theorem slow_cache_not_worsened `{TomlCrate} `{RandCrate} env passes check file answer f f' (meets_ : bytes -> WgScanRun) excluded c :
  wg_quick env passes check file answer f = (None, f') -> f' <> f -> (forall p rtt, check p = Some rtt -> Prober.as_millis rtt <= U64_MAX) ->
  hunt_wg_peer (fun name _ => wg_scan (meets_ name) f' excluded) (wg_profile_candidates env) = Ok c ->
  exists peer rtt, check peer = Some rtt /\ Session.cached_peer_fast_enough env rtt = false
  /\ exists name pr, chosen c = mkSocketAddr (Prober.pr_ip pr) (Prober.pr_port pr) /\ Prober.pr_rtt pr <= rtt
     /\ (pr ∈ Prober.answers (wr_turns (meets_ name)) \/ chosen c = peer).
Proof.
  intros Hq Hne Hms Hh. pose proof (wg_quick_floor env passes check file answer f) as Hs. rewrite Hq in Hs.
  destruct Hs as [?|(peer & rtt & Hc & Hslow & [= ->])]; [done|]. exists peer, rtt. split; [done|]. split; [done|].
  apply hunt_wg_peer_ok in Hh as (name & profile & Hscan). cbn [wg_scan prober_wg_scanner] in Hscan.
  apply hunt_wg_peer_with_profile_ok in Hscan as (cands & rest & pr & _ & Hbest & Heq). exists name, pr. split; [done|].
  destruct (Prober.rejected_cache_not_worsened _ _ _ _ _ _ _ _ _ _ _ Hslow (Hms _ _ Hc) Hbest) as [Hle Hor]. split; [done|].
  destruct Hor as [Hin|Hp]; [left|right; congruence]. apply list_elem_of_omap in Hin as (t & Ht & Hm). apply list_elem_of_filter in Ht as [_ Ht].
  apply list_elem_of_omap. eauto.
Qed.

(** ** The theorems at work *)

Section examples.
#[local] Existing Instances Session.number_toml Prober.mod_rand.

Definition minute : Z := Prober.from_secs 60.
Definition slow_edge : SocketAddr := Prober.example_cached.

(** Two ranges of one address each, and a remembered endpoint in the first. *)
Definition example_env (k : bytes) : option bytes :=
  if bool_decide (k = lit "AETHER_WG_CIDRS") then Some (lit "162.159.192.115 162.159.195.92")
  else if bool_decide (k = lit "AETHER_QUICK_RECONNECT") then Some (lit "1")
  else if bool_decide (k = lit "AETHER_QUICK_RECONNECT_MAX_RTT_MS") then Some (lit "180")
  else None.
Definition example_file : option bytes := save None (sa_to_string slow_edge) (lit "balanced") Session.CARRIER_WIREGUARD true.
Definition example_check (_ : SocketAddr) : option Z := Some (Prober.from_millis 396).
(** Every other endpoint answers, on the port the scan tries, in 475 ms. *)
Definition example_scan (start : Z) (_ : bytes) : WgScanRun :=
  mkWgScanRun example_env false Prober.ScanV4 Prober.Turbo [] start
    (map (fun port => Prober.mkTurn start (Prober.Item (V4 (v4_new 162 159 195 92), port) (Some (Prober.from_millis 475))) start) Prober.WG_PORTS
     ++ [Prober.mkTurn (start + minute) Prober.Slept (start + minute)]).
Definition example_start : option Choice * Prober.Floor :=
  wg_quick example_env (fun _ => false) example_check example_file None (Prober.mkFloor 0 None).
(** A round in which the last endpoint does not pass the check and the tunnel is not validated. *)
Definition example_round (t : Z) : Round := mkRound t false (fun _ => false) t (example_scan t) true false (Prober.from_secs 5).

(** The floor overrides the cooldown: a remembered endpoint that is dropped for being
    slow and whose tunnels then fail before they are validated is given up after two of them
    and dialled again in the very same round, although the scan was told to leave it out. *)
Theorem floor_brings_back_failing_endpoint :
  exists s, reach example_env example_start.2 s
    [Tunnel slow_edge (3 * minute) (Prober.from_secs 5) false; GaveUp slow_edge (3 * minute);
     Tunnel slow_edge (2 * minute) (Prober.from_secs 5) false; Tunnel slow_edge minute (Prober.from_secs 5) false]
  /\ cooldowns s !! slow_edge = Some (3 * minute + Session.wg_endpoint_cooldown example_env).
Proof.
  pose proof (reach_start (S := WgScanRun) example_env example_start.2 example_start.1 example_file 0) as H0.
  eapply (reach_round _ _ _ _ (example_round minute)) in H0; [|vm_compute; discriminate|vm_compute; discriminate|vm_compute; reflexivity].
  eapply (reach_round _ _ _ _ (example_round (2 * minute))) in H0; [|vm_compute; discriminate|vm_compute; discriminate|vm_compute; reflexivity].
  eapply (reach_round _ _ _ _ (example_round (3 * minute))) in H0; [|vm_compute; discriminate|vm_compute; discriminate|vm_compute; reflexivity].
  eexists. split; [exact H0|]. vm_compute. reflexivity.
Qed.


Lemma slow_cache_not_worsened_witness :
  exists peer rtt, example_check peer = Some rtt /\ Session.cached_peer_fast_enough example_env rtt = false
  /\ exists name pr, slow_edge = mkSocketAddr (Prober.pr_ip pr) (Prober.pr_port pr) /\ Prober.pr_rtt pr <= rtt
     /\ (pr ∈ Prober.answers (wr_turns (example_scan minute name)) \/ slow_edge = peer).
Proof.
  apply (slow_cache_not_worsened example_env (fun _ => false) example_check example_file None (Prober.mkFloor 0 None) example_start.2
    (example_scan minute) ∅ (slow_edge, Noize.aether_balanced, lit "balanced")).
  - vm_compute. reflexivity.
  - vm_compute. discriminate.
  - intros p rtt [= <-]. vm_compute. discriminate.
  - vm_compute. reflexivity.
Defined.
End examples.

End Reconnect.
