(* ===== verification/Exit.v ===== *)
(** * Exit checks and traffic statistics ([exitloc.rs], [tunnelping.rs], [stats.rs])

    Where the traffic leaves ([Module ExitLoc]): the policy of the settings, the fields of
    the trace page, the check of a new tunnel and the watch over a running one.  The
    probe that asks a tunnel for an HTTP answer ([Module TunnelPing]).  The counters and
    how they are displayed ([Module Stats]).  What the tunnel and the clock answer are
    arguments; a [Duration] is a number of nanoseconds. *)

From stdpp Require Import gmap.
From S2P Require Import Prelude Str Text Error.
Local Open Scope Z_scope.

(** ASCII upper case. *)
Definition ascii_upper (b : Z) : Z := if is_ascii_lower b then b - 32 else b.
Definition to_ascii_uppercase (s : bytes) : bytes := map ascii_upper s.
Definition is_ascii_alphabetic (b : Z) : bool := is_ascii_upper b || is_ascii_lower b.

(** [parts.join(sep)] *)
Fixpoint join (sep : bytes) (parts : list bytes) : bytes :=
  match parts with
  | [] => []
  | [p] => p
  | p :: parts => p ++ sep ++ join sep parts
  end.

(** [value.parse::<u64>().ok().filter(|v| v > 0).map(|v| v.min(86_400)).unwrap_or(default)],
    where the variable may be unset. *)
Definition secs_from_env (value : option bytes) (default_ : Z) : Z :=
  match value ≫= parse_u64 with
  | Some v => if 0 <? v then Z.min v 86400 else default_
  | None => default_
  end.

Module ExitLoc.
Import Error.

Definition TRACE_HOST : bytes := lit "www.cloudflare.com".
Definition TRACE_PATH : bytes := lit "/cdn-cgi/trace".
Definition TRACE_PORT : Z := 80.
Definition LOOKUP_TIMEOUT : Z := 10.
Definition DEFAULT_INTERVAL_SECS : Z := 60.

(** ** The policy *)

Record Policy := mkPolicy { allow : list bytes; deny : list bytes; interval : Z }.

Definition interval_from_env (value : option bytes) : Z := secs_from_env value DEFAULT_INTERVAL_SECS.

Definition country_code (c : bytes) : bool := (blen c =? 2) && forallb is_ascii_alphabetic c.

(** [Policy::parse]; [secs] is the variable that sets the interval. *)
Definition parse (secs : option bytes) (raw : bytes) : option Policy :=
  let spec := trim raw in
  if bool_decide (spec = []) || eq_ignore_ascii_case spec (lit "any") || eq_ignore_ascii_case spec (lit "off") then None
  else
    let negated := starts_with (lit "!") spec in
    let body := trim_start_matches 33 (trim_start_matches 61 (trim_start_matches 33 spec)) in
    let codes := List.filter country_code (map (fun c => to_ascii_uppercase (trim c)) (split_char 44 body)) in
    if bool_decide (codes = []) then None
    else if negated then Some (mkPolicy [] codes (interval_from_env secs))
    else Some (mkPolicy codes [] (interval_from_env secs)).

Definition from_env (secs raw : option bytes) : option Policy := parse secs (default [] raw).

Definition accepts (p : Policy) (loc : bytes) : bool :=
  let code := to_ascii_uppercase (trim loc) in
  if bool_decide (code ∈ deny p) then false
  else bool_decide (allow p = []) || bool_decide (code ∈ allow p).

Definition describe (p : Policy) : bytes :=
  if bool_decide (deny p = []) then lit "exit must be in " ++ join (lit ", ") (allow p)
  else lit "exit must not be in " ++ join (lit ", ") (deny p).

(** ** The trace page *)

Fixpoint find_map {A B} (f : A -> option B) (l : list A) : option B :=
  match l with
  | [] => None
  | x :: l => match f x with Some y => Some y | None => find_map f l end
  end.

Definition field (body name : bytes) : option bytes :=
  value ← find_map (strip_prefix (name ++ lit "=")) (lines body);
  let value := trim value in
  if bool_decide (value = []) then None else Some value.

Definition parse_trace (body : bytes) : option bytes :=
  code ← field body (lit "loc");
  let code := to_ascii_uppercase code in
  if blen code =? 2 then Some code else None.

Record Exit := mkExit { address : option bytes; country : option bytes; colo : option bytes; warp : bool; rtt : Z }.

Definition opt_list {A} (o : option A) : list A := match o with Some a => [a] | None => [] end.

Definition Exit_describe (e : Exit) : bytes :=
  join (lit ", ")
    (opt_list (address e) ++
     match country e, colo e with
     | Some country, Some colo => [country ++ lit " via " ++ colo]
     | Some country, None => [country]
     | None, Some colo => [colo]
     | None, None => []
     end ++
     [dec (rtt e / 1000000) ++ lit "ms to cloudflare"] ++
     (if warp e then [lit "warp on"] else [])).

Definition parse_exit (body : bytes) (rtt : Z) : Exit :=
  mkExit (field body (lit "ip")) (parse_trace body) (field body (lit "colo"))
    (bool_decide (field body (lit "warp") = Some (lit "on"))) rtt.

Definition trace_request : bytes :=
  lit "GET " ++ TRACE_PATH ++ lit " HTTP/1.1" ++ [13; 10] ++ lit "Host: " ++ TRACE_HOST ++ [13; 10] ++
  lit "Connection: close" ++ [13; 10] ++ lit "User-Agent: aether" ++ [13; 10; 13; 10].

(** The loop that reads the answer, over the chunks that arrive. *)
Fixpoint read_chunks (buf : bytes) (chunks : list bytes) : bytes :=
  match chunks with
  | [] => buf
  | chunk :: chunks =>
      let buf := buf ++ chunk in
      if (8192 <? blen buf) || match parse_trace (from_utf8_lossy buf) with Some _ => true | None => false end
      then buf else read_chunks buf chunks
  end.

(** [read_trace]: what the resolver, the connect and the write answer, and the chunks
    that arrive before the timeout, or the timeout. *)
Record Attempt := mkAttempt {
  resolved : res AetherError unit;
  opened : res AetherError unit;
  requested : res AetherError unit;
  arrived : list bytes;
  timed_out : bool;
}.
Definition read_trace (a : Attempt) : res AetherError bytes :=
  if timed_out a then Err (Other (lit "looking up the exit location timed out"))
  else
    resolved a ;; opened a ;; requested a ;;
    Ok (from_utf8_lossy (read_chunks [] (arrived a))).

Definition trace_through (a : Attempt) (elapsed : Z) : res AetherError (bytes * Z) :=
  body ← read_trace a; Ok (body, elapsed).

Definition report (a : Attempt) (elapsed : Z) : option Exit :=
  match trace_through a elapsed with Ok (body, rtt) => Some (parse_exit body rtt) | _ => None end.

Definition lookup (a : Attempt) : res AetherError bytes :=
  body ← read_trace a;
  ok_or (parse_trace body) (Other (lit "the trace answer carried no location")).

(** The check of a new tunnel. *)
Definition settle (a : Attempt) (elapsed : Z) (policy : option Policy) : res AetherError unit :=
  match policy with
  | None => Ok tt
  | Some policy =>
      match report a elapsed with
      | None => Err (Other (lit "the exit location could not be read, so the policy cannot be honoured"))
      | Some exit =>
          let loc := default [] (country exit) in
          if accepts policy loc then Ok tt
          else Err (Other (lit "exit location " ++ loc ++ lit " does not satisfy the requested policy"))
      end
  end.

(** The watch over a running one: one attempt per interval; [None] while it goes on. *)
Fixpoint watch (policy : Policy) (attempts : list Attempt) : option AetherError :=
  match attempts with
  | [] => None
  | a :: attempts =>
      match lookup a with
      | Ok loc => if accepts policy loc then watch policy attempts
                  else Some (Other (lit "exit location changed to " ++ loc))
      | _ => watch policy attempts
      end
  end.

(** ** What a policy decides *)

Lemma to_ascii_uppercase_app a b : to_ascii_uppercase (a ++ b) = to_ascii_uppercase a ++ to_ascii_uppercase b.
Proof. apply map_app. Qed.
Lemma blen_uppercase s : blen (to_ascii_uppercase s) = blen s.
Proof. unfold blen, to_ascii_uppercase. by rewrite length_map. Qed.

Lemma alphabetic_plain b : is_ascii_alphabetic b = true -> plain b = true.
Proof. unfold is_ascii_alphabetic, is_ascii_upper, is_ascii_lower, plain, is_ascii, ws1. intros. zbool. destruct H; zbool; lia. Qed.
Lemma alphabetic_upper b : is_ascii_alphabetic b = true -> is_ascii_alphabetic (ascii_upper b) = true.
Proof.
  unfold ascii_upper. destruct (is_ascii_lower b) eqn:E; [|done]. intros _.
  unfold is_ascii_alphabetic, is_ascii_upper, is_ascii_lower in *. zbool. apply orb_true_iff. left. apply andb_true_iff. split; apply Z.leb_le; lia.
Qed.

Lemma country_code_upper c : country_code c = true -> country_code (to_ascii_uppercase c) = true.
Proof.
  unfold country_code. rewrite blen_uppercase. intros [-> H]%andb_prop. cbn.
  induction c as [|b c IH]; [done|]. cbn in *. apply andb_prop in H as [Hb Hc]. rewrite alphabetic_upper by done. by apply IH.
Qed.

Lemma country_code_inv c : country_code c = true -> exists b b', c = [b; b'] /\ is_ascii_alphabetic b = true.
Proof.
  intros [Hl Hc]%andb_prop. zbool. unfold blen in Hl. destruct c as [|b [|b' [|? ?]]]; cbn [length] in Hl; try lia.
  exists b, b'. split; [done|]. cbn in Hc. by apply andb_prop in Hc as [? _].
Qed.

Lemma code_trim c : country_code c = true -> trim c = c.
Proof.
  intros [_ H]%andb_prop. apply trim_all_plain. eapply forallb_impl; [|exact H]. apply alphabetic_plain.
Qed.

Lemma code_no_comma c : country_code c = true -> no_char 44 c = true.
Proof. intros [_ H]%andb_prop. by eapply (forallb_no_char is_ascii_alphabetic). Qed.

Lemma join_cons_cons sep p q l : join sep (p :: q :: l) = p ++ sep ++ join sep (q :: l).
Proof. done. Qed.

Lemma join_pieces codes : forall c, join [44] (c :: codes) = c ++ concat (map (fun p => [44] ++ p) codes).
Proof.
  induction codes as [|d codes IH]; intros c; [cbn; by rewrite app_nil_r|].
  rewrite join_cons_cons, IH. cbn [map concat]. by rewrite <- app_assoc.
Qed.

Lemma codes_of codes :
  codes <> [] -> Forall (fun c => country_code c = true) codes ->
  List.filter country_code (map (fun c => to_ascii_uppercase (trim c)) (split_char 44 (join [44] codes))) = map to_ascii_uppercase codes.
Proof.
  destruct codes as [|c codes]; [done|]. intros _ Hc. rewrite join_pieces.
  apply Forall_cons in Hc as [Hc Hcs]. rewrite split_char_join.
  - assert (Forall (fun c => country_code c = true) (c :: codes)) as H by by constructor. clear Hc Hcs. revert H.
    generalize (c :: codes) as l. induction l as [|d l IH]; intros H; [done|]. apply Forall_cons in H as [Hd Hl]. cbn [map List.filter].
    rewrite code_trim, country_code_upper, IH by done. done.
  - by apply code_no_comma.
  - eapply Forall_impl; [done|]. intros d. apply code_no_comma.
Qed.

(** The list after its sign. *)
Lemma strip_signs b t : b <> 33 -> b <> 61 -> forall sign, Forall (fun x => x = 33) sign ->
  trim_start_matches 33 (trim_start_matches 61 (trim_start_matches 33 (sign ++ b :: t))) = b :: t.
Proof.
  intros H1 H2 sign Hs. assert (forall c, c <> b -> drop_while (Z.eqb c) (b :: t) = b :: t) as Hd.
  { intros c Hc. cbn. by rewrite (proj2 (Z.eqb_neq c b)). }
  unfold trim_start_matches. assert (drop_while (Z.eqb 33) (sign ++ b :: t) = b :: t) as ->.
  { induction Hs as [|x sign Hx _ IH]; cbn [app]; [apply Hd; congruence|]. subst x. exact IH. }
  rewrite !Hd; [done|congruence..].
Qed.

Lemma join_cons c codes : exists t, join [44] (c :: codes) = c ++ t.
Proof. rewrite join_pieces. by eexists. Qed.

Lemma join_codes_plain codes : Forall (fun c => country_code c = true) codes -> forallb plain (join [44] codes) = true.
Proof.
  induction 1 as [|c codes Hc Hcs IH]; [done|]. assert (forallb plain c = true) as Hp.
  { apply andb_prop in Hc as [_ H]. eapply forallb_impl; [|exact H]. apply alphabetic_plain. }
  destruct codes as [|d codes]; [done|]. rewrite join_cons_cons. by rewrite !forallb_app, Hp, IH.
Qed.

(** A list of country codes, in any case, is a policy that accepts them and no other
    location; with a [!] before it, one that accepts every location but them. *)
Theorem policy_decides secs codes (negated : bool) loc :
  codes <> [] -> Forall (fun c => country_code c = true) codes ->
  exists p, parse secs ((if negated then [33] else []) ++ join [44] codes) = Some p /\
    (accepts p loc = true <->
     (if negated then to_ascii_uppercase (trim loc) ∉ map to_ascii_uppercase codes
      else to_ascii_uppercase (trim loc) ∈ map to_ascii_uppercase codes)) /\
    1 <= interval p <= 86400.
Proof.
  intros Hne Hc. destruct codes as [|c codes]; [done|]. pose proof Hc as [Hcc _]%Forall_cons.
  apply country_code_inv in Hcc as (b & b' & -> & Hb1).
  set (sign := if negated then [33] else []). set (body := join [44] ([b; b'] :: codes)).
  assert (forallb plain (sign ++ body) = true) as Hpl.
  { rewrite forallb_app. subst body. rewrite join_codes_plain by done. subst sign. by destruct negated. }
  assert (b <> 33 /\ b <> 61) as (N1 & N2).
  { unfold is_ascii_alphabetic, is_ascii_upper, is_ascii_lower in Hb1. clear -Hb1. zbool. destruct Hb1; zbool; lia. }
  assert (exists t, body = b :: b' :: t /\ match t with x :: _ => x = 44 | [] => True end) as (t & Ht & Ht44).
  { subst body. rewrite join_pieces. eexists. split; [done|]. by destruct codes. }
  assert (eq_ignore_ascii_case (sign ++ body) (lit "any") = false /\ eq_ignore_ascii_case (sign ++ body) (lit "off") = false) as [Hany Hoff].
  { rewrite Ht. split; apply bool_decide_eq_false; intros E; subst sign;
      (destruct negated; [cbn in E; discriminate|]); (destruct t as [|x t]; [|subst x]); cbn in E; discriminate. }
  unfold parse. rewrite trim_all_plain, Hany, Hoff by done. rewrite bool_decide_eq_false_2 by (rewrite Ht; by destruct sign). cbn [orb].
  assert (trim_start_matches 33 (trim_start_matches 61 (trim_start_matches 33 (sign ++ body))) = body) as ->.
  { rewrite Ht. apply strip_signs; [done|done|]. subst sign. destruct negated; by repeat constructor. }
  subst body. rewrite codes_of by done. rewrite bool_decide_eq_false_2 by done.
  assert (starts_with (lit "!") (sign ++ join [44] ([b; b'] :: codes)) = negated) as ->.
  { rewrite Ht. subst sign. destruct negated; [done|]. change (lit "!") with [33]. cbn [app starts_with]. by rewrite (proj2 (Z.eqb_neq _ _)) by congruence. }
  assert (1 <= interval_from_env secs <= 86400) as Hi.
  { unfold interval_from_env, secs_from_env. destruct (secs ≫= parse_u64) as [v|]; [|done]. zcase; [lia|done]. }
  destruct negated; eexists; (split; [done|]); (split; [|done]); unfold accepts; cbn [deny allow].
  - rewrite (bool_decide_eq_true_2 ([] = [])) by done. cbn [orb]. case_bool_decide as Hin; [|done]. split; [done|]. intros Hn. by destruct (Hn Hin).
  - rewrite (bool_decide_eq_false_2 (_ ∈ [])) by apply not_elem_of_nil. rewrite bool_decide_eq_false_2 by done. cbn [orb].
    apply bool_decide_eq_true.
Qed.

(** With a policy, a tunnel is kept only when its exit answered and the policy accepts
    the location read, and the watch ends at the first location read that it rejects. *)
Theorem watch_leaves_rejected policy attempts e :
  watch policy attempts = Some e <->
  exists before a after loc, attempts = before ++ a :: after /\
    lookup a = Ok loc /\ accepts policy loc = false /\ e = Other (lit "exit location changed to " ++ loc) /\
    Forall (fun a => forall loc, lookup a = Ok loc -> accepts policy loc = true) before.
Proof.
  split.
  - revert e. induction attempts as [|a attempts IH]; intros e; cbn [watch]; [done|]. destruct (lookup a) as [loc|err|] eqn:Hl.
    + destruct (accepts policy loc) eqn:Ha.
      * intros (before & a' & after & loc' & -> & H)%IH. exists (a :: before), a', after, loc'. split; [done|].
        destruct H as (H1 & H2 & H3 & H4). repeat (split; [done|]). constructor; [|done]. intros ? [= <-]%(eq_trans (eq_sym Hl)). done.
      * intros [= <-]. by exists [], a, attempts, loc.
    + intros (before & a' & after & loc' & -> & H)%IH. exists (a :: before), a', after, loc'. split; [done|].
      destruct H as (H1 & H2 & H3 & H4). repeat (split; [done|]). constructor; [|done]. by rewrite Hl.
    + intros (before & a' & after & loc' & -> & H)%IH. exists (a :: before), a', after, loc'. split; [done|].
      destruct H as (H1 & H2 & H3 & H4). repeat (split; [done|]). constructor; [|done]. by rewrite Hl.
  - intros (before & a & after & loc & -> & Hl & Ha & -> & Hb). induction Hb as [|a' before Ha' _ IH]; cbn [app watch].
    + by rewrite Hl, Ha.
    + destruct (lookup a') as [loc'|err|] eqn:Hl'; [|done|done]. by rewrite Ha' by done.
Qed.

(** What an allow list promises: the tunnel of a run with one is kept only when a
    location it names was read. *)
Theorem settle_allow_list a elapsed p :
  allow p <> [] -> Forall (fun c => country_code c = true) (allow p) -> settle a elapsed (Some p) = Ok tt ->
  exists body loc, read_trace a = Ok body /\ parse_trace body = Some loc /\ to_ascii_uppercase (trim loc) ∈ allow p.
Proof.
  intros Hne Hc. unfold settle, report, trace_through. destruct (read_trace a) as [body|e|] eqn:Hr; cbn [mbind res_bind]; [|done|done].
  cbn [parse_exit country]. unfold accepts. destruct (bool_decide (_ ∈ deny p)); [done|]. rewrite (bool_decide_eq_false_2 (allow p = [])) by done.
  cbn [orb]. case_bool_decide as Hin; [|done]. intros _. exists body. destruct (parse_trace body) as [loc|] eqn:Hp; [by exists loc|].
  exfalso. rewrite Forall_forall in Hc. by specialize (Hc _ Hin).
Qed.

(** A deny list does not: a tunnel whose exit answers with no location is kept, though
    the watch, which reads the same answer, counts it as none. *)
Theorem settle_keeps_unread_location a elapsed p body :
  allow p = [] -> Forall (fun c => country_code c = true) (deny p) ->
  read_trace a = Ok body -> parse_trace body = None ->
  settle a elapsed (Some p) = Ok tt /\ exists e, lookup a = Err e.
Proof.
  intros Ha Hd Hr Hp. unfold settle, report, trace_through, lookup. rewrite Hr. cbn [mbind res_bind parse_exit country]. rewrite Hp. cbn.
  split; [|by eexists]. unfold accepts. rewrite Ha. rewrite bool_decide_eq_false_2; [done|]. intros Hin. rewrite Forall_forall in Hd. by specialize (Hd _ Hin).
Qed.

End ExitLoc.

Module TunnelPing.
Import Error.

Definition PING_MTU : Z := 1280.
Definition HTTP_PROBE_HOST : bytes := lit "www.gstatic.com".
Definition HTTP_PROBE_PATH : bytes := lit "/generate_204".

Definition http_probe_port (value : option bytes) : Z := default 80 (value ≫= parse_u16).

Definition http_status_code (status_line : bytes) : option Z :=
  match split_char 32 status_line with
  | version :: parts =>
      if negb (starts_with (lit "HTTP/") version) then None
      else match parts with code :: _ => parse_u16 code | [] => None end
  | [] => None
  end.

(** The loop over the chunks that arrive before the deadline; [late] says whether the
    deadline passed after them, rather than the flow having ended.  Returned: what was
    read, and whether it was cut by the deadline. *)
Definition head_read (buf : bytes) : bool :=
  match find_sub [13; 10] buf with Some _ => true | None => 128 <=? blen buf end.
Fixpoint read_head (buf : bytes) (chunks : list bytes) (late : bool) : bytes * bool :=
  match chunks with
  | [] => (buf, late)
  | chunk :: chunks =>
      let buf := buf ++ chunk in
      if head_read buf then (buf, false) else read_head buf chunks late
  end.

Definition probe_request : bytes :=
  lit "GET " ++ HTTP_PROBE_PATH ++ lit " HTTP/1.1" ++ [13; 10] ++ lit "Host: " ++ HTTP_PROBE_HOST ++ [13; 10] ++
  lit "Connection: close" ++ [13; 10] ++ lit "User-Agent: aether-ironclad" ++ [13; 10; 13; 10].

(** [http_probe]: what the resolver, the connect and the write answer, then the chunks. *)
Definition http_probe (resolved opened requested : res AetherError unit) (chunks : list bytes) (late : bool) : res AetherError unit :=
  resolved ;; opened ;; requested ;;
  let '(buf, timed_out) := read_head [] chunks late in
  if timed_out then Err (Other (lit "http probe response timeout"))
  else
    let status_line := trim (match lines (from_utf8_lossy buf) with line :: _ => line | [] => [] end) in
    if bool_decide (http_status_code status_line = Some 204) then Ok tt
    else Err (Other (lit "unexpected http probe response: " ++ status_line)).

Example status_204 : http_status_code (lit "HTTP/1.1 204 No Content") = Some 204.
Proof. reflexivity. Qed.

(** The head is read as soon as it is complete, however it is cut. *)
Lemma read_head_cut line rest late chunks : no_char 13 line = true -> blen line + 2 <= 128 -> forall buf,
  buf ++ concat chunks = line ++ [13; 10] ++ rest -> head_read buf = false ->
  exists rest', read_head buf chunks late = (line ++ [13; 10] ++ rest', false).
Proof.
  intros Hl Hb. induction chunks as [|c chunks IH]; intros buf Hc Hh; cbn [read_head].
  - cbn [concat] in Hc. rewrite app_nil_r in Hc. subst buf. unfold head_read in Hh. by rewrite find_crlf in Hh.
  - cbn [concat] in Hc. rewrite app_assoc in Hc. destruct (head_read (buf ++ c)) eqn:Hh'; [|by apply IH].
    assert (blen line + 2 <= blen (buf ++ c)) as Hlen.
    { unfold head_read in Hh'. destruct (find_sub [13; 10] (buf ++ c)) as [i|] eqn:Hf; [|zbool; lia].
      pose proof (find_sub_bounds _ _ _ Hf) as [_ Hi]. apply (find_sub_app _ _ (concat chunks)) in Hf. rewrite Hc, find_crlf in Hf by done.
      change (blen [13; 10]) with 2 in Hi. injection Hf as <-. lia. }
    exists (drop (length line + 2) (buf ++ c)). f_equal. rewrite <- (take_drop (length line + 2) (buf ++ c)) at 1.
    rewrite app_assoc. f_equal. assert (take (length line + 2) ((buf ++ c) ++ concat chunks) = line ++ [13; 10]) as Ht.
    { rewrite Hc, app_assoc. rewrite take_app_length'; [done|]. rewrite length_app. cbn. lia. }
    rewrite take_app_le in Ht; [done|]. unfold blen in Hlen. lia.
Qed.

(** The probe succeeds exactly on a status line that says 204, however the answer is cut
    into chunks. *)
Theorem http_probe_any_cut line rest chunks late :
  concat chunks = line ++ [13; 10] ++ rest ->
  str_is_ascii line = true -> no_char 13 line = true -> no_char 10 line = true -> trim line = line -> blen line <= 126 ->
  (http_probe (Ok tt) (Ok tt) (Ok tt) chunks late = Ok tt <-> http_status_code line = Some 204) /\
  (http_status_code line <> Some 204 ->
   http_probe (Ok tt) (Ok tt) (Ok tt) chunks late = Err (Other (lit "unexpected http probe response: " ++ line))).
Proof.
  intros Hc Ha H13 H10 Ht Hl. unfold http_probe. cbn [mbind res_bind].
  destruct (read_head_cut line rest late chunks H13 ltac:(lia) [] Hc eq_refl) as [rest' ->].
  assert (str_is_ascii (line ++ [13; 10]) = true) as Ha' by (unfold str_is_ascii in *; by rewrite forallb_app, Ha).
  destruct (lossy_app_ascii (line ++ [13; 10]) rest' Ha') as [r Hr]. rewrite <- app_assoc in Hr. rewrite Hr, <- app_assoc.
  pose proof (lines_first line r H10) as Hf.
  destruct (lines (line ++ [13; 10] ++ r)) as [|first ls]; [done|]. injection Hf as ->. rewrite Ht.
  case_bool_decide as Hd; by split.
Qed.

End TunnelPing.

Module Stats.

Definition DEFAULT_REPORT_SECS : Z := 60.

(** The statics of the file; [START] is the time of [init]. *)
Record State := mkState { UP : Z; DOWN : Z; ENABLED : bool; START : option Z }.
Definition State_new : State := mkState 0 0 false None.

Record Counters := mkCounters { up : Z; down : Z; uptime : Z }.

Definition switched_on (value : option bytes) : bool :=
  match value with
  | Some v => let v := to_ascii_lowercase (trim v) in bool_decide (v ∈ [lit "1"; lit "true"; lit "yes"; lit "on"])
  | None => false
  end.

Definition init (value : option bytes) (now : Z) (s : State) : State :=
  mkState (UP s) (DOWN s) (switched_on value) (match START s with Some t => Some t | None => Some now end).
Definition enabled (s : State) : bool := ENABLED s.
Definition add_up (bytes_ : Z) (s : State) : State :=
  if enabled s then mkState (wrap_u64 (UP s + bytes_)) (DOWN s) (ENABLED s) (START s) else s.
Definition add_down (bytes_ : Z) (s : State) : State :=
  if enabled s then mkState (UP s) (wrap_u64 (DOWN s + bytes_)) (ENABLED s) (START s) else s.
Definition snapshot (now : Z) (s : State) : Counters :=
  mkCounters (UP s) (DOWN s) (match START s with Some t => saturating_sub now t | None => 0 end).

(** [bytes as f64], for a value below 2^64: the nearest multiple of the unit in the last
    place, ties to the even one. *)
Definition round_half_even (num den : Z) : Z :=
  let q := num / den in
  let twice := 2 * (num mod den) in
  if twice <? den then q else if den <? twice then q + 1 else if Z.even q then q else q + 1.
Definition as_f64 (z : Z) : Z :=
  let k := Z.max 0 (Z.log2 z - 52) in round_half_even z (2 ^ k) * 2 ^ k.

Definition UNITS : list bytes := [lit "B"; lit "KiB"; lit "MiB"; lit "GiB"; lit "TiB"].

(** The loop of [format_bytes]: the unit, for a value that is [num / 1024^unit]. *)
Fixpoint climb (turns : nat) (num : Z) (unit_ : nat) : nat :=
  match turns with
  | O => unit_
  | S turns =>
      if (1024 * 1024 ^ Z.of_nat unit_ <=? num) && Nat.ltb (unit_ + 1) (length UNITS) then climb turns num (S unit_) else unit_
  end.

Definition format_bytes (bytes_ : Z) : bytes :=
  let num := as_f64 bytes_ in
  let unit_ := climb 5 num 0 in
  if Nat.eqb unit_ 0 then dec bytes_ ++ lit " B"
  else
    let tenths := round_half_even (num * 10) (1024 ^ Z.of_nat unit_) in
    dec (tenths / 10) ++ lit "." ++ dec (tenths mod 10) ++ lit " " ++ default [] (UNITS !! unit_).

(** [{:02}] *)
Definition pad2 (z : Z) : bytes := if z <? 10 then 48 :: dec z else dec z.

Definition uptime_fields (total : Z) : Z * Z * Z * Z :=
  (total / 86400, (total mod 86400) / 3600, (total mod 3600) / 60, total mod 60).
Definition format_uptime (uptime : Z) : bytes :=
  let '(days, hours, minutes, seconds) := uptime_fields (uptime / 1000000000) in
  let clock := pad2 hours ++ lit ":" ++ pad2 minutes ++ lit ":" ++ pad2 seconds in
  if 0 <? days then dec days ++ lit "d " ++ clock else clock.

Definition report_interval (value : option bytes) : Z := secs_from_env value DEFAULT_REPORT_SECS.

Example format_bytes_ex : format_bytes 1023 = lit "1023 B" /\ format_bytes (5 * 1024 * 1024 * 1024) = lit "5.0 GiB" /\
  format_bytes 1536 = lit "1.5 KiB".
Proof. vm_compute. done. Qed.
Example format_uptime_ex : format_uptime (90061 * 1000000000) = lit "1d 01:01:01".
Proof. vm_compute. done. Qed.

Inductive Event := Up (n : Z) | Down (n : Z).
Definition count (s : State) (e : Event) : State := match e with Up n => add_up n s | Down n => add_down n s end.

(** The fields of an uptime are its digits in days, hours, minutes and seconds. *)
Lemma uptime_fields_ok total : 0 <= total ->
  let '(d, h, m, s) := uptime_fields total in
  total = d * 86400 + h * 3600 + m * 60 + s /\ 0 <= d /\ 0 <= h < 24 /\ 0 <= m < 60 /\ 0 <= s < 60.
Proof.
  intros Ht. unfold uptime_fields.
  pose proof (Z.div_mod total 86400 ltac:(lia)). pose proof (Z.mod_pos_bound total 86400 ltac:(lia)).
  assert (total mod 3600 = (total mod 86400) mod 3600) as E1 by (symmetry; rewrite <- (Znumtheory.Zmod_div_mod 3600 86400); [done|lia|lia|by exists 24]).
  assert (total mod 60 = (total mod 86400) mod 60) as E2 by (symmetry; rewrite <- (Znumtheory.Zmod_div_mod 60 86400); [done|lia|lia|by exists 1440]).
  rewrite E1, E2. remember (total mod 86400) as r. pose proof (Z.div_pos total 86400 ltac:(lia) ltac:(lia)). Z.to_euclidean_division_equations. lia.
Qed.

Lemma wrap_u64_add a b c : wrap_u64 (wrap_u64 (a + b) + c) = wrap_u64 (a + (b + c)).
Proof. unfold wrap_u64. rewrite Z.add_mod_idemp_l by lia. f_equal. lia. Qed.
Lemma wrap_u64_range z : 0 <= wrap_u64 z <= U64_MAX.
Proof. unfold wrap_u64, U64_MAX. pose proof (Z.mod_pos_bound z 18446744073709551616 ltac:(lia)). lia. Qed.

Definition ups (events : list Event) : Z := foldr (fun e n => match e with Up k => k + n | Down _ => n end) 0 events.
Definition downs (events : list Event) : Z := foldr (fun e n => match e with Down k => k + n | Up _ => n end) 0 events.

(** Counting is exact modulo 2^64 while it is on, and does nothing while it is off. *)
Lemma count_all events : forall s, 0 <= UP s <= U64_MAX -> 0 <= DOWN s <= U64_MAX ->
  fold_left count events s =
  if ENABLED s then mkState (wrap_u64 (UP s + ups events)) (wrap_u64 (DOWN s + downs events)) true (START s) else s.
Proof.
  induction events as [|e events IH]; intros s Hu Hd; cbn [fold_left ups downs foldr].
  { rewrite !Z.add_0_r. unfold wrap_u64, U64_MAX in *. rewrite !Z.mod_small by lia. destruct s as [u d [] t]; done. }
  fold (ups events) (downs events). unfold count, add_up, add_down, enabled.
  destruct (ENABLED s) eqn:He; [|destruct e; by rewrite IH, He].
  destruct e as [n|n]; rewrite IH by (cbn; auto using wrap_u64_range); cbn [ENABLED UP DOWN START]; by rewrite ?He, wrap_u64_add.
Qed.

(** The unit chosen is the largest that leaves a whole part, up to the last. *)
Lemma climb_ok num turns : forall u, (u + turns = 5)%nat -> (u < 5)%nat -> (u = 0%nat \/ 1024 ^ Z.of_nat u <= num) ->
  let v := climb turns num u in
  (u <= v < 5)%nat /\ (v = 0%nat \/ 1024 ^ Z.of_nat v <= num) /\ (v = 4%nat \/ num < 1024 ^ Z.of_nat (S v)).
Proof.
  induction turns as [|turns IH]; intros u Ht Hu Hn; cbn [climb]; [lia|].
  replace (1024 * 1024 ^ Z.of_nat u) with (1024 ^ Z.of_nat (S u)) by (rewrite Nat2Z.inj_succ, Z.pow_succ_r; lia).
  destruct ((1024 ^ Z.of_nat (S u) <=? num) && _) eqn:Hc.
  - zbool. match goal with H : Nat.ltb _ _ = true |- _ => apply Nat.ltb_lt in H; cbn in H end.
    destruct (IH (S u) ltac:(lia) ltac:(lia) ltac:(by right)) as (H1 & H2 & H3). split; [lia|done].
  - split; [lia|]. split; [done|]. apply andb_false_iff in Hc as [Hc|Hc]; [zbool; by right|].
    left. apply Nat.ltb_ge in Hc. cbn in Hc. lia.
Qed.

End Stats.

(** ** Witnesses *)

Module Witnesses.
Import ExitLoc TunnelPing Error.

Definition trace_body (loc : bytes) : bytes := lit "fl=1" ++ [10] ++ lit "ip=1.2.3.4" ++ [10] ++ loc ++ [10] ++ lit "warp=on" ++ [10].
Definition answering (chunks : list bytes) : Attempt := mkAttempt (Ok tt) (Ok tt) (Ok tt) chunks false.

Lemma policy_decides_witness :
  exists p, parse None (lit "!IR,az") = Some p /\ (accepts p (lit " Az ") = true <-> [65; 90] ∉ [[73; 82]; [65; 90]]).
Proof.
  destruct (policy_decides None [lit "IR"; lit "az"] true (lit " Az ")) as (p & H1 & H2 & _); [discriminate|repeat constructor|].
  exists p. split; [exact H1|exact H2].
Defined.

Lemma settle_allow_list_witness :
  exists body loc, read_trace (answering [trace_body (lit "loc=de")]) = Ok body /\ parse_trace body = Some loc /\
    to_ascii_uppercase (trim loc) ∈ [lit "DE"].
Proof.
  apply (settle_allow_list (answering [trace_body (lit "loc=de")]) 5 (mkPolicy [lit "DE"] [] 60)).
  - discriminate.
  - repeat constructor.
  - vm_compute. reflexivity.
Defined.

Lemma settle_keeps_unread_location_witness :
  settle (answering [trace_body (lit "colo=FRA")]) 5 (Some (mkPolicy [] [lit "IR"] 60)) = Ok tt /\
  exists e, lookup (answering [trace_body (lit "colo=FRA")]) = Err e.
Proof.
  apply (settle_keeps_unread_location _ 5 (mkPolicy [] [lit "IR"] 60) (trace_body (lit "colo=FRA"))).
  - reflexivity.
  - repeat constructor.
  - vm_compute. reflexivity.
  - vm_compute. reflexivity.
Defined.

Lemma http_probe_any_cut_witness :
  http_probe (Ok tt) (Ok tt) (Ok tt) [lit "HTTP/1.1 2"; lit "04 No Content" ++ [13]; [10; 13]; [10]] false = Ok tt.
Proof.
  apply (http_probe_any_cut (lit "HTTP/1.1 204 No Content") [13; 10]); vm_compute; try reflexivity. discriminate.
Defined.

End Witnesses.
