(* ===== verification/Egress.v ===== *)
(** * Connections out and the device profile ([egress.rs], [sysprofile.rs])

    The mark of the outgoing sockets, and the race between the addresses of a name
    ([Module Egress]): the order in which they are tried, and the attempts as a state
    machine over what finishes and the timer.  The sizes derived from the device
    ([Module SysProfile]).  Sockets and the system are arguments. *)

From stdpp Require Import gmap.
From Stdlib Require Import Permutation.
From S2P Require Import Prelude Str Ip Text Error.
Local Open Scope Z_scope.

Module Egress.
Import Error.

(** ** The mark *)

Definition parse_mark (raw : bytes) : option Z :=
  let text := trim raw in
  match match strip_prefix (lit "0x") text with Some hex => Some hex | None => strip_prefix (lit "0X") text end with
  | Some hex => parse_hex U32_MAX hex
  | None => parse_uint U32_MAX text
  end.

(** [init]: the mark stored, given the variable and whether a socket could be marked
    with it (the error is the system's). *)
Definition init (value : option bytes) (set_mark : Z -> res bytes unit) : res AetherError Z :=
  match value with
  | Some raw =>
      if bool_decide (trim raw = []) then Ok 0
      else
        mark ← ok_or (parse_mark raw)
                 (Other (lit "'" ++ trim raw ++ lit "' is not a socket mark; give a number such as 255 or 0xff"));
        if mark =? 0 then Ok 0
        else
          map_err (fun error => Other (lit "cannot mark sockets with " ++ lit "0x" ++ hex_digits 8 mark ++ lit ": " ++ error ++
                                       lit "; marking needs root or CAP_NET_ADMIN")) (set_mark mark) ;;
          Ok mark
  | None => Ok 0
  end.

(** ** The order of the addresses *)

Definition is_ipv4 (a : SocketAddr) : bool := match sa_ip a with V4 _ => true | V6 _ => false end.

(** The loop that takes one of each queue by turns. *)
Fixpoint take_turns (fuel : nat) (lead other : list SocketAddr) : list SocketAddr :=
  match fuel with
  | O => []
  | S fuel =>
      match lead, other with
      | [], [] => []
      | a :: lead, b :: other => a :: b :: take_turns fuel lead other
      | a :: lead, [] => a :: take_turns fuel lead []
      | [], b :: other => b :: take_turns fuel [] other
      end
  end.

Definition interleaved (addresses : list SocketAddr) : list SocketAddr :=
  match addresses with
  | [] => []
  | first :: _ =>
      let lead := List.filter (fun a => Bool.eqb (is_ipv4 a) (is_ipv4 first)) addresses in
      let other := List.filter (fun a => negb (Bool.eqb (is_ipv4 a) (is_ipv4 first))) addresses in
      take_turns (length addresses) lead other
  end.

Lemma take_turns_keeps (p : SocketAddr -> bool) fuel : forall lead other,
  (length lead + length other <= fuel)%nat -> Forall (fun a => p a = true) lead -> Forall (fun a => p a = false) other ->
  List.filter p (take_turns fuel lead other) = lead /\ List.filter (fun a => negb (p a)) (take_turns fuel lead other) = other.
Proof.
  induction fuel as [|fuel IH]; intros lead other Hl Hp Ho; cbn [take_turns].
  { destruct lead, other; cbn in Hl; try lia. done. }
  destruct lead as [|a lead], other as [|b other]; cbn in Hl; try done.
  - apply Forall_cons in Ho as [Hb Ho]. cbn [List.filter]. rewrite Hb. cbn [negb]. destruct (IH [] other ltac:(cbn; lia) Hp Ho) as [-> ->]. done.
  - apply Forall_cons in Hp as [Ha Hp]. cbn [List.filter]. rewrite Ha. cbn [negb]. destruct (IH lead [] ltac:(cbn; lia) Hp Ho) as [-> ->]. done.
  - apply Forall_cons in Ho as [Hb Ho]. apply Forall_cons in Hp as [Ha Hp]. cbn [List.filter]. rewrite Ha, Hb. cbn [negb List.filter].
    destruct (IH lead other ltac:(lia) Hp Ho) as [-> ->]. done.
Qed.

Lemma take_turns_at fuel : forall lead other k, (length lead + length other <= fuel)%nat -> (k < length lead)%nat -> (k < length other)%nat ->
  take_turns fuel lead other !! (2 * k)%nat = lead !! k /\ take_turns fuel lead other !! (2 * k + 1)%nat = other !! k.
Proof.
  induction fuel as [|fuel IH]; intros lead other k Hl Ha Hb; [lia|].
  destruct lead as [|a lead], other as [|b other]; cbn in Ha, Hb; try lia. cbn [take_turns]. destruct k as [|k]; [done|].
  replace (2 * S k)%nat with (S (S (2 * k))) by lia. replace (S (S (2 * k)) + 1)%nat with (S (S (2 * k + 1))) by lia. cbn in Hl. cbn [lookup list_lookup].
  apply IH; lia.
Qed.

Lemma filter_lengths {A} (p : A -> bool) l : (length (List.filter p l) + length (List.filter (fun a => negb (p a)) l) = length l)%nat.
Proof. induction l as [|a l IH]; [done|]. cbn. destruct (p a); cbn; lia. Qed.

Lemma Forall_filter {A} (p : A -> bool) l : Forall (fun a => p a = true) (List.filter p l).
Proof. apply Forall_forall. intros a Ha. by apply list_elem_of_In, filter_In in Ha as [_ ?]. Qed.

(** The addresses are tried family by family in turn, the first family first, and each
    family in its own order; none is left out and none added. *)
Theorem interleaved_by_turns addresses first :
  head addresses = Some first ->
  let same a := Bool.eqb (is_ipv4 a) (is_ipv4 first) in
  let lead := List.filter same addresses in
  let other := List.filter (fun a => negb (same a)) addresses in
  Permutation (interleaved addresses) addresses /\
  List.filter same (interleaved addresses) = lead /\ List.filter (fun a => negb (same a)) (interleaved addresses) = other /\
  forall k, (k < length lead)%nat -> (k < length other)%nat ->
    interleaved addresses !! (2 * k)%nat = lead !! k /\ interleaved addresses !! (2 * k + 1)%nat = other !! k.
Proof.
  intros Hf same lead other. destruct addresses as [|a addresses]; [done|]. injection Hf as ->.
  change (interleaved (first :: addresses)) with (take_turns (length (first :: addresses)) lead other).
  pose proof (filter_lengths same (first :: addresses)) as Hlen. fold lead other in Hlen.
  destruct (take_turns_keeps same (length (first :: addresses)) lead other) as [H1 H2].
  - lia.
  - apply Forall_filter.
  - apply Forall_forall. intros b Hb. apply list_elem_of_In, filter_In in Hb as [_ Hb]. by apply negb_true_iff.
  - split; [|split; [done|split; [done|]]].
    + assert (forall l : list SocketAddr, Permutation l (List.filter same l ++ List.filter (fun a => negb (same a)) l)) as Hperm.
      { induction l as [|b l IH]; [done|]. cbn [List.filter]. destruct (same b); cbn [negb app]; [by constructor|].
        etransitivity; [by constructor|]. apply Permutation_middle. }
      rewrite (Hperm (take_turns _ lead other)), H1, H2. symmetry. apply Hperm.
    + intros k Hk1 Hk2. apply take_turns_at; [lia|done|done].
Qed.

(** ** The race *)

Section race.
Context {Stream Error_ : Type}.
Variable addresses : list SocketAddr.

(** The attempts are numbered by their address; those below [next] were started. *)
Record Race := mkRace { next : nat; attempts : list nat; last_error : option Error_ }.
Definition race_start : Race := mkRace 0 [] None.

(** An attempt finished, or the delay ran out. *)
Inductive Event := Finished (i : nat) (outcome : Stream + Error_) | Delay.
(** What the race returns: the winner, or the error of the last to fail; none stands
    for the error that there was no address. *)
Inductive Outcome := Won (i : nat) (stream : Stream) | Lost (error : option Error_).

(** [attempts.extend(waiting.next().map(&connect))] *)
Definition start_next (r : Race) : Race :=
  match addresses !! next r with
  | Some _ => mkRace (S (next r)) (attempts r ++ [next r]) (last_error r)
  | None => r
  end.

(** The head of the loop, and the arm that is taken. *)
Definition race_top (r : Race) : Race + Outcome :=
  match attempts r with
  | [] => match addresses !! next r with Some _ => inl (start_next r) | None => inr (Lost (last_error r)) end
  | _ => inl r
  end.
Definition race_step (r : Race) (e : Event) : Race + Outcome :=
  match e with
  | Finished i (inl stream) => inr (Won i stream)
  | Finished i (inr error) =>
      inl (start_next (mkRace (next r) (List.filter (fun j => negb (Nat.eqb j i)) (attempts r)) (Some error)))
  | Delay => inl (start_next r)
  end.

Fixpoint race (r : Race) (events : list Event) : option Outcome :=
  match race_top r with
  | inr o => Some o
  | inl r =>
      match events with
      | [] => None
      | e :: events => match race_step r e with inr o => Some o | inl r => race r events end
      end
  end.

(** Only attempts under way finish. *)
Fixpoint race_events (r : Race) (events : list Event) : Prop :=
  match race_top r with
  | inr _ => events = []
  | inl r =>
      match events with
      | [] => True
      | e :: events =>
          match e with Finished i _ => i ∈ attempts r | Delay => True end /\
          match race_step r e with inr _ => events = [] | inl r => race_events r events end
      end
  end.

Definition failures (events : list Event) : list nat :=
  omap (fun e => match e with Finished i (inr _) => Some i | _ => None end) events.
Definition last_failure (error : option Error_) (events : list Event) : option Error_ :=
  fold_left (fun error e => match e with Finished _ (inr e) => Some e | _ => error end) events error.

(** Every address started is under way or has failed. *)
Definition race_inv (r : Race) (failed : list nat) : Prop :=
  Permutation (attempts r ++ failed) (seq 0 (next r)) /\ (next r <= length addresses)%nat.

Lemma start_next_inv r failed : race_inv r failed -> race_inv (start_next r) failed.
Proof.
  intros [H1 H2]. unfold start_next. destruct (addresses !! next r) eqn:Ha; [|done]. apply lookup_lt_Some in Ha.
  split; cbn [next attempts]; [|lia]. rewrite seq_S. cbn [Nat.add]. rewrite <- H1, <- app_assoc. cbn [app].
  by rewrite <- Permutation_middle, <- Permutation_cons_append.
Qed.

Lemma race_top_inv r failed : race_inv r failed ->
  match race_top r with
  | inl r' => race_inv r' failed /\ attempts r' <> [] /\ last_error r' = last_error r
  | inr o => o = Lost (last_error r) /\ Permutation failed (seq 0 (length addresses))
  end.
Proof.
  intros Hi. unfold race_top. destruct (attempts r) as [|i l] eqn:Hat; [|rewrite Hat; done].
  destruct (addresses !! next r) eqn:Ha.
  - split; [by apply start_next_inv|]. unfold start_next. rewrite Ha, Hat. done.
  - split; [done|]. destruct Hi as [H1 H2]. rewrite Hat in H1. cbn [app] in H1. apply lookup_ge_None in Ha.
    by replace (length addresses) with (next r) by lia.
Qed.

Lemma race_fail_inv r failed i e : race_inv r failed -> i ∈ attempts r ->
  race_inv (mkRace (next r) (List.filter (fun j => negb (Nat.eqb j i)) (attempts r)) (Some e)) (i :: failed).
Proof.
  intros [H1 H2] Hi. split; [|done]. cbn [next attempts]. rewrite <- H1.
  assert (NoDup (attempts r)) as Hnd.
  { assert (NoDup (attempts r ++ failed)) as H by (rewrite H1; apply NoDup_ListNoDup, seq_NoDup). by apply NoDup_app in H as [? _]. }
  clear H1. rewrite <- Permutation_middle. induction Hnd as [|j l Hj Hnd IH]; [by apply elem_of_nil in Hi|].
  cbn [List.filter]. destruct (Nat.eqb_spec j i) as [->|Hne]; cbn [negb].
  - rewrite (List.forallb_filter_id _ l); [done|]. apply List.forallb_forall. intros k Hk. apply negb_true_iff, Nat.eqb_neq.
    intros ->. apply Hj. by apply list_elem_of_In.
  - apply elem_of_cons in Hi as [->|Hi]; [done|]. cbn [app]. rewrite Permutation_swap. by rewrite IH.
Qed.

Lemma race_ok events : forall r failed,
  race_inv r failed -> race_events r events ->
  match race r events with
  | Some (Won i stream) => Finished i (inl stream) ∈ events /\ (i < length addresses)%nat
  | Some (Lost error) =>
      Permutation (failed ++ failures events) (seq 0 (length addresses)) /\ error = last_failure (last_error r) events
  | None => (length failed + length (failures events) < length addresses)%nat
  end.
Proof.
  induction events as [|e events IH]; intros r failed Hi Hv; pose proof (race_top_inv r failed Hi) as Ht; cbn [race race_events] in *;
    destruct (race_top r) as [r1|o].
  - destruct Ht as ([H1 H2] & Hne & _). cbn. pose proof (Permutation_length H1) as Hl. rewrite length_app, length_seq in Hl.
    destruct (attempts r1); [done|]. cbn in Hl. lia.
  - destruct Ht as [-> Hp]. cbn. by rewrite app_nil_r.
  - destruct Ht as (Hi1 & _ & Hle), Hv as [Hv1 Hv2]. destruct e as [i [stream|error]|]; cbn [race_step] in *.
    + subst events. split; [left|]. destruct Hi1 as [H1 H2]. assert (i ∈ seq 0 (next r1)) as Hin by (rewrite <- H1; set_solver).
      apply elem_of_seq in Hin. lia.
    + specialize (IH _ (i :: failed) (start_next_inv _ _ (race_fail_inv _ _ _ error Hi1 Hv1)) Hv2).
      destruct (race _ events) as [[j st|oe]|].
      * destruct IH. split; [by right|done].
      * destruct IH as [IH1 IH2]. split; [rewrite <- IH1; cbn; by rewrite <- Permutation_middle|].
        rewrite IH2. cbn. f_equal. unfold start_next. by destruct (_ !! _).
      * change (failures (Finished i (inr error) :: events)) with (i :: failures events). cbn [length] in *. lia.
    + specialize (IH _ failed (start_next_inv _ _ Hi1) Hv2). destruct (race _ events) as [[j st|oe]|]; cbn in *.
      * destruct IH. split; [by right|done].
      * destruct IH as [IH1 IH2]. split; [done|]. rewrite IH2, <- Hle. f_equal. unfold start_next. by destruct (_ !! _).
      * done.
  - subst. by destruct Ht.
Qed.

(** The race returns the stream of an attempt that connected, or, once every address has
    failed and not before, the error of the last to fail; and it has returned when every
    address has failed. *)
Theorem race_tries_every_address events :
  race_events race_start events ->
  match race race_start events with
  | Some (Won i stream) => Finished i (inl stream) ∈ events /\ (i < length addresses)%nat
  | Some (Lost error) => Permutation (failures events) (seq 0 (length addresses)) /\ error = last_failure None events
  | None => (length (failures events) < length addresses)%nat
  end.
Proof. intros Hv. apply (race_ok events race_start [] ltac:(by split; cbn; [|lia]) Hv). Qed.

(** While attempts are under way, an attempt that fails or the delay starts the next
    address. *)
Lemma race_goes_on r e r' : addresses !! next r <> None -> race_step r e = inl r' -> next r' = S (next r) /\ next r ∈ attempts r'.
Proof.
  intros Hn. assert (forall q, next q = next r -> next (start_next q) = S (next r) /\ next r ∈ attempts (start_next q)) as Hs.
  { intros q Hq. unfold start_next. rewrite Hq. destruct (addresses !! next r); [|done]. cbn. split; [done|]. set_solver. }
  destruct e as [i [stream|error]|]; cbn; intros [= <-]; by apply Hs.
Qed.

End race.

End Egress.

Module SysProfile.

Inductive Tier := Low | Medium | High.

Record Tuning := mkTuning {
  tier : Tier;
  cpus : Z;
  mem_mb : option Z;
  scan_concurrency_cap : Z;
  udp_socket_rcv_buf : Z;
  udp_socket_snd_buf : Z;
  netstack_tcp_tx_buf : Z;
  netstack_tcp_rx_buf : Z;
  netstack_udp_buf : Z;
  channel_capacity : Z;
  h2_stream_window : Z;
  h2_connection_window : Z;
}.

Section profile.
Context `{UnicodeCase}.

(** [detect_tier]; [profile] is the variable that overrides it. *)
Definition detect_tier (profile : option bytes) (cpus : Z) (mem_mb : option Z) : Tier :=
  let named := match profile with
               | Some v =>
                   let v := to_lowercase (trim v) in
                   if bool_decide (v = lit "low") then Some Low
                   else if bool_decide (v = lit "medium") || bool_decide (v = lit "mid") then Some Medium
                   else if bool_decide (v = lit "high") then Some High
                   else None
               | None => None
               end in
  match named with
  | Some tier => tier
  | None =>
      let mem_low := match mem_mb with Some m => m <=? 384 | None => false end in
      let mem_medium := match mem_mb with Some m => m <=? 1536 | None => false end in
      if (cpus <=? 2) || mem_low then Low else if (cpus <=? 4) || mem_medium then Medium else High
  end.

(** [s.trim_end_matches(p)] for a string that is not empty. *)
Fixpoint trim_end_str (fuel : nat) (p s : bytes) : bytes :=
  match fuel with
  | O => s
  | S fuel => match strip_suffix p s with Some t => trim_end_str fuel p t | None => s end
  end.

(** [total_mem_mb] on Linux, over the contents of /proc/meminfo. *)
Fixpoint mem_total (ls : list bytes) : option Z :=
  match ls with
  | [] => None
  | line :: ls =>
      match strip_prefix (lit "MemTotal:") line with
      | Some rest => kb ← parse_u64 (trim (trim_end_str (length rest) (lit "kB") (trim rest))); Some (kb / 1024)
      | None => mem_total ls
      end
  end.

(** [buffer_override]; the variable may be unset. *)
Definition buffer_override (value : option bytes) (fallback : Z) : Z :=
  match value ≫= (fun v => parse_uint USIZE_MAX (trim v)) with
  | Some n => if (16 * 1024 <=? n) && (n <=? 64 * 1024 * 1024) then n else fallback
  | None => fallback
  end.

Definition build_tuning (profile tcp_rx tcp_tx : option bytes) (cpus : Z) (mem_mb : option Z) : Tuning :=
  let tier := detect_tier profile cpus mem_mb in
  let '(cap, rcv, snd, tx, rx, udp, channel) :=
    match tier with
    | Low => (4, 256 * 1024, 48 * 1024, 64 * 1024, 64 * 1024, 32 * 1024, 128)
    | Medium => (10, 2 * 1024 * 1024, 96 * 1024, 96 * 1024, 128 * 1024, 64 * 1024, 512)
    | High => (USIZE_MAX, 7 * 1024 * 1024, 128 * 1024, 128 * 1024, 192 * 1024, 128 * 1024, 1024)
    end in
  let rx := buffer_override tcp_rx rx in
  let tx := buffer_override tcp_tx tx in
  let '(stream, connection) :=
    match tier with
    | Low => (2 * 1024 * 1024, 4 * 1024 * 1024)
    | Medium => (8 * 1024 * 1024, 16 * 1024 * 1024)
    | High => (16 * 1024 * 1024, 32 * 1024 * 1024)
    end in
  mkTuning tier cpus mem_mb cap rcv snd tx rx udp channel stream connection.

(** The buffers of a flow stay within what a socket can be given, whatever the
    environment; the send buffer of a datagram socket is never as large as its receive
    buffer, and a stream window never larger than its connection's. *)
Lemma build_tuning_bounds profile tcp_rx tcp_tx cpus mem_mb :
  let t := build_tuning profile tcp_rx tcp_tx cpus mem_mb in
  16 * 1024 <= netstack_tcp_tx_buf t <= 64 * 1024 * 1024 /\ 16 * 1024 <= netstack_tcp_rx_buf t <= 64 * 1024 * 1024 /\
  udp_socket_snd_buf t < udp_socket_rcv_buf t /\ h2_stream_window t <= h2_connection_window t /\ 1 <= scan_concurrency_cap t.
Proof.
  assert (forall value fallback, 16 * 1024 <= fallback <= 64 * 1024 * 1024 -> 16 * 1024 <= buffer_override value fallback <= 64 * 1024 * 1024) as Hb.
  { intros value fallback Hf. unfold buffer_override. destruct (value ≫= _) as [n|]; [|done]. zcase; [lia|done]. }
  unfold build_tuning. destruct (detect_tier profile cpus mem_mb);
    cbn [netstack_tcp_tx_buf netstack_tcp_rx_buf udp_socket_snd_buf udp_socket_rcv_buf h2_stream_window h2_connection_window scan_concurrency_cap];
    (split; [apply Hb; lia|]); (split; [apply Hb; lia|]); unfold USIZE_MAX, U64_MAX; lia.
Qed.

End profile.
End SysProfile.

(** ** Witnesses *)

Module EgressWitnesses.
Import Egress.

Definition v4_addr (n : Z) : SocketAddr := mkSocketAddr (V4 n) 443.
Definition v6_addr (n : Z) : SocketAddr := mkSocketAddr (V6 n) 443.

Lemma interleaved_by_turns_witness :
  Permutation (interleaved [v6_addr 1; v6_addr 2; v4_addr 3; v6_addr 4]) [v6_addr 1; v6_addr 2; v4_addr 3; v6_addr 4] /\
  interleaved [v6_addr 1; v6_addr 2; v4_addr 3; v6_addr 4] !! 1%nat = Some (v4_addr 3).
Proof.
  destruct (interleaved_by_turns [v6_addr 1; v6_addr 2; v4_addr 3; v6_addr 4] (v6_addr 1) eq_refl) as (H1 & _ & _ & H2).
  split; [exact H1|]. apply (H2 0%nat); vm_compute; lia.
Defined.

(** The first address answers nothing, the second fails, the third connects. *)
Definition example_events : list (@Event bytes bytes) := [Delay; Finished 1 (inr (lit "refused")); Finished 2 (inl (lit "stream"))].

Lemma race_tries_every_address_witness :
  Finished 2 (inl (lit "stream")) ∈ example_events /\ (2 < length [v6_addr 1; v4_addr 2; v4_addr 3])%nat.
Proof.
  exact (race_tries_every_address [v6_addr 1; v4_addr 2; v4_addr 3] example_events
           ltac:(vm_compute; repeat split; try reflexivity; (right; left) || (right; right; left) || (right; left))).
Defined.

End EgressWitnesses.
