(* ===== verification/Account.v ===== *)
(** * The account of the device ([account.rs])

    The calls to the WARP API: the ways a call can go ([api_routes_of]), and the attempts
    of a call as a state machine over what the server or the network answers
    ([api_call_by]); what an account answer makes of the identity ([finish_provision],
    [refresh_profile]); the life of the MASQUE certificate.  The answer to each request,
    the random generator and the clock are arguments; serde_json and base64 are other
    crates. *)

From stdpp Require Import gmap.
From S2P Require Import Prelude Str Ip Text Error Dns Config.
Local Open Scope Z_scope.

Module Account.
Import Error Config.

Definition API_HOST : bytes := lit "api.devices.cloudflare.com".
Definition API_FALLBACK_HOST : bytes := lit "api.cloudflareclient.com".
Definition API_FRONT_ADDRESSES : list bytes := [lit "104.24.4.6"; lit "104.18.0.6"].
Definition API_ATTEMPTS : nat := 5.
Definition API_BACKOFF_BASE_MS : Z := 900.
Definition API_BACKOFF_CAP_MS : Z := 15000.
Definition API_RETRY_AFTER_CAP_SECS : Z := 30.

(** [backoff_delay], in milliseconds; [random] is the [u32] drawn. *)
Definition backoff_delay (random attempt : Z) : Z :=
  let exponential := Z.min (API_BACKOFF_BASE_MS * Z.shiftl 1 (Z.min attempt 5)) U64_MAX in
  let capped := Z.min exponential API_BACKOFF_CAP_MS in
  capped / 2 + random mod (capped / 3 + 1).

(** [retry_after], in seconds; the header as text, if it is there. *)
Definition retry_after (header : option bytes) : option Z :=
  raw ← header; seconds ← parse_u64 (trim raw); Some (Z.min seconds API_RETRY_AFTER_CAP_SECS).

Definition refuses_identity (status : Z) : bool := (status =? 401) || (status =? 404) || (status =? 410).
Definition is_success (status : Z) : bool := (200 <=? status) && (status <=? 299).
Definition worth_retrying (status : Z) : bool :=
  (status =? 429) || (status =? 408) || ((500 <=? status) && (status <=? 599)).
(** [StatusCode::from_u16] *)
Definition status_valid (status : Z) : bool := (100 <=? status) && (status <=? 999).

Definition next_way (way : nat) (turned_away : list bool) : nat :=
  let n := length turned_away in
  default way (List.find (fun next => negb (default true (turned_away !! next))) (map (fun step => Nat.modulo (way + step) n) (seq 1 n))).

Definition retry_after_wait (attempt : nat) (asked : option Z) : option Z :=
  if Nat.ltb (attempt + 1) API_ATTEMPTS then asked else None.

(** ** Settings *)

Definition api_address (value : bytes) : res AetherError (option (bytes * Z)) :=
  let value := trim value in
  if bool_decide (value = []) then Ok None
  else match Dns.host_and_port value 443 with
       | Some a => Ok (Some a)
       | None => Err (Api (lit "--api-address: " ++ value ++ lit " is no IP address or domain name, with or without a port"))
       end.

Definition api_name_of (flag value : bytes) : res AetherError (option bytes) :=
  let value := trim value in
  if bool_decide (value = []) then Ok None
  else
    let name := match strip_suffix [46] value with Some n => n | None => value end in
    if ends_with [46] name || bool_decide (is_Some (parse_ip name)) || negb (Dns.valid_domain name)
    then Err (Api (flag ++ lit ": " ++ value ++ lit " is no domain name"))
    else Ok (Some name).

(** [check_api_settings]; the three variables. *)
Definition check_api_settings (address sni host : bytes) : res AetherError unit :=
  api_address address ;; api_name_of (lit "--api-sni") sni ;; api_name_of (lit "--api-host") host ;; Ok tt.

(** ** Routes *)

Record ApiRoute := mkRoute { host : bytes; sni : bytes; address : bytes; port : Z; front : bool }.
#[export] Instance route_eq_dec : EqDecision ApiRoute.
Proof. solve_decision. Defined.

Definition api_routes_of (host sni : option bytes) (address : option (bytes * Z)) (answered : option bytes) : list ApiRoute :=
  let route host sni :=
    let '(a, p) := match address with Some a => a | None => (sni, 443) end in mkRoute host sni a p false in
  if bool_decide (is_Some host) || bool_decide (is_Some sni) then
    let host := default API_HOST host in
    let sni := default host sni in
    [route host sni]
  else
    let names := if bool_decide (answered = Some API_FALLBACK_HOST) then [API_FALLBACK_HOST; API_HOST] else [API_HOST; API_FALLBACK_HOST] in
    let routes := map (fun name => route name name) names in
    let name := match names with name :: _ => name | [] => [] end in
    if bool_decide (address = None)
    then routes ++ map (fun edge => mkRoute name name edge 443 true) API_FRONT_ADDRESSES
    else routes.

(** [slice.rotate_left(at)] *)
Definition rotate_left {A} (at_ : nat) (l : list A) : list A := drop at_ l ++ take at_ l.

Fixpoint position {A} (p : A -> bool) (l : list A) : option nat :=
  match l with
  | [] => None
  | x :: l => if p x then Some O else S <$> position p l
  end.

(** [api_routes]: the variables, and what this run remembers. *)
Definition api_routes (host sni address : bytes) (answered_host answered_edge : option bytes) : res AetherError (list ApiRoute) :=
  h ← api_name_of (lit "--api-host") host;
  s ← api_name_of (lit "--api-sni") sni;
  a ← api_address address;
  let routes := api_routes_of h s a answered_host in
  Ok match answered_edge with
     | Some edge =>
         match position (fun r => front r && bool_decide (Account.address r = edge)) routes with
         | Some at_ => rotate_left at_ routes
         | None => routes
         end
     | None => routes
     end.

(** ** Account data *)

Record AccountData := mkAccountData {
  id : bytes;
  token : bytes;
  addresses_v4 : bytes;
  addresses_v6 : bytes;
  peers : list (bytes * bytes);
  config_client_id : bytes;
  http_proxy : bytes;
  account_organization : bytes;
}.

(** What the code reads with serde_json: an account, the API's own envelope, and the
    messages and codes of its errors. *)
Class SerdeJson := {
  account_from_str : bytes -> res bytes AccountData;
  is_api_envelope : bytes -> bool;
  api_errors : bytes -> option (list (option bytes * option Z));
  account_no_panic body : account_from_str body <> Panic;
}.

(** How reqwest writes a status: its number and, when it has one, its reason. *)
Class StatusText := status_display : Z -> bytes.

Section calls.
Context `{json : SerdeJson} `{shown : StatusText}.

(** [i64]'s [Display]. *)
Definition dec_signed (z : Z) : bytes := if z <? 0 then 45 :: dec (- z) else dec z.

Fixpoint join_semi (parts : list bytes) : bytes :=
  match parts with
  | [] => []
  | [p] => p
  | p :: parts => p ++ lit "; " ++ join_semi parts
  end.

Definition extract_api_error (body : bytes) : option bytes :=
  errors ← api_errors body;
  let parts := map (fun '(message, code) =>
    let message := default (lit "unknown") message in
    match code with Some code => message ++ lit " (code " ++ dec_signed code ++ lit ")" | None => message end) errors in
  if bool_decide (parts = []) then None else Some (join_semi parts).

(** The characters of a string: a byte that does not continue one starts one. *)
Fixpoint take_chars (n : nat) (s : bytes) : bytes :=
  match s with
  | [] => []
  | b :: s => if cont b then b :: take_chars n s
              else match n with O => [] | S n => b :: take_chars n s end
  end.
Definition count_chars (s : bytes) : Z := blen (List.filter (fun b => negb (cont b)) s).

Definition describe_rejection (status : Z) (body : bytes) (names_differ : bool) : bytes :=
  let detail :=
    match extract_api_error body with
    | Some d => d
    | None =>
        let trimmed := trim body in
        if bool_decide (trimmed = []) then lit "no details returned"
        else if 220 <? count_chars trimmed then take_chars 220 trimmed ++ [226; 128; 166]
        else trimmed
    end in
  let hint :=
    if status =? 403 then
      if names_differ
      then lit " (cloudflare refuses a call whose server name, --api-sni, and host, --api-host, differ; give them the same name)"
      else lit " (cloudflare refused this network; the address looks flagged, try again later, switch network, or import an existing identity)"
    else if status =? 429 then lit " (too many registrations from this address; wait a few minutes before trying again)"
    else [] in
  lit "status " ++ status_display status ++ lit ": " ++ detail ++ hint.

(** ** A call *)

Record Response := mkResponse { status : Z; retry_after_header : option bytes; body : bytes }.

Inductive Act :=
| Backoff (ms : Z)
| Asked (way : nat)
| TurnedAway (way : nat)
| WaitedSecs (secs : Z).

(** The state across attempts, with what the run remembers: the name and the edge that
    answered. *)
Record Call := mkCall {
  way : nat;
  turned_away : list bool;
  last_error : AetherError;
  answered_host : option bytes;
  answered_edge : option bytes;
}.

Variable routes : list ApiRoute.
Variable label : bytes.
(** What an attempt by a route gets: an answer, or the error of the connection. *)
Variable send : nat -> ApiRoute -> res AetherError Response.
Variable random : nat -> Z.

Definition all_turned (t : list bool) : bool := forallb (fun b => b) t.

(** An attempt, once its request was sent: the state, what was done, and the result of
    the call if it ends. *)
Definition after_answer (attempt : nat) (route : ApiRoute) (c : Call) (sent : res AetherError Response)
  : Call * list Act * option (res AetherError AccountData) :=
  let n := length routes in
  match sent with
  | Panic => (c, [], Some Panic)
  | Err error =>
      (mkCall (next_way (way c) (turned_away c)) (turned_away c) (Api (label ++ lit ": " ++ to_string error)) (answered_host c) (answered_edge c), [], None)
  | Ok response =>
      let st := status response in
      if negb (status_valid st) then
        let error := Api (label ++ lit ": status " ++ dec st) in
        if Nat.ltb 1 n then
          let turned := <[way c := true]> (turned_away c) in
          if all_turned turned then (mkCall (way c) turned error (answered_host c) (answered_edge c), [TurnedAway (way c)], Some (Err error))
          else (mkCall (next_way (way c) turned) turned error (answered_host c) (answered_edge c), [TurnedAway (way c)], None)
        else (mkCall (way c) (turned_away c) error (answered_host c) (answered_edge c), [], Some (Err error))
      else
        let cooldown := retry_after (retry_after_header response) in
        let text := from_utf8_lossy (body response) in
        let from_api := is_success st || is_api_envelope text in
        let '(a_host, a_edge) :=
          if Nat.ltb 1 n && from_api then (Some (host route), if front route then Some (address route) else None)
          else (answered_host c, answered_edge c) in
        if is_success st then
          (mkCall (way c) (turned_away c) (last_error c) a_host a_edge, [],
           Some (map_err (fun e => Api (label ++ lit " decode: " ++ e ++ lit " (" ++ dec (blen text) ++ lit " byte answer)")) (account_from_str text)))
        else
          let described := label ++ lit ": " ++ describe_rejection st text (negb (bool_decide (sni route = host route))) in
          let error := if refuses_identity st && (from_api || Nat.eqb n 1 || negb (st =? 404)) then IdentityRefused described else Api described in
          let waits := match retry_after_wait attempt cooldown with Some w => [WaitedSecs w] | None => [] end in
          if Nat.ltb 1 n && negb from_api then
            if worth_retrying st then
              (mkCall (next_way (way c) (turned_away c)) (turned_away c) error a_host a_edge, waits, None)
            else
              let turned := <[way c := true]> (turned_away c) in
              if all_turned turned then (mkCall (way c) turned error a_host a_edge, [TurnedAway (way c)], Some (Err error))
              else (mkCall (next_way (way c) turned) turned error a_host a_edge, [TurnedAway (way c)], None)
          else if negb (worth_retrying st) then (mkCall (way c) (turned_away c) error a_host a_edge, [], Some (Err error))
          else (mkCall (way c) (turned_away c) error a_host a_edge, waits, None)
  end.

(** The loop from [attempt] on, with [fuel] attempts left. *)
Fixpoint attempts_from (fuel attempt : nat) (c : Call) : Call * list Act * res AetherError AccountData :=
  match fuel with
  | O => (c, [], Err (last_error c))
  | S fuel =>
      match routes !! way c with
      | None => (c, [], Panic)
      | Some route =>
          let pause := match attempt with O => [] | S k => [Backoff (backoff_delay (random attempt) (Z.of_nat k))] end in
          let asked := pause ++ [Asked (way c)] in
          match after_answer attempt route c (send attempt route) with
          | (c, acts, Some r) => (c, asked ++ acts, r)
          | (c, acts, None) =>
              let '(c, acts', r) := attempts_from fuel (S attempt) c in (c, asked ++ acts ++ acts', r)
          end
      end
  end.

(** [api_call_by]; [marked] says that sockets carry a mark and no upstream proxy is
    configured, [ech] is what the lookup of the ECH key answers. *)
Definition api_call_by (marked : bool) (ech : res AetherError unit) (a_host a_edge : option bytes)
  : Call * list Act * res AetherError AccountData :=
  let start := mkCall 0 (replicate (length routes) false) (Api (label ++ lit ": no attempt was made")) a_host a_edge in
  match (if marked then List.find (fun r => negb (bool_decide (is_Some (parse_ip (address r))))) routes else None) with
  | Some route =>
      (start, [], Err (Api (label ++ lit ": " ++ address route ++
        lit " would be looked up outside the socket mark, so the call would loop back into the tunnel; give --api-address an IP address")))
  | None =>
      match routes with
      | [] => (start, [], Err (Api (label ++ lit ": no way to the API")))
      | _ =>
          match ech with
          | Err e => (start, [], Err e)
          | Panic => (start, [], Panic)
          | Ok _ => attempts_from API_ATTEMPTS 0 start
          end
      end
  end.

(** ** The ways of a call *)

Lemma next_way_ok w t : (w < length t)%nat ->
  let w' := next_way w t in
  (w' < length t)%nat /\ (all_turned t = false -> t !! w' = Some false).
Proof.
  intros Hw. unfold next_way. set (n := length t).
  destruct (List.find _ (map _ (seq 1 n))) as [v|] eqn:Hf; cbn [default from_option].
  - apply List.find_some in Hf as [Hin Hv]. apply in_map_iff in Hin as (step & <- & _).
    assert ((w + step) mod n < n)%nat as Hlt by (apply Nat.mod_upper_bound; unfold n; lia). split; [done|]. intros _.
    destruct (t !! ((w + step) mod n)%nat) as [b|] eqn:Hb; cbn in Hv; [by destruct b|done].
  - split; [done|]. intros Hall. exfalso.
    assert (exists v, (v < n)%nat /\ t !! v = Some false) as (v & Hv & Htv).
    { clear -Hall. unfold n. clear n. induction t as [|b t IH]; [done|]. cbn in Hall. destruct b; cbn in *.
      - destruct (IH Hall) as (v & Hv & Ht). exists (S v). cbn. split; [lia|done].
      - exists 0%nat. split; [lia|done]. }
    assert (In v (map (fun step => (w + step) mod n)%nat (seq 1 n))) as Hin.
    { apply in_map_iff. destruct (decide (v <= w)%nat).
      - exists (n + v - w)%nat. split; [|apply in_seq; unfold n in *; lia]. replace (w + (n + v - w))%nat with (v + 1 * n)%nat by (unfold n in *; lia).
        rewrite Nat.Div0.mod_add. by apply Nat.mod_small.
      - exists (v - w)%nat. split; [|apply in_seq; unfold n in *; lia]. replace (w + (v - w))%nat with v by lia. by apply Nat.mod_small. }
    eapply List.find_none in Hf; [|exact Hin]. cbn in Hf. by rewrite Htv in Hf.
Qed.

Lemma next_way_open w t : (w < length t)%nat -> Forall (fun b => b = false) t -> next_way w t = ((w + 1) mod length t)%nat.
Proof.
  intros Hw Hall. unfold next_way. destruct (length t) as [|n] eqn:Hn; [lia|]. cbn [seq map List.find].
  assert (t !! ((w + 1) mod S n)%nat = Some false) as ->; [|done].
  destruct (lookup_lt_is_Some_2 t ((w + 1) mod S n)%nat) as [b Hb]; [rewrite Hn; apply Nat.mod_upper_bound; lia|].
  rewrite Hb. f_equal. eapply Forall_lookup_1 in Hall; [|exact Hb]. done.
Qed.

Lemma all_turned_insert t w : all_turned t = false -> (w < length t)%nat -> length (<[w := true]> t) = length t.
Proof. intros _ _. apply length_insert. Qed.

(** The ways that turned the call away are marked, and the way of the call is open. *)
Definition call_inv (c : Call) (past : list Act) : Prop :=
  length (turned_away c) = length routes /\ (way c < length routes)%nat /\ turned_away c !! way c = Some false /\
  forall w, TurnedAway w ∈ past -> turned_away c !! w = Some true.

(** Every request goes to a way that has not turned the call away before. *)
Definition open_ways (acts : list Act) : Prop :=
  forall before w after, acts = before ++ Asked w :: after -> TurnedAway w ∉ before /\ (w < length routes)%nat.

Lemma not_all_turned t w : t !! w = Some false -> all_turned t = false.
Proof.
  intros H. unfold all_turned. apply not_true_is_false. intros Ha. rewrite List.forallb_forall in Ha.
  apply list_elem_of_lookup_2, list_elem_of_In in H. by apply Ha in H.
Qed.

Lemma next_way_inv c past : call_inv c past ->
  let w := next_way (way c) (turned_away c) in (w < length routes)%nat /\ turned_away c !! w = Some false.
Proof.
  intros (H1 & H2 & H3 & _). destruct (next_way_ok (way c) (turned_away c)) as [H4 H5]; [lia|].
  split; [lia|]. apply H5. by eapply not_all_turned.
Qed.

Lemma turn_away_inv c past : call_inv c past -> let turned := <[way c := true]> (turned_away c) in
  all_turned turned = false ->
  length turned = length routes /\ (next_way (way c) turned < length routes)%nat /\ turned !! next_way (way c) turned = Some false /\
  forall w, TurnedAway w ∈ past ++ [TurnedAway (way c)] -> turned !! w = Some true.
Proof.
  intros (H1 & H2 & H3 & H4) turned Ha. assert (length turned = length routes) as Hl by (unfold turned; by rewrite length_insert).
  destruct (next_way_ok (way c) turned) as [H5 H6]; [lia|]. split; [done|]. split; [lia|]. split; [by apply H6|].
  intros w [Hw|Hw%list_elem_of_singleton]%elem_of_app.
  - unfold turned. destruct (decide (w = way c)) as [->|Hne]; [apply list_lookup_insert_eq; lia|].
    rewrite list_lookup_insert_ne by done. by apply H4.
  - injection Hw as ->. apply list_lookup_insert_eq. lia.
Qed.

(** An attempt keeps the invariant and asks nothing; it fails the call with a panic only
    if the connection does, or the reading of an account. *)
Lemma after_answer_ok attempt route c sent past : call_inv c past -> sent <> Panic ->
  let '(c', acts, r) := after_answer attempt route c sent in
  (forall w, Asked w ∉ acts) /\ (r = None -> call_inv c' (past ++ acts)) /\ r <> Some Panic.
Proof.
  intros Hi Hs. assert (forall ws, (forall w, Asked w ∉ @app Act (match ws with Some s => [WaitedSecs s] | None => [] end) [])) as Hw.
  { intros [s|] w; rewrite app_nil_r; [intros ?%list_elem_of_singleton|intros ?%elem_of_nil]; done. }
  assert (forall w v, Asked w ∉ [TurnedAway v]) as Ht by by intros w v ?%list_elem_of_singleton.
  assert (forall w, Asked w ∉ []) as Hn by by intros w ?%elem_of_nil.
  assert (forall ws w v, TurnedAway w ∈ past ++ (match ws with Some s => [WaitedSecs s] | None => [] end) -> v = TurnedAway w -> TurnedAway w ∈ past) as Hp.
  { intros [s|] w v [?|H]%elem_of_app _; try done; [by apply list_elem_of_singleton in H|by apply elem_of_nil in H]. }
  pose proof (next_way_inv c past Hi) as [N1 N2]. pose proof (turn_away_inv c past Hi) as T. pose proof Hi as (I1 & I2 & I3 & I4).
  destruct sent as [resp|e|]; [|split; [done|split; [|done]]; intros _; rewrite app_nil_r; by repeat split|done].
  unfold after_answer. destruct (status_valid (status resp)); cbn [negb].
  2: { destruct (Nat.ltb 1 (length routes)); [|by split]. destruct (all_turned _) eqn:Ha; [by split|].
       split; [done|]. split; [|done]. intros _. by apply T. }
  set (text := from_utf8_lossy (body resp)). destruct (if Nat.ltb 1 _ && _ then _ else _) as [h e].
  destruct (is_success (status resp)).
  { split; [done|]. split; [done|]. destruct (account_from_str text) eqn:Hacc; cbn; try done. by apply account_no_panic in Hacc. }
  set (waits := match retry_after_wait _ _ with Some w => [WaitedSecs w] | None => [] end).
  assert (forall w, Asked w ∉ waits) as Hwaits.
  { intros w. subst waits. specialize (Hw (retry_after_wait attempt (retry_after (retry_after_header resp))) w). by rewrite app_nil_r in Hw. }
  assert (forall w, TurnedAway w ∈ past ++ waits -> TurnedAway w ∈ past) as Hpw by (intros w H; by eapply (Hp _ w)).
  destruct (Nat.ltb 1 (length routes) && negb _).
  - destruct (worth_retrying (status resp)).
    + split; [done|]. split; [|done]. intros _. repeat split; cbn [turned_away way]; try done. intros w H. by apply I4, Hpw.
    + destruct (all_turned _) eqn:Ha; [by split|]. split; [done|]. split; [|done]. intros _. by apply T.
  - destruct (worth_retrying (status resp)); cbn [negb].
    + split; [done|]. split; [|done]. intros _. repeat split; cbn [turned_away way]; try done. intros w H. by apply I4, Hpw.
    + by split.
Qed.

Lemma open_ways_app past a b :
  (forall before w after, a = before ++ Asked w :: after -> TurnedAway w ∉ past ++ before /\ (w < length routes)%nat) ->
  (forall before w after, b = before ++ Asked w :: after -> TurnedAway w ∉ (past ++ a) ++ before /\ (w < length routes)%nat) ->
  forall before w after, a ++ b = before ++ Asked w :: after -> TurnedAway w ∉ past ++ before /\ (w < length routes)%nat.
Proof.
  intros Ha Hb before w after H. apply app_eq_app in H as (l & [[-> H]|[-> H]]).
  - destruct l as [|x l]; cbn in H.
    + symmetry in H. destruct (Hb [] w after H) as [H1 H2]. by rewrite !app_nil_r in H1.
    + injection H as <- ->. by apply (Ha before w l).
  - destruct (Hb l w after H) as [H1 H2]. split; [|done]. by rewrite <- app_assoc in H1.
Qed.

Definition asked_ways (acts : list Act) : list nat := omap (fun a => match a with Asked w => Some w | _ => None end) acts.

Lemma asked_ways_app a b : asked_ways (a ++ b) = asked_ways a ++ asked_ways b.
Proof. apply omap_app. Qed.

Hypothesis send_no_panic : forall attempt route, send attempt route <> Panic.

Lemma attempts_from_ok fuel : forall attempt c past, call_inv c past ->
  let '(_, acts, r) := attempts_from fuel attempt c in
  (forall before w after, acts = before ++ Asked w :: after -> TurnedAway w ∉ past ++ before /\ (w < length routes)%nat) /\
  (length (asked_ways acts) <= fuel)%nat /\ r <> Panic.
Proof.
  induction fuel as [|fuel IH]; intros attempt c past Hi; cbn [attempts_from].
  { split; [|by split]. intros before w after H. by destruct before. }
  pose proof Hi as (I1 & I2 & I3 & I4). destruct (lookup_lt_is_Some_2 routes (way c) I2) as [route Hr]. rewrite Hr.
  set (pause := match attempt with O => [] | S k => [Backoff (backoff_delay (random attempt) (Z.of_nat k))] end).
  pose proof (after_answer_ok attempt route c (send attempt route) past Hi (send_no_panic _ _)) as Ha.
  destruct (after_answer _ _ _ _) as [[c' acts] r] eqn:Haa. destruct Ha as (A1 & A2 & A3).
  assert (forall before w after, pause ++ [Asked (way c)] = before ++ Asked w :: after -> TurnedAway w ∉ past ++ before /\ (w < length routes)%nat) as Hq.
  { intros before w after H. assert (w = way c /\ before = pause) as [-> ->].
    { subst pause. destruct attempt; cbn in H; destruct before as [|? [|? [|? ?]]]; cbn in H; simplify_eq; done. }
    split; [|done]. intros [Hin|Hin]%elem_of_app; [apply I4 in Hin; congruence|].
    subst pause. destruct attempt; [by apply elem_of_nil in Hin|by apply list_elem_of_singleton in Hin]. }
  assert (length (asked_ways (pause ++ [Asked (way c)])) = 1%nat) as Hlen by (subst pause; by destruct attempt).
  assert (asked_ways acts = []) as Hnone.
  { unfold asked_ways. clear -A1. induction acts as [|x acts IH]; [done|]. destruct x; cbn; try (apply IH; intros w' H; apply (A1 w'); by right).
    destruct (A1 way0). left. }
  assert (forall before w after, acts = before ++ Asked w :: after -> TurnedAway w ∉ (past ++ pause ++ [Asked (way c)]) ++ before /\ (w < length routes)%nat) as Hacts.
  { intros before w after ->. destruct (A1 w). set_solver. }
  destruct r as [r|].
  - split; [by apply open_ways_app|]. split; [rewrite asked_ways_app, length_app, Hlen, Hnone; cbn; lia|]. by intros ->.
  - specialize (IH (S attempt) c' (past ++ (pause ++ [Asked (way c)]) ++ acts)).
    destruct (attempts_from fuel (S attempt) c') as [[c'' acts'] r']. destruct IH as (B1 & B2 & B3).
    { destruct (A2 eq_refl) as (E1 & E2 & E3 & E4). repeat split; try done. intros w Hw. apply E4.
      rewrite !elem_of_app in *. destruct Hw as [?|[[Hw|Hw]|?]]; [by left| |by apply list_elem_of_singleton in Hw|by right].
      subst pause. destruct attempt; [by apply elem_of_nil in Hw|by apply list_elem_of_singleton in Hw]. }
    split; [|split; [|done]].
    + apply open_ways_app; [done|]. apply open_ways_app; [done|]. by rewrite !app_assoc in *.
    + rewrite asked_ways_app, length_app, Hlen, asked_ways_app, Hnone. cbn. lia.
Qed.

Lemma start_inv e h g : routes <> [] -> call_inv (mkCall 0 (replicate (length routes) false) e h g) [].
Proof.
  intros Hr. assert (0 < length routes)%nat by (destruct routes; [done|cbn; lia]).
  repeat split; cbn; rewrite ?length_replicate; try done; [by apply lookup_replicate_2|by intros w ?%elem_of_nil].
Qed.

(** C22.  A call makes five requests at most, each by one of the routes, none by a route that
    has turned the call away, and ends with an answer or an error. *)
Theorem api_call_asks_open_ways marked ech h g :
  ech <> Panic ->
  let '(_, acts, r) := api_call_by marked ech h g in
  (length (asked_ways acts) <= API_ATTEMPTS)%nat /\ r <> Panic /\
  forall before w after, acts = before ++ Asked w :: after -> (w < length routes)%nat /\ TurnedAway w ∉ before.
Proof.
  intros He. unfold api_call_by. destruct (if marked then _ else _) as [route|].
  { split; [cbn; lia|]. split; [done|]. intros before w after H. by destruct before. }
  destruct routes as [|r0 rs] eqn:Hrs. { split; [cbn; lia|]. split; [done|]. intros before w after H. by destruct before. }
  rewrite <- Hrs. destruct ech as [u|e|]; [|split; [cbn; lia|]; split; [done|]; intros before w after H; by destruct before|done].
  assert (routes <> []) as Hne by by rewrite Hrs.
  pose proof (attempts_from_ok API_ATTEMPTS 0 _ [] (start_inv (Api (label ++ lit ": no attempt was made")) h g Hne)) as Ho.
  destruct (attempts_from _ _ _) as [[c acts] r]. destruct Ho as (H1 & H2 & H3). split; [done|]. split; [done|].
  intros before w after H. destruct (H1 before w after H) as [? ?]. by split.
Qed.

(** While no route gets an answer, the attempts take the routes in turn. *)
Lemma silent_attempts fuel : forall attempt c,
  (forall k route, exists e, send k route = Err e) -> length (turned_away c) = length routes -> (way c < length routes)%nat ->
  Forall (fun b => b = false) (turned_away c) ->
  let '(_, acts, r) := attempts_from fuel attempt c in
  asked_ways acts = map (fun k => (way c + k) mod length routes)%nat (seq 0 fuel) /\
  (fuel <> O -> exists e k route, send k route = Err e /\ r = Err (Api (label ++ lit ": " ++ to_string e))).
Proof.
  induction fuel as [|fuel IH]; intros attempt c Hs Hl Hw Ht; cbn [attempts_from]; [done|].
  destruct (lookup_lt_is_Some_2 routes (way c) Hw) as [route ->]. destruct (Hs attempt route) as [e He]. rewrite He. cbn [after_answer].
  rewrite next_way_open by (lia || done). rewrite Hl.
  assert ((way c + 1) mod length routes < length routes)%nat as Hw' by (apply Nat.mod_upper_bound; lia).
  specialize (IH (S attempt) (mkCall ((way c + 1) mod length routes) (turned_away c) (Api (label ++ lit ": " ++ to_string e)) (answered_host c) (answered_edge c)) Hs Hl Hw' Ht).
  destruct (attempts_from fuel _ _) as [[c' acts] r] eqn:Hr. destruct IH as [IH1 IH2]. split.
  - rewrite !asked_ways_app, IH1. cbn [way app seq map]. rewrite Nat.add_0_r, (Nat.mod_small (way c)) by done.
    assert (asked_ways match attempt with O => [] | S k => [Backoff (backoff_delay (random attempt) (Z.of_nat k))] end = []) as -> by by destruct attempt.
    cbn [asked_ways omap app list_omap]. f_equal. rewrite <- seq_shift, map_map. apply map_ext. intros k. cbn [way].
    rewrite Nat.Div0.add_mod_idemp_l. f_equal. lia.
  - intros _. destruct fuel as [|fuel]; [|by apply IH2]. cbn [attempts_from] in Hr. simplify_eq. by exists e, attempt, route.
Qed.

(** What refuses an identity: an answer with the status of a refusal, from the API itself
    unless the call has one way only or the status is no 404. *)
Definition refusal (resp : Response) : Prop :=
  (status resp = 401 \/ status resp = 404 \/ status resp = 410) /\
  (is_api_envelope (from_utf8_lossy (body resp)) = true \/ length routes = 1%nat \/ status resp <> 404).

Definition refused_error (e : AetherError) : bool := match e with IdentityRefused _ => true | _ => false end.

Lemma after_answer_refused attempt route c sent :
  send attempt route = sent ->
  let '(c', _, r) := after_answer attempt route c sent in
  let refused_here := exists resp, sent = Ok resp /\ refusal resp in
  (r = None -> refused_error (last_error c') = true -> refused_here) /\
  (forall e, r = Some (Err e) -> refused_error e = true -> refused_here).
Proof.
  intros Hs. destruct sent as [resp|e|]; [|cbn; split; [done|by intros ? [=]]|cbn; split; [done|by intros ? [=]]].
  unfold after_answer. destruct (status_valid (status resp)); cbn [negb].
  2: { destruct (Nat.ltb 1 _); [destruct (all_turned _)|]; (split; [intros _ H; discriminate H|]); intros e' [=]; subst e'; intros H; discriminate H. }
  set (text := from_utf8_lossy (body resp)). destruct (if Nat.ltb 1 _ && _ then _ else _) as [h g].
  destruct (is_success (status resp)) eqn:Hsucc.
  { split; [done|]. intros e H He. injection H as H. destruct (account_from_str text); unfold map_err in H; try discriminate H.
    injection H as <-. discriminate He. }
  set (err := if refuses_identity (status resp) && _ then _ else _).
  assert (refused_error err = true -> exists r, Ok resp = @Ok AetherError _ r /\ refusal r) as He.
  { subst err. destruct (refuses_identity (status resp) && _) eqn:Hr; [|done]. intros _. exists resp. split; [done|].
    apply andb_prop in Hr as [Hr1 Hr2]. split; [unfold refuses_identity in Hr1; zbool; lia|]. cbn [orb] in Hr2. apply orb_prop in Hr2 as [[Hr2|Hr2]%orb_prop|Hr2].
    - by left.
    - right. left. by apply Nat.eqb_eq.
    - right. right. zbool. done. }
  destruct (Nat.ltb 1 _ && negb _); destruct (worth_retrying (status resp)); cbn [negb]; try destruct (all_turned _); cbn [last_error];
    (split; [done|]); by intros e [= <-].
Qed.

(** The request of a run of attempts that was the last, by which way and route, and what
    it was answered. *)
Definition last_refused (attempt : nat) (acts : list Act) : Prop :=
  exists k w route resp, asked_ways acts !! k = Some w /\ length (asked_ways acts) = S k /\
    routes !! w = Some route /\ send (attempt + k) route = Ok resp /\ refusal resp.

Lemma after_answer_asks_none attempt route c sent : asked_ways (after_answer attempt route c sent).1.2 = [].
Proof.
  unfold after_answer. destruct sent as [resp|e|]; [|done|done]. destruct (negb (status_valid _)); [by repeat case_match|].
  destruct (if Nat.ltb 1 _ && _ then _ else _). by repeat case_match.
Qed.

Lemma attempts_from_refused fuel : forall attempt c c' acts e,
  attempts_from fuel attempt c = (c', acts, Err e) -> refused_error e = true ->
  (fuel = O /\ acts = [] /\ refused_error (last_error c) = true) \/ last_refused attempt acts.
Proof.
  induction fuel as [|fuel IH]; intros attempt c c' acts e; cbn [attempts_from].
  { intros [= <- <- <-]. by left. }
  destruct (routes !! way c) as [route|] eqn:Hroute; [|done].
  pose proof (after_answer_refused attempt route c _ eq_refl) as Ha. pose proof (after_answer_asks_none attempt route c (send attempt route)) as Hn.
  set (pause := match attempt with O => [] | S k => [Backoff (backoff_delay (random attempt) (Z.of_nat k))] end).
  assert (asked_ways (pause ++ [Asked (way c)]) = [way c]) as Hask by (subst pause; by destruct attempt).
  destruct (after_answer _ _ _ _) as [[c1 acts1] r]. cbn [fst snd] in Hn. destruct Ha as [Ha1 Ha2].
  assert (forall rest, asked_ways ((pause ++ [Asked (way c)]) ++ acts1 ++ rest) = way c :: asked_ways rest) as Hall
    by (intros rest; rewrite asked_ways_app, (asked_ways_app acts1), Hask, Hn; done).
  assert ((exists resp, send attempt route = Ok resp /\ refusal resp) -> forall rest, asked_ways rest = [] -> last_refused attempt ((pause ++ [Asked (way c)]) ++ acts1 ++ rest)) as Hhere.
  { intros (resp & Hs & Href) rest Hrest. exists 0%nat, (way c), route, resp. rewrite Hall, Hrest, Nat.add_0_r. done. }
  destruct r as [r|].
  - intros [= <- <- ->] He. right. rewrite <- (app_nil_r acts1). apply Hhere; [|done]. by eapply Ha2.
  - destruct (attempts_from fuel (S attempt) c1) as [[c2 acts2] r2] eqn:Hr. intros [= <- <- ->] He. right.
    destruct (IH _ _ _ _ _ Hr He) as [(-> & -> & Hl)|(k & w & rt & resp & H1 & H2 & H3 & H4 & H5)]; [by apply Hhere; [apply Ha1|]|].
    exists (S k), w, rt, resp. rewrite Hall. cbn [length]. rewrite H2, Nat.add_succ_r. done.
Qed.

(** A call says that the identity is refused only when the answer to its last request
    refuses it. *)
Theorem refused_only_by_refusal marked h g c acts m :
  api_call_by marked (Ok tt) h g = (c, acts, Err (IdentityRefused m)) -> last_refused 0 acts.
Proof.
  unfold api_call_by. destruct (if marked then _ else _); [done|]. destruct routes as [|r0 rs] eqn:Hrs; [done|]. rewrite <- Hrs. intros H.
  rewrite Hrs in H. rewrite <- Hrs in H. apply attempts_from_refused in H as [(H & _)|H]; done.
Qed.

(** When no route gets an answer, the five attempts take the routes in turn, so that each
    of up to five is tried, and the call fails with the last error. *)
Theorem silent_routes_in_turn h g :
  routes <> [] -> (forall k route, exists e, send k route = Err e) ->
  let '(_, acts, r) := api_call_by false (Ok tt) h g in
  asked_ways acts = map (fun k => k mod length routes)%nat (seq 0 API_ATTEMPTS) /\
  exists e k route, send k route = Err e /\ r = Err (Api (label ++ lit ": " ++ to_string e)).
Proof.
  intros Hne Hs. unfold api_call_by. destruct routes as [|r0 rs] eqn:Hrs; [done|]. rewrite <- Hrs in *.
  destruct (start_inv (Api (label ++ lit ": no attempt was made")) h g Hne) as (H1 & H2 & _).
  pose proof (silent_attempts API_ATTEMPTS 0 _ Hs H1 H2 ltac:(by apply Forall_replicate)) as H.
  destruct (attempts_from _ _ _) as [[c acts] r]. destruct H as [Ha Hr]. split; [exact Ha|]. by apply Hr.
Qed.

End calls.

(** ** Identities *)

Section identities.
Context `{b64 : Base64Crate}.

Definition endpoint_from (reg : AccountData) : bytes :=
  let raw := match peers reg with (_, v4) :: _ => trim v4 | [] => [] end in
  match rsplit_once 58 raw with
  | Some (host, _) => if bool_decide (host = []) then raw else host
  | None => raw
  end.

Definition extract_wg_peer (reg : AccountData) : res AetherError bytes :=
  match peers reg with
  | [] => Err (Api (lit "no peers in registration response"))
  | (public_key, _) :: _ =>
      decoded ← map_err (fun e => Api (lit "decode peer pubkey: " ++ e)) (b64_decode public_key);
      if negb (blen decoded =? 32) then Err (Api (lit "invalid peer pubkey length")) else Ok decoded
  end.

Definition finish_provision (reg : AccountData) (wg_private : bytes) : res AetherError Identity :=
  if bool_decide (token reg = []) then Err (Api (lit "registration returned empty token"))
  else
    wg_peer_public ← extract_wg_peer reg;
    let client_id :=
      if bool_decide (config_client_id reg = []) then [0; 0; 0]
      else match b64_decode (config_client_id reg) with
           | Ok decoded => if blen decoded =? 3 then decoded else [0; 0; 0]
           | _ => [0; 0; 0]
           end in
    Ok (mkIdentity (id reg) (token reg) [] [] 0 (addresses_v4 reg) (addresses_v6 reg) wg_private wg_peer_public client_id
          (trim (account_organization reg)) (trim (http_proxy reg)) (endpoint_from reg) false).

(** The clamping of [generate_x25519_keypair]: the private key made of 32 random bytes. *)
Definition clamp (random : bytes) : res unit bytes :=
  b0 ← idx random 0;
  k ← set_idx random 0 (Z.land b0 248);
  b31 ← idx k 31;
  k ← set_idx k 31 (Z.land b31 127);
  b31 ← idx k 31;
  set_idx k 31 (Z.lor b31 64).

(** [refresh_profile]: what the account answers. *)
Definition refresh_profile (identity : Identity) (fetched : res AetherError AccountData) : Identity :=
  match fetched with
  | Ok reg =>
      let v4 := trim (addresses_v4 reg) in
      let v6 := trim (addresses_v6 reg) in
      mkIdentity (device_id identity) (access_token identity) (cert_pem identity) (key_pem identity) (cert_issued_at identity)
        (if bool_decide (v4 = []) then ipv4 identity else v4) (if bool_decide (v6 = []) then ipv6 identity else v6)
        (wg_private_key identity) (wg_peer_public_key identity) (client_id identity)
        (trim (account_organization reg)) (trim (http_proxy reg)) (endpoint_from reg) false
  | Err (IdentityRefused _) =>
      mkIdentity (device_id identity) (access_token identity) (cert_pem identity) (key_pem identity) (cert_issued_at identity)
        (ipv4 identity) (ipv6 identity) (wg_private_key identity) (wg_peer_public_key identity) (client_id identity)
        (organization identity) (gateway_proxy identity) (assigned_endpoint identity) true
  | _ => identity
  end.

(** ** The MASQUE certificate *)

Definition MASQUE_CERT_LIFETIME_SECS : Z := 365 * 86400.
Definition MASQUE_CERT_RENEW_BEFORE_SECS : Z := 7 * 86400.

Definition masque_cert_expiring (now issued_at : Z) : bool :=
  (issued_at =? 0) || (now <? issued_at) || (MASQUE_CERT_LIFETIME_SECS <=? now - issued_at + MASQUE_CERT_RENEW_BEFORE_SECS).

Definition cert_still_usable (now : Z) (i : Identity) : bool :=
  negb (bool_decide (cert_pem i = []) || bool_decide (key_pem i = [])) && negb (cert_issued_at i =? 0) &&
  negb (now <? cert_issued_at i) && (now - cert_issued_at i <? MASQUE_CERT_LIFETIME_SECS).

Definition has_masque_credentials (now : Z) (i : Identity) : bool :=
  negb (bool_decide (cert_pem i = [])) && negb (bool_decide (key_pem i = [])) && negb (masque_cert_expiring now (cert_issued_at i)).

Record MasqueEnrollment := mkEnrollment { e_cert_pem : bytes; e_key_pem : bytes; issued_at : Z; renewed : bool }.

(** [ensure_masque_enrolled]: the time before and after the enrollment, the certificate and
    the key generated, and the answer of the API. *)
Definition ensure_masque_enrolled (now now_after : Z) (i : Identity) (keypair : res AetherError (bytes * bytes))
    (enroll : res AetherError AccountData) : res AetherError MasqueEnrollment :=
  let usable := negb (bool_decide (cert_pem i = [])) && negb (bool_decide (key_pem i = [])) in
  let kept := mkEnrollment (cert_pem i) (key_pem i) (cert_issued_at i) false in
  if usable && negb (masque_cert_expiring now (cert_issued_at i)) then Ok kept
  else
    '(cert, key) ← keypair;
    match enroll with
    | Ok _ => Ok (mkEnrollment cert key now_after true)
    | Err error => if cert_still_usable now_after i then Ok kept else Err error
    | Panic => Panic
    end.

(** A profile refresh changes no key and no name of the device, and marks the identity as
    refused exactly when the account says so; a network that does not answer changes
    nothing. *)
Theorem refresh_keeps_the_device identity fetched :
  let i := refresh_profile identity fetched in
  device_id i = device_id identity /\ access_token i = access_token identity /\ wg_private_key i = wg_private_key identity /\
  wg_peer_public_key i = wg_peer_public_key identity /\ client_id i = client_id identity /\
  cert_pem i = cert_pem identity /\ key_pem i = key_pem identity /\ (ipv4 identity <> [] -> ipv4 i <> []) /\
  (refused identity = false -> refused i = true <-> exists m, fetched = Err (IdentityRefused m)) /\
  (forall e, fetched = Err e -> refused_error e = false -> i = identity).
Proof.
  destruct fetched as [reg|e|]; [|destruct e|]; cbn; repeat (split; [done|]); try (split; [by case_bool_decide|]); (split; [|try by intros ? [= <-]]);
    try (intros H; split; [intros ?; congruence|by intros [? [=]]]); try by intros _; split; [intros _; by eexists|].
Qed.

(** A provisioned identity has keys of their size; a client identifier the API gives badly
    is replaced by zeros. *)
Lemma finish_provision_wf reg k i : blen k = 32 -> finish_provision reg k = Ok i -> identity_wf i /\ access_token i <> [].
Proof.
  unfold finish_provision. intros Hk. case_bool_decide as Ht; [done|]. intros (q & Hq & [= <-])%res_bind_Ok. unfold identity_wf. cbn.
  assert (blen q = 32) as Hq'.
  { unfold extract_wg_peer in Hq. destruct (peers reg) as [|[key v4] ps]; [done|]. apply res_bind_Ok in Hq as (d & _ & Hd).
    destruct (blen d =? 32) eqn:Hb; cbn [negb] in Hd; [|done]. zbool. by injection Hd as <-. }
  repeat (split; [done|]). split; [|done]. split; [done|]. case_bool_decide; [done|]. destruct (b64_decode _) as [c|e|]; [|done..].
  by zcase.
Qed.

(** The certificate a session starts with: one on disk that is not about to expire is kept;
    otherwise a new one, or the one on disk while it is still within its life; no other. *)
Theorem enrolled_certificate_is_live now now_after i keypair enroll e :
  ensure_masque_enrolled now now_after i keypair enroll = Ok e ->
  (renewed e = false -> (cert_still_usable now i = true \/ cert_still_usable now_after i = true) /\ issued_at e = cert_issued_at i /\ e_cert_pem e = cert_pem i /\ e_key_pem e = key_pem i) /\
  (renewed e = true -> has_masque_credentials now i = false /\ issued_at e = now_after /\ keypair = Ok (e_cert_pem e, e_key_pem e) /\
     exists reg, enroll = Ok reg).
Proof.
  unfold ensure_masque_enrolled, has_masque_credentials.
  assert (forall a b : bool, negb a && negb b = negb (a || b)) as Hneg by by intros [] [].
  destruct (negb (bool_decide (cert_pem i = [])) && negb (bool_decide (key_pem i = [])) && negb (masque_cert_expiring now (cert_issued_at i))) eqn:Hu.
  - intros [= <-]. cbn. split; [|done]. intros _. split; [left|done]. apply andb_prop in Hu as [Hu1 Hu2]. unfold cert_still_usable. rewrite <- Hneg, Hu1.
    unfold masque_cert_expiring, MASQUE_CERT_RENEW_BEFORE_SECS in Hu2. rewrite !negb_orb in Hu2. apply andb_prop in Hu2 as [[-> ->]%andb_prop Hu2].
    cbn [andb]. zbool. apply Z.ltb_lt. lia.
  - destruct keypair as [[cert key]|e'|]; cbn [mbind res_bind]; [|done|done]. destruct enroll as [reg|e'|]; [| |done].
    + intros [= <-]. cbn. split; [done|]. intros _. repeat (split; [done|]). by exists reg.
    + destruct (cert_still_usable now_after i) eqn:Hc; [|done]. intros [= <-]. cbn. split; [|done]. intros _. split; [by right|done].
Qed.

End identities.

(** ** Witnesses *)

(** Answers whose body is the identifier of the account, or an envelope that starts with
    a brace. *)
Definition plain_json : SerdeJson.
Proof.
  refine {| account_from_str body := Ok (mkAccountData body (lit "token") (lit "10.0.0.9") [] [(replicate 32 5, lit "162.159.192.1:0")] [] [] []);
            is_api_envelope body := starts_with (lit "{") body;
            api_errors body := None |}.
  done.
Defined.
Definition plain_status : StatusText := fun status => dec status ++ (if status =? 403 then lit " Forbidden" else []).

Section examples.
Local Existing Instances plain_json plain_status.

Example forbidden_answer : describe_rejection 403 [] true =
  lit "status 403 Forbidden: no details returned (cloudflare refuses a call whose server name, --api-sni, and host, --api-host, differ; give them the same name)".
Proof. vm_compute. reflexivity. Qed.

Definition example_routes : list ApiRoute := api_routes_of None None None None.
(** The first name gives the page of another server, the second no answer, the first edge
    refuses for now, then serves. *)
Definition example_send (k : nat) (_ : ApiRoute) : res AetherError Response :=
  match k with
  | 0%nat => Ok (mkResponse 403 None (lit "<html>"))
  | 1%nat => Err (Io (lit "timed out"))
  | 2%nat => Ok (mkResponse 429 (Some (lit "120")) (lit "{}"))
  | _ => Ok (mkResponse 200 None (lit "device"))
  end.

Example example_call :
  let '(c, acts, r) := api_call_by example_routes (lit "registration") example_send (fun _ => 0) false (Ok tt) None None in
  acts = [Asked 0; TurnedAway 0; Backoff 450; Asked 1; Backoff 900; Asked 2; WaitedSecs 30; Backoff 1800; Asked 2] /\
  answered_edge c = Some (lit "104.24.4.6") /\ (exists d, r = Ok d /\ id d = lit "device").
Proof. vm_compute. repeat split. eexists. split; reflexivity. Qed.

Lemma api_call_asks_open_ways_witness :
  let '(_, acts, r) := api_call_by example_routes (lit "registration") example_send (fun _ => 0) false (Ok tt) None None in
  (length (asked_ways acts) <= 5)%nat /\ r <> Panic.
Proof.
  pose proof (api_call_asks_open_ways example_routes (lit "registration") example_send (fun _ => 0)
    ltac:(intros [|[|[|k]]] route; discriminate) false (Ok tt) None None ltac:(discriminate)) as H.
  destruct (api_call_by example_routes (lit "registration") example_send (fun _ => 0) false (Ok tt) None None) as [[c acts] r].
  destruct H as (H1 & H2 & _). split; [exact H1|exact H2].
Defined.

Lemma silent_routes_in_turn_witness :
  let '(_, acts, r) := api_call_by example_routes (lit "registration") (fun _ _ => Err (Io (lit "timed out"))) (fun _ => 0) false (Ok tt) None None in
  asked_ways acts = [0; 1; 2; 3; 0]%nat.
Proof.
  pose proof (silent_routes_in_turn example_routes (lit "registration") (fun _ _ => Err (Io (lit "timed out"))) (fun _ => 0) None None
    ltac:(discriminate) ltac:(intros; eexists; reflexivity)) as H.
  destruct (api_call_by example_routes (lit "registration") (fun _ _ => Err (Io (lit "timed out"))) (fun _ => 0) false (Ok tt) None None) as [[c acts] r].
  exact (proj1 H).
Defined.

Lemma refused_only_by_refusal_witness :
  let gone := fun (_ : nat) (_ : ApiRoute) => Ok (mkResponse 410 None (lit "gone")) : res AetherError Response in
  exists c acts m, api_call_by example_routes (lit "refresh") gone (fun _ => 0) false (Ok tt) None None = (c, acts, Err (IdentityRefused m)) /\
    last_refused example_routes gone 0 acts.
Proof.
  cbn zeta.
  assert (exists m, (api_call_by example_routes (lit "refresh") (fun _ _ => Ok (mkResponse 410 None (lit "gone"))) (fun _ => 0) false (Ok tt) None None).2
    = Err (IdentityRefused m)) as [m Hm] by (eexists; vm_compute; reflexivity).
  destruct (api_call_by example_routes (lit "refresh") (fun _ _ => Ok (mkResponse 410 None (lit "gone"))) (fun _ => 0) false (Ok tt) None None)
    as [[c acts] r] eqn:H.
  cbn [snd] in Hm. rewrite Hm in H. exists c, acts, m. rewrite Hm. split; [reflexivity|].
  exact (refused_only_by_refusal example_routes (lit "refresh") _ (fun _ => 0) false None None c acts m H).
Defined.

Definition expired (i : Identity) : Identity :=
  mkIdentity (device_id i) (access_token i) (cert_pem i) (key_pem i) 1000 (ipv4 i) (ipv6 i) (wg_private_key i) (wg_peer_public_key i)
    (client_id i) (organization i) (gateway_proxy i) (assigned_endpoint i) false.

Definition example_account : AccountData := mkAccountData (lit "device") (lit "token") [] [] [] [] [] [].

Lemma enrolled_certificate_is_live_witness :
  exists e, ensure_masque_enrolled 1700000000 1700000001 (expired example_identity) (Ok (lit "cert", lit "key"))
      (Ok example_account) = Ok e /\ issued_at e = 1700000001.
Proof.
  exists (mkEnrollment (lit "cert") (lit "key") 1700000001 true). split; [vm_compute; reflexivity|].
  apply (enrolled_certificate_is_live 1700000000 1700000001 (expired example_identity) (Ok (lit "cert", lit "key")) (Ok example_account)
           (mkEnrollment (lit "cert") (lit "key") 1700000001 true)); [vm_compute; reflexivity|reflexivity].
Defined.

End examples.

End Account.
