(* ===== verification/Bridges.v ===== *)
(** * Tor bridges ([bridges.rs])

    The lines that name bridges and the transports that speak to them: reading a line,
    where the lines come from and in which order, which of them are kept after a probe,
    what is launched for them ([plan_with]) and in which waves ([waves]).  What a
    service, a program or a probe answers is an argument; a [BTreeMap] is walked in the
    order of its keys' bytes. *)

From stdpp Require Import gmap.
From Stdlib Require Import Permutation Sorted.
From S2P Require Import Prelude Str Ip Text Error Exit Tls.
Local Open Scope Z_scope.

Module Bridges.

Definition CACHE_MAX_AGE : Z := 6 * 60 * 60.
Definition PREFERENCE : list bytes := [lit "obfs4"; lit "webtunnel"; lit "snowflake"; lit "meek_lite"; lit "meek"].
Definition KEEP_PER_TRANSPORT : Z := 6.
Definition UNTESTABLE : list bytes := [lit "snowflake"; lit "meek"; lit "meek_lite"; lit "conjure"].
Definition TOR_DESIGNATED_PORTS : list Z := [9001; 9030; 9040; 9050; 9051; 9150].
Definition WEB_PORTS : list Z := [80; 443].
Definition RELAYS_DEFAULT : Z := 40.

(** ** Lines *)

(** The word after an optional [Bridge], and the words after it. *)
Definition first_word (line : bytes) : option (bytes * list bytes) :=
  match split_whitespace line with
  | [] => None
  | first :: words =>
      if eq_ignore_ascii_case first (lit "bridge")
      then match words with first :: words => Some (first, words) | [] => None end
      else Some (first, words)
  end.

Definition transport_of (line : bytes) : option bytes :=
  '(first, _) ← first_word line;
  head ← head first;
  if is_ascii_digit head || (head =? 91) || contains_char 61 first then None
  else Some (to_ascii_lowercase first).

Definition address_of (line : bytes) : option SocketAddr :=
  '(first, words) ← first_word line;
  written ← match transport_of line with None => Some first | Some _ => List.head words end;
  parse_socket_addr written.

Definition kind_of (line : bytes) : bytes := default (lit "vanilla") (transport_of line).

Fixpoint methods_loop (ls : list bytes) (found : list bytes) : list bytes :=
  match ls with
  | [] => found
  | line :: ls =>
      methods_loop ls
        match strip_prefix (lit "CMETHOD ") (trim line) with
        | Some rest =>
            match split_whitespace rest with
            | name :: _ => let name := to_ascii_lowercase name in if bool_decide (name ∈ found) then found else found ++ [name]
            | [] => found
            end
        | None => found
        end
  end.
Definition methods_in (output : bytes) : list bytes := methods_loop (lines output) [].

Definition relay_line (fingerprint address : bytes) (web_only : bool) : option bytes :=
  parsed ← parse_socket_addr address;
  let port := sa_port parsed in
  if bool_decide (port ∈ TOR_DESIGNATED_PORTS) then None
  else if web_only && negb (bool_decide (port ∈ WEB_PORTS)) then None
  else
    let id := to_ascii_uppercase (trim fingerprint) in
    if negb (blen id =? 40) || negb (forallb Tls.is_ascii_hexdigit id) then None
    else Some (address ++ lit " " ++ id).

(** ** Settings *)

Inductive Relays := Off | Also (n : Z) | Only (n : Z).

Definition relay_policy (raw : bytes) : Relays :=
  let spec := to_ascii_lowercase (trim raw) in
  if bool_decide (spec ∈ [lit "off"; lit "no"; lit "0"; lit "false"; lit "none"]) then Off
  else if bool_decide (spec ∈ [[]; lit "auto"; lit "on"; lit "yes"; lit "true"]) then Also RELAYS_DEFAULT
  else if bool_decide (spec ∈ [lit "only"; lit "relays"]) then Only RELAYS_DEFAULT
  else match parse_uint USIZE_MAX (default spec (strip_prefix (lit "only:") spec)) with
       | Some count =>
           if 0 <? count then
             let count := Z.min count 400 in
             if starts_with (lit "only") spec then Only count else Also count
           else Also RELAYS_DEFAULT
       | None => Also RELAYS_DEFAULT
       end.

Definition relay_ports_are_open (value : option bytes) : bool :=
  match value with Some v => bool_decide (to_ascii_lowercase (trim v) ∈ [lit "any"; lit "all"]) | None => false end.

(** ** Groups of lines

    A [BTreeMap] from the kind of a line, as the sorted list of its keys. *)

Fixpoint lex_leb (a b : bytes) : bool :=
  match a, b with
  | [], _ => true
  | _ :: _, [] => false
  | x :: a, y :: b => if x <? y then true else if y <? x then false else lex_leb a b
  end.

Fixpoint insert_key (k : bytes) (ks : list bytes) : list bytes :=
  match ks with
  | [] => [k]
  | k' :: ks' => if bool_decide (k = k') then ks else if lex_leb k k' then k :: ks else k' :: insert_key k ks'
  end.
Definition keys_of (ks : list bytes) : list bytes := foldr insert_key [] ks.

(** [ordered], over the entries of a map in the order of their keys. *)
Definition ordered (grouped : list (bytes * list bytes)) : list bytes :=
  concat (map (fun wanted => concat (map snd (List.filter (fun e => bool_decide (e.1 = wanted)) grouped))) PREFERENCE) ++
  concat (map snd (List.filter (fun e => negb (bool_decide (e.1 ∈ PREFERENCE))) grouped)).

(** [from_settings] on the settings of an answer: the lines of each kind together, in the
    order in which the kinds were first seen. *)
Definition from_settings (settings : list (bytes * list bytes)) : option (list bytes) :=
  let settings := List.filter (fun e => negb (bool_decide (e.2 = []))) settings in
  if bool_decide (settings = []) then None
  else
    let order := (push_all ([], ∅) (map fst settings)).1 in
    Some (concat (map (fun kind => concat (map snd (List.filter (fun e => bool_decide (e.1 = kind)) settings))) order)).

Definition dedup (lines : list bytes) : list bytes :=
  (push_all ([], ∅) (List.filter (fun l => negb (bool_decide (l = []))) (map trim lines))).1.

(** [shuffle]: [pick place] is the number drawn in [0..=place]. *)
Definition shuffle {A} (pick : nat -> nat) (l : list A) : list A :=
  fold_left (fun l place => swap l place (pick place)) (rev (seq 1 (length l - 1))) l.

(** [from_relays] on the relays of an answer. *)
Definition from_relays (web_only : bool) (pick : nat -> nat) (want : Z) (relays : list (option bytes * option (list bytes))) : option (list bytes) :=
  let lines := concat (map (fun '(fingerprint, addresses) =>
    match fingerprint with
    | Some id => omap (fun address => relay_line id address web_only) (default [] addresses)
    | None => []
    end) relays) in
  if bool_decide (lines = []) then None else Some (take (Z.to_nat want) (shuffle pick lines)).

(** ** Where the lines come from *)

Record Cached := mkCached { fetched : Z; cached_lines : list bytes }.

Definition fallback (embedded : list bytes) (cached : option Cached) : list bytes * bytes :=
  match cached with
  | Some stale => (cached_lines stale, lit "stale cache")
  | None => (embedded, lit "built in")
  end.

(** [fetch]: the cache, the time, whether a client could be built, and what the services
    answer.  Returned: the lines, their source, and the cache written. *)
Definition fetch (embedded : list bytes) (cached : option Cached) (now : Z) (client_ok : bool) (relays : Relays)
    (settings builtin relayed : option (list bytes)) : list bytes * bytes * option Cached :=
  match (c ← cached; if saturating_sub now (fetched c) <? CACHE_MAX_AGE then Some c else None) with
  | Some fresh => (cached_lines fresh, lit "cache", None)
  | None =>
      if negb client_ok then (fallback embedded cached, None)
      else
        let lines := match relays with Only _ => [] | _ => default [] settings ++ default [] builtin end in
        let source := match relays with Only _ => lit "onionoo relays" | _ => lit "bridgedb" end in
        let '(lines, source) :=
          match relays, relayed with
          | Off, _ | _, None => (lines, source)
          | _, Some found =>
              (lines ++ found, if bool_decide (lines = []) then lit "onionoo relays" else lit "bridgedb and onionoo relays")
          end in
        let lines := dedup lines in
        if bool_decide (lines = []) then (fallback embedded cached, None)
        else (lines, source, Some (mkCached now lines))
  end.

(** ** What is kept after the probes *)

(** Whether a line is probed; one that is not counts as alive. *)
Definition probed (line : bytes) : bool :=
  negb match transport_of line with Some p => bool_decide (p ∈ UNTESTABLE) | None => false end &&
  match address_of line with Some _ => true | None => false end.

Definition alive (answers : SocketAddr -> bool) (line : bytes) : bool :=
  if probed line then match address_of line with Some a => answers a | None => true end else true.

(** The loop over the lines: [held] is how many of each kind were kept. *)
Fixpoint keep_loop (answered : bytes -> bool) (alive : bytes -> bool) (held : gmap bytes Z) (ls : list bytes) : list bytes :=
  match ls with
  | [] => []
  | line :: ls =>
      let kind := kind_of line in
      if negb (alive line) && answered kind then keep_loop answered alive held ls
      else
        let seen := default 0 (held !! kind) in
        if KEEP_PER_TRANSPORT <=? seen then keep_loop answered alive (<[kind := seen]> held) ls
        else line :: keep_loop answered alive (<[kind := seen + 1]> held) ls
  end.

Definition keep_reachable (through upstream : bool) (answers : SocketAddr -> bool) (ls : list bytes) : list bytes :=
  if through || upstream then ls
  else
    let answered kind := existsb (fun line => bool_decide (kind_of line = kind) && alive answers line) ls in
    keep_loop answered (alive answers) ∅ ls.

(** ** What is launched *)

Record Transport := mkTransport { protocols : list bytes; path : bytes }.
Record Plan := mkPlan { plan_lines : list bytes; transports : list Transport; missing : list bytes; source : bytes }.

Definition retain_protocols (p : bytes -> bool) (t : Transport) : Transport := mkTransport (List.filter p (protocols t)) (path t).

(** The protocols of [ps] that were not claimed, each once, and the set with them. *)
Fixpoint claim (claimed : gset bytes) (ps : list bytes) : gset bytes * list bytes :=
  match ps with
  | [] => (claimed, [])
  | p :: ps =>
      if decide (p ∈ claimed) then claim claimed ps
      else let '(claimed, mine) := claim ({[p]} ∪ claimed) ps in (claimed, p :: mine)
  end.

(** The loop that adds the transports found to those given. *)
Fixpoint add_found (claimed : gset bytes) (ts : list Transport) (found : list Transport) : gset bytes * list Transport :=
  match found with
  | [] => (claimed, ts)
  | one :: found =>
      let '(claimed, mine) := claim claimed (protocols one) in
      add_found claimed (if bool_decide (mine = []) then ts else ts ++ [mkTransport mine (path one)]) found
  end.

(** [discover_transports] over the programs found, with the protocols each speaks. *)
Definition discover_transports (programs : list (list bytes * bytes)) : list Transport :=
  (add_found ∅ [] (map (fun '(speaks, path) => mkTransport speaks path) programs)).2.

Definition plan_with (lines : list bytes) (source : bytes) (extra found : list Transport) : Plan :=
  let claimed : gset bytes := list_to_set (concat (map protocols extra)) in
  let '(claimed, ts) := add_found claimed extra found in
  let kept := List.filter (fun line => match transport_of line with None => true | Some p => bool_decide (p ∈ claimed) end) lines in
  let missing := keys_of (omap (fun line => p ← transport_of line; if bool_decide (p ∈ claimed) then None else Some p) lines) in
  let used := omap transport_of kept in
  let ts := List.filter (fun t => existsb (fun p => bool_decide (p ∈ used)) (protocols t)) ts in
  mkPlan kept (map (retain_protocols (fun p => bool_decide (p ∈ used))) ts) missing source.

(** ** Waves *)

Fixpoint position (name : bytes) (l : list bytes) : nat :=
  match l with [] => O | x :: l => if bool_decide (x = name) then O else S (position name l) end.

(** The key of [sort_by_key]: the transport that worked first, then by preference. *)
Definition wave_rank (first : option bytes) (name : bytes) : nat :=
  ((if bool_decide (first = Some name) then 0 else 100) + position name PREFERENCE)%nat.

(** A stable sort by a key. *)
Fixpoint insert_by (rank : bytes -> nat) (x : bytes) (l : list bytes) : list bytes :=
  match l with
  | [] => [x]
  | y :: l' => if Nat.leb (rank x) (rank y) then x :: l else y :: insert_by rank x l'
  end.
Definition sort_by (rank : bytes -> nat) (l : list bytes) : list bytes := foldr (insert_by rank) [] l.

Definition wave_of (plan : Plan) (name : bytes) : bytes * Plan :=
  (name, mkPlan (List.filter (fun line => bool_decide (kind_of line = name)) (plan_lines plan))
           (map (retain_protocols (fun p => bool_decide (p = name)))
              (List.filter (fun t => existsb (fun p => bool_decide (p = name)) (protocols t)) (transports plan)))
           [] (source plan)).

Definition waves (plan : Plan) (first : option bytes) : list (bytes * Plan) :=
  let names := keys_of (map kind_of (plan_lines plan)) in
  if Nat.ltb (length names) 2 then []
  else map (wave_of plan) (sort_by (wave_rank first) names).

Example transport_of_ex :
  transport_of (lit "Bridge snowflake 192.0.2.3:80 2B28 url=https://example.test/") = Some (lit "snowflake") /\
  transport_of (lit "[2001:db8::1]:443 ABCD") = None /\ address_of (lit "obfs4 1.2.3.4:443 ABCD") = Some (mkSocketAddr (V4 16909060) 443).
Proof. vm_compute. done. Qed.


(** ** What is kept after the probes: lemmas *)

Definition of_kind (k : bytes) (line : bytes) : bool := bool_decide (kind_of line = k).

(** The lines of a kind that may be kept. *)
Definition eligible (answered alive : bytes -> bool) (k : bytes) (line : bytes) : bool :=
  of_kind k line && (alive line || negb (answered k)).

Lemma keep_loop_of_kind answered al k ls : forall held : gmap bytes Z,
  0 <= default 0 (held !! k) <= KEEP_PER_TRANSPORT ->
  List.filter (of_kind k) (keep_loop answered al held ls)
  = take (Z.to_nat (KEEP_PER_TRANSPORT - default 0 (held !! k))) (List.filter (eligible answered al k) ls).
Proof.
  induction ls as [|l ls IH]; intros held Hh; cbn [keep_loop List.filter]; [by rewrite take_nil|].
  unfold eligible at 1. destruct (of_kind k l) eqn:Ek; cbn [andb].
  - assert (kind_of l = k) as Ek' by (unfold of_kind in Ek; by apply bool_decide_eq_true in Ek). rewrite Ek'.
    destruct (al l) eqn:Ea, (answered k) eqn:Ean; cbn [negb andb orb]; try (by apply IH).
    all: destruct (KEEP_PER_TRANSPORT <=? default 0 (held !! k)) eqn:El; zbool; [rewrite IH|cbn [List.filter]; rewrite Ek, IH].
    all: rewrite lookup_insert_eq; change (default 0 (Some ?v)) with v; try lia.
    all: set (seen := default 0 (held !! k)) in *.
    all: try (replace (Z.to_nat (KEEP_PER_TRANSPORT - seen)) with O by lia; done).
    all: replace (Z.to_nat (KEEP_PER_TRANSPORT - seen)) with (S (Z.to_nat (KEEP_PER_TRANSPORT - (seen + 1)))) by lia; done.
  - assert (kind_of l <> k) as Hne by (unfold of_kind in Ek; by apply bool_decide_eq_false in Ek).
    assert (forall v, default 0 (<[kind_of l:=v]> held !! k) = default 0 (held !! k)) as Hk by (intros v; by rewrite lookup_insert_ne).
    destruct (negb (al l) && answered (kind_of l)); [by apply IH|].
    destruct (KEEP_PER_TRANSPORT <=? _); cbn [List.filter]; rewrite ?Ek; rewrite IH by (rewrite Hk; done); by rewrite Hk.
Qed.

Lemma keep_loop_sublist answered al ls : forall held, keep_loop answered al held ls `sublist_of` ls.
Proof.
  induction ls as [|l ls IH]; intros held; cbn [keep_loop]; [constructor|].
  destruct (_ && _); [by constructor|]. destruct (_ <=? _); by constructor.
Qed.

(** Whether any line of a kind answered. *)
Definition kind_answered (answers : SocketAddr -> bool) (ls : list bytes) (k : bytes) : bool :=
  existsb (fun line => of_kind k line && alive answers line) ls.

(** ** The programs launched: lemmas *)

Lemma claim_spec ps : forall claimed claimed' mine, claim claimed ps = (claimed', mine) ->
  claimed' = claimed ∪ list_to_set ps /\ NoDup mine /\ (forall p, p ∈ mine <-> p ∈ ps /\ p ∉ claimed).
Proof.
  induction ps as [|p ps IH]; intros c c' mine E; cbn [claim] in E.
  - inversion E; subst. split; [set_solver|]. split; [constructor|]. set_solver.
  - destruct (decide (p ∈ c)) as [Hp|Hp].
    + destruct (IH _ _ _ E) as (-> & Hn & Hm). split; [set_solver|]. split; [done|].
      intros q. rewrite Hm, elem_of_cons. naive_solver.
    + destruct (claim _ ps) as [c2 m2] eqn:Ec. inversion E; subst. destruct (IH _ _ _ Ec) as (-> & Hn & Hm).
      split; [set_solver|]. split; [constructor; [|done]; rewrite Hm; set_solver|].
      intros q. rewrite elem_of_cons, Hm, elem_of_cons, not_elem_of_union, not_elem_of_singleton.
      destruct (decide (q = p)); naive_solver.
Qed.

(** Every protocol some program of [ts] speaks. *)
Definition spoken (ts : list Transport) : list bytes := concat (map protocols ts).

Lemma spoken_app a b : spoken (a ++ b) = spoken a ++ spoken b.
Proof. unfold spoken. by rewrite map_app, concat_app. Qed.

Lemma add_found_spec found : forall claimed ts claimed' ts', add_found claimed ts found = (claimed', ts') ->
  claimed = list_to_set (spoken ts) ->
  claimed' = list_to_set (spoken ts') /\ (forall p, p ∈ spoken ts' <-> p ∈ spoken ts \/ p ∈ spoken found) /\ (NoDup (spoken ts) -> NoDup (spoken ts')).
Proof.
  induction found as [|t found IH]; intros c ts c' ts' E Hc; cbn [add_found] in E.
  - inversion E; subst. split; [done|]. split; [|done]. set_solver.
  - destruct (claim c (protocols t)) as [c2 mine] eqn:Ec. destruct (claim_spec _ _ _ _ Ec) as (-> & Hn & Hm).
    set (ts2 := if bool_decide (mine = []) then ts else ts ++ [mkTransport mine (path t)]) in E.
    assert (spoken ts2 = spoken ts ++ mine) as Hs.
    { unfold ts2. case_bool_decide as Hb; [by rewrite Hb, app_nil_r|]. rewrite spoken_app. unfold spoken at 2. cbn. by rewrite app_nil_r. }
    destruct (IH _ _ _ _ E) as (H1 & H2 & H3).
    { rewrite Hs, Hc. apply leibniz_equiv. intros p. rewrite elem_of_union, !elem_of_list_to_set, elem_of_app, Hm, Hc, elem_of_list_to_set.
      destruct (decide (p ∈ spoken ts)); naive_solver. }
    split; [done|]. split.
    + intros p. rewrite H2, Hs, elem_of_app, Hm, Hc, elem_of_list_to_set. unfold spoken at 5. cbn [map concat]. rewrite elem_of_app. fold (spoken found).
      destruct (decide (p ∈ spoken ts)); naive_solver.
    + intros Hnd. apply H3. rewrite Hs. apply NoDup_app. split; [done|]. split; [|done].
      intros p Hp Hq. apply Hm in Hq as [_ Hq]. rewrite Hc, elem_of_list_to_set in Hq. done.
Qed.

Lemma elem_of_insert_key k ks x : x ∈ insert_key k ks <-> x = k \/ x ∈ ks.
Proof.
  induction ks as [|k' ks IH]; cbn [insert_key]; [set_solver|].
  case_bool_decide; [set_solver|]. destruct (lex_leb k k'); set_solver.
Qed.

Lemma elem_of_keys_of ks x : x ∈ keys_of ks <-> x ∈ ks.
Proof.
  unfold keys_of. induction ks as [|k ks IH]; cbn [foldr]; [done|]. rewrite elem_of_insert_key, IH, elem_of_cons. done.
Qed.

(** ** The keys of a map, in order *)

Lemma lex_leb_total a : forall b, lex_leb a b = false -> lex_leb b a = true.
Proof.
  induction a as [|x a IH]; intros [|y b] E; cbn [lex_leb] in *; try done.
  destruct (x <? y) eqn:E1; [done|]. destruct (y <? x) eqn:E2; [done|]. by apply IH.
Qed.

Lemma lex_leb_trans a : forall b c, lex_leb a b = true -> lex_leb b c = true -> lex_leb a c = true.
Proof.
  induction a as [|x a IH]; intros [|y b] [|z c] H1 H2; cbn [lex_leb] in *; try done.
  destruct (x <? y) eqn:E1, (y <? x) eqn:E2, (y <? z) eqn:E3, (z <? y) eqn:E4, (x <? z) eqn:E5, (z <? x) eqn:E6; zbool; try done; try lia.
  by eapply IH.
Qed.

Lemma lex_leb_antisym a : forall b, lex_leb a b = true -> lex_leb b a = true -> a = b.
Proof.
  induction a as [|x a IH]; intros [|y b] H1 H2; cbn [lex_leb] in *; try done.
  destruct (x <? y) eqn:E1, (y <? x) eqn:E2; zbool; try done; try lia. f_equal; [lia|by apply IH].
Qed.

Definition sorted_keys (ks : list bytes) : Prop := StronglySorted (fun a b => lex_leb a b = true /\ a <> b) ks.

Lemma insert_key_sorted k ks : sorted_keys ks -> sorted_keys (insert_key k ks).
Proof.
  unfold sorted_keys. induction 1 as [|k' ks Hs IH Hk]; cbn [insert_key]; [repeat constructor|].
  case_bool_decide as Hd; [by constructor|]. destruct (lex_leb k k') eqn:El.
  - constructor; [by constructor|]. constructor; [done|]. eapply List.Forall_impl; [|exact Hk]. cbn. intros a [Ha Hne].
    split; [by eapply lex_leb_trans|]. intros ->. apply Hd. by apply lex_leb_antisym.
  - constructor; [done|]. apply List.Forall_forall. intros x Hx%list_elem_of_In%elem_of_insert_key.
    destruct Hx as [->|Hx]; [split; [by apply lex_leb_total|done]|]. rewrite List.Forall_forall in Hk. by apply Hk, list_elem_of_In.
Qed.

Lemma keys_of_sorted ks : sorted_keys (keys_of ks).
Proof. unfold keys_of. induction ks; cbn [foldr]; [constructor|]. by apply insert_key_sorted. Qed.

Lemma keys_of_NoDup ks : NoDup (keys_of ks).
Proof.
  induction (keys_of_sorted ks) as [|k l _ IH Hk]; constructor; [|done]. intros Hin.
  rewrite List.Forall_forall in Hk. by destruct (Hk k) as [_ Hne]; [apply list_elem_of_In|].
Qed.
#[local] Hint Resolve keys_of_NoDup : core.

(** ** The order of the waves: lemmas *)

Lemma insert_by_perm rank x l : insert_by rank x l ≡ₚ x :: l.
Proof.
  induction l as [|y l IH]; cbn [insert_by]; [done|]. destruct (Nat.leb _ _); [done|]. rewrite IH. apply Permutation_swap.
Qed.

Lemma sort_by_perm rank l : sort_by rank l ≡ₚ l.
Proof. unfold sort_by. induction l; cbn [foldr]; [done|]. rewrite insert_by_perm. by constructor. Qed.

Definition ranked (rank : bytes -> nat) : list bytes -> Prop := StronglySorted (fun a b => (rank a <= rank b)%nat).

Lemma sort_by_ranked rank l : ranked rank (sort_by rank l).
Proof.
  unfold sort_by, ranked. induction l as [|x l IH]; cbn [foldr]; [constructor|]. induction IH as [|y ys Hs IH Hy]; cbn [insert_by]; [repeat constructor|].
  destruct (Nat.leb (rank x) (rank y)) eqn:E.
  - apply Nat.leb_le in E. constructor; [by constructor|]. constructor; [done|]. eapply List.Forall_impl; [|exact Hy]. cbn. lia.
  - apply Nat.leb_gt in E. constructor; [done|]. rewrite insert_by_perm. constructor; [lia|done].
Qed.

Lemma position_PREFERENCE name : (position name PREFERENCE <= 5)%nat.
Proof. unfold PREFERENCE. cbn [position]. repeat (case_bool_decide; [lia|]). lia. Qed.

(** The lines, kind by kind, are the lines. *)
Lemma kinds_cover ks : forall ls : list bytes, NoDup ks -> (forall l, l ∈ ls -> kind_of l ∈ ks) ->
  concat (map (fun k => List.filter (of_kind k) ls) ks) ≡ₚ ls.
Proof.
  induction ks as [|k ks IH]; intros ls Hn Hc; cbn [map concat].
  - destruct ls as [|l ls]; [done|]. exfalso. apply (not_elem_of_nil (kind_of l)), (Hc l). by left.
  - apply NoDup_cons in Hn as [Hk Hn]. set (rest := List.filter (fun l => negb (of_kind k l)) ls).
    assert (forall l, l ∈ rest -> kind_of l ∈ ks) as Hr.
    { intros l [Hl Hb]%list_elem_of_In%filter_In. apply list_elem_of_In in Hl. apply Hc in Hl. apply elem_of_cons in Hl as [E|?]; [|done].
      unfold of_kind in Hb. by rewrite bool_decide_eq_true_2 in Hb. }
    assert (map (fun k' => List.filter (of_kind k') ls) ks = map (fun k' => List.filter (of_kind k') rest) ks) as ->.
    { apply map_ext_in. intros k' Hk'%list_elem_of_In. unfold rest. clear - Hk Hk'. induction ls as [|l ls IHl]; cbn [List.filter]; [done|].
      destruct (of_kind k l) eqn:E1; cbn [negb List.filter]; destruct (of_kind k' l) eqn:E2; rewrite ?IHl; try done.
      unfold of_kind in E1, E2. apply bool_decide_eq_true in E1, E2. congruence. }
    rewrite (IH rest Hn Hr). unfold rest. clear. induction ls as [|l ls IHl]; cbn [List.filter]; [done|].
    destruct (of_kind k l); cbn [negb app]; [by rewrite IHl|]. rewrite <- Permutation_middle. by rewrite IHl.
Qed.

Lemma filter_sublist {A} (f : A -> bool) (l : list A) : List.filter f l `sublist_of` l.
Proof. induction l as [|x l IH]; cbn [List.filter]; [constructor|]. destruct (f x); by constructor. Qed.

Lemma spoken_retain f g ts : spoken (map (retain_protocols f) (List.filter g ts)) `sublist_of` spoken ts.
Proof.
  induction ts as [|t ts IH]; cbn [List.filter map]; [constructor|]. destruct (g t).
  - unfold spoken. cbn [map concat]. apply sublist_app; [apply filter_sublist|done].
  - unfold spoken at 2. cbn [map concat]. by apply sublist_inserts_l.
Qed.

Lemma elem_of_spoken ts q : q ∈ spoken ts <-> exists t, t ∈ ts /\ q ∈ protocols t.
Proof.
  unfold spoken. rewrite list_elem_of_In, in_concat. split.
  - intros (ps & (t & <- & Ht)%in_map_iff & Hq). exists t. by rewrite !list_elem_of_In.
  - intros (t & Ht & Hq). exists (protocols t). rewrite !list_elem_of_In in *. split; [by apply in_map|done].
Qed.

Lemma elem_of_retain f g ts t : t ∈ map (retain_protocols f) (List.filter g ts) <-> exists t0, t0 ∈ ts /\ g t0 = true /\ t = retain_protocols f t0.
Proof.
  rewrite list_elem_of_In, in_map_iff. split.
  - intros (t0 & <- & [H1 H2]%filter_In). exists t0. by rewrite list_elem_of_In.
  - intros (t0 & H1 & H2 & ->). exists t0. split; [done|]. apply filter_In. split; [by apply list_elem_of_In|done].
Qed.

Lemma spoken_retained f ts q :
  q ∈ spoken (map (retain_protocols f) (List.filter (fun t => existsb f (protocols t)) ts)) <-> q ∈ spoken ts /\ f q = true.
Proof.
  rewrite !elem_of_spoken. setoid_rewrite elem_of_retain. split.
  - intros (t & (t0 & Ht & _ & ->) & Hq). cbn in Hq. apply list_elem_of_In, filter_In in Hq as [Hq Hf]. split; [|done]. exists t0. split; [done|by apply list_elem_of_In].
  - intros [(t & Ht & Hq) Hf]. exists (retain_protocols f t). split.
    + exists t. split; [done|]. split; [|done]. apply existsb_exists. exists q. split; [by apply list_elem_of_In|done].
    + cbn. apply list_elem_of_In, filter_In. split; [by apply list_elem_of_In|done].
Qed.

(** A plan whose lines all have a program, no protocol having two. *)
Definition served (p : Plan) : Prop :=
  NoDup (spoken (transports p)) /\ forall l q, l ∈ plan_lines p -> transport_of l = Some q -> q ∈ spoken (transports p).

Lemma add_found_path found : forall claimed ts t, t ∈ (add_found claimed ts found).2 ->
  exists t0, t0 ∈ ts ++ found /\ path t = path t0 /\ forall q, q ∈ protocols t -> q ∈ protocols t0.
Proof.
  induction found as [|one found IH]; intros c ts t Ht; cbn [add_found] in Ht.
  - exists t. by rewrite app_nil_r.
  - destruct (claim c (protocols one)) as [c2 mine] eqn:Ec. destruct (claim_spec _ _ _ _ Ec) as (_ & _ & Hm).
    apply IH in Ht as (t0 & Hin & Hp & Hq). case_bool_decide as Hb.
    + exists t0. split; [set_solver|done].
    + rewrite <- app_assoc, elem_of_app in Hin. cbn [app] in Hin. rewrite elem_of_cons in Hin. destruct Hin as [Hin|[->|Hin]].
      * exists t0. split; [set_solver|done].
      * exists one. split; [set_solver|]. split; [done|]. intros q Hqq. apply Hq in Hqq. cbn in Hqq. by apply Hm in Hqq as [? _].
      * exists t0. split; [set_solver|done].
Qed.

Lemma dedup_spec ls : NoDup (dedup ls) /\ forall l, l ∈ dedup ls <-> l <> [] /\ exists raw, raw ∈ ls /\ l = trim raw.
Proof.
  unfold dedup. destruct (push_all_inv (List.filter (fun l => negb (bool_decide (l = []))) (map trim ls)) ([], ∅) seen_inv_nil) as [[Hn _] Hm].
  split; [done|]. intros l. rewrite Hm. rewrite (list_elem_of_In (List.filter _ _)), filter_In, in_map_iff. cbn [fst]. split.
  - intros [?%not_elem_of_nil|[(raw & <- & Hr) Hb]]; [done|]. apply negb_true_iff, bool_decide_eq_false in Hb. split; [done|].
    exists raw. by rewrite list_elem_of_In.
  - intros [Hne (raw & Hr%list_elem_of_In & ->)]. right. split; [by exists raw|]. by rewrite bool_decide_eq_false_2.
Qed.

(** The shuffle draws an order: nothing is lost and nothing is added. *)
Lemma shuffle_perm {A} pick (l : list A) : shuffle pick l ≡ₚ l.
Proof.
  unfold shuffle. generalize (rev (seq 1 (length l - 1))). intros places. revert l.
  induction places as [|p ps IH]; intros l; cbn [fold_left]; [done|]. by rewrite IH, swap_perm.
Qed.

Lemma ranked_first k names : ranked (wave_rank (Some k)) names -> k ∈ names -> List.head names = Some k.
Proof.
  intros Hr Hk. destruct Hr as [|h t _ Hh]; [by apply not_elem_of_nil in Hk|]. cbn [List.head]. f_equal.
  apply elem_of_cons in Hk as [->|Hk]; [done|]. rewrite List.Forall_forall in Hh. specialize (Hh k). rewrite <- list_elem_of_In in Hh. specialize (Hh Hk).
  unfold wave_rank in Hh. rewrite (bool_decide_eq_true_2 (Some k = Some k)) in Hh by done. pose proof (position_PREFERENCE k).
  case_bool_decide as Hd; [by injection Hd|lia].
Qed.

Lemma wave_served plan name p : served plan -> (exists l, l ∈ plan_lines plan /\ kind_of l = name) -> p = (wave_of plan name).2 ->
  served p /\ plan_lines p <> [] /\ plan_lines p = List.filter (of_kind name) (plan_lines plan) /\
  (forall q, q ∈ spoken (transports p) -> q = name).
Proof.
  intros [Hnd Hsv] (l0 & Hl0 & Hk0) ->. cbn [wave_of snd plan_lines transports]. split; [|split; [|split; [done|]]].
  - split; cbn [plan_lines transports]; [by eapply sublist_NoDup; [|apply spoken_retain]|]. intros l q [Hl Hk]%list_elem_of_In%filter_In Hq.
    apply list_elem_of_In in Hl. apply (spoken_retained (fun p => bool_decide (p = name))). split; [by eapply Hsv|].
    apply bool_decide_eq_true in Hk. unfold kind_of in Hk. rewrite Hq in Hk. by apply bool_decide_eq_true.
  - intros E. assert (l0 ∈ List.filter (fun line => bool_decide (kind_of line = name)) (plan_lines plan)) as Hin.
    { apply list_elem_of_In, filter_In. split; [by apply list_elem_of_In|by apply bool_decide_eq_true]. }
    rewrite E in Hin. by apply not_elem_of_nil in Hin.
  - intros q [_ Hq]%(spoken_retained (fun p => bool_decide (p = name))). by apply bool_decide_eq_true in Hq.
Qed.

(** ** Properties *)

(** Of the bridges of each kind the first six that answered are kept, in their order, or the
    first six of all when none of the kind did; so no kind is lost. *)
Theorem keep_reachable_per_kind (answers : SocketAddr -> bool) (ls : list bytes) :
  let kept := keep_reachable false false answers ls in
  kept `sublist_of` ls /\
  (forall k, List.filter (of_kind k) kept = take 6 (List.filter (eligible (kind_answered answers ls) (alive answers) k) ls)) /\
  (forall l, l ∈ ls -> exists l', l' ∈ kept /\ kind_of l' = kind_of l).
Proof.
  cbn zeta. set (kept := keep_reachable false false answers ls).
  assert (forall k, List.filter (of_kind k) kept = take 6 (List.filter (eligible (kind_answered answers ls) (alive answers) k) ls)) as Hk.
  { intros k. unfold kept, keep_reachable. cbn [orb]. rewrite keep_loop_of_kind by (rewrite lookup_empty; done). by rewrite lookup_empty. }
  split; [apply keep_loop_sublist|]. split; [exact Hk|]. intros l Hl. specialize (Hk (kind_of l)).
  assert (exists l', l' ∈ ls /\ eligible (kind_answered answers ls) (alive answers) (kind_of l) l' = true) as (l' & Hl' & He).
  { unfold eligible. destruct (kind_answered answers ls (kind_of l)) eqn:Ea.
    - unfold kind_answered in Ea. apply existsb_exists in Ea as (l' & Hl'%list_elem_of_In & [H1 H2]%andb_true_iff).
      exists l'. split; [done|]. by rewrite H1, H2.
    - exists l. split; [done|]. unfold of_kind. rewrite bool_decide_eq_true_2 by done. by rewrite orb_true_r. }
  destruct (List.filter (eligible _ _ _) ls) as [|x xs] eqn:Ex.
  { exfalso. assert (l' ∈ List.filter (eligible (kind_answered answers ls) (alive answers) (kind_of l)) ls) as Hin
      by (apply list_elem_of_In, filter_In; split; [by apply list_elem_of_In|done]). rewrite Ex in Hin. by apply not_elem_of_nil in Hin. }
  exists x. assert (x ∈ List.filter (of_kind (kind_of l)) kept) as [Hx Hb]%list_elem_of_In%filter_In by (rewrite Hk; left).
  split; [by apply list_elem_of_In|]. unfold of_kind in Hb. by apply bool_decide_eq_true in Hb.
Qed.

(** A plan keeps, in their order, exactly the lines that need no program or one at hand, has
    a program for each of them and none twice, launches no program for nothing, and lists
    exactly the protocols nothing at hand speaks. *)
Theorem plan_with_is_served lines source extra found : NoDup (spoken extra) ->
  let p := plan_with lines source extra found in
  served p /\ plan_lines p `sublist_of` lines /\
  (forall l, l ∈ plan_lines p <-> l ∈ lines /\ forall q, transport_of l = Some q -> q ∈ spoken extra \/ q ∈ spoken found) /\
  (forall t, t ∈ transports p -> protocols t <> [] /\ (exists t0, t0 ∈ extra ++ found /\ path t = path t0 /\ forall q, q ∈ protocols t -> q ∈ protocols t0)
                                 /\ forall q, q ∈ protocols t -> exists l, l ∈ plan_lines p /\ transport_of l = Some q) /\
  (forall q, q ∈ missing p <-> (exists l, l ∈ lines /\ transport_of l = Some q) /\ q ∉ spoken extra /\ q ∉ spoken found) /\
  sorted_keys (missing p).
Proof.
  intros Hn. cbn zeta. unfold plan_with. fold (spoken extra). destruct (add_found _ extra found) as [claimed ts] eqn:Ea.
  destruct (add_found_spec _ _ _ _ _ Ea eq_refl) as (-> & Hs & Hnd). specialize (Hnd Hn).
  pose proof (fun t => add_found_path found (list_to_set (spoken extra)) extra t) as Hp. rewrite Ea in Hp. cbn [snd] in Hp.
  set (okl := fun line => match transport_of line with None => true | Some p => bool_decide (p ∈ (list_to_set (spoken ts) : gset bytes)) end).
  set (kept := List.filter okl lines). set (used := omap transport_of kept).
  assert (forall l, l ∈ kept <-> l ∈ lines /\ forall q, transport_of l = Some q -> q ∈ spoken ts) as Hk.
  { intros l. unfold kept. rewrite list_elem_of_In, filter_In, <- list_elem_of_In. unfold okl.
    destruct (transport_of l) as [q|]; [|naive_solver]. rewrite bool_decide_eq_true, elem_of_list_to_set. naive_solver. }
  assert (forall q, q ∈ used <-> exists l, l ∈ kept /\ transport_of l = Some q) as Hu by (intros q; unfold used; by rewrite list_elem_of_omap).
  cbn [plan_lines transports missing]. split; [|split; [apply filter_sublist|split; [|split; [|split; [|apply keys_of_sorted]]]]].
  - split; [by eapply sublist_NoDup; [|apply spoken_retain]|]. cbn [plan_lines transports]. intros l q Hl Hq.
    apply (spoken_retained (fun p => bool_decide (p ∈ used))). split; [by apply Hk in Hl as [_ Hl]; apply Hl|]. apply bool_decide_eq_true, Hu. by exists l.
  - intros l. rewrite Hk. by setoid_rewrite Hs.
  - intros t (t0 & Ht & (q & Hq & Hu')%existsb_exists & ->)%elem_of_retain. cbn [protocols path retain_protocols]. split; [|split].
    + intros E. assert (q ∈ List.filter (fun p => bool_decide (p ∈ used)) (protocols t0)) as Hin by (apply list_elem_of_In, filter_In; done).
      rewrite E in Hin. by apply not_elem_of_nil in Hin.
    + apply Hp in Ht as (t1 & H1 & H2 & H3). exists t1. split; [done|]. split; [done|]. intros q' [Hq' _]%list_elem_of_In%filter_In.
      by apply H3, list_elem_of_In.
    + intros q' [_ Hq']%list_elem_of_In%filter_In. apply bool_decide_eq_true in Hq'. by apply Hu.
  - intros q. rewrite elem_of_keys_of, list_elem_of_omap. assert (q ∉ spoken extra /\ q ∉ spoken found <-> q ∉ spoken ts) as -> by (rewrite Hs; tauto). split.
    + intros (l & Hl & El). destruct (transport_of l) as [q'|] eqn:Et; [|done]. cbn in El. case_bool_decide as Hb; [done|]. injection El as ->.
      rewrite elem_of_list_to_set in Hb. split; [by exists l|done].
    + intros [(l & Hl & Et) Hq]. exists l. split; [done|]. rewrite Et. cbn. rewrite bool_decide_eq_false_2; [done|]. by rewrite elem_of_list_to_set.
Qed.

(** The waves are one per kind of bridge and lose no bridge: each holds the bridges of its
    kind and the programs for them, the kind that worked last time first and the others by
    preference.  Bridges of one kind make no waves. *)
Theorem waves_partition plan first : served plan ->
  let ws := waves plan first in
  let kinds := keys_of (map kind_of (plan_lines plan)) in
  (ws = [] <-> (length kinds < 2)%nat) /\
   ((2 <= length kinds)%nat ->
   concat (map (fun w => plan_lines w.2) ws) ≡ₚ plan_lines plan /\ NoDup (map fst ws) /\
   ranked (wave_rank first) (map fst ws) /\
   (forall k, first = Some k -> k ∈ kinds -> List.head (map fst ws) = Some k)) /\
   (forall name p, (name, p) ∈ ws -> served p /\ plan_lines p <> [] /\ plan_lines p = List.filter (of_kind name) (plan_lines plan) /\
   (forall q, q ∈ spoken (transports p) -> q = name)).
Proof.
  intros [Hnd Hsv]. cbn zeta. unfold waves. set (kinds := keys_of _). set (names := sort_by (wave_rank first) kinds).
  assert (names ≡ₚ kinds) as Hp by apply sort_by_perm.
  assert (NoDup names) as Hn by (rewrite Hp; apply keys_of_NoDup).
  assert (forall k, k ∈ names <-> exists l, l ∈ plan_lines plan /\ kind_of l = k) as Hk.
  { intros k. rewrite Hp. unfold kinds. rewrite elem_of_keys_of, list_elem_of_In, in_map_iff. setoid_rewrite list_elem_of_In. naive_solver. }
  assert (map fst (map (wave_of plan) names) = names) as Hfst by (rewrite map_map; apply map_id).
  split; [|split].
  - destruct (Nat.ltb_spec (length kinds) 2); [done|]. split; [|lia]. intros E. apply (f_equal length) in E. rewrite length_map, Hp in E. cbn in E. lia.
  - intros Hl. destruct (Nat.ltb_spec (length kinds) 2); [lia|]. rewrite Hfst. split; [|split; [done|split; [apply sort_by_ranked|]]].
    + rewrite map_map. cbn [wave_of snd plan_lines]. apply kinds_cover; [done|]. intros l Hll. apply Hk. by exists l.
    + intros k -> Hkk. rewrite <- Hp in Hkk. apply ranked_first; [apply sort_by_ranked|done].
  - intros name p Hin. destruct (Nat.ltb_spec (length kinds) 2); [exfalso; by apply not_elem_of_nil in Hin|].
    apply list_elem_of_In, in_map_iff in Hin as (k & E & Hkn%list_elem_of_In). assert (k = name) as -> by exact (f_equal fst E). apply (f_equal snd) in E. cbn [snd] in E.
    by apply wave_served; [|apply Hk|].
Qed.

(** What a fetch gives is one of four things: a cache younger than six hours, what the
    services gave, each line once and without spaces around it, and then written as the new
    cache, or, when they gave nothing, the old cache or the lines of the program; so it is
    never empty when the program holds lines, and a policy of relays only shows none of what
    bridgedb said. *)
Theorem fetch_gives_bridges embedded cached now client_ok relays settings builtin relayed ls src written :
  embedded <> [] -> (forall c, cached = Some c -> cached_lines c <> []) ->
  fetch embedded cached now client_ok relays settings builtin relayed = (ls, src, written) ->
  ls <> [] /\
  (forall c, cached = Some c -> saturating_sub now (fetched c) < CACHE_MAX_AGE -> ls = cached_lines c /\ written = None) /\
  match written with
  | Some c => c = mkCached now ls /\ NoDup ls /\ client_ok = true /\ forall l, l ∈ ls -> exists raw, l = trim raw /\
      ((raw ∈ default [] settings ++ default [] builtin /\ match relays with Only _ => False | _ => True end) \/
       (raw ∈ default [] relayed /\ relays <> Off))
  | None => ls = match cached with Some c => cached_lines c | None => embedded end
  end.
Proof.
  intros He Hc. unfold fetch.
  assert (forall fb, fallback embedded cached = fb -> fb.1 <> [] /\ fb.1 = match cached with Some c => cached_lines c | None => embedded end) as Hf.
  { intros fb <-. unfold fallback. destruct cached as [c|]; [|done]. split; [by apply Hc|done]. }
  destruct (c ← cached; if saturating_sub now (fetched c) <? CACHE_MAX_AGE then Some c else None) as [c|] eqn:Ec.
  { destruct cached as [c0|]; [|done]. cbn in Ec. destruct (_ <? _) eqn:El; [|done]. injection Ec as ->. intros E. simplify_eq.
    split; [by apply Hc|]. split; [|done]. intros c' Hc' _. by simplify_eq. }
  assert (forall c, cached = Some c -> ~ saturating_sub now (fetched c) < CACHE_MAX_AGE) as Hold.
  { intros c ->. cbn in Ec. destruct (_ <? _) eqn:El; [done|]. zbool. lia. }
  destruct (fallback embedded cached) as [fl fs] eqn:Ef. destruct (Hf _ eq_refl) as [Hf1 Hf2]. cbn [fst] in Hf1, Hf2.
  destruct client_ok; cbn [negb]; [|intros E; simplify_eq; split; [done|]; split; [|done]; intros c Hcc Hlt; by destruct (Hold c Hcc)].
  set (asked := match relays with Only _ => [] | _ => default [] settings ++ default [] builtin end).
  set (gathered := match relays, relayed with Off, _ | _, None => (asked, match relays with Only _ => lit "onionoo relays" | _ => lit "bridgedb" end)
    | _, Some found => (asked ++ found, if bool_decide (asked = []) then lit "onionoo relays" else lit "bridgedb and onionoo relays") end).
  assert (forall raw, raw ∈ gathered.1 -> (raw ∈ default [] settings ++ default [] builtin /\ match relays with Only _ => False | _ => True end) \/
    (raw ∈ default [] relayed /\ relays <> Off)) as Hg.
  { intros raw. unfold gathered, asked. destruct relays, relayed; cbn [fst default from_option id]; set_solver. }
  destruct gathered as [all source]. cbn [fst] in Hg. destruct (dedup_spec all) as [Hn Hd]. case_bool_decide as Hb; intros E; simplify_eq.
  - split; [done|]. split; [|done]. intros c Hcc Hlt. by destruct (Hold c Hcc).
  - split; [done|]. split; [intros c Hcc Hlt; by destruct (Hold c Hcc)|]. split; [done|]. split; [done|]. split; [done|].
    intros l [_ (raw & Hr & ->)]%Hd. exists raw. split; [done|]. by apply Hg.
Qed.

(** ** Witnesses *)

Definition some_lines : list bytes :=
  [lit "obfs4 192.0.2.1:443 AB cert=x"; lit "Bridge snowflake 192.0.2.3:80 2B"; lit "192.0.2.5:443 CD"; lit "meek_lite 192.0.2.9:80 EF"].
Definition some_extra : list Transport := [mkTransport [lit "snowflake"; lit "obfs4"] (lit "/opt/pt")].
Definition some_found : list Transport := [mkTransport [lit "obfs4"; lit "webtunnel"] (lit "/usr/bin/lyrebird")].
Definition some_plan : Plan := plan_with some_lines (lit "bridgedb") some_extra some_found.

Lemma keep_reachable_per_kind_witness :
  keep_reachable false false (fun a => bool_decide (sa_port a = 80)) some_lines = some_lines
  /\ keep_reachable false false (fun a => bool_decide (sa_port a = 80)) some_lines `sublist_of` some_lines.
Proof. split; [vm_compute; reflexivity|]. exact (proj1 (keep_reachable_per_kind (fun a => bool_decide (sa_port a = 80)) some_lines)). Defined.

Lemma some_extra_NoDup : NoDup (spoken some_extra).
Proof. apply (bool_decide_unpack _). vm_compute. exact I. Qed.

Lemma plan_with_is_served_witness :
  length (plan_lines some_plan) = 3%nat /\ missing some_plan = [lit "meek_lite"]
  /\ transports some_plan = some_extra /\ served some_plan.
Proof.
  split; [vm_compute; reflexivity|]. split; [vm_compute; reflexivity|]. split; [vm_compute; reflexivity|].
  exact (proj1 (plan_with_is_served some_lines (lit "bridgedb") some_extra some_found some_extra_NoDup)).
Defined.

Definition plain_plan : Plan :=
  mkPlan [lit "obfs4 192.0.2.1:443 AB"; lit "192.0.2.5:443 CD"] [mkTransport [lit "obfs4"] (lit "/opt/pt")] [] (lit "cache").

Lemma plain_plan_served : served plain_plan.
Proof.
  split; [apply (bool_decide_unpack _); vm_compute; exact I|]. intros l q Hl Hq. unfold plain_plan in Hl. cbn [plan_lines] in Hl.
  apply elem_of_cons in Hl as [->|Hl].
  - vm_compute in Hq. injection Hq as <-. cbn. by left.
  - apply list_elem_of_singleton in Hl as ->. vm_compute in Hq. done.
Qed.

Lemma waves_partition_witness :
  map fst (waves plain_plan None) = [lit "obfs4"; lit "vanilla"] /\ map fst (waves plain_plan (Some (lit "vanilla"))) = [lit "vanilla"; lit "obfs4"]
  /\ (waves plain_plan (Some (lit "vanilla")) = [] <-> (length (keys_of (map kind_of (plan_lines plain_plan))) < 2)%nat).
Proof.
  split; [vm_compute; reflexivity|]. split; [vm_compute; reflexivity|].
  exact (proj1 (waves_partition plain_plan (Some (lit "vanilla")) plain_plan_served)).
Defined.

Lemma fetch_gives_bridges_witness :
  let got := fetch [lit "built"] (Some (mkCached 0 [lit "old"])) 30000 true (Also 40) (Some [lit " a "; lit "b"]) None (Some [lit "b"]) in
  got = ([lit "a"; lit "b"], lit "bridgedb and onionoo relays", Some (mkCached 30000 [lit "a"; lit "b"])) /\ got.1.1 <> [].
Proof.
  assert (fetch [lit "built"] (Some (mkCached 0 [lit "old"])) 30000 true (Also 40) (Some [lit " a "; lit "b"]) None (Some [lit "b"])
    = ([lit "a"; lit "b"], lit "bridgedb and onionoo relays", Some (mkCached 30000 [lit "a"; lit "b"]))) as E by (vm_compute; reflexivity).
  cbn zeta. rewrite E. split; [reflexivity|].
  refine (proj1 (fetch_gives_bridges _ _ _ _ _ _ _ _ _ _ _ _ _ E)); [discriminate|]. intros c [= <-]. discriminate.
Defined.

End Bridges.
