(* ===== verification/Provision.v ===== *)
(** * Identities of the device: loaded, registered, saved ([lib.rs], the two-hop modes of [account.rs])

    What the core does to have an identity: it loads the file at a path, brings its
    profile up to date, replaces an identity that Cloudflare refuses, registers a new
    one where there is none, enables WARP on it and saves it.  The calls to the API and
    the disk answer by an environment; what was asked is a log, the newest first, whose
    length numbers the calls.  A state monad carries the files, the log and the device
    of gool that is registered but not enabled. *)

From stdpp Require Import gmap.
From S2P Require Import Prelude Str Ip Text Error Config Account Session.
Local Open Scope Z_scope.

Module Provision.
Import Error Config Account.

(** ** The monad *)

Inductive Act :=
| Loaded (path device : bytes)
| AskedToken
| Register (device : option bytes)
| Fetch (device : bytes)
| Enroll (device : bytes)
| Enable (device : bytes) (done_ : bool)
| Saved (path device : bytes)
| SetGateway (proxy : bytes)
| SetTeamEndpoint (peer : bytes).

Record State := mkState { files : Fs; acts : list Act; not_enabled : option Identity }.

Definition M (A : Type) : Type := State -> res AetherError A * State.
#[export] Instance M_ret : MRet M := fun A a s => (Ok a, s).
#[export] Instance M_bind : MBind M := fun A B f m s =>
  match m s with
  | (Ok a, s) => f a s
  | (Err e, s) => (Err e, s)
  | (Panic, s) => (Panic, s)
  end.
Definition log (a : Act) (s : State) : State := mkState (files s) (a :: acts s) (not_enabled s).

(** What answers: the calls of the API by their number, the clock, the key generator, and
    the disk. *)
Record World := mkWorld {
  w_token : nat -> res AetherError bytes;
  w_register : nat -> res AetherError AccountData;
  w_private : nat -> bytes;
  w_fetch : nat -> bytes -> res AetherError AccountData;
  w_enroll : nat -> bytes -> res AetherError AccountData;
  w_enable : nat -> bytes -> res AetherError unit;
  (** A key pair that cannot be made is an error of the TLS library. *)
  w_keypair : nat -> bytes + bytes * bytes;
  w_now : nat -> Z;
  w_now_after : nat -> Z;
  w_read : nat -> option bytes;
  w_rename : nat -> bool;
  w_disk : nat -> Disk;
  w_pid : Z;
}.

Section provision.
Context `{b64 : Base64Crate} `{toml : TomlIdentity}.
Variable w : World.
Variable env : bytes -> option bytes.
(** [team_scope()] *)
Variable team : option bytes.

Definition load_file (path : bytes) : M (option Identity) := fun s =>
  let n := length (acts s) in
  let '(fs, r) := load (w_read w n) (w_rename w n) (files s) path in
  let s := mkState fs (acts s) (not_enabled s) in
  (r, match r with Ok (Some identity) => log (Loaded path (device_id identity)) s | _ => s end).

Definition save_file (path : bytes) (identity : Identity) : M unit := fun s =>
  let '(states, r) := save (w_disk w (length (acts s))) (w_pid w) (files s) path identity in
  let s := mkState (default (files s) (head states)) (acts s) (not_enabled s) in
  (r, match r with Ok _ => log (Saved path (device_id identity)) s | _ => s end).

(** ** The account *)

Definition ask_token : M bytes := fun s => (w_token w (length (acts s)), log AskedToken s).

(** [register] and [register_with_team], with [finish_provision]; the device that is
    registered, if the answer makes one, is what the log keeps who it. *)
Definition register_device : M Identity := fun s =>
  let n := length (acts s) in
  let r := reg ← w_register w n; finish_provision reg (w_private w n) in
  (r, log (Register match r with Ok identity => Some (device_id identity) | _ => None end) s).

Definition provision_wg : M Identity := register_device.
Definition provision_team : M Identity := _ ← ask_token; register_device.

Definition fetch_profile (identity : Identity) : M Identity := fun s =>
  (Ok (refresh_profile identity (w_fetch w (length (acts s)) (device_id identity))), log (Fetch (device_id identity)) s).

Definition provision_account : M Identity :=
  match team with
  | Some _ => identity ← provision_team; fetch_profile identity
  | None => provision_wg
  end.

Definition endpoint_port : Z :=
  match env (lit "AETHER_PROTOCOL") with
  | Some value => if bool_decide (value = lit "wg") || bool_decide (value = lit "gool") then 2408 else 443
  | None => 443
  end.

(** What the profile of a team sets for the rest of the core. *)
Definition publish_profile (identity : Identity) : M unit := fun s =>
  let s := if negb (bool_decide (gateway_proxy identity = [])) && bool_decide (is_Some (env (lit "AETHER_GATEWAY")))
           then log (SetGateway (gateway_proxy identity)) s else s in
  let peer := assigned_endpoint identity ++ lit ":" ++ dec endpoint_port in
  let s := if negb (bool_decide (assigned_endpoint identity = [])) && bool_decide (env (lit "AETHER_PEER") = None)
              && bool_decide (is_Some (parse_socket_addr peer))
           then log (SetTeamEndpoint peer) s else s in
  (Ok tt, s).

Definition adopt_team_profile (identity : Identity) : M Identity :=
  match team with
  | None => mret identity
  | Some _ => identity ← fetch_profile identity; _ ← publish_profile identity; mret identity
  end.

Definition enable_warp_on (identity : Identity) : M unit := fun s =>
  let r := w_enable w (length (acts s)) (device_id identity) in
  (r, log (Enable (device_id identity) (match r with Ok _ => true | _ => false end)) s).

Definition generate_masque_keypair (n : nat) : res AetherError (bytes * bytes) :=
  match w_keypair w n with inl e => Err (Tls e) | inr keys => Ok keys end.

(** [ensure_masque_enrolled], with the identity it is for. *)
Definition enroll (identity : Identity) : M MasqueEnrollment := fun s =>
  let n := length (acts s) in
  (ensure_masque_enrolled (w_now w n) (w_now_after w n) identity (generate_masque_keypair n) (w_enroll w n (device_id identity)),
   log (Enroll (device_id identity)) s).

(** [Identity { cert_pem, key_pem, cert_issued_at, ..identity }] *)
Definition with_certificate (e : MasqueEnrollment) (i : Identity) : Identity :=
  mkIdentity (device_id i) (access_token i) (e_cert_pem e) (e_key_pem e) (issued_at e) (ipv4 i) (ipv6 i)
    (wg_private_key i) (wg_peer_public_key i) (client_id i) (organization i) (gateway_proxy i) (assigned_endpoint i) (refused i).
Definition refuse (i : Identity) : Identity :=
  mkIdentity (device_id i) (access_token i) (cert_pem i) (key_pem i) (cert_issued_at i) (ipv4 i) (ipv6 i)
    (wg_private_key i) (wg_peer_public_key i) (client_id i) (organization i) (gateway_proxy i) (assigned_endpoint i) true.

(** ** The identities *)

(** The part of [load_or_provision_warp] and [load_or_provision_masque] that registers. *)
Definition fresh_warp (path : bytes) : M Identity :=
  identity ← provision_account;
  identity ← adopt_team_profile identity;
  _ ← enable_warp_on identity;
  _ ← save_file path identity;
  mret identity.

Definition load_or_provision_warp (path : bytes) : M Identity :=
  found ← load_file path;
  match found with
  | None => fresh_warp path
  | Some identity =>
      identity ← adopt_team_profile identity;
      if negb (refused identity) then _ ← save_file path identity; mret identity
      else if negb (Session.keep_saved_identity env) then mret identity
      else fresh_warp path
  end.

Definition fresh_masque (path : bytes) : M Identity :=
  identity ← provision_account;
  enrollment ← enroll identity;
  identity ← adopt_team_profile (with_certificate enrollment identity);
  _ ← enable_warp_on identity;
  _ ← save_file path identity;
  mret identity.

(** What is found out about a saved MASQUE identity: it serves, or it was refused. *)
Definition keep_or_refuse (path : bytes) (identity : Identity) : M (Identity + Identity) :=
  identity ← adopt_team_profile identity;
  if negb (refused identity) then _ ← save_file path identity; mret (inl identity) else mret (inr identity).
Definition keep_enrolled (path : bytes) (identity : Identity) : M (Identity + Identity) :=
  _ ← save_file path identity; mret (inl identity).

Definition check_masque (path : bytes) (identity : Identity) : M (Identity + Identity) := fun s =>
  if has_masque_credentials (w_now w (length (acts s))) identity then keep_or_refuse path identity s
  else
    match enroll identity s with
    | (Ok enrollment, s) => keep_enrolled path (with_certificate enrollment identity) s
    | (Err (IdentityRefused _), s) => (Ok (inr (refuse identity)), s)
    | (Err e, s) => (Err e, s)
    | (Panic, s) => (Panic, s)
    end.

Definition load_or_provision_masque (path : bytes) : M Identity :=
  found ← load_file path;
  match found with
  | None => fresh_masque path
  | Some identity =>
      checked_ ← check_masque path identity;
      match checked_ with
      | inl identity => mret identity
      | inr refused_ => if negb (Session.keep_saved_identity env) then mret refused_ else fresh_masque path
      end
  end.

Definition worth_enabling_again (e : AetherError) : bool := match e with IdentityRefused _ => false | _ => true end.

(** [GOOL_NOT_ENABLED.take()], and the device it held or a new one. *)
Definition kept_or_registered : M Identity := fun s =>
  let s' := mkState (files s) (acts s) None in
  match not_enabled s with Some identity => (Ok identity, s') | None => provision_wg s' end.

Definition enable_and_save (path : bytes) (registered : Identity) : M Identity := fun s =>
  match enable_warp_on registered s with
  | (Ok _, s) => (_ ← save_file path registered; mret registered) s
  | (Err error, s) =>
      (Err error, if worth_enabling_again error then mkState (files s) (acts s) (Some registered) else s)
  | (Panic, s) => (Panic, s)
  end.

Definition provision_gool (path : bytes) : M Identity := registered ← kept_or_registered; enable_and_save path registered.

(** [load_or_provision_gool], and [gool_inner_identity], which goes through the tunnel. *)
Definition load_or_provision_gool (path : bytes) : M Identity :=
  found ← load_file path;
  match found with Some identity => mret identity | None => provision_gool path end.

(** ** [--register] *)

Inductive Provision := Warp | Masque | Gool.

(** The identities of [register_identities], at the paths of the settings. *)
Definition identities (wanted : Session.RegisterSet) (base : bytes) : list (bool * bytes * bytes * Provision) :=
  let wireguard := Session.warp_config_path env team base in
  let masque := Session.masque_config_path env team base in
  [ (Session.wireguard wanted, lit "wireguard", wireguard, Warp);
    (Session.wireguard_inner wanted, lit "wireguard inner", Session.derive_sibling_path wireguard (lit "secondary"), Warp);
    (Session.masque wanted, lit "masque", masque, Masque);
    (Session.masque_inner wanted, lit "masque inner", Session.derive_sibling_path masque (lit "secondary"), Masque);
    (Session.gool wanted, lit "gool", Session.gool_identity_path masque, Gool) ].

Definition load_or_provision (provision : Provision) (path : bytes) : M Identity :=
  match provision with
  | Warp => load_or_provision_warp path
  | Masque => load_or_provision_masque path
  | Gool => load_or_provision_gool path
  end.

Fixpoint make_ready (l : list (bool * bytes * bytes * Provision)) : M (list bytes) :=
  match l with
  | [] => mret []
  | (asked, label, path, provision) :: l =>
      if negb asked then make_ready l
      else
        _ ← load_or_provision provision path;
        ready ← make_ready l;
        mret (label :: ready)
  end.

(** [register_identities], once its carrier runs, with the labels of the last line it logs. *)
Definition register_identities (wanted : Session.RegisterSet) (base : bytes) : M (list bytes) :=
  make_ready (identities wanted base).

End provision.

(** ** Triples

    [I] is kept by every entry of the log; a condition on the log that holds once holds
    from then on, since a log only grows. *)

Definition triple {A} (I : list Act -> Prop) (P : list Act -> Prop) (m : M A) (Q : A -> list Act -> Prop) : Prop :=
  forall s, I (acts s) -> P (acts s) ->
  I (acts (m s).2) /\ (exists new, acts (m s).2 = new ++ acts s) /\ forall a, (m s).1 = Ok a -> Q a (acts (m s).2).

Definition logged (a : Act) (l : list Act) : Prop := a ∈ l.
Definition always (_ : list Act) : Prop := True.

Section triples.
Context (I : list Act -> Prop).

Lemma triple_ret {A} (a : A) (P : list Act -> Prop) Q : (forall l, P l -> Q a l) -> triple I P (mret a) Q.
Proof. intros H s Hi Hp. split; [done|]. split; [by exists []|]. intros b [= <-]. by apply H. Qed.

Lemma triple_bind {A B} (m : M A) (f : A -> M B) P Q R :
  triple I P m Q -> (forall a, triple I (Q a) (f a) R) -> triple I P (m ≫= f) R.
Proof.
  intros Hm Hf s Hi Hp. destruct (Hm s Hi Hp) as (Hi1 & (n1 & Hn1) & HQ). unfold mbind, M_bind. destruct (m s) as [[a|e|] s1]; cbn [fst snd] in *.
  - destruct (Hf a s1 Hi1 (HQ a eq_refl)) as (Hi2 & (n2 & Hn2) & HR). split; [done|]. split; [|done]. exists (n2 ++ n1). by rewrite <- app_assoc, <- Hn1.
  - split; [done|]. split; [by exists n1|]. done.
  - split; [done|]. split; [by exists n1|]. done.
Qed.

Lemma triple_weaken {A} (m : M A) (P P' : list Act -> Prop) (Q Q' : A -> list Act -> Prop) :
  triple I P m Q -> (forall l, P' l -> P l) -> (forall a l, Q a l -> Q' a l) -> triple I P' m Q'.
Proof. intros H HP HQ s Hi Hp. destruct (H s Hi (HP _ Hp)) as (H1 & H2 & H3). split; [done|]. split; [done|]. intros a Ha. by apply HQ, H3. Qed.

(** What was logged stays logged; a fact about the inputs does too. *)
Lemma triple_frame {A} (m : M A) P Q a :
  triple I P m Q -> triple I (fun l => P l /\ logged a l) m (fun x l => Q x l /\ logged a l).
Proof.
  intros H s Hi [Hp Ha]. destruct (H s Hi Hp) as (H1 & (n & Hn) & H3). split; [done|]. split; [by exists n|].
  intros x Hx. split; [by apply H3|]. rewrite Hn. unfold logged in *. set_solver.
Qed.

Lemma triple_pure {A} (b : Prop) (m : M A) P Q : (b -> triple I P m Q) -> triple I (fun l => b /\ P l) m Q.
Proof. intros H s Hi [Hb Hp]. by apply H. Qed.

(** An operation that adds entries which [I] allows. *)
Lemma triple_op {A} (m : M A) (P : list Act -> Prop) (Q : A -> list Act -> Prop) :
  (forall s, P (acts s) -> exists new, acts (m s).2 = new ++ acts s /\ (I (acts s) -> I (new ++ acts s)) /\
     forall a, (m s).1 = Ok a -> Q a (new ++ acts s)) -> triple I P m Q.
Proof.
  intros H s Hi Hp. destruct (H s Hp) as (new & Hn & H1 & H2). rewrite Hn. split; [by apply H1|]. split; [by exists new|done].
Qed.
End triples.

(** An identity of one device: what registration gave it never changes. *)
Definition same_device (i j : Identity) : Prop :=
  device_id j = device_id i /\ access_token j = access_token i /\ wg_private_key j = wg_private_key i /\
  wg_peer_public_key j = wg_peer_public_key i /\ client_id j = client_id i.

#[export] Instance same_device_equiv : Equivalence same_device.
Proof. split; unfold same_device; [by intros i|intros i j; naive_solver|intros i j k; intuition congruence]. Qed.

Lemma refresh_same_device i fetched : same_device i (refresh_profile i fetched).
Proof. unfold refresh_profile, same_device. destruct fetched as [reg|[]|]; done. Qed.
Lemma with_certificate_same_device e i : same_device i (with_certificate e i).
Proof. done. Qed.

Section runs.
Context `{b64 : Base64Crate} `{toml : TomlIdentity}.
Context (w : World) (env : bytes -> option bytes) (team : option bytes).
Context (I : list Act -> Prop).
(** The entries that [I] allows whatever the log holds. *)
Context (harmless : Act -> bool) (I_harmless : forall a l, harmless a = true -> I l -> I (a :: l)).
Context (harmless_all : forall a, match a with Register _ | Saved _ _ => True | _ => harmless a = true end).

Lemma load_file_ok path : triple I always (load_file w path) (fun found l => forall i, found = Some i -> logged (Loaded path (device_id i)) l).
Proof.
  apply triple_op. intros s _. unfold load_file. destruct (load _ _ _ _) as [fs [[i|]|e|]]; cbn [fst snd acts log].
  - exists [Loaded path (device_id i)]. split; [done|]. split; [intros Hi; apply I_harmless; [apply (harmless_all (Loaded _ _))|done]|].
    intros a [= <-] j [= <-]. unfold logged. left.
  - exists []. split; [done|]. split; [done|]. by intros a [= <-].
  - by exists [].
  - by exists [].
Qed.

Lemma fetch_profile_ok i : triple I always (fetch_profile w i) (fun j l => same_device i j /\ always l).
Proof.
  apply triple_op. intros s _. unfold fetch_profile. exists [Fetch (device_id i)]. cbn [fst snd acts log]. split; [done|].
  split; [intros Hi; apply I_harmless; [apply (harmless_all (Fetch _))|done]|]. intros a [= <-]. split; [apply refresh_same_device|done].
Qed.

Lemma publish_profile_ok i : triple I always (publish_profile env i) (fun _ => always).
Proof.
  apply triple_op. intros s _. unfold publish_profile. set (peer := assigned_endpoint i ++ _). cbn zeta.
  repeat match goal with |- context [if ?b then log _ _ else _] => destruct b end; cbn [snd fst acts log].
  - exists [SetTeamEndpoint peer; SetGateway (gateway_proxy i)]. split; [done|]. split; [|done]. intros Hi.
    apply I_harmless; [apply (harmless_all (SetTeamEndpoint _))|]. apply I_harmless; [apply (harmless_all (SetGateway _))|done].
  - exists [SetTeamEndpoint peer]. split; [done|]. split; [|done]. intros Hi. apply I_harmless; [apply (harmless_all (SetTeamEndpoint _))|done].
  - exists [SetGateway (gateway_proxy i)]. split; [done|]. split; [|done]. intros Hi. apply I_harmless; [apply (harmless_all (SetGateway _))|done].
  - by exists [].
Qed.

Lemma adopt_ok i : triple I always (adopt_team_profile w env team i) (fun j l => same_device i j /\ always l).
Proof.
  unfold adopt_team_profile. destruct team as [t|]; [|apply triple_ret; intros l Hl; split; [reflexivity|exact Hl]].
  eapply triple_bind; [apply fetch_profile_ok|]. intros j. apply triple_pure. intros Hj.
  eapply triple_bind; [apply publish_profile_ok|]. intros []. apply triple_ret. intros l _. by split.
Qed.

Lemma enable_ok i : triple I always (enable_warp_on w i) (fun _ l => logged (Enable (device_id i) true) l).
Proof.
  apply triple_op. intros s _. unfold enable_warp_on. cbn [fst snd acts log].
  exists [Enable (device_id i) (match w_enable w (length (acts s)) (device_id i) with Ok _ => true | _ => false end)]. split; [done|].
  split; [intros Hi; apply I_harmless; [apply (harmless_all (Enable _ _))|done]|]. intros a ->. unfold logged. left.
Qed.

Lemma enroll_ok i : triple I always (enroll w i) (fun _ => always).
Proof.
  apply triple_op. intros s _. unfold enroll. exists [Enroll (device_id i)]. split; [done|].
  split; [intros Hi; apply I_harmless; [apply (harmless_all (Enroll _))|done]|done].
Qed.
End runs.

(** ** Saved only when enabled *)

(** Every device saved at a path was loaded from it, or had WARP enabled before. *)
Definition saved_ok (l : list Act) : Prop :=
  forall after p d before, l = after ++ Saved p d :: before -> logged (Loaded p d) before \/ logged (Enable d true) before.

Definition not_saved (a : Act) : bool := match a with Saved _ _ => false | _ => true end.

Lemma saved_ok_cons a l : (forall p d, a = Saved p d -> logged (Loaded p d) l \/ logged (Enable d true) l) -> saved_ok l -> saved_ok (a :: l).
Proof. intros Ha Hl [|b after] p d before [= -> ->]; [by apply Ha|by eapply Hl]. Qed.

Lemma not_saved_ok a l : not_saved a = true -> saved_ok l -> saved_ok (a :: l).
Proof. intros Ha. apply saved_ok_cons. by intros p d ->. Qed.
Lemma not_saved_all a : match a with Register _ | Saved _ _ => True | _ => not_saved a = true end.
Proof. by destruct a. Qed.

Section saved.
Context `{b64 : Base64Crate} `{toml : TomlIdentity}.
Context (w : World) (env : bytes -> option bytes) (team : option bytes).

Notation "{{ P }} m {{ Q }}" := (triple saved_ok P m Q) (at level 20, m at level 100).
Let may_save (path : bytes) (i : Identity) (l : list Act) : Prop := logged (Loaded path (device_id i)) l \/ logged (Enable (device_id i) true) l.

Lemma save_file_ok path i : {{ may_save path i }} save_file w path i {{ fun _ => always }}.
Proof.
  apply triple_op. intros s Hs. unfold save_file. destruct (save _ _ _ _ _) as [states [u|e|]]; cbn [fst snd acts log].
  - exists [Saved path (device_id i)]. split; [done|]. split; [|done]. intros Hi. apply saved_ok_cons; [|done]. by intros p d [= <- <-].
  - by exists [].
  - by exists [].
Qed.

(** Saving an identity and giving it back. *)
Lemma save_and_return {A} path i (a : A) : {{ may_save path i }} (_ ← save_file w path i; mret a) {{ fun _ => always }}.
Proof. eapply triple_bind; [apply save_file_ok|]. intros u. by apply triple_ret. Qed.

Lemma register_ok : {{ always }} register_device w {{ fun _ => always }}.
Proof.
  apply triple_op. intros s _. unfold register_device. eexists [_]. split; [done|]. split; [|done]. by apply not_saved_ok.
Qed.

Lemma provision_account_ok : {{ always }} provision_account w team {{ fun _ => always }}.
Proof.
  unfold provision_account, provision_wg. destruct team as [t|]; [|apply register_ok]. unfold provision_team.
  eapply triple_bind.
  - eapply (triple_bind _ _ _ _ (fun _ => always)); [|intros tok; apply register_ok].
    apply triple_op. intros s _. exists [AskedToken]. split; [done|]. split; [|done]. by apply not_saved_ok.
  - intros i. eapply triple_weaken; [eapply (fetch_profile_ok w saved_ok not_saved not_saved_ok not_saved_all)|done|done].
Qed.

Lemma enable_then_save path i : {{ always }} (_ ← enable_warp_on w i; _ ← save_file w path i; mret i) {{ fun _ => always }}.
Proof.
  eapply triple_bind; [apply (enable_ok w saved_ok not_saved not_saved_ok not_saved_all)|]. intros u.
  eapply triple_weaken; [apply save_and_return| |done]. intros l Hl. by right.
Qed.

Lemma adopt_enable_save path i :
  {{ always }} (i ← adopt_team_profile w env team i; _ ← enable_warp_on w i; _ ← save_file w path i; mret i) {{ fun _ => always }}.
Proof.
  eapply triple_bind; [apply (adopt_ok w env team saved_ok not_saved not_saved_ok not_saved_all)|]. intros j.
  eapply triple_weaken; [apply enable_then_save|done|done].
Qed.

Lemma fresh_warp_ok path : {{ always }} fresh_warp w env team path {{ fun _ => always }}.
Proof. unfold fresh_warp. eapply triple_bind; [apply provision_account_ok|]. intros i. apply adopt_enable_save. Qed.

Lemma fresh_masque_ok path : {{ always }} fresh_masque w env team path {{ fun _ => always }}.
Proof.
  unfold fresh_masque. eapply triple_bind; [apply provision_account_ok|]. intros i.
  eapply triple_bind; [apply (enroll_ok w saved_ok not_saved not_saved_ok not_saved_all)|]. intros e. apply adopt_enable_save.
Qed.

(** A loaded identity, brought up to date, may be saved again. *)
Lemma adopt_loaded_ok path i :
  {{ logged (Loaded path (device_id i)) }} adopt_team_profile w env team i {{ fun j l => same_device i j /\ may_save path j l }}.
Proof.
  eapply triple_weaken.
  - apply (triple_frame _ _ always (fun j l => same_device i j /\ always l) (Loaded path (device_id i))).
    apply (adopt_ok w env team saved_ok not_saved not_saved_ok not_saved_all).
  - intros l Hl. by split.
  - intros j l [[Hj _] Hl]. split; [done|]. left. destruct Hj as [-> _]. done.
Qed.

Lemma load_ok path :
  {{ always }} load_file w path {{ fun found l => match found with Some i => logged (Loaded path (device_id i)) l | None => True end }}.
Proof.
  eapply triple_weaken; [apply (load_file_ok w saved_ok not_saved not_saved_ok not_saved_all)|done|].
  intros [i|] l Hl; [by apply Hl|done].
Qed.

Lemma warp_ok path : {{ always }} load_or_provision_warp w env team path {{ fun _ => always }}.
Proof.
  unfold load_or_provision_warp. eapply triple_bind; [apply load_ok|]. intros [i|]; [|eapply triple_weaken; [apply fresh_warp_ok|done|done]].
  eapply triple_bind; [apply adopt_loaded_ok|]. intros j. apply triple_pure. intros _.
  destruct (refused j); cbn [negb]; [|apply save_and_return]. destruct (Session.keep_saved_identity env); cbn [negb].
  - eapply triple_weaken; [apply fresh_warp_ok|done|done].
  - by apply triple_ret.
Qed.

Lemma check_masque_ok path i : {{ logged (Loaded path (device_id i)) }} check_masque w env team path i {{ fun _ => always }}.
Proof.
  intros s Hi Hp. unfold check_masque. destruct (has_masque_credentials _ i).
  - revert s Hi Hp. change ({{ logged (Loaded path (device_id i)) }} keep_or_refuse w env team path i {{ fun _ => always }}).
    unfold keep_or_refuse. eapply triple_bind; [apply adopt_loaded_ok|]. intros j. apply triple_pure. intros _.
    destruct (refused j); cbn [negb]; [by apply triple_ret|apply save_and_return].
  - pose proof (triple_frame _ _ always (fun _ => always) (Loaded path (device_id i)) (enroll_ok w saved_ok not_saved not_saved_ok not_saved_all i) s Hi (conj I Hp)) as (H1 & (n & Hn) & H2).
    destruct (enroll w i s) as [[e|[]|] s1]; cbn [fst snd] in *; try (split; [done|split; [by exists n|done]]).
    destruct (save_and_return path (with_certificate e i) (inl (with_certificate e i) : Identity + Identity) s1 H1) as (H3 & (n2 & Hn2) & H4).
    { left. by apply (H2 e). }
    unfold keep_enrolled. split; [done|]. split; [|done]. exists (n2 ++ n). by rewrite <- app_assoc, <- Hn.
Qed.

Lemma masque_ok path : {{ always }} load_or_provision_masque w env team path {{ fun _ => always }}.
Proof.
  unfold load_or_provision_masque. eapply triple_bind; [apply load_ok|]. intros [i|]; [|eapply triple_weaken; [apply fresh_masque_ok|done|done]].
  eapply triple_bind; [apply check_masque_ok|]. intros [j|j]; [by apply triple_ret|].
  destruct (Session.keep_saved_identity env); cbn [negb]; [apply fresh_masque_ok|by apply triple_ret].
Qed.

Lemma provision_gool_ok path : {{ always }} provision_gool w path {{ fun _ => always }}.
Proof.
  unfold provision_gool. eapply (triple_bind _ _ _ _ (fun _ => always)).
  - intros s Hi Hp. unfold kept_or_registered. destruct (not_enabled s) as [i|]; [split; [done|]; split; [by exists []|done]|].
    apply (register_ok (mkState (files s) (acts s) None)); done.
  - intros i s Hi Hp. unfold enable_and_save.
    destruct (enable_ok w saved_ok not_saved not_saved_ok not_saved_all i s Hi Hp) as (H1 & (n & Hn) & H2).
    destruct (enable_warp_on w i s) as [[u|e|] s1]; cbn [fst snd] in *.
    + destruct (save_and_return path i i s1 H1) as (H3 & (n2 & Hn2) & H4); [right; by apply (H2 u)|]. split; [done|]. split; [|done].
      exists (n2 ++ n). by rewrite <- app_assoc, <- Hn.
    + destruct (worth_enabling_again e); cbn [acts]; (split; [done|]; split; [by exists n|done]).
    + split; [done|]. split; [by exists n|done].
Qed.

Lemma gool_ok path : {{ always }} load_or_provision_gool w path {{ fun _ => always }}.
Proof.
  unfold load_or_provision_gool. eapply triple_bind; [apply load_ok|]. intros [i|]; [by apply triple_ret|].
  eapply triple_weaken; [apply provision_gool_ok|done|done].
Qed.

Lemma make_ready_ok l : {{ always }} make_ready w env team l {{ fun _ => always }}.
Proof.
  induction l as [|[[[asked label] path] p] l IH]; cbn [make_ready]; [by apply triple_ret|]. destruct asked; cbn [negb]; [|done].
  eapply (triple_bind _ _ _ _ (fun _ => always)); [destruct p; [apply warp_ok|apply masque_ok|apply gool_ok]|]. intros u.
  eapply triple_bind; [apply IH|]. intros r. by apply triple_ret.
Qed.

(** C25.  A device is saved only once WARP is enabled on it. *)
Theorem saved_only_when_enabled wanted base s :
  acts s = [] -> saved_ok (acts (register_identities w env team wanted base s).2).
Proof.
  intros Hs. apply (make_ready_ok (identities env team wanted base) s); [|done]. rewrite Hs. by intros [|a after] p d before.
Qed.
End saved.

(** ** A device of a file is replaced only when it is refused *)

Definition is_register (a : Act) : bool := match a with Register _ => true | _ => false end.
Definition registers_nothing (l l' : list Act) : Prop := exists new, l' = new ++ l /\ forallb (fun a => negb (is_register a)) new = true.

Lemma registers_nothing_refl l : registers_nothing l l.
Proof. by exists []. Qed.
Lemma registers_nothing_cons a l l' : is_register a = false -> registers_nothing l l' -> registers_nothing l (a :: l').
Proof. intros Ha (new & -> & Hn). exists (a :: new). split; [done|]. cbn [forallb]. by rewrite Ha, Hn. Qed.
#[local] Hint Resolve registers_nothing_refl : core.
#[local] Hint Extern 1 (registers_nothing _ (_ :: _)) => apply registers_nothing_cons; [reflexivity|] : core.

Section kept.
Context `{b64 : Base64Crate} `{toml : TomlIdentity}.
Context (w : World) (env : bytes -> option bytes) (team : option bytes).

Definition refused_by_api (device : bytes) : Prop :=
  exists n m, w_fetch w n device = Err (IdentityRefused m) \/ w_enroll w n device = Err (IdentityRefused m).

(** What an operation does with a device: the same device comes out of it and none is
    registered. *)
Definition keeps {A} (who : A -> option Identity) (i : Identity) (l : list Act) (out : res AetherError A * State) : Prop :=
  (forall a j, out.1 = Ok a -> who a = Some j -> same_device i j) /\ registers_nothing l (acts out.2).

Lemma adopt_keeps i s :
  let out := adopt_team_profile w env team i s in
  exists j, out.1 = Ok j /\ same_device i j /\ registers_nothing (acts s) (acts out.2) /\
    (refused i = false -> refused j = true -> refused_by_api (device_id i)).
Proof.
  unfold adopt_team_profile. destruct team as [t|]; cbn zeta; [|by exists i; repeat split; congruence || auto].
  unfold mbind, M_bind, fetch_profile, publish_profile. cbn [fst snd log acts].
  exists (refresh_profile i (w_fetch w (length (acts s)) (device_id i))).
  split; [done|]. split; [apply refresh_same_device|]. split.
  - cbn. repeat match goal with |- context [if ?b then log _ _ else _] => destruct b end; cbn [snd fst acts log]; auto.
  - intros Hf. unfold refresh_profile. destruct (w_fetch w _ _) as [reg|[]|] eqn:Hw; cbn [refused]; try congruence. intros _. eexists _, _. by left.
Qed.

Lemma save_keeps path i s :
  let out := save_file w path i s in registers_nothing (acts s) (acts out.2).
Proof. unfold save_file. destruct (save _ _ _ _ _) as [states [u|e|]]; cbn [snd acts log]; auto. Qed.

Lemma load_not_refused path s i s1 :
  load_file w path s = (Ok (Some i), s1) -> refused i = false /\ acts s1 = Loaded path (device_id i) :: acts s.
Proof.
  unfold load_file. destruct (load _ _ _ _) as [fs r] eqn:Hl. intros [= -> <-]. split; [|done]. revert Hl. unfold load.
  destruct (files s !! path) as [f|]; [|done]. destruct (w_read w _); [done|]. destruct (negb _); [done|].
  unfold quarantined. destruct (toml_from_str _) as [p|e|]; [|by destruct (quarantine _ _ _)|done].
  destruct (Identity_try_from p) as [j|e|] eqn:Hj; [|by destruct (quarantine _ _ _)|done]. intros [= _ <-]. revert Hj. unfold Identity_try_from.
  intros (k & _ & (q & _ & [= <-])%res_bind_Ok)%res_bind_Ok. done.
Qed.

(** An identity saved and given back, or given back as it is. *)
Lemma save_and_give {A} path (i j : Identity) (a : A) who s :
  (forall x, who a = Some x -> same_device i x) -> keeps who i (acts s) ((_ ← save_file w path j; mret a) s).
Proof.
  intros Ha. pose proof (save_keeps path j s) as Hs. unfold mbind, M_bind, mret, M_ret. destruct (save_file w path j s) as [[u|e|] s1]; split; cbn [fst snd] in *; try done.
  intros b x [= <-]. apply Ha.
Qed.

Lemma registers_nothing_trans l l' l'' : registers_nothing l l' -> registers_nothing l' l'' -> registers_nothing l l''.
Proof. intros (n & -> & Hn) (n' & -> & Hn'). exists (n' ++ n). rewrite forallb_app, Hn, Hn'. split; [apply app_assoc|done]. Qed.

Lemma keeps_trans {A} (who : A -> option Identity) i l l' out : registers_nothing l l' -> keeps who i l' out -> keeps who i l out.
Proof. intros H1 [H H2]. split; [done|]. by eapply registers_nothing_trans. Qed.

Lemma bind_unfold {A B} (m : M A) (f : A -> M B) s :
  (m ≫= f) s = match m s with (Ok a, s) => f a s | (Err e, s) => (Err e, s) | (Panic, s) => (Panic, s) end.
Proof. done. Qed.

Definition either (x : Identity + Identity) : option Identity := match x with inl i | inr i => Some i end.

Lemma keep_or_refuse_keeps path i s : refused i = false ->
  let out := keep_or_refuse w env team path i s in
  keeps either i (acts s) out /\ forall j, out.1 = Ok (inr j) -> refused_by_api (device_id i).
Proof.
  intros Hf. unfold keep_or_refuse. pose proof (adopt_keeps i s) as (j & Hj & Hd & Hn & Hr).
  rewrite bind_unfold. destruct (adopt_team_profile w env team i s) as [r s1]. cbn [fst snd] in *. subst r.
  destruct (refused j) eqn:Hrj; cbn [negb].
  - split; [|intros k _; by apply Hr]. split; [|done]. by intros a x [= <-] [= <-].
  - split; [eapply keeps_trans; [done|]; apply save_and_give; by intros x [= <-]|].
    intros k. unfold mbind, M_bind. by destruct (save_file w path j s1) as [[u|e|] s2].
Qed.

Lemma enroll_refused i s m :
  (enroll w i s).1 = Err (IdentityRefused m) -> refused_by_api (device_id i).
Proof.
  unfold enroll, ensure_masque_enrolled, generate_masque_keypair. cbn [fst]. destruct (_ && _); [done|].
  destruct (w_keypair w _) as [e|[cert key]]; [done|]. cbn [mbind res_bind].
  destruct (w_enroll w _ _) as [reg|e|] eqn:He; [done| |done]. destruct (cert_still_usable _ i); [done|]. intros [= ->]. eexists _, _. by right.
Qed.

Lemma check_masque_keeps path i s : refused i = false ->
  let out := check_masque w env team path i s in
  keeps either i (acts s) out /\ forall j, out.1 = Ok (inr j) -> refused_by_api (device_id i).
Proof.
  intros Hf. unfold check_masque. destruct (has_masque_credentials _ i); [by apply keep_or_refuse_keeps|].
  pose proof (enroll_refused i s) as Hr. assert (registers_nothing (acts s) (acts (enroll w i s).2)) as Hn by (cbn; auto).
  destruct (enroll w i s) as [[e|e|] s1]; cbn [fst snd] in *.
  - unfold keep_enrolled. split; [eapply keeps_trans; [done|]; apply save_and_give; by intros x [= <-]|].
    intros k. unfold mbind, M_bind. by destruct (save_file w path _ s1) as [[u|e'|] s2].
  - destruct e; (split; [split; [|done]; try (by intros a x [= <-] [= <-]); done|]; try done). intros j _. by eapply Hr.
  - by split.
Qed.

(** C23.  A device whose file loads is the one that is used, and none is registered beside it,
    unless Cloudflare refused it and the settings do not say to carry on with it. *)
Theorem saved_device_is_kept_unless_refused provision path s i s1 :
  load_file w path s = (Ok (Some i), s1) ->
  let '(r, s2) := load_or_provision w env team provision path s in
  (forall j, r = Ok j -> same_device i j) /\ registers_nothing (acts s) (acts s2) \/
  Session.keep_saved_identity env = true /\ refused_by_api (device_id i).
Proof.
  intros Hl. destruct (load_not_refused path s i s1 Hl) as [Hf Ha]. 
  assert (registers_nothing (acts s) (acts s1)) as Hn by (rewrite Ha; auto).
  assert (forall (m : option Identity -> M Identity), ((load_file w path) ≫= m) s = m (Some i) s1) as Hb by (intros m; unfold mbind, M_bind; by rewrite Hl).
  destruct (load_or_provision w env team provision path s) as [r s2] eqn:Hr. revert Hr.
  destruct provision; cbn [load_or_provision]; unfold load_or_provision_warp, load_or_provision_masque, load_or_provision_gool; rewrite Hb; intros Hr.
  - revert Hr. pose proof (adopt_keeps i s1) as (j & Hj & Hd & Hn1 & Hr). rewrite bind_unfold.
    destruct (adopt_team_profile w env team i s1) as [r' s3]. cbn [fst snd] in *. subst r'.
    pose proof (registers_nothing_trans _ _ _ Hn Hn1) as Hn3.
    destruct (refused j) eqn:Hj; cbn [negb]; [destruct (Session.keep_saved_identity env); cbn [negb]; intros Ho; [right; split; [done|by apply Hr]|]|].
    + injection Ho as <- <-. left. by split; [intros k [= <-]|].
    + pose proof (save_and_give path i j j Some s3) as [H1 H2]; [by intros x [= <-]|]. intros Ho. rewrite Ho in H1, H2. left. cbn [fst snd] in *.
      split; [by intros k ->; apply (H1 k k)|by eapply registers_nothing_trans].
  - revert Hr. pose proof (check_masque_keeps path i s1 Hf) as [[H1 H2] Hr]. rewrite bind_unfold.
    destruct (check_masque w env team path i s1) as [[[j|j]|e|] s3]; cbn [fst snd] in *; pose proof (registers_nothing_trans _ _ _ Hn H2) as Hn3.
    + intros [= <- <-]. left. split; [intros k [= <-]; by eapply H1|done].
    + destruct (Session.keep_saved_identity env); cbn [negb]; intros Ho; [right; split; [done|by eapply Hr]|].
      injection Ho as <- <-. left. split; [intros k [= <-]; by eapply H1|done].
    + intros [= <- <-]. left. by split.
    + intros [= <- <-]. left. by split.
  - injection Hr as <- <-. left. split; [by intros j [= <-]|done].
Qed.
End kept.

(** ** The device gool carries: no second one while the first waits *)

Section gool.
Context `{b64 : Base64Crate} `{toml : TomlIdentity}.
Context (w : World) (path : bytes).

(** The tries of a run, one per connection of the outer tunnel; a panic ends it. *)
Fixpoint gool_tries (n : nat) (s : State) : State :=
  match n with
  | O => s
  | S n => match load_or_provision_gool w path s with (Panic, s') => s' | (_, s') => gool_tries n s' end
  end.

(** The API refused the device itself when it was to be enabled after [before]. *)
Definition device_refused (before : list Act) (device : bytes) : bool :=
  match w_enable w (length before) device with Err (IdentityRefused _) => true | _ => false end.

(** The device that waits to be enabled, as the log has it: the last one registered, until it
    is enabled or the API refuses it. *)
Fixpoint pending (l : list Act) : option bytes :=
  match l with
  | [] => None
  | Register (Some d) :: _ => Some d
  | Enable d enabled :: l => if (enabled || device_refused l d) && bool_decide (pending l = Some d) then None else pending l
  | _ :: l => pending l
  end.

(** A device is registered only while none waits, and the one enabled is the one that waits. *)
Definition step_in_order (a : Act) (before : list Act) : Prop :=
  match a with
  | Register (Some _) => pending before = None
  | Enable d _ => pending before = Some d
  | _ => True
  end.
Definition one_at_a_time (l : list Act) : Prop := forall after a before, l = after ++ a :: before -> step_in_order a before.

Lemma one_at_a_time_cons a l : step_in_order a l -> one_at_a_time l -> one_at_a_time (a :: l).
Proof. intros Ha Hl [|b after] a' before [= -> ->]; [done|by eapply Hl]. Qed.

Definition gool_invariant (s : State) : Prop :=
  one_at_a_time (acts s) /\ pending (acts s) = device_id <$> not_enabled s.

(** After a try the invariant holds again, unless it ended in a panic. *)
Definition try_ok (out : res AetherError Identity * State) : Prop :=
  match out.1 with Panic => one_at_a_time (acts out.2) | _ => gool_invariant out.2 end.

Lemma save_and_return_ok i s : gool_invariant s -> try_ok ((_ ← save_file w path i; mret i) s).
Proof.
  intros [Ho Hp]. unfold save_file, try_ok. rewrite bind_unfold.
  destruct (save _ _ _ _ _) as [states [u'|e'|]]; cbn [acts fst snd log mret M_ret]; [|by split|done].
  split; [by apply one_at_a_time_cons|exact Hp].
Qed.

Lemma enable_and_save_invariant i s :
  one_at_a_time (acts s) -> pending (acts s) = Some (device_id i) -> not_enabled s = None -> try_ok (enable_and_save w path i s).
Proof.
  intros Ho Hp Hn. unfold enable_and_save, enable_warp_on.
  assert (forall b, one_at_a_time (Enable (device_id i) b :: acts s)) as Hb by (intros b; by apply one_at_a_time_cons).
  assert (forall b, pending (Enable (device_id i) b :: acts s) = if b || device_refused (acts s) (device_id i) then None else Some (device_id i)) as Hpd.
  { intros b. cbn [pending]. rewrite (bool_decide_eq_true_2 _ Hp), Hp. by destruct (b || _). }
  unfold device_refused in Hpd. destruct (w_enable w (length (acts s)) (device_id i)) as [u|e|].
  - apply save_and_return_ok. split; [apply Hb|]. cbn [log acts not_enabled]. by rewrite Hpd, Hn.
  - unfold try_ok. cbn [fst snd]. unfold gool_invariant. cbn [orb] in Hpd.
    destruct e; cbn [worth_enabling_again acts log not_enabled]; rewrite Hpd; by rewrite ?Hn.
  - apply (Hb false).
Qed.

Lemma provision_gool_invariant s : gool_invariant s -> try_ok (provision_gool w path s).
Proof.
  intros [Ho Hp]. unfold provision_gool, kept_or_registered, provision_wg, register_device. rewrite bind_unfold.
  destruct (not_enabled s) as [i|]; [by apply enable_and_save_invariant|]. cbn [acts]. cbn [fmap option_fmap option_map] in Hp.
  assert (forall d, one_at_a_time (Register d :: acts s)) as Hr by (intros [d|]; by apply one_at_a_time_cons).
  destruct (reg ← w_register w _; _) as [i|e|].
  - by apply enable_and_save_invariant; [apply (Hr (Some (device_id i)))|..].
  - split; [apply (Hr None)|done].
  - apply (Hr None).
Qed.

Lemma gool_try_ok s : gool_invariant s -> try_ok (load_or_provision_gool w path s).
Proof.
  intros [Ho Hp]. unfold load_or_provision_gool. rewrite bind_unfold.
  assert (gool_invariant (load_file w path s).2) as Hl.
  { unfold load_file. destruct (load _ _ _) as [fs [[i|]|e|]]; cbn [snd]; [|by split..]. split; [by apply one_at_a_time_cons|exact Hp]. }
  destruct (load_file w path s) as [[[i|]|e|] s']; cbn [snd] in Hl; [exact Hl|by apply provision_gool_invariant|exact Hl|apply Hl].
Qed.

(** C24.  However often the outer tunnel comes up and whatever the API answers, gool registers a
    device only while none waits to be enabled, that is when each one before it has been enabled
    or was refused by the API itself; and the device it enables is the one that waits, so that one
    whose enabling failed otherwise is the one that is tried again. *)
Theorem gool_registers_one_at_a_time n s :
  acts s = [] -> not_enabled s = None -> one_at_a_time (acts (gool_tries n s)).
Proof.
  intros Ha Hn. assert (gool_invariant s) as Hs by (split; [rewrite Ha; by intros [|a after]|by rewrite Ha, Hn]). clear Ha Hn.
  revert s Hs. induction n as [|n IH]; intros s Hs; [apply Hs|]. cbn [gool_tries]. pose proof (gool_try_ok s Hs) as Ht.
  unfold try_ok in Ht. by destruct (load_or_provision_gool w path s) as [[i|e|] s']; [apply IH..|].
Qed.
End gool.

(** ** Witnesses *)

Section examples.
Local Existing Instance marked_b64.

(** What the API makes of a device, and a file format that knows it and the one of the
    saved file. *)
Definition new_account : AccountData :=
  mkAccountData (lit "device-2") (lit "token") (lit "10.0.0.9") [] [(61 :: replicate 32 5, [])] [] [] [].
Definition new_identity : Identity :=
  mkIdentity (lit "device-2") (lit "token") [] [] 0 (lit "10.0.0.9") [] (replicate 32 7) (replicate 32 5) [0; 0; 0] [] [] [] false.
Definition two_identities : TomlIdentity.
Proof.
  refine {| toml_to_string p :=
              if decide (p = example_persisted) then Ok (lit "device-1")
              else if decide (p = PersistedIdentity_from new_identity) then Ok (lit "device-2") else Err (lit "unsupported");
            toml_from_str text :=
              if decide (text = lit "device-1") then Ok example_persisted
              else if decide (text = lit "device-2") then Ok (PersistedIdentity_from new_identity) else Err (lit "expected an equals") |}.
  - intros p. by repeat case_decide.
  - intros text. by repeat case_decide.
  - intros p text. case_decide; [intros [= <-]; by subst|]. case_decide; [|done]. intros [= <-]. by subst.
  - intros p text. repeat case_decide; [| |done]; by intros [= <-].
Defined.
Local Existing Instance two_identities.

(** The first three calls of a run find the enabling out of reach; a profile is refused when
    [refuses]. *)
Definition example_world (refuses : bool) : World :=
  mkWorld (fun _ => Ok (lit "token")) (fun _ => Ok new_account) (fun _ => replicate 32 7)
    (fun _ _ => if refuses then Err (IdentityRefused (lit "gone")) else Err (Io (lit "timed out")))
    (fun _ _ => Err (Io (lit "timed out")))
    (fun n _ => if (n <? 3)%nat then Err (Io (lit "timed out")) else Ok tt)
    (fun _ => inl (lit "no curve")) (fun _ => 1700000000) (fun _ => 1700000001) (fun _ => None) (fun _ => true) (fun _ => good_disk) 7.
Definition no_env : bytes -> option bytes := fun _ => None.
Definition start (fs : Fs) : State := mkState fs [] None.
Definition saved_fs : Fs := {[ example_path := mkFile (lit "device-1") 384 ]}.
Definition outer_only : Session.RegisterSet := Session.mkRegister true false false false false.

(** [--register] replaces the file of a device that the organization's API refuses. *)
Example register_replaces_a_refused_file :
  let s := (register_identities (example_world true) no_env (Some (lit "team")) outer_only (lit "x.toml")
              (start {[ lit "x-team-team.toml" := mkFile (lit "device-1") 384 ]})).2 in
  contents <$> files s !! lit "x-team-team.toml" = Some (lit "device-2").
Proof. vm_compute. reflexivity. Qed.

(** A run that loads a device and saves it again, as the log has it. *)
Lemma saved_only_when_enabled_witness :
  let l := acts (register_identities (example_world false) no_env None outer_only example_path (start saved_fs)).2 in
  l = [Saved example_path (lit "device-1"); Loaded example_path (lit "device-1")] /\ saved_ok l.
Proof.
  split; [vm_compute; reflexivity|].
  exact (saved_only_when_enabled (example_world false) no_env None outer_only example_path (start saved_fs) eq_refl).
Defined.

Lemma saved_device_is_kept_unless_refused_witness :
  let '(r, s2) := load_or_provision (example_world false) no_env None Warp example_path (start saved_fs) in
  r = Ok example_identity /\ registers_nothing [] (acts s2).
Proof.
  assert (exists s1, load_file (example_world false) example_path (start saved_fs) = (Ok (Some example_identity), s1)) as [s1 Hl]
    by (eexists; vm_compute; reflexivity).
  pose proof (saved_device_is_kept_unless_refused (example_world false) no_env None Warp example_path (start saved_fs) example_identity s1 Hl) as H.
  assert ((load_or_provision (example_world false) no_env None Warp example_path (start saved_fs)).1 = Ok example_identity) as Hr
    by (vm_compute; reflexivity).
  destruct (load_or_provision (example_world false) no_env None Warp example_path (start saved_fs)) as [r s2]. cbn [fst] in Hr.
  split; [exact Hr|]. destruct H as [[_ H]|[_ (n & m & [H|H])]]; [exact H|discriminate|discriminate].
Defined.

(** The first enabling times out, the second is refused by the API: the device is tried again,
    then another one is registered. *)
Definition refusing_world : World :=
  mkWorld (fun _ => Ok (lit "token")) (fun _ => Ok new_account) (fun _ => replicate 32 7)
    (fun _ _ => Err (Io (lit "timed out"))) (fun _ _ => Err (Io (lit "timed out")))
    (fun n _ => if (n =? 1)%nat then Err (Io (lit "timed out")) else if (n =? 2)%nat then Err (IdentityRefused (lit "gone")) else Ok tt)
    (fun _ => inl (lit "no curve")) (fun _ => 1700000000) (fun _ => 1700000001) (fun _ => None) (fun _ => true) (fun _ => good_disk) 7.
Lemma gool_registers_one_at_a_time_witness :
  let l := acts (gool_tries refusing_world example_path 3 (start ∅)) in
  l = [Saved example_path (lit "device-2"); Enable (lit "device-2") true; Register (Some (lit "device-2")); Enable (lit "device-2") false;
       Enable (lit "device-2") false; Register (Some (lit "device-2"))] /\ one_at_a_time refusing_world l.
Proof.
  split; [vm_compute; reflexivity|].
  apply (gool_registers_one_at_a_time refusing_world example_path); reflexivity.
Defined.
End examples.

End Provision.
