(* ===== verification/Hops.v ===== *)
(** * A tunnel inside a tunnel ([lib.rs])

    The two hops of gool and of masque-in-masque: how a tunnel is set up inside another
    (the tasks it spawns, the relays between the hops, what ends when one of them ends),
    and the loops that choose the two edges, drop them after failures and open the
    tunnels again.  What is set up answers by an environment that is asked by the length
    of the log of actions, the newest first; a static of the program is a field of the
    state.  Dropping a guard aborts the tasks it holds, at the end of its scope. *)

From stdpp Require Import gmap.
From S2P Require Import Prelude Str Ip Text Error Prober Config Session Reconnect Provision.
Local Open Scope Z_scope.

Module Hops.
Import Error Config.
Import Session (parse_endpoint, env_value, count_tunnel_end, spread_hops, mim_inner_budget).

(** ** Tasks and actions *)

Inductive Hop := Outer | Inner.
Inductive Task := Tunnel (hop : Hop) | Bridge (hop : Hop) | Forwarder | Proxy.

#[export] Instance Hop_eq_dec : EqDecision Hop.
Proof. solve_decision. Defined.
#[export] Instance Task_eq_dec : EqDecision Task.
Proof. solve_decision. Defined.

(** How a task joined: with its result, aborted, or with a panic. *)
Inductive Joined := Finished (error : option AetherError) | Aborted_ | Panicked (text : bytes).

Inductive Act :=
| Started (t : Task)
| Ended (t : Task)
| Aborted (t : Task)
| Dialed (hop : Hop) (peer : SocketAddr) (h2 : bool) (datagram mtu : Z)
| Validated (hop : Hop) (peer : SocketAddr)
| Forwarding (remote : SocketAddr) (tcp : bool)
| Asked
| Settled
| Serving
| Scanned (wanted : Z) (avoid : gset IpAddr)
| Rescanning (hop : Hop) (peer : SocketAddr)
| Opened (outer inner : SocketAddr)
| Closed (lasted : Z).

(** Whether a task runs, by a log with the newest first. *)
Fixpoint running (t : Task) (l : list Act) : bool :=
  match l with
  | [] => false
  | Started t' :: l => bool_decide (t = t') || running t l
  | Ended t' :: l | Aborted t' :: l => negb (bool_decide (t = t')) && running t l
  | _ :: l => running t l
  end.

(** ** The state *)

Record State := mkState {
  log : list Act;
  (** [MIM_INNER_QUIC_REFUSED] *)
  quic_refused : bool;
  (** The [TaskGuard] of the function that runs. *)
  guard : list Task;
  provision : Provision.State;
}.

Definition M (A : Type) : Type := State -> res AetherError A * State.
#[export] Instance M_ret : MRet M := fun A a s => (Ok a, s).
#[export] Instance M_bind : MBind M := fun A B f m s =>
  match m s with
  | (Ok a, s) => f a s
  | (Err e, s) => (Err e, s)
  | (Panic, s) => (Panic, s)
  end.

Definition did (acts : list Act) : M unit := fun s => (Ok tt, mkState (rev acts ++ log s) (quic_refused s) (guard s) (provision s)).
Definition lift {A} (r : res AetherError A) : M A := fun s => (r, s).
Definition fails {A} (e : AetherError) : M A := fun s => (Err e, s).
Definition refuse_quic : M unit := fun s => (Ok tt, mkState (log s) true (guard s) (provision s)).
Definition is_quic_refused : M bool := fun s => (Ok (quic_refused s), s).
(** [Result] as a value, for the [match] on it. *)
Definition catch {A} (m : M A) : M (A + AetherError) := fun s =>
  match m s with (Ok a, s) => (Ok (inl a), s) | (Err e, s) => (Ok (inr e), s) | (Panic, s) => (Panic, s) end.
(** [TaskGuard::new] and its scope, at the end of which it aborts the tasks pushed on it. *)
Definition scoped {A} (m : M A) : M A := fun s =>
  let '(r, s') := m (mkState (log s) (quic_refused s) [] (provision s)) in
  let s' := (did (map Aborted (guard s')) s').2 in
  (r, mkState (log s') (quic_refused s') (guard s) (provision s')).
Definition push (t : Task) : M unit := fun s => (Ok tt, mkState (log s) (quic_refused s) (guard s ++ [t]) (provision s)).
(** The scope of a guard that was given with its tasks. *)
Definition holding {A} (tasks : list Task) (m : M A) : M A := fun s =>
  let '(r, s) := m s in (r, (did (map Aborted tasks) s).2).
Definition provided {A} (m : Provision.M A) : M A := fun s =>
  let '(r, p) := m (provision s) in (r, mkState (log s) (quic_refused s) (guard s) p).

(** ** What is set up *)

Inductive Startup :=
| NoSni (e : AetherError)
| NoStack (e : AetherError)
| Ready
| GoneEarly (joined : Joined)
| TimedOut.

Inductive Ending := OuterEnded (joined : Joined) | InnerEnded (joined : Joined) | PolicyBroken (reason : AetherError).

Record World := mkWorld {
  w_masque : nat -> Startup;
  (** What [wireguard::verify_endpoint_keep_session] and [netstack::spawn] answer. *)
  w_verify : nat -> option AetherError;
  w_stack : nat -> option AetherError;
  (** The socket of a forwarder. *)
  w_forward : nat -> option AetherError;
  w_settle : nat -> option AetherError;
  w_ending : nat -> Ending;
  (** The listener a registration goes through. *)
  w_listener : nat -> option AetherError;
}.

Definition join_outcome (what : bytes) (result : Joined) : res AetherError unit :=
  match result with
  | Finished None => Err (Other (what ++ lit " stopped"))
  | Finished (Some e) => Err e
  | Aborted_ => Err (Other (what ++ lit " was cancelled"))
  | Panicked e => Err (Other (what ++ lit " panicked: " ++ e))
  end.

Definition INNER_MTU : Z := 1200.
Definition H2_TUNNEL_MTU : Z := 1500.
Definition GOOL_INNER_ATTEMPTS : nat := 2.
Definition MIM_INNER_TRIES : Z := 6.
Definition MAX_CONSECUTIVE_FAILS : Z := 2.

Section hops.
Context `{UnicodeCase} `{b64 : Base64Crate} `{toml : TomlIdentity}.
Variable w : World.
Variable pw : Provision.World.
Variable env : bytes -> option bytes.

Definition asked : M nat := fun s => (Ok (length (log s)), mkState (Asked :: log s) (quic_refused s) (guard s) (provision s)).
Definition answer (o : option AetherError) : M unit := match o with Some e => fails e | None => mret tt end.

Definition label (hop : Hop) : bytes := match hop with Outer => lit "outer" | Inner => lit "inner" end.

Definition masque_tunnel_mtu (h2 : bool) : Z :=
  match (value ← env (lit "AETHER_MASQUE_MTU"); mtu ← parse_uint U64_MAX (trim value); if (576 <=? mtu) && (mtu <=? 1500) then Some mtu else None) with
  | Some mtu => mtu
  | None => if h2 then H2_TUNNEL_MTU else Session.TUNNEL_MTU
  end.

(** [masque_h2::enabled], [masque_h2::h2_peer] *)
Definition h2_enabled : bool :=
  match env (lit "AETHER_MASQUE_HTTP2") with
  | Some v => Prober.one_of (to_lowercase (trim v)) [lit "1"; lit "true"; lit "h2"; lit "yes"; lit "on"]
  | None => false
  end.
Definition h2_peer (quic_peer : SocketAddr) : SocketAddr :=
  default quic_peer (v ← env (lit "AETHER_MASQUE_H2_PEER"); parse_socket_addr (trim v)).

Definition mim_inner_quic_enabled : bool :=
  match env (lit "AETHER_MIM_INNER_QUIC") with
  | Some v => negb (Prober.one_of (to_ascii_lowercase (trim v)) [lit "0"; lit "off"; lit "false"; lit "no"])
  | None => true
  end.
Definition mim_inner_startup : Z := Z.min (Session.masque_startup_timeout env) (Prober.from_secs 12).

Definition early_message (hop : Hop) (joined : Joined) : bytes :=
  let tag := lit "[" ++ label hop ++ lit "]" in
  match joined with
  | Finished None => tag ++ lit " tunnel exited before validation"
  | Finished (Some e) => tag ++ lit " tunnel failed before validation: " ++ to_string e
  | Aborted_ => tag ++ lit " tunnel task join error: cancelled"
  | Panicked e => tag ++ lit " tunnel task join error: " ++ e
  end.

(** [establish_masque]: the tasks of the hop, which its guard holds from then on. *)
Definition establish_masque (peer : SocketAddr) (h2 : bool) (mtu datagram startup : Z) (hop : Hop) : M unit :=
  n ← asked;
  match w_masque w n with
  | NoSni e | NoStack e => fails e
  | started =>
      _ ← did [Started (Bridge hop); Dialed hop peer h2 datagram mtu; Started (Tunnel hop)];
      match started with
      | Ready => did [Validated hop peer]
      | GoneEarly joined => holding [Bridge hop; Tunnel hop] (_ ← did [Ended (Tunnel hop)]; fails (Other (early_message hop joined)))
      | _ => holding [Bridge hop; Tunnel hop]
               (_ ← did [Aborted (Tunnel hop)];
                fails (Other (lit "[" ++ label hop ++ lit "] tunnel startup timed out after " ++ dec (startup / Prober.from_secs 1) ++ lit "s")))
      end
  end.

(** [establish_wg] *)
Definition establish_wg (identity : Identity) (peer : SocketAddr) (mtu : Z) (hop : Hop) : M unit :=
  n ← asked;
  match Prober.parse_ipv4 (ipv4 identity) with
  | None => fails (Other (lit "invalid ipv4"))
  | Some _ =>
      _ ← did [Dialed hop peer false 0 mtu];
      match w_verify w n with
      | Some e => fails (Other (lit "[" ++ label hop ++ lit "] tunnel failed validation: " ++ to_string e))
      | None => _ ← answer (w_stack w n); did [Started (Tunnel hop); Validated hop peer]
      end
  end.

(** [spawn_udp_forwarder] and [spawn_tcp_forwarder]: the task that carries one hop's packets
    through the other, at an address of the loopback. *)
Definition spawn_forwarder (remote : SocketAddr) (tcp : bool) : M unit :=
  n ← asked; _ ← answer (w_forward w n); did [Forwarding remote tcp; Started Forwarder].

(** [exitloc::settle] *)
Definition settle : M unit := n ← asked; _ ← answer (w_settle w n); did [Settled].

(** The [select!] that serves, and what follows it. *)
Definition serve (outer_name inner_name : bytes) : M unit :=
  n ← asked;
  _ ← did [Serving];
  match w_ending w n with
  | OuterEnded joined => _ ← did [Ended (Tunnel Outer); Aborted (Tunnel Inner)]; lift (join_outcome outer_name joined)
  | InnerEnded joined => _ ← did [Ended (Tunnel Inner); Aborted (Tunnel Outer)]; lift (join_outcome inner_name joined)
  | PolicyBroken reason => _ ← did [Aborted (Tunnel Outer); Aborted (Tunnel Inner)]; fails reason
  end.

(** ** WireGuard in WireGuard *)

(** The relay inside listens on the loopback; its address is the inner hop's peer. *)
Definition run_warp_in_warp (primary secondary : Identity) (peer inner_peer : SocketAddr) : M unit :=
  if bool_decide (sa_ip inner_peer = sa_ip peer)
  then fails (Other (lit "warp-in-warp needs two separate edges but both hops landed on " ++ ip_to_string (sa_ip peer)))
  else
    scoped
      (_ ← establish_wg primary peer Session.TUNNEL_MTU Outer;
       _ ← push (Tunnel Outer);
       _ ← spawn_forwarder inner_peer false;
       holding [Forwarder]
         (_ ← establish_wg secondary inner_peer INNER_MTU Inner;
          _ ← push (Tunnel Inner);
          _ ← settle;
          serve (lit "outer wireguard tunnel") (lit "inner wireguard tunnel"))).

(** ** MASQUE in MASQUE *)

(** One attempt at an edge over one carrier: whether the inner hop stands, with its tasks and
    the forwarder left to it. *)
Definition try_inner (outer_mtu : Z) (inner_peer : SocketAddr) (inner_h2 : bool) : M bool :=
  let '(inner_datagram, inner_mtu) := mim_inner_budget outer_mtu inner_peer inner_h2 in
  _ ← spawn_forwarder inner_peer inner_h2;
  r ← catch (establish_masque inner_peer inner_h2 inner_mtu inner_datagram mim_inner_startup Inner);
  match r with
  | inl _ => mret true
  | inr _ => holding [Forwarder] (mret false)
  end.

(** [for inner_h2 in modes] *)
Fixpoint try_modes (outer_mtu : Z) (inner_peer : SocketAddr) (quic_failed_here : bool) (modes : list bool) : M bool :=
  match modes with
  | [] => mret false
  | inner_h2 :: modes =>
      up ← try_inner outer_mtu inner_peer inner_h2;
      match up with
      | true => _ ← (if inner_h2 && quic_failed_here then refuse_quic else mret tt); mret true
      | false => try_modes outer_mtu inner_peer (quic_failed_here || negb inner_h2) modes
      end
  end.

(** [for inner_peer in inner_peers]: the edge whose tunnel stands. *)
Fixpoint try_edges (h2 try_inner_quic : bool) (outer_mtu : Z) (peer : SocketAddr) (inner_peers : list SocketAddr) : M (option SocketAddr) :=
  match inner_peers with
  | [] => mret None
  | inner_peer :: inner_peers =>
      if bool_decide (sa_ip inner_peer = sa_ip peer) then try_edges h2 try_inner_quic outer_mtu peer inner_peers
      else
        refused ← is_quic_refused;
        up ← try_modes outer_mtu inner_peer false ((if try_inner_quic && negb refused then [false] else []) ++ [h2]);
        match up with true => mret (Some inner_peer) | false => try_edges h2 try_inner_quic outer_mtu peer inner_peers end
  end.

Definition run_masque_in_masque (peer : SocketAddr) (inner_peers : list SocketAddr) : M unit :=
  let h2 := h2_enabled in
  let outer_mtu := masque_tunnel_mtu h2 in
  _ ← establish_masque peer h2 outer_mtu Session.MAX_DATAGRAM_SIZE (Session.masque_startup_timeout env) Outer;
  holding [Bridge Outer; Tunnel Outer]
    (let try_inner_quic := h2 && mim_inner_quic_enabled in
     chosen ← try_edges h2 try_inner_quic outer_mtu peer inner_peers;
     match chosen with
     | None => fails (Other (lit "no inner masque edge answered through the outer tunnel"))
     | Some inner_peer =>
         holding [Forwarder; Bridge Inner; Tunnel Inner]
           (_ ← settle;
            serve (lit "outer masque tunnel") (lit "inner masque tunnel"))
     end).

(** ** WireGuard in MASQUE *)

Definition gool_inner_peers (identity : Identity) : res AetherError (list SocketAddr) :=
  match env_value env (lit "AETHER_GOOL_INNER") with
  | Some value => peer ← parse_endpoint value; Ok [peer]
  | None =>
      let named := omap parse_ip (trim (assigned_endpoint identity) :: Prober.wg_seeds_v4 env) in
      Ok (push_all ([], ∅) (map (fun ip => mkSocketAddr ip Session.WG_EXAMPLE_PORT) named)).1
  end.

(** The registration goes through a proxy of its own, which listens on the loopback. *)
Definition gool_inner_identity (inner_path : bytes) : M Identity :=
  found ← provided (Provision.load_file pw inner_path);
  match found with
  | Some identity => mret identity
  | None =>
      n ← asked;
      _ ← answer (w_listener w n);
      _ ← did [Started Proxy];
      holding [Proxy] (provided (Provision.provision_gool pw inner_path))
  end.

(** [for attempt in 1..=GOOL_INNER_ATTEMPTS]: how the last attempt failed, if all did. *)
Fixpoint try_attempts (n : nat) (inner_identity : Identity) (inner_peer : SocketAddr) (last_error : AetherError) : M (unit + AetherError) :=
  match n with
  | O => mret (inr last_error)
  | S n =>
      r ← catch (establish_wg inner_identity inner_peer INNER_MTU Inner);
      match r with inl _ => mret (inl tt) | inr e => try_attempts n inner_identity inner_peer e end
  end.

(** ['peers: for inner_peer in candidates] *)
Fixpoint try_peers (inner_identity : Identity) (candidates : list SocketAddr) (last_error : AetherError) : M SocketAddr :=
  match candidates with
  | [] => fails last_error
  | inner_peer :: candidates =>
      _ ← spawn_forwarder inner_peer false;
      r ← try_attempts GOOL_INNER_ATTEMPTS inner_identity inner_peer last_error;
      match r with
      | inl _ => mret inner_peer
      | inr e => holding [Forwarder] (mret tt) ≫= fun _ => try_peers inner_identity candidates e
      end
  end.

Definition with_endpoint (endpoint : bytes) (i : Identity) : Identity :=
  mkIdentity (device_id i) (access_token i) (cert_pem i) (key_pem i) (cert_issued_at i) (ipv4 i) (ipv6 i)
    (wg_private_key i) (wg_peer_public_key i) (client_id i) (organization i) (gateway_proxy i) endpoint (refused i).

(** The endpoint that worked is the one a later run tries first. *)
Definition remember_endpoint (inner_path : bytes) (inner_identity : Identity) (inner_peer : SocketAddr) : M unit :=
  if negb (bool_decide (assigned_endpoint inner_identity = ip_to_string (sa_ip inner_peer)))
     && bool_decide (env_value env (lit "AETHER_GOOL_INNER") = None)
  then _ ← catch (provided (Provision.save_file pw inner_path (with_endpoint (ip_to_string (sa_ip inner_peer)) inner_identity))); mret tt
  else mret tt.

Definition run_gool_tunnel (peer : SocketAddr) (inner_path : bytes) : M unit :=
  let h2 := h2_enabled in
  let dial := if h2 then h2_peer peer else peer in
  _ ← establish_masque dial h2 (masque_tunnel_mtu h2) Session.MAX_DATAGRAM_SIZE (Session.masque_startup_timeout env) Outer;
  holding [Bridge Outer; Tunnel Outer]
    (inner_identity ← gool_inner_identity inner_path;
     candidates ← lift (gool_inner_peers inner_identity);
     inner_peer ← try_peers inner_identity candidates (Other (lit "no wireguard endpoint to try"));
     holding [Forwarder]
       (_ ← remember_endpoint inner_path inner_identity inner_peer;
        _ ← settle;
        serve (lit "outer masque tunnel") (lit "inner wireguard tunnel"))).

End hops.

(** ** The loops *)

(** Each endpoint is on an address of its own, but for one that is put in front. *)
Definition distinct_behind (front : option SocketAddr) (l : list SocketAddr) : Prop :=
  NoDup (map sa_ip l) \/ exists p l', front = Some p /\ l = p :: l' /\ NoDup (map sa_ip l').

(** What a scan for several endpoints promises: each is on an address of its own, but for the
    endpoint of a floor that a WireGuard run of this process left, which may come in front. *)
Class HopScanner (S : Type) := {
  hunt : S -> Prober.ScanMode -> Prober.IpScan -> Z -> gset SocketAddr -> res AetherError (list SocketAddr);
  floor_left : S -> option SocketAddr;
  hunt_distinct s mode ip want excluded l : hunt s mode ip want excluded = Ok l -> distinct_behind (floor_left s) l;
}.

(** The state at the top of a loop. *)
Record Run := mkRun {
  outer_peer : option SocketAddr; inner_peer : option SocketAddr; consecutive_fails : Z;
  scan_settings : option (bytes * Prober.IpScan); st : State
}.

(** What happens in a round: what the user would answer, what the scan meets, the words of
    the generator, and how long the tunnel lasts. *)
Record Round {S : Type} := mkRound { choice : bytes * Prober.IpScan; meets : S; words : list Z; lasted : Z }.
Arguments Round : clear implicits.
Arguments mkRound {S}.

Definition logged (acts : list Act) (s : Run) : Run :=
  mkRun (outer_peer s) (inner_peer s) (consecutive_fails s) (scan_settings s) (did acts (st s)).2.

Section loops.
Context `{UnicodeCase} `{b64 : Base64Crate} `{toml : TomlIdentity}.
Variable w : World.
Variable env : bytes -> option bytes.

(** [unpinned.take()], with the line that is logged. *)
Definition dropped (hop : Hop) (pinned known : option SocketAddr) : option SocketAddr * list Act :=
  match pinned, known with
  | None, Some peer => (None, [Rescanning hop peer])
  | _, _ => (known, [])
  end.

(** The top of a round, after too many failures in a row. *)
Definition drop_failing (pinned : Session.WiwEndpoints) (s : Run) : Run :=
  if MAX_CONSECUTIVE_FAILS <=? consecutive_fails s then
    let '(outer, l1) := dropped Outer (Session.outer pinned) (outer_peer s) in
    let '(inner, l2) := dropped Inner (Session.inner pinned) (inner_peer s) in
    logged (l1 ++ l2) (mkRun outer inner 0 (scan_settings s) (st s))
  else s.

Definition with_settings (chosen : bytes * Prober.IpScan) (s : Run) : Run :=
  mkRun (outer_peer s) (inner_peer s) (consecutive_fails s) (Some (default chosen (scan_settings s))) (st s).

Definition verified_scan_selected (settings : option (bytes * Prober.IpScan)) : bool :=
  let named := match settings with Some (mode, _) => mode | None => default [] (env (lit "AETHER_SCAN")) end in
  match Prober.ScanMode_parse named with Prober.Verified => true | _ => false end.

Definition start (pinned : Session.WiwEndpoints) (s : State) : Run := mkRun (Session.outer pinned) (Session.inner pinned) 0 None s.

Section gool.
Context {S : Type} `{HopScanner S}.
Variable primary secondary : Identity.

(** [select_wg_peers] *)
Definition select_wg_peers (meets : S) (mode_str : bytes) (ip : Prober.IpScan) (want : Z) (avoid : gset IpAddr) : res AetherError (list SocketAddr) :=
  let excluded := list_to_set (flat_map (fun address => map (mkSocketAddr address) Prober.WG_PORTS) (elements avoid)) in
  _ ← match Prober.parse_ipv4 (ipv4 primary) with Some _ => Ok tt | None => Err (Other (lit "invalid ipv4")) end;
  found ← hunt meets (Prober.ScanMode_parse mode_str) ip want excluded;
  let picked := take (Z.to_nat want) (filter (fun pr => sa_ip pr ∉ avoid) found) in
  if bool_decide (picked = []) then Err NoCleanEndpoint else Ok picked.

(** The tunnels of the round, one in the other. *)
Definition open_pair (outer inner : SocketAddr) (s : Run) (r : Round S) : Run :=
  let s1 := (run_warp_in_warp w primary secondary outer inner (did [Opened outer inner] (st s)).2).2 in
  mkRun (Some outer) (Some inner) (count_tunnel_end (consecutive_fails s) (lasted r)) (scan_settings s) (did [Closed (lasted r)] s1).2.

(** A scan that has not ended leaves the round where it is. *)
Definition gool_round (pinned : Session.WiwEndpoints) (s : Run) (r : Round S) : Run :=
  let s := drop_failing pinned s in
  match outer_peer s, inner_peer s with
  | Some outer, Some inner => open_pair outer inner s r
  | known_outer, known_inner =>
      let wanted := (if known_outer then 0 else 1) + (if known_inner then 0 else 1) in
      let avoid := list_to_set (map sa_ip (option_list known_outer ++ option_list known_inner)) in
      let s := logged [Scanned wanted avoid] (with_settings (choice r) s) in
      let '(mode_str, ip) := default (choice r) (scan_settings s) in
      match select_wg_peers (meets r) mode_str ip wanted avoid with
      | Ok found =>
          let found := if verified_scan_selected (scan_settings s) then spread_hops found else found in
          let '(outer, found) := match known_outer with Some outer => (Some outer, found) | None => (head found, tail found) end in
          let inner := match known_inner with Some inner => Some inner | None => head found end in
          match outer, inner with
          | Some outer, Some inner => open_pair outer inner s r
          | _, _ => mkRun (Session.outer pinned) (Session.inner pinned) (consecutive_fails s) (scan_settings s) (st s)
          end
      | _ => s
      end
  end.

(** [run_gool] *)
Definition run_gool (pinned : Session.WiwEndpoints) (s : State) (rounds : list (Round S)) : Run :=
  fold_left (gool_round pinned) rounds (start pinned s).
End gool.

Section mim.
Context {S : Type} `{Session.Scanner S} `{RandCrate}.

Definition open_mim (outer : SocketAddr) (candidates : list SocketAddr) (s : Run) (r : Round S) : Run :=
  let s1 := (run_masque_in_masque w env outer candidates (st s)).2 in
  mkRun (Some outer) (inner_peer s) (count_tunnel_end (consecutive_fails s) (lasted r)) (scan_settings s) (did [Closed (lasted r)] s1).2.

Definition mim_round (pinned : Session.WiwEndpoints) (s : Run) (r : Round S) : Run + AetherError :=
  let s := drop_failing pinned s in
  let '(s, outer) :=
    match outer_peer s with
    | Some peer => (s, Some peer)
    | None =>
        let s := logged [Scanned 1 ∅] (with_settings (choice r) s) in
        (s, match Session.scan (meets r) ∅ with Ok peer => Some peer | _ => None end)
    end in
  match outer with
  | None => inl s
  | Some outer =>
      match (match inner_peer s with
             | Some peer => Some [peer]
             | None => fst <$> Session.inner_masque_candidates outer MIM_INNER_TRIES (verified_scan_selected (scan_settings s)) (words r)
             end) with
      | None => inl s
      | Some [] => inr (Other (lit "no second masque edge is known for the inner hop"))
      | Some candidates => inl (open_mim outer candidates s r)
      end
  end.

Fixpoint mim_rounds (pinned : Session.WiwEndpoints) (s : Run) (rounds : list (Round S)) : Run + AetherError :=
  match rounds with
  | [] => inl s
  | r :: rounds => match mim_round pinned s r with inl s => mim_rounds pinned s rounds | inr e => inr e end
  end.
(** [run_mim] *)
Definition run_mim (pinned : Session.WiwEndpoints) (s : State) (rounds : list (Round S)) : Run + AetherError := mim_rounds pinned (start pinned s) rounds.
End mim.
End loops.

(** ** The relay between the hops *)

(** [spawn_udp_forwarder]: the loopback socket hears the inner tunnel, the stack of the outer
    one carries its packets to the edge and brings the answers. *)
Inductive Handoff := Handed | Congested | Broken.
Inductive RelayEvent :=
| Heard (from : SocketAddr) (data : bytes) (handoff : Handoff)
| Deaf
| Came (source : SocketAddr) (data : bytes)
| NoMore.
Inductive RelayAct := ToEdge (remote : SocketAddr) (data : bytes) | ToInner (peer : SocketAddr) (data : bytes).

Record Relay := mkRelay { known : option SocketAddr; up : bool; down : bool }.
Definition relay_start : Relay := mkRelay None true true.

Definition relay_step (remote : SocketAddr) (s : Relay) (e : RelayEvent) : Relay * list RelayAct :=
  match e with
  | Heard from data handoff =>
      if up s then
        (mkRelay (Some from) (match handoff with Broken => false | _ => true end) (down s),
         match handoff with Handed => [ToEdge remote data] | _ => [] end)
      else (s, [])
  | Deaf => (mkRelay (known s) false (down s), [])
  | Came _ data => if down s then (s, match known s with Some peer => [ToInner peer data] | None => [] end) else (s, [])
  | NoMore => (mkRelay (known s) (up s) false, [])
  end.
Fixpoint relay_run (remote : SocketAddr) (s : Relay) (events : list RelayEvent) : list RelayAct :=
  match events with
  | [] => []
  | e :: events => let '(s, acts) := relay_step remote s e in acts ++ relay_run remote s events
  end.

(** ** No task is left behind

    [owned base ts s]: what runs ran before, or is one of [ts], or is held by the guard. *)

Definition owned (base : Task -> Prop) (ts : list Task) (s : State) : Prop :=
  forall t, running t (log s) = true -> base t \/ t ∈ ts \/ t ∈ guard s.

(** From a state that owns [ts], a result [a] owns [Q a] and an error owns [E]. *)
Definition hoare {A} (ts : list Task) (m : M A) (Q : A -> list Task) (E : list Task) : Prop :=
  forall base s, owned base ts s ->
  match (m s).1 with Ok a => owned base (Q a) (m s).2 | Err _ => owned base E (m s).2 | Panic => True end.


Lemma running_aborted ts : forall t l, running t (rev (map Aborted ts) ++ l) = true <-> t ∉ ts /\ running t l = true.
Proof.
  induction ts as [|t' ts IH]; intros t l; cbn [map rev app]; [set_solver|].
  rewrite <- app_assoc, IH. cbn [app running]. rewrite andb_true_iff, negb_true_iff, bool_decide_eq_false, not_elem_of_cons. tauto.
Qed.

Section rules.
Context {A B : Type}.

Lemma owned_sub base ts ts' s : owned base ts s -> ts ⊆ ts' -> owned base ts' s.
Proof. intros H Hs t Ht. destruct (H t Ht) as [?|[?|?]]; auto. Qed.

Lemma hoare_ret (a : A) ts Q E : ts ⊆ Q a -> hoare ts (mret a) Q E.
Proof. intros Hs base s H. by eapply owned_sub. Qed.
Lemma hoare_fails (e : AetherError) ts (Q : A -> list Task) E : ts ⊆ E -> hoare ts (fails e) Q E.
Proof. intros Hs base s H. by eapply owned_sub. Qed.
Lemma hoare_lift (r : res AetherError A) ts (Q : A -> list Task) E : (forall a, ts ⊆ Q a) -> ts ⊆ E -> hoare ts (lift r) Q E.
Proof. intros Hs He base s H. destruct r; cbn; [by eapply owned_sub|by eapply owned_sub|done]. Qed.
Lemma hoare_bind (m : M A) (f : A -> M B) ts Q R E : hoare ts m Q E -> (forall a, hoare (Q a) (f a) R E) -> hoare ts (m ≫= f) R E.
Proof.
  intros Hm Hf base s H. specialize (Hm base s H). unfold mbind, M_bind. destruct (m s) as [[a|e|] s1]; cbn [fst snd] in *; [by apply Hf|done|done].
Qed.
Lemma hoare_weaken (m : M A) ts ts' (Q Q' : A -> list Task) E E' :
  hoare ts m Q E -> ts' ⊆ ts -> (forall a, Q a ⊆ Q' a) -> E ⊆ E' -> hoare ts' m Q' E'.
Proof.
  intros Hm Ht HQ HE base s H. specialize (Hm base s (owned_sub _ _ _ _ H Ht)). destruct (m s).1; [by eapply owned_sub|by eapply owned_sub|done].
Qed.
(** What an operation does not know of stays. *)
Lemma hoare_frame (m : M A) ts Q E more : hoare ts m Q E -> hoare (more ++ ts) m (fun a => more ++ Q a) (more ++ E).
Proof.
  intros Hm base s H. specialize (Hm (fun t => base t \/ t ∈ more) s).
  specialize (Hm ltac:(intros u Hu; destruct (H u Hu) as [?|[[?|?]%elem_of_app|?]]; auto)).
  assert (forall ts s, owned (fun t => base t \/ t ∈ more) ts s -> owned base (more ++ ts) s) as Hf.
  { intros ts' s' H' t Ht. destruct (H' t Ht) as [[?|?]|[?|?]]; auto; right; left; apply elem_of_app; auto. }
  destruct (m s).1; [by apply Hf|by apply Hf|done].
Qed.

Lemma owned_aborted base held ts s : owned base (held ++ ts) s -> owned base ts (did (map Aborted held) s).2.
Proof.
  intros H t Ht. cbn in Ht. apply running_aborted in Ht as [Hn Ht]. destruct (H t Ht) as [?|[[?|?]%elem_of_app|?]]; auto. done.
Qed.
Lemma hoare_holding (m : M A) held ts Q E (Q' : A -> list Task) E' :
  hoare ts m Q E -> (forall a, Q a ⊆ held ++ Q' a) -> E ⊆ held ++ E' -> hoare ts (holding held m) Q' E'.
Proof.
  intros Hm HQ HE base s H. specialize (Hm base s H). unfold holding. destruct (m s) as [[a|e|] s1]; cbn [fst snd] in *; [| |done];
    apply owned_aborted; by eapply owned_sub.
Qed.
Lemma hoare_scoped (m : M A) ts Q E : hoare ts m Q E -> hoare ts (scoped m) Q E.
Proof.
  intros Hm base s H. specialize (Hm (fun t => base t \/ t ∈ guard s) (mkState (log s) (quic_refused s) [] (provision s))). unfold scoped.
  specialize (Hm ltac:(intros u Hu; destruct (H u Hu) as [?|[?|?]]; auto)).
  destruct (m (mkState _ _ _ _)) as [r s1]. cbn [fst snd] in *.
  assert (forall ts, owned (fun t => base t \/ t ∈ guard s) ts s1 ->
    owned base ts (mkState (rev (map Aborted (guard s1)) ++ log s1) (quic_refused s1) (guard s) (provision s1))) as Hf.
  { intros ts' H' t Ht. cbn in *. apply running_aborted in Ht as [Hn Ht]. destruct (H' t Ht) as [[?|?]|[?|?]]; auto. done. }
  destruct r; [by apply Hf|by apply Hf|done].
Qed.
Lemma hoare_catch (m : M A) ts Q E E' :
  hoare ts m Q E -> hoare ts (catch m) (fun r => match r with inl a => Q a | inr _ => E end) E'.
Proof. intros Hm base s H. specialize (Hm base s H). unfold catch. destruct (m s) as [[a|e|] s1]; exact Hm. Qed.
End rules.

Lemma hoare_push t ts E : hoare (t :: ts) (push t) (fun _ => ts) E.
Proof.
  intros base s H u Hu. cbn in *. destruct (H u Hu) as [?|[Hi|?]]; auto; [|right; right; apply elem_of_app; auto].
  apply elem_of_cons in Hi as [->|?]; auto. right. right. apply elem_of_app. right. by apply list_elem_of_singleton.
Qed.

(** A step that starts with nothing of its own, when [ts] is owned around it. *)
Lemma hoare_step {A B} (m : M A) (f : A -> M B) ts Q R E :
  hoare [] m Q [] -> ts ⊆ E -> (forall a, hoare (Q a ++ ts) (f a) R E) -> hoare ts (m ≫= f) R E.
Proof.
  intros Hm Ht Hf. apply (hoare_bind _ _ _ (fun a => ts ++ Q a)).
  - eapply hoare_weaken; [apply (hoare_frame m [] Q [] ts Hm)|set_solver|set_solver|set_solver].
  - intros a. eapply hoare_weaken; [apply Hf|set_solver|set_solver|set_solver].
Qed.

Lemma hoare_did acts new ts E :
  (forall t l, running t (rev acts ++ l) = true -> running t l = true \/ t ∈ new) -> hoare ts (did acts) (fun _ => new ++ ts) E.
Proof.
  intros Ha base s H t Hr. cbn in *. destruct (Ha t (log s) Hr) as [Hl|Hn]; [|right; left; apply elem_of_app; auto].
  destruct (H t Hl) as [?|[?|?]]; auto. right. left. apply elem_of_app. auto.
Qed.

Lemma hoare_gone acts gone ts E :
  (forall t l, running t (rev acts ++ l) = true -> running t l = true /\ t ∉ gone) -> hoare (gone ++ ts) (did acts) (fun _ => ts) E.
Proof.
  intros Ha base s H t Hr. cbn in *. destruct (Ha t (log s) Hr) as [Hl Hn]. destruct (H t Hl) as [?|[[?|?]%elem_of_app|?]]; auto. done.
Qed.

Ltac tasks := intros; cbn [rev app running] in *; repeat match goal with
  | H : _ || _ = true |- _ => apply orb_prop in H as [H|H]
  | H : _ && _ = true |- _ => apply andb_prop in H as [? H]
  | H : bool_decide _ = true |- _ => apply bool_decide_eq_true in H; subst
  | H : negb (bool_decide _) = true |- _ => apply negb_true_iff, bool_decide_eq_false in H
  end; set_solver.

Section leaves.
Context `{UnicodeCase} `{b64 : Base64Crate} `{toml : TomlIdentity}.
Context (w : World) (pw : Provision.World) (env : bytes -> option bytes).

Lemma asked_ok ts E : hoare ts asked (fun _ => ts) E.
Proof. intros base s Hs t Ht. cbn in *. by apply Hs. Qed.
Lemma answer_ok o : hoare [] (answer o) (fun _ => []) [].
Proof. destruct o; [by apply hoare_fails|by apply hoare_ret]. Qed.
Lemma quiet_ok acts ts E : (forall t l, running t (rev acts ++ l) = running t l) -> hoare ts (did acts) (fun _ => ts) E.
Proof. intros Ha. eapply hoare_weaken; [apply (hoare_did acts []); intros t l; rewrite Ha; auto|set_solver..]. Qed.

Lemma establish_masque_ok peer h2 mtu datagram startup hop :
  hoare [] (establish_masque w peer h2 mtu datagram startup hop) (fun _ => [Bridge hop; Tunnel hop]) [].
Proof.
  unfold establish_masque. eapply hoare_bind; [apply asked_ok|]. intros n.
  assert (hoare [] (did [Started (Bridge hop); Dialed hop peer h2 datagram mtu; Started (Tunnel hop)]) (fun _ => [Bridge hop; Tunnel hop] ++ []) []) as Hd
    by (apply hoare_did; tasks).
  destruct (w_masque w n) as [e|e| |joined|]; [by apply hoare_fails|by apply hoare_fails| | |]; (eapply hoare_bind; [exact Hd|]); intros [].
  - by apply quiet_ok.
  - eapply (hoare_holding _ _ _ (fun _ => [Bridge hop; Tunnel hop]) [Bridge hop; Tunnel hop]); [|set_solver|set_solver].
    apply (hoare_bind _ _ _ (fun _ => [Bridge hop; Tunnel hop])); [|intros; by apply hoare_fails].
    eapply hoare_weaken; [apply (hoare_did _ []); tasks|set_solver..].
  - eapply (hoare_holding _ _ _ (fun _ => [Bridge hop; Tunnel hop]) [Bridge hop; Tunnel hop]); [|set_solver|set_solver].
    apply (hoare_bind _ _ _ (fun _ => [Bridge hop; Tunnel hop])); [|intros; by apply hoare_fails].
    eapply hoare_weaken; [apply (hoare_did _ []); tasks|set_solver..].
Qed.

Lemma establish_wg_ok identity peer mtu hop : hoare [] (establish_wg w identity peer mtu hop) (fun _ => [Tunnel hop]) [].
Proof.
  unfold establish_wg. eapply hoare_bind; [apply asked_ok|]. intros n. destruct (Prober.parse_ipv4 _); [|by apply hoare_fails].
  apply (hoare_bind _ _ _ (fun _ => [])); [by apply quiet_ok|]. intros []. destruct (w_verify w n); [by apply hoare_fails|].
  apply (hoare_bind _ _ _ (fun _ => [])); [apply answer_ok|]. intros []. eapply hoare_weaken; [apply (hoare_did _ [Tunnel hop]); tasks|set_solver..].
Qed.

Lemma spawn_forwarder_ok remote tcp : hoare [] (spawn_forwarder w remote tcp) (fun _ => [Forwarder]) [].
Proof.
  unfold spawn_forwarder. eapply hoare_bind; [apply asked_ok|]. intros n.
  apply (hoare_bind _ _ _ (fun _ => [])); [apply answer_ok|]. intros []. eapply hoare_weaken; [apply (hoare_did _ [Forwarder]); tasks|set_solver..].
Qed.

Lemma settle_ok : hoare [] (settle w) (fun _ => []) [].
Proof.
  unfold settle. eapply hoare_bind; [apply asked_ok|]. intros n. apply (hoare_bind _ _ _ (fun _ => [])); [apply answer_ok|]. intros []. by apply quiet_ok.
Qed.

(** Whoever ends first, both tunnels have ended when the serving is over. *)
Lemma serve_ok a b ts : hoare (Tunnel Outer :: Tunnel Inner :: ts) (serve w a b) (fun _ => ts) ts.
Proof.
  unfold serve. eapply hoare_bind; [apply asked_ok|]. intros n. apply (hoare_bind _ _ _ (fun _ => Tunnel Outer :: Tunnel Inner :: ts)); [by apply quiet_ok|]. intros [].
  assert (forall acts (r : M unit), (forall t l, running t (rev acts ++ l) = true -> running t l = true /\ t ∉ [Tunnel Outer; Tunnel Inner]) ->
    hoare ts r (fun _ => ts) ts -> hoare (Tunnel Outer :: Tunnel Inner :: ts) (_ ← did acts; r) (fun _ => ts) ts) as Hgone.
  { intros acts r Ha Hr. eapply hoare_bind; [apply (hoare_gone acts [Tunnel Outer; Tunnel Inner] ts), Ha|]. by intros []. }
  destruct (w_ending w n); apply Hgone; [tasks|by apply hoare_lift|tasks|by apply hoare_lift|tasks|by apply hoare_fails].
Qed.

Lemma run_warp_in_warp_ok primary secondary peer inner_peer :
  hoare [] (run_warp_in_warp w primary secondary peer inner_peer) (fun _ => []) [].
Proof.
  unfold run_warp_in_warp. case_bool_decide; [by apply hoare_fails|]. apply hoare_scoped.
  apply (hoare_step _ _ _ _ _ _ (establish_wg_ok _ _ _ _)); [done|]. intros [].
  eapply hoare_bind; [apply hoare_push|]. intros [].
  apply (hoare_step _ _ _ _ _ _ (spawn_forwarder_ok _ _)); [done|]. intros [].
  eapply (hoare_holding _ _ _ (fun _ => [Forwarder]) [Forwarder]); [|set_solver|set_solver].
  apply (hoare_step _ _ _ _ _ _ (establish_wg_ok _ _ _ _)); [done|]. intros [].
  eapply hoare_bind; [apply hoare_push|]. intros [].
  apply (hoare_step _ _ _ _ _ _ settle_ok); [done|]. intros [].
  eapply hoare_weaken; [apply (serve_ok _ _ [Forwarder])|set_solver..].
Qed.

Lemma try_inner_ok outer_mtu inner_peer inner_h2 :
  hoare [] (try_inner w env outer_mtu inner_peer inner_h2) (fun up => if up : bool then [Forwarder; Bridge Inner; Tunnel Inner] else []) [].
Proof.
  unfold try_inner. destruct (mim_inner_budget _ _ _) as [datagram mtu].
  apply (hoare_step _ _ _ _ _ _ (spawn_forwarder_ok _ _)); [done|]. intros [].
  eapply hoare_bind; [apply hoare_catch, (hoare_frame _ [] (fun _ => [Bridge Inner; Tunnel Inner]) [] [Forwarder]), establish_masque_ok|]. intros [[]|e].
  - apply hoare_ret. set_solver.
  - eapply (hoare_holding _ _ _ (fun _ => [Forwarder]) [Forwarder]); [apply hoare_ret; set_solver|set_solver|set_solver].
Qed.

Definition inner_hop_tasks (up : bool) : list Task := if up then [Forwarder; Bridge Inner; Tunnel Inner] else [].

Lemma try_modes_ok outer_mtu inner_peer modes : forall failed,
  hoare [] (try_modes w env outer_mtu inner_peer failed modes) inner_hop_tasks [].
Proof.
  induction modes as [|inner_h2 modes IH]; intros failed; cbn [try_modes]; [by apply hoare_ret|].
  eapply hoare_bind; [apply try_inner_ok|]. intros [|]; [|apply IH].
  apply (hoare_bind _ _ _ (fun _ => inner_hop_tasks true)); [|intros []; by apply hoare_ret].
  destruct (inner_h2 && failed); [by intros base s|by apply hoare_ret].
Qed.

Lemma try_edges_ok h2 quic outer_mtu peer inner_peers :
  hoare [] (try_edges w env h2 quic outer_mtu peer inner_peers) (fun o => inner_hop_tasks (bool_decide (is_Some o))) [].
Proof.
  induction inner_peers as [|p l IH]; cbn [try_edges]; [by apply hoare_ret|]. case_bool_decide; [apply IH|].
  apply (hoare_bind _ _ _ (fun _ => [])); [by intros base s|]. intros q.
  eapply hoare_bind; [apply try_modes_ok|]. intros [|]; [|apply IH]. by apply hoare_ret.
Qed.

Lemma run_masque_in_masque_ok peer inner_peers : hoare [] (run_masque_in_masque w env peer inner_peers) (fun _ => []) [].
Proof.
  unfold run_masque_in_masque. cbn zeta. eapply hoare_bind; [apply establish_masque_ok|]. intros [].
  eapply (hoare_holding _ _ _ (fun _ => [Bridge Outer; Tunnel Outer]) [Bridge Outer; Tunnel Outer]); [|set_solver|set_solver].
  apply (hoare_step _ _ _ _ _ _ (try_edges_ok _ _ _ _ _)); [done|]. intros [p|]; [|apply hoare_fails; set_solver].
  eapply (hoare_holding _ _ _ (fun _ => [Forwarder; Bridge Inner; Tunnel Inner; Bridge Outer; Tunnel Outer])
    [Forwarder; Bridge Inner; Tunnel Inner; Bridge Outer; Tunnel Outer]); [|set_solver|set_solver].
  apply (hoare_step _ _ _ _ _ _ settle_ok); [set_solver|]. intros [].
  eapply hoare_weaken; [apply (serve_ok _ _ [Forwarder; Bridge Inner; Bridge Outer])|set_solver..].
Qed.

Lemma provided_ok {A} (m : Provision.M A) ts E : ts ⊆ E -> hoare ts (provided m) (fun _ => ts) E.
Proof. intros Ht base s Hs. unfold provided. destruct (m (provision s)) as [[a|e|] p]; cbn; [done|by eapply owned_sub|done]. Qed.

Lemma gool_inner_identity_ok path : hoare [] (gool_inner_identity w pw path) (fun _ => []) [].
Proof.
  unfold gool_inner_identity. eapply hoare_bind; [by apply provided_ok|]. intros [i|]; [by apply hoare_ret|].
  eapply hoare_bind; [apply asked_ok|]. intros n. eapply hoare_bind; [apply answer_ok|]. intros [].
  apply (hoare_bind _ _ _ (fun _ => [Proxy])); [eapply hoare_weaken; [apply (hoare_did _ [Proxy]); tasks|set_solver..]|]. intros [].
  eapply (hoare_holding _ _ _ (fun _ => [Proxy]) [Proxy]); [by apply provided_ok|set_solver|set_solver].
Qed.

Lemma try_attempts_ok n i peer ts E : forall e,
  hoare ts (try_attempts w n i peer e) (fun r => if r then ts ++ [Tunnel Inner] else ts) E.
Proof.
  induction n as [|n IH]; intros e; cbn [try_attempts]; [by apply hoare_ret|].
  eapply hoare_bind.
  - apply hoare_catch. eapply hoare_weaken; [apply (hoare_frame _ [] (fun _ => [Tunnel Inner]) [] ts), establish_wg_ok|set_solver|done|done].
  - intros [[]|e']; [by apply hoare_ret|]. eapply hoare_weaken; [apply IH|set_solver|done|done].
Qed.

Lemma try_peers_ok i l : forall e, hoare [] (try_peers w i l e) (fun _ => [Forwarder; Tunnel Inner]) [].
Proof.
  induction l as [|p l IH]; intros e; cbn [try_peers]; [by apply hoare_fails|].
  apply (hoare_step _ _ _ _ _ _ (spawn_forwarder_ok _ _)); [done|]. intros [].
  eapply hoare_bind; [apply try_attempts_ok|]. intros [[]|e']; [apply hoare_ret; set_solver|].
  apply (hoare_bind _ _ _ (fun _ => [])); [|intros []; apply IH].
  eapply (hoare_holding _ _ _ (fun _ => [Forwarder]) []); [apply hoare_ret; set_solver|set_solver|set_solver].
Qed.

(** The inner tunnel's task is not held by a guard: it stays when the exit is refused. *)
Lemma run_gool_tunnel_ok peer path : hoare [] (run_gool_tunnel w pw env peer path) (fun _ => []) [Tunnel Inner].
Proof.
  unfold run_gool_tunnel. cbn zeta. eapply hoare_bind; [eapply hoare_weaken; [apply establish_masque_ok|set_solver..]|]. intros [].
  eapply (hoare_holding _ _ _ (fun _ => [Bridge Outer; Tunnel Outer]) [Bridge Outer; Tunnel Outer; Tunnel Inner]); [|set_solver|set_solver].
  apply (hoare_step _ _ _ _ _ _ (gool_inner_identity_ok _)); [set_solver|]. intros i.
  apply (hoare_bind _ _ _ (fun _ => [Bridge Outer; Tunnel Outer])); [apply hoare_lift; set_solver|]. intros candidates.
  apply (hoare_step _ _ _ _ _ _ (try_peers_ok _ _ _)); [set_solver|]. intros p.
  eapply (hoare_holding _ _ _ (fun _ => [Forwarder; Bridge Outer; Tunnel Outer])
    [Forwarder; Bridge Outer; Tunnel Outer; Tunnel Inner]); [|set_solver|set_solver].
  set (ts := [Forwarder; Tunnel Inner] ++ [Bridge Outer; Tunnel Outer]).
  apply (hoare_bind _ _ _ (fun _ => ts)).
  { unfold remember_endpoint. destruct (_ && _); [|by apply hoare_ret].
    eapply hoare_bind; [by apply hoare_catch, (provided_ok _ ts ts)|]. intros [|]; by apply hoare_ret. }
  intros []. apply (hoare_step _ _ _ _ _ _ settle_ok); [set_solver|]. intros [].
  eapply hoare_weaken; [apply (serve_ok _ _ [Forwarder; Bridge Outer])|set_solver..].
Qed.
End leaves.



(** The guard of the caller is not touched, and nothing here panics. *)
Definition keeps_guard {A} (m : M A) : Prop := forall s, guard (m s).2 = guard s.
Definition no_panic {A} (m : M A) : Prop := forall s, (m s).1 <> Panic.

Create HintDb hops.

Section tidy.
Context {A B : Type}.
Lemma keeps_bind (m : M A) (f : A -> M B) : keeps_guard m -> (forall a, keeps_guard (f a)) -> keeps_guard (m ≫= f).
Proof. intros Hm Hf s. specialize (Hm s). unfold mbind, M_bind. destruct (m s) as [[a|e|] s1]; cbn [snd] in *; [by rewrite Hf|done|done]. Qed.
Lemma keeps_ret (a : A) : keeps_guard (mret a). Proof. done. Qed.
Lemma keeps_fails e : keeps_guard (fails e : M A). Proof. done. Qed.
Lemma keeps_lift (r : res AetherError A) : keeps_guard (lift r). Proof. done. Qed.
Lemma keeps_catch (m : M A) : keeps_guard m -> keeps_guard (catch m).
Proof. intros Hm s. specialize (Hm s). unfold catch. by destruct (m s) as [[a|e|] s1]. Qed.
Lemma keeps_holding ts (m : M A) : keeps_guard m -> keeps_guard (holding ts m).
Proof. intros Hm s. specialize (Hm s). unfold holding. by destruct (m s) as [r s1]. Qed.
Lemma keeps_provided (m : Provision.M A) : keeps_guard (provided m).
Proof. intros s. unfold provided. by destruct (m (provision s)). Qed.
Lemma keeps_scoped (m : M A) : keeps_guard (scoped m).
Proof. intros s. unfold scoped. by destruct (m _). Qed.

Lemma safe_bind (m : M A) (f : A -> M B) : no_panic m -> (forall a, no_panic (f a)) -> no_panic (m ≫= f).
Proof. intros Hm Hf s. specialize (Hm s). unfold mbind, M_bind. destruct (m s) as [[a|e|] s1]; cbn [fst] in *; [by apply Hf|done|done]. Qed.
Lemma safe_ret (a : A) : no_panic (mret a). Proof. done. Qed.
Lemma safe_fails e : no_panic (fails e : M A). Proof. done. Qed.
Lemma safe_catch (m : M A) : no_panic m -> no_panic (catch m).
Proof. intros Hm s. specialize (Hm s). unfold catch. by destruct (m s) as [[a|e|] s1]. Qed.
Lemma safe_holding ts (m : M A) : no_panic m -> no_panic (holding ts m).
Proof. intros Hm s. specialize (Hm s). unfold holding. by destruct (m s) as [r s1]. Qed.
Lemma safe_scoped (m : M A) : no_panic m -> no_panic (scoped m).
Proof. intros Hm s. unfold scoped. specialize (Hm (mkState (log s) (quic_refused s) [] (provision s))). by destruct (m _). Qed.
End tidy.

Lemma keeps_did acts : keeps_guard (did acts). Proof. done. Qed.
Lemma keeps_asked : keeps_guard asked. Proof. done. Qed.
Lemma keeps_refused : keeps_guard is_quic_refused. Proof. done. Qed.
Lemma keeps_refuse : keeps_guard refuse_quic. Proof. done. Qed.
Lemma safe_did acts : no_panic (did acts). Proof. done. Qed.
Lemma safe_asked : no_panic asked. Proof. done. Qed.
Lemma safe_push t : no_panic (push t). Proof. done. Qed.
Lemma safe_refused : no_panic is_quic_refused. Proof. done. Qed.
Lemma safe_refuse : no_panic refuse_quic. Proof. done. Qed.
Lemma safe_join what joined : no_panic (lift (join_outcome what joined)). Proof. by destruct joined as [[e|]| |]. Qed.

#[export] Hint Resolve keeps_ret keeps_fails keeps_lift keeps_provided keeps_scoped keeps_did keeps_asked keeps_refused keeps_refuse
  safe_ret safe_fails safe_did safe_asked safe_push safe_refused safe_refuse safe_join : hops.

(** Both properties follow the structure of the program. *)
Ltac by_structure := repeat (cbn zeta; match goal with
  | |- keeps_guard (match ?x with _ => _ end) => destruct x
  | |- no_panic (match ?x with _ => _ end) => destruct x
  | |- forall _, _ => intros ?
  | |- _ => solve [auto with hops]
  | |- keeps_guard _ => first [apply keeps_bind|apply keeps_holding|apply keeps_catch]
  | |- no_panic _ => first [apply safe_bind|apply safe_holding|apply safe_catch|apply safe_scoped]
  end).

Section tidy_hops.
Context `{UnicodeCase} `{b64 : Base64Crate} `{toml : TomlIdentity}.
Context (w : World) (pw : Provision.World) (env : bytes -> option bytes).

Lemma answer_tidy o : keeps_guard (answer o) /\ no_panic (answer o).
Proof. by destruct o. Qed.
Lemma establish_masque_tidy peer h2 mtu datagram startup hop :
  keeps_guard (establish_masque w peer h2 mtu datagram startup hop) /\ no_panic (establish_masque w peer h2 mtu datagram startup hop).
Proof. split; unfold establish_masque; by_structure. Qed.
#[local] Hint Extern 1 => apply answer_tidy : hops.
Lemma establish_wg_tidy identity peer mtu hop : keeps_guard (establish_wg w identity peer mtu hop) /\ no_panic (establish_wg w identity peer mtu hop).
Proof. split; unfold establish_wg; by_structure. Qed.
Lemma spawn_forwarder_tidy remote tcp : keeps_guard (spawn_forwarder w remote tcp) /\ no_panic (spawn_forwarder w remote tcp).
Proof. split; unfold spawn_forwarder; by_structure. Qed.
Lemma settle_tidy : keeps_guard (settle w) /\ no_panic (settle w).
Proof. split; unfold settle; by_structure. Qed.
Lemma serve_tidy a b : keeps_guard (serve w a b) /\ no_panic (serve w a b).
Proof. split; unfold serve; by_structure. Qed.
#[local] Hint Extern 1 => apply establish_masque_tidy : hops.
#[local] Hint Extern 1 => apply establish_wg_tidy : hops.
#[local] Hint Extern 1 => apply spawn_forwarder_tidy : hops.
#[local] Hint Extern 1 => apply settle_tidy : hops.
#[local] Hint Extern 1 => apply serve_tidy : hops.

Lemma run_warp_in_warp_tidy primary secondary peer inner_peer :
  keeps_guard (run_warp_in_warp w primary secondary peer inner_peer) /\ no_panic (run_warp_in_warp w primary secondary peer inner_peer).
Proof. split; unfold run_warp_in_warp; by_structure. Qed.

Lemma try_inner_tidy outer_mtu inner_peer inner_h2 :
  keeps_guard (try_inner w env outer_mtu inner_peer inner_h2) /\ no_panic (try_inner w env outer_mtu inner_peer inner_h2).
Proof. split; unfold try_inner; by_structure. Qed.
#[local] Hint Extern 1 => apply try_inner_tidy : hops.

Lemma try_modes_tidy outer_mtu inner_peer modes : forall failed,
  keeps_guard (try_modes w env outer_mtu inner_peer failed modes) /\ no_panic (try_modes w env outer_mtu inner_peer failed modes).
Proof. induction modes as [|m modes IH]; intros failed; split; cbn [try_modes]; by_structure; apply IH. Qed.
#[local] Hint Extern 1 => apply try_modes_tidy : hops.

Lemma try_edges_tidy h2 quic outer_mtu peer inner_peers :
  keeps_guard (try_edges w env h2 quic outer_mtu peer inner_peers) /\ no_panic (try_edges w env h2 quic outer_mtu peer inner_peers).
Proof. induction inner_peers as [|p l IH]; split; cbn [try_edges]; by_structure; apply IH. Qed.
#[local] Hint Extern 1 => apply try_edges_tidy : hops.

Lemma run_masque_in_masque_tidy peer inner_peers :
  keeps_guard (run_masque_in_masque w env peer inner_peers) /\ no_panic (run_masque_in_masque w env peer inner_peers).
Proof. split; unfold run_masque_in_masque; by_structure. Qed.

Lemma try_attempts_keeps n i peer : forall e, keeps_guard (try_attempts w n i peer e).
Proof. induction n as [|n IH]; intros e; cbn [try_attempts]; by_structure; apply IH. Qed.
#[local] Hint Resolve try_attempts_keeps : hops.
Lemma try_peers_keeps i l : forall e, keeps_guard (try_peers w i l e).
Proof. induction l as [|p l IH]; intros e; cbn [try_peers]; by_structure; apply IH. Qed.
#[local] Hint Resolve try_peers_keeps : hops.
Lemma run_gool_tunnel_keeps peer path : keeps_guard (run_gool_tunnel w pw env peer path).
Proof. unfold run_gool_tunnel, gool_inner_identity, remember_endpoint; by_structure. Qed.

(** C14.  When a nested tunnel is over, for whatever reason, no task of it runs any more: the
    tunnels, the tasks that follow the addresses, the relay between the hops and the proxy of
    a registration.  Only the
    inner tunnel of gool over MASQUE may be left, when the run ended with an error. *)
Theorem nested_tunnels_leave_no_task s :
  guard s = [] -> (forall t, running t (log s) = false) ->
  (forall primary secondary peer inner t, running t (log (run_warp_in_warp w primary secondary peer inner s).2) = false) /\
  (forall peer inners t, running t (log (run_masque_in_masque w env peer inners s).2) = false) /\
  (forall peer path t, let out := run_gool_tunnel w pw env peer path s in
     out.1 <> Panic -> running t (log out.2) = true -> t = Tunnel Inner /\ exists e, out.1 = Err e).
Proof.
  intros Hg Hl. assert (owned (fun _ => False) [] s) as Hs by (intros t Ht; by rewrite Hl in Ht).
  assert (forall {A} (m : M A) t, hoare [] m (fun _ => []) [] -> keeps_guard m /\ no_panic m -> running t (log (m s).2) = false) as Hm.
  { intros A m t Hh [Hk Hp]. apply not_true_is_false. intros Ht. specialize (Hh _ s Hs). specialize (Hp s).
    destruct (m s).1 eqn:Hr; [| |done]; destruct (Hh t Ht) as [[]|[Hn|Hn]]; try (by apply elem_of_nil in Hn); rewrite Hk, Hg in Hn; by apply elem_of_nil in Hn. }
  split; [intros; apply Hm; [by apply run_warp_in_warp_ok|apply run_warp_in_warp_tidy]|].
  split; [intros; apply Hm; [apply run_masque_in_masque_ok|apply run_masque_in_masque_tidy]|].
  intros peer path t out Hp Ht. pose proof (run_gool_tunnel_ok w pw env peer path _ s Hs) as Hh. pose proof (run_gool_tunnel_keeps peer path s) as Hk.
  fold out in Hh, Hk. rewrite Hg in Hk. destruct out.1 as [u|e|] eqn:Hr; [| |done].
  - destruct (Hh t Ht) as [[]|[Hn|Hn]]; [|rewrite Hk in Hn]; by apply elem_of_nil in Hn.
  - destruct (Hh t Ht) as [[]|[Hn|Hn]]; [|rewrite Hk in Hn; by apply elem_of_nil in Hn].
    apply list_elem_of_singleton in Hn as ->. split; [done|]. by exists e.
Qed.
End tidy_hops.

(** ** The loops over their rounds *)

(** Entries of the loops themselves. *)
Definition of_loop (a : Act) : bool :=
  match a with Scanned _ _ | Rescanning _ _ | Opened _ _ | Closed _ => true | _ => false end.

(** What a nested tunnel logs says nothing of the loop. *)
Definition tunnel_only {A} (m : M A) : Prop := forall s, filter (fun a => of_loop a = true) (log (m s).2) = filter (fun a => of_loop a = true) (log s).

Section tunnel_only.
Context {A B : Type}.
Lemma only_bind (m : M A) (f : A -> M B) : tunnel_only m -> (forall a, tunnel_only (f a)) -> tunnel_only (m ≫= f).
Proof. intros Hm Hf s. specialize (Hm s). unfold mbind, M_bind. destruct (m s) as [[a|e|] s1]; cbn [snd] in *; [by rewrite Hf|done|done]. Qed.
Lemma only_ret (a : A) : tunnel_only (mret a). Proof. done. Qed.
Lemma only_fails e : tunnel_only (fails e : M A). Proof. done. Qed.
Lemma only_lift (r : res AetherError A) : tunnel_only (lift r). Proof. done. Qed.
Lemma only_catch (m : M A) : tunnel_only m -> tunnel_only (catch m).
Proof. intros Hm s. specialize (Hm s). unfold catch. by destruct (m s) as [[a|e|] s1]. Qed.
Lemma only_did acts : forallb (fun a => negb (of_loop a)) acts = true -> tunnel_only (did acts).
Proof.
  intros Ha s. cbn. rewrite filter_app. assert (forall l, forallb (fun a => negb (of_loop a)) l = true -> filter (fun a => of_loop a = true) l = []) as Hf.
  { induction l as [|a l IH]; [done|]. cbn [forallb]. intros [Hn Hl]%andb_prop. rewrite filter_cons, IH by done. by destruct (of_loop a). }
  rewrite Hf; [done|]. apply forallb_forall. intros a Hin. rewrite <- in_rev in Hin. rewrite forallb_forall in Ha. by apply Ha.
Qed.
Lemma only_aborted ts : forallb (fun a => negb (of_loop a)) (map Aborted ts) = true.
Proof. by induction ts. Qed.
Lemma only_holding ts (m : M A) : tunnel_only m -> tunnel_only (holding ts m).
Proof. intros Hm s. specialize (Hm s). unfold holding. destruct (m s) as [r s1]. cbn [snd] in *. by rewrite only_did by apply only_aborted. Qed.
Lemma only_scoped (m : M A) : tunnel_only m -> tunnel_only (scoped m).
Proof.
  intros Hm s. specialize (Hm (mkState (log s) (quic_refused s) [] (provision s))). unfold scoped. destruct (m _) as [r s1]. cbn [snd log] in *.
  rewrite <- Hm. by apply (only_did _ (only_aborted (guard s1)) s1).
Qed.
End tunnel_only.
Lemma only_asked : tunnel_only asked. Proof. done. Qed.
Lemma only_push t : tunnel_only (push t). Proof. done. Qed.
Lemma only_refused : tunnel_only is_quic_refused. Proof. done. Qed.
Lemma only_refuse : tunnel_only refuse_quic. Proof. done. Qed.

#[export] Hint Resolve only_ret only_fails only_lift only_did only_asked only_push only_refused only_refuse : hops.
Ltac by_parts := repeat (cbn zeta; match goal with
  | |- tunnel_only (match ?x with _ => _ end) => destruct x
  | |- forall _, _ => intros ?
  | |- _ => solve [auto with hops]
  | |- tunnel_only _ => first [apply only_bind|apply only_holding|apply only_catch|apply only_scoped]
  end).

Section only.
Context `{UnicodeCase}.
Context (w : World) (env : bytes -> option bytes).
Lemma answer_only o : tunnel_only (answer o). Proof. by destruct o. Qed.
#[local] Hint Resolve answer_only : hops.
Lemma establish_masque_only peer h2 mtu datagram startup hop : tunnel_only (establish_masque w peer h2 mtu datagram startup hop).
Proof. unfold establish_masque. by_parts. Qed.
Lemma establish_wg_only identity peer mtu hop : tunnel_only (establish_wg w identity peer mtu hop).
Proof. unfold establish_wg. by_parts. Qed.
Lemma spawn_forwarder_only remote tcp : tunnel_only (spawn_forwarder w remote tcp).
Proof. unfold spawn_forwarder. by_parts. Qed.
Lemma settle_only : tunnel_only (settle w).
Proof. unfold settle. by_parts. Qed.
Lemma serve_only a b : tunnel_only (serve w a b).
Proof. unfold serve. by_parts. Qed.
#[local] Hint Resolve establish_masque_only establish_wg_only spawn_forwarder_only settle_only serve_only : hops.
Lemma run_warp_in_warp_only primary secondary peer inner_peer : tunnel_only (run_warp_in_warp w primary secondary peer inner_peer).
Proof. unfold run_warp_in_warp. by_parts. Qed.
Lemma try_inner_only outer_mtu inner_peer inner_h2 : tunnel_only (try_inner w env outer_mtu inner_peer inner_h2).
Proof. unfold try_inner. by_parts. Qed.
#[local] Hint Resolve try_inner_only : hops.
Lemma try_modes_only outer_mtu inner_peer modes : forall failed, tunnel_only (try_modes w env outer_mtu inner_peer failed modes).
Proof. induction modes as [|m modes IH]; intros failed; cbn [try_modes]; by_parts. Qed.
#[local] Hint Resolve try_modes_only : hops.
Lemma try_edges_only h2 quic outer_mtu peer inner_peers : tunnel_only (try_edges w env h2 quic outer_mtu peer inner_peers).
Proof. induction inner_peers as [|p l IH]; cbn [try_edges]; by_parts. Qed.
#[local] Hint Resolve try_edges_only : hops.
Lemma run_masque_in_masque_only peer inner_peers : tunnel_only (run_masque_in_masque w env peer inner_peers).
Proof. unfold run_masque_in_masque. by_parts. Qed.
End only.

Lemma spread_hops_perm l : spread_hops l ≡ₚ l.
Proof.
  destruct l as [|a [|b l]]; [done|done|]. unfold spread_hops. destruct (Session.position _ _) as [other|]; [|done].
  destruct (1 <=? other)%nat; [apply swap_perm|done].
Qed.

Section gool_safe.
Context `{UnicodeCase} {S : Type} `{HopScanner S}.
Context (w : World) (env : bytes -> option bytes) (primary secondary : Identity).

(** Two endpoints of a scan are on one address only when it is that of the floor. *)
Lemma twins_floor front (l : list SocketAddr) a rest :
  distinct_behind front l -> map sa_ip l ≡ₚ a :: a :: rest -> exists p, front = Some p /\ sa_ip p = a.
Proof.
  assert (forall K : list IpAddr, NoDup K -> K ≡ₚ a :: a :: rest -> False) as Hno.
  { intros K Hk Hp. rewrite Hp in Hk. apply NoDup_cons in Hk as [Hk _]. apply Hk. apply elem_of_cons. by left. }
  intros [Hn|(p & l' & -> & -> & Hn)] Hp; [by apply Hno in Hp|]. exists p. split; [done|]. cbn [map] in Hp.
  destruct (decide (sa_ip p = a)) as [|Hne]; [done|exfalso].
  assert (a ∈ map sa_ip l') as Ha.
  { assert (a ∈ sa_ip p :: map sa_ip l') as Ha by (rewrite Hp; apply elem_of_cons; by left). apply elem_of_cons in Ha as [?|?]; [congruence|done]. }
  apply elem_of_Permutation in Ha as [k Hk]. rewrite Hk in Hp, Hn.
  assert (sa_ip p :: k ≡ₚ a :: rest) as Hp2 by (apply (Permutation_cons_inv (a := a)); rewrite <- Hp; apply perm_swap).
  apply NoDup_cons in Hn as [Hn _]. apply Hn.
  assert (a ∈ sa_ip p :: k) as Ha by (rewrite Hp2; apply elem_of_cons; by left). apply elem_of_cons in Ha as [?|?]; [congruence|done].
Qed.

Lemma distinct_behind_sublist front l k : sublist k l -> distinct_behind front l -> distinct_behind front k.
Proof.
  assert (forall k l : list SocketAddr, sublist k l -> NoDup (map sa_ip l) -> NoDup (map sa_ip k)) as Hsub.
  { intros k' l' Hs Hn. eapply sublist_NoDup; [exact Hn|]. clear -Hs. induction Hs; cbn; [constructor|by apply sublist_skip|by apply sublist_cons]. }
  intros Hs [Hn|(p & l' & -> & -> & Hn)]; [left; by eapply Hsub|]. inversion Hs; subst; [right; eexists _, _; by split_and!; [..|eapply Hsub]|left; by eapply Hsub].
Qed.

Lemma select_wg_peers_ok meets mode_str ip want avoid found :
  select_wg_peers primary meets mode_str ip want avoid = Ok found ->
  found <> [] /\ distinct_behind (floor_left meets) found /\ Forall (fun p => sa_ip p ∉ avoid) found.
Proof.
  unfold select_wg_peers. destruct (Prober.parse_ipv4 _); [|done]. cbn [mbind res_bind]. intros (l & Hl & Hf)%res_bind_Ok.
  apply hunt_distinct in Hl. case_bool_decide as Hn; [done|]. injection Hf as <-. split; [done|]. split.
  - set (k := filter _ _). assert (sublist (take (Z.to_nat want) k) l) as Hs by (etrans; [apply sublist_take|apply sublist_filter]).
    by eapply distinct_behind_sublist.
  - apply Forall_forall. intros p Hp. apply (subseteq_take (Z.to_nat want)) in Hp. by apply list_elem_of_filter in Hp as [? _].
Qed.

(** The hops are on separate addresses, unless none was given by hand and both are on the address
    of a floor that was left. *)
Definition on_separate_edges (pinned : Session.WiwEndpoints) (floors : list SocketAddr) (outer inner : SocketAddr) : Prop :=
  sa_ip outer <> sa_ip inner \/
  Session.outer pinned = None /\ Session.inner pinned = None /\ exists p, p ∈ floors /\ sa_ip p = sa_ip outer /\ sa_ip p = sa_ip inner.

(** The pair of a run that was told [pinned]. *)
Definition fits (pinned : Session.WiwEndpoints) (floors : list SocketAddr) (outer inner : SocketAddr) : Prop :=
  on_separate_edges pinned floors outer inner /\ (forall p, Session.outer pinned = Some p -> outer = p) /\ (forall p, Session.inner pinned = Some p -> inner = p).

Context (floors : list SocketAddr).

Definition apart (pinned : Session.WiwEndpoints) (s : Run) : Prop :=
  (forall o i, Opened o i ∈ log (st s) -> fits pinned floors o i) /\
  (forall p, Session.outer pinned = Some p -> outer_peer s = Some p) /\ (forall p, Session.inner pinned = Some p -> inner_peer s = Some p) /\
  (forall o i, outer_peer s = Some o -> inner_peer s = Some i -> on_separate_edges pinned floors o i).

Lemma opened_of_loop o i (l : list Act) : Opened o i ∈ l <-> Opened o i ∈ filter (fun a => of_loop a = true) l.
Proof. rewrite list_elem_of_filter. split; [done|by intros [_ ?]]. Qed.

Lemma logged_apart pinned acts s : (forall o i, Opened o i ∉ acts) -> apart pinned s -> apart pinned (logged acts s).
Proof. intros Ha (Hl & Hr). split; [|exact Hr]. intros o i. cbn. rewrite elem_of_app, (list_elem_of_In (rev _)), <- in_rev, <- list_elem_of_In. intros [Hin|Hin]; [by apply Ha in Hin|by apply Hl]. Qed.

Lemma drop_failing_apart pinned s : apart pinned s -> apart pinned (drop_failing pinned s).
Proof.
  intros Hs. unfold drop_failing. destruct (_ <=? _); [|done]. destruct Hs as (Hl & Ho & Hi & Hd).
  destruct (dropped Outer (Session.outer pinned) (outer_peer s)) as [o l1] eqn:E1.
  destruct (dropped Inner (Session.inner pinned) (inner_peer s)) as [i l2] eqn:E2.
  assert (forall hop pinned known o l, dropped hop pinned known = (o, l) -> (forall a b, Opened a b ∉ l) /\ (o = known \/ o = None /\ pinned = None)) as Hdr.
  { unfold dropped. intros hop [p|] [k|] o' l' [= <- <-]; (split; [intros a b; set_solver|auto]). }
  destruct (Hdr _ _ _ _ _ E1) as [H1 Hoo]. destruct (Hdr _ _ _ _ _ E2) as [H2 Hii].
  apply logged_apart; [intros a b; rewrite elem_of_app; intros [Hin|Hin]; [by apply H1 in Hin|by apply H2 in Hin]|].
  unfold apart. cbn. split; [done|]. split; [intros p Hp; destruct Hoo as [->|[_ ?]]; [by apply Ho|congruence]|].
  split; [intros p Hp; destruct Hii as [->|[_ ?]]; [by apply Hi|congruence]|].
  intros a b Ha Hb. destruct Hoo as [->|[-> _]]; [|done]. destruct Hii as [->|[-> _]]; [|done]. by apply Hd.
Qed.

Lemma open_pair_apart pinned outer inner s (r : Round S) : apart pinned s -> fits pinned floors outer inner -> apart pinned (open_pair w primary secondary outer inner s r).
Proof.
  intros (Hl & _) Hf. unfold apart, open_pair. cbn [st log outer_peer inner_peer]. split.
  - intros o i Hin. apply opened_of_loop in Hin. cbn [did snd log rev app] in Hin. rewrite filter_cons_True in Hin by done.
    rewrite (run_warp_in_warp_only w primary secondary outer inner) in Hin. cbn [did snd log rev app] in Hin.
    rewrite filter_cons_True in Hin by done. rewrite !elem_of_cons in Hin. destruct Hin as [?|[[= -> ->]|Hin]]; [done|done|].
    apply Hl. by apply opened_of_loop.
  - destruct Hf as (Hd & Ho & Hi). split; [intros p Hp; by rewrite (Ho p Hp)|]. split; [intros p Hp; by rewrite (Hi p Hp)|].
    by intros o i [= <-] [= <-].
Qed.

Lemma gool_round_apart pinned s (r : Round S) : (forall o i, Session.outer pinned = Some o -> Session.inner pinned = Some i -> sa_ip o <> sa_ip i) ->
  (forall p, floor_left (meets r) = Some p -> p ∈ floors) ->
  apart pinned s -> apart pinned (gool_round w env primary secondary pinned s r).
Proof.
  intros Hpin Hfl Hs. unfold gool_round. apply drop_failing_apart in Hs. revert Hs. generalize (drop_failing pinned s). clear s. intros s Hs.
  assert (forall n a, apart pinned (logged [Scanned n a] (with_settings (choice r) s))) as Hscan.
  { intros n a. apply logged_apart; [|exact Hs]. intros o i. by rewrite list_elem_of_singleton. }
  pose proof Hs as (Hl & Ho & Hi & Hd).
  destruct (outer_peer s) as [ko|] eqn:Eo, (inner_peer s) as [ki|] eqn:Ei.
  1: { apply open_pair_apart; [done|]. split; [by apply Hd|]. split; intros p Hp; [specialize (Ho p Hp)|specialize (Hi p Hp)]; congruence. }
  all: cbn beta iota zeta; destruct (default _ _) as [mode_str ip]; cbn [option_list app map list_to_set foldr].
  all: destruct (select_wg_peers primary (meets r) mode_str ip _ _) as [found|e|] eqn:Hf; [|apply Hscan|apply Hscan].
  all: apply select_wg_peers_ok in Hf as (Hne & Hnd & Hav).
  all: set (f := if verified_scan_selected env _ then spread_hops found else found).
  all: assert (f ≡ₚ found) as Hp by (unfold f; destruct (verified_scan_selected env _); [apply spread_hops_perm|done]).
  all: assert (forall o i f', f = o :: i :: f' -> sa_ip o = sa_ip i -> exists p, p ∈ floors /\ sa_ip p = sa_ip o) as Hnf
    by (intros o' i' f' Hof Heq; destruct (twins_floor _ _ (sa_ip o') (map sa_ip f') Hnd) as (p & Hfp & Hip);
        [rewrite <- Hp, Hof; cbn [map]; by rewrite Heq|exists p; auto]).
  all: assert (Forall (fun p => sa_ip p ∉ (list_to_set (map sa_ip (option_list (outer_peer s) ++ option_list (inner_peer s))) : gset IpAddr)) f) as Haf
    by (rewrite Hp, Eo, Ei; exact Hav).
  all: clearbody f; clear Hp Hav Hnd.
  all: rewrite Eo, Ei in Haf; cbn [option_list app map list_to_set foldr] in Haf.
  all: assert (forall n a, let k := logged [Scanned n a] (with_settings (choice r) s) in
    apart pinned (mkRun (Session.outer pinned) (Session.inner pinned) (consecutive_fails k) (scan_settings k) (st k))) as Hreset
    by (intros n a; cbn zeta; split; [apply (Hscan n a)|]; cbn; split_and!; [done..|]; intros a' b' Ha' Hb'; left; by apply Hpin).
  - destruct f as [|i f]; [apply Hreset|]. apply Forall_cons in Haf as [Hi' _]. apply open_pair_apart; [apply Hscan|].
    split; [left; set_solver|]. split; intros p Hp'; [by injection (Ho p Hp')|by specialize (Hi p Hp')].
  - destruct f as [|o f]; [apply Hreset|]. apply Forall_cons in Haf as [Hi' _]. apply open_pair_apart; [apply Hscan|].
    split; [left; set_solver|]. split; intros p Hp'; [by specialize (Ho p Hp')|by injection (Hi p Hp')].
  - destruct f as [|o [|i f]]; [apply Hreset|apply Hreset|]. apply open_pair_apart; [apply Hscan|].
    split; [destruct (decide (sa_ip o = sa_ip i)) as [Heq|]; [right|by left]|].
    { split; [destruct (Session.outer pinned) as [p|]; [by specialize (Ho p eq_refl)|done]|].
      split; [destruct (Session.inner pinned) as [p|]; [by specialize (Hi p eq_refl)|done]|].
      destruct (Hnf o i f eq_refl Heq) as (p & Hpf & Hip). exists p. by rewrite <- Heq. }
    split; intros p Hp'; [by specialize (Ho p Hp')|by specialize (Hi p Hp')].
Qed.

Lemma gool_rounds_apart pinned rounds : (forall o i, Session.outer pinned = Some o -> Session.inner pinned = Some i -> sa_ip o <> sa_ip i) ->
  Forall (fun r : Round S => forall p, floor_left (meets r) = Some p -> p ∈ floors) rounds ->
  forall k, apart pinned k -> apart pinned (fold_left (gool_round w env primary secondary pinned) rounds k).
Proof. intros Hpin. induction 1 as [|r rounds Hr _ IH]; intros k Hk; cbn [fold_left]; [done|]. by apply IH, gool_round_apart. Qed.
End gool_safe.

(** The endpoints of the floors that the scans of the rounds find left. *)
Definition floors_left {S} `{HopScanner S} (rounds : list (Round S)) : list SocketAddr := omap (fun r => floor_left (meets r)) rounds.

(** C13.  Whatever the scans find and the tunnels do, gool opens its tunnels on two separate
    addresses, and an endpoint given by hand is never replaced.  The one exception: when no endpoint
    is given by hand and a WireGuard run of this process has left the floor of its scans behind,
    both hops may be on the address of that floor. *)
Theorem gool_hops_stay_apart `{UnicodeCase} {S : Type} `{HopScanner S} w env primary secondary lookup pinned s (rounds : list (Round S)) o i :
  Session.wiw_endpoints_with_fallback lookup = Ok pinned -> (forall o i, Opened o i ∉ log s) ->
  Opened o i ∈ log (st (run_gool w env primary secondary pinned s rounds)) -> fits pinned (floors_left rounds) o i.
Proof.
  intros Hpin Hs. apply Session.wiw_hops_of_settings in Hpin as (Hpin & _).
  enough (apart (floors_left rounds) pinned (run_gool w env primary secondary pinned s rounds)) as [Ha _] by apply Ha.
  unfold run_gool. apply gool_rounds_apart; [done| |split; [by intros a b Hab%Hs|by split_and!; [..|intros a b Ha Hb; left; apply Hpin]]].
  apply Forall_forall. intros r Hr p Hp. apply list_elem_of_omap. by exists r.
Qed.


(** ** Failing edges are left *)

(** The tunnels that ended early, one after the other, since the last scan or the last tunnel
    that stayed up. *)
Fixpoint streak (l : list Act) : Z :=
  match l with
  | [] => 0
  | Closed lasted :: l => if Session.TUNNEL_STAYED_UP <=? lasted then 0 else 1 + streak l
  | Scanned _ _ :: _ => 0
  | _ :: l => streak l
  end.

Lemma streak_loop l : streak l = streak (filter (fun a => of_loop a = true) l).
Proof. induction l as [|a l IH]; [done|]. rewrite filter_cons. destruct a; cbn [of_loop]; cbn [streak]; case_decide; try done; cbn [streak]; by rewrite ?IH. Qed.

Lemma streak_nonneg l : 0 <= streak l.
Proof. induction l as [|a l IH]; [done|]. destruct a; cbn [streak]; try lia. destruct (_ <=? _); lia. Qed.

Definition counted (s : Run) : Prop := streak (log (st s)) <= consecutive_fails s <= 2.

(** A tunnel between its entries adds one to the count, as to the number of failures. *)
Lemma counted_tunnel (m : State -> State) acts k lasted s0 :
  (forall s, filter (fun a => of_loop a = true) (log (m s)) = filter (fun a => of_loop a = true) (log s)) ->
  (forall l, streak (rev acts ++ l) = streak l) ->
  streak (log s0) <= k < 2 -> streak (log (did [Closed lasted] (m (did acts s0).2)).2) <= count_tunnel_end k lasted <= 2.
Proof.
  intros Hm Ha Hk. cbn [did snd log rev app streak]. rewrite (streak_loop (log (m _))), Hm, <- streak_loop. cbn [did snd log]. rewrite Ha.
  pose proof (streak_nonneg (log s0)). unfold count_tunnel_end. destruct (_ <=? _); [lia|]. unfold U32_MAX. lia.
Qed.

Lemma drop_failing_cases pinned s : 0 <= consecutive_fails s <= 2 ->
  let s' := drop_failing pinned s in
  0 <= consecutive_fails s' < 2 /\
  (Session.outer pinned = None \/ Session.inner pinned = None -> outer_peer s' <> None -> inner_peer s' <> None -> s' = s) /\
  (Session.outer pinned = None -> outer_peer s' <> None -> s' = s).
Proof.
  intros Hf. cbn zeta. unfold drop_failing, MAX_CONSECUTIVE_FAILS. destruct (Z.leb_spec 2 (consecutive_fails s)) as [H2|H2]; [|split; [lia|done]].
  unfold dropped.
  destruct (Session.outer pinned), (outer_peer s), (Session.inner pinned), (inner_peer s); cbn [logged outer_peer inner_peer consecutive_fails];
    (split; [lia|]); (split; [intros [?|?]|]); intros; done.
Qed.

Section counts.
Context `{UnicodeCase} (w : World) (env : bytes -> option bytes).

Lemma gool_round_counted {S} `{HopScanner S} primary secondary pinned s (r : Round S) :
  Session.outer pinned = None \/ Session.inner pinned = None -> counted s -> counted (gool_round w env primary secondary pinned s r).
Proof.
  intros Hpin [Hk Hf]. pose proof (streak_nonneg (log (st s))). pose proof (drop_failing_cases pinned s ltac:(lia)) as (Hd & Hsame & _).
  unfold gool_round. revert Hd Hsame. cbn zeta. generalize (drop_failing pinned s) as k. intros k Hd Hsame.
  assert (forall o i k, streak (log (st k)) <= consecutive_fails k < 2 -> counted (open_pair w primary secondary o i k r)) as Hopen.
  { intros o i k' Hk'. unfold counted, open_pair. cbn [st consecutive_fails].
    apply (counted_tunnel (fun s => (run_warp_in_warp w primary secondary o i s).2) [Opened o i]); [apply run_warp_in_warp_only|done|done]. }
  assert (forall n a, let k' := logged [Scanned n a] (with_settings (choice r) k) in
    streak (log (st k')) = 0 /\ consecutive_fails k' = consecutive_fails k) as Hscan by done.
  destruct (outer_peer k) as [ko|], (inner_peer k) as [ki|].
  1: { specialize (Hsame Hpin ltac:(done) ltac:(done)). subst k. apply Hopen. lia. }
  all: destruct (default _ _) as [mode_str ip].
  all: set (k' := logged _ _); assert (counted k') as Hck by (unfold counted; cbn; lia).
  all: assert (streak (log (st k')) <= consecutive_fails k' < 2) as Hck' by (cbn; lia).
  all: destruct (select_wg_peers _ _ _ _ _ _) as [found|e|]; [|done|done].
  all: destruct (verified_scan_selected env _); repeat match goal with |- context [head ?l] => destruct l; cbn [head tail] end.
  all: first [by apply Hopen|exact Hck].
Qed.

Lemma mim_round_counted {S} `{Session.Scanner S} `{RandCrate} pinned s (r : Round S) s' :
  Session.outer pinned = None -> counted s -> mim_round w env pinned s r = inl s' -> counted s'.
Proof.
  intros Hpin [Hk Hf]. pose proof (streak_nonneg (log (st s))). pose proof (drop_failing_cases pinned s ltac:(lia)) as (Hd & _ & Hsame).
  unfold mim_round. revert Hd Hsame. cbn zeta. generalize (drop_failing pinned s) as k. intros k Hd Hsame.
  assert (forall o c k, streak (log (st k)) <= consecutive_fails k < 2 -> counted (open_mim w env o c k r)) as Hopen.
  { intros o c k' Hk'. unfold counted, open_mim. cbn [st consecutive_fails].
    apply (counted_tunnel (fun s => (run_masque_in_masque w env o c s).2) []); [apply run_masque_in_masque_only|done|].
    by destruct (st k'). }
  destruct (outer_peer k) as [ko|] eqn:Eo.
  - specialize (Hsame Hpin ltac:(done)). subst k. destruct (inner_peer s) as [ki|]; cbn [fmap option_fmap option_map].
    + intros [= <-]. apply Hopen. lia.
    + destruct (Session.inner_masque_candidates _ _ _ _) as [[[|p l] rest]|]; cbn [fmap option_fmap option_map fst]; [done|intros [= <-]; apply Hopen; lia|by intros [= <-]].
  - set (k' := logged _ _). assert (streak (log (st k')) <= consecutive_fails k' < 2) as Hck by (cbn; lia).
    destruct (Session.scan _ _) as [o|e|]; [|intros [= <-]; unfold counted; lia|intros [= <-]; unfold counted; lia].
    destruct (inner_peer k') as [ki|]; [intros [= <-]; by apply Hopen|].
    destruct (Session.inner_masque_candidates _ _ _ _) as [[[|p l] rest]|]; cbn [fmap option_fmap option_map fst];
      [done|intros [= <-]; by apply Hopen|intros [= <-]; unfold counted; lia].
Qed.

(** Gool and masque-in-masque never open a third tunnel in a row over edges that failed: after
    two tunnels that ended early, or none that stayed up, the edges that were not given by hand
    are looked for again.  For masque-in-masque this is the outer edge, since the inner one is
    drawn for every tunnel. *)
Theorem nested_loops_rescan_failing_edges {S S'} `{HopScanner S} `{Session.Scanner S'} `{RandCrate} primary secondary pinned s0 :
  streak (log s0) = 0 ->
  (forall rounds, Session.outer pinned = None \/ Session.inner pinned = None ->
     streak (log (st (run_gool (S := S) w env primary secondary pinned s0 rounds))) <= 2) /\
  (forall rounds s', Session.outer pinned = None -> run_mim (S := S') w env pinned s0 rounds = inl s' -> streak (log (st s')) <= 2).
Proof.
  intros Hs. assert (counted (start pinned s0)) as Hc by (unfold counted; cbn; lia). split.
  - intros rounds Hpin. enough (counted (run_gool w env primary secondary pinned s0 rounds)) as [Hk ?] by lia.
    unfold run_gool. revert Hc. generalize (start pinned s0). induction rounds as [|r rounds IH]; intros k Hk; cbn [fold_left]; [done|].
    by apply IH, gool_round_counted.
  - intros rounds s' Hpin Hr. enough (counted s') as [Hk ?] by lia. revert Hc Hr. unfold run_mim. generalize (start pinned s0).
    induction rounds as [|r rounds IH]; intros k Hk; cbn [mim_rounds]; [by intros [= <-]|].
    destruct (mim_round w env pinned k r) as [k'|e] eqn:Hk'; [|done]. apply IH. by eapply mim_round_counted.
Qed.
End counts.

(** ** An inner edge given by hand *)

Section pinned_inner.
Context `{UnicodeCase} (w : World) (env : bytes -> option bytes).

Definition dials_inner (a : Act) : bool := match a with Dialed Inner _ _ _ _ => true | _ => false end.

(** When the only edge for the inner hop is on the outer one's address, nothing is tried. *)
Lemma same_edge_never_dialed peer inners s : Forall (fun p => sa_ip p = sa_ip peer) inners ->
  let out := run_masque_in_masque w env peer inners s in
  (exists e, out.1 = Err e) /\ filter (fun a => dials_inner a = true) (log out.2) = filter (fun a => dials_inner a = true) (log s).
Proof.
  intros Hi. assert (forall h2 quic mtu s, try_edges w env h2 quic mtu peer inners s = (Ok None, s)) as He.
  { intros h2 quic mtu. induction Hi as [|p l Hp Hl IH]; [done|]. intros k. cbn [try_edges]. rewrite bool_decide_eq_true_2 by done. apply IH. }
  cbn zeta. unfold run_masque_in_masque. cbn zeta. unfold establish_masque, asked, mbind, M_bind. cbn [log].
  destruct (w_masque w (length (log s))) as [e|e| |joined|]; cbn; unfold holding; cbn; rewrite ?He; cbn; (split; [by eexists|]); rewrite ?filter_cons; cbn [dials_inner]; by repeat case_decide.
Qed.

(** With an inner edge given by hand and an outer one that is looked for, the scan may find
    the same address; the outer tunnel is then opened, no inner hop is ever dialled, and the
    edge is kept for the next round. *)
Theorem mim_keeps_unusable_edge {S} `{Session.Scanner S} `{RandCrate} pinned s (r : Round S) i peer :
  inner_peer s = Some i -> outer_peer s = None -> consecutive_fails s < 2 ->
  Session.scan (meets r) ∅ = Ok peer -> sa_ip peer = sa_ip i ->
  exists s', mim_round w env pinned s r = inl s' /\ outer_peer s' = Some peer /\ inner_peer s' = Some i /\
    filter (fun a => dials_inner a = true) (log (st s')) = filter (fun a => dials_inner a = true) (log (st s)).
Proof.
  intros Hi Ho Hf Hs Hip. unfold mim_round, drop_failing, MAX_CONSECUTIVE_FAILS. destruct (Z.leb_spec 2 (consecutive_fails s)); [lia|].
  rewrite Ho, Hs. cbn [logged with_settings inner_peer outer_peer]. rewrite Hi. eexists. split; [done|]. split; [done|]. split; [done|].
  unfold open_mim. cbn [st did snd log rev app]. rewrite filter_cons_False by done.
  match goal with |- context [run_masque_in_masque w env peer [i] ?s0] =>
    pose proof (same_edge_never_dialed peer [i] s0 ltac:(by constructor)) as [_ ->] end.
  cbn [logged with_settings st did snd log rev app]. by rewrite filter_cons_False.
Qed.
End pinned_inner.

(** ** What the relay carries *)

(** The datagrams the relay hears: until its socket is gone, or a hand-over is refused. *)
Fixpoint heard (events : list RelayEvent) : list (SocketAddr * bytes * Handoff) :=
  match events with
  | [] | Deaf :: _ => []
  | Heard from data Broken :: _ => [(from, data, Broken)]
  | Heard from data handoff :: events => (from, data, handoff) :: heard events
  | _ :: events => heard events
  end.
Definition handed (h : SocketAddr * bytes * Handoff) : option bytes := match h with (_, data, Handed) => Some data | _ => None end.
Definition to_edge (a : RelayAct) : option (SocketAddr * bytes) := match a with ToEdge remote data => Some (remote, data) | _ => None end.

Fixpoint relay_state (remote : SocketAddr) (s : Relay) (events : list RelayEvent) : Relay :=
  match events with [] => s | e :: events => relay_state remote (relay_step remote s e).1 events end.

Lemma relay_run_app remote a b : forall s, relay_run remote s (a ++ b) = relay_run remote s a ++ relay_run remote (relay_state remote s a) b.
Proof.
  induction a as [|e a IH]; intros s; [done|]. cbn [app relay_run relay_state]. destruct (relay_step remote s e) as [s' acts]. cbn [fst].
  by rewrite IH, app_assoc.
Qed.

Lemma relay_deaf remote events : forall s, up s = false -> omap to_edge (relay_run remote s events) = [] /\ known (relay_state remote s events) = known s.
Proof.
  induction events as [|e events IH]; intros s Hs; [done|]. cbn [relay_run relay_state].
  destruct e as [from data h| |source data|]; cbn [relay_step]; rewrite ?Hs; cbn [fst app];
    [by apply IH|by apply (IH (mkRelay (known s) false (down s)))| |by apply (IH (mkRelay (known s) false false))].
  destruct (down s); cbn [fst app]; [|by apply IH]. destruct (known s) as [p|] eqn:Hk; cbn [app].
  - change (omap to_edge (ToInner p data :: ?l)) with (omap to_edge l). rewrite <- Hk. by apply IH.
  - rewrite <- Hk. by apply IH.
Qed.

Lemma relay_heard remote events : forall s, up s = true ->
  omap to_edge (relay_run remote s events) = map (pair remote) (omap handed (heard events)) /\
  known (relay_state remote s events) = match last (heard events) with Some (from, _, _) => Some from | None => known s end.
Proof.
  induction events as [|e events IH]; intros s Hs; [done|]. cbn [relay_run relay_state].
  destruct e as [from data h| |source data|]; cbn [relay_step heard]; rewrite ?Hs; cbn [fst app].
  - destruct h; cbn [app].
    + destruct (IH (mkRelay (Some from) true (down s)) eq_refl) as [H1 H2]. rewrite H2, last_cons. split; [|by destruct (last (heard events)) as [[[? ?] ?]|]].
      change (omap to_edge (ToEdge remote data :: ?l)) with ((remote, data) :: omap to_edge l). by rewrite H1.
    + destruct (IH (mkRelay (Some from) true (down s)) eq_refl) as [H1 H2]. rewrite H2, last_cons. split; [|by destruct (last (heard events)) as [[[? ?] ?]|]].
      exact H1.
    + by apply (relay_deaf remote events (mkRelay (Some from) false (down s))).
  - by apply (relay_deaf remote events (mkRelay (known s) false (down s))).
  - destruct (down s); cbn [fst app]; [|by apply IH]. destruct (known s) as [p|] eqn:Hk; cbn [app].
    + change (omap to_edge (ToInner p data :: ?l)) with (omap to_edge l). rewrite <- Hk. by apply IH.
    + rewrite <- Hk. by apply IH.
  - by apply (IH (mkRelay (known s) true false)).
Qed.

Lemma relay_down remote events : forall s, NoMore ∉ events -> down (relay_state remote s events) = down s.
Proof.
  induction events as [|e events IH]; intros s Hn; [done|]. apply not_elem_of_cons in Hn as [He Hn]. cbn [relay_state]. rewrite IH by done.
  destruct e as [from data h| |source data|]; cbn [relay_step fst]; [by destruct (up s)|done| |done].
  by destruct (down s) eqn:Hd; cbn [fst].
Qed.

(** The relay between the hops carries to its edge alone what the inner tunnel sends, in order,
    but for what the outer stack does not take in time; and it brings every answer to the last
    address it heard from, whichever that is. *)
Theorem relay_follows_the_sender remote events :
  omap to_edge (relay_run remote relay_start events) = map (pair remote) (omap handed (heard events)) /\
  (forall pre source data post, events = pre ++ Came source data :: post -> NoMore ∉ pre ->
     exists later, relay_run remote relay_start events =
       relay_run remote relay_start pre ++ match last (heard pre) with Some (from, _, _) => [ToInner from data] | None => [] end ++ later).
Proof.
  split; [by apply relay_heard|]. intros pre source data post -> Hn. rewrite relay_run_app.
  pose proof (relay_down remote pre relay_start Hn) as Hd. pose proof (proj2 (relay_heard remote pre relay_start eq_refl)) as Hk.
  cbn [relay_run relay_step]. rewrite Hd, Hk. cbn [down relay_start known]. eexists. by destruct (last (heard pre)) as [[[? ?] ?]|].
Qed.

(** ** The scans of [wg_prober.rs] keep the promise *)

(** [wg_prober::hunt_wg_endpoints] on a scan, as [Reconnect.hunt_wg_peer_with_profile], with the
    floor that it finds in the process. *)
Definition hunt_hops `{UnicodeCase} `{RandCrate} (f : Prober.Floor) (r : Reconnect.WgScanRun) (mode : Prober.ScanMode) (ip : Prober.IpScan) (want : Z) (excluded : gset SocketAddr)
  : res AetherError (list SocketAddr) :=
  match Prober.effective_ip ip (Reconnect.wr_has_ipv6 r) with
  | None => Err NoCleanEndpoint
  | Some ip =>
      match Prober.build_wg_candidates (Reconnect.wr_env r) (Prober.wg_strategy mode) Prober.WG_PORTS ip excluded (Reconnect.wr_words r) with
      | Some (cands, _) =>
          match Prober.hunt_wg_endpoints (Reconnect.wr_env r) f mode (Some cands) want (Reconnect.wr_start r)
                  (filter (fun t => Session.of_stream cands t = true) (Reconnect.wr_turns r)) with
          | Some (Ok l) => Ok (map (fun pr => mkSocketAddr (Prober.pr_ip pr) (Prober.pr_port pr)) l)
          | Some (Err e) => Err e
          | _ => Panic
          end
      | None => Panic
      end
  end.

#[export] Instance prober_hop_scanner `{UnicodeCase} `{RandCrate} : HopScanner (Prober.Floor * Reconnect.WgScanRun).
Proof.
  refine {| hunt '(f, r) := hunt_hops f r; floor_left '(f, _) := fst <$> Prober.rtt_floor f |}. intros [f r] mode ip want excluded l. unfold hunt_hops.
  destruct (Prober.effective_ip _ _) as [ip'|]; [|done]. destruct (Prober.build_wg_candidates _ _ _ _ _ _) as [[cands rest]|]; [|done].
  destruct (Prober.hunt_wg_endpoints _ _ _ _ _ _ _) as [[found|e|]|] eqn:Hh; try done. intros [= <-].
  unfold Prober.hunt_wg_endpoints in Hh. apply fmap_Some in Hh as ([p later] & Hr & Hp). apply Prober.wg_run_spec in Hr as (used & _ & Hu).
  cbn [fst] in Hp. unfold Prober.wg_pick in Hp. destruct p as [early|v].
  - destruct Hu as (pr & He & _). injection Hp as Hp. subst. left. cbn. apply NoDup_singleton.
  - case_bool_decide; [done|]. injection Hp as ->. destruct (Prober.distinct_by_ip_spec v) as (_ & Hd & _).
    assert (forall k, sublist k (Prober.distinct_by_ip v) -> NoDup (map sa_ip (map (fun pr => mkSocketAddr (Prober.pr_ip pr) (Prober.pr_port pr)) k))) as Hk.
    { intros k Hs. rewrite map_map. cbn [sa_ip]. eapply sublist_NoDup; [exact Hd|]. clear -Hs. induction Hs; cbn; [constructor|by apply sublist_skip|by apply sublist_cons]. }
    unfold Prober.apply_rtt_floor. destruct (Prober.rtt_floor f) as [[peer fl]|]; [|left; by apply Hk, sublist_take].
    destruct (Prober.distinct_by_ip v) as [|b d]; [left; apply Hk; by rewrite take_nil|].
    destruct (Prober.pr_rtt b <=? fl); [left; by apply Hk, sublist_take|]. destruct (Z.to_nat (Z.max want 1)) as [|n]; [left; constructor|].
    right. exists peer, (map (fun pr => mkSocketAddr (Prober.pr_ip pr) (Prober.pr_port pr)) (take n (b :: d))). split; [done|].
    split; [by destruct peer|by apply Hk, sublist_take].
Defined.

(** ** Witnesses *)

Section examples.
Local Existing Instance Config.marked_b64.
Local Existing Instance Config.one_identity.

(** A scan that finds the endpoints of a list, one of each address. *)
Definition listed : HopScanner (list SocketAddr).
Proof.
  refine {| hunt s _ _ _ _ := if decide (NoDup (map sa_ip s)) then Ok s else Err NoCleanEndpoint; floor_left _ := None |}.
  intros s mode ip want excluded l. case_decide; [|done]. intros [= <-]. by left.
Defined.
Local Existing Instance listed.

(** A scan that finds one gateway. *)
Definition one_gateway : Session.Scanner SocketAddr.
Proof.
  refine {| Session.scan p avoid := if decide (sa_ip p ∈ avoid) then Err NoCleanEndpoint else Ok p |}.
  intros p avoid q. case_decide; [done|]. by intros [= <-].
Defined.
Local Existing Instance one_gateway.

Definition calm_world : World :=
  mkWorld (fun _ => Ready) (fun _ => None) (fun _ => None) (fun _ => None) (fun _ => None) (fun _ => OuterEnded (Finished None)) (fun _ => None).
Definition start_state : State := mkState [] false [] (Provision.start ∅).
Definition edge (d port : Z) : SocketAddr := mkSocketAddr (V4 (v4_new 162 159 192 d)) port.
Definition short_round {S} (m : S) : Round S := mkRound (lit "turbo", Prober.ScanV4) m [] 0.
Definition no_env : bytes -> option bytes := fun _ => None.
Definition unpinned : Session.WiwEndpoints := Session.mkEndpoints None None.

Local Existing Instance ascii_case.
Definition example_rounds : list (Round (list SocketAddr)) :=
  [short_round [edge 1 2408; edge 2 2408]; short_round []; short_round [edge 3 500; edge 4 500]].

Definition pair_of (a : Act) : option (SocketAddr * SocketAddr) := match a with Opened o i => Some (o, i) | _ => None end.
Lemma opened_pair o i (l : list Act) : (o, i) ∈ omap pair_of l -> Opened o i ∈ l.
Proof. intros (a & Ha & Hp)%list_elem_of_omap. destruct a; try done. by injection Hp as -> ->. Qed.

(** Two tunnels that end early over one pair, a scan that finds nothing in between, and a
    new pair. *)
Lemma gool_hops_stay_apart_witness :
  let pairs := omap pair_of (log (st (run_gool calm_world no_env example_identity example_identity unpinned start_state example_rounds))) in
  pairs = [(edge 3 500, edge 4 500); (edge 1 2408, edge 2 2408); (edge 1 2408, edge 2 2408)] /\
  Forall (fun p => sa_ip p.1 <> sa_ip p.2) pairs.
Proof.
  split; [vm_compute; reflexivity|]. apply Forall_forall. intros [o i] Hin.
  destruct (gool_hops_stay_apart calm_world no_env example_identity example_identity no_env unpinned start_state example_rounds o i)
    as [[Hd|(_ & _ & p & Hp & _)] _].
  - reflexivity.
  - intros a b Hab. inversion Hab.
  - apply opened_pair. exact Hin.
  - exact Hd.
  - inversion Hp.
Defined.

(** A WireGuard run has dropped a remembered endpoint for being slow and left its floor; the scan of
    gool finds one endpoint, slower and on the same address, and both hops go there. *)
Local Existing Instance Prober.mod_rand.
Definition left_floor : Prober.Floor := Prober.set_rtt_floor (Prober.mkFloor 0 None) (mkSocketAddr (V4 (v4_new 162 159 195 92)) 2408) (Prober.from_millis 400).
Example floor_left_behind_joins_the_hops :
  omap pair_of (log (st (run_gool (S := Prober.Floor * Reconnect.WgScanRun) calm_world no_env example_identity example_identity unpinned start_state
    [short_round (left_floor, Reconnect.example_scan 0 [])])))
  = [(mkSocketAddr (V4 (v4_new 162 159 195 92)) 2408, mkSocketAddr (V4 (v4_new 162 159 195 92)) 500)].
Proof. vm_compute. reflexivity. Qed.

Lemma nested_tunnels_leave_no_task_witness :
  let s := (run_warp_in_warp calm_world example_identity example_identity (edge 1 2408) (edge 2 2408) start_state).2 in
  Forall (fun t => running t (log s) = false) [Tunnel Outer; Tunnel Inner; Bridge Outer; Bridge Inner; Forwarder; Proxy].
Proof.
  apply Forall_forall. intros t _.
  exact (proj1 (nested_tunnels_leave_no_task calm_world (Provision.example_world false) no_env start_state eq_refl (fun t => eq_refl))
    example_identity example_identity (edge 1 2408) (edge 2 2408) t).
Defined.
(** The exit of a gool tunnel is refused: its inner tunnel is left. *)
Example refused_exit_leaves_inner_tunnel :
  let w := mkWorld (fun _ => Ready) (fun _ => None) (fun _ => None) (fun _ => None) (fun _ => Some (Other (lit "exit"))) (fun _ => OuterEnded Aborted_)
    (fun _ => None) in
  let s := mkState [] false [] (Provision.start Provision.saved_fs) in
  let out := run_gool_tunnel w (Provision.example_world false) no_env (edge 1 443) example_path s in
  out.1 = Err (Other (lit "exit")) /\ running (Tunnel Inner) (log out.2) = true /\ running (Tunnel Outer) (log out.2) = false.
Proof. vm_compute. done. Qed.

Lemma nested_loops_rescan_failing_edges_witness :
  streak (log (st (run_gool calm_world no_env example_identity example_identity unpinned start_state example_rounds))) <= 2.
Proof.
  apply (proj1 (nested_loops_rescan_failing_edges (S' := SocketAddr) calm_world no_env example_identity example_identity unpinned start_state eq_refl)).
  left. reflexivity.
Defined.

Lemma mim_keeps_unusable_edge_witness :
  let s := start (Session.mkEndpoints None (Some (edge 9 443))) start_state in
  exists s', mim_round calm_world no_env (Session.mkEndpoints None (Some (edge 9 443))) s (short_round (edge 9 500)) = inl s' /\
    outer_peer s' = Some (edge 9 500) /\ filter (fun a => dials_inner a = true) (log (st s')) = [].
Proof.
  destruct (mim_keeps_unusable_edge calm_world no_env (Session.mkEndpoints None (Some (edge 9 443)))
    (start (Session.mkEndpoints None (Some (edge 9 443))) start_state) (short_round (edge 9 500)) (edge 9 443) (edge 9 500)) as (s' & H1 & H2 & _ & H3).
  - reflexivity.
  - reflexivity.
  - reflexivity.
  - vm_compute. reflexivity.
  - reflexivity.
  - exists s'. split; [exact H1|]. split; [exact H2|exact H3].
Defined.

Lemma relay_follows_the_sender_witness :
  let events := [Heard (edge 1 1) [1] Handed; Came (edge 9 9) [7]; Heard (edge 2 2) [2] Congested; Came (edge 9 9) [8]] in
  omap to_edge (relay_run (edge 9 9) relay_start events) = [(edge 9 9, [1])] /\
  exists later, relay_run (edge 9 9) relay_start events = [ToEdge (edge 9 9) [1]; ToInner (edge 1 1) [7]; ToInner (edge 2 2) [8]] ++ later.
Proof.
  split.
  - rewrite (proj1 (relay_follows_the_sender (edge 9 9) _)). reflexivity.
  - exact (proj2 (relay_follows_the_sender (edge 9 9) _) [Heard (edge 1 1) [1] Handed; Came (edge 9 9) [7]; Heard (edge 2 2) [2] Congested]
      (edge 9 9) [8] [] eq_refl ltac:(intros H; repeat (apply elem_of_cons in H as [H|H]; [discriminate H|]); by apply elem_of_nil in H)).
Defined.
End examples.

End Hops.
