(* ===== verification/ZeroTrust.v ===== *)
(** * The login of a team ([zerotrust.rs])

    The texts the login reads (the team of the settings, the token of a page or a cookie,
    the form of the enrolment page, the nonce of an address), and the login itself: the
    token kept for the session, the three ways to sign in, and the codes a user enters.
    The login is a program over a state that holds the kept token and a log of what was
    sent and asked; what the servers and the user answer is a function of that log, and so
    is the clock.  base64, serde_json and reqwest are other crates. *)

From S2P Require Import Prelude Str Text Error Upstream.
Local Open Scope Z_scope.

Module ZeroTrust.
Import Error.

Definition TEAM_SUFFIX : bytes := lit "cloudflareaccess.com".
Definition ENROLL_PATH : bytes := lit "/warp".
Definition CODE_WAIT : Z := 300.
Definition CODE_ATTEMPTS : nat := 3.
Definition INSTALL_ID_LEN : nat := 22.
Definition FCM_SUFFIX_LEN : nat := 134.
Definition ALPHANUM : bytes := lit "abcdefghijklmnopqrstuvwxyzABCDEFGHIJKLMNOPQRSTUVWXYZ0123456789".

(** ** The settings *)

Record TeamSettings := mkTeam {
  team : bytes;
  client_id : option bytes;
  client_secret : option bytes;
  token : option bytes;
  email : option bytes;
}.

Definition has_service_token (s : TeamSettings) : bool :=
  bool_decide (is_Some (client_id s)) && bool_decide (is_Some (client_secret s)).

Definition team_domain (team : bytes) : bytes := lit "https://" ++ team ++ lit "." ++ TEAM_SUFFIX.
Definition login_url (s : TeamSettings) : bytes := team_domain (team s) ++ ENROLL_PATH.

(** What a team is made of once normalised. *)
Definition team_char (b : Z) : bool := is_ascii_alphanumeric b || (b =? 45) || (b =? 95).

Section settings.
Context `{UnicodeCase}.

Definition without_prefix (prefix value : bytes) : bytes := default value (strip_prefix prefix value).

Definition normalize_team (raw : bytes) : option bytes :=
  let value := to_lowercase (trim raw) in
  if bool_decide (value = []) then None
  else
    let value := fold_left (fun v prefix => without_prefix prefix v) [lit "https://"; lit "http://"] value in
    let value := trim_end_matches 47 value in
    let value := match split_char 47 value with head :: _ => head | [] => value end in
    let value := match strip_suffix TEAM_SUFFIX value with Some head => trim_end_matches 46 head | None => value end in
    if bool_decide (value = []) then None
    else if forallb team_char value then Some value else None.

(** [TeamSettings::from_env]; a variable that is not UTF-8 reads as one that is not set. *)
Definition from_env (env : bytes -> option bytes) : option TeamSettings :=
  t ← normalize_team (default [] (env (lit "AETHER_TEAM")));
  let non_empty key :=
    value ← trim <$> env key; if bool_decide (value = []) then None else Some value in
  Some (mkTeam t (non_empty (lit "AETHER_ACCESS_CLIENT_ID")) (non_empty (lit "AETHER_ACCESS_CLIENT_SECRET"))
          (non_empty (lit "AETHER_ACCESS_TOKEN")) (non_empty (lit "AETHER_ACCESS_EMAIL"))).

End settings.

(** ** Tokens *)

(** [URL_SAFE_NO_PAD] of base64, and the [exp] of a payload as serde_json reads it: an
    integer that is not negative. *)
Class JwtCrates := {
  url_safe_decode : bytes -> option bytes;
  payload_exp : bytes -> option Z;
}.

Section jwt.
Context `{JwtCrates}.

Definition decode_segment (segment : bytes) : option bytes := url_safe_decode segment.

Definition token_char (b : Z) : bool := is_ascii_alphanumeric b || (b =? 46) || (b =? 45) || (b =? 95).

Definition looks_like_jwt (token : bytes) : bool :=
  let token := trim token in
  if blen token <? 32 then false
  else match split_char 46 token with
       | [a; b; c] =>
           if existsb (fun segment => bool_decide (segment = [])) [a; b; c] then false
           else if negb (forallb token_char token) then false
           else bool_decide (is_Some (decode_segment a))
       | _ => false
       end.

Definition jwt_expiry (token : bytes) : option Z :=
  match split_char 46 token with
  | [_; b; _] => payload ← decode_segment b; payload_exp payload
  | _ => None
  end.

Definition jwt_expired (token : bytes) (now : Z) : bool :=
  match jwt_expiry token with Some exp => exp <=? now | None => false end.

(** [s.find(p)] for characters: the ASCII ones of [p], or white space. *)
Fixpoint find_end (p : Z -> bool) (s : bytes) : Z :=
  match s with
  | [] => 0
  | b :: t => if p b || at_ws s then 0 else 1 + find_end p t
  end.
Definition ends_token (b : Z) : bool := (b =? 34) || (b =? 39) || (b =? 38) || (b =? 60).

Definition extract_jwt_from_html (html : bytes) : option bytes :=
  start ← find_sub (lit "token=") html;
  let rest := drop (Z.to_nat (start + 6)) html in
  let candidate := trim (take (Z.to_nat (find_end ends_token rest)) rest) in
  if looks_like_jwt candidate then Some candidate else None.

Fixpoint jwt_of_parts (parts : list bytes) : option bytes :=
  match parts with
  | [] => None
  | part :: parts =>
      let entry := trim part in
      value ← match strip_prefix (lit "CF_Authorization=") entry with
              | Some v => Some v
              | None => strip_prefix (lit "cf_authorization=") entry
              end;
      if looks_like_jwt value then Some value else jwt_of_parts parts
  end.
Definition extract_jwt_from_cookie (header : bytes) : option bytes := jwt_of_parts (split_char 59 header).

End jwt.

(** ** Random identifiers; [random i] is the [i]-th number drawn, below the length of the alphabet. *)
Definition random_alphanumeric (random : nat -> nat) (len : nat) : bytes :=
  map (fun i => nth (Nat.modulo (random i) (length ALPHANUM)) ALPHANUM 0) (seq 0 len).
Definition generate_install_id (random : nat -> nat) : bytes := random_alphanumeric random INSTALL_ID_LEN.
Definition generate_fcm_token (random : nat -> nat) (install_id : bytes) : bytes :=
  install_id ++ lit ":APA91b" ++ random_alphanumeric random FCM_SUFFIX_LEN.

(** ** The pages *)

(** [char::from_u32] and [String::push]. *)
Definition from_u32 (c : Z) : option Z :=
  if (c <? 55296) || ((57344 <=? c) && (c <=? 1114111)) then Some c else None.
Definition push_char (c : Z) : bytes :=
  if c <? 128 then [c]
  else if c <? 2048 then [192 + c / 64; 128 + c mod 64]
  else if c <? 65536 then [224 + c / 4096; 128 + c / 64 mod 64; 128 + c mod 64]
  else [240 + c / 262144; 128 + c / 4096 mod 64; 128 + c / 64 mod 64; 128 + c mod 64].

Definition or_else {A} (a b : option A) : option A := match a with Some _ => a | None => b end.

Definition decode_entity (entity : bytes) : option Z :=
  if bool_decide (entity = lit "amp") then Some 38
  else if bool_decide (entity = lit "lt") then Some 60
  else if bool_decide (entity = lit "gt") then Some 62
  else if bool_decide (entity = lit "quot") then Some 34
  else if bool_decide (entity = lit "apos") || bool_decide (entity = lit "#39") then Some 39
  else
    c ← or_else (hex ← or_else (strip_prefix (lit "#x") entity) (strip_prefix (lit "#X") entity); parse_hex U32_MAX hex)
                (digits ← strip_prefix (lit "#") entity; parse_uint U32_MAX digits);
    from_u32 c.

(** The entity [rest] starts with, [rest] being what follows an ampersand, and what follows it. *)
Definition leading_entity (rest : bytes) : option (Z * bytes) :=
  index ← find_char 59 rest;
  if index + 1 <=? 8 then
    c ← decode_entity (take (Z.to_nat index) rest); Some (c, drop (Z.to_nat (index + 1)) rest)
  else None.

(** The loop of [decode_entities]: a turn takes what is before the next ampersand, and the
    ampersand or its entity. *)
Fixpoint decode_fuel (fuel : nat) (rest : bytes) : bytes :=
  match fuel with
  | O => rest
  | S fuel =>
      match find_char 38 rest with
      | None => rest
      | Some at_ =>
          let after := drop (Z.to_nat (at_ + 1)) rest in
          take (Z.to_nat at_) rest ++
          match leading_entity after with
          | Some (c, rest) => push_char c ++ decode_fuel fuel rest
          | None => 38 :: decode_fuel fuel after
          end
      end
  end.
Definition decode_entities (raw : bytes) : bytes := decode_fuel (length raw) raw.

(** [s.rfind(p)] *)
Definition rfind_sub (p s : bytes) : option Z := (fun i => blen s - i - blen p) <$> find_sub (rev p) (rev s).

Definition extract_totp_form_action (html : bytes) : option bytes :=
  anchor ← find_sub ([105; 100; 61; 34] ++ lit "totp-form" ++ [34]) html;
  form_start ← rfind_sub (lit "<form") (take (Z.to_nat anchor) html);
  tag_len ← find_char 62 (drop (Z.to_nat form_start) html);
  let tag := take (Z.to_nat tag_len) (drop (Z.to_nat form_start) html) in
  key_at ← find_sub (lit "action=") tag;
  let rest := trim_start (drop (Z.to_nat (key_at + 7)) tag) in
  match rest with
  | [] => None
  | quote :: body =>
      if negb (quote =? 39) && negb (quote =? 34) then None
      else
        end_ ← find_char quote body;
        let action := decode_entities (take (Z.to_nat end_) body) in
        if starts_with (lit "https://") action then Some action else None
  end.

Fixpoint percent_bytes (s : bytes) : bytes :=
  match s with
  | [] => []
  | b :: t =>
      if b =? 37 then
        match t with
        | h :: l :: t' =>
            match parse_hex U8_MAX (default [] (from_utf8 [h; l])) with
            | Some byte => byte :: percent_bytes t'
            | None => 37 :: percent_bytes t
            end
        | _ => 37 :: percent_bytes t
        end
      else if b =? 43 then 32 :: percent_bytes t
      else b :: percent_bytes t
  end.
Definition percent_decode (raw : bytes) : bytes := from_utf8_lossy (percent_bytes raw).

Fixpoint value_of_pairs (key : bytes) (pairs : list bytes) : option bytes :=
  match pairs with
  | [] => None
  | piece :: pairs =>
      match split_once 61 piece with
      | Some (name, value) => if bool_decide (name = key) then Some (percent_decode value) else value_of_pairs key pairs
      | None => None
      end
  end.
Definition query_value (url key : bytes) : option bytes :=
  match split_once 63 url with
  | Some (_, query) => value_of_pairs key (split_char 38 query)
  | None => None
  end.

(** ** Signing in *)

(** A client that keeps cookies and follows redirects, and one that follows none. *)
Inductive Client := Browser | Direct.

Inductive Request :=
| Get (url : bytes) (headers : list (bytes * bytes))
| Post (url : bytes) (form : list (bytes * bytes)).

(** The address the answer came from, its status, its [Set-Cookie] headers (as text, where
    they are text), and its body or why it cannot be read. *)
Record Response := mkResponse { r_url : bytes; r_status : Z; r_cookies : list (option bytes); r_text : bytes + bytes }.

Inductive Act :=
| Sent (client : Client) (request : Request)
| Asked (email : bytes) (attempt : nat).

(** A line read from the user, or a failure to read one. *)
Inductive Input := Line (line : bytes) | ReadFailed.

Record World := mkWorld {
  (** The upstream proxy as reqwest takes it, if one is set, and the client builder's error. *)
  w_proxy : option (res AetherError unit);
  w_client : option bytes;
  w_send : list Act -> Client -> Request -> bytes + Response;
  w_interactive : bool;
  w_read : list Act -> Input;
  (** No line comes within [CODE_WAIT]. *)
  w_late : list Act -> bool;
  w_now : list Act -> Z;
  (** The [Display] of a status. *)
  w_status : Z -> bytes;
}.

(** [TOKEN_CACHE], and what was sent and asked, the latest first. *)
Record State := mkState { cache : option bytes; acts : list Act }.

Definition M (A : Type) : Type := State -> res AetherError A * State.
#[export] Instance M_ret : MRet M := fun A a s => (Ok a, s).
#[export] Instance M_bind : MBind M := fun A B f m s =>
  match m s with
  | (Ok a, s) => f a s
  | (Err e, s) => (Err e, s)
  | (Panic, s) => (Panic, s)
  end.
Definition lift {A} (r : res AetherError A) : M A := fun s => (r, s).
Definition fails {A} (e : AetherError) : M A := lift (Err e).
Definition log (a : Act) (s : State) : State := mkState (cache s) (a :: acts s).

Inductive CodeOutcome := Token (token : bytes) | Rejected (status : Z).

Record EmailSignIn := mkSignIn { e_team : bytes; e_email : bytes; e_nonce : bytes; e_verify_url : bytes }.

Section login.
Context `{JwtCrates} (w : World).

(** [through_upstream] and [build] *)
Definition access_client : M unit :=
  _ ← lift (default (Ok tt) (w_proxy w));
  match w_client w with
  | Some e => fails (Api (lit "access client: " ++ e))
  | None => mret tt
  end.

(** [send], the error with what was being done. *)
Definition send (client : Client) (request : Request) (what : bytes) : M Response := fun s =>
  match w_send w (acts s) client request with
  | inl e => (Err (Api (what ++ lit ": " ++ e)), log (Sent client request) s)
  | inr response => (Ok response, log (Sent client request) s)
  end.

Definition text (r : Response) (what : bytes) : M bytes :=
  match r_text r with
  | inl e => fails (Api (what ++ lit ": " ++ e))
  | inr body => mret body
  end.

Definition email_form (email : bytes) : list (bytes * bytes) :=
  [(lit "email", email); (lit "client_id", []); (lit "connector_id", []); (lit "connector_type", []); (lit "redirect_url", [])].

Definition request_email_code (verify_url email : bytes) (fallback_url : option bytes) : M (option bytes) :=
  sent ← send Browser (Post verify_url (email_form email)) (lit "requesting a login code");
  if negb ((200 <=? r_status sent) && (r_status sent <=? 299))
  then fails (Api (lit "cloudflare refused to send a login code (status " ++ w_status w (r_status sent) ++ lit ")"))
  else mret (or_else (query_value (r_url sent) (lit "nonce")) (url ← fallback_url; query_value url (lit "nonce"))).

Definition begin_email_signin (settings : TeamSettings) (email : bytes) : M EmailSignIn :=
  let email := trim email in
  if bool_decide (email = []) then fails (Api (lit "an email address is needed to request a login code"))
  else
    _ ← access_client;
    landing ← send Browser (Get (login_url settings) []) (lit "enrolment page");
    body ← text landing (lit "enrolment page body");
    verify_url ← lift (ok_or (extract_totp_form_action body)
      (Api (lit "team " ++ team settings ++ lit " does not offer an email one-time code on its enrolment page; use a service token or sign in at "
            ++ login_url settings)));
    answered ← request_email_code verify_url email (Some (r_url landing));
    nonce ← lift (ok_or answered
      (Api (lit "cloudflare did not return a nonce for the login code; the enrolment flow may have changed")));
    mret (mkSignIn (team settings) email nonce verify_url).

(** [resend_code]: the session with its new nonce, if there is one. *)
Definition resend_code (e : EmailSignIn) : M EmailSignIn :=
  answered ← request_email_code (e_verify_url e) (e_email e) None;
  mret match answered with
       | Some nonce => mkSignIn (e_team e) (e_email e) nonce (e_verify_url e)
       | None => e
       end.

Definition callback (e : EmailSignIn) : bytes := team_domain (e_team e) ++ lit "/cdn-cgi/access/callback".

Definition submit_code (e : EmailSignIn) (code : bytes) : M CodeOutcome :=
  let code := trim code in
  if bool_decide (code = []) then fails (Api (lit "no login code was entered"))
  else
    confirmed ← send Browser (Post (callback e) [(lit "code", code); (lit "nonce", e_nonce e)]) (lit "confirming the login code");
    body ← text confirmed (lit "callback body");
    mret match extract_jwt_from_html body with
         | Some token => Token token
         | None => Rejected (r_status confirmed)
         end.

Definition no_code (email : bytes) : AetherError :=
  Api (if w_interactive w then lit "no login code was entered"
       else lit "a login code was emailed to " ++ email ++ lit " but nothing was sent back to answer it").

Definition prompt_login_code (email : bytes) (attempt : nat) : M bytes := fun s =>
  let s := log (Asked email attempt) s in
  if negb (w_interactive w) && w_late w (acts s)
  then (Err (Api (lit "no login code arrived within " ++ dec CODE_WAIT ++ lit "s; request a fresh code and try again")), s)
  else match w_read w (acts s) with
       | ReadFailed | Line [] => (Err (no_code email), s)
       | Line line =>
           let code := trim line in
           (if bool_decide (code = []) then Err (Api (lit "no login code was entered")) else Ok code, s)
       end.

(** The attempts from [attempt] on, [remaining] of them. *)
Fixpoint code_attempts (session : EmailSignIn) (attempt remaining : nat) (last_status : option Z) : M bytes :=
  match remaining with
  | O =>
      fails (Api (lit "the login code was not accepted after " ++ dec (Z.of_nat CODE_ATTEMPTS) ++ lit " attempts (last status "
                  ++ match last_status with Some status => dec status | None => lit "unknown" end
                  ++ lit "); request a fresh code and try again"))
  | S remaining =>
      code ← prompt_login_code (e_email session) attempt;
      outcome ← submit_code session code;
      match outcome with
      | Token token => mret token
      | Rejected status => code_attempts session (S attempt) remaining (Some status)
      end
  end.

Definition fetch_token_with_email_code (settings : TeamSettings) (email : bytes) : M bytes :=
  session ← begin_email_signin settings email; code_attempts session 1 CODE_ATTEMPTS None.

(** The first [Set-Cookie] header that is text and holds a token. *)
Fixpoint token_of_cookies (cookies : list (option bytes)) : option bytes :=
  match cookies with
  | [] => None
  | cookie :: cookies => or_else (text ← cookie; extract_jwt_from_cookie text) (token_of_cookies cookies)
  end.

Definition fetch_token_with_service_token (settings : TeamSettings) : M bytes :=
  id ← lift (ok_or (client_id settings) (Api (lit "missing access client id")));
  secret ← lift (ok_or (client_secret settings) (Api (lit "missing access client secret")));
  _ ← access_client;
  response ← send Direct (Get (login_url settings) [(lit "CF-Access-Client-Id", id); (lit "CF-Access-Client-Secret", secret)])
               (lit "access request");
  match token_of_cookies (r_cookies response) with
  | Some token => mret token
  | None =>
      match extract_jwt_from_html (match r_text response with inl _ => [] | inr body => body end) with
      | Some token => mret token
      | None =>
          fails (Api (lit "access did not return a device enrolment token (status " ++ w_status w (r_status response)
                      ++ lit "); confirm the service token has Service Auth device enrolment permission for team " ++ team settings))
      end
  end.

Definition sign_in (settings : TeamSettings) : M bytes := fun s =>
  match token settings with
  | Some token =>
      (if negb (looks_like_jwt token)
       then Err (Api (lit "the supplied access token is not a jwt; copy the value that follows token= on the enrolment page"))
       else if jwt_expired token (w_now w (acts s))
       then Err (Api (lit "the supplied access token has expired; sign in again to get a fresh one"))
       else Ok token, s)
  | None =>
      if has_service_token settings then fetch_token_with_service_token settings s
      else match email settings with
           | Some email => fetch_token_with_email_code settings email s
           | None =>
               (Err (Api (lit "team " ++ team settings ++ lit " needs a way to sign in. pick one: a service token via AETHER_ACCESS_CLIENT_ID and AETHER_ACCESS_CLIENT_SECRET, an email one-time code via AETHER_ACCESS_EMAIL, or a token you already hold via AETHER_ACCESS_TOKEN (sign in at "
                          ++ login_url settings ++ lit ")")), s)
           end
  end.

(** ** The token of the session *)

Definition keep (token : option bytes) (s : State) : State := mkState token (acts s).

Definition set_cache (token : option bytes) : M unit := fun s => (Ok tt, keep token s).

Definition sign_in_and_keep (settings : TeamSettings) : M bytes :=
  token ← sign_in settings; _ ← set_cache (Some token); mret token.

Definition resolve_token (settings : TeamSettings) : M bytes := fun s =>
  match cache s with
  | Some cached =>
      if negb (jwt_expired cached (w_now w (acts s))) then (Ok cached, s)
      else sign_in_and_keep settings (keep None s)
  | None => sign_in_and_keep settings s
  end.

Definition store_token (token : bytes) : M unit := fun s =>
  let token := trim token in
  if negb (looks_like_jwt token)
  then (Err (Api (lit "that value is not a jwt; copy the value that follows token= on the enrolment page")), s)
  else if jwt_expired token (w_now w (acts s))
  then (Err (Api (lit "that token has already expired; sign in again to get a fresh one")), s)
  else (Ok tt, keep (Some token) s).

Definition cached_token (s : State) : option bytes :=
  token ← cache s; if negb (jwt_expired token (w_now w (acts s))) then Some token else None.

Definition clear_token (s : State) : State := keep None s.

End login.

Definition CODE_PROMPT_MARKER : bytes := lit "[zerotrust] login-code-needed".
Definition code_prompt_line (email : bytes) (attempt : Z) : bytes :=
  CODE_PROMPT_MARKER ++ lit " attempt=" ++ dec attempt ++ lit " email=" ++ email.

(** ** Lemmas on searches *)

Lemma drop_blen {A} (x y : list A) : drop (Z.to_nat (blen x)) (x ++ y) = y.
Proof. unfold blen. by rewrite Nat2Z.id, drop_app_length. Qed.
Lemma take_blen {A} (x y : list A) : take (Z.to_nat (blen x)) (x ++ y) = x.
Proof. unfold blen. by rewrite Nat2Z.id, take_app_length. Qed.
Lemma drop_blen_add {A} (x y z : list A) n : n = blen x + blen y -> drop (Z.to_nat n) (x ++ y ++ z) = z.
Proof. intros ->. rewrite app_assoc, <- blen_app. apply drop_blen. Qed.

(** A pattern whose first character occurs once in it cannot overlap itself: it is found where it
    was put if it was not there before. *)
Lemma find_sub_put a p s t : a ∉ p -> find_sub (a :: p) s = None -> find_sub (a :: p) (s ++ (a :: p) ++ t) = Some (blen s).
Proof.
  intros Ha. induction s as [|b s IH]; intros Hn.
  - change ([] ++ (a :: p) ++ t) with (a :: (p ++ t)). cbn [find_sub]. by rewrite (proj2 (starts_with_spec (a :: p) (a :: p ++ t)) (ex_intro _ t eq_refl)).
  - cbn [find_sub] in Hn. rewrite <- app_comm_cons. cbn [find_sub]. destruct (starts_with (a :: p) (b :: s)) eqn:Hs; [done|].
    destruct (starts_with (a :: p) (b :: s ++ (a :: p) ++ t)) eqn:Hs'.
    + exfalso. destruct (decide (length (a :: p) <= length (b :: s))%nat) as [Hl|Hl].
      * rewrite (app_comm_cons s), starts_with_app in Hs' by done. congruence.
      * apply starts_with_spec in Hs' as [u Hu]. injection Hu as -> Hu.
        apply app_eq_app in Hu as (l & [[H1 H2]|[H1 H2]]); [subst s; cbn in Hl; rewrite ?length_app in Hl; lia|].
        subst p. destruct l as [|c l]; [rewrite app_nil_r in Hl; cbn in Hl; lia|]. injection H2 as <- _. set_solver.
    + rewrite IH by (by destruct (find_sub (a :: p) s)). cbn. f_equal. blia.
Qed.

(** A pattern with a character the text does not hold is not found. *)
Lemma find_sub_absent c p s : c ∈ p -> no_char c s = true -> find_sub p s = None.
Proof.
  intros Hc. induction s as [|b s IH]; intros Hs; cbn [find_sub].
  - destruct (starts_with p []) eqn:H; [|done]. apply starts_with_spec in H as [t Ht]. symmetry in Ht. apply app_eq_nil in Ht as [-> _]. by apply not_elem_of_nil in Hc.
  - destruct (starts_with p (b :: s)) eqn:H.
    + apply starts_with_spec in H as [t Ht]. rewrite Ht, no_char_app in Hs. apply andb_prop in Hs as [Hs _].
      apply list_elem_of_split in Hc as (l1 & l2 & ->). change (c :: l2) with ([c] ++ l2) in Hs. by rewrite no_char_not_in in Hs.
    + rewrite IH; [done|]. by apply andb_prop in Hs as [_ Hs].
Qed.

Lemma find_char_put c s t : no_char c s = true -> find_char c (s ++ [c] ++ t) = Some (blen s).
Proof.
  induction s as [|b s IH]; [cbn; by rewrite Z.eqb_refl|]. rewrite <- app_comm_cons. cbn [find_char no_char forallb].
  intros [Hb Hs]%andb_prop. apply negb_true_iff, Z.eqb_neq in Hb. rewrite (proj2 (Z.eqb_neq c b)) by congruence.
  rewrite IH by done. cbn. f_equal. blia.
Qed.

Lemma find_char_no c s : no_char c s = true -> find_char c s = None.
Proof.
  induction s as [|b s IH]; [done|]. intros [Hb Hs]%andb_prop. apply negb_true_iff, Z.eqb_neq in Hb. cbn [find_char].
  rewrite (proj2 (Z.eqb_neq c b)) by congruence. by rewrite IH.
Qed.

Lemma starts_with_no_char c p s : c ∈ p -> no_char c s = true -> starts_with p s = false.
Proof.
  intros Hc Hs. pose proof (find_sub_absent c p s Hc Hs) as Hf. destruct s; cbn [find_sub] in Hf; by destruct (starts_with _ _).
Qed.

(** ** Entities *)

(** What a page writes for the five characters of markup. *)
Definition escape_char (b : Z) : bytes :=
  if b =? 38 then lit "&amp;" else if b =? 60 then lit "&lt;" else if b =? 62 then lit "&gt;"
  else if b =? 34 then lit "&quot;" else if b =? 39 then lit "&#39;" else [b].
Definition escape (s : bytes) : bytes := concat (map escape_char s).

Lemma escape_cons b s : escape (b :: s) = escape_char b ++ escape s.
Proof. done. Qed.

Lemma escape_no_char c s : c ∈ [34; 39; 60; 62] -> no_char c (escape s) = true.
Proof.
  intros Hc. induction s as [|b s IH]; [done|]. rewrite escape_cons, no_char_app, IH, andb_true_r. unfold escape_char.
  repeat (case_match; zbool; [set_unfold in Hc; destruct Hc as [->|[->|[->|[->|[]]]]]; reflexivity|]).
  cbn. rewrite andb_true_r. apply negb_true_iff, Z.eqb_neq. set_unfold in Hc. lia.
Qed.

(** One turn of the loop, at a character. *)
Lemma decode_fuel_plain fuel b s : b <> 38 -> decode_fuel fuel (b :: s) = b :: decode_fuel fuel s.
Proof.
  intros Hb. destruct fuel as [|fuel]; [done|]. cbn [decode_fuel find_char]. rewrite (proj2 (Z.eqb_neq 38 b)) by congruence.
  destruct (find_char 38 s) as [i|] eqn:Hi; [|done]. cbn [fmap option_fmap option_map].
  assert (0 <= i) as Hp. { apply find_char_Some in Hi as (p & t & _ & -> & _). blia. }
  rewrite !Z2Nat.inj_succ by lia. replace (Z.to_nat (Z.succ i + 1)) with (S (Z.to_nat (i + 1))) by lia. done.
Qed.

Lemma decode_fuel_amp fuel s : decode_fuel (S fuel) (38 :: s) =
  match leading_entity s with Some (c, rest) => push_char c ++ decode_fuel fuel rest | None => 38 :: decode_fuel fuel s end.
Proof. done. Qed.

Lemma leading_entity_put name c s :
  no_char 59 name = true -> blen name <= 7 -> decode_entity name = Some c -> leading_entity (name ++ [59] ++ s) = Some (c, s).
Proof.
  intros Hn Hl Hc. unfold leading_entity. rewrite find_char_put by done. cbn [mbind option_bind]. rewrite (proj2 (Z.leb_le _ _)) by lia.
  rewrite take_blen, Hc. cbn [mbind option_bind]. by rewrite drop_blen_add by blia.
Qed.

Lemma escape_char_cases b :
  escape_char b = [b] /\ b <> 38 \/
  exists name, escape_char b = 38 :: name ++ [59] /\ no_char 59 name = true /\ blen name <= 7 /\ decode_entity name = Some b /\ push_char b = [b].
Proof.
  unfold escape_char.
  repeat (case_match; zbool; [subst b; right|]).
  all: try (left; done).
  - exists (lit "amp"). by vm_compute.
  - exists (lit "lt"). by vm_compute.
  - exists (lit "gt"). by vm_compute.
  - exists (lit "quot"). by vm_compute.
  - exists (lit "#39"). by vm_compute.
Qed.

Lemma decode_escape fuel s : (length s <= fuel)%nat -> decode_fuel fuel (escape s) = s.
Proof.
  revert fuel. induction s as [|b s IH]; intros fuel Hf; [by destruct fuel|]. cbn [length] in Hf.
  destruct fuel as [|fuel]; [lia|]. rewrite escape_cons. destruct (escape_char_cases b) as [[-> Hb]|(name & -> & Hn & Hl & Hd & Hp)].
  - change ([b] ++ escape s) with (b :: escape s). rewrite decode_fuel_plain by done. rewrite IH by lia. done.
  - change ((38 :: name ++ [59]) ++ escape s) with (38 :: (name ++ [59]) ++ escape s). rewrite decode_fuel_amp, <- app_assoc.
    rewrite (leading_entity_put _ b) by done. rewrite Hp, IH by lia. done.
Qed.

Lemma length_escape s : (length s <= length (escape s))%nat.
Proof.
  induction s as [|b s IH]; [done|]. rewrite escape_cons, length_app. cbn [length].
  destruct (escape_char_cases b) as [[-> _]|(name & -> & _)]; cbn; lia.
Qed.

Lemma decode_entities_escape s : decode_entities (escape s) = s.
Proof. apply decode_escape, length_escape. Qed.

(** ** The form of the enrolment page *)

Definition ANCHOR : bytes := [105; 100; 61; 34] ++ lit "totp-form" ++ [34].
Definition form_open (url : bytes) : bytes := lit "<form action=" ++ [34] ++ escape url ++ [34; 32].
Definition enrolment_page (before url after : bytes) : bytes := before ++ form_open url ++ ANCHOR ++ [62] ++ after.

Lemma rfind_form pre t : no_char 60 t = true -> rfind_sub (lit "<form") (pre ++ lit "<form" ++ t) = Some (blen pre).
Proof.
  intros Ht. unfold rfind_sub. rewrite !rev_app_distr. change (rev (lit "<form")) with (109 :: lit "rof<"). rewrite <- app_assoc.
  rewrite find_sub_put.
  - cbn [fmap option_fmap option_map]. f_equal. unfold blen. rewrite !length_app, length_rev. cbn [length lit]. 
    change (length (lit "<form")) with 5%nat. lia.
  - by apply (bool_decide_unpack _); vm_compute.
  - apply (find_sub_absent 60); [|by rewrite no_char_rev]. by apply (bool_decide_unpack _); vm_compute.
Qed.

Lemma form_action_read before url after :
  find_sub ANCHOR (before ++ form_open url) = None -> starts_with (lit "https://") url = true ->
  extract_totp_form_action (enrolment_page before url after) = Some url.
Proof.
  intros Hb Hu. unfold extract_totp_form_action, enrolment_page. change ([105; 100; 61; 34] ++ lit "totp-form" ++ [34]) with ANCHOR.
  assert (forall x, find_sub ANCHOR (before ++ form_open url ++ ANCHOR ++ x) = Some (blen (before ++ form_open url))) as Ha.
  { intros x. rewrite app_assoc. apply find_sub_put; [|done]. by apply (bool_decide_unpack _); vm_compute. }
  rewrite Ha. cbn [mbind option_bind]. clear Ha Hb. rewrite (app_assoc before), take_blen.
  assert (no_char 62 (escape url) = true) as H62 by (apply escape_no_char; set_solver).
  assert (no_char 60 (escape url) = true) as H60 by (apply escape_no_char; set_solver).
  assert (no_char 34 (escape url) = true) as H34 by (apply escape_no_char; set_solver).
  set (attrs := lit " action=" ++ [34] ++ escape url ++ [34; 32]).
  change (form_open url) with (lit "<form" ++ attrs).
  rewrite rfind_form by (unfold attrs; rewrite !no_char_app, H60; done). cbn [mbind option_bind].
  rewrite <- (app_assoc before), drop_blen.
  replace ((lit "<form" ++ attrs) ++ ANCHOR ++ [62] ++ after) with (((lit "<form" ++ attrs) ++ ANCHOR) ++ [62] ++ after) by (by rewrite <- !app_assoc).
  rewrite find_char_put by (unfold attrs; rewrite !no_char_app, H62; done). cbn [mbind option_bind]. rewrite take_blen.
  change ((lit "<form" ++ attrs) ++ ANCHOR) with (lit "<form " ++ lit "action=" ++ ([34] ++ escape url ++ [34; 32]) ++ ANCHOR).
  change (lit "action=") with (97 :: lit "ction=").
  rewrite find_sub_put by (by apply (bool_decide_unpack _); vm_compute). cbn [mbind option_bind].
  rewrite drop_blen_add by done. rewrite <- !app_assoc. change ([34] ++ escape url ++ ?x) with (34 :: escape url ++ x).
  rewrite trim_start_plain by done. cbn [Z.eqb Pos.eqb negb andb].
  change ([34; 32] ++ ANCHOR) with ([34] ++ ([32] ++ ANCHOR)). rewrite find_char_put by done. cbn [mbind option_bind].
  by rewrite take_blen, decode_entities_escape, Hu.
Qed.

(** ** The values of a query *)

Import Upstream(percent_encode, percent_encode_chars, hex_upper_byte, unreserved, percent_char).

Lemma percent_bytes_encode s t : all_bytes s -> percent_bytes (percent_encode s ++ t) = s ++ percent_bytes t.
Proof.
  induction 1 as [|b s Hb _ IH]; [done|]. unfold percent_encode. cbn [map concat]. fold (percent_encode s). rewrite <- app_assoc.
  destruct (unreserved b) eqn:Hu.
  - cbn [app percent_bytes]. assert (b <> 37 /\ b <> 43) as [H37 H43] by (split; by intros ->).
    by rewrite (proj2 (Z.eqb_neq b 37)), (proj2 (Z.eqb_neq b 43)), IH.
  - destruct (hex_upper_byte b Hb) as [H8 Hhex]. cbn [app percent_bytes Z.eqb Pos.eqb]. rewrite H8. change (default [] (Some ?x)) with x. by rewrite Hhex, IH.
Qed.

Lemma percent_decode_encode s : all_bytes s -> utf8_valid s = true -> percent_decode (percent_encode s) = s.
Proof.
  intros Hb Hv. unfold percent_decode. rewrite <- (app_nil_r (percent_encode s)), percent_bytes_encode by done.
  change (percent_bytes []) with (@nil Z). by rewrite app_nil_r, lossy_valid.
Qed.

(** The query of names and values, and a name and a value it can carry. *)
Definition pair_text (kv : bytes * bytes) : bytes := kv.1 ++ [61] ++ percent_encode kv.2.
Definition query (kvs : list (bytes * bytes)) : bytes :=
  match map pair_text kvs with [] => [] | p :: ps => p ++ concat (map (fun q => [38] ++ q) ps) end.
Definition pair_ok (kv : bytes * bytes) : Prop :=
  no_char 61 kv.1 = true /\ no_char 38 kv.1 = true /\ all_bytes kv.2 /\ utf8_valid kv.2 = true.

Lemma percent_encode_no c s : percent_char c = false -> all_bytes s -> no_char c (percent_encode s) = true.
Proof. intros Hc Hs. apply (forallb_no_char percent_char); [done|]. by apply percent_encode_chars. Qed.

Lemma pair_text_no kv : pair_ok kv -> no_char 38 (pair_text kv) = true.
Proof. intros (_ & H & Hb & _). unfold pair_text. rewrite !no_char_app, H, percent_encode_no by done. done. Qed.

Lemma value_of_pair_texts key kvs : Forall pair_ok kvs ->
  value_of_pairs key (map pair_text kvs) = snd <$> List.find (fun kv => bool_decide (kv.1 = key)) kvs.
Proof.
  induction 1 as [|[k v] kvs (H61 & _ & Hb & Hv) _ IH]; [done|]. cbn [map value_of_pairs]. unfold pair_text at 1. cbn [fst snd] in *.
  rewrite split_once_app by done. cbn [List.find fst]. case_bool_decide; [|done]. by rewrite percent_decode_encode.
Qed.

Lemma query_value_read base key kvs : kvs <> [] -> no_char 63 base = true -> Forall pair_ok kvs ->
  query_value (base ++ [63] ++ query kvs) key = snd <$> List.find (fun kv => bool_decide (kv.1 = key)) kvs.
Proof.
  intros Hne Hb Hk. unfold query_value. rewrite split_once_app by done. rewrite <- value_of_pair_texts by done. f_equal.
  destruct kvs as [|kv kvs]; [done|]. unfold query. cbn [map]. apply Forall_cons in Hk as [H1 Hk].
  rewrite split_char_join; [done|by apply pair_text_no|]. apply Forall_map. eapply Forall_impl; [exact Hk|]. apply pair_text_no.
Qed.

(** A name without a value hides what follows it. *)
Lemma query_value_stops_at_flag base flag_ kvs key :
  no_char 63 base = true -> no_char 38 flag_ = true -> no_char 61 flag_ = true -> query_value (base ++ [63] ++ flag_ ++ [38] ++ kvs) key = None.
Proof.
  intros Hb H38 H61. unfold query_value. rewrite split_once_app by done. unfold split_char.
  rewrite split_chars_app by (by apply no_char_negb_eqb || done). cbn [value_of_pairs]. by rewrite split_once_none.
Qed.

(** ** Teams *)

Section teams.
Context `{UnicodeCase}.

Definition lower_char (b : Z) : Prop := ascii_lower b = b.

Lemma lower_chars s : Forall lower_char (to_lowercase s).
Proof.
  apply Forall_lookup. intros i b Hb. pose proof (to_lowercase_lower s) as Hl. unfold to_ascii_lowercase in Hl.
  assert (map ascii_lower (to_lowercase s) !! i = Some (ascii_lower b)) as Hm by (rewrite list_lookup_fmap, Hb; done).
  rewrite Hl, Hb in Hm. by injection Hm.
Qed.

Lemma without_prefix_suffix p s : exists q, s = q ++ without_prefix p s.
Proof.
  unfold without_prefix, strip_prefix. destruct (starts_with p s); [|by exists []]. exists (take (length p) s). symmetry. apply take_drop.
Qed.

(** What is left of a team is a piece of the text in lower case. *)
Lemma normalize_team_piece raw t : normalize_team raw = Some t ->
  t <> [] /\ forallb team_char t = true /\ Forall lower_char t.
Proof.
  unfold normalize_team. case_bool_decide as Hv; [done|]. intros Hn.
  set (value := to_lowercase (trim raw)) in *. cbn [fold_left] in Hn.
  destruct (without_prefix_suffix (lit "https://") value) as [q1 E1]. destruct (without_prefix_suffix (lit "http://") (without_prefix (lit "https://") value)) as [q2 E2].
  pose proof (lower_chars (trim raw)) as Hl. fold value in Hl. rewrite E1 in Hl. apply Forall_app in Hl as [_ Hl]. rewrite E2 in Hl. apply Forall_app in Hl as [_ Hl].
  set (v2 := without_prefix _ (without_prefix _ value)) in *. clearbody v2.
  destruct (trim_end_matches_prefix 47 v2) as (q3 & E3 & _). rewrite E3 in Hl. apply Forall_app in Hl as [Hl _].
  set (v3 := trim_end_matches 47 v2) in *. clearbody v3.
  assert (exists q, v3 = match split_char 47 v3 with head :: _ => head | [] => v3 end ++ q) as [q4 E4].
  { unfold split_char. clear. induction v3 as [|b v IH]; [by exists []|]. cbn [split_chars]. pose proof (split_chars_not_nil (Z.eqb 47) v).
    destruct (split_chars (Z.eqb 47) v) as [|h l]; [done|]. destruct (47 =? b); [by exists (b :: v)|]. destruct IH as [q ->]. exists q. done. }
  rewrite E4 in Hl. apply Forall_app in Hl as [Hl _]. set (v4 := match split_char 47 v3 with head :: _ => head | [] => v3 end) in *. clearbody v4.
  assert (Forall lower_char match strip_suffix TEAM_SUFFIX v4 with Some head => trim_end_matches 46 head | None => v4 end) as Hl'.
  { unfold strip_suffix. destruct (ends_with _ _); [|done]. set (h := take _ v4). assert (Forall lower_char h) as Hh by (by apply Forall_take).
    destruct (trim_end_matches_prefix 46 h) as (q5 & E5 & _). rewrite E5 in Hh. by apply Forall_app in Hh as [Hh _]. }
  case_bool_decide as Ht; [done|]. destruct (forallb team_char _) eqn:Hc; [|done]. by injection Hn as <-.
Qed.

Lemma team_char_facts t : forallb team_char t = true ->
  no_char 47 t = true /\ no_char 58 t = true /\ no_char 46 t = true /\ forallb plain t = true /\ str_is_ascii t = true.
Proof.
  intros Ht. split; [by apply (forallb_no_char team_char)|]. split; [by apply (forallb_no_char team_char)|]. split; [by apply (forallb_no_char team_char)|].
  assert (forall b, team_char b = true -> plain b = true /\ is_ascii b = true) as Hp.
  { intros b. unfold team_char, plain, is_ascii, is_ascii_alphanumeric, is_ascii_digit, is_ascii_upper, is_ascii_lower, ws1. intros Hb.
    assert (45 <= b <= 122). { repeat (apply orb_true_iff in Hb as [Hb|Hb]); zbool; lia. }
    rewrite (proj2 (Z.ltb_lt _ _)), (proj2 (Z.leb_gt b 13)), (proj2 (Z.eqb_neq b 32)) by lia. by rewrite andb_false_r. }
  split; eapply forallb_impl; [|done| |done]; intros b Hb; by apply Hp.
Qed.

Lemma lowered s : str_is_ascii s = true -> Forall lower_char s -> to_lowercase s = s.
Proof.
  intros Ha Hl. rewrite to_lowercase_ascii by done. clear Ha. induction Hl as [|b s Hb _ IH]; [done|]. cbn [to_ascii_lowercase map].
  rewrite Hb. f_equal. exact IH.
Qed.

Definition team_ok (t : bytes) : Prop := t <> [] /\ forallb team_char t = true /\ Forall lower_char t.

(** A team followed by what an address has after it. *)
Lemma normalize_address t tail_ : team_ok t -> trim_end_matches 47 (t ++ tail_) = t ++ tail_ ->
  (tail_ = [] \/ exists path, (path = [] \/ exists x, path = 47 :: x) /\ tail_ = [46] ++ TEAM_SUFFIX ++ path) ->
  let value := trim_end_matches 47 (t ++ tail_) in
  let value := match split_char 47 value with head :: _ => head | [] => value end in
  match strip_suffix TEAM_SUFFIX value with Some head => trim_end_matches 46 head | None => value end = t.
Proof.
  intros (Hne & Hc & _) Ht Htail. destruct (team_char_facts t Hc) as (H47 & H58 & H46 & _). cbn zeta. rewrite Ht.
  destruct Htail as [->|(path & Hp & ->)].
  - rewrite app_nil_r. unfold split_char. rewrite split_chars_none by (by apply no_char_negb_eqb).
    unfold strip_suffix, ends_with. rewrite (starts_with_no_char 46); [done|by apply (bool_decide_unpack _); vm_compute|by rewrite no_char_rev].
  - assert (split_char 47 (t ++ [46] ++ TEAM_SUFFIX ++ path) = (t ++ [46] ++ TEAM_SUFFIX) :: tail (split_char 47 (t ++ [46] ++ TEAM_SUFFIX ++ path))) as ->.
    { unfold split_char. assert (forallb (fun b => negb (47 =? b)) (t ++ [46] ++ TEAM_SUFFIX) = true) as Hn.
      { apply no_char_negb_eqb. rewrite !no_char_app, H47. done. }
      rewrite !app_assoc, <- (app_assoc t). destruct Hp as [->|[x ->]]; [by rewrite app_nil_r, split_chars_none|].
      change (47 :: x) with ([47] ++ x). by rewrite split_chars_app. }
    unfold strip_suffix. rewrite (proj2 (ends_with_spec TEAM_SUFFIX _)) by (exists (t ++ [46]); by rewrite <- app_assoc).
    rewrite app_assoc, take_app_le by (rewrite !length_app; lia). rewrite firstn_all2 by (rewrite !length_app; lia).
    unfold trim_end_matches. rewrite rev_unit. cbn [drop_while]. rewrite Z.eqb_refl.
    fold (trim_end_matches 46 t). apply trim_end_matches_id. intros u ->. by rewrite no_char_app in H46; cbn in H46; rewrite andb_false_r in H46.
Qed.

Lemma normalize_prefix t scheme tail_ : team_ok t ->
  scheme = [] \/ scheme = lit "https://" ->
  forallb plain tail_ = true -> Forall lower_char tail_ -> no_char 58 tail_ = true -> trim_end_matches 47 (t ++ tail_) = t ++ tail_ ->
  (tail_ = [] \/ exists path, (path = [] \/ exists x, path = 47 :: x) /\ tail_ = [46] ++ TEAM_SUFFIX ++ path) ->
  normalize_team (scheme ++ t ++ tail_) = Some t.
Proof.
  intros Hok Hs Hp Hl H58 Htrim Htail. pose proof Hok as (Hne & Hc & Hlow). destruct (team_char_facts t Hc) as (_ & Ht58 & _ & Htp & _).
  assert (forallb plain (scheme ++ t ++ tail_) = true) as Hplain by (rewrite !forallb_app, Htp, Hp; by destruct Hs as [->| ->]).
  unfold normalize_team. rewrite trim_all_plain by done. rewrite lowered.
  - rewrite bool_decide_eq_false_2 by (destruct scheme, t; done). cbn [fold_left].
    assert (without_prefix (lit "http://") (without_prefix (lit "https://") (scheme ++ t ++ tail_)) = t ++ tail_) as ->.
    { assert (forall p, 58 ∈ p -> without_prefix p (t ++ tail_) = t ++ tail_) as Hw.
      { intros p Hin. unfold without_prefix, strip_prefix. by rewrite (starts_with_no_char 58) by (done || (rewrite no_char_app, Ht58; done)). }
      assert (without_prefix (lit "https://") (scheme ++ t ++ tail_) = t ++ tail_) as ->; [|apply Hw; by apply (bool_decide_unpack _); vm_compute].
      destruct Hs as [->| ->]; [apply Hw; by apply (bool_decide_unpack _); vm_compute|].
      unfold without_prefix, strip_prefix. rewrite (proj2 (starts_with_spec (lit "https://") _)) by (by eexists). by rewrite drop_app_length. }
    pose proof (normalize_address t tail_ Hok Htrim Htail) as Hn. cbn zeta in Hn. rewrite Hn.
    rewrite bool_decide_eq_false_2 by done. by rewrite Hc.
  - revert Hplain. apply forallb_impl. intros b. unfold plain. by intros [? _]%andb_prop.
  - apply Forall_app. split; [|by apply Forall_app]. destruct Hs as [->| ->]; [done|]. by apply (bool_decide_unpack _); vm_compute.
Qed.

End teams.

(** A team is a label in lower case, whatever way it was written: what [normalize_team]
    gives is not empty and holds letters in lower case, digits, hyphens and underscores only,
    is its own normal form, and is read back from the address of the team and from its
    enrolment address. *)
Theorem team_is_normal `{UnicodeCase} raw t : normalize_team raw = Some t ->
  team_ok t /\ normalize_team t = Some t /\ normalize_team (team_domain t) = Some t /\
  forall s, team s = t -> normalize_team (login_url s) = Some t.
Proof.
  intros Hn. pose proof (normalize_team_piece raw t Hn) as Hok. split; [exact Hok|].
  pose proof Hok as (Hne & Hc & _). destruct (team_char_facts t Hc) as (H47 & _ & _ & Hp & _).
  assert (forall u, trim_end_matches 47 (t ++ u ++ [112]) = t ++ u ++ [112] /\ trim_end_matches 47 (t ++ u ++ [109]) = t ++ u ++ [109]) as Hend.
  { intros u. split; apply trim_end_matches_id; intros v; rewrite !app_assoc; intros [_ [=]]%app_inj_tail. }
  split; [|split].
  - pose proof (normalize_prefix t [] [] Hok) as Hp0. cbn [app] in Hp0. rewrite app_nil_r in Hp0. apply Hp0; auto.
    apply trim_end_matches_id. intros v ->. rewrite no_char_app in H47. by apply andb_prop in H47 as [_ ?].
  - apply (normalize_prefix t _ ([46] ++ TEAM_SUFFIX ++ [])); [done|by right|done|by apply (bool_decide_unpack _); vm_compute|done| |right; eauto].
    apply (Hend (lit ".cloudflareaccess.co")).
  - intros s <-. unfold login_url, team_domain. rewrite <- !app_assoc.
    apply (normalize_prefix (team s) _ ([46] ++ TEAM_SUFFIX ++ ENROLL_PATH)); [done|by right|done|by apply (bool_decide_unpack _); vm_compute|done| |right; eauto].
    apply (Hend (lit ".cloudflareaccess.com/war")).
Qed.

(** ** What a login leaves *)

Section login_lemmas.
Context `{JwtCrates} (w : World).

(** A step that leaves the kept token alone and adds to the log. *)
Definition quiet {A} (m : M A) : Prop := forall s, cache (m s).2 = cache s /\ exists new, acts (m s).2 = new ++ acts s.

Lemma quiet_ret {A} (a : A) : quiet (mret a).
Proof. intros s. split; [done|]. by exists []. Qed.
Lemma quiet_lift {A} (r : res AetherError A) : quiet (lift r).
Proof. intros s. split; [done|]. by exists []. Qed.
Lemma quiet_bind {A B} (m : M A) (f : A -> M B) : quiet m -> (forall a, quiet (f a)) -> quiet (m ≫= f).
Proof.
  intros Hm Hf s. specialize (Hm s). unfold mbind, M_bind. destruct (m s) as [[a|e|] s1]; [|done..]. cbn [snd] in *.
  destruct Hm as (Hc & new & Ha), (Hf a s1) as (Hc' & new' & Ha'). split; [congruence|]. exists (new' ++ new). by rewrite Ha', Ha, app_assoc.
Qed.
Lemma quiet_send c r what : quiet (send w c r what).
Proof. intros s. unfold send. destruct (w_send w (acts s) c r); (split; [done|]); by exists [Sent c r]. Qed.
Lemma quiet_text r what : quiet (text r what).
Proof. unfold text. destruct (r_text r); [apply quiet_lift|apply quiet_ret]. Qed.
Lemma quiet_client : quiet (access_client w).
Proof. apply quiet_bind; [apply quiet_lift|]. intros _. destruct (w_client w); [apply quiet_lift|apply quiet_ret]. Qed.
Lemma quiet_prompt email attempt : quiet (prompt_login_code w email attempt).
Proof.
  intros s. unfold prompt_login_code. destruct (negb _ && _); [by split; [|exists [Asked email attempt]]|].
  destruct (w_read w _) as [[|b l]|]; by split; [|exists [Asked email attempt]].
Qed.
Lemma quiet_submit e code : quiet (submit_code w e code).
Proof.
  unfold submit_code. case_bool_decide; [apply quiet_lift|]. apply quiet_bind; [apply quiet_send|]. intros r.
  apply quiet_bind; [apply quiet_text|]. intros body. apply quiet_ret.
Qed.
Lemma quiet_request url email fallback : quiet (request_email_code w url email fallback).
Proof. apply quiet_bind; [apply quiet_send|]. intros r. destruct (negb _); [apply quiet_lift|apply quiet_ret]. Qed.
Lemma quiet_begin settings email : quiet (begin_email_signin w settings email).
Proof.
  unfold begin_email_signin. case_bool_decide; [apply quiet_lift|]. apply quiet_bind; [apply quiet_client|]. intros _.
  apply quiet_bind; [apply quiet_send|]. intros r. apply quiet_bind; [apply quiet_text|]. intros body.
  apply quiet_bind; [apply quiet_lift|]. intros url. apply quiet_bind; [apply quiet_request|]. intros n.
  apply quiet_bind; [apply quiet_lift|]. intros nonce. apply quiet_ret.
Qed.
Lemma quiet_attempts session n : forall attempt last, quiet (code_attempts w session attempt n last).
Proof.
  induction n as [|n IH]; intros attempt last; [apply quiet_lift|]. cbn [code_attempts].
  apply quiet_bind; [apply quiet_prompt|]. intros code. apply quiet_bind; [apply quiet_submit|]. intros [t|st]; [apply quiet_ret|apply IH].
Qed.
Lemma quiet_email settings email : quiet (fetch_token_with_email_code w settings email).
Proof. apply quiet_bind; [apply quiet_begin|]. intros e. apply quiet_attempts. Qed.
Lemma quiet_service settings : quiet (fetch_token_with_service_token w settings).
Proof.
  apply quiet_bind; [apply quiet_lift|]. intros i. apply quiet_bind; [apply quiet_lift|]. intros secret.
  apply quiet_bind; [apply quiet_client|]. intros _. apply quiet_bind; [apply quiet_send|]. intros r.
  destruct (token_of_cookies _); [apply quiet_ret|]. destruct (extract_jwt_from_html _); [apply quiet_ret|apply quiet_lift].
Qed.
Lemma quiet_sign_in settings : quiet (sign_in w settings).
Proof.
  intros s. unfold sign_in. destruct (token settings); [by split; [|exists []]|]. destruct (has_service_token settings); [apply quiet_service|].
  destruct (email settings); [apply quiet_email|]. by split; [|exists []].
Qed.

(** What a bind that succeeds is made of. *)
Lemma M_bind_Ok {A B} (m : M A) (f : A -> M B) s b s2 :
  (m ≫= f) s = (Ok b, s2) -> exists a s1, m s = (Ok a, s1) /\ f a s1 = (Ok b, s2).
Proof. unfold mbind, M_bind. destruct (m s) as [[a|e|] s1]; [|done..]. eauto. Qed.

Lemma bind_run {A B} (m : M A) (f : A -> M B) s a s1 : m s = (Ok a, s1) -> (m ≫= f) s = f a s1.
Proof. unfold mbind, M_bind. by intros ->. Qed.
Lemma send_answered c r what s a : w_send w (acts s) c r = inr a -> send w c r what s = (Ok a, log (Sent c r) s).
Proof. unfold send. by intros ->. Qed.

Lemma lift_Ok {A} (r : res AetherError A) s a s2 : lift r s = (Ok a, s2) -> r = Ok a /\ s2 = s.
Proof. unfold lift. by intros [= -> ->]. Qed.

Lemma html_token html t : extract_jwt_from_html html = Some t -> looks_like_jwt t = true.
Proof.
  unfold extract_jwt_from_html. destruct (find_sub _ html); [|done]. cbn [mbind option_bind]. destruct (looks_like_jwt _) eqn:Hl; [|done].
  by intros [= <-].
Qed.

Lemma cookie_token header t : extract_jwt_from_cookie header = Some t -> looks_like_jwt t = true.
Proof.
  unfold extract_jwt_from_cookie. induction (split_char 59 header) as [|p ps IH]; [done|]. cbn [jwt_of_parts].
  destruct (match strip_prefix _ _ with Some _ => _ | None => _ end) as [v|]; [|done]. cbn [mbind option_bind].
  destruct (looks_like_jwt v) eqn:Hl; [|done]. by intros [= <-].
Qed.

Lemma cookies_token cookies t : token_of_cookies cookies = Some t -> looks_like_jwt t = true.
Proof.
  induction cookies as [|c cookies IH]; [done|]. cbn [token_of_cookies]. destruct c as [c|]; [|done]. cbn [mbind option_bind].
  destruct (extract_jwt_from_cookie c) eqn:Hc; [|done]. cbn [or_else]. intros [= <-]. by apply cookie_token in Hc.
Qed.

(** A token that was asked for was asked for: something was sent. *)
Definition asked_for (s : State) (t : bytes) (s2 : State) : Prop :=
  looks_like_jwt t = true /\ exists a new, acts s2 = a :: new ++ acts s.

Lemma send_Ok c r what s a s1 : send w c r what s = (Ok a, s1) -> s1 = log (Sent c r) s.
Proof. unfold send. destruct (w_send w (acts s) c r); intros [=]; done. Qed.

Lemma service_token_asked settings s t s2 : fetch_token_with_service_token w settings s = (Ok t, s2) -> asked_for s t s2.
Proof.
  intros (i & ? & [_ ->]%lift_Ok & (secret & ? & [_ ->]%lift_Ok & (u0 & s1 & Hcl & (r & s3 & Hs & Ht)%M_bind_Ok)%M_bind_Ok)%M_bind_Ok)%M_bind_Ok.
  pose proof (quiet_client s) as (_ & new & Ha). rewrite Hcl in Ha. apply send_Ok in Hs as ->.
  destruct (token_of_cookies _) eqn:Hc.
  - injection Ht as <- <-. split; [by apply cookies_token in Hc|]. exists (Sent Direct (Get (login_url settings) [(lit "CF-Access-Client-Id", i); (lit "CF-Access-Client-Secret", secret)])), new.
    cbn. by rewrite <- Ha.
  - destruct (extract_jwt_from_html _) eqn:Hh; [|done]. injection Ht as <- <-. split; [by apply html_token in Hh|].
    exists (Sent Direct (Get (login_url settings) [(lit "CF-Access-Client-Id", i); (lit "CF-Access-Client-Secret", secret)])), new.
    cbn. by rewrite <- Ha.
Qed.

(** ** The codes of an email login *)

Definition code_request (e : EmailSignIn) (code : bytes) : Request := Post (callback e) [(lit "code", code); (lit "nonce", e_nonce e)].
(** What an attempt with a code does: it asks for the code, and sends it. *)
Fixpoint attempts_log (e : EmailSignIn) (attempt : nat) (codes : list bytes) : list Act :=
  match codes with
  | [] => []
  | code :: codes => Asked (e_email e) attempt :: Sent Browser (code_request e code) :: attempts_log e (S attempt) codes
  end.
(** A code as it is sent: trimmed, and not empty. *)
Definition entered (code : bytes) : Prop := trim code = code /\ code <> [].

(** A code is the line that was read when it was asked for, trimmed; one that is not typed at a
    terminal came in time. *)
Definition was_read (asked : list Act) (code : bytes) : Prop :=
  (exists line, w_read w asked = Line line /\ line <> [] /\ code = trim line) /\
  (w_interactive w = false -> w_late w asked = false).

(** The answer to a code is a page without a token. *)
Definition turned_down (e : EmailSignIn) (code : bytes) (before : list Act) : Prop :=
  exists r body, w_send w before Browser (code_request e code) = inr r /\ r_text r = inr body /\ extract_jwt_from_html body = None.

(** Every code of the attempts after [before] is the one read for it, and was asked for only when
    the one before it was turned down. *)
Fixpoint codes_read (e : EmailSignIn) (attempt : nat) (before : list Act) (codes : list bytes) : Prop :=
  match codes with
  | [] => True
  | code :: codes =>
      let asked := Asked (e_email e) attempt :: before in
      was_read asked code /\ (codes <> [] -> turned_down e code asked) /\
      codes_read e (S attempt) (Sent Browser (code_request e code) :: asked) codes
  end.

(** The token a login gives is the one of the answer to the code sent last. *)
Definition answers_last_code (e : EmailSignIn) (t : bytes) (l : list Act) : Prop :=
  exists code before r body, l = Sent Browser (code_request e code) :: before /\
    w_send w before Browser (code_request e code) = inr r /\ r_text r = inr body /\ extract_jwt_from_html body = Some t.

Definition attempts_spec (e : EmailSignIn) (attempt n : nat) (s : State) (out : res AetherError bytes * State) : Prop :=
  exists codes last, acts out.2 = rev (attempts_log e attempt codes ++ last) ++ acts s /\ Forall entered codes /\
    codes_read e attempt (acts s) codes /\ (length codes <= n)%nat /\
    (last = [] \/ last = [Asked (e_email e) (attempt + length codes)] /\ (length codes < n)%nat) /\
    (forall t, out.1 = Ok t -> codes <> [] /\ last = [] /\ answers_last_code e t (acts out.2)).

Lemma prompt_spec email attempt s : let out := prompt_login_code w email attempt s in
  out.2 = log (Asked email attempt) s /\ out.1 <> Panic /\ forall code, out.1 = Ok code -> entered code /\ was_read (Asked email attempt :: acts s) code.
Proof.
  unfold prompt_login_code. cbn zeta. destruct (negb _ && _) eqn:Hl; [done|]. unfold was_read. cbn [acts log] in *.
  destruct (w_read w _) as [[|b l]|] eqn:Hr; [done| |done]. split; [done|]. case_bool_decide; split; try done. intros code [= <-].
  split; [by split; [apply trim_idem|]|]. split; [by exists (b :: l)|]. intros Hi. by rewrite Hi in Hl.
Qed.

Lemma submit_spec e code s : entered code -> let out := submit_code w e code s in
  out.2 = log (Sent Browser (code_request e code)) s /\ out.1 <> Panic /\
  (forall t, out.1 = Ok (Token t) -> answers_last_code e t (acts out.2)) /\
  (forall st, out.1 = Ok (Rejected st) -> turned_down e code (acts s)).
Proof.
  intros [Htrim Hne]. unfold submit_code. cbn zeta. rewrite Htrim, bool_decide_eq_false_2 by done.
  fold (code_request e code). unfold mbind, M_bind, send. destruct (w_send w (acts s) Browser (code_request e code)) as [err|r] eqn:Hs; [done|].
  unfold text. destruct (r_text r) as [err|body] eqn:Hr; [done|]. cbn. split; [done|]. split; [done|].
  destruct (extract_jwt_from_html body) as [t'|] eqn:Hj; split; try done; [|intros st _; by exists r, body].
  intros t [= ->]. by exists code, (acts s), r, body.
Qed.

Lemma code_attempts_spec e n : forall attempt status s, attempts_spec e attempt n s (code_attempts w e attempt n status s).
Proof.
  induction n as [|n IH]; intros attempt status s.
  { exists [], []. split_and!; [done|by constructor|done|cbn; lia|by left|done]. }
  cbn [code_attempts]. unfold mbind at 1, M_bind at 1. destruct (prompt_spec (e_email e) attempt s) as (Hl & Hp & He).
  destruct (prompt_login_code w (e_email e) attempt s) as [[code|err|] s1]; cbn [fst snd] in *; subst s1; [| |done].
  2: { exists [], [Asked (e_email e) attempt]. split_and!; [done|by constructor|done|cbn; lia| |done]. right. cbn [length]. rewrite Nat.add_0_r. split; [done|lia]. }
  destruct (He code eq_refl) as [Hen Hread]. unfold mbind, M_bind.
  destruct (submit_spec e code (log (Asked (e_email e) attempt) s) Hen) as (Hl & Hsp & Ht & Hrej).
  destruct (submit_code w e code (log (Asked (e_email e) attempt) s)) as [[[t|st]|err|] s2]; cbn [fst snd] in *; subst s2; [| | |done].
  - exists [code], []. split_and!; [done|by apply Forall_singleton|done|cbn; lia|by left|]. intros t' [= <-]. split_and!; [done..|]. by apply Ht.
  - destruct (IH (S attempt) (Some st) (log (Sent Browser (code_request e code)) (log (Asked (e_email e) attempt) s))) as (codes & last & Ha & Hc & Hcr & Hn & Hlast & Hok).
    exists (code :: codes), last. cbn [attempts_log codes_read length app rev] in *. split_and!.
    + rewrite Ha. cbn [acts log]. by rewrite <- !app_assoc.
    + by constructor.
    + done.
    + by intros _; apply (Hrej st).
    + done.
    + lia.
    + destruct Hlast as [->|[-> ?]]; [by left|right]. split; [|lia]. by rewrite Nat.add_succ_r.
    + intros t Ht'. split_and!; [done|by apply (Hok t)|by apply (Hok t)].
  - exists [code], []. split_and!; [done|by apply Forall_singleton|done|cbn; lia|by left|done].
Qed.

(** A session began for the address as it was entered, trimmed. *)
Lemma begin_email settings email s e s1 : begin_email_signin w settings email s = (Ok e, s1) ->
  e_email e = trim email /\ e_team e = team settings /\ exists a new, acts s1 = a :: new ++ acts s.
Proof.
  intros Hb. pose proof (quiet_begin settings email s) as (_ & new & Ha). rewrite Hb in Ha. cbn [snd] in Ha.
  assert (exists a new, acts s1 = a :: new ++ acts s /\ e_email e = trim email /\ e_team e = team settings) as (a & l & H1 & H2 & H3); [|eauto].
  unfold begin_email_signin in Hb. case_bool_decide; [done|].
  apply M_bind_Ok in Hb as (? & s2 & Hcl & (r & s3 & Hs & (body & s4 & Ht & (url & s5 & [_ ->]%lift_Ok & (n & s6 & Hr & (nonce & s7 & [_ ->]%lift_Ok & Hret)%M_bind_Ok)%M_bind_Ok)%M_bind_Ok)%M_bind_Ok)%M_bind_Ok).
  injection Hret as <- <-. pose proof (quiet_request url (trim email) (Some (r_url r)) s4) as (_ & n1 & H1). rewrite Hr in H1. cbn [snd] in H1.
  apply send_Ok in Hs as ->. pose proof (quiet_client s) as (_ & n2 & H2). rewrite Hcl in H2. cbn [snd] in H2.
  assert (s4 = log (Sent Browser (Get (login_url settings) [])) s2) as ->.
  { unfold text in Ht. destruct (r_text r); [done|]. by injection Ht as _ <-. }
  cbn [acts log] in H1. rewrite H2 in H1. destruct n1 as [|a n1].
  - exists (Sent Browser (Get (login_url settings) [])), n2. done.
  - exists a, (n1 ++ Sent Browser (Get (login_url settings) []) :: n2). split; [|done]. rewrite H1. by rewrite <- !app_assoc.
Qed.

Lemma email_token_asked settings email s t s2 : fetch_token_with_email_code w settings email s = (Ok t, s2) -> asked_for s t s2.
Proof.
  unfold fetch_token_with_email_code. intros (e & s1 & Hb & Hc)%M_bind_Ok. destruct (begin_email _ _ _ _ _ Hb) as (_ & _ & a & new & Ha).
  pose proof (code_attempts_spec e CODE_ATTEMPTS 1 None s1) as (codes & last & Hacts & _ & _ & _ & _ & Hok). rewrite Hc in *. cbn [fst snd] in *.
  destruct (Hok t eq_refl) as (_ & -> & code & before & r & body & Hl & _ & _ & Hj). split; [by apply html_token in Hj|].
  rewrite Ha in Hacts. rewrite app_nil_r in Hacts. destruct (rev (attempts_log e 1 codes)) as [|b l].
  - exists a, new. by rewrite Hacts.
  - exists b, (l ++ a :: new). rewrite Hacts. by rewrite <- app_assoc.
Qed.

(** A token one signs in with: the one of the settings, which is not expired, or one that was asked for. *)
Lemma sign_in_token settings s t s2 : sign_in w settings s = (Ok t, s2) ->
  looks_like_jwt t = true /\ (acts s2 = acts s -> jwt_expired t (w_now w (acts s)) = false).
Proof.
  assert (asked_for s t s2 -> looks_like_jwt t = true /\ (acts s2 = acts s -> jwt_expired t (w_now w (acts s)) = false)) as Hasked.
  { intros (Hl & a & new & Ha). split; [done|]. rewrite Ha. intros E%(f_equal length). cbn in E. rewrite length_app in E. lia. }
  unfold sign_in. destruct (token settings) as [t'|].
  - destruct (looks_like_jwt t') eqn:Hl; [|done]. destruct (jwt_expired t' _) eqn:He; [done|]. by intros [= <- <-].
  - destruct (has_service_token settings); [intros Hs; by apply Hasked, (service_token_asked settings)|].
    destruct (email settings) as [email|]; [|done]. intros Hs. by apply Hasked, (email_token_asked settings email).
Qed.

(** ** The token of the session *)

Inductive Op := Resolve (settings : TeamSettings) | Store (token : bytes) | Clear.
Definition run_op (s : State) (op : Op) : State :=
  match op with
  | Resolve settings => (resolve_token w settings s).2
  | Store token => (store_token w token s).2
  | Clear => clear_token s
  end.

Definition kept_ok (s : State) : Prop := forall t, cache s = Some t -> looks_like_jwt t = true.

Lemma resolve_spec settings s out : resolve_token w settings s = out -> kept_ok s ->
  kept_ok out.2 /\ (exists new, acts out.2 = new ++ acts s) /\
  forall t, out.1 = Ok t -> looks_like_jwt t = true /\ cache out.2 = Some t /\ (acts out.2 = acts s -> jwt_expired t (w_now w (acts s)) = false).
Proof.
  intros <- Hk. assert (forall s', acts s' = acts s -> kept_ok s' -> let out := sign_in_and_keep w settings s' in
    kept_ok out.2 /\ (exists new, acts out.2 = new ++ acts s) /\
    forall t, out.1 = Ok t -> looks_like_jwt t = true /\ cache out.2 = Some t /\ (acts out.2 = acts s -> jwt_expired t (w_now w (acts s)) = false)) as Hsign.
  { intros s' Hs' Hk'. unfold sign_in_and_keep. cbn zeta. unfold mbind, M_bind. pose proof (quiet_sign_in settings s') as (Hc & new & Ha).
    pose proof (sign_in_token settings s') as Ht. destruct (sign_in w settings s') as [[t|e|] s1]; cbn [fst snd set_cache keep] in *.
    - specialize (Ht t s1 eq_refl). rewrite Hs' in *. destruct Ht as [Ht1 Ht2].
      split; [by intros t' [= <-]|]. split; [by exists new|]. by intros t' [= <-].
    - split; [intros t; rewrite Hc; apply Hk'|]. split; [exists new; congruence|done].
    - split; [intros t; rewrite Hc; apply Hk'|]. split; [exists new; congruence|done]. }
  unfold resolve_token. destruct (cache s) as [cached|] eqn:Hc; [|by apply Hsign].
  destruct (jwt_expired cached _) eqn:He; cbn [negb]; [by apply Hsign|]. split; [done|]. split; [by exists []|]. intros t [= <-]. split_and!; [by apply Hk|done|done].
Qed.

Lemma store_spec token s : let out := store_token w token s in
  acts out.2 = acts s /\ (out.1 = Ok tt -> cache out.2 = Some (trim token) /\ looks_like_jwt (trim token) = true /\ jwt_expired (trim token) (w_now w (acts s)) = false) /\
  (out.1 <> Ok tt -> out.2 = s).
Proof. unfold store_token. cbn zeta. destruct (looks_like_jwt _) eqn:Hl; [|done]. destruct (jwt_expired _ _) eqn:He; done. Qed.

Lemma run_ops_ok ops : forall s, kept_ok s -> kept_ok (fold_left run_op ops s).
Proof.
  induction ops as [|op ops IH]; intros s Hs; [done|]. cbn [fold_left]. apply IH. destruct op as [settings|token|]; cbn [run_op].
  - by apply (resolve_spec settings s _ eq_refl).
  - pose proof (store_spec token s) as (_ & Hok & Herr). cbn zeta in *. destruct (store_token w token s).1 as [[]|e|]; [|by rewrite Herr..].
    intros t. destruct (Hok eq_refl) as (-> & ? & _). by intros [= <-].
  - done.
Qed.

End login_lemmas.

(** C36.  The token of the session.  After any sequence of logins, tokens stored and tokens
    cleared, the kept token has the form of a token.  A call that resolves the token and
    sends nothing gives a token that is not expired, and a kept token that is not expired is
    given back without signing in; whatever is given has the form of a token and is the one
    kept.  A stored token is kept only when it has the form and is not expired, and is
    otherwise refused with the kept one left alone. *)
Theorem session_token_is_sound `{JwtCrates} w ops : let s := fold_left (run_op w) ops (mkState None []) in
  (forall t, cache s = Some t -> looks_like_jwt t = true) /\
  (forall settings t, (resolve_token w settings s).1 = Ok t ->
    let s2 := (resolve_token w settings s).2 in
    looks_like_jwt t = true /\ cache s2 = Some t /\ (acts s2 = acts s -> jwt_expired t (w_now w (acts s)) = false)) /\
  (forall settings t, cached_token w s = Some t -> resolve_token w settings s = (Ok t, s)) /\
  (forall t, let out := store_token w t s in
    match out.1 with
    | Ok _ => cache out.2 = Some (trim t) /\ looks_like_jwt (trim t) = true /\ cached_token w out.2 = Some (trim t)
    | _ => out.2 = s
    end).
Proof.
  cbn zeta. assert (kept_ok (fold_left (run_op w) ops (mkState None []))) as Hk by (by apply run_ops_ok).
  set (s := fold_left _ ops _) in *. clearbody s. split_and!.
  - exact Hk.
  - intros settings t Ht. destruct (resolve_spec w settings s _ eq_refl Hk) as (_ & _ & Hr). by apply Hr.
  - intros settings t. unfold cached_token, resolve_token. destruct (cache s) as [c|]; [|done]. cbn [mbind option_bind].
    destruct (negb _); [|done]. by intros [= <-].
  - intros t. destruct (store_spec w t s) as (Ha & Hok & Herr). cbn zeta in *. destruct (store_token w t s).1 as [[]|e|] eqn:E; [|by apply Herr..].
    destruct (Hok eq_refl) as (Hc & Hl & He). split_and!; [done|done|]. unfold cached_token. rewrite Hc, Ha. cbn [mbind option_bind]. by rewrite He.
Qed.

(** C37.  An email login asks for at most three codes, numbered from one, the next only when the
    one before it was turned down; each is the line that was read when it was asked for, in time
    when it is waited for, and is sent as it was entered, trimmed and not empty, with the nonce of
    the session; the token it gives is read in the answer to the code sent last.  Nothing is
    asked before the session began, for the address as it was trimmed, and the kept token is not
    touched. *)
Theorem email_codes_are_bounded `{JwtCrates} w settings email s e s1 :
  begin_email_signin w settings email s = (Ok e, s1) ->
  let out := fetch_token_with_email_code w settings email s in
  e_email e = trim email /\ e_team e = team settings /\ cache out.2 = cache s /\
  exists codes last, acts out.2 = rev (attempts_log e 1 codes ++ last) ++ acts s1 /\
    Forall entered codes /\ codes_read w e 1 (acts s1) codes /\ (length codes <= 3)%nat /\
    (last = [] \/ last = [Asked (e_email e) (1 + length codes)] /\ (length codes < 3)%nat) /\
    (forall t, out.1 = Ok t -> codes <> [] /\ last = [] /\ answers_last_code w e t (acts out.2)).
Proof.
  intros Hb. cbn zeta. destruct (begin_email _ _ _ _ _ _ Hb) as (He & Ht & _). pose proof (quiet_email w settings email s) as [Hc _].
  split_and!; [done|done|done|]. unfold fetch_token_with_email_code, mbind at 1, M_bind at 1. 
  unfold mbind, M_bind. rewrite Hb. apply (code_attempts_spec w e CODE_ATTEMPTS 1 None s1).
Qed.

(** The login understands the pages of the team: an enrolment page whose form for a
    code posts to an address, written with the entities of markup, and an answer redirected
    to an address with a nonce among the values of its query, written with percent signs,
    begin a session for that address and that nonce; nothing else is sent. *)
Theorem email_signin_reads_pages `{JwtCrates} w settings address s before url after from cookies base kvs nonce status cookies' text' :
  let email := trim address in
  email <> [] -> w_proxy w = None -> w_client w = None ->
  let landing := Get (login_url settings) [] in
  w_send w (acts s) Browser landing = inr (mkResponse from 200 cookies (inr (enrolment_page before url after))) ->
  find_sub ANCHOR (before ++ form_open url) = None -> starts_with (lit "https://") url = true ->
  let request := Post url (email_form email) in
  w_send w (Sent Browser landing :: acts s) Browser request = inr (mkResponse (base ++ [63] ++ query kvs) status cookies' text') ->
  200 <= status <= 299 -> no_char 63 base = true -> Forall pair_ok kvs ->
  snd <$> List.find (fun kv => bool_decide (kv.1 = lit "nonce")) kvs = Some nonce ->
  begin_email_signin w settings address s =
    (Ok (mkSignIn (team settings) email nonce url), mkState (cache s) (Sent Browser request :: Sent Browser landing :: acts s)).
Proof.
  cbn zeta. intros He Hp Hc Hl Hb Hu Hr Hs H63 Hk Hn. unfold begin_email_signin. rewrite bool_decide_eq_false_2 by done.
  rewrite (bind_run _ _ s tt s) by (unfold access_client, mbind, M_bind, lift; by rewrite Hp, Hc).
  rewrite (bind_run _ _ s _ _ (send_answered w Browser _ _ _ _ Hl)). rewrite (bind_run _ _ _ (enrolment_page before url after) _ eq_refl).
  cbn [r_url]. rewrite form_action_read by done. rewrite (bind_run _ _ _ url _ eq_refl).
  rewrite (bind_run _ _ _ (Some nonce) (mkState (cache s) (Sent Browser (Post url (email_form (trim address))) :: Sent Browser (Get (login_url settings) []) :: acts s))); [done|].
  unfold request_email_code. erewrite bind_run by (eapply send_answered; exact Hr). cbn [r_status r_url].
  rewrite (proj2 (Z.leb_le 200 status)), (proj2 (Z.leb_le status 299)) by lia. cbn [andb negb].
  rewrite query_value_read by (done || by intros ->). rewrite Hn. done.
Qed.

(** The random identifiers have their length and are made of letters and digits. *)
Lemma random_alphanumeric_spec random len :
  length (random_alphanumeric random len) = len /\ forallb is_ascii_alphanumeric (random_alphanumeric random len) = true.
Proof.
  unfold random_alphanumeric. rewrite length_map, length_seq. split; [done|]. apply forallb_forall. intros x (i & <- & _)%in_map_iff.
  assert (forallb is_ascii_alphanumeric ALPHANUM = true) as Ha by done. rewrite forallb_forall in Ha. apply Ha, nth_In, Nat.mod_upper_bound. done.
Qed.

(** ** Examples *)

Section examples.

Definition plain_jwt : JwtCrates := {| url_safe_decode := Some; payload_exp := parse_u64 |}.
Local Existing Instance plain_jwt.
Local Existing Instance ascii_case.

Definition example_token (exp : bytes) : bytes := lit "eyJhbGciOiJSUzI1NiIsInR5cCI6IkpXVCJ9." ++ exp ++ lit ".c2ln".
Definition example_team : TeamSettings := mkTeam (lit "my-org") None None None (Some (lit "me@my.org")).
Definition sign_in_page : bytes := enrolment_page (lit "<html><body>") (lit "https://my-org.cloudflareaccess.com/verify?a=1&b=2") (lit "</form>").
(** A team that sends codes and takes the second one it is given. *)
Definition example_answer (l : list Act) (_ : Client) (r : Request) : bytes + Response :=
  match r with
  | Get url _ => inr (mkResponse url 200 [] (inr sign_in_page))
  | Post url form =>
      if bool_decide (form = email_form (lit "me@my.org"))
      then inr (mkResponse (url ++ [38] ++ lit "nonce=a%2Fb") 200 [] (inr []))
      else if Nat.ltb (length l) 5 then inr (mkResponse url 401 [] (inr (lit "no")))
      else inr (mkResponse url 200 [] (inr (lit "<a href=?token=" ++ example_token (lit "2000") ++ [34])))
  end.
Definition example_world : World :=
  mkWorld None None example_answer false (fun _ => Line (lit " 123456" ++ [10])) (fun _ => false) (fun l => 1000 + Z.of_nat (length l)) dec.
Definition no_token : State := mkState None [].

Lemma team_is_normal_witness : normalize_team (lit "  HTTPS://My-Org.cloudflareaccess.com/warp ") = Some (lit "my-org") /\
  normalize_team (login_url example_team) = Some (lit "my-org").
Proof.
  split; [vm_compute; reflexivity|].
  apply (team_is_normal (lit "  HTTPS://My-Org.cloudflareaccess.com/warp ") (lit "my-org")); vm_compute; reflexivity.
Defined.

(** A login by email whose token is kept, a clock past its end, and a token stored. *)
Lemma session_token_is_sound_witness :
  let s := fold_left (run_op example_world) [Store (lit "not a token"); Resolve example_team] no_token in
  resolve_token example_world example_team s = (Ok (example_token (lit "2000")), s) /\ length (acts s) = 6%nat /\
  let out := store_token example_world (example_token (lit "1001")) s in out.2 = s.
Proof.
  cbn zeta. destruct (session_token_is_sound example_world [Store (lit "not a token"); Resolve example_team]) as (_ & _ & Hc & Hs).
  split; [|split].
  - apply Hc. vm_compute. reflexivity.
  - vm_compute. reflexivity.
  - specialize (Hs (example_token (lit "1001"))). exact Hs.
Defined.

Lemma email_codes_are_bounded_witness :
  exists e s1, begin_email_signin example_world example_team (lit " me@my.org") no_token = (Ok e, s1) /\
    e_nonce e = lit "a/b" /\
    let out := fetch_token_with_email_code example_world example_team (lit " me@my.org") no_token in
    out.1 = Ok (example_token (lit "2000")) /\ answers_last_code example_world e (example_token (lit "2000")) (acts out.2).
Proof.
  eexists _, _. split; [vm_compute; reflexivity|]. split; [reflexivity|]. cbn zeta. split; [vm_compute; reflexivity|].
  destruct (email_codes_are_bounded example_world example_team (lit " me@my.org") no_token _ _ ltac:(vm_compute; reflexivity)) as (_ & _ & _ & codes & last & _ & _ & _ & _ & _ & H).
  apply H. vm_compute. reflexivity.
Defined.

Lemma email_signin_reads_pages_witness :
  begin_email_signin example_world example_team (lit "me@my.org ") no_token =
    (Ok (mkSignIn (lit "my-org") (lit "me@my.org") (lit "a/b") (lit "https://my-org.cloudflareaccess.com/verify?a=1&b=2")),
     mkState None [Sent Browser (Post (lit "https://my-org.cloudflareaccess.com/verify?a=1&b=2") (email_form (lit "me@my.org")));
                   Sent Browser (Get (login_url example_team) [])]).
Proof.
  apply (email_signin_reads_pages example_world example_team (lit "me@my.org ") no_token (lit "<html><body>")
    (lit "https://my-org.cloudflareaccess.com/verify?a=1&b=2") (lit "</form>") (login_url example_team) []
    (lit "https://my-org.cloudflareaccess.com/verify") [(lit "a", lit "1"); (lit "b", lit "2"); (lit "nonce", lit "a/b")] (lit "a/b") 200 [] (inr [])).
  - vm_compute. discriminate.
  - reflexivity.
  - reflexivity.
  - vm_compute. reflexivity.
  - vm_compute. reflexivity.
  - vm_compute. reflexivity.
  - vm_compute. reflexivity.
  - lia.
  - vm_compute. reflexivity.
  - repeat (apply Forall_cons; split; [repeat split; (vm_compute; reflexivity) || (repeat (apply Forall_cons; split; [vm_compute; split; discriminate|]); apply Forall_nil; exact I)|]).
    apply Forall_nil. exact I.
  - vm_compute. reflexivity.
Defined.

(** A sign is taken for a digit after a percent sign, and a cookie before the one looked for hides it. *)
Example percent_sign_digit : percent_decode (lit "%+5") = [5].
Proof. vm_compute. done. Qed.
Example cookie_after_another : extract_jwt_from_cookie (lit "a=b; CF_Authorization=" ++ example_token (lit "2000")) = None /\
  extract_jwt_from_cookie (lit "CF_Authorization=" ++ example_token (lit "2000") ++ lit "; Path=/") = Some (example_token (lit "2000")).
Proof. vm_compute. done. Qed.

End examples.

End ZeroTrust.
