(* ===== verification/Quic.v ===== *)
(** * The MASQUE tunnel over QUIC ([quic.rs])

    The driver of a connection ([run]) and the check of a gateway ([verify_masque]), turn by
    turn of their loops.  The connection is quiche's: what it answers in a turn (whether it is
    established, drained or closed, the events of HTTP/3, the datagrams it received, the
    packets it has to send) is the record of the turn, and what the driver does to it is a log.
    The encoding of the datagrams and the reading of capsules are [Masque]'s, the check of an
    ECH key [Tls]'s. *)

From S2P Require Import Prelude Str Ip Text Error Octets Masque Tls.
From S2P Require Import Session Dns.
Local Open Scope Z_scope.

Module Quic.
Import Error.
Import Tls(ensure_offerable, usable_retry, ech_rejected).

Inductive Control := Migrate | Close.

(** [TunnelConfig], less the signature of the obfuscation. *)
Record TunnelConfig := mkTunnel {
  peer : SocketAddr;
  sni : bytes;
  authority : bytes;
  path : bytes;
  cert_pem : bytes;
  key_pem : bytes;
  ech_config_list : option bytes;
  local_ipv4 : Z;
  quiet : bool;
  max_datagram : Z;
  version_bait : bool;
}.

Definition datagram_budget (cfg : TunnelConfig) : Z := Session.clamp (max_datagram cfg) Session.MIN_DATAGRAM_SIZE Session.MAX_DATAGRAM_SIZE.

(** In seconds. *)
Definition validation_timeout (env : bytes -> option bytes) : Z :=
  default 10 (v ← env (lit "AETHER_MASQUE_VALIDATE_SECS"); n ← parse_u64 v; if 0 <? n then Some (Z.min n 86400) else None).
Definition data_check_enabled (env : bytes -> option bytes) : bool := bool_decide (env (lit "AETHER_MASQUE_NO_DATA_CHECK") = None).
Definition DATA_PROBE_REQUIRED_SUCCESSES : Z := 2.

Definition unspecified_v4 : SocketAddr := mkSocketAddr (V4 0) 0.
Definition unspecified_v6 : SocketAddr := mkSocketAddr (V6 0) 0.
Definition bind_addr_for (peer : SocketAddr) : SocketAddr := match sa_ip peer with V4 _ => unspecified_v4 | V6 _ => unspecified_v6 end.

(** ** The bait *)

Definition QUIC_V2_VERSION : Z := 1798521807.
Definition QUIC_V2_BAIT_LEN : Z := 1200.
Definition quic_v2_bait_enabled (env : bytes -> option bytes) : bool :=
  match env (lit "AETHER_QUIC_V2") with
  | Some v => negb (bool_decide (v ∈ [lit "0"; lit "off"; lit "false"; lit "no"]))
  | None => true
  end.

Definition quic_varint2 (value : Z) : bytes := be16_bytes (Z.lor (Z.land value 16383) 16384).

(** The identifiers and the packet number are random: eight, eight and four bytes. *)
Definition build_version_bait (dcid scid pn : bytes) : bytes :=
  let pkt := [195] ++ be32_bytes QUIC_V2_VERSION ++ [blen dcid] ++ dcid ++ [blen scid] ++ scid ++ [0] in
  let remaining := QUIC_V2_BAIT_LEN - blen pkt - 2 in
  resize (Z.to_nat QUIC_V2_BAIT_LEN) 0 (pkt ++ quic_varint2 remaining ++ pn).

(** ** Names and requests *)

Definition default_authority : bytes := lit "cloudflareaccess.com".
Definition default_path : bytes := lit "/".
Definition default_sni : bytes := lit "www.cloudflare.com".

Definition masque_sni_of (value : bytes) : res AetherError bytes :=
  let value := trim value in
  if bool_decide (value = []) then Ok default_sni
  else
    let name := default value (strip_suffix [46] value) in
    if ends_with [46] name || bool_decide (is_Some (parse_ip name)) || negb (Dns.valid_domain name)
    then Err (Error.Tls (lit "--masque-sni: " ++ value ++ lit " is no domain name"))
    else Ok name.
Definition masque_sni (env : bytes -> option bytes) : res AetherError bytes := masque_sni_of (default [] (env (lit "AETHER_MASQUE_SNI"))).

(** [connect_ip_request] of [masque.rs]. *)
Definition connect_ip_request (authority path : bytes) : list (bytes * bytes) :=
  [(lit ":method", lit "CONNECT"); (lit ":protocol", lit "cf-connect-ip"); (lit ":scheme", lit "https"); (lit ":authority", authority);
   (lit ":path", path); (lit "user-agent", []); (lit "capsule-protocol", lit "?1")].

(** ** What the connection does in a turn *)

(** An event of HTTP/3: headers, the pieces of a body as they are read, the end or the reset
    of a stream, another one, and a failure of the poll. *)
Inductive Poll :=
| Headers (stream : Z) (list : list (bytes * bytes))
| Data (stream : Z) (pieces : list bytes)
| Finished (stream : Z)
| Reset (stream code : Z)
| OtherEvent
| PollFailed (text : bytes).

(** A datagram that was received, with what the channel to the stack says to its packet; or
    an error other than [Done]. *)
Inductive Received := Datagram (data : bytes) (answer : Masque.SendError) | ReceiveFailed.

(** The packets the connection has to send, each with the error of its socket if it has one,
    and the error it ends with if that is not [Done]. *)
Record Flush := mkFlush { packets : list (SocketAddr * SocketAddr * bytes * option bytes); flush_error : option bytes }.

(** How a connection is made: quiche's error, what the fingerprint says, the error of setting
    the key, as the number BoringSSL gives. *)
Record Connecting := mkConnecting { c_quiche : option bytes; c_prepare : res AetherError unit; c_set_ech : option bytes }.

(** A migration: the spare identifiers, the new socket and its detour, and quiche's errors. *)
Record Migration := mkMigration {
  spare_dcids : Z;
  m_bind : res AetherError unit;
  m_detour : res AetherError unit;
  m_local : bytes + SocketAddr;
  m_probe : option bytes;
  m_migrate : option bytes;
}.

(** The branch of the select that runs. *)
Inductive Branch :=
| Keepalive
| ProbeTick
| Arrived (local from : SocketAddr) (data : bytes)
| Command (c : option Control) (m : Migration)
| Outbound (pkt : option bytes)
| TimedOut.

Record Turn := mkTurn {
  t_now : Z;
  t_up_before : bool;
  t_branch : Branch;
  t_established : bool;
  t_ech_accepted : bool;
  (** HTTP/3 over the connection, and the request, which gets a stream. *)
  t_h3 : bytes + (bytes + Z);
  t_now_up : Z;
  t_polls : list Poll;
  t_received : list Received;
  t_flush : Flush;
  t_draining : bool;
  t_closed : bool;
  t_local_error : option (bool * Z);
  t_retry_configs : bytes;
  t_connecting : Connecting;
  t_flush_again : Flush;
}.

(** ** What the driver does *)

Inductive Act :=
| Bound
| Baited (tries : nat)
| Obfuscated
| Connected (key : option bytes)
| Up (accepted : bool)
| Requested (headers : list (bytes * bytes))
| Probed (framed : bytes)
| Sent (framed : bytes)
| Fed (data : bytes)
| Pinged
| Closing (reason : bytes)
| Assigned (ip : IpAddr) (prefix : Z)
| Handed (pkt : bytes) (answer : Masque.SendError)
| Ready
| Wired (via to : SocketAddr) (data : bytes)
| Probed_path (local : SocketAddr)
| Adopted (retry : bytes).

Record Run := mkRun {
  sockets : list SocketAddr;
  up : bool;
  req_stream : option Z;
  capsules : Masque.CapsuleParser;
  established_ever : bool;
  ech_retried : bool;
  current_ech : option bytes;
  ready_tx : bool;
  ready_fired : bool;
  validate_deadline : option Z;
  validate_successes : Z;
  ctrl_open : bool;
  outbound_open : bool;
  acts : list Act;
}.

Definition St (S A : Type) : Type := S -> res AetherError A * S.
#[export] Instance St_ret {S} : MRet (St S) := fun A a s => (Ok a, s).
#[export] Instance St_bind {S} : MBind (St S) := fun A B f m s =>
  match m s with
  | (Ok a, s) => f a s
  | (Err e, s) => (Err e, s)
  | (Panic, s) => (Panic, s)
  end.
Definition lift {S A} (r : res AetherError A) : St S A := fun s => (r, s).
Definition fails {S A} (e : AetherError) : St S A := lift (Err e).
Definition modify {S} (f : S -> S) : St S unit := fun s => (Ok tt, f s).
Definition get {S} : St S S := fun s => (Ok s, s).
Abbreviation M := (St Run).

Definition set_acts (l : list Act) (s : Run) : Run :=
  mkRun (sockets s) (up s) (req_stream s) (capsules s) (established_ever s) (ech_retried s) (current_ech s) (ready_tx s) (ready_fired s)
    (validate_deadline s) (validate_successes s) (ctrl_open s) (outbound_open s) l.
Definition did (l : list Act) : M unit := modify (fun s => set_acts (rev l ++ acts s) s).
Definition set_capsules (p : Masque.CapsuleParser) (s : Run) : Run :=
  mkRun (sockets s) (up s) (req_stream s) p (established_ever s) (ech_retried s) (current_ech s) (ready_tx s) (ready_fired s)
    (validate_deadline s) (validate_successes s) (ctrl_open s) (outbound_open s) (acts s).
Definition set_open (ctrl outbound : bool) (s : Run) : Run :=
  mkRun (sockets s) (up s) (req_stream s) (capsules s) (established_ever s) (ech_retried s) (current_ech s) (ready_tx s) (ready_fired s)
    (validate_deadline s) (validate_successes s) ctrl outbound (acts s).
Definition add_socket (local : SocketAddr) (s : Run) : Run :=
  mkRun (if bool_decide (local ∈ sockets s) then sockets s else sockets s ++ [local]) (up s) (req_stream s) (capsules s) (established_ever s)
    (ech_retried s) (current_ech s) (ready_tx s) (ready_fired s) (validate_deadline s) (validate_successes s) (ctrl_open s) (outbound_open s) (acts s).
Definition set_validation (fired : bool) (deadline : option Z) (successes : Z) (s : Run) : Run :=
  mkRun (sockets s) (up s) (req_stream s) (capsules s) (established_ever s) (ech_retried s) (current_ech s) (ready_tx s && negb fired) (ready_fired s || fired)
    deadline successes (ctrl_open s) (outbound_open s) (acts s).
(** A connection that has come up, with the stream of its request. *)
Definition come_up (stream : Z) (s : Run) : Run :=
  mkRun (sockets s) true (Some stream) (capsules s) true (ech_retried s) (current_ech s) (ready_tx s) (ready_fired s)
    (validate_deadline s) (validate_successes s) (ctrl_open s) (outbound_open s) (acts s).
(** The key the server handed back, and the connection made again with it. *)
Definition offer (retry : bytes) (s : Run) : Run :=
  mkRun (sockets s) (up s) (req_stream s) (capsules s) (established_ever s) true (Some retry) (ready_tx s) (ready_fired s)
    (validate_deadline s) (validate_successes s) (ctrl_open s) (outbound_open s) (acts s).
Definition start_again (s : Run) : Run :=
  mkRun (sockets s) false None Masque.CapsuleParser_new (established_ever s) (ech_retried s) (current_ech s) (ready_tx s) (ready_fired s)
    (validate_deadline s) (validate_successes s) (ctrl_open s) (outbound_open s) (acts s).

(** ** The steps of a turn *)

(** [connect]: quiche's connection, with what the fingerprint says and the key. *)
Definition connection (ech : option bytes) (c : Connecting) : res AetherError unit :=
  match c_quiche c with
  | Some e => Err (Quic e)
  | None =>
      _ ← c_prepare c;
      match ech with
      | Some list =>
          _ ← ensure_offerable list;
          match c_set_ech c with
          | Some rc => Err (Ech (lit "SSL_set1_ech_config_list failed (rc=" ++ rc ++ lit ")"))
          | None => Ok tt
          end
      | None => Ok tt
      end
  end.

Section driver.
Variable cfg : TunnelConfig.
Variable env : bytes -> option bytes.
(** Whether somebody waits for the addresses, [relay_target] of [upstream.rs], the socket a hash
    map gives first, and the packet of the probe. *)
Variable addr_tx : bool.
Variable relay : SocketAddr -> SocketAddr -> SocketAddr.
Variable first_socket : list SocketAddr -> option SocketAddr.
Variable probe_packet : bytes.

Definition connect (ech : option bytes) (c : Connecting) : M unit := _ ← lift (connection ech c); did [Connected ech].

(** [flush]: the socket of a packet is the one it comes from, if it is known. *)
Fixpoint flush_packets (l : list (SocketAddr * SocketAddr * bytes * option bytes)) : M unit :=
  match l with
  | [] => mret tt
  | (from, to, data, failure) :: l =>
      s ← get;
      let socket := if bool_decide (from ∈ sockets s) then Some from else first_socket (sockets s) in
      _ ← match socket with
          | Some via => _ ← did [Wired via (relay via to) data]; match failure with Some e => fails (Io e) | None => mret tt end
          | None => mret tt
          end;
      flush_packets l
  end.
Definition flush (f : Flush) : M unit :=
  _ ← flush_packets (packets f); match flush_error f with Some e => fails (Quic e) | None => mret tt end.

(** The capsules: the addresses they assign are handed on. *)
Definition assigned (addrs : list Masque.AssignedAddress) : list Act :=
  omap (fun a => (fun ip => Assigned ip (Masque.prefix_len a)) <$> Masque.bytes_to_ip (Masque.aa_ip_version a) (Masque.address a))
    (if addr_tx then addrs else []).
Definition drain_step (s : Masque.CapsuleParser * list Act) : Masque.CapsuleParser * list Act + res AetherError (Masque.CapsuleParser * list Act) :=
  let '(p, out) := s in
  let '(p, r) := Masque.next p in
  match r with
  | Ok (Some (Masque.CAddressAssign addrs)) => inl (p, out ++ assigned addrs)
  | Ok (Some _) => inl (p, out)
  | Ok None => inr (Ok (p, out))
  | Err _ => inr (Ok (p, out))
  | Panic => inr Panic
  end.
Definition drain_capsules (p : Masque.CapsuleParser) : res AetherError (Masque.CapsuleParser * list Act) :=
  default Panic (loop (S (length p)) drain_step (p, [])).

Definition drain : M unit :=
  s ← get;
  r ← lift (drain_capsules (capsules s));
  _ ← modify (set_capsules r.1);
  did r.2.

Fixpoint until_empty (pieces : list bytes) : list bytes :=
  match pieces with
  | [] => []
  | [] :: _ => []
  | piece :: pieces => piece :: until_empty pieces
  end.

Fixpoint check_status (stream req : Z) (l : list (bytes * bytes)) : res AetherError unit :=
  match l with
  | [] => Ok tt
  | (name, value) :: l =>
      if bool_decide (name = lit ":status") then
        let status := from_utf8_lossy value in
        if (stream =? req) && negb (starts_with [50] status)
        then Err (Error.Masque (lit "the edge refused connect-ip with status " ++ status))
        else check_status stream req l
      else check_status stream req l
  end.

Fixpoint poll_h3 (req : Z) (polls : list Poll) : M unit :=
  match polls with
  | [] => mret tt
  | Headers stream l :: polls => _ ← lift (check_status stream req l); poll_h3 req polls
  | Data stream pieces :: polls =>
      if stream =? req then
        _ ← modify (fun s => set_capsules (fold_left Masque.push (until_empty pieces) (capsules s)) s);
        _ ← drain;
        poll_h3 req polls
      else poll_h3 req polls
  | Finished stream :: polls =>
      if stream =? req then fails (Error.Masque (lit "the edge closed the connect-ip stream")) else poll_h3 req polls
  | Reset stream code :: polls =>
      if stream =? req
      then fails (Error.Masque (lit "the edge reset the connect-ip stream (code 0x" ++ hex_digits 16 code ++ lit ")"))
      else poll_h3 req polls
  | OtherEvent :: polls => poll_h3 req polls
  | PollFailed e :: _ => fails (H3 e)
  end.

(** [drain_datagrams]: whether a packet came, and what was handed to the stack. *)
Fixpoint drain_datagrams (req : Z) (l : list Received) : res AetherError (bool * list Act) :=
  match l with
  | [] => Ok (false, [])
  | ReceiveFailed :: _ => Ok (false, [])
  | Datagram data answer :: l =>
      match Masque.decode_ip_datagram data req with
      | Ok (Some pkt) =>
          match answer with
          | Masque.Closed => Ok (true, [Handed pkt answer])
          | _ => r ← drain_datagrams req l; Ok (true, Handed pkt answer :: r.2)
          end
      | Ok None | Err _ => drain_datagrams req l
      | Panic => Panic
      end
  end.

(** A packet in a datagram of the request; one that cannot be framed is dropped. *)
Definition send_packet (act : bytes -> Act) (pkt : bytes) : M unit :=
  s ← get;
  match req_stream s with
  | Some sid =>
      match Masque.encode_ip_datagram sid pkt with
      | Ok framed => did [act framed]
      | Err _ => mret tt
      | Panic => lift Panic
      end
  | None => mret tt
  end.

Definition do_migrate (m : Migration) : M unit :=
  if spare_dcids m =? 0 then fails (Other (lit "no spare dcids for migration"))
  else
    _ ← lift (m_bind m); _ ← did [Bound];
    _ ← lift (m_detour m);
    match m_local m with
    | inl e => fails (Io e)
    | inr local =>
        _ ← modify (add_socket local);
        match m_probe m with
        | Some e => fails (Quic e)
        | None => _ ← did [Probed_path local]; match m_migrate m with Some e => fails (Quic e) | None => mret tt end
        end
    end.
(** An error that is only logged. *)
Definition ignored (m : M unit) : M unit := fun s => match m s with (Err _, s) => (Ok tt, s) | r => r end.

(** The branch that was taken; one whose guard is off is not. *)
Definition select (t : Turn) : M unit :=
  s ← get;
  match t_branch t with
  | Keepalive => if t_up_before t then did [Pinged] else mret tt
  | ProbeTick => if data_check_enabled env && negb (ready_fired s) then send_packet Probed probe_packet else mret tt
  | Arrived _ _ data => did [Fed data]
  | Command c m =>
      if ctrl_open s then
        match c with
        | Some Migrate => ignored (do_migrate m)
        | Some Close | None => _ ← modify (set_open false (outbound_open s)); did [Closing (lit "bye")]
        end
      else mret tt
  | Outbound pkt =>
      if outbound_open s then
        match pkt with
        | Some ip_packet => send_packet Sent ip_packet
        | None => _ ← modify (set_open (ctrl_open s) false); did [Closing (lit "eof")]
        end
      else mret tt
  | TimedOut => mret tt
  end.

Definition fire : M unit :=
  s ← get;
  _ ← (if ready_tx s then did [Ready] else mret tt);
  modify (set_validation true None (validate_successes s)).

Definition check_deadline (t : Turn) : M unit :=
  s ← get;
  if data_check_enabled env && negb (ready_fired s) then
    match validate_deadline s with
    | Some deadline =>
        if deadline <=? t_now t then
          _ ← did [Closing (lit "validation-timeout")];
          fails (Error.Masque (lit "data-plane validation timeout (handshake ok, no traffic)"))
        else mret tt
    | None => mret tt
    end
  else mret tt.

(** A handshake that is over: the key must have been taken; then the request goes out. *)
Definition establish (t : Turn) : M unit :=
  s ← get;
  if t_established t && negb (up s) then
    if bool_decide (is_Some (current_ech s)) && negb (t_ech_accepted t) then fails (Ech (lit "the handshake went without ECH"))
    else
      _ ← did [Up (t_ech_accepted t)];
      match t_h3 t with
      | inl e => fails (H3 e)
      | inr (inl e) => fails (H3 e)
      | inr (inr sid) =>
          _ ← did [Requested (connect_ip_request (authority cfg) (path cfg))];
          _ ← modify (come_up sid);
          if data_check_enabled env
          then modify (set_validation false (Some (t_now_up t + validation_timeout env)) (validate_successes s))
          else if negb (ready_fired s) then fire else mret tt
      end
  else mret tt.

Definition validate (got : bool) : M unit :=
  s ← get;
  if got && negb (ready_fired s) then
    let successes := validate_successes s + 1 in
    _ ← modify (set_validation false (validate_deadline s) successes);
    if DATA_PROBE_REQUIRED_SUCCESSES <=? successes then fire else mret tt
  else mret tt.

(** What came: the events of HTTP/3 and the datagrams. *)
Definition poll_events (t : Turn) : M unit :=
  s ← get;
  if up s then match req_stream s with Some sid => poll_h3 sid (t_polls t) | None => mret tt end else mret tt.
Definition got_data (t : Turn) : M bool :=
  s ← get;
  match req_stream s with
  | Some sid => r ← lift (drain_datagrams sid (t_received t)); _ ← did r.2; mret r.1
  | None => mret false
  end.
Definition receive (t : Turn) : M unit := _ ← poll_events t; got ← got_data t; validate got.

(** [extract_ech_retry_configs] *)
Definition retry_configs (t : Turn) : option bytes :=
  if bool_decide (t_retry_configs t = []) then None else usable_retry (t_retry_configs t).

(** Whether the handshake is made again. *)
Definition reconnect (t : Turn) : M bool :=
  s ← get;
  if (t_draining t || t_closed t) && negb (established_ever s) && negb (ech_retried s) && bool_decide (is_Some (current_ech s))
     && ech_rejected (t_local_error t)
  then
    match retry_configs t with
    | Some retry =>
        _ ← did [Adopted retry];
        _ ← modify (offer retry);
        _ ← connect (Some retry) (t_connecting t);
        _ ← modify start_again;
        _ ← flush (t_flush_again t);
        mret true
    | None => mret false
    end
  else mret false.

(** A turn of the loop: whether it was the last. *)
Definition turn (t : Turn) : M bool :=
  _ ← check_deadline t;
  _ ← select t;
  _ ← establish t;
  _ ← receive t;
  _ ← flush (t_flush t);
  again ← reconnect t;
  mret (if again : bool then false else t_closed t).

(** The turns until one is the last: what the run returns, if it has. *)
Fixpoint run_turns (turns : list Turn) (s : Run) : option (res AetherError unit) * Run :=
  match turns with
  | [] => (None, s)
  | t :: turns =>
      match turn t s with
      | (Ok false, s) => run_turns turns s
      | (Ok true, s) => (Some (Ok tt), s)
      | (Err e, s) => (Some (Err e), s)
      | (Panic, s) => (Some Panic, s)
      end
  end.

(** ** The start *)

Record Setup := mkSetup {
  s_bind : res AetherError unit;
  s_detour : res AetherError unit;
  s_local : bytes + SocketAddr;
  s_config : res AetherError unit;
  s_connecting : Connecting;
  s_h3_config : option bytes;
  s_flush : Flush;
}.

Definition start (ready : bool) : Run :=
  mkRun [] false None Masque.CapsuleParser_new false false (ech_config_list cfg) ready false None 0 true true [].

Definition setup (u : Setup) : M unit :=
  _ ← lift (s_bind u); _ ← did [Bound];
  _ ← lift (s_detour u);
  match s_local u with
  | inl e => fails (Io e)
  | inr local =>
      _ ← (if version_bait cfg && quic_v2_bait_enabled env then did [Baited 2] else mret tt);
      _ ← modify (add_socket local);
      _ ← lift (s_config u);
      s ← get;
      _ ← connect (current_ech s) (s_connecting u);
      match s_h3_config u with
      | Some e => fails (H3 e)
      | None => _ ← did [Obfuscated]; flush (s_flush u)
      end
  end.

Definition run (ready : bool) (u : Setup) (turns : list Turn) : option (res AetherError unit) * Run :=
  match setup u (start ready) with
  | (Ok _, s) => run_turns turns s
  | (Err e, s) => (Some (Err e), s)
  | (Panic, s) => (Some Panic, s)
  end.

End driver.

(** ** The check of a gateway *)

Record VerifyParams := mkVerify {
  v_peer : SocketAddr;
  v_sni : bytes;
  v_authority : bytes;
  v_path : bytes;
  v_ech : option bytes;
  (** In milliseconds, like the clock of the turns. *)
  v_timeout : Z;
}.

Inductive Wake := Heard (data : bytes) | HearFailed (text : bytes) | Slept.

(** A turn of the loop of [verify_masque]: the clock at its places, and what the connection
    does. *)
Record VTurn := mkVTurn {
  vt_now : Z;
  vt_wake : Wake;
  vt_established : bool;
  vt_ech_accepted : bool;
  vt_h3 : bytes + (bytes + Z);
  vt_polls : list Poll;
  vt_now_status : Z;
  vt_now_probe : Z;
  (** The datagrams received, up to the error that ends them. *)
  vt_received : list bytes;
  vt_now_data : Z;
  vt_elapsed : Z;
  vt_packets : list (bytes * option bytes);
  vt_flush_error : option bytes;
  vt_draining : bool;
  vt_closed : bool;
  vt_local_error : option (bool * Z);
  vt_retry_configs : bytes;
  vt_connecting : Connecting;
  vt_packets_again : list (bytes * option bytes);
  vt_flush_error_again : option bytes;
}.

Record VRun := mkVRun {
  vr_up : bool;
  vr_stream : option Z;
  vr_retried : bool;
  vr_ok : bool;
  vr_last_probe : Z;
  vr_successes : Z;
  vr_acts : list Act;
}.

Abbreviation V := (St VRun).
Definition v_did (l : list Act) : V unit := modify (fun s => mkVRun (vr_up s) (vr_stream s) (vr_retried s) (vr_ok s) (vr_last_probe s) (vr_successes s) (rev l ++ vr_acts s)).
Definition v_come_up (sid : Z) : V unit := modify (fun s => mkVRun true (Some sid) (vr_retried s) (vr_ok s) (vr_last_probe s) (vr_successes s) (vr_acts s)).
Definition v_retry : V unit := modify (fun s => mkVRun false None true (vr_ok s) (vr_last_probe s) (vr_successes s) (vr_acts s)).
Definition v_probed_at (now : Z) : V unit := modify (fun s => mkVRun (vr_up s) (vr_stream s) (vr_retried s) (vr_ok s) now (vr_successes s) (vr_acts s)).
Definition v_is_ok : V unit := modify (fun s => mkVRun (vr_up s) (vr_stream s) (vr_retried s) true (vr_last_probe s) (vr_successes s) (vr_acts s)).
Definition v_success : V unit := modify (fun s => mkVRun (vr_up s) (vr_stream s) (vr_retried s) (vr_ok s) (vr_last_probe s) (vr_successes s + 1) (vr_acts s)).

Definition PROBE_EVERY : Z := 700.

Section verify.
Variable p : VerifyParams.
Variable env : bytes -> option bytes.
Variable local : SocketAddr.
Variable relay : SocketAddr -> SocketAddr -> SocketAddr.
Variable probe_packet : bytes.

Definition v_connect (ech : option bytes) (c : Connecting) : V unit := _ ← lift (connection ech c); v_did [Connected ech].

(** [flush_connected] *)
Fixpoint flush_connected (l : list (bytes * option bytes)) (error : option bytes) : V unit :=
  match l with
  | [] => match error with Some e => fails (Quic e) | None => mret tt end
  | (data, failure) :: l =>
      _ ← v_did [Wired local (relay local (v_peer p)) data];
      match failure with Some e => fails (Io e) | None => flush_connected l error end
  end.

Definition v_probe (sid : Z) : V unit :=
  match Masque.encode_ip_datagram sid probe_packet with
  | Ok framed => v_did [Probed framed]
  | Err _ => mret tt
  | Panic => lift Panic
  end.

Definition v_establish (t : VTurn) : V unit :=
  s ← get;
  if vt_established t && negb (vr_up s) then
    if bool_decide (is_Some (v_ech p)) && negb (vt_ech_accepted t) then fails (Ech (lit "the handshake went without ECH"))
    else
      _ ← v_did [Up (vt_ech_accepted t)];
      match vt_h3 t with
      | inl e => fails (H3 e)
      | inr (inl e) => fails (H3 e)
      | inr (inr sid) => _ ← v_did [Requested (connect_ip_request (v_authority p) (v_path p))]; v_come_up sid
      end
  else mret tt.

(** Whether the check is over with the status of the headers. *)
Fixpoint v_statuses (t : VTurn) (sid : Z) (l : list (bytes * bytes)) : V bool :=
  match l with
  | [] => mret false
  | (name, value) :: l =>
      if bool_decide (name = lit ":status") then
        if bool_decide (value = lit "200") then
          if negb (data_check_enabled env) then mret true
          else
            _ ← v_is_ok; _ ← v_probe sid; _ ← v_probed_at (vt_now_status t);
            v_statuses t sid l
        else fails (Other (lit "status " ++ from_utf8_lossy value))
      else v_statuses t sid l
  end.

Fixpoint v_poll (t : VTurn) (sid : Z) (polls : list Poll) : V bool :=
  match polls with
  | [] => mret false
  | Headers stream l :: polls =>
      if stream =? sid then over ← v_statuses t sid l; if over : bool then mret true else v_poll t sid polls
      else v_poll t sid polls
  | PollFailed e :: _ => fails (H3 e)
  | _ :: polls => v_poll t sid polls
  end.

(** Whether enough datagrams came. *)
Fixpoint v_datagrams (t : VTurn) (sid : Z) (l : list bytes) : V bool :=
  match l with
  | [] => mret false
  | data :: l =>
      match Masque.decode_ip_datagram data sid with
      | Ok (Some _) =>
          _ ← v_success;
          s ← get;
          if DATA_PROBE_REQUIRED_SUCCESSES <=? vr_successes s then mret true
          else _ ← v_probe sid; _ ← v_probed_at (vt_now_data t); v_datagrams t sid l
      | Ok None | Err _ => v_datagrams t sid l
      | Panic => lift Panic
      end
  end.

Definition v_confirm (t : VTurn) : V bool :=
  s ← get;
  if vr_ok s then
    match vr_stream s with
    | Some sid =>
        _ ← (if PROBE_EVERY <=? vt_now_probe t - vr_last_probe s then _ ← v_probe sid; v_probed_at (vt_now_probe t) else mret tt);
        v_datagrams t sid (vt_received t)
    | None => mret false
    end
  else mret false.

Definition v_retry_configs (t : VTurn) : option bytes :=
  if bool_decide (vt_retry_configs t = []) then None else usable_retry (vt_retry_configs t).

Definition v_reconnect (t : VTurn) : V bool :=
  s ← get;
  if (vt_draining t || vt_closed t) && negb (vr_retried s) && ech_rejected (vt_local_error t) then
    match v_retry_configs t with
    | Some retry =>
        _ ← v_did [Adopted retry];
        _ ← v_connect (Some retry) (vt_connecting t);
        _ ← v_retry;
        _ ← flush_connected (vt_packets_again t) (vt_flush_error_again t);
        mret true
    | None => mret false
    end
  else mret false.

(** A turn: the time the check took, if it is over. *)
Definition v_turn (start : Z) (t : VTurn) : V (option Z) :=
  if start + v_timeout p <=? vt_now t then fails (Other (lit "verify timeout"))
  else
    _ ← match vt_wake t with
        | Heard data => v_did [Fed data]
        | HearFailed e => fails (Io e)
        | Slept => mret tt
        end;
    _ ← v_establish t;
    s ← get;
    over ← (if vr_up s then match vr_stream s with Some sid => v_poll t sid (vt_polls t) | None => mret false end else mret false);
    if over : bool then mret (Some (vt_elapsed t))
    else
      over ← v_confirm t;
      if over : bool then mret (Some (vt_elapsed t))
      else
        _ ← flush_connected (vt_packets t) (vt_flush_error t);
        again ← v_reconnect t;
        if again : bool then mret None
        else if vt_closed t then fails (Other (lit "closed before data-plane confirmation"))
        else mret None.

Fixpoint v_turns (start : Z) (turns : list VTurn) (s : VRun) : option (res AetherError Z) * VRun :=
  match turns with
  | [] => (None, s)
  | t :: turns =>
      match v_turn start t s with
      | (Ok None, s) => v_turns start turns s
      | (Ok (Some elapsed), s) => (Some (Ok elapsed), s)
      | (Err e, s) => (Some (Err e), s)
      | (Panic, s) => (Some Panic, s)
      end
  end.

(** The start: the socket, its detour and its peer, the TLS configuration, the connection,
    HTTP/3; the bait with one try, the obfuscation, the first packets. *)
Record VSetup := mkVSetup {
  vs_socket : res AetherError unit;
  vs_config : res AetherError unit;
  vs_connecting : Connecting;
  vs_h3_config : option bytes;
  vs_packets : list (bytes * option bytes);
  vs_flush_error : option bytes;
}.

Definition v_start (now : Z) : VRun := mkVRun false None false false now 0 [].
Definition v_setup (u : VSetup) : V unit :=
  _ ← lift (vs_socket u); _ ← v_did [Bound];
  _ ← lift (vs_config u);
  _ ← v_connect (v_ech p) (vs_connecting u);
  match vs_h3_config u with
  | Some e => fails (H3 e)
  | None =>
      _ ← (if quic_v2_bait_enabled env then v_did [Baited 1] else mret tt);
      _ ← v_did [Obfuscated];
      flush_connected (vs_packets u) (vs_flush_error u)
  end.

Definition verify_masque (start : Z) (u : VSetup) (turns : list VTurn) : option (res AetherError Z) * VRun :=
  match v_setup u (v_start start) with
  | (Ok _, s) => v_turns start turns s
  | (Err e, s) => (Some (Err e), s)
  | (Panic, s) => (Some Panic, s)
  end.

End verify.

(** ** Steps and what they keep *)

(** From [P], a step that gives a value ends in [Q], any other way out in [E]. *)
Definition triple {S A} (P Q E : S -> Prop) (m : St S A) : Prop :=
  forall s, P s -> match m s with (Ok _, s') => Q s' | (_, s') => E s' end.

Section triples.
Context {S : Type}.
Implicit Types P Q R E : S -> Prop.

Lemma st_ret {A} P E (a : A) : triple P P E (mret a).
Proof. by intros s Hs. Qed.
Lemma st_lift {A} P E (r : res AetherError A) : (forall s, P s -> E s) -> triple P P E (lift r).
Proof. intros H s Hs. unfold lift. destruct r; auto. Qed.
Lemma st_fails {A} P Q E e : (forall s, P s -> E s) -> triple P Q E (@fails S A e).
Proof. intros H s Hs. apply H, Hs. Qed.
Lemma st_bind {A B} P Q R E (m : St S A) (f : A -> St S B) :
  triple P Q E m -> (forall a, triple Q R E (f a)) -> triple P R E (m ≫= f).
Proof.
  intros Hm Hf s Hs. specialize (Hm s Hs). unfold mbind, St_bind. destruct (m s) as [[a|e|] s']; [|done..]. by apply Hf.
Qed.
Lemma st_get {B} P Q E (f : S -> St S B) : (forall s, P s -> triple P Q E (f s)) -> triple P Q E (get ≫= f).
Proof. intros H s Hs. exact (H s Hs s Hs). Qed.
(** The state that was read is the one that goes on. *)
Lemma st_read {B} P Q E (f : S -> St S B) : (forall s, P s -> triple (fun s' => s' = s) Q E (f s)) -> triple P Q E (get ≫= f).
Proof. intros H s Hs. exact (H s Hs s eq_refl). Qed.
Lemma st_modify P Q E f : (forall s, P s -> Q (f s)) -> triple P Q E (modify f).
Proof. intros H s Hs. by apply H. Qed.
Lemma st_weaken {A} P P' Q E (m : St S A) : (forall s, P' s -> P s) -> triple P Q E m -> triple P' Q E m.
Proof. intros H Hm s Hs. by apply Hm, H. Qed.
Lemma st_post {A} P Q Q' E (m : St S A) : (forall s, Q s -> Q' s) -> triple P Q E m -> triple P Q' E m.
Proof. intros H Hm s Hs. specialize (Hm s Hs). destruct (m s) as [[a|e|] s']; auto. Qed.
End triples.

(** ** The key of a connection *)

(** What the last connection of a log offered, and whether it is up with that key taken. *)
Fixpoint key_of (l : list Act) : option (option bytes) :=
  match l with [] => None | Connected key :: _ => Some key | _ :: l => key_of l end.
Fixpoint over_key (l : list Act) : bool :=
  match l with
  | [] => false
  | Up accepted :: l => match key_of l with Some None => true | Some (Some _) => accepted | None => false end
  | Connected _ :: _ => false
  | _ :: l => over_key l
  end.

(** What goes over the connection: the request, the probes and the packets. *)
Definition carried (a : Act) : bool := match a with Requested _ | Probed _ | Sent _ => true | _ => false end.
Definition sent_over_key (l : list Act) : Prop := forall later a earlier, l = later ++ a :: earlier -> carried a = true -> over_key earlier = true.

(** An act that says nothing of the connection and carries nothing. *)
Definition quiet_act (a : Act) : bool := match a with Up _ | Connected _ | Requested _ | Probed _ | Sent _ => false | _ => true end.

Lemma sent_cons a l : sent_over_key l -> (carried a = true -> over_key l = true) -> sent_over_key (a :: l).
Proof.
  intros Hl Ha later b earlier E Hb. destruct later as [|c later]; injection E as -> E; [subst; by apply Ha|]. by apply (Hl later b).
Qed.

Lemma quiet_acts new l : forallb quiet_act new = true ->
  key_of (new ++ l) = key_of l /\ over_key (new ++ l) = over_key l /\ (sent_over_key l -> sent_over_key (new ++ l)).
Proof.
  induction new as [|a new IH]; [done|]. intros [Ha Hn]%andb_prop. destruct (IH Hn) as (Hk & Ho & Hs).
  split; [destruct a; try done; exact Hk|]. split; [destruct a; try done; exact Ho|]. intros Hl. cbn. apply sent_cons; [by apply Hs|]. by destruct a.
Qed.

Lemma forallb_rev {A} (p : A -> bool) l : forallb p (rev l) = forallb p l.
Proof. induction l as [|a l IH]; [done|]. cbn [rev]. rewrite forallb_app, IH. cbn. rewrite andb_true_r. apply andb_comm. Qed.

(** The keys that were offered, the last first: that of the settings, and at most one more,
    that was handed back instead of it. *)
Definition keys (l : list Act) : list (option bytes) := omap (fun a => match a with Connected key => Some key | _ => None end) l.
Definition keys_offered (key0 : option bytes) (handed : bytes -> Prop) (l : list Act) : Prop :=
  keys l = [] \/ keys l = [key0] \/ exists retry, keys l = [Some retry; key0] /\ is_Some key0 /\ handed retry.

Lemma keys_quiet new l : forallb quiet_act new = true -> keys (new ++ l) = keys l.
Proof. induction new as [|a new IH]; [done|]. intros [Ha Hn]%andb_prop. destruct a; try done; by apply IH. Qed.

(** ** The driver *)

(** Between the steps: what was sent went over a handshake with its key, and so does what is
    sent on the stream of the request. *)
Definition sent_by (key0 : option bytes) (handed : bytes -> Prop) (s : Run) : Prop := sent_over_key (acts s) /\ keys_offered key0 handed (acts s).
Definition offering (key0 : option bytes) (handed : bytes -> Prop) (s : Run) : Prop :=
  if ech_retried s then keys_offered key0 handed (acts s) else keys (acts s) = [key0] /\ current_ech s = key0.
Definition keyed_by (key0 : option bytes) (handed : bytes -> Prop) (s : Run) : Prop :=
  sent_over_key (acts s) /\ (is_Some (req_stream s) -> over_key (acts s) = true) /\ key_of (acts s) = Some (current_ech s) /\
  (up s = true -> established_ever s = true) /\ offering key0 handed s.

Section driver_lemmas.
Variable key0 : option bytes.
Variable handed : bytes -> Prop.
Local Abbreviation keyed := (keyed_by key0 handed).
Local Abbreviation sent_ok := (sent_by key0 handed).

Lemma offering_keys s : offering key0 handed s -> keys_offered key0 handed (acts s).
Proof. unfold offering. destruct (ech_retried s); [done|]. intros [H _]. by right; left. Qed.

Lemma keyed_sent s : keyed s -> sent_ok s.
Proof. intros (H & _ & _ & _ & Ho). split; [done|]. by apply offering_keys. Qed.

Lemma keyed_did l : forallb quiet_act l = true -> triple keyed keyed sent_ok (did l).
Proof.
  intros Hl. apply st_modify. intros s (Hs & Hr & Hk & Hu & Ho). destruct (quiet_acts (rev l) (acts s)) as (H1 & H2 & H3); [by rewrite forallb_rev|].
  assert (keys (rev l ++ acts s) = keys (acts s)) as H4 by (by apply keys_quiet; rewrite forallb_rev).
  unfold keyed_by, offering, keys_offered in *. cbn [set_acts acts req_stream current_ech up established_ever ech_retried]. rewrite H1, H2, H4. auto.
Qed.

(** A change of the fields the invariant does not read. *)
Definition same_link (s s' : Run) : Prop :=
  acts s' = acts s /\ req_stream s' = req_stream s /\ current_ech s' = current_ech s /\ up s' = up s /\ established_ever s' = established_ever s /\
  ech_retried s' = ech_retried s.
Lemma keyed_modify f : (forall s, same_link s (f s)) -> triple keyed keyed sent_ok (modify f).
Proof.
  intros Hf. apply st_modify. intros s (Hs & Hr & Hk & Hu & Ho). destruct (Hf s) as (H1 & H2 & H3 & H4 & H5 & H6).
  unfold keyed_by, offering in *. by rewrite H1, H2, H3, H4, H5, H6.
Qed.

Lemma keyed_lift {A} (r : res AetherError A) : triple keyed keyed sent_ok (lift r).
Proof. apply st_lift, keyed_sent. Qed.
Lemma keyed_fails {A} e : triple keyed keyed sent_ok (@fails Run A e).
Proof. apply st_fails, keyed_sent. Qed.
Lemma keyed_ret {A} (a : A) : triple keyed keyed sent_ok (mret a).
Proof. apply st_ret. Qed.
Lemma keyed_bind {A B} (m : M A) (f : A -> M B) :
  triple keyed keyed sent_ok m -> (forall a, triple keyed keyed sent_ok (f a)) -> triple keyed keyed sent_ok (m ≫= f).
Proof. apply st_bind. Qed.
Lemma keyed_get {B} (f : Run -> M B) : (forall s, triple keyed keyed sent_ok (f s)) -> triple keyed keyed sent_ok (get ≫= f).
Proof. intros H. by apply st_get. Qed.

End driver_lemmas.

Create HintDb quicdb.
#[export] Hint Resolve keyed_lift keyed_fails keyed_ret : quicdb.
#[export] Hint Extern 1 (triple (keyed_by _ _) (keyed_by _ _) (sent_by _ _) (did _)) => apply keyed_did; reflexivity : quicdb.
#[export] Hint Extern 1 (triple (keyed_by _ _) (keyed_by _ _) (sent_by _ _) (modify _)) => apply keyed_modify; intros ?; repeat split; reflexivity : quicdb.

(** Goes through the steps of a program that keep the link. *)
Ltac keep_link :=
  repeat match goal with
  | |- triple _ _ _ (mbind _ get) => apply keyed_get; intros ?
  | |- triple _ _ _ (mbind _ _) => apply keyed_bind; [|intros ?]
  | |- triple _ _ _ (match ?x with _ => _ end) => destruct x
  | |- triple _ _ _ (let _ := _ in _) => cbv zeta
  | _ => progress auto 3 with quicdb nocore
  end.

Section driver_safety.
Variable cfg : TunnelConfig.
Variable env : bytes -> option bytes.
Variable addr_tx : bool.
Variable relay : SocketAddr -> SocketAddr -> SocketAddr.
Variable first_socket : list SocketAddr -> option SocketAddr.
Variable probe_packet : bytes.
Variable key0 : option bytes.
Variable handed : bytes -> Prop.
Local Abbreviation keyed := (keyed_by key0 handed).
Local Abbreviation sent_ok := (sent_by key0 handed).

Lemma keyed_flush f : triple keyed keyed sent_ok (flush relay first_socket f).
Proof.
  unfold flush. apply keyed_bind; [|intros; keep_link]. induction (packets f) as [|[[[from to] data] failure] l IH]; [apply keyed_ret|].
  cbn [flush_packets]. keep_link.
Qed.

(** What a step of the capsules, or the datagrams, logs. *)
Lemma drain_capsules_quiet p r : drain_capsules addr_tx p = Ok r -> forallb quiet_act r.2 = true.
Proof.
  unfold drain_capsules. generalize (S (length p)) as fuel. intros fuel.
  assert (forall q out, forallb quiet_act out = true -> default Panic (loop fuel (drain_step addr_tx) (q, out)) = Ok r -> forallb quiet_act r.2 = true) as H.
  { induction fuel as [|fuel IH]; intros q out Ho; [done|]. cbn [loop drain_step]. destruct (Masque.next q) as [q' [[c|]|e|]]; cbn [default from_option]; try done.
    - destruct c; try (by apply IH). apply IH. rewrite forallb_app, Ho. cbn. unfold assigned. apply forallb_forall. intros a Ha.
      apply list_elem_of_In in Ha. apply list_elem_of_omap in Ha as (x & _ & Hx). destruct (Masque.bytes_to_ip _ _); [|done]. by injection Hx as <-.
    - by intros [= <-].
    - by intros [= <-]. }
  by apply H.
Qed.

Lemma drain_datagrams_quiet req l r : drain_datagrams req l = Ok r -> forallb quiet_act r.2 = true.
Proof.
  revert r. induction l as [|[data answer|] l IH]; intros r; cbn [drain_datagrams]; [by intros [= <-]| |by intros [= <-]].
  destruct (Masque.decode_ip_datagram data req) as [[pkt|]|e|]; [|by apply IH..|done].
  destruct answer; [..|by intros [= <-]]; (destruct (drain_datagrams req l) as [r'|e|]; [|done..]; cbn; intros [= <-]; cbn; by apply (IH r')).
Qed.

Lemma keyed_lift_did {A B} (r : res AetherError A) (l : A -> list Act) (k : A -> M B) :
  (forall a, r = Ok a -> forallb quiet_act (l a) = true) -> (forall a, triple keyed keyed sent_ok (k a)) ->
  triple keyed keyed sent_ok (a ← lift r; _ ← did (l a); k a).
Proof.
  intros Hl Hk s Hs. unfold mbind at 1, St_bind at 1, lift. destruct r as [a|e|]; [|by apply keyed_sent..].
  apply (keyed_bind key0 handed (did (l a)) (fun _ => k a)); [by apply keyed_did, Hl|auto|done].
Qed.

Lemma keyed_drain : triple keyed keyed sent_ok (drain addr_tx).
Proof.
  unfold drain. apply keyed_get. intros s0 s Hs. unfold mbind at 1, St_bind at 1, lift.
  destruct (drain_capsules addr_tx (capsules s0)) as [r|e|] eqn:Hr; [|by apply keyed_sent..].
  refine (keyed_bind key0 handed (modify (set_capsules r.1)) (fun _ => did r.2) _ _ s Hs); [keep_link|]. intros _. apply keyed_did. by apply drain_capsules_quiet in Hr.
Qed.

Lemma keyed_poll req polls : triple keyed keyed sent_ok (poll_h3 addr_tx req polls).
Proof.
  induction polls as [|p polls IH]; [apply keyed_ret|]. destruct p; cbn [poll_h3]; keep_link. apply keyed_drain.
Qed.

Lemma keyed_send act pkt : (forall framed, carried (act framed) = true) -> 
  (forall framed l, key_of (act framed :: l) = key_of l /\ over_key (act framed :: l) = over_key l /\ keys (act framed :: l) = keys l) ->
  triple keyed keyed sent_ok (send_packet act pkt).
Proof.
  intros Hc Hl. unfold send_packet. intros s Hs. unfold mbind, St_bind, get. destruct (req_stream s) as [sid|] eqn:Hr; [|done].
  destruct (Masque.encode_ip_datagram sid pkt) as [framed|e|]; [|done|by apply keyed_sent].
  destruct Hs as (H1 & H2 & H3 & H4 & H5). unfold did, modify. cbn [rev app]. rewrite Hr in H2. specialize (H2 (ex_intro _ sid eq_refl)).
  unfold keyed_by, offering, keys_offered in *. cbn [set_acts acts req_stream current_ech up established_ever ech_retried].
  destruct (Hl framed (acts s)) as (-> & -> & ->). split; [|done]. by apply sent_cons.
Qed.

Lemma keyed_select t : triple keyed keyed sent_ok (select env probe_packet t).
Proof.
  unfold select. apply keyed_get. intros s0. destruct (t_branch t).
  - keep_link.
  - destruct (_ && _); [|keep_link]. by apply keyed_send.
  - keep_link.
  - destruct (ctrl_open s0); [|keep_link]. destruct c as [[]|]; [|keep_link..].
    assert (triple keyed keyed sent_ok (do_migrate m)) as Hm by (unfold do_migrate; keep_link).
    assert (triple keyed keyed keyed (do_migrate m)) as Hm'.
    { unfold do_migrate. destruct (spare_dcids m =? 0); [by apply st_fails|].
      apply (st_bind keyed keyed keyed); [by apply st_lift|]. intros _.
      apply (st_bind keyed keyed keyed); [intros s Hs; exact (keyed_did key0 handed [Bound] eq_refl s Hs)|]. intros _.
      apply (st_bind keyed keyed keyed); [by apply st_lift|]. intros _. destruct (m_local m); [by apply st_fails|].
      apply (st_bind keyed keyed keyed); [intros st Hs; by apply (keyed_modify key0 handed (add_socket s))|]. intros _. destruct (m_probe m); [by apply st_fails|].
      apply (st_bind keyed keyed keyed); [intros st Hs; exact (keyed_did key0 handed [Probed_path s] eq_refl st Hs)|]. intros _.
      destruct (m_migrate m); [by apply st_fails|]. apply st_ret. }
    intros s Hs. specialize (Hm s Hs). specialize (Hm' s Hs). unfold ignored. destruct (do_migrate m s) as [[a|e|] s']; done.
  - destruct (outbound_open s0); [|keep_link]. destruct pkt; [|keep_link]. by apply keyed_send.
  - keep_link.
Qed.

Lemma keyed_fire : triple keyed keyed sent_ok fire.
Proof. unfold fire. keep_link. Qed.

(** The request goes out over a handshake that took its key. *)
Lemma keyed_establish t : triple keyed keyed sent_ok (establish cfg env t).
Proof.
  unfold establish. apply st_read. intros s Hs. destruct (t_established t && negb (up s)) eqn:Hup; [|intros s' ->; exact Hs].
  destruct (bool_decide (is_Some (current_ech s)) && negb (t_ech_accepted t)) eqn:Hk; [intros s' ->; by apply keyed_sent|].
  destruct Hs as (H1 & H2 & H3 & H4 & H5).
  assert (over_key (Up (t_ech_accepted t) :: acts s) = true) as Hover.
  { cbn [over_key]. rewrite H3. destruct (current_ech s); [|done]. rewrite bool_decide_eq_true_2 in Hk by done. by destruct (t_ech_accepted t). }
  assert (sent_ok (set_acts (Up (t_ech_accepted t) :: acts s) s)) as Hup1 by (split; [by apply sent_cons|by apply offering_keys in H5]).
  destruct (t_h3 t) as [e|[e|sid]]; [intros s' ->; exact Hup1..|].
  set (s1 := come_up sid (set_acts (Requested (connect_ip_request (authority cfg) (path cfg)) :: Up (t_ech_accepted t) :: acts s) s)).
  assert (keyed s1) as Hs1.
  { unfold keyed_by, s1. cbn [set_acts come_up acts req_stream current_ech up established_ever]. split; [|done]. apply sent_cons; [apply Hup1|done]. }
  intros s' ->. change (match (if data_check_enabled env then modify (set_validation false (Some (t_now_up t + validation_timeout env)) (validate_successes s)) else if negb (ready_fired s) then fire else mret tt) s1 with
    | (Ok _, s') => keyed s' | (_, s') => sent_ok s' end).
  revert Hs1. generalize s1. change (triple keyed keyed sent_ok (if data_check_enabled env then modify (set_validation false (Some (t_now_up t + validation_timeout env)) (validate_successes s)) else if negb (ready_fired s) then fire else mret tt)).
  keep_link; apply keyed_fire.
Qed.

Lemma keyed_validate got : triple keyed keyed sent_ok (validate got).
Proof. unfold validate. keep_link; apply keyed_fire. Qed.

Lemma keyed_receive t : triple keyed keyed sent_ok (receive addr_tx t).
Proof.
  unfold receive. apply keyed_bind; [|intros _; apply keyed_bind; [|intros got; apply keyed_validate]].
  - unfold poll_events. keep_link. apply keyed_poll.
  - unfold got_data. apply keyed_get. intros s1. destruct (req_stream s1) as [sid|]; [|keep_link].
    apply keyed_lift_did; [intros r Hr; by apply drain_datagrams_quiet in Hr|intros; keep_link].
Qed.

(** A server turned the key down at the end of a turn and handed a key back. *)
Definition hands_back (t : Turn) (retry : bytes) : Prop :=
  (t_draining t = true \/ t_closed t = true) /\ ech_rejected (t_local_error t) = true /\ t_retry_configs t = retry /\ usable_retry retry = Some retry.

Lemma retry_configs_of t retry : retry_configs t = Some retry -> t_retry_configs t = retry /\ usable_retry retry = Some retry.
Proof.
  unfold retry_configs. case_bool_decide; [done|]. intros Hr. pose proof Hr as Hr'. unfold usable_retry in Hr.
  destruct (Tls.check_ech_config_list _); [|done..]. injection Hr as <-. done.
Qed.

(** A connection made again has not come up. *)
Lemma keyed_reconnect t : (forall retry, hands_back t retry -> handed retry) -> triple keyed keyed sent_ok (reconnect relay first_socket t).
Proof.
  intros Hhand. unfold reconnect. apply st_read. intros s Hs. destruct (_ && ech_rejected _) eqn:Hc; [|intros s' ->; exact Hs].
  destruct (retry_configs t) as [retry|] eqn:Hr; [|intros s' ->; exact Hs].
  set (s1 := offer retry (set_acts (Adopted retry :: acts s) s)). set (s2 := start_again (set_acts (Connected (Some retry) :: acts s1) s1)).
  rewrite !andb_true_iff in Hc. destruct Hc as ((((Hend & _) & Hret) & Hkey) & Hrej). apply orb_true_iff in Hend. apply negb_true_iff in Hret. apply bool_decide_eq_true in Hkey.
  pose proof Hs as (H1 & _ & _ & _ & H5). unfold offering in H5. rewrite Hret in H5. destruct H5 as [H5 Hcur]. rewrite Hcur in Hkey.
  destruct (retry_configs_of _ _ Hr) as [Hr1 Hr2]. assert (handed retry) as Huse by (by apply Hhand).
  assert (sent_ok s1) as Hs1 by (split; [by apply sent_cons|by right; left]).
  assert (keyed s2) as Hs2.
  { unfold keyed_by, s2, s1. cbn. split; [apply sent_cons; [apply Hs1|done]|]. split; [by intros [? [=]]|]. split; [done|]. split; [done|].
    right; right. exists retry. cbn. by rewrite <- H5. }
  intros s' ->. unfold connect. destruct (connection (Some retry) (t_connecting t)) as [u|e|] eqn:Hconn.
  - assert (triple keyed keyed sent_ok (_ ← flush relay first_socket (t_flush_again t); mret true)) as Hf
      by (apply keyed_bind; [apply keyed_flush|intros; apply keyed_ret]). exact (Hf s2 Hs2).
  - exact Hs1.
  - exact Hs1.
Qed.

Lemma keyed_deadline t : triple keyed keyed sent_ok (check_deadline env t).
Proof. unfold check_deadline. keep_link. Qed.

Lemma keyed_turn t : (forall retry, hands_back t retry -> handed retry) -> triple keyed keyed sent_ok (turn cfg env addr_tx relay first_socket probe_packet t).
Proof.
  intros Hhand. unfold turn. apply keyed_bind; [apply keyed_deadline|intros _]. apply keyed_bind; [apply keyed_select|intros _].
  apply keyed_bind; [apply keyed_establish|intros _]. apply keyed_bind; [apply keyed_receive|intros _].
  apply keyed_bind; [apply keyed_flush|intros _]. apply keyed_bind; [by apply keyed_reconnect|intros again]. apply keyed_ret.
Qed.

Lemma keyed_turns turns : (forall t retry, t ∈ turns -> hands_back t retry -> handed retry) -> forall s, keyed s -> let out := run_turns cfg env addr_tx relay first_socket probe_packet turns s in
  sent_ok out.2 /\ (out.1 = None -> keyed out.2).
Proof.
  induction turns as [|t turns IH]; intros Hhand s Hs; [split; [by apply keyed_sent|done]|]. cbn [run_turns].
  assert (forall t' retry, t' ∈ turns -> hands_back t' retry -> handed retry) as Hlater by (intros t' r Ht'; apply Hhand, elem_of_cons; by right).
  pose proof (keyed_turn t (fun r => Hhand t r ltac:(apply elem_of_cons; by left)) s Hs) as Ht.
  destruct (turn _ _ _ _ _ _ t s) as [[[]|e|] s']; [by split; [apply keyed_sent|]|by apply IH|done..].
Qed.

(** The start: one connection, with the key of the settings. *)
Lemma keyed_setup u ready : key0 = ech_config_list cfg -> let out := setup cfg env relay first_socket u (start cfg ready) in
  sent_ok out.2 /\ (out.1 = Ok tt -> keyed out.2).
Proof.
  intros Hkey0. cbn zeta. assert (forall l, forallb quiet_act l = true -> sent_over_key l /\ keys l = []) as Hq.
  { intros l Hl. rewrite <- (app_nil_r l). split; [|by apply keys_quiet]. apply (quiet_acts l []); [done|]. intros later a earlier E. by destruct later. }
  assert (triple (fun s => forallb quiet_act (acts s) = true /\ req_stream s = None /\ up s = false /\ ech_retried s = false /\ current_ech s = key0) keyed sent_ok (setup cfg env relay first_socket u)) as H.
  { unfold setup. set (P := fun s => _).
    assert (forall s, P s -> sent_ok s) as HP by (intros s [H _]; split; [by apply Hq|left; by apply Hq]).
    assert (forall l, forallb quiet_act l = true -> triple P P sent_ok (did l)) as Hdid.
    { intros l Hl. apply st_modify. intros s (H1 & H2 & H3). unfold P. cbn. rewrite forallb_app, forallb_rev, Hl. auto. }
    apply (st_bind _ P); [by apply st_lift|intros _]. apply (st_bind _ P); [by apply Hdid|intros _].
    apply (st_bind _ P); [by apply st_lift|intros _]. destruct (s_local u) as [e|local]; [by apply st_fails|].
    apply (st_bind _ P); [destruct (_ && _); [by apply Hdid|apply st_ret]|intros _].
    apply (st_bind _ P); [by apply st_modify|intros _]. apply (st_bind _ P); [by apply st_lift|intros _].
    apply st_read. intros s Hs. apply (st_bind _ keyed).
    - unfold connect. intros s' ->. destruct (connection _ _); [|by apply HP..]. destruct Hs as (H1 & H2 & H3 & H4 & H5). destruct (Hq _ H1) as [Hq1 Hq2].
      change (keyed (set_acts (Connected (current_ech s) :: acts s) s)). unfold keyed_by, offering. cbn. rewrite H2, H3, H4.
      split; [by apply sent_cons|]. split; [by intros [? [=]]|]. split; [done|]. split; [done|]. rewrite H5. split; [|done]. f_equal. exact Hq2.
    - intros _. destruct (s_h3_config u); [apply keyed_fails|]. apply keyed_bind; [by apply keyed_did|intros _; apply keyed_flush]. }
  specialize (H (start cfg ready) ltac:(by rewrite Hkey0)). destruct (setup _ _ _ _ u _) as [[[]|e|] s]; [split; [by apply keyed_sent|done]|done..].
Qed.

End driver_safety.

(** ** Validation *)

(** The fields that only the coming up of a connection, its validation and its making again
    change; and how often the tunnel was said to be ready. *)
Definition same_core (s s' : Run) : Prop :=
  up s' = up s /\ req_stream s' = req_stream s /\ ready_tx s' = ready_tx s /\ ready_fired s' = ready_fired s /\
  validate_deadline s' = validate_deadline s /\ validate_successes s' = validate_successes s.
Definition calm (a : Act) : bool := match a with Ready => false | _ => true end.
Definition n_ready (l : list Act) : nat := length (filter (fun a => calm a = false) l).

Definition framed {A} (m : M A) : Prop := forall s, same_core s (m s).2 /\ n_ready (acts (m s).2) = n_ready (acts s).

Lemma same_core_refl s : same_core s s.
Proof. repeat split. Qed.
Lemma same_core_trans s1 s2 s3 : same_core s1 s2 -> same_core s2 s3 -> same_core s1 s3.
Proof. unfold same_core. intuition congruence. Qed.

Lemma framed_ret {A} (a : A) : framed (mret a).
Proof. done. Qed.
Lemma framed_lift {A} (r : res AetherError A) : framed (lift r).
Proof. done. Qed.
Lemma framed_bind {A B} (m : M A) (f : A -> M B) : framed m -> (forall a, framed (f a)) -> framed (m ≫= f).
Proof.
  intros Hm Hf s. specialize (Hm s). unfold mbind, St_bind. destruct (m s) as [[a|e|] s1]; [|done..]. cbn [snd] in Hm. destruct Hm as [H1 H2], (Hf a s1) as [H3 H4].
  split; [by apply (same_core_trans _ s1)|congruence].
Qed.
Lemma framed_get {B} (f : Run -> M B) : (forall s, framed (f s)) -> framed (get ≫= f).
Proof. intros H s. apply H. Qed.
Lemma framed_did l : forallb calm l = true -> framed (did l).
Proof.
  intros Hl s. split; [done|]. cbn. unfold n_ready. rewrite filter_app, length_app. enough (filter (fun a => calm a = false) (rev l) = []) as -> by done.
  rewrite <- forallb_rev in Hl. induction (rev l) as [|a k IH]; [done|]. apply andb_prop in Hl as [Ha Hk]. rewrite filter_cons_False by (by rewrite Ha). by apply IH.
Qed.
Lemma framed_modify f : (forall s, same_core s (f s) /\ acts (f s) = acts s) -> framed (modify f).
Proof. intros Hf s. destruct (Hf s) as [H1 H2]. split; [done|]. cbn. by rewrite H2. Qed.

Ltac keep_frame :=
  repeat match goal with
  | |- framed (mbind _ get) => apply framed_get; intros ?
  | |- framed (mbind _ _) => apply framed_bind; [|intros ?]
  | |- framed (match ?x with _ => _ end) => destruct x
  | |- framed (let _ := _ in _) => cbv zeta
  | |- framed (did _) => apply framed_did; reflexivity
  | |- framed (modify _) => apply framed_modify; intros ?; repeat split; reflexivity
  | |- framed (mret _) => apply framed_ret
  | |- framed (lift _) => apply framed_lift
  | |- framed (fails _) => apply framed_lift
  end.

Section validation.
Variable cfg : TunnelConfig.
Variable env : bytes -> option bytes.
Variable addr_tx : bool.
Variable relay : SocketAddr -> SocketAddr -> SocketAddr.
Variable first_socket : list SocketAddr -> option SocketAddr.
Variable probe_packet : bytes.

Lemma framed_flush f : framed (flush relay first_socket f).
Proof. unfold flush. apply framed_bind; [|intros; keep_frame]. induction (packets f) as [|[[[from to] data] failure] l IH]; [done|]. cbn [flush_packets]. keep_frame. exact IH. Qed.

Lemma framed_lift_did {A} (r : res AetherError A) (l : A -> list Act) :
  (forall a, r = Ok a -> forallb calm (l a) = true) -> framed (a ← lift r; did (l a)).
Proof. intros Hl s. unfold mbind, St_bind, lift. destruct r as [a|e|]; [by apply framed_did, Hl|done..]. Qed.

Lemma drain_capsules_calm p r : drain_capsules addr_tx p = Ok r -> forallb calm r.2 = true.
Proof.
  unfold drain_capsules. generalize (S (length p)) as fuel. intros fuel.
  assert (forall q out, forallb calm out = true -> default Panic (loop fuel (drain_step addr_tx) (q, out)) = Ok r -> forallb calm r.2 = true) as H.
  { induction fuel as [|fuel IH]; intros q out Ho; [done|]. cbn [loop drain_step]. destruct (Masque.next q) as [q' [[c|]|e|]]; cbn [default from_option]; try done.
    - destruct c; try (by apply IH). apply IH. rewrite forallb_app, Ho. cbn. unfold assigned. apply forallb_forall. intros a Ha.
      apply list_elem_of_In in Ha. apply list_elem_of_omap in Ha as (x & _ & Hx). destruct (Masque.bytes_to_ip _ _); [|done]. by injection Hx as <-.
    - by intros [= <-].
    - by intros [= <-]. }
  by apply H.
Qed.

Lemma framed_drain : framed (drain addr_tx).
Proof.
  unfold drain. apply framed_get. intros s0 s. unfold mbind at 1 2, St_bind at 1 2, lift.
  destruct (drain_capsules addr_tx (capsules s0)) as [r|e|] eqn:Hr; [|done..].
  refine (framed_bind (modify (set_capsules r.1)) (fun _ => did r.2) _ _ s); [keep_frame|]. intros _. apply framed_did. by apply drain_capsules_calm in Hr.
Qed.

Lemma framed_poll req polls : framed (poll_h3 addr_tx req polls).
Proof. induction polls as [|p polls IH]; [done|]. destruct p; cbn [poll_h3]; keep_frame; by try apply framed_drain. Qed.

Lemma framed_send act pkt : (forall framed, calm (act framed) = true) -> framed (send_packet act pkt).
Proof. intros Hc. unfold send_packet. keep_frame. apply framed_did. cbn. by rewrite Hc. Qed.

Lemma framed_ignored (m : M unit) : framed m -> framed (ignored m).
Proof. intros Hm s. specialize (Hm s). unfold ignored. by destruct (m s) as [[a|e|] s']. Qed.

Lemma framed_select t : framed (select env probe_packet t).
Proof.
  unfold select. apply framed_get. intros s. destruct (t_branch t); keep_frame; try by apply framed_send.
  apply framed_ignored. unfold do_migrate. keep_frame.
Qed.

Lemma framed_deadline t : framed (check_deadline env t).
Proof. unfold check_deadline. keep_frame. Qed.

(** A turn that brought a packet of a stream. *)
Definition brought (sid : Z) (t : Turn) : Prop := exists data answer pkt,
  Datagram data answer ∈ t_received t /\ Masque.decode_ip_datagram data sid = Ok (Some pkt).

Lemma drain_datagrams_brought req l r : drain_datagrams req l = Ok r ->
  forallb calm r.2 = true /\ (r.1 = true -> exists data answer pkt, Datagram data answer ∈ l /\ Masque.decode_ip_datagram data req = Ok (Some pkt)).
Proof.
  revert r. induction l as [|[data answer|] l IH]; intros r; cbn [drain_datagrams]; [by intros [= <-]| |by intros [= <-]].
  assert (forall r', drain_datagrams req l = Ok r' -> forallb calm r'.2 = true /\ (r'.1 = true -> exists data' answer' pkt, Datagram data' answer' ∈ Datagram data answer :: l /\ Masque.decode_ip_datagram data' req = Ok (Some pkt))) as Hgo.
  { intros r' Hr'. destruct (IH r' Hr') as [H1 H2]. split; [done|]. intros H. destruct (H2 H) as (d & a & pkt & Hd & He). exists d, a, pkt. split; [by right|done]. }
  destruct (Masque.decode_ip_datagram data req) as [[pkt|]|e|] eqn:Hd; [|by apply Hgo..|done].
  assert (exists data' answer' pkt', Datagram data' answer' ∈ Datagram data answer :: l /\ Masque.decode_ip_datagram data' req = Ok (Some pkt')) as Hhere.
  { exists data, answer, pkt. split; [by left|done]. }
  destruct answer; [..|by intros [= <-]]; (destruct (drain_datagrams req l) as [r'|e|]; [|done..]; cbn; intros [= <-]; cbn; split; [by apply (IH r')|done]).
Qed.

(** The streams of requests. *)
Variable W : Z -> Prop.
Definition brings (t : Turn) : Prop := exists sid, W sid /\ brought sid t.

(** The deadlines that are known are those of the turns where a connection came up. *)
Definition settled (D : Z -> Prop) (n : Z) (s : Run) : Prop :=
  (n_ready (acts s) + (if ready_tx s then 1 else 0) <= 1)%nat /\ (n_ready (acts s) = 0%nat \/ ready_fired s = true) /\
  (data_check_enabled env = true -> up s = true -> ready_fired s = false -> exists dl, validate_deadline s = Some dl /\ D dl) /\
  (data_check_enabled env = true -> ready_fired s = true -> 2 <= n) /\ validate_successes s = n /\ (forall sid, req_stream s = Some sid -> W sid).

Lemma framed_settled {A} D n (m : M A) s : framed m -> settled D n s -> settled D n (m s).2.
Proof.
  intros Hm. destruct (Hm s) as [(H1 & H2 & H3 & H4 & H5 & H6) H7]. unfold settled. by rewrite H1, H2, H3, H4, H5, H6, H7.
Qed.

Lemma fire_settled D n s : (data_check_enabled env = true -> 2 <= n) -> settled D n s -> settled D n (fire s).2.
Proof.
  intros Hn (H1 & H2 & H3 & H4 & H5 & H6). unfold settled, fire, mbind, St_bind, get. destruct (ready_tx s) eqn:Hr; cbn -[n_ready]; rewrite ?Hr, ?orb_true_r; cbn -[n_ready].
  - change (n_ready (Ready :: acts s)) with (S (n_ready (acts s))). split; [lia|]. split; [by right|]. split; [by intros|]. by split; [auto|].
  - split; [lia|]. split; [by right|]. split; [by intros|]. by split; [auto|].
Qed.

Lemma establish_settled D n t s : D (t_now_up t + validation_timeout env) -> (forall sid, t_h3 t = inr (inr sid) -> W sid) -> settled D n s -> settled D n (establish cfg env t s).2.
Proof.
  intros HD HW Hs. unfold establish, mbind at 1, St_bind at 1, get. destruct (_ && _); [|done]. destruct (_ && _); [done|].
  unfold mbind at 1, St_bind at 1. cbn [did modify]. set (s1 := set_acts _ s).
  assert (settled D n s1) as Hs1 by (apply (framed_settled D n (did [Fed []]) s); [by apply framed_did|done]).
  destruct (t_h3 t) as [e|[e|sid]]; [done..|]. unfold mbind, St_bind. cbn [did modify]. set (s2 := come_up sid _).
  destruct Hs1 as (H1 & H2 & H3 & H4 & H5 & _). specialize (HW sid eq_refl). assert (forall sid', Some sid = Some sid' -> W sid') as HW' by (by intros sid' [= <-]).
  destruct (data_check_enabled env) eqn:Hdc.
  - unfold settled, modify. subst s1 s2. cbn in *. rewrite orb_false_r, andb_true_r. rewrite Hdc. split; [done|]. split; [done|]. split; [by eauto|]. split; [|done].
    intros _ Hf. by apply H4.
  - assert (settled D n s2) as Hs2 by (unfold settled; rewrite Hdc; subst s1 s2; cbn in *; done).
    destruct (negb (ready_fired s)); [|exact Hs2]. apply fire_settled; [congruence|done].
Qed.

Lemma validate_settled D n got s : settled D n s ->
  settled D n (validate got s).2 \/ got = true /\ settled D (n + 1) (validate got s).2.
Proof.
  intros Hs. unfold validate, mbind at 1, St_bind at 1, get. destruct got; cbn [andb]; [|by left]. destruct (ready_fired s) eqn:Hf; cbn [negb]; [by left|].
  right. split; [done|]. rewrite ?Hf. destruct Hs as (H1 & H2 & H3 & H4 & H5 & H6). unfold mbind, St_bind. cbn [modify]. set (s1 := set_validation false (validate_deadline s) (validate_successes s + 1) s).
  assert (settled D (n + 1) s1) as Hs1.
  { unfold settled, s1. cbn -[n_ready]. rewrite andb_true_r, Hf. cbn -[n_ready]. rewrite H5. split; [done|]. split; [destruct H2; [by left|congruence]|]. split; [by intros; apply H3|]. done. }
  destruct (Z.leb_spec DATA_PROBE_REQUIRED_SUCCESSES (validate_successes s + 1)) as [Hl|]; rewrite ?Hf; [|exact Hs1].
  apply fire_settled; [|done]. unfold DATA_PROBE_REQUIRED_SUCCESSES in Hl. lia.
Qed.

Definition moved (D : Z -> Prop) (n : Z) (t : Turn) (s : Run) : Prop := settled D n s \/ brings t /\ settled D (n + 1) s.

Lemma framed_moved {A} D n t (m : M A) s : framed m -> moved D n t s -> moved D n t (m s).2.
Proof. intros Hm [Hs|[Hb Hs]]; [left|right; split; [done|]]; by apply framed_settled. Qed.

(** A step, then the rest; the rest is not run when the step fails. *)
Lemma bind_keeps {A B} (P Q R : Run -> Prop) (m : M A) (f : A -> M B) s :
  Q (m s).2 -> (forall s, Q s -> R s) -> (forall a s, Q s -> R (f a s).2) -> R ((m ≫= f) s).2.
Proof. intros Hm HQ Hf. unfold mbind, St_bind. destruct (m s) as [[a|e|] s']; [by apply Hf|by apply HQ..]. Qed.

Lemma framed_poll_events t : framed (poll_events addr_tx t).
Proof. unfold poll_events. keep_frame. apply framed_poll. Qed.

Lemma got_data_brought D n t s got s1 : settled D n s -> got_data t s = (Ok got, s1) -> settled D n s1 /\ (got = true -> brings t).
Proof.
  intros Hs. unfold got_data, mbind at 1, St_bind at 1, get. destruct (req_stream s) as [sid|] eqn:Hsid; [|by intros [= <- <-]].
  unfold mbind at 1, St_bind at 1, lift. destruct (drain_datagrams sid (t_received t)) as [r|e|] eqn:Hd; [|done..].
  destruct (drain_datagrams_brought _ _ _ Hd) as [Hc Hb]. unfold mbind, St_bind. cbn [did modify]. intros [= <- <-].
  split; [exact (framed_settled D n (did r.2) s (framed_did _ Hc) Hs)|]. intros Hg. exists sid. split; [by apply Hs|exact (Hb Hg)].
Qed.

Lemma got_data_failed t s r s1 : got_data t s = (r, s1) -> (forall got, r <> Ok got) -> s1 = s.
Proof.
  unfold got_data, mbind at 1, St_bind at 1, get. destruct (req_stream s) as [sid|]; [|intros [= <- <-] H; by destruct (H false)].
  unfold mbind at 1, St_bind at 1, lift. destruct (drain_datagrams sid (t_received t)) as [x|e|]; [|by intros [= <- <-]..].
  unfold mbind, St_bind. cbn [did modify]. intros [= <- <-] H. by destruct (H x.1).
Qed.

Lemma receive_moved D n t s : settled D n s -> moved D n t (receive addr_tx t s).2.
Proof.
  intros Hs. unfold receive. apply (bind_keeps (settled D n) (settled D n)); [by apply framed_settled; [apply framed_poll_events|]|by left|].
  intros _ s1 Hs1. unfold mbind, St_bind. destruct (got_data t s1) as [r s2] eqn:Hg. destruct r as [got|e|].
  - destruct (got_data_brought D n t s1 got s2 Hs1 Hg) as [Hs2 Hb]. destruct (validate_settled D n got s2 Hs2) as [H|[-> H]]; [by left|right; auto].
  - apply got_data_failed in Hg as ->; [by left|done].
  - apply got_data_failed in Hg as ->; [by left|done].
Qed.

Lemma reconnect_moved D n t s : moved D n t s -> moved D n t (reconnect relay first_socket t s).2.
Proof.
  assert (forall k, settled D k s -> settled D k (reconnect relay first_socket t s).2) as H.
  { intros k Hs. unfold reconnect, mbind at 1, St_bind at 1, get. destruct (_ && ech_rejected _); [|done]. destruct (retry_configs t) as [retry|]; [|done].
    unfold mbind at 1 2, St_bind at 1 2. cbn [did modify]. unfold connect. set (s1 := offer retry _).
    assert (settled D k s1) as Hs1 by (apply (framed_settled D k (did [Fed []]) s); [by apply framed_did|done]).
    unfold mbind at 1, St_bind at 1. unfold mbind at 1, St_bind at 1, lift. destruct (connection (Some retry) (t_connecting t)); [|done..]. cbn [did modify].
    unfold mbind at 1, St_bind at 1. cbn [modify]. set (s2 := start_again _).
    assert (settled D k s2) as Hs2 by (destruct Hs1 as (H1 & H2 & H3 & H4 & H5 & H6); unfold settled, s2; cbn in *; split_and!; try done; by intros).
    apply (framed_settled D k (_ ← flush relay first_socket (t_flush_again t); mret true) s2); [|done]. apply framed_bind; [apply framed_flush|intros; apply framed_ret]. }
  intros [Hs|[Hb Hs]]; [left|right; split; [done|]]; by apply H.
Qed.

Lemma turn_moved D n t s : D (t_now_up t + validation_timeout env) -> (forall sid, t_h3 t = inr (inr sid) -> W sid) -> settled D n s ->
  moved D n t (turn cfg env addr_tx relay first_socket probe_packet t s).2.
Proof.
  intros HD HW Hs. assert (forall s, settled D n s -> moved D n t s) as Hl by (by left). unfold turn.
  apply (bind_keeps (settled D n) (settled D n)); [by apply framed_settled, Hs; apply framed_deadline|done|]. intros _ s1 H1.
  apply (bind_keeps (settled D n) (settled D n)); [apply framed_settled; [apply framed_select|done]|done|]. intros _ s2 H2.
  apply (bind_keeps (settled D n) (settled D n)); [by apply establish_settled|done|]. intros _ s3 H3.
  apply (bind_keeps (settled D n) (moved D n t)); [by apply receive_moved|done|]. intros _ s4 H4.
  apply (bind_keeps (settled D n) (moved D n t)); [apply framed_moved; [apply framed_flush|done]|done|]. intros _ s5 H5.
  apply (bind_keeps (settled D n) (moved D n t)); [by apply reconnect_moved|done|]. by intros again s6 H6.
Qed.

Lemma turns_settled (D : Z -> Prop) turns : (forall t, t ∈ turns -> D (t_now_up t + validation_timeout env) /\ forall sid, t_h3 t = inr (inr sid) -> W sid) ->
  forall n s, settled D n s -> exists ts, ts `sublist_of` turns /\ Forall brings ts /\
    settled D (n + blen ts) (run_turns cfg env addr_tx relay first_socket probe_packet turns s).2.
Proof.
  induction turns as [|t turns IH]; intros HD n s Hs; cbn [run_turns].
  { exists []. split; [done|]. split; [by constructor|]. by rewrite Z.add_0_r. }
  destruct (HD t ltac:(by left)) as [HDt HWt]. pose proof (turn_moved D n t s HDt HWt Hs) as Hm. destruct (turn _ _ _ _ _ _ t s) as [r s1]. cbn [snd] in Hm.
  assert (exists ts, ts `sublist_of` [t] /\ Forall brings ts /\ settled D (n + blen ts) s1) as (ts1 & Hsub1 & Hb1 & Hs1).
  { destruct Hm as [H|[Hb H]]; [exists []|exists [t]]; (split; [auto using sublist_nil_l|]); (split; [auto|]); [by rewrite Z.add_0_r|done]. }
  assert (exists ts, ts `sublist_of` t :: turns /\ Forall brings ts /\ settled D (n + blen ts) s1) as Hstop.
  { exists ts1. split; [|done]. change (t :: turns) with ([t] ++ turns). by apply sublist_inserts_r. }
  destruct r as [[]|e|]; [exact Hstop| |exact Hstop..].
  destruct (IH ltac:(intros t' Ht'; apply HD; by right) (n + blen ts1) s1 Hs1) as (ts & Hsub & Hb & Hs2).
  exists (ts1 ++ ts). split; [change (t :: turns) with ([t] ++ turns); by apply sublist_app|]. split; [by apply Forall_app|]. by rewrite blen_app, Z.add_assoc.
Qed.

Lemma framed_setup u : framed (setup cfg env relay first_socket u).
Proof. unfold setup, connect. keep_frame; try apply framed_flush. Qed.

Lemma run_settled (D : Z -> Prop) u ready turns :
  (forall t, t ∈ turns -> D (t_now_up t + validation_timeout env) /\ forall sid, t_h3 t = inr (inr sid) -> W sid) ->
  exists ts, ts `sublist_of` turns /\ Forall brings ts /\ settled D (blen ts) (run cfg env addr_tx relay first_socket probe_packet ready u turns).2.
Proof.
  intros HD. assert (settled D 0 (start cfg ready)) as H0 by (unfold settled; cbn; split; [destruct ready; cbn; lia|split_and!; [by left|done..]]).
  pose proof (framed_settled D 0 _ _ (framed_setup u) H0) as Hs. unfold run. destruct (setup _ _ _ _ u _) as [[[]|e|] s].
  - exact (turns_settled D turns HD 0 s Hs).
  - exists []. split; [apply sublist_nil_l|]. split; [by constructor|exact Hs].
  - exists []. split; [apply sublist_nil_l|]. split; [by constructor|exact Hs].
Qed.
End validation.

(** ** No panic, and loops that end *)

Definition turn_wf (t : Turn) : Prop :=
  (forall sid, t_h3 t = inr (inr sid) -> 0 <= sid <= U64_MAX) /\
  Forall (fun p => match p with Data _ pieces => Forall all_bytes pieces | _ => True end) (t_polls t) /\
  Forall (fun r => match r with Datagram d _ => all_bytes d | ReceiveFailed => True end) (t_received t) /\
  (forall c m, t_branch t = Command c m -> m_bind m <> Panic /\ m_detour m <> Panic) /\ c_prepare (t_connecting t) <> Panic.

Definition run_wf (s : Run) : Prop := all_bytes (capsules s) /\ forall sid, req_stream s = Some sid -> 0 <= sid <= U64_MAX.

(** A step that does not panic, from a state that is well formed to one that is. *)
Definition safe {A} (m : M A) : Prop := forall s, run_wf s -> (m s).1 <> Panic /\ run_wf (m s).2.

Lemma turn_safe_ret {A} (a : A) : safe (mret a).
Proof. done. Qed.
Lemma safe_lift {A} (r : res AetherError A) : r <> Panic -> safe (lift r).
Proof. done. Qed.
Lemma turn_safe_bind {A B} (m : M A) (f : A -> M B) : safe m -> (forall a, safe (f a)) -> safe (m ≫= f).
Proof.
  intros Hm Hf s Hs. specialize (Hm s Hs). unfold mbind, St_bind. destruct (m s) as [[a|e|] s1]; [|by split; [|apply Hm]|by destruct Hm as [[] _]]. apply Hf, Hm.
Qed.
Lemma safe_get {B} (f : Run -> M B) : (forall s, run_wf s -> safe (f s)) -> safe (get ≫= f).
Proof. intros H s Hs. by apply (H s Hs). Qed.
Lemma safe_modify f : (forall s, run_wf s -> run_wf (f s)) -> safe (modify f).
Proof. intros Hf s Hs. split; [done|by apply Hf]. Qed.
Lemma turn_safe_did l : safe (did l).
Proof. by apply safe_modify. Qed.

Ltac keep_safe :=
  repeat match goal with
  | |- safe (mbind _ get) => apply safe_get; intros ? ?
  | |- safe (mbind _ _) => apply turn_safe_bind; [|intros ?]
  | |- safe (match ?x with _ => _ end) => destruct x eqn:?
  | |- safe (let _ := _ in _) => cbv zeta
  | |- safe (did _) => apply turn_safe_did
  | |- safe (modify _) => apply safe_modify; by intros ? []
  | |- safe (mret _) => apply turn_safe_ret
  | |- safe (fails _) => by apply safe_lift
  end.

Lemma check_ech_no_panic key : Tls.check_ech_config_list key <> Panic.
Proof.
  unfold Tls.check_ech_config_list. destruct (Tls.u16_prefixed key) as [[configs whole]|]; [|done]. cbn. destruct (_ || _); [done|].
  destruct (Tls.read_configs _ _ _) as [[k|]|]; [|done..]. cbn. by destruct (_ =? _).
Qed.

Lemma connection_no_panic ech c : c_prepare c <> Panic -> connection ech c <> Panic.
Proof.
  intros Hc. unfold connection. destruct (c_quiche c); [done|]. destruct (c_prepare c); [|done..]. cbn. destruct ech as [key|]; [|done].
  unfold ensure_offerable. pose proof (check_ech_no_panic key). destruct (Tls.check_ech_config_list key); [|done..]. cbn. by destruct (c_set_ech c).
Qed.

Lemma decode_no_panic d sid : all_bytes d -> Masque.decode_ip_datagram d sid <> Panic.
Proof.
  intros Hb. unfold Masque.decode_ip_datagram. assert (Octets.wf (Octets.with_slice d)) as Hwf by (split; cbn; blia).
  destruct (Octets.get_varint_safe (Octets.with_slice d) Hwf Hb) as [-> | (q & n & -> & Hn & _)]; [done|]. cbn [Prelude.map_err]. rsimp.
  destruct (negb _); [done|]. set (b1 := Octets.mkOctets _ _). assert (Octets.wf b1) as Hwf1 by (unfold Octets.cap in Hn; split; cbn in *; lia).
  destruct (Octets.get_varint_safe b1 Hwf1 Hb) as [-> | (c & m & -> & Hm & _)]; [done|]. cbn [Prelude.map_err]. rsimp. destruct (negb _); [done|].
  set (b2 := Octets.mkOctets _ _). assert (Octets.wf b2) as Hwf2 by (unfold Octets.cap in Hm; split; cbn in *; lia).
  pose proof (Octets.get_bytes_safe (Octets.cap b2) b2 Hwf2) as Hg. assert (0 <= Octets.cap b2) as Hc by (unfold Octets.cap, Octets.wf in *; lia).
  specialize (Hg Hc). rewrite Z.ltb_irrefl in Hg. rewrite Hg. cbn [Prelude.map_err]. rsimp. by rewrite Octets.to_vec_all.
Qed.

Section no_panic.
Variable cfg : TunnelConfig.
Variable env : bytes -> option bytes.
Variable addr_tx : bool.
Variable relay : SocketAddr -> SocketAddr -> SocketAddr.
Variable first_socket : list SocketAddr -> option SocketAddr.
Variable probe_packet : bytes.

Lemma safe_flush f : safe (flush relay first_socket f).
Proof. unfold flush. apply turn_safe_bind; [|intros; keep_safe]. induction (packets f) as [|[[[from to] data] failure] l IH]; [done|]. cbn [flush_packets]. keep_safe. exact IH. Qed.

(** The fuel of the loop over the capsules is enough: each one is taken off the buffer. *)
Lemma drain_capsules_ends p : all_bytes p -> exists r, drain_capsules addr_tx p = Ok r /\ all_bytes r.1.
Proof.
  intros Hp. unfold drain_capsules.
  assert (forall fuel q out, all_bytes q -> (length q < fuel)%nat -> exists r, default Panic (loop fuel (drain_step addr_tx) (q, out)) = Ok r /\ all_bytes r.1) as H.
  { induction fuel as [|fuel IH]; intros q out Hq Hl; [lia|]. cbn [loop drain_step]. pose proof (Masque.next_safe_aux q Hq) as Hn.
    destruct (Masque.next q) as [q' [[c|]|e|]]; [| | |done].
    - destruct Hn as [(k & -> & Hk) _]. apply all_bytes_app in Hq as [_ Hq]. rewrite length_app in Hl. unfold blen in Hk.
      destruct c; apply IH; (done || lia).
    - subst q'. by eexists.
    - destruct Hn as (k & -> & _). apply all_bytes_app in Hq as [_ Hq]. by eexists. }
  apply H; [done|lia].
Qed.

Lemma safe_drain : safe (drain addr_tx).
Proof.
  unfold drain. apply safe_get. intros s Hs. destruct (drain_capsules_ends (capsules s)) as (r & Hr & Hb); [apply Hs|]. rewrite Hr.
  apply (turn_safe_bind (modify (set_capsules r.1)) (fun _ => did r.2)); [|intros; apply turn_safe_did]. apply safe_modify. by intros ? [_ ?].
Qed.

Lemma push_bytes pieces : forall p, all_bytes p -> Forall all_bytes pieces -> all_bytes (fold_left Masque.push (until_empty pieces) p).
Proof.
  induction pieces as [|[|b piece] pieces IH]; intros p Hp Hf; [done..|]. cbn [until_empty fold_left]. apply Forall_cons in Hf as [H1 H2].
  apply IH; [|done]. unfold Masque.push. destruct (_ <? _); [constructor|]. by apply Forall_app.
Qed.

Lemma check_status_no_panic stream req l : check_status stream req l <> Panic.
Proof. induction l as [|[name value] l IH]; [done|]. cbn [check_status]. destruct (bool_decide _); [|done]. by destruct (_ && _). Qed.

Lemma safe_poll req polls : Forall (fun p => match p with Data _ pieces => Forall all_bytes pieces | _ => True end) polls -> safe (poll_h3 addr_tx req polls).
Proof.
  induction 1 as [|p polls Hp _ IH]; [done|]. destruct p as [stream l|stream pieces|stream|stream code| |e]; cbn [poll_h3]; keep_safe; try done.
  - apply safe_lift, check_status_no_panic.
  - apply safe_modify. intros s [Hc Hr]. split; [by apply push_bytes|done].
  - apply safe_drain.
Qed.

Lemma safe_send act pkt : safe (send_packet act pkt).
Proof.
  unfold send_packet. apply safe_get. intros s [_ Hs]. destruct (req_stream s) as [sid|]; [|done].
  rewrite Masque.encode_ip_datagram_eq by (by apply Hs). apply turn_safe_did.
Qed.

Lemma safe_ignored (m : M unit) : safe m -> safe (ignored m).
Proof. intros Hm s Hs. specialize (Hm s Hs). unfold ignored. destruct (m s) as [[a|e|] s']; [done|split; [done|apply Hm]|done]. Qed.

Lemma safe_select t : turn_wf t -> safe (select env probe_packet t).
Proof.
  intros (_ & _ & _ & Hm & _). unfold select. apply safe_get. intros s _. destruct (t_branch t) as [| | |c m| |] eqn:Hb; keep_safe; try apply safe_send.
  specialize (Hm _ _ eq_refl) as [H1 H2]. apply safe_ignored. unfold do_migrate. keep_safe; by apply safe_lift.
Qed.

Lemma safe_fire : safe fire.
Proof. unfold fire. keep_safe. Qed.

Lemma safe_establish t : turn_wf t -> safe (establish cfg env t).
Proof.
  intros (Hsid & _). unfold establish. apply safe_get. intros s _. destruct (_ && _); [|done]. destruct (_ && _); [by apply safe_lift|].
  apply turn_safe_bind; [apply turn_safe_did|intros _]. destruct (t_h3 t) as [e|[e|sid]]; [by apply safe_lift..|]. apply turn_safe_bind; [apply turn_safe_did|intros _].
  apply turn_safe_bind; [apply safe_modify; intros s' [H1 H2]; split; [done|]; intros x [= <-]; by apply Hsid|intros _]. keep_safe; apply safe_fire.
Qed.

Lemma drain_datagrams_ends req l : Forall (fun r => match r with Datagram d _ => all_bytes d | ReceiveFailed => True end) l ->
  exists r, drain_datagrams req l = Ok r.
Proof.
  induction 1 as [|[d answer|] l Hd _ (r & IH)]; cbn [drain_datagrams]; [by eexists| |by eexists]. pose proof (decode_no_panic d req Hd).
  rewrite IH. destruct (Masque.decode_ip_datagram d req) as [[pkt|]|e|]; [|by eexists..|done]. destruct answer; by eexists.
Qed.

Lemma safe_receive t : turn_wf t -> safe (receive addr_tx t).
Proof.
  intros (_ & Hp & Hr & _). unfold receive. apply turn_safe_bind; [|intros _; apply turn_safe_bind].
  - unfold poll_events. keep_safe. by apply safe_poll.
  - unfold got_data. apply safe_get. intros s _. destruct (req_stream s) as [sid|]; [|done]. destruct (drain_datagrams_ends sid _ Hr) as (r & ->).
    apply (turn_safe_bind (did r.2) (fun _ => mret r.1)); [apply turn_safe_did|done].
  - intros got. unfold validate. keep_safe; apply safe_fire.
Qed.

Lemma safe_turn t : turn_wf t -> safe (turn cfg env addr_tx relay first_socket probe_packet t).
Proof.
  intros Ht. unfold turn. apply turn_safe_bind; [unfold check_deadline; keep_safe|intros _]. apply turn_safe_bind; [by apply safe_select|intros _].
  apply turn_safe_bind; [by apply safe_establish|intros _]. apply turn_safe_bind; [by apply safe_receive|intros _]. apply turn_safe_bind; [apply safe_flush|intros _].
  apply turn_safe_bind; [|done]. unfold reconnect. keep_safe; try apply safe_flush.
  - unfold connect. apply turn_safe_bind; [|intros; apply turn_safe_did]. apply safe_lift, connection_no_panic, Ht.
  - apply safe_modify. intros ? _. split; [constructor|done].
Qed.

Lemma safe_turns turns : Forall turn_wf turns -> forall s, run_wf s -> (run_turns cfg env addr_tx relay first_socket probe_packet turns s).1 <> Some Panic.
Proof.
  induction 1 as [|t turns Ht _ IH]; intros s Hs; [done|]. cbn [run_turns]. destruct (safe_turn t Ht s Hs) as [H1 H2].
  destruct (turn _ _ _ _ _ _ t s) as [[[]|e|] s1]; [done|by apply IH|done|done].
Qed.
End no_panic.

(** ** What holds of a run *)

(** C7.  Whatever the network does, the tunnel over QUIC sends its request, its probes and its
    packets only over a handshake that is over and, when a key was offered, that took it.  It
    makes one connection, with the key of its settings, and at most a second one, only when the
    first offered a key: with the key that the server handed back when it turned that one down, at
    the end of a turn of this run, and only one that can be offered. *)
Theorem quic_sends_over_its_key cfg env addr_tx relay first_socket probe_packet ready u turns :
  let s := (run cfg env addr_tx relay first_socket probe_packet ready u turns).2 in
  (forall later a earlier, acts s = later ++ a :: earlier -> carried a = true -> over_key earlier = true) /\
  (keys (acts s) = [] \/ keys (acts s) = [ech_config_list cfg] \/
   exists retry, keys (acts s) = [Some retry; ech_config_list cfg] /\ is_Some (ech_config_list cfg) /\
     exists t, t ∈ turns /\ hands_back t retry).
Proof.
  cbn zeta. enough (sent_by (ech_config_list cfg) (fun retry => exists t, t ∈ turns /\ hands_back t retry) (run cfg env addr_tx relay first_socket probe_packet ready u turns).2) as H by exact H.
  unfold run. destruct (keyed_setup cfg env relay first_socket (ech_config_list cfg) (fun retry => exists t, t ∈ turns /\ hands_back t retry) u ready eq_refl) as [Hs Hk].
  destruct (setup cfg env relay first_socket u (start cfg ready)) as [[[]|e|] s]; [|done..]. apply keyed_turns; [by eauto|by apply Hk].
Qed.

(** C34.  The tunnel says once at most that it is ready, and with the check of the data plane only
    after two turns of its loop that brought packets of a stream it sent its request on. *)
Theorem quic_ready_needs_round_trips cfg env addr_tx relay first_socket probe_packet ready u turns :
  let s := (run cfg env addr_tx relay first_socket probe_packet ready u turns).2 in
  (length (filter (fun a => calm a = false) (acts s)) <= 1)%nat /\
  (data_check_enabled env = true -> Ready ∈ acts s ->
   exists t1 t2, [t1; t2] `sublist_of` turns /\ forall t, t ∈ [t1; t2] -> exists sid t0, t0 ∈ turns /\ t_h3 t0 = inr (inr sid) /\ brought sid t).
Proof.
  cbn zeta. destruct (run_settled cfg env addr_tx relay first_socket probe_packet (fun sid => exists t0, t0 ∈ turns /\ t_h3 t0 = inr (inr sid)) (fun _ => True) u ready turns)
    as (ts & Hsub & Hb & Hs); [by eauto|].
  set (s := (run _ _ _ _ _ _ _ _ _).2) in *. clearbody s. destruct Hs as (H1 & H2 & _ & H4 & _ & _). split; [unfold n_ready in H1; lia|].
  intros Hdc Hr. assert (ready_fired s = true) as Hf.
  { destruct H2 as [H2|]; [|done]. unfold n_ready in H2. apply nil_length_inv in H2. assert (Ready ∈ filter (fun a => calm a = false) (acts s)) as Hin by (by apply list_elem_of_filter).
    rewrite H2 in Hin. by apply not_elem_of_nil in Hin. }
  specialize (H4 Hdc Hf). destruct ts as [|t1 [|t2 ts]]; [unfold blen in H4; cbn in H4; lia..|]. apply Forall_cons in Hb as [Hb1 Hb]. apply Forall_cons in Hb as [Hb2 _].
  exists t1, t2. split; [etransitivity; [|exact Hsub]; apply (sublist_app [t1; t2] [t1; t2] [] ts); [done|apply sublist_nil_l]|].
  intros t Ht. assert (exists sid, (exists t0, t0 ∈ turns /\ t_h3 t0 = inr (inr sid)) /\ brought sid t) as (sid & (t0 & ? & ?) & ?); [|eauto].
  set_unfold in Ht. destruct Ht as [->|[->|[]]]; done.
Qed.

(** A tunnel that is up but not validated ends at its deadline: with the check of the data
    plane on, the deadline is set, at the time of the turn that brought it up and the time of
    the settings, and the first turn from then on that finds it still not validated ends the
    run with the error of a validation that timed out. *)
Theorem quic_validation_ends cfg env addr_tx relay first_socket probe_packet ready u turns s :
  data_check_enabled env = true ->
  run cfg env addr_tx relay first_socket probe_packet ready u turns = (None, s) -> up s = true -> ready_fired s = false ->
  exists t0 deadline, t0 ∈ turns /\ validate_deadline s = Some deadline /\ deadline = t_now_up t0 + validation_timeout env /\
    forall t, deadline <= t_now t ->
      (turn cfg env addr_tx relay first_socket probe_packet t s).1 = Err (Error.Masque (lit "data-plane validation timeout (handshake ok, no traffic)")).
Proof.
  intros Hdc Hrun Hup Hf.
  destruct (run_settled cfg env addr_tx relay first_socket probe_packet (fun _ => True) (fun dl => exists t0, t0 ∈ turns /\ dl = t_now_up t0 + validation_timeout env) u ready turns)
    as (ts & _ & _ & _ & _ & H3 & _); [by eauto|]. rewrite Hrun in H3. cbn [snd] in H3.
  destruct (H3 Hdc Hup Hf) as (dl & Hdl & t0 & Ht0 & E). exists t0, dl. split; [done|]. split; [done|]. split; [done|]. intros t Ht.
  unfold turn, check_deadline, mbind, St_bind, get. rewrite Hdc, Hf, Hdl. cbn [negb andb]. by rewrite (proj2 (Z.leb_le _ _)).
Qed.

(** ** The check of a gateway *)

Section verify_lemmas.
Variable p : VerifyParams.
Variable env : bytes -> option bytes.
Variable local : SocketAddr.
Variable relay : SocketAddr -> SocketAddr -> SocketAddr.
Variable probe_packet : bytes.

Definition v_sent (s : VRun) : Prop := sent_over_key (vr_acts s).
Definition v_keyed (s : VRun) : Prop :=
  v_sent s /\ (is_Some (vr_stream s) -> over_key (vr_acts s) = true) /\ exists key, key_of (vr_acts s) = Some (Some key).
Local Abbreviation holds m := (triple v_keyed v_keyed v_sent m).

Lemma v_keyed_sent s : v_keyed s -> v_sent s.
Proof. by intros [H _]. Qed.
Lemma v_keyed_lift {A} (r : res AetherError A) : holds (lift r).
Proof. apply st_lift, v_keyed_sent. Qed.
Lemma v_keyed_did l : forallb quiet_act l = true -> holds (v_did l).
Proof.
  intros Hl. apply st_modify. intros s (H1 & H2 & key & H3). destruct (quiet_acts (rev l) (vr_acts s)) as (E1 & E2 & E3); [by rewrite forallb_rev|].
  unfold v_keyed, v_sent. cbn. rewrite E1, E2. eauto.
Qed.
Lemma v_keyed_modify f : (forall s, vr_acts (f s) = vr_acts s /\ vr_stream (f s) = vr_stream s) -> holds (modify f).
Proof. intros Hf. apply st_modify. intros s Hs. destruct (Hf s) as [H1 H2]. unfold v_keyed, v_sent. by rewrite H1, H2. Qed.
Lemma v_keyed_flush l : forall e, holds (flush_connected p local relay l e).
Proof.
  induction l as [|[data failure] l IH]; intros e; cbn [flush_connected]; [destruct e; [apply v_keyed_lift|apply st_ret]|].
  apply (st_bind _ v_keyed); [by apply v_keyed_did|intros _]. destruct failure; [apply v_keyed_lift|apply IH].
Qed.

(** A probe goes over the connection, on the stream of the request. *)
Lemma v_keyed_probe sid s : v_keyed s -> is_Some (vr_stream s) ->
  match v_probe probe_packet sid s with (Ok _, s') => v_keyed s' /\ vr_stream s' = vr_stream s | (_, s') => v_sent s' end.
Proof.
  intros (H1 & H2 & key & H3) Hs. unfold v_probe. destruct (Masque.encode_ip_datagram sid probe_packet) as [framed|e|]; [|by split; [split; [|eauto]|]|exact H1].
  cbn. split; [|done]. split; [by apply sent_cons; [|intros _; apply H2]|]. split; [by intros _; apply H2|eauto].
Qed.

Definition v_open (s : VRun) : Prop := v_keyed s /\ is_Some (vr_stream s).
Lemma v_open_probe sid : triple v_open v_open v_sent (v_probe probe_packet sid).
Proof. intros s [H1 H2]. pose proof (v_keyed_probe sid s H1 H2) as H. destruct (v_probe probe_packet sid s) as [[u|e|] s']; [|done..]. destruct H as [H H']. split; [done|by rewrite H']. Qed.
Lemma v_open_sent s : v_open s -> v_sent s.
Proof. intros [H _]. by apply v_keyed_sent. Qed.
Lemma v_open_modify f : (forall s, vr_acts (f s) = vr_acts s /\ vr_stream (f s) = vr_stream s) -> triple v_open v_open v_sent (modify f).
Proof. intros Hf. apply st_modify. intros s [Hs1 Hs2]. destruct (Hf s) as [H1 H2]. unfold v_open, v_keyed, v_sent. by rewrite H1, H2. Qed.

Lemma v_open_statuses t sid l : triple v_open v_open v_sent (v_statuses env probe_packet t sid l).
Proof.
  induction l as [|[name value] l IH]; [apply st_ret|]. cbn [v_statuses]. destruct (bool_decide _); [|done]. destruct (bool_decide _); [|apply st_fails, v_open_sent].
  destruct (negb _); [apply st_ret|]. apply (st_bind _ v_open); [by apply v_open_modify|intros _]. apply (st_bind _ v_open); [apply v_open_probe|intros _].
  apply (st_bind _ v_open); [by apply v_open_modify|intros _]. exact IH.
Qed.

Lemma v_open_poll t sid polls : triple v_open v_open v_sent (v_poll env probe_packet t sid polls).
Proof.
  induction polls as [|q polls IH]; [apply st_ret|]. destruct q; cbn [v_poll]; try done; [|apply st_fails, v_open_sent]. destruct (_ =? _); [|done].
  apply (st_bind _ v_open); [apply v_open_statuses|]. intros []; [apply st_ret|done].
Qed.

Lemma v_open_datagrams t sid l : triple v_open v_open v_sent (v_datagrams probe_packet t sid l).
Proof.
  induction l as [|d l IH]; [apply st_ret|]. cbn [v_datagrams]. destruct (Masque.decode_ip_datagram d sid) as [[pkt|]|e|]; [|done..|apply st_lift, v_open_sent].
  apply (st_bind _ v_open); [by apply v_open_modify|intros _]. apply st_get. intros s _. destruct (_ <=? _); [apply st_ret|].
  apply (st_bind _ v_open); [apply v_open_probe|intros _]. apply (st_bind _ v_open); [by apply v_open_modify|intros _]. exact IH.
Qed.

Lemma v_keyed_establish t : is_Some (v_ech p) -> holds (v_establish p t).
Proof.
  intros [key Hkey]. unfold v_establish. rewrite Hkey. apply st_read. intros s Hs. destruct (_ && negb (vr_up s)); [|intros s' ->; exact Hs].
  rewrite bool_decide_eq_true_2 by done. destruct (vt_ech_accepted t); cbn [negb andb]; [|intros s' ->; by apply v_keyed_sent].
  destruct Hs as (H1 & H2 & k & H3). assert (over_key (Up true :: vr_acts s) = true) as Hover by (cbn; by rewrite H3).
  assert (sent_over_key (Up true :: vr_acts s)) as Hup by (by apply sent_cons). intros s' ->.
  destruct (vt_h3 t) as [e|[e|sid]]; [exact Hup..|]. unfold v_keyed, v_sent. cbn. split; [by apply sent_cons|]. split; [done|]. by exists k.
Qed.

Lemma v_open_keyed {A} (m : V A) : triple v_open v_open v_sent m -> triple v_open v_keyed v_sent m.
Proof. apply st_post. by intros s [H _]. Qed.

Lemma v_keyed_confirm t : holds (v_confirm probe_packet t).
Proof.
  unfold v_confirm. apply st_read. intros s Hs. destruct (vr_ok s); [|intros s' ->; exact Hs]. destruct (vr_stream s) as [sid|] eqn:Hsid; [|intros s' ->; exact Hs].
  apply (st_weaken v_open); [intros s' ->; split; [done|by rewrite Hsid]|]. apply v_open_keyed. apply (st_bind _ v_open); [|intros _; apply v_open_datagrams].
  destruct (_ <=? _); [|apply st_ret]. apply (st_bind _ v_open); [apply v_open_probe|intros _; by apply v_open_modify].
Qed.

Lemma v_keyed_reconnect t : holds (v_reconnect p local relay t).
Proof.
  unfold v_reconnect. apply st_get. intros s Hs. destruct (_ && ech_rejected _); [|apply st_ret]. destruct (v_retry_configs t) as [retry|]; [|apply st_ret].
  apply (st_bind _ v_keyed); [by apply v_keyed_did|intros _]. 
  apply (st_bind _ (fun s => v_sent s /\ key_of (vr_acts s) = Some (Some retry))).
  { unfold v_connect. apply (st_bind _ v_keyed); [apply v_keyed_lift|intros _]. apply st_modify. intros s' (H1 & _). split; [by apply sent_cons|done]. }
  intros _. apply (st_bind _ v_keyed); [apply st_modify; intros s' [H1 H2]; unfold v_keyed, v_sent; cbn; split; [done|]; split; [by intros [? [=]]|eauto]|].
  intros _. apply (st_bind _ v_keyed); [apply v_keyed_flush|intros _; apply st_ret].
Qed.

Lemma v_keyed_turn start t : is_Some (v_ech p) -> holds (v_turn p env local relay probe_packet start t).
Proof.
  intros Hkey. unfold v_turn. destruct (_ <=? _); [apply v_keyed_lift|].
  apply (st_bind _ v_keyed); [destruct (vt_wake t); [by apply v_keyed_did|apply v_keyed_lift|apply st_ret]|intros _].
  apply (st_bind _ v_keyed); [by apply v_keyed_establish|intros _]. apply st_read. intros s Hs.
  apply (st_bind _ v_keyed).
  { destruct (vr_up s); [|intros s' ->; exact Hs]. destruct (vr_stream s) as [sid|] eqn:Hsid; [|intros s' ->; exact Hs].
    apply (st_weaken v_open); [intros s' ->; split; [done|by rewrite Hsid]|]. apply v_open_keyed, v_open_poll. }
  intros []; [apply st_ret|]. apply (st_bind _ v_keyed); [apply v_keyed_confirm|]. intros []; [apply st_ret|].
  apply (st_bind _ v_keyed); [apply v_keyed_flush|intros _]. apply (st_bind _ v_keyed); [apply v_keyed_reconnect|].
  intros []; [apply st_ret|]. destruct (vt_closed t); [apply v_keyed_lift|apply st_ret].
Qed.

Lemma v_keyed_turns start turns : is_Some (v_ech p) -> forall s, v_keyed s -> v_sent (v_turns p env local relay probe_packet start turns s).2.
Proof.
  intros Hkey. induction turns as [|t turns IH]; intros s Hs; [by apply v_keyed_sent|]. cbn [v_turns]. pose proof (v_keyed_turn start t Hkey s Hs) as Ht.
  destruct (v_turn _ _ _ _ _ start t s) as [[[d|]|e|] s']; [by apply v_keyed_sent|by apply IH|done..].
Qed.

Lemma v_keyed_setup start u : is_Some (v_ech p) -> let out := v_setup p env local relay u (v_start start) in
  v_sent out.2 /\ (out.1 = Ok tt -> v_keyed out.2).
Proof.
  intros [key Hkey]. cbn zeta. set (P := fun s => forallb quiet_act (vr_acts s) = true /\ vr_stream s = None).
  assert (forall l, forallb quiet_act l = true -> sent_over_key l) as Hq.
  { intros l Hl. rewrite <- (app_nil_r l). apply (quiet_acts l []); [done|]. intros later a earlier E. by destruct later. }
  assert (triple P v_keyed v_sent (v_setup p env local relay u)) as H.
  { unfold v_setup. assert (forall s, P s -> v_sent s) as HP by (intros s [H _]; by apply Hq).
    apply (st_bind _ P); [by apply st_lift|intros _].
    apply (st_bind _ P); [apply st_modify; intros s [H1 H2]; by split|intros _]. apply (st_bind _ P); [by apply st_lift|intros _].
    apply (st_bind _ v_keyed).
    { unfold v_connect. apply (st_bind _ P); [by apply st_lift|intros _]. apply st_modify. intros s [H1 H2]. unfold v_keyed, v_sent. cbn. rewrite H2, Hkey.
      split; [by apply sent_cons; [apply Hq|]|]. split; [by intros [? [=]]|eauto]. }
    intros _. destruct (vs_h3_config u); [apply v_keyed_lift|]. apply (st_bind _ v_keyed); [destruct (quic_v2_bait_enabled env); [by apply v_keyed_did|apply st_ret]|].
    intros _. apply (st_bind _ v_keyed); [by apply v_keyed_did|intros _; apply v_keyed_flush]. }
  specialize (H (v_start start) ltac:(done)). destruct (v_setup _ _ _ _ u _) as [[[]|e|] s]; [split; [by apply v_keyed_sent|done]|done..].
Qed.

End verify_lemmas.

(** ** What a gateway that is taken has done *)

Section verified.
Variable p : VerifyParams.
Variable env : bytes -> option bytes.
Variable local : SocketAddr.
Variable relay : SocketAddr -> SocketAddr -> SocketAddr.
Variable probe_packet : bytes.
(** All the turns of the check. *)
Variable all : list VTurn.

Definition opened (sid : Z) : Prop := exists t, t ∈ all /\ vt_h3 t = inr (inr sid).
(** The gateway answered the request with status 200. *)
Definition answered : Prop := exists t sid l, t ∈ all /\ opened sid /\ Headers sid l ∈ vt_polls t /\ (lit ":status", lit "200") ∈ l.
(** A datagram that carries a packet of a stream the request was sent on. *)
Definition carries (d : bytes) : Prop := exists sid pkt, opened sid /\ Masque.decode_ip_datagram d sid = Ok (Some pkt).

(** After the turns [done_], what the check knows. *)
Definition known (received : list bytes) (s : VRun) : Prop :=
  (forall sid, vr_stream s = Some sid -> opened sid) /\ (vr_ok s = true -> answered) /\
  exists ds, ds `sublist_of` received /\ Forall carries ds /\ vr_successes s = blen ds.

Definition keeps {A} (P : VRun -> Prop) (m : V A) : Prop := forall s, P s -> P (m s).2.

Lemma vkeeps_ret {A} P (a : A) : keeps P (mret a).
Proof. intros s Hs. exact Hs. Qed.
Lemma vkeeps_lift {A} P (r : res AetherError A) : keeps P (lift r).
Proof. intros s Hs. exact Hs. Qed.
Lemma vkeeps_bind {A B} P (m : V A) (f : A -> V B) : keeps P m -> (forall a, keeps P (f a)) -> keeps P (m ≫= f).
Proof. intros Hm Hf s Hs. specialize (Hm s Hs). unfold mbind, St_bind. destruct (m s) as [[a|e|] s']; [by apply Hf|done..]. Qed.
Lemma known_did rs l : keeps (known rs) (v_did l).
Proof. intros s Hs. exact Hs. Qed.
Lemma known_probe rs sid : keeps (known rs) (v_probe probe_packet sid).
Proof. unfold v_probe. destruct (Masque.encode_ip_datagram sid probe_packet); [apply known_did|apply vkeeps_ret|apply vkeeps_lift]. Qed.
Lemma known_flush rs l : forall e, keeps (known rs) (flush_connected p local relay l e).
Proof. induction l as [|[d f] l IH]; intros e; cbn [flush_connected]; [destruct e; [apply vkeeps_lift|apply vkeeps_ret]|].
  apply vkeeps_bind; [apply known_did|intros _]. destruct f; [apply vkeeps_lift|apply IH]. Qed.

Lemma known_statuses rs t sid l0 l : t ∈ all -> opened sid -> Headers sid l0 ∈ vt_polls t -> (forall h, h ∈ l -> h ∈ l0) ->
  forall s, known rs s -> known rs (v_statuses env probe_packet t sid l s).2 /\
    ((v_statuses env probe_packet t sid l s).1 = Ok true -> answered /\ data_check_enabled env = false).
Proof.
  intros Ht Hsid Hh. induction l as [|[name value] l IH]; intros Hin s Hs; [done|]. cbn [v_statuses].
  destruct (bool_decide (name = _)) eqn:Hn; [|apply IH; [intros h Hl; apply Hin; by right|done]]. destruct (bool_decide (value = _)) eqn:Hv; [|done].
  apply bool_decide_eq_true in Hn as ->. apply bool_decide_eq_true in Hv as ->.
  assert (answered) as Ha by (exists t, sid, l0; split_and!; [done..|]; apply Hin; by left).
  destruct (data_check_enabled env) eqn:Hdc; cbn [negb]; [|done].
  unfold mbind, St_bind. cbn [v_is_ok modify]. set (s1 := mkVRun _ _ _ true _ _ _). assert (known rs s1) as Hs1 by (destruct Hs as (H1 & _ & H3); by split).
  pose proof (known_probe rs sid s1 Hs1) as Hs2. destruct (v_probe probe_packet sid s1) as [[u|e|] s2]; [|done..]. cbn [v_probed_at modify].
  apply IH; [intros h Hl; apply Hin; by right|]. exact Hs2.
Qed.

Lemma known_poll rs t sid polls : t ∈ all -> opened sid -> (forall q, q ∈ polls -> q ∈ vt_polls t) ->
  forall s, known rs s -> known rs (v_poll env probe_packet t sid polls s).2 /\
    ((v_poll env probe_packet t sid polls s).1 = Ok true -> answered /\ data_check_enabled env = false).
Proof.
  intros Ht Hsid. induction polls as [|q polls IH]; intros Hin s Hs; [done|].
  assert (known rs (v_poll env probe_packet t sid polls s).2 /\ ((v_poll env probe_packet t sid polls s).1 = Ok true -> answered /\ data_check_enabled env = false)) as Hgo.
  { apply IH; [intros x Hx; apply Hin; by right|done]. }
  destruct q as [stream l| | | | |]; cbn [v_poll]; try done. destruct (Z.eqb_spec stream sid) as [->|]; [|done].
  unfold mbind, St_bind. destruct (known_statuses rs t sid l l Ht Hsid ltac:(apply Hin; by left) ltac:(done) s Hs) as [H1 H2].
  destruct (v_statuses env probe_packet t sid l s) as [[[]|e|] s1]; [|apply IH; [intros x Hx; apply Hin; by right|done]|done..].
  split; [done|]. intros _. by apply H2.
Qed.

Lemma known_datagrams t sid rest : opened sid -> forall l rs s, known rs s ->
  known (rs ++ l ++ rest) (v_datagrams probe_packet t sid l s).2 /\
  ((v_datagrams probe_packet t sid l s).1 = Ok true -> 2 <= vr_successes (v_datagrams probe_packet t sid l s).2).
Proof.
  intros Hsid. assert (forall l rs s, known rs s -> known (rs ++ l) s) as Hmore.
  { intros l rs s (H1 & H2 & ds & H3 & H4). split; [done|]. split; [done|]. exists ds. split; [by apply sublist_inserts_r|done]. }
  induction l as [|d l IH]; intros rs s Hs; [by split; [apply Hmore|]|].
  assert (rs ++ (d :: l) ++ rest = (rs ++ [d]) ++ l ++ rest) as E by (by rewrite <- app_assoc). rewrite E. cbn [v_datagrams].
  destruct (Masque.decode_ip_datagram d sid) as [[pkt|]|e|] eqn:Hd; [|by apply IH, Hmore..|by split; [rewrite <- E; apply Hmore|]].
  unfold mbind, St_bind. cbn [v_success modify get]. set (s1 := mkVRun _ _ _ _ _ (vr_successes s + 1) _).
  assert (known (rs ++ [d]) s1) as Hs1.
  { destruct Hs as (H1 & H2 & ds & H3 & H4 & H5). split; [done|]. split; [done|]. exists (ds ++ [d]). split; [by apply sublist_app|].
    split; [apply Forall_app; split; [done|]; apply Forall_singleton; by exists sid, pkt|]. unfold s1. cbn. rewrite H5. blia. }
  destruct (Z.leb_spec DATA_PROBE_REQUIRED_SUCCESSES (vr_successes s1)) as [Hl|]; [split; [by apply Hmore|done]|].
  pose proof (known_probe (rs ++ [d]) sid s1 Hs1) as Hs2. destruct (v_probe probe_packet sid s1) as [[u|e'|] s2]; [|by split; [apply Hmore|]..].
  cbn [v_probed_at modify]. apply IH. exact Hs2.
Qed.

Lemma known_establish rs t : t ∈ all -> keeps (known rs) (v_establish p t).
Proof.
  intros Ht s Hs. unfold v_establish, mbind at 1, St_bind at 1, get. destruct (_ && _); [|done]. destruct (_ && _); [done|].
  unfold mbind at 1, St_bind at 1. cbn [v_did modify]. destruct (vt_h3 t) as [e|[e|sid]] eqn:Hh; [exact Hs..|].
  destruct Hs as (H1 & H2 & H3). split; [|done]. intros sid' [= <-]. by exists t.
Qed.

Lemma known_reconnect rs t : keeps (known rs) (v_reconnect p local relay t).
Proof.
  intros s Hs. unfold v_reconnect, mbind at 1, St_bind at 1, get. destruct (_ && ech_rejected _); [|done]. destruct (v_retry_configs t); [|done].
  revert s Hs. apply vkeeps_bind; [apply known_did|intros _]. apply vkeeps_bind; [unfold v_connect; apply vkeeps_bind; [apply vkeeps_lift|intros; apply known_did]|intros _].
  apply vkeeps_bind; [intros s (H1 & H2 & H3); by split|intros _]. apply vkeeps_bind; [apply known_flush|intros; apply vkeeps_ret].
Qed.

(** The gateway is taken: it answered, and with the check of the data plane two datagrams carried packets. *)
Definition taken (received : list bytes) : Prop :=
  answered /\ (data_check_enabled env = true -> exists d1 d2, [d1; d2] `sublist_of` received /\ carries d1 /\ carries d2).

Lemma known_taken rs s : known rs s -> vr_ok s = true -> 2 <= vr_successes s -> taken rs.
Proof.
  intros (_ & Ha & ds & Hsub & Hc & Hn) Hok H2. split; [by apply Ha|]. intros _. rewrite Hn in H2.
  destruct ds as [|d1 [|d2 ds]]; [unfold blen in H2; cbn in H2; lia..|]. exists d1, d2. apply Forall_cons in Hc as [H1 Hc]. apply Forall_cons in Hc as [H3 _].
  split; [|done]. etransitivity; [|exact Hsub]. apply (sublist_app [d1; d2] [d1; d2] [] ds); [done|apply sublist_nil_l].
Qed.

Lemma known_confirm t rs s : known rs s -> let out := v_confirm probe_packet t s in
  known (rs ++ vt_received t) out.2 /\ (out.1 = Ok true -> taken (rs ++ vt_received t)).
Proof.
  intros Hs. assert (known (rs ++ vt_received t) s) as Hmore.
  { destruct Hs as (H1 & H2 & ds & H3 & H4). split; [done|]. split; [done|]. exists ds. split; [by apply sublist_inserts_r|done]. }
  cbn zeta. destruct (vr_ok s) eqn:Hok; [|assert (v_confirm probe_packet t s = (Ok false, s)) as -> by (unfold v_confirm, mbind, St_bind, get; by rewrite Hok); by split].
  destruct (vr_stream s) as [sid|] eqn:Hsid; [|assert (v_confirm probe_packet t s = (Ok false, s)) as -> by (unfold v_confirm, mbind, St_bind, get; by rewrite Hok, Hsid); by split].
  set (m := (if PROBE_EVERY <=? vt_now_probe t - vr_last_probe s then _ ← v_probe probe_packet sid; v_probed_at (vt_now_probe t) else mret tt) : V unit).
  assert (v_confirm probe_packet t s = (_ ← m; v_datagrams probe_packet t sid (vt_received t)) s) as -> by (unfold v_confirm, mbind at 1, St_bind at 1, get; by rewrite Hok, Hsid).
  assert (opened sid) as Hopen by (by apply Hs). assert (forall s', vr_ok (v_datagrams probe_packet t sid (vt_received t) s').2 = vr_ok s') as Hkeep.
  { clear Hmore. generalize (vt_received t). intros l. induction l as [|d l IH]; intros s'; [done|]. cbn [v_datagrams]. destruct (Masque.decode_ip_datagram d sid) as [[pkt|]|e|]; [|apply IH..|done].
    unfold mbind, St_bind. cbn [v_success modify get]. destruct (DATA_PROBE_REQUIRED_SUCCESSES <=? _); [reflexivity|]. unfold v_probe. destruct (Masque.encode_ip_datagram sid probe_packet); [..|reflexivity].
    all: etransitivity; [apply IH|reflexivity]. }
  assert (forall s', vr_ok (m s').2 = vr_ok s') as Hm.
  { intros s'. unfold m. destruct (_ <=? _); [|done]. unfold mbind, St_bind, v_probe. by destruct (Masque.encode_ip_datagram sid probe_packet). }
  assert (known rs (m s).2) as Hs1.
  { unfold m. destruct (_ <=? _); [|done]. apply (vkeeps_bind (known rs) (v_probe probe_packet sid)); [apply known_probe|intros _ s' H; exact H|done]. }
  unfold mbind, St_bind. specialize (Hm s). destruct (m s) as [[u|e|] s1]; cbn [snd] in *;
    [|split; [destruct Hs1 as (H1 & H2 & ds & H3 & H4); split; [done|]; split; [done|]; exists ds; split; [by apply sublist_inserts_r|done]|done]..].
  destruct (known_datagrams t sid [] Hopen (vt_received t) rs s1 Hs1) as [H1 H2]. rewrite app_nil_r in H1. split; [done|]. intros H.
  apply (known_taken _ _ H1); [by rewrite Hkeep, Hm|by apply H2].
Qed.

Lemma bind_Ok {S A B} (m : St S A) (f : A -> St S B) s a s1 : m s = (Ok a, s1) -> (m ≫= f) s = f a s1.
Proof. unfold mbind, St_bind. by intros ->. Qed.
Lemma bind_Err {S A B} (m : St S A) (f : A -> St S B) s e s1 : m s = (Err e, s1) -> (m ≫= f) s = (Err e, s1).
Proof. unfold mbind, St_bind. by intros ->. Qed.
Lemma bind_Panic {S A B} (m : St S A) (f : A -> St S B) s s1 : m s = (Panic, s1) -> (m ≫= f) s = (Panic, s1).
Proof. unfold mbind, St_bind. by intros ->. Qed.

(** Runs the first step of the program of the goal. *)
Ltac run_step H :=
  match goal with |- context [(mbind ?f ?m) ?s] =>
    destruct (m s) as [[|?e|] ?s] eqn:H; [rewrite (bind_Ok m f s _ _ H)|rewrite (bind_Err m f s _ _ H)|rewrite (bind_Panic m f s _ H)]
  end.

Lemma known_turn start t rs s : t ∈ all -> known rs s -> let out := v_turn p env local relay probe_packet start t s in
  known (rs ++ vt_received t) out.2 /\ (forall d, out.1 = Ok (Some d) -> taken (rs ++ vt_received t)).
Proof.
  intros Ht Hs. cbn zeta. assert (forall s, known rs s -> known (rs ++ vt_received t) s) as Hmore.
  { intros s' (H1 & H2 & ds & H3 & H4). split; [done|]. split; [done|]. exists ds. split; [by apply sublist_inserts_r|done]. }
  assert (forall e s', known rs s' -> known (rs ++ vt_received t) (Err e : res AetherError (option Z), s').2 /\
    forall d, (Err e : res AetherError (option Z), s').1 = Ok (Some d) -> taken (rs ++ vt_received t)) as Herr by (intros e s' Hs'; split; [by apply Hmore|done]).
  assert (forall s', known rs s' -> known (rs ++ vt_received t) (Panic : res AetherError (option Z), s').2 /\
    forall d, (Panic : res AetherError (option Z), s').1 = Ok (Some d) -> taken (rs ++ vt_received t)) as Hpanic by (intros s' Hs'; split; [by apply Hmore|done]).
  unfold v_turn. destruct (_ <=? _); [by apply Herr|].
  assert (known rs (match vt_wake t with Heard data => v_did [Fed data] | HearFailed e => fails (Io e) | Slept => mret tt end s).2) as H1 by (by destruct (vt_wake t)).
  run_step E1; cbn [snd] in H1; [|by apply Herr|by apply Hpanic].
  pose proof (known_establish rs t Ht _ H1) as H2. run_step E2; cbn [snd] in H2; [|by apply Herr|by apply Hpanic].
  rewrite (bind_Ok get _ _ _ _ eq_refl).
  match goal with |- context [(mbind ?f ?m) ?s] => assert (known rs (m s).2 /\ ((m s).1 = Ok true -> answered /\ data_check_enabled env = false)) as [H3 Hover] end.
  { destruct (vr_up _); [|done]. destruct (vr_stream _) as [sid|] eqn:Hsid; [|done]. apply known_poll; [done|by apply H2|done..]. }
  run_step E3; cbn [fst snd] in H3, Hover; [|by apply Herr|by apply Hpanic]. destruct a1.
  - split; [by apply Hmore|]. intros d _. destruct (Hover eq_refl) as [Ha Hdc]. split; [done|]. by rewrite Hdc.
  - clear Herr Hpanic. destruct (known_confirm t rs _ H3) as [H4 Htaken]. run_step E4; cbn [fst snd] in H4, Htaken; [|by split..].
    destruct a1; [split; [done|]; intros d _; by apply Htaken|]. set (rs' := rs ++ vt_received t) in *. clearbody rs'.
    pose proof (known_flush rs' (vt_packets t) (vt_flush_error t) _ H4) as H5. run_step E5; cbn [snd] in H5; [|by split..].
    pose proof (known_reconnect rs' t _ H5) as H6. run_step E6; cbn [snd] in H6; [|by split..]. destruct a2; [by split|]. by destruct (vt_closed t); split.
Qed.

Lemma known_turns start turns : (forall t, t ∈ turns -> t ∈ all) -> forall rs s, known rs s ->
  forall d, (v_turns p env local relay probe_packet start turns s).1 = Some (Ok d) -> taken (rs ++ mjoin (vt_received <$> turns)).
Proof.
  induction turns as [|t turns IH]; intros Hin rs s Hs d; [done|]. cbn [v_turns fmap list_fmap]. change (mjoin (vt_received t :: ?l)) with (vt_received t ++ mjoin l).
  destruct (known_turn start t rs s ltac:(apply Hin; by left) Hs) as [H1 H2]. destruct (v_turn _ _ _ _ _ start t s) as [[[e|]|e|] s1]; cbn [fst snd] in *.
  - intros _. destruct (H2 e eq_refl) as [Ha Hd]. split; [done|]. intros Hdc. destruct (Hd Hdc) as (d1 & d2 & Hsub & Hc). exists d1, d2. split; [|done].
    rewrite app_assoc. by apply sublist_inserts_r.
  - rewrite app_assoc. apply IH; [intros t' Ht'; apply Hin; by right|done].
  - done.
  - done.
Qed.

Lemma known_setup u start : known [] (v_setup p env local relay u (v_start start)).2.
Proof.
  assert (known [] (v_start start)) as H by (split; [done|]; split; [done|]; by exists []). revert H. generalize (v_start start). fold (keeps (known []) (v_setup p env local relay u)).
  unfold v_setup. apply vkeeps_bind; [apply vkeeps_lift|intros _]. apply vkeeps_bind; [apply known_did|intros _]. apply vkeeps_bind; [apply vkeeps_lift|intros _].
  apply vkeeps_bind; [unfold v_connect; apply vkeeps_bind; [apply vkeeps_lift|intros; apply known_did]|intros _]. destruct (vs_h3_config u); [apply vkeeps_lift|].
  apply vkeeps_bind; [destruct (quic_v2_bait_enabled env); [apply known_did|apply vkeeps_ret]|intros _]. apply vkeeps_bind; [apply known_did|intros _; apply known_flush].
Qed.

End verified.

(** C33.  A gateway the check takes has answered the request with status 200, on a stream the
    request was sent on, and with the check of the data plane two of the datagrams it sent
    carried packets of such a stream; and when a key was to be offered, nothing was sent to
    it but over a handshake that took the key. *)
Theorem verified_gateway_answered p env local relay probe_packet start u turns elapsed s :
  verify_masque p env local relay probe_packet start u turns = (Some (Ok elapsed), s) ->
  (exists t sid l, t ∈ turns /\ opened turns sid /\ Headers sid l ∈ vt_polls t /\ (lit ":status", lit "200") ∈ l) /\
  (data_check_enabled env = true ->
    exists d1 d2, [d1; d2] `sublist_of` mjoin (vt_received <$> turns) /\ carries turns d1 /\ carries turns d2) /\
  (is_Some (v_ech p) -> forall later a earlier, vr_acts s = later ++ a :: earlier -> carried a = true -> over_key earlier = true).
Proof.
  unfold verify_masque. intros Hv. pose proof (known_setup p env local relay turns u start) as Hk.
  pose proof (v_keyed_setup p env local relay start u) as Hkey. cbn zeta in Hkey.
  destruct (v_setup p env local relay u (v_start start)) as [[[]|e|] s1]; [|done..]. cbn [fst snd] in *.
  destruct (known_turns p env local relay probe_packet turns start turns ltac:(done) [] s1 Hk elapsed) as [H1 H2]; [by rewrite Hv|].
  split; [exact H1|]. split; [exact H2|]. intros Hs. destruct (Hkey Hs) as [_ Hkeyed].
  pose proof (v_keyed_turns p env local relay probe_packet start turns Hs s1 (Hkeyed eq_refl)) as Hsent. by rewrite Hv in Hsent.
Qed.

(** ** The bait and the name *)

(** The length field of the bait is read back by a reader of the format. *)
Example bait_length_read : Octets.get_varint (Octets.with_slice (quic_varint2 1174)) = Ok (1174, Octets.mkOctets (quic_varint2 1174) 2).
Proof. vm_compute. done. Qed.

(** The bait is a long header of QUIC version 2 with two identifiers of eight bytes, whose
    length field covers what follows it up to 1200 bytes. *)
Lemma version_bait_layout dcid scid pn : blen dcid = 8 -> blen scid = 8 -> blen pn = 4 ->
  let pkt := build_version_bait dcid scid pn in
  blen pkt = QUIC_V2_BAIT_LEN /\ exists payload,
    pkt = [195] ++ be32_bytes QUIC_V2_VERSION ++ [8] ++ dcid ++ [8] ++ scid ++ [0] ++ quic_varint2 (blen payload) ++ payload /\ pn `prefix_of` payload.
Proof.
  intros Hd Hs Hp. cbn zeta. unfold build_version_bait. rewrite Hd, Hs. set (head := [195] ++ _). 
  assert (blen head = 24) as Hh by (unfold head; rewrite !blen_app, Hd, Hs; done). rewrite Hh.
  assert (blen (head ++ quic_varint2 (QUIC_V2_BAIT_LEN - 24 - 2) ++ pn) = 30) as Hl by (rewrite !blen_app, Hh, Hp; done).
  rewrite resize_ge by (unfold blen in Hl; change (Z.to_nat QUIC_V2_BAIT_LEN) with 1200%nat; lia).
  set (zeros := replicate _ _). assert (blen zeros = 1170) as Hz by (unfold zeros; rewrite blen_replicate; unfold blen in Hl; change (Z.to_nat QUIC_V2_BAIT_LEN) with 1200%nat; lia).
  split; [rewrite blen_app, Hl, Hz; done|]. exists (pn ++ zeros). split; [|by apply prefix_app_r]. rewrite blen_app, Hp, Hz.
  unfold head. by rewrite <- !app_assoc.
Qed.

Lemma masque_sni_name value name : masque_sni_of value = Ok name ->
  name = default_sni \/ Dns.valid_domain name = true /\ ends_with [46] name = false /\ parse_ip name = None.
Proof.
  unfold masque_sni_of. case_bool_decide; [by intros [= <-]; left|]. destruct (_ || _) eqn:H1; [done|]. intros [= <-]. right.
  apply orb_false_iff in H1 as [H1 H2]. apply orb_false_iff in H1 as [H1 H3]. apply negb_false_iff in H2. apply bool_decide_eq_false in H3. split_and!; [done..|].
  by apply eq_None_not_Some.
Qed.

(** ** Examples *)

Section examples.

Definition no_env : bytes -> option bytes := fun _ => None.
Definition edge : SocketAddr := mkSocketAddr (V4 2734752257) 443.
Definition here : SocketAddr := mkSocketAddr (V4 2130706433) 50000.
Definition example_config (key : option bytes) : TunnelConfig :=
  mkTunnel edge default_sni default_authority default_path [] [] key 2886729730 true 1350 true.
Definition no_flush : Flush := mkFlush [] None.
Definition plain_connection : Connecting := mkConnecting None (Ok tt) None.
Definition example_setup : Setup := mkSetup (Ok tt) (Ok tt) (inr here) (Ok tt) plain_connection None no_flush.

(** A turn where a branch runs and the connection is in a state. *)
Definition idle (branch : Branch) (now : Z) (up_ accepted : bool) (received : list Received) : Turn :=
  mkTurn now up_ branch up_ accepted (inr (inr 0)) now [Headers 0 [(lit ":status", lit "200")]] received no_flush false false None [] plain_connection no_flush.
(** The server turns the key down and hands another back. *)
Definition turned_down (retry : bytes) : Turn :=
  mkTurn 1 false TimedOut false false (inr (inr 0)) 1 [] [] no_flush true false (Some (false, 377)) retry plain_connection no_flush.
Definition example_packet : bytes := 69 :: replicate 19 7.
Definition answer : Received := Datagram ([0; 0] ++ example_packet) Masque.Sent.
Local Abbreviation example_run key turns := (run (example_config key) no_env true (fun _ to => to) head [] true example_setup turns).

(** A key that is turned down, the connection made again with the one handed back, and a
    packet sent over it. *)
Definition key_turns : list Turn := [turned_down Tls.retry_list; idle TimedOut 2 true true []; idle (Outbound (Some example_packet)) 3 true true []].
Lemma quic_sends_over_its_key_witness :
  let s := (example_run (Some Tls.example_list) key_turns).2 in
  keys (acts s) = [Some Tls.retry_list; Some Tls.example_list] /\
  exists earlier, acts s = Sent ([0; 0] ++ example_packet) :: earlier /\ over_key earlier = true.
Proof.
  cbn zeta. split; [vm_compute; reflexivity|]. eexists. split; [vm_compute; reflexivity|].
  apply (proj1 (quic_sends_over_its_key (example_config (Some Tls.example_list)) no_env true (fun _ to => to) head [] true example_setup key_turns)
    [] (Sent ([0; 0] ++ example_packet))); [vm_compute; reflexivity|reflexivity].
Defined.

Definition ready_turns : list Turn := [idle TimedOut 2 true true []; idle ProbeTick 3 true true [answer]; idle TimedOut 4 true true [answer]].
Lemma quic_ready_needs_round_trips_witness :
  Ready ∈ acts (example_run None ready_turns).2 /\ exists t1 t2, [t1; t2] `sublist_of` ready_turns.
Proof.
  assert (Ready ∈ acts (example_run None ready_turns).2) as Hr by (apply (list_elem_of_lookup_2 _ 0); vm_compute; reflexivity).
  split; [exact Hr|].
  destruct (proj2 (quic_ready_needs_round_trips (example_config None) no_env true (fun _ to => to) head [] true example_setup ready_turns) eq_refl Hr) as (t1 & t2 & H & _).
  exists t1, t2. exact H.
Defined.

Lemma quic_validation_ends_witness :
  let s := (example_run None [idle TimedOut 2 true true []; idle ProbeTick 3 true true []]).2 in
  validate_deadline s = Some 12 /\
  (turn (example_config None) no_env true (fun _ to => to) head [] (idle TimedOut 12 true true [answer; answer]) s).1
    = Err (Error.Masque (lit "data-plane validation timeout (handshake ok, no traffic)")).
Proof.
  cbn zeta. split; [vm_compute; reflexivity|].
  destruct (quic_validation_ends (example_config None) no_env true (fun _ to => to) head [] true example_setup
    [idle TimedOut 2 true true []; idle ProbeTick 3 true true []] (example_run None [idle TimedOut 2 true true []; idle ProbeTick 3 true true []]).2
    eq_refl ltac:(vm_compute; reflexivity) ltac:(vm_compute; reflexivity) ltac:(vm_compute; reflexivity)) as (t0 & dl & _ & Hdl & _ & H).
  apply H. assert (Some dl = Some 12) as E by (rewrite <- Hdl; vm_compute; reflexivity). injection E as ->. vm_compute. discriminate.
Defined.

Definition example_verify (key : option bytes) : VerifyParams := mkVerify edge default_sni default_authority default_path key 5000.
Definition v_idle (now : Z) (polls : list Poll) (received : list bytes) : VTurn :=
  mkVTurn now (Heard [1]) true true (inr (inr 0)) polls now now received now now [] None false false None [] plain_connection [] None.
Definition v_turns_ok : list VTurn := [v_idle 10 [Headers 0 [(lit ":status", lit "200")]] [[0; 0] ++ example_packet]; v_idle 20 [] [[0; 0] ++ example_packet]].
Definition v_example_setup : VSetup := mkVSetup (Ok tt) (Ok tt) plain_connection None [] None.
Local Abbreviation v_example :=
  (verify_masque (example_verify (Some Tls.example_list)) no_env here (fun _ to => to) [] 0 v_example_setup v_turns_ok).

Lemma verified_gateway_answered_witness :
  v_example.1 = Some (Ok 20) /\ answered v_turns_ok.
Proof.
  assert (v_example.1 = Some (Ok 20)) as H by (vm_compute; reflexivity). split; [exact H|].
  apply (verified_gateway_answered (example_verify (Some Tls.example_list)) no_env here (fun _ to => to) [] 0 v_example_setup v_turns_ok 20 v_example.2).
  change (v_example = (Some (Ok 20), v_example.2)). rewrite <- H. apply surjective_pairing.
Defined.

(** The check asks for status 200, the tunnel for any status of success. *)
Example check_is_stricter_than_tunnel :
  let polls := [Headers 0 [(lit ":status", lit "204")]] in
  (verify_masque (example_verify None) no_env here (fun _ to => to) [] 0 v_example_setup [v_idle 10 polls []]).1 = Some (Err (Other (lit "status 204"))) /\
  check_status 0 0 [(lit ":status", lit "204")] = Ok tt.
Proof. vm_compute. done. Qed.

End examples.

End Quic.
