(* ===== verification/MasqueH2.v ===== *)
(** * The MASQUE tunnel over HTTP/2 ([masque_h2.rs])

    The handshake ([connect_tls]), the request, the check of a gateway ([verify_h2]), the
    driver of a tunnel ([run]) turn by turn of its loop, and the task that owns the request
    stream ([pump_outbound]).  The TLS and h2 crates answer as arguments; an answer that never
    comes leaves the step waiting, which is the outcome [None].  The capsules are [Masque]'s,
    the check of an ECH key is [Tls]'s, the commands are [Quic]'s. *)

From S2P Require Import Prelude Str Ip Text Error Octets Masque Tls.
From S2P Require Import Session Dns Quic.
Local Open Scope Z_scope.

Module MasqueH2.
Import Error.
Import Tls(ensure_offerable, usable_retry).

Definition H2_SEND_BATCH_BYTES : Z := 32 * 1024.
Definition DATA_PROBE_REQUIRED_SUCCESSES : Z := 2.
(** Of the channel to the send task. *)
Definition SENDER_QUEUE : Z := 16.

(** ** The settings *)

(** A time of the environment, in seconds: a positive number, at most a day. *)
Definition secs_setting (env : bytes -> option bytes) (name : bytes) (dflt : Z) : Z :=
  default dflt (v ← env name; n ← parse_u64 v; if 0 <? n then Some (Z.min n 86400) else None).
Definition validation_timeout (env : bytes -> option bytes) : Z := secs_setting env (lit "AETHER_MASQUE_VALIDATE_SECS") 10.
Definition h2_keepalive_interval (env : bytes -> option bytes) : Z := secs_setting env (lit "AETHER_MASQUE_H2_KEEPALIVE_SECS") 15.
Definition h2_keepalive_timeout (env : bytes -> option bytes) : Z := secs_setting env (lit "AETHER_MASQUE_H2_KEEPALIVE_TIMEOUT_SECS") 20.
Definition data_check_enabled (env : bytes -> option bytes) : bool := bool_decide (env (lit "AETHER_MASQUE_NO_DATA_CHECK") = None).

Record H2TunnelConfig := mkH2 {
  peer : SocketAddr;
  sni : bytes;
  authority : bytes;
  path : bytes;
  cert_pem : bytes;
  key_pem : bytes;
  local_ipv4 : Z;
  quiet : bool;
  pin_endpoint : bool;
  expected_pins : list bytes;
  ech_config_list : option bytes;
}.

Definition rejected_ech (message : bytes) : bool := bool_decide (is_Some (find_sub (lit "ECH_REJECTED") message)).
Definition send_custom_sni (custom_tcp has_ech : bool) : bool := negb custom_tcp || has_ech.

(** ** Steps that log and may wait *)

(** What is done, the last first.  [Connected]: a handshake begins, with the key it offers;
    [Up]: it is over, with what the server made of the key. *)
Inductive Act :=
| Dialled (peer : SocketAddr)
| Connected (key : option bytes)
| Adopted (key : bytes)
| Up (accepted : bool)
| Requested (uri : bytes) (headers : list (bytes * bytes))
| Wrote (data : bytes)
| EndStream
| Told (framed : bytes)
| ToldFinish
| Pinged
| Ponged
| Handed (waiting : list bytes) (delivered : bool)
| Ready.

Definition M (A : Type) : Type := list Act -> option (res AetherError A) * list Act.
#[export] Instance M_ret : MRet M := fun A a l => (Some (Ok a), l).
#[export] Instance M_bind : MBind M := fun A B f m l =>
  match m l with
  | (Some (Ok a), l) => f a l
  | (Some (Err e), l) => (Some (Err e), l)
  | (Some Panic, l) => (Some Panic, l)
  | (None, l) => (None, l)
  end.
Definition lift {A} (r : res AetherError A) : M A := fun l => (Some r, l).
Definition fails {A} (e : AetherError) : M A := lift (Err e).
Definition waits {A} : M A := fun l => (None, l).
Definition did (a : Act) : M unit := fun l => (Some (Ok tt), a :: l).

(** What another crate answers: nothing yet, an error, a value. *)
Inductive Answer (A : Type) := Waiting | Failed (e : bytes) | Got (a : A).
Arguments Waiting {A}. Arguments Failed {A} _. Arguments Got {A} _.
Definition answer {A} (error : bytes -> AetherError) (a : Answer A) : M A :=
  match a with Waiting => waits | Failed e => fails (error e) | Got a => mret a end.
Definition masque_error (what : bytes) (e : bytes) : AetherError := Error.Masque (what ++ lit ": " ++ e).

(** ** The handshake *)

(** What BoringSSL and the fingerprint say as the connection is set up. *)
Record Building := mkBuilding {
  b_builder : option bytes;
  b_apply : res AetherError unit;
  b_cert : option bytes;
  b_key : option bytes;
  b_set_cert : option bytes;
  b_set_key : option bytes;
  b_configure : option bytes;
  b_prepare : res AetherError unit;
}.
Definition tls_ok (e : option bytes) : res AetherError unit := match e with Some e => Err (Error.Tls e) | None => Ok tt end.

(** [build_tls]: how the server is verified, and whether its name goes in the clear.
    [upstream]: whether a proxy is configured. *)
Definition build_tls `{UnicodeCase} (cfg : H2TunnelConfig) (env : bytes -> option bytes) (upstream : bool) (b : Building) : res AetherError (Tls.Verification * bool) :=
  _ ← tls_ok (b_builder b); _ ← b_apply b;
  _ ← tls_ok (b_cert b); _ ← tls_ok (b_key b); _ ← tls_ok (b_set_cert b); _ ← tls_ok (b_set_key b);
  _ ← tls_ok (b_configure b); _ ← b_prepare b;
  let custom_tcp := bool_decide (env (lit "AETHER_CUSTOM_TCP_UPSTREAM") = Some (lit "1")) && upstream in
  Ok (Tls.install_verification env (pin_endpoint cfg) (expected_pins cfg), send_custom_sni custom_tcp (bool_decide (is_Some (ech_config_list cfg)))).

(** A handshake: over, with what the server made of the key, or failed, with the message and
    the configs the failed connection hands out. *)
Inductive Shake := ShakeWaits | Shaken (accepted : bool) | ShakeFailed (message : bytes) (configs : option bytes).
Record Try := mkTry { y_build : Building; y_set_ech : option bytes; y_dial : option (res AetherError unit); y_shake : Shake }.

Section connecting.
Context `{UnicodeCase}.
Variable cfg : H2TunnelConfig.
Variable env : bytes -> option bytes.
Variable upstream : bool.

(** The configs a failed handshake is made again with. *)
Definition retry_of (ech : option bytes) (retried : bool) (message : bytes) (configs : option bytes) : option bytes :=
  if negb retried && bool_decide (is_Some ech) && rejected_ech message then
    configs ← configs; if bool_decide (configs = []) then None else usable_retry configs
  else None.

(** One try: over, or a key to make it again with. *)
Definition attempt (ech : option bytes) (retried : bool) (t : Try) : M (option bytes) :=
  _ ← lift (build_tls cfg env upstream (y_build t));
  _ ← match ech with
      | Some list =>
          _ ← lift (ensure_offerable list);
          match y_set_ech t with Some e => fails (Error.Tls (lit "h2 ech config: " ++ e)) | None => mret tt end
      | None => mret tt
      end;
  _ ← did (Dialled (peer cfg));
  _ ← match y_dial t with Some r => lift r | None => waits end;
  _ ← did (Connected ech);
  match y_shake t with
  | ShakeWaits => waits
  | Shaken accepted =>
      _ ← did (Up accepted);
      if bool_decide (is_Some ech) && negb accepted then fails (Ech (lit "the handshake went without ECH")) else mret None
  | ShakeFailed message configs =>
      match retry_of ech retried message configs with
      | None => fails (Error.Tls (lit "h2 tls handshake: " ++ message))
      | Some retry => _ ← did (Adopted retry); mret (Some retry)
      end
  end.

(** The loop, over the tries the network allows. *)
Fixpoint connect_loop (tries : list Try) (ech : option bytes) (retried : bool) : M unit :=
  match tries with
  | [] => waits
  | t :: tries =>
      again ← attempt ech retried t;
      match again with Some retry => connect_loop tries (Some retry) true | None => mret tt end
  end.
Definition connect_tls (tries : list Try) : M unit := connect_loop tries (ech_config_list cfg) false.

(** ** The request *)

Definition build_connect_request : bytes * list (bytes * bytes) :=
  (lit "https://" ++ authority cfg ++ lit ":443",
   [(lit "cf-connect-proto", lit "cf-connect-ip"); (lit "pq-enabled", lit "false"); (lit "user-agent", [])]).

(** The answers of the h2 and http crates up to the response; [o_ping]: the connection has
    pings to give. *)
Record Opening := mkOpening {
  o_tries : list Try;
  o_handshake : Answer unit;
  o_ping : bool;
  o_ready : Answer unit;
  o_build : option bytes;
  o_request : option bytes;
  o_status : Answer Z;
}.

(** The tunnel asks the connection for its pings, the check does not. *)
Definition open (pings : bool) (o : Opening) : M unit :=
  _ ← connect_tls (o_tries o);
  _ ← answer (masque_error (lit "h2 handshake")) (o_handshake o);
  _ ← (if pings && negb (o_ping o) then fails (Error.Masque (lit "h2 connection does not support ping")) else mret tt);
  _ ← answer (masque_error (lit "h2 ready")) (o_ready o);
  _ ← match o_build o with Some e => fails (masque_error (lit "build request") e) | None => mret tt end;
  _ ← match o_request o with Some e => fails (masque_error (lit "send_request") e) | None => mret tt end;
  _ ← did (Requested build_connect_request.1 build_connect_request.2);
  status ← answer (masque_error (lit "await response")) (o_status o);
  if (200 <=? status) && (status <? 300) then mret tt
  else fails (Error.Masque (lit "h2 connect-ip status " ++ dec status)).

End connecting.

(** ** The send task *)

(** What the task accepts besides the packets. *)
Inductive SenderMsg := Capsule (framed : bytes) | Finish.

(** The room the connection gives: how much there is when it is asked for, what each wait for
    more brings ([None]: the stream is over), and the error of the write. *)
Record Room := mkRoom { room : Z; grants : list (option (Z + bytes)); send_error : option bytes }.

(** [while send.capacity() < len] *)
Fixpoint await_capacity (len : Z) (capacity : Z) (polls : list (option (Z + bytes))) : M unit :=
  if len <=? capacity then mret tt
  else match polls with
       | [] => waits
       | Some (inl capacity) :: polls => await_capacity len capacity polls
       | Some (inr e) :: _ => fails (masque_error (lit "h2 capacity") e)
       | None :: _ => fails (Error.Masque (lit "h2 stream closed"))
       end.

Definition send_capsule (r : Room) (data : bytes) : M unit :=
  if blen data =? 0 then mret tt
  else
    _ ← await_capacity (blen data) (room r) (grants r);
    match send_error r with Some e => fails (masque_error (lit "h2 send_data") e) | None => did (Wrote data) end.

(** Encoding a capsule in memory does not fail; a panic of the encoder is the task's. *)
Definition framed {A} (r : res unit A) : M A := lift (match r with Ok a => Ok a | _ => Panic end).

(** What is queued behind a packet rides along: [batch] and what stays in the queue. *)
Fixpoint gather (batch : bytes) (queue : list bytes) : res unit (bytes * list bytes) :=
  match queue with
  | [] => Ok (batch, [])
  | next :: rest =>
      if blen batch <? H2_SEND_BATCH_BYTES
      then batch ← Masque.append_datagram_capsule batch next; gather batch rest
      else Ok (batch, queue)
  end.

(** What the task is woken for: a message, or packets that were put in the queue since it
    looked last; [outbound_over]: nobody puts any more in. *)
Inductive Woken :=
| FromControl (msg : option SenderMsg) (r : Room)
| FromOutbound (arrived : list bytes) (outbound_over : bool) (r : Room).

Definition end_stream (queue : list bytes) : M (option (list bytes)) := _ ← did EndStream; mret None.

(** A turn of the task: what is left in the queue, or its end. *)
Definition pump_turn (queue : list bytes) (w : Woken) : M (option (list bytes)) :=
  match w with
  | FromControl (Some (Capsule data)) r => _ ← send_capsule r data; mret (Some queue)
  | FromControl (Some Finish) _ | FromControl None _ => end_stream queue
  | FromOutbound arrived outbound_over r =>
      match queue ++ arrived with
      | [] => if outbound_over then end_stream [] else mret (Some [])
      | packet :: behind =>
          batch ← framed (Masque.append_datagram_capsule [] packet);
          gathered ← framed (gather batch behind);
          _ ← send_capsule r gathered.1;
          mret (Some gathered.2)
      end
  end.

(** The turns up to now: the queue, or [None] when the task is over. *)
Fixpoint pump_turns (queue : list bytes) (l : list Woken) : M (option (list bytes)) :=
  match l with
  | [] => mret (Some queue)
  | w :: l =>
      left_ ← pump_turn queue w;
      match left_ with Some queue => pump_turns queue l | None => mret None end
  end.
Definition pump_outbound (l : list Woken) : M unit :=
  left_ ← pump_turns [] l;
  match left_ with Some _ => waits | None => mret tt end.

(** ** The check of a gateway *)

(** What wakes the check: a chunk of the answer, each of the probes it may make the check send
    with its room, the end of the answer, and the time to send the probe again. *)
Inductive Event :=
| Chunk (data : bytes) (rooms : list Room)
| BodyFailed (e : bytes)
| BodyOver
| Resend (r : Room).

Section verifying.
Context `{UnicodeCase}.
Variable cfg : H2TunnelConfig.
Variable env : bytes -> option bytes.
Variable upstream : bool.
Variable probe : bytes.

Definition send_probe (r : Room) : M unit := data ← framed (Masque.encode_datagram_capsule probe); send_capsule r data.

(** The capsules of the buffer; whether enough of them were datagrams.  [fuel]: each takes
    bytes off the buffer. *)
Fixpoint count_datagrams (fuel : nat) (p : Masque.CapsuleParser) (successes : Z) (rooms : list Room) : M (bool * (Masque.CapsuleParser * Z)) :=
  match fuel with
  | O => mret (false, (p, successes))
  | S fuel =>
      match Masque.next p with
      | (p, Ok (Some (Masque.CDatagram _))) =>
          let successes := successes + 1 in
          if DATA_PROBE_REQUIRED_SUCCESSES <=? successes then mret (true, (p, successes))
          else match rooms with
               | [] => waits
               | r :: rooms => _ ← send_probe r; count_datagrams fuel p successes rooms
               end
      | (p, Ok (Some _)) => count_datagrams fuel p successes rooms
      | (p, Ok None) | (p, Err _) => mret (false, (p, successes))
      | (_, Panic) => lift Panic
      end
  end.

Fixpoint verify_loop (events : list Event) (p : Masque.CapsuleParser) (successes : Z) : M unit :=
  match events with
  | [] => waits
  | Chunk data rooms :: events =>
      let p := Masque.push p data in
      counted ← count_datagrams (S (length p)) p successes rooms;
      if counted.1 : bool then mret tt else verify_loop events counted.2.1 counted.2.2
  | BodyFailed e :: _ => fails (masque_error (lit "h2 body") e)
  | BodyOver :: _ => fails (Error.Masque (lit "h2 stream closed before data"))
  | Resend r :: events => _ ← send_probe r; verify_loop events p successes
  end.

Definition verify_attempt (o : Opening) (first : Room) (events : list Event) : M unit :=
  _ ← open cfg env upstream false o;
  if negb (data_check_enabled env) then mret tt
  else _ ← send_probe first; verify_loop events Masque.CapsuleParser_new 0.

(** What came before the time was up decides; [elapsed]: the time it took. *)
Definition verify_h2 (elapsed : Z) (o : Opening) (first : Room) (events : list Event) : res AetherError Z * list Act :=
  match verify_attempt o first events [] with
  | (Some (Ok _), l) => (Ok elapsed, l)
  | (Some (Err e), l) => (Err e, l)
  | (Some Panic, l) => (Panic, l)
  | (None, l) => (Err (Other (lit "h2 verify timeout")), l)
  end.
End verifying.

(** ** The tunnel *)

Record Run := mkRun {
  control : Masque.Chan SenderMsg;
  capsules : Masque.CapsuleParser;
  ready_tx : bool;
  ready_fired : bool;
  validate_deadline : option Z;
  validate_successes : Z;
  awaiting_pong : bool;
  pong_deadline : option Z;
  acts : list Act;
}.

(** The branch of the select that runs.  A chunk comes with the channels its capsules go
    into, as they are then. *)
Inductive Branch :=
| KeepaliveTick (ping : option bytes) (now : Z)
| Pong (error : option bytes)
| ProbeTick
| PongDue
| Command (c : option Quic.Control)
| SenderOver (outcome : option (res AetherError unit))
| Body (data : bytes) (inbound : Masque.Chan bytes) (addrs : option (Masque.Chan (IpAddr * Z)))
| BodyError (e : bytes)
| BodyEnd.

(** A turn: the time at its top, how many messages the send task has taken since the last
    one, whether it is gone, what it does while the tunnel waits to put the last one in (takes
    another, is gone, or neither), and the branch. *)
Record Turn := mkTurn { t_now : Z; t_taken : nat; t_gone : bool; t_makes_room : option bool; t_branch : Branch }.

(** The tunnel goes on, ends, or waits for ever. *)
Inductive Out := Goes | Ends (r : res AetherError unit) | Stuck.

Definition set_control (c : Masque.Chan SenderMsg) (s : Run) : Run :=
  mkRun c (capsules s) (ready_tx s) (ready_fired s) (validate_deadline s) (validate_successes s) (awaiting_pong s) (pong_deadline s) (acts s).
Definition set_capsules (p : Masque.CapsuleParser) (s : Run) : Run :=
  mkRun (control s) p (ready_tx s) (ready_fired s) (validate_deadline s) (validate_successes s) (awaiting_pong s) (pong_deadline s) (acts s).
Definition set_pong (awaiting : bool) (deadline : option Z) (s : Run) : Run :=
  mkRun (control s) (capsules s) (ready_tx s) (ready_fired s) (validate_deadline s) (validate_successes s) awaiting deadline (acts s).
Definition succeeded (s : Run) : Run :=
  mkRun (control s) (capsules s) (ready_tx s) (ready_fired s) (validate_deadline s) (validate_successes s + 1) (awaiting_pong s) (pong_deadline s) (acts s).
Definition act (a : Act) (s : Run) : Run :=
  mkRun (control s) (capsules s) (ready_tx s) (ready_fired s) (validate_deadline s) (validate_successes s) (awaiting_pong s) (pong_deadline s) (a :: acts s).
Definition fire (s : Run) : Run :=
  mkRun (control s) (capsules s) false true None (validate_successes s) (awaiting_pong s) (pong_deadline s) (if ready_tx s then Ready :: acts s else acts s).

(** [sender_tx.try_send]: a message that finds no room is dropped. *)
Definition tell (framed : bytes) (s : Run) : Run :=
  match Masque.try_send (control s) (Capsule framed) with
  | (c, Masque.Sent) => act (Told framed) (set_control c s)
  | _ => s
  end.

(** What the send task has done meanwhile. *)
Definition taken (t : Turn) (s : Run) : Run :=
  set_control (Masque.mkChan (drop (t_taken t) (Masque.items (control s))) SENDER_QUEUE (Masque.closed (control s) || t_gone t)) s.

Definition close_sender (t : Turn) (r : res AetherError unit) (s : Run) : Out * Run :=
  match Masque.try_send (control s) Finish with
  | (c, Masque.Sent) => (Ends r, act ToldFinish (set_control c s))
  | (_, Masque.Closed) => (Ends r, s)
  | (_, Masque.Full) => match t_makes_room t with Some true => (Ends r, act ToldFinish s) | Some false => (Ends r, s) | None => (Stuck, s) end
  end.

Section tunnel.
Context `{UnicodeCase}.
Variable cfg : H2TunnelConfig.
Variable env : bytes -> option bytes.
Variable upstream : bool.
(** The probe, framed. *)
Variable probe : bytes.

Definition is_due (deadline : option Z) (now : Z) : bool := match deadline with Some dl => dl <=? now | None => false end.

Definition receive (data : bytes) (inbound : Masque.Chan bytes) (addrs : option (Masque.Chan (IpAddr * Z))) (s : Run) : Out * Run :=
  match Masque.drain_capsules (Masque.mkDrain (Masque.push (capsules s) data) inbound addrs false) with
  | None => (Ends Panic, s)
  | Some d =>
      let s := act (Handed (Masque.items (Masque.d_inbound d)) (Masque.d_delivered d)) (set_capsules (Masque.d_parser d) s) in
      (Goes,
       if Masque.d_delivered d && negb (ready_fired s) then
         let s := succeeded s in
         if DATA_PROBE_REQUIRED_SUCCESSES <=? validate_successes s then fire s else tell probe s
       else s)
  end.

(** A branch whose guard is off is not taken. *)
Definition select (t : Turn) (s : Run) : Out * Run :=
  match t_branch t with
  | KeepaliveTick ping now =>
      (Goes, if ready_fired s && negb (awaiting_pong s) then
               match ping with
               | None => act Pinged (set_pong true (Some (now + h2_keepalive_timeout env)) s)
               | Some _ => s
               end
             else s)
  | Pong error =>
      if awaiting_pong s then
        match error with
        | None => (Goes, act Ponged (set_pong false None s))
        | Some e => close_sender t (Err (masque_error (lit "h2 keepalive") e)) s
        end
      else (Goes, s)
  | ProbeTick => (Goes, if data_check_enabled env && negb (ready_fired s) then tell probe s else s)
  | PongDue => (Goes, s)
  | Command c =>
      match c with
      | Some Quic.Close | None => close_sender t (Ok tt) s
      | Some Quic.Migrate => (Goes, s)
      end
  | SenderOver outcome => (Ends match outcome with Some r => r | None => Err (Error.Masque (lit "h2 send task stopped")) end, s)
  | Body data inbound addrs => receive data inbound addrs s
  | BodyError e => (Ends (Err (masque_error (lit "h2 body") e)), s)
  | BodyEnd => (Ends (Ok tt), s)
  end.

Definition turn (t : Turn) (s : Run) : Out * Run :=
  let s := taken t s in
  if data_check_enabled env && negb (ready_fired s) && is_due (validate_deadline s) (t_now t) then
    close_sender t (Err (Error.Masque (lit "h2 data-plane validation timeout (handshake ok, no traffic)"))) s
  else if is_due (pong_deadline s) (t_now t) then close_sender t (Err (Error.Masque (lit "h2 keepalive timeout"))) s
  else select t s.

Fixpoint run_turns (turns : list Turn) (s : Run) : Out * Run :=
  match turns with
  | [] => (Goes, s)
  | t :: turns => match turn t s with (Goes, s) => run_turns turns s | r => r end
  end.

(** The tunnel once its request is answered: [gone], the send task is over before the first
    probe is put in its queue; [now], the time it starts to count. *)
Definition begin (gone : bool) (now : Z) (ready : bool) (l : list Act) : Run :=
  let s := mkRun (Masque.mkChan [] SENDER_QUEUE gone) Masque.CapsuleParser_new ready false None 0 false None l in
  if data_check_enabled env then
    let s := tell probe s in
    mkRun (control s) (capsules s) (ready_tx s) (ready_fired s) (Some (now + validation_timeout env)) (validate_successes s) (awaiting_pong s) (pong_deadline s) (acts s)
  else fire s.

Definition run (ready : bool) (o : Opening) (gone : bool) (now : Z) (turns : list Turn) : Out * Run :=
  match open cfg env upstream true o [] with
  | (Some (Ok _), l) => run_turns turns (begin gone now ready l)
  | (Some (Err e), l) => (Ends (Err e), mkRun (Masque.mkChan [] SENDER_QUEUE true) [] ready false None 0 false None l)
  | (Some Panic, l) => (Ends Panic, mkRun (Masque.mkChan [] SENDER_QUEUE true) [] ready false None 0 false None l)
  | (None, l) => (Goes, mkRun (Masque.mkChan [] SENDER_QUEUE true) [] ready false None 0 false None l)
  end.
End tunnel.

(** The times of the environment are between a second and a day. *)
Lemma settings_are_bounded env : 1 <= validation_timeout env <= 86400 /\ 1 <= h2_keepalive_interval env <= 86400 /\ 1 <= h2_keepalive_timeout env <= 86400.
Proof.
  assert (forall name dflt, 1 <= dflt <= 86400 -> 1 <= secs_setting env name dflt <= 86400) as H; [|split_and!; apply H; lia].
  intros name dflt Hd. unfold secs_setting. destruct (env name) as [v|]; [|done]. cbn [mbind option_bind]. destruct (parse_u64 v) as [n|]; [|done]. cbn [mbind option_bind].
  unfold default, from_option, id. destruct (Z.ltb_spec 0 n); lia.
Qed.

(** ** The key of a connection *)

Fixpoint key_of (l : list Act) : option (option bytes) :=
  match l with [] => None | Connected key :: _ => Some key | _ :: l => key_of l end.
Fixpoint over_key (l : list Act) : bool :=
  match l with
  | [] => false
  | Up accepted :: l => match key_of l with Some None => true | Some (Some _) => accepted | None => false end
  | Connected _ :: _ => false
  | _ :: l => over_key l
  end.
Definition carried (a : Act) : bool := match a with Requested _ _ | Wrote _ | Told _ => true | _ => false end.
Definition sent_over_key (l : list Act) : Prop := forall later a earlier, l = later ++ a :: earlier -> carried a = true -> over_key earlier = true.
Definition keys (l : list Act) : list (option bytes) := omap (fun a => match a with Connected key => Some key | _ => None end) l.
Definition keys_offered (key0 : option bytes) (handed : bytes -> Prop) (l : list Act) : Prop :=
  keys l = [] \/ keys l = [key0] \/ exists retry, keys l = [Some retry; key0] /\ is_Some key0 /\ handed retry.

(** From [P], a step that gives a value ends in [Q], any other way out, waiting included, in [E]. *)
Definition log_triple {A} (P : list Act -> Prop) (Q : A -> list Act -> Prop) (E : list Act -> Prop) (m : M A) : Prop :=
  forall l, P l -> match m l with (Some (Ok a), l') => Q a l' | (_, l') => E l' end.

Lemma log_ret {A} (P E : list Act -> Prop) (a : A) : log_triple P (fun _ => P) E (mret a).
Proof. by intros l Hl. Qed.
Lemma log_lift {A} (P E : list Act -> Prop) (r : res AetherError A) : (forall l, P l -> E l) -> log_triple P (fun _ => P) E (lift r).
Proof. intros H l Hl. destruct r; cbn; auto. Qed.
Lemma log_fails {A} (P : list Act -> Prop) Q (E : list Act -> Prop) e : (forall l, P l -> E l) -> log_triple P Q E (@fails A e).
Proof. intros H l Hl. by apply H. Qed.
Lemma log_waits {A} (P : list Act -> Prop) Q (E : list Act -> Prop) : (forall l, P l -> E l) -> log_triple P Q E (@waits A).
Proof. intros H l Hl. by apply H. Qed.
Lemma log_bind {A B} P (Q : A -> list Act -> Prop) (R : B -> list Act -> Prop) E (m : M A) (f : A -> M B) :
  log_triple P Q E m -> (forall a, log_triple (Q a) R E (f a)) -> log_triple P R E (m ≫= f).
Proof. intros Hm Hf l Hl. specialize (Hm l Hl). unfold mbind, M_bind. destruct (m l) as [[[a|e|]|] l']; [by apply Hf|done..]. Qed.
(** The step keeps [P]. *)
Definition steady {A} (P E : list Act -> Prop) (m : M A) : Prop := log_triple P (fun _ => P) E m.
Lemma steady_answer {A} (P E : list Act -> Prop) err (a : Answer A) : (forall l, P l -> E l) -> steady P E (answer err a).
Proof. intros H l Hl. destruct a; cbn; auto. Qed.

(** Before a handshake, after one that was good, and on any other way out. *)
Definition nothing_carried (l : list Act) : Prop := forallb (fun a => negb (carried a)) l = true.
Definition before (key0 : option bytes) (handed : bytes -> Prop) (ech : option bytes) (retried : bool) (l : list Act) : Prop :=
  nothing_carried l /\
  if retried then keys l = [key0] /\ is_Some key0 /\ exists retry, ech = Some retry /\ handed retry
  else keys l = [] /\ ech = key0.
Definition broken (key0 : option bytes) (handed : bytes -> Prop) (l : list Act) : Prop := sent_over_key l /\ keys_offered key0 handed l.
Definition over (key0 : option bytes) (handed : bytes -> Prop) (l : list Act) : Prop := broken key0 handed l /\ over_key l = true.

Lemma nothing_sent l : nothing_carried l -> sent_over_key l.
Proof.
  intros Hn later a earlier -> Ha. unfold nothing_carried in Hn. rewrite forallb_app in Hn. cbn [forallb] in Hn. rewrite Ha in Hn.
  by rewrite andb_false_r in Hn.
Qed.
Lemma before_broken key0 handed ech retried l : before key0 handed ech retried l -> broken key0 handed l.
Proof. intros [Hn Hk]. split; [by apply nothing_sent|]. destruct retried; [right; left|left]; by destruct Hk. Qed.

(** A server turned the key down and handed a key back with the failed handshake. *)
Definition hands_back (t : Try) (retry : bytes) : Prop :=
  exists message, y_shake t = ShakeFailed message (Some retry) /\ rejected_ech message = true /\ usable_retry retry = Some retry.

Lemma retry_usable ech retried message configs retry : retry_of ech retried message configs = Some retry ->
  retried = false /\ is_Some ech /\ configs = Some retry /\ rejected_ech message = true /\ usable_retry retry = Some retry.
Proof.
  unfold retry_of. destruct retried; [done|]. case_bool_decide as He; [|done]. destruct (rejected_ech message); [|done]. cbn [negb andb].
  destruct configs as [c|]; [|done]. cbn [mbind option_bind]. case_bool_decide; [done|]. intros Hu.
  unfold usable_retry in Hu |- *. destruct (Tls.check_ech_config_list c) eqn:Hc; [|done..]. injection Hu as <-. by rewrite Hc.
Qed.

Section handshake.
Context `{UnicodeCase}.
Variable cfg : H2TunnelConfig.
Variable env : bytes -> option bytes.
Variable upstream : bool.
Variable handed : bytes -> Prop.
Local Abbreviation key0 := (ech_config_list cfg).

(** A try that is over went over its key; one to be made again has a key to offer. *)
Lemma attempt_spec ech retried t : (retried = false -> forall retry, hands_back t retry -> handed retry) ->
  log_triple (before key0 handed ech retried)
    (fun again => match again with Some retry => before key0 handed (Some retry) true | None => over key0 handed end) (broken key0 handed) (attempt cfg env upstream ech retried t).
Proof.
  intros Hhand. unfold attempt. pose proof (before_broken key0 handed ech retried) as Hb.
  eapply log_bind; [by apply log_lift|]. intros [].
  eapply (log_bind _ (fun _ => before key0 handed ech retried)).
  { destruct ech as [list|]; [|apply log_ret]. eapply log_bind; [by apply log_lift|]. intros []. destruct (y_set_ech t); [by apply log_fails|apply log_ret]. }
  intros []. eapply (log_bind _ (fun _ => before key0 handed ech retried)).
  { intros l [Hn Hk]. split; [done|]. destruct retried; exact Hk. }
  intros []. eapply (log_bind _ (fun _ => before key0 handed ech retried)). { destruct (y_dial t); [by apply log_lift|by apply log_waits]. }
  intros []. intros l [Hn Hk]. unfold mbind at 1, M_bind at 1, did at 1.
  assert (nothing_carried (Connected ech :: l)) as Hc by done.
  assert (keys_offered key0 handed (Connected ech :: l)) as Hko.
  { unfold keys_offered. change (keys (Connected ech :: l)) with (ech :: keys l). destruct retried.
    - destruct Hk as (-> & Hs & retry & -> & Hu). right; right. eauto.
    - destruct Hk as (-> & ->). by right; left. }
  assert (forall a, carried a = false -> keys (a :: Connected ech :: l) = keys (Connected ech :: l) -> broken key0 handed (a :: Connected ech :: l)) as Hbr.
  { intros a Ha Hkeys. split; [apply nothing_sent; unfold nothing_carried; cbn [forallb]; rewrite Ha; exact Hc|]. unfold keys_offered. rewrite Hkeys. exact Hko. }
  destruct (y_shake t) as [|accepted|message configs] eqn:Hshake.
  - split; [by apply nothing_sent|done].
  - unfold mbind, M_bind, did. case_bool_decide as He; cbn [andb].
    + destruct accepted; cbn [negb fails lift mret M_ret]; [|by apply Hbr]. split; [by apply Hbr|]. destruct He as [? ->]. done.
    + cbn [mret M_ret]. split; [by apply Hbr|]. destruct ech; [by destruct He; eauto|done].
  - destruct (retry_of ech retried message configs) as [retry|] eqn:Hr; [|split; [by apply nothing_sent|done]].
    destruct (retry_usable _ _ _ _ _ Hr) as (-> & Hs & -> & Hrej & Hu). assert (handed retry) by (apply Hhand; [done|by exists message]). destruct Hk as [Hk ->]. unfold mbind, M_bind, did. cbn [mret M_ret]. split; [done|].
    change (keys (Adopted retry :: Connected key0 :: l)) with (key0 :: keys l). rewrite Hk. eauto.
Qed.

Lemma connect_spec tries : forall ech retried, (retried = false -> forall t retry, head tries = Some t -> hands_back t retry -> handed retry) ->
  log_triple (before key0 handed ech retried) (fun _ => over key0 handed) (broken key0 handed) (connect_loop cfg env upstream tries ech retried).
Proof.
  induction tries as [|t tries IH]; intros ech retried Hhand; cbn [connect_loop]; [apply log_waits, before_broken|].
  eapply log_bind; [apply attempt_spec; intros Hr retry; by apply Hhand|].
  intros [retry|]; [by apply IH|apply log_ret].
Qed.

(** A handshake that was turned down is made again once: two tries that do not wait settle it. *)
Lemma connect_tls_ends t1 t2 rest l :
  Forall (fun t => is_Some (y_dial t) /\ y_shake t <> ShakeWaits) [t1; t2] -> (connect_tls cfg env upstream (t1 :: t2 :: rest) l).1 <> None.
Proof.
  intros Ht. assert (forall t ech retried l, is_Some (y_dial t) /\ y_shake t <> ShakeWaits ->
    match attempt cfg env upstream ech retried t l with (None, _) => False | (Some (Ok (Some _)), _) => retried = false | _ => True end) as Ha.
  { clear. intros t ech retried l [[dialled Hd] Hs]. unfold attempt, mbind, M_bind, lift, did. rewrite Hd.
    destruct (build_tls _ _ _ _) as [?|?|]; [|done..]. 
    destruct ech as [list|]; [destruct (ensure_offerable list); [|done..]; destruct (y_set_ech t); [done|]|]; cbn [mret M_ret];
      (destruct dialled; [|done..]); (destruct (y_shake t) as [|accepted|message configs]; [done|by destruct (bool_decide _ && negb accepted)|]);
      (destruct (retry_of _ _ _ _) eqn:Hr; [|done]); by apply retry_usable in Hr as [-> _]. }
  apply Forall_cons in Ht as [H1 Ht]. apply Forall_cons in Ht as [H2 _]. unfold connect_tls. cbn [connect_loop].
  specialize (Ha t1 (ech_config_list cfg) false l H1) as Ha1. unfold mbind at 1, M_bind at 1. destruct (attempt _ _ _ _ _ t1 l) as [[[[retry|]|?|]|] l1]; try done.
  specialize (Ha t2 (Some retry) true l1 H2) as Ha2. unfold mbind, M_bind. by destruct (attempt _ _ _ _ _ t2 l1) as [[[[?|]|?|]|] l2].
Qed.
End handshake.

(** ** What goes over the connection *)

(** An act that says nothing of the connection. *)
Definition plain (a : Act) : bool := match a with Connected _ | Up _ => false | _ => true end.

Lemma over_plain key0 handed a l : plain a = true -> over key0 handed l -> over key0 handed (a :: l).
Proof.
  intros Ha [[Hs Hk] Ho]. assert (keys (a :: l) = keys l /\ over_key (a :: l) = over_key l) as [E1 E2] by (by destruct a).
  split; [|by rewrite E2]. split; [|unfold keys_offered; by rewrite E1].
  intros later b earlier E Hb. destruct later as [|c later]; injection E as -> E; [by subst|]. by apply (Hs later b).
Qed.
Lemma over_broken key0 handed l : over key0 handed l -> broken key0 handed l.
Proof. by intros [H _]. Qed.

Section carrying.
Context `{UnicodeCase}.
Variable cfg : H2TunnelConfig.
Variable env : bytes -> option bytes.
Variable upstream : bool.
Variable handed : bytes -> Prop.
Local Abbreviation key0 := (ech_config_list cfg).
Local Abbreviation calm m := (steady (over key0 handed) (broken key0 handed) m).

Lemma calm_did a : plain a = true -> calm (did a).
Proof. intros Ha l Hl. by apply over_plain. Qed.
Lemma calm_lift {A} (r : res AetherError A) : calm (lift r).
Proof. apply log_lift, over_broken. Qed.
Lemma calm_fails {A} e : calm (@fails A e).
Proof. apply log_fails, over_broken. Qed.
Lemma calm_waits {A} : calm (@waits A).
Proof. apply log_waits, over_broken. Qed.
Lemma calm_ret {A} (a : A) : calm (mret a).
Proof. apply log_ret. Qed.
Lemma calm_answer {A} err (a : Answer A) : calm (answer err a).
Proof. apply steady_answer, over_broken. Qed.
Lemma calm_bind {A B} (m : M A) (f : A -> M B) : calm m -> (forall a, calm (f a)) -> calm (m ≫= f).
Proof. apply log_bind. Qed.

(** Goes through the steps of a program. *)
Ltac calm_steps :=
  repeat match goal with
  | |- steady _ _ (_ ≫= _) => apply calm_bind; [|intros ?]
  | |- steady _ _ (mret _) => apply calm_ret
  | |- steady _ _ (fails _) => apply calm_fails
  | |- steady _ _ (lift _) => apply calm_lift
  | |- steady _ _ (framed _) => apply calm_lift
  | |- steady _ _ waits => apply calm_waits
  | |- steady _ _ (answer _ _) => apply calm_answer
  | |- steady _ _ (did _) => by apply calm_did
  | |- steady _ _ (match ?x with _ => _ end) => destruct x
  end.

Lemma calm_await len polls : forall capacity, calm (await_capacity len capacity polls).
Proof.
  induction polls as [|[[c|e]|] polls IH]; intros capacity; cbn [await_capacity]; calm_steps; apply IH.
Qed.
Lemma calm_send r data : calm (send_capsule r data).
Proof. unfold send_capsule. destruct (blen data =? 0); [apply calm_ret|]. apply calm_bind; [apply calm_await|]. intros ?. calm_steps. Qed.
Lemma calm_probe probe r : calm (send_probe probe r).
Proof. unfold send_probe. calm_steps. apply calm_send. Qed.
Lemma calm_count probe fuel : forall p n rooms, calm (count_datagrams probe fuel p n rooms).
Proof.
  induction fuel as [|fuel IH]; intros p n rooms; cbn [count_datagrams]; calm_steps; first [apply calm_probe|apply IH].
Qed.
Lemma calm_verify probe events : forall p n, calm (verify_loop probe events p n).
Proof.
  induction events as [|e events IH]; intros p n; cbn [verify_loop]; [apply calm_waits|].
  destruct e; calm_steps; first [apply calm_count|apply calm_probe|apply IH].
Qed.
(** The first try of an opening hands back nothing else. *)
Definition first_hands (o : Opening) : Prop := forall t retry, head (o_tries o) = Some t -> hands_back t retry -> handed retry.
Lemma open_spec pings o : first_hands o ->
  log_triple (before key0 handed key0 false) (fun _ => over key0 handed) (broken key0 handed) (open cfg env upstream pings o).
Proof. intros Hh. unfold open, connect_tls. eapply log_bind; [by apply connect_spec|]. intros [].
  match goal with |- log_triple _ _ _ ?m => change (calm m) end. calm_steps.
Qed.
Lemma before_start : before key0 handed key0 false [].
Proof. done. Qed.

(** Each step of the tunnel keeps the log over its key. *)
Lemma over_tell probe s : over key0 handed (acts s) -> over key0 handed (acts (tell probe s)).
Proof. unfold tell. destruct (Masque.try_send _ _) as [c []]; [|done..]. by apply over_plain. Qed.
Lemma over_fire s : over key0 handed (acts s) -> over key0 handed (acts (fire s)).
Proof. unfold fire. cbn [acts]. destruct (ready_tx s); [by apply over_plain|done]. Qed.
Lemma over_close t r s : over key0 handed (acts s) -> over key0 handed (acts (close_sender t r s).2).
Proof.
  unfold close_sender. intros Ho. destruct (Masque.try_send _ _) as [c []]; [by apply over_plain| |done].
  destruct (t_makes_room t) as [[]|]; [by apply over_plain|done..].
Qed.
Lemma over_receive probe data inbound addrs s : over key0 handed (acts s) -> over key0 handed (acts (receive probe data inbound addrs s).2).
Proof.
  unfold receive. intros Ho. destruct (Masque.drain_capsules _) as [d|]; [|done]. cbn [snd].
  assert (over key0 handed (acts (act (Handed (Masque.items (Masque.d_inbound d)) (Masque.d_delivered d)) (set_capsules (Masque.d_parser d) s)))) as Ho' by by apply over_plain.
  destruct (_ && _); [|done]. destruct (_ <=? _); [by apply over_fire|by apply over_tell].
Qed.
Lemma over_turn probe t s : over key0 handed (acts s) -> over key0 handed (acts (turn env probe t s).2).
Proof.
  intros Ho. unfold turn. destruct (_ && _ && _); [by apply over_close|]. destruct (is_due _ _); [by apply over_close|].
  unfold select. destruct (t_branch t) as [ping now|error| | |c|outcome|data inbound addrs|e|]; cbn [snd]; try exact Ho.
  - destruct (_ && _); [|done]. destruct ping; [done|]. by apply over_plain.
  - destruct (awaiting_pong _); [|done]. destruct error; [by apply over_close|]. by apply over_plain.
  - destruct (_ && _); [by apply over_tell|done].
  - destruct c as [[]|]; [done|by apply over_close..].
  - by apply over_receive.
Qed.
Lemma over_turns probe turns : forall s, over key0 handed (acts s) -> over key0 handed (acts (run_turns env probe turns s).2).
Proof.
  induction turns as [|t turns IH]; intros s Ho; cbn [run_turns]; [done|]. pose proof (over_turn probe t s Ho) as Ht.
  destruct (turn env probe t s) as [[] s1]; cbn [snd] in *; [by apply IH|done..].
Qed.
Lemma over_begin probe gone now ready l : over key0 handed l -> over key0 handed (acts (begin env probe gone now ready l)).
Proof.
  intros Ho. unfold begin. destruct (data_check_enabled env); [|by apply over_fire]. cbn [acts]. by apply over_tell.
Qed.

Lemma run_broken probe ready o gone now turns : first_hands o -> broken key0 handed (acts (run cfg env upstream probe ready o gone now turns).2).
Proof.
  intros Hh. unfold run. pose proof (open_spec true o Hh [] before_start) as Ho. destruct (open _ _ _ _ _ _) as [[[[]|e|]|] l]; [|exact Ho..].
  apply over_broken, over_turns, over_begin, Ho.
Qed.
Lemma verify_broken probe elapsed o first events : first_hands o -> broken key0 handed (verify_h2 cfg env upstream probe elapsed o first events).2.
Proof.
  intros Hh. assert (log_triple (before key0 handed key0 false) (fun _ => over key0 handed) (broken key0 handed) (verify_attempt cfg env upstream probe o first events)) as Hv.
  { eapply log_bind; [by apply open_spec|]. intros []. destruct (negb _); [apply log_ret|]. eapply log_bind; [apply calm_probe|]. intros []. apply calm_verify. }
  specialize (Hv [] before_start). unfold verify_h2. destruct (verify_attempt _ _ _ _ _ _ _ []) as [[[[]|e|]|] l]; [by apply over_broken|exact Hv..].
Qed.
End carrying.

(** C9.  Whatever the network does, the tunnel over HTTP/2 and the check of a gateway send their
    request, their probes and their packets only over a handshake that is over and, when a key
    was offered, that took it.  They shake hands with the key of the settings, and at most once
    more, when the first offered a key: with the one that the server handed back when it turned
    that one down, in the first of the tries, and only one that can be offered; two tries the
    network answers settle it. *)
Theorem h2_sends_over_its_key `{UnicodeCase} cfg env upstream probe tries l :
  (exists ready o gone now turns, o_tries o = tries /\ l = acts (run cfg env upstream probe ready o gone now turns).2) \/
  (exists elapsed o first events, o_tries o = tries /\ l = (verify_h2 cfg env upstream probe elapsed o first events).2) ->
  (forall later a earlier, l = later ++ a :: earlier -> carried a = true -> over_key earlier = true) /\
  (keys l = [] \/ keys l = [ech_config_list cfg] \/
   exists retry, keys l = [Some retry; ech_config_list cfg] /\ is_Some (ech_config_list cfg) /\
     exists t, head tries = Some t /\ hands_back t retry) /\
  (forall t1 t2 rest, Forall (fun t => is_Some (y_dial t) /\ y_shake t <> ShakeWaits) [t1; t2] ->
   (connect_tls cfg env upstream (t1 :: t2 :: rest) []).1 <> None).
Proof.
  intros Hl. assert (broken (ech_config_list cfg) (fun retry => exists t, head tries = Some t /\ hands_back t retry) l) as [Hs Hk].
  { destruct Hl as [(ready & o & gone & now & turns & <- & ->)|(elapsed & o & first & events & <- & ->)]; [apply run_broken|apply verify_broken]; intros t retry; by eauto. }
  split; [exact Hs|]. split; [exact Hk|]. intros t1 t2 rest. apply connect_tls_ends.
Qed.

(** ** The upload *)

(** The capsule of a packet, as the task frames it: without a context identifier. *)
Definition datagram (pkt : bytes) : Z * bytes := (Masque.CAPSULE_DATAGRAM, pkt).
Definition framed_packet (pkt : bytes) : bytes := Masque.enc_capsule (datagram pkt).
Definition framed_packets (pkts : list bytes) : bytes := Masque.enc_stream (map datagram pkts).
Definition packet_ok (pkt : bytes) : Prop := all_bytes pkt /\ blen pkt <= U16_MAX.

(** What one write carries: the probe of a message, or packets gathered. *)
Inductive Piece := Probe (pkt : bytes) | Batch (pkts : list bytes).
Definition pkts_of (x : Piece) : list bytes := match x with Probe pkt => [pkt] | Batch pkts => pkts end.
Definition probes (l : list Piece) : list bytes := omap (fun x => match x with Probe pkt => Some pkt | Batch _ => None end) l.
Definition batches (l : list Piece) : list (list bytes) := omap (fun x => match x with Probe _ => None | Batch pkts => Some pkts end) l.
(** A batch is not empty, and was short of the limit before its last packet. *)
Definition piece_ok (x : Piece) : Prop :=
  Forall packet_ok (pkts_of x) /\
  match x with Probe _ => True | Batch pkts => pkts <> [] /\ blen (framed_packets (removelast pkts)) < H2_SEND_BATCH_BYTES end.
Definition piece_bytes (x : Piece) : bytes := framed_packets (pkts_of x).

Definition written (l : list Act) : list bytes := omap (fun a => match a with Wrote data => Some data | _ => None end) (rev l).
(** What the task is given. *)
Definition messages (l : list Woken) : list bytes := omap (fun w => match w with FromControl (Some (Capsule data)) _ => Some data | _ => None end) l.
Definition arrivals (l : list Woken) : list bytes := concat (map (fun w => match w with FromOutbound pkts _ _ => pkts | _ => [] end) l).
Definition given_ok (w : Woken) : Prop :=
  match w with
  | FromControl (Some (Capsule data)) _ => exists pkt, packet_ok pkt /\ data = framed_packet pkt
  | FromControl _ _ => True
  | FromOutbound arrived _ _ => Forall packet_ok arrived
  end.
Definition WRITE_MAX : Z := H2_SEND_BATCH_BYTES + U16_MAX + 5.
(** The connection has room for any write, and the task is not told to end. *)
Definition has_room (r : Room) : Prop := send_error r = None /\ WRITE_MAX <= room r.
Definition goes_on (w : Woken) : Prop :=
  match w with FromControl (Some (Capsule _)) r => has_room r | FromControl _ _ => False | FromOutbound _ outbound_over r => outbound_over = false /\ has_room r end.

Lemma datagram_wf pkt : packet_ok pkt -> Masque.capsule_wf (datagram pkt).
Proof. intros [Hb Hl]. unfold Masque.capsule_wf, datagram. cbn [fst snd]. unfold Masque.CAPSULE_DATAGRAM, Octets.MAX_VAR_INT, U16_MAX in *. split_and!; [lia..|done]. Qed.
Lemma append_datagram out pkt : packet_ok pkt -> Masque.append_datagram_capsule out pkt = Ok (out ++ framed_packet pkt).
Proof. intros Hp. apply Masque.append_capsule_eq. by apply datagram_wf. Qed.
Lemma framed_packets_app l k : framed_packets (l ++ k) = framed_packets l ++ framed_packets k.
Proof. unfold framed_packets, Masque.enc_stream. by rewrite map_app, map_app, concat_app. Qed.
Lemma framed_packets_one pkt : framed_packets [pkt] = framed_packet pkt.
Proof. apply app_nil_r. Qed.
Lemma blen_framed_packet pkt : packet_ok pkt -> 2 <= blen (framed_packet pkt) <= U16_MAX + 5.
Proof.
  intros [_ Hl]. split; [apply Masque.enc_capsule_long|]. unfold framed_packet. rewrite Masque.blen_enc_capsule. cbn [datagram fst snd].
  change (Octets.varint_width Masque.CAPSULE_DATAGRAM) with 1. unfold U16_MAX in *. pose proof (blen_nonneg pkt).
  assert (Octets.varint_width (blen pkt) <= 4); [|lia]. unfold Octets.varint_width. repeat case_match; lia.
Qed.

Lemma removelast_snoc {A} (l : list A) a : removelast (l ++ [a]) = l.
Proof. rewrite removelast_app by done. apply app_nil_r. Qed.

(** What is gathered: packets from the front, until the batch is long enough or none is left. *)
Lemma gather_spec queue : Forall packet_ok queue -> forall taken_, taken_ <> [] -> blen (framed_packets (removelast taken_)) < H2_SEND_BATCH_BYTES ->
  exists more rest, queue = more ++ rest /\ gather (framed_packets taken_) queue = Ok (framed_packets (taken_ ++ more), rest) /\
    blen (framed_packets (removelast (taken_ ++ more))) < H2_SEND_BATCH_BYTES /\
    (rest <> [] -> H2_SEND_BATCH_BYTES <= blen (framed_packets (taken_ ++ more))).
Proof.
  induction 1 as [|pkt queue Hp Hq IH]; intros taken_ Hne Hlt; cbn [gather].
  - exists [], []. rewrite !app_nil_r. by split_and!.
  - destruct (Z.ltb_spec (blen (framed_packets taken_)) H2_SEND_BATCH_BYTES) as [Hl|Hl].
    + rewrite append_datagram by done. cbn [mbind res_bind]. rewrite <- framed_packets_one, <- framed_packets_app.
      destruct (IH (taken_ ++ [pkt])) as (more & rest & -> & -> & H1 & H2); [by destruct taken_|by rewrite removelast_snoc|].
      exists (pkt :: more), rest. rewrite <- app_assoc in *. by split_and!.
    + exists [], (pkt :: queue). rewrite app_nil_r. by split_and!.
Qed.

Lemma written_cons data l : written (Wrote data :: l) = written l ++ [data].
Proof. unfold written. cbn [rev]. by rewrite omap_app. Qed.
Lemma written_end l : written (EndStream :: l) = written l.
Proof. unfold written. cbn [rev]. rewrite omap_app. apply app_nil_r. Qed.

Lemma await_log len polls : forall capacity l, (await_capacity len capacity polls l).2 = l.
Proof. induction polls as [|[[c|e]|] polls IH]; intros capacity l; cbn [await_capacity]; by destruct (len <=? capacity). Qed.

(** A capsule is written whole, or not at all. *)
Lemma send_spec r data l : data <> [] ->
  let out := send_capsule r data l in
  (out = (Some (Ok tt), Wrote data :: l) \/ (out.2 = l /\ forall a, out.1 <> Some (Ok a))) /\
  (has_room r -> blen data <= WRITE_MAX -> out = (Some (Ok tt), Wrote data :: l)).
Proof.
  intros Hd. cbn zeta. unfold send_capsule. destruct (Z.eqb_spec (blen data) 0) as [E|_]; [destruct data; [done|blia]|].
  unfold mbind, M_bind. pose proof (await_log (blen data) (grants r) (room r) l) as Hl. split.
  - destruct (await_capacity _ _ _ l) as [[[[]|e|]|] l1]; cbn [snd] in Hl; subst l1; [|right; split; [done|by intros []]..].
    destruct (send_error r); [right; split; [done|by intros []]|by left].
  - intros [Hn Hr] Hlen. clear Hl. destruct (grants r); cbn [await_capacity]; rewrite (proj2 (Z.leb_le _ _)) by lia; cbn [mret M_ret]; by rewrite Hn.
Qed.

(** What the task makes of what it is given, from a queue on: its writes, and what is left. *)
Record uploaded (queue : list bytes) (l : list Woken) (log : list Act) (out : option (res AetherError (option (list bytes)))) (log1 : list Act)
  (pieces : list Piece) : Prop := mkUploaded {
  up_written : written log1 = written log ++ map piece_bytes pieces;
  up_ok : Forall piece_ok pieces;
  up_probes : map framed_packet (probes pieces) `prefix_of` messages l;
  up_packets : concat (batches pieces) `prefix_of` queue ++ arrivals l;
  up_all : forall left_, out = Some (Ok (Some left_)) ->
    map framed_packet (probes pieces) = messages l /\ concat (batches pieces) ++ left_ = queue ++ arrivals l /\
    (left_ <> [] -> match last (batches pieces) with Some pkts => H2_SEND_BATCH_BYTES <= blen (framed_packets pkts) | None => left_ = queue end);
}.

(** Nothing was written. *)
Lemma uploaded_nothing queue l log out log1 : written log1 = written log -> (forall left_, out <> Some (Ok (Some left_))) -> uploaded queue l log out log1 [].
Proof. intros Hw Ho. constructor; [by rewrite app_nil_r|done|apply prefix_nil..|]. intros left_ E. by apply Ho in E. Qed.

(** One piece, and what came after it. *)
Lemma uploaded_batch queue w l log out log1 arrived pkts rest pieces :
  messages (w :: l) = messages l -> arrivals (w :: l) = arrived ++ arrivals l -> queue ++ arrived = pkts ++ rest -> piece_ok (Batch pkts) ->
  (rest <> [] -> H2_SEND_BATCH_BYTES <= blen (framed_packets pkts)) ->
  uploaded rest l (Wrote (framed_packets pkts) :: log) out log1 pieces -> uploaded queue (w :: l) log out log1 (Batch pkts :: pieces).
Proof.
  intros Hm Ha Hq Hp Hfull [H1 H2 H3 H4 H5]. constructor.
  - rewrite H1, written_cons, <- app_assoc. done.
  - by constructor.
  - by rewrite Hm.
  - rewrite Ha, app_assoc, Hq. change (concat (batches (Batch pkts :: pieces))) with (pkts ++ concat (batches pieces)). rewrite <- app_assoc. by apply prefix_app.
  - intros left_ E. destruct (H5 left_ E) as (Hs & Hc & Hl). rewrite Hm, Ha. split_and!; [exact Hs| |].
    + change (concat (batches (Batch pkts :: pieces))) with (pkts ++ concat (batches pieces)). by rewrite <- app_assoc, Hc, !app_assoc, <- Hq.
    + intros Hne. specialize (Hl Hne). change (batches (Batch pkts :: pieces)) with (pkts :: batches pieces). rewrite last_cons.
      destruct (last (batches pieces)); [done|]. subst left_. by apply Hfull.
Qed.
Lemma uploaded_probe queue w l log out log1 pkt pieces :
  messages (w :: l) = framed_packet pkt :: messages l -> arrivals (w :: l) = arrivals l -> packet_ok pkt ->
  uploaded queue l (Wrote (framed_packet pkt) :: log) out log1 pieces -> uploaded queue (w :: l) log out log1 (Probe pkt :: pieces).
Proof.
  intros Hm Ha Hp [H1 H2 H3 H4 H5]. constructor.
  - rewrite H1, written_cons, <- app_assoc. cbn [map app]. unfold piece_bytes at 2. cbn [pkts_of]. by rewrite framed_packets_one.
  - constructor; [split; [by constructor|done]|done].
  - rewrite Hm. by apply prefix_cons.
  - by rewrite Ha.
  - intros left_ E. destruct (H5 left_ E) as (Hs & Hc & Hl). rewrite Hm, Ha. split_and!; [|done|done].
    change (probes (Probe pkt :: pieces)) with (pkt :: probes pieces). cbn [map]. by rewrite Hs.
Qed.
Lemma uploaded_idle queue w l log out log1 arrived pieces : messages (w :: l) = messages l -> arrivals (w :: l) = arrived ++ arrivals l ->
  queue ++ arrived = [] -> uploaded [] l log out log1 pieces -> uploaded queue (w :: l) log out log1 pieces.
Proof.
  intros Hm Ha [-> ->]%app_eq_nil [H1 H2 H3 H4 H5]. constructor; [done|done|by rewrite Hm|by rewrite Ha|]. by rewrite Hm, Ha.
Qed.

Lemma pump_spec l : Forall given_ok l -> forall queue log, Forall packet_ok queue ->
  let out := pump_turns queue l log in
  (exists pieces, uploaded queue l log out.1 out.2 pieces) /\ (Forall goes_on l -> exists left_, out.1 = Some (Ok (Some left_))).
Proof.
  induction 1 as [|w l Hw Hl IH]; intros queue log Hq; cbn zeta; cbn [pump_turns].
  { split; [|by eauto]. exists []. constructor; [by rewrite app_nil_r|done|apply prefix_nil..|]. intros left_ [= <-]. split_and!; [done|by rewrite app_nil_r|done]. }
  unfold mbind, M_bind, pump_turn. destruct w as [[[data|]|] r|arrived outbound_over r].
  - destruct Hw as (pkt & Hp & ->). pose proof (blen_framed_packet pkt Hp) as Hlen.
    destruct (send_spec r (framed_packet pkt) log) as [Hsend Hroom]; [by intros E; rewrite E in Hlen; blia|]. unfold mbind, M_bind.
    destruct Hsend as [E|[El En]].
    + rewrite E. cbn [mret M_ret]. destruct (IH queue (Wrote (framed_packet pkt) :: log) Hq) as [(pieces & Hu) Hgo]. split.
      * exists (Probe pkt :: pieces). by eapply uploaded_probe.
      * intros [_ Hf]%Forall_cons. by apply Hgo.
    + destruct (send_capsule r (framed_packet pkt) log) as [[[[]|e|]|] l1]; cbn [fst snd] in *; subst l1; [by destruct (En ())|..];
        (split; [exists []; by apply uploaded_nothing|]; intros [Hg _]%Forall_cons; exfalso; specialize (Hroom Hg);
         unfold WRITE_MAX, H2_SEND_BATCH_BYTES in Hroom; by specialize (Hroom ltac:(lia))).
  - split; [|by intros [[] _]%Forall_cons]. exists []. apply uploaded_nothing; [apply written_end|done].
  - split; [|by intros [[] _]%Forall_cons]. exists []. apply uploaded_nothing; [apply written_end|done].
  - assert (Forall packet_ok (queue ++ arrived)) as Hqa by by apply Forall_app. 
    destruct (queue ++ arrived) as [|packet behind] eqn:Eq.
    { destruct outbound_over; [split; [exists []; apply uploaded_nothing; [apply written_end|done]|]; by intros [[[=] _] _]%Forall_cons|].
      cbn [mret M_ret]. destruct (IH [] log) as [(pieces & Hu) Hgo]; [done|]. split; [exists pieces; by eapply uploaded_idle|]. intros [_ Hf]%Forall_cons. by apply Hgo. }
    apply Forall_cons in Hqa as [Hp Hb]. rewrite append_datagram by done. unfold mbind, M_bind, framed, lift. cbn beta iota. rewrite app_nil_l, <- framed_packets_one.
    destruct (gather_spec behind Hb [packet]) as (more & rest & -> & -> & Hlt & Hfull); [done|done|]. cbn beta iota delta [fst snd].
    apply Forall_app in Hb as [Hmore Hrest].
    assert (piece_ok (Batch ([packet] ++ more))) as Hpiece by (by split; [constructor|split; [done|]]).
    assert (blen (framed_packets ([packet] ++ more)) <= WRITE_MAX) as Hlen.
    { destruct (exists_last (l := [packet] ++ more)) as (front & final & Ef); [done|]. rewrite Ef, removelast_snoc in Hlt. rewrite Ef, framed_packets_app, framed_packets_one, blen_app.
      assert (packet_ok final) as Hfin. { apply (proj1 (Forall_forall packet_ok ([packet] ++ more))); [by constructor|]. rewrite Ef. set_solver. }
      pose proof (blen_framed_packet final Hfin). unfold WRITE_MAX. lia. }
    assert (framed_packets ([packet] ++ more) <> []) as Hne.
    { change ([packet] ++ more) with (packet :: more). intros E. apply (f_equal blen) in E. change (packet :: more) with ([packet] ++ more) in E.
      rewrite framed_packets_app, framed_packets_one, blen_app, blen_nil in E. pose proof (blen_framed_packet packet Hp). pose proof (blen_nonneg (framed_packets more)). lia. }
    destruct (send_spec r _ log Hne) as [Hsend Hroom]. destruct Hsend as [E|[El En]].
    + rewrite E. destruct (IH rest (Wrote (framed_packets ([packet] ++ more)) :: log) Hrest) as [(pieces & Hu) Hgo]. split.
      * exists (Batch ([packet] ++ more) :: pieces). eapply uploaded_batch; [reflexivity|reflexivity|exact Eq|exact Hpiece|exact Hfull|exact Hu].
      * intros [_ Hf]%Forall_cons. by apply Hgo.
    + destruct (send_capsule r _ log) as [[[[]|e|]|] l1]; cbn [fst snd] in *; subst l1; [by destruct (En ())|..];
        (split; [exists []; by apply uploaded_nothing|]; intros [[_ Hg] _]%Forall_cons; exfalso; by specialize (Hroom Hg Hlen)).
Qed.

Lemma pieces_joined pieces : concat (map piece_bytes pieces) = framed_packets (concat (map pkts_of pieces)).
Proof. induction pieces as [|x pieces IH]; [done|]. cbn [map concat]. by rewrite framed_packets_app, IH. Qed.

(** A write is a batch short of the limit and one more capsule at the most. *)
Lemma piece_bound x : piece_ok x -> blen (piece_bytes x) <= WRITE_MAX.
Proof.
  intros [Hp Hx]. unfold piece_bytes, WRITE_MAX. destruct x as [pkt|pkts]; cbn [pkts_of] in *.
  - apply Forall_cons in Hp as [Hp _]. rewrite framed_packets_one. pose proof (blen_framed_packet pkt Hp). unfold H2_SEND_BATCH_BYTES. lia.
  - destruct Hx as [Hne Hlt]. destruct (exists_last Hne) as (front & final & ->). rewrite removelast_snoc in Hlt.
    apply Forall_app in Hp as [_ Hf]. apply Forall_cons in Hf as [Hf _]. rewrite framed_packets_app, framed_packets_one, blen_app. pose proof (blen_framed_packet final Hf). lia.
Qed.

(** What the edge reads, in whatever chunks it arrives. *)
Lemma pieces_read pieces chunks : Forall piece_ok pieces -> concat chunks = concat (map piece_bytes pieces) ->
  Forall (fun d => blen d + U16_MAX + 5 <= Masque.MAX_CAPSULE_BUF) chunks ->
  Masque.feed Masque.CapsuleParser_new chunks = ([], map Masque.CDatagram (concat (map pkts_of pieces))).
Proof.
  intros Hok Hc Hfit. rewrite pieces_joined in Hc. assert (Forall packet_ok (concat (map pkts_of pieces))) as Hp.
  { clear Hc. induction Hok as [|x pieces [Hx _] Hok IH]; [done|]. cbn [map concat]. by apply Forall_app. }
  set (pkts := concat (map pkts_of pieces)) in *. clearbody pkts. apply (Masque.feed_prefix chunks (map datagram pkts)).
  - rewrite Forall_map. eapply Forall_impl; [exact Hp|]. apply datagram_wf.
  - clear. induction pkts as [|pkt pkts IH]; constructor; done.
  - exact Hc.
  - destruct pkts as [|pkt pkts]; [done|]. cbn [map]. change (blen Masque.CapsuleParser_new) with 0. pose proof (Masque.enc_capsule_long (datagram pkt)). lia.
  - eapply Forall_impl; [exact Hfit|]. intros d Hd. cbn beta in Hd. split; [unfold U16_MAX in *; lia|].
    rewrite Forall_map. eapply Forall_impl; [exact Hp|]. intros pkt Hpkt. pose proof (blen_framed_packet pkt Hpkt) as Hb. unfold framed_packet in Hb. cbn beta. lia.
Qed.

(** C8.  The task that owns the request stream writes whole capsules: each write is one probe it
    was told to send, or a batch of queued packets that was short of 32 KiB before its last one.
    The probes go out in the order they were told, the packets in the order they were queued,
    none of them lost or twice, and none stays in the queue but behind a full batch; while the
    connection has room for a write the task goes on.  The edge, in whatever chunks the stream
    arrives, reads exactly the probes and the packets. *)
Theorem upload_is_read_back l : Forall given_ok l ->
  let out := pump_turns [] l [] in
  exists pieces, written out.2 = map piece_bytes pieces /\ Forall piece_ok pieces /\ Forall (fun data => blen data <= WRITE_MAX) (written out.2) /\
    map framed_packet (probes pieces) `prefix_of` messages l /\ concat (batches pieces) `prefix_of` arrivals l /\
    (forall left_, out.1 = Some (Ok (Some left_)) ->
      map framed_packet (probes pieces) = messages l /\ concat (batches pieces) ++ left_ = arrivals l /\
      (left_ <> [] -> exists pkts, last (batches pieces) = Some pkts /\ H2_SEND_BATCH_BYTES <= blen (framed_packets pkts))) /\
    (Forall goes_on l -> exists left_, out.1 = Some (Ok (Some left_))) /\
    (forall chunks, concat chunks = concat (written out.2) -> Forall (fun d => blen d + U16_MAX + 5 <= Masque.MAX_CAPSULE_BUF) chunks ->
      Masque.feed Masque.CapsuleParser_new chunks = ([], map Masque.CDatagram (concat (map pkts_of pieces)))).
Proof.
  intros Hl. cbn zeta. destruct (pump_spec l Hl [] [] (Forall_nil_2 _)) as [(pieces & [Hw Hok Hp Hb Hall]) Hgo]. exists pieces. change (written []) with (@nil bytes) in Hw.
  rewrite app_nil_l in Hw, Hb. split; [exact Hw|]. split; [exact Hok|].
  split; [rewrite Hw, Forall_map; eapply Forall_impl; [exact Hok|]; apply piece_bound|]. split; [exact Hp|]. split; [exact Hb|].
  split; [|split; [exact Hgo|intros chunks Hc; rewrite Hw in Hc; by apply pieces_read]].
  intros left_ E. destruct (Hall left_ E) as (H1 & H2 & H3). split_and!; [exact H1|exact H2|]. intros Hne. specialize (H3 Hne). destruct (last (batches pieces)); [by eauto|done].
Qed.

(** ** Deadlines *)

Definition is_ping (a : Act) : bool := match a with Pinged => true | _ => false end.
Definition is_pong (a : Act) : bool := match a with Ponged => true | _ => false end.
Definition is_ready (a : Act) : bool := match a with Ready => true | _ => false end.
Definition is_delivery (a : Act) : bool := match a with Handed _ true => true | _ => false end.
Definition n_of (p : Act -> bool) (l : list Act) : nat := length (List.filter p l).

(** The turn ends the tunnel with [r], or waits for ever to put the last message in a queue
    that is full, while the send task takes none. *)
Definition ends_or_full (env : bytes -> option bytes) (probe : bytes) (t : Turn) (s : Run) (r : res AetherError unit) : Prop :=
  (turn env probe t s).1 = Ends r \/
  ((turn env probe t s).1 = Stuck /\ t_makes_room t = None /\ Masque.closed (control (taken t s)) = false /\ SENDER_QUEUE <= blen (Masque.items (control (taken t s)))).

Section deadlines.
Variable env : bytes -> option bytes.
Variable probe : bytes.
Variable now : Z.
Variable l0 : list Act.
Variable all : list Turn.

(** What holds between the turns of a tunnel. *)
Record kept (s : Run) : Prop := mkKept {
  k_queue : Masque.capacity (control s) = SENDER_QUEUE;
  k_pong : if awaiting_pong s
           then ready_fired s = true /\ exists t0 at_, t0 ∈ all /\ t_branch t0 = KeepaliveTick None at_ /\ pong_deadline s = Some (at_ + h2_keepalive_timeout env)
           else pong_deadline s = None;
  k_validation : data_check_enabled env = true -> ready_fired s = false -> validate_deadline s = Some (now + validation_timeout env);
  k_tx : ready_fired s = true -> ready_tx s = false;
  k_later : exists later, acts s = later ++ l0 /\
    n_of is_ping later = (n_of is_pong later + (if awaiting_pong s then 1 else 0))%nat /\
    (n_of is_ready later + (if ready_tx s then 1 else 0) <= 1)%nat /\
    (validate_successes s <= Z.of_nat (n_of is_delivery later)) /\
    (data_check_enabled env = true -> ready_fired s = true -> 2 <= Z.of_nat (n_of is_delivery later)) /\
    (n_of is_ready later = 0%nat \/ ready_fired s = true);
}.

(** An act that counts for nothing. *)
Definition uncounted (a : Act) : bool := negb (is_ping a || is_pong a || is_ready a || is_delivery a).
Lemma kept_act a s : uncounted a = true -> kept s -> kept (act a s).
Proof.
  intros Ha [H1 H2 H3 H4 (later & E & H5 & H6 & H7 & H8 & H9)]. constructor; try done. exists (a :: later). unfold act; cbn [acts]. split; [by rewrite E|].
  assert (forall p : Act -> bool, p a = false -> n_of p (a :: later) = n_of p later) as Hn by (intros p Hp; unfold n_of; cbn; by rewrite Hp).
  unfold uncounted in Ha. apply negb_true_iff, orb_false_iff in Ha as [[[Hi Ho]%orb_false_iff Hr]%orb_false_iff Hd]. rewrite !Hn by done. by split_and!.
Qed.
Lemma kept_control c s : Masque.capacity c = SENDER_QUEUE -> kept s -> kept (set_control c s).
Proof. intros Hc [H1 H2 H3 H4 H5]. by constructor. Qed.
Lemma kept_capsules p s : kept s -> kept (set_capsules p s).
Proof. intros [H1 H2 H3 H4 H5]. by constructor. Qed.
Lemma try_send_capacity {A} (c : Masque.Chan A) a : Masque.capacity (Masque.try_send c a).1 = Masque.capacity c.
Proof. unfold Masque.try_send. destruct (Masque.closed c); [done|]. by destruct (_ <? _). Qed.
Lemma kept_tell s : kept s -> kept (tell probe s).
Proof.
  intros Hk. unfold tell. pose proof (try_send_capacity (control s) (Capsule probe)) as Hc. destruct (Masque.try_send _ _) as [c []]; [|done..].
  apply kept_act; [done|]. apply kept_control; [rewrite <- (k_queue _ Hk); exact Hc|done].
Qed.
Lemma kept_taken t s : kept s -> kept (taken t s).
Proof. by apply kept_control. Qed.

Lemma n_of_cons p a l : n_of p (a :: l) = ((if p a then 1 else 0) + n_of p l)%nat.
Proof. unfold n_of. cbn. by destruct (p a). Qed.

(** A closing never goes on; it ends the tunnel or finds the queue full. *)
Lemma close_out t r s : (close_sender t r s).1 <> Goes /\ (kept s -> (close_sender t r s).1 = Ends r \/
  ((close_sender t r s).1 = Stuck /\ t_makes_room t = None /\ Masque.closed (control s) = false /\ SENDER_QUEUE <= blen (Masque.items (control s)))).
Proof.
  unfold close_sender, Masque.try_send. destruct (Masque.closed (control s)) eqn:Hc; [split; [done|by left]|].
  destruct (Z.ltb_spec (blen (Masque.items (control s))) (Masque.capacity (control s))) as [Hl|Hl]; [split; [done|by left]|].
  destruct (t_makes_room t) as [[]|] eqn:Hr; [split; [done|by left]..|]. split; [done|]. intros Hk. right. rewrite (k_queue _ Hk) in Hl. by split_and!.
Qed.

Lemma kept_receive data inbound addrs s s1 : kept s -> receive probe data inbound addrs s = (Goes, s1) -> kept s1.
Proof.
  unfold receive. intros Hk. destruct (Masque.drain_capsules _) as [d|]; [|done]. intros [= <-].
  destruct (Masque.d_delivered d && negb (ready_fired s)) eqn:Hd.
  2:{ destruct Hk as [H1 H2 H3 H4 (later & E & H5 & H6 & H7 & H8 & H9)]. constructor; try done. exists (Handed (Masque.items (Masque.d_inbound d)) (Masque.d_delivered d) :: later).
      unfold act, set_capsules; cbn [acts ready_fired ready_tx awaiting_pong validate_successes]. split; [by rewrite E|]. rewrite !n_of_cons. cbn [is_ping is_pong is_ready is_delivery Nat.add].
      split_and!; [done|done| | |done]; destruct (Masque.d_delivered d); cbn; try done; [lia|]. intros Hdc Hf. specialize (H8 Hdc Hf). lia. }
  apply andb_prop in Hd as [Hdel Hf]. apply negb_true_iff in Hf. rewrite Hdel.
  set (s2 := succeeded _). assert (kept s2 /\ validate_successes s2 = validate_successes s + 1 /\ ready_fired s2 = false) as (Hk2 & Hv & Hf2).
  { split; [|done]. destruct Hk as [H1 H2 H3 H4 (later & E & H5 & H6 & H7 & H8 & H9)]. constructor; try done. exists (Handed (Masque.items (Masque.d_inbound d)) true :: later).
    unfold s2, succeeded, act, set_capsules; cbn [acts ready_fired ready_tx awaiting_pong validate_successes]. split; [by rewrite E|]. rewrite !n_of_cons. cbn [is_ping is_pong is_ready is_delivery Nat.add].
    split_and!; [done|done|lia| |done]. by rewrite Hf. }
  clearbody s2. rewrite <- Hv. destruct (Z.leb_spec DATA_PROBE_REQUIRED_SUCCESSES (validate_successes s2)) as [Hs|Hs]; [|by apply kept_tell].
  destruct Hk2 as [H1 H2 H3 H4 (later & E & H5 & H6 & H7 & H8 & H9)]. unfold fire. constructor; cbn [control awaiting_pong ready_fired pong_deadline validate_deadline ready_tx acts validate_successes]; try done.
  - destruct (awaiting_pong s2); [|done]. destruct H2 as [? _]. by rewrite Hf2 in *.
  - destruct H9 as [H9|H9]; [|by rewrite Hf2 in H9]. unfold DATA_PROBE_REQUIRED_SUCCESSES in Hs.
    destruct (ready_tx s2); [exists (Ready :: later); rewrite !n_of_cons; cbn [is_ping is_pong is_ready is_delivery Nat.add]|exists later];
      (split; [by rewrite E|]); split_and!; try done; try lia; by right.
Qed.

Lemma kept_turn t s s1 : t ∈ all -> kept s -> turn env probe t s = (Goes, s1) -> kept s1.
Proof.
  intros Ht Hk0. pose proof (kept_taken t s Hk0) as Hk. unfold turn. set (s' := taken t s) in *. clearbody s'. clear Hk0.
  assert (forall r, close_sender t r s' = (Goes, s1) -> kept s1) as Hclose by (intros r E; by destruct (close_out t r s') as [[] _]; rewrite E).
  destruct (_ && _ && _); [apply Hclose|]. destruct (is_due _ _); [apply Hclose|].
  unfold select. destruct (t_branch t) as [ping at_|error| | |c|outcome|data inbound addrs|e|] eqn:Hb; try (by intros [= <-]); try done.
  - intros [= <-]. destruct (ready_fired s' && negb (awaiting_pong s')) eqn:Hg; [|done]. destruct ping; [done|]. apply andb_prop in Hg as [Hf Hw]. apply negb_true_iff in Hw.
    destruct Hk as [H1 H2 H3 H4 (later & E & H5 & H6 & H7 & H8 & H9)]. constructor; try done; unfold act, set_pong; cbn [control awaiting_pong ready_fired pong_deadline validate_deadline ready_tx acts validate_successes].
    + split; [done|]. exists t, at_. by split_and!.
    + exists (Pinged :: later). split; [by rewrite E|]. rewrite !n_of_cons. cbn [is_ping is_pong is_ready is_delivery Nat.add]. rewrite Hw in H5. split_and!; try done. lia.
  - destruct (awaiting_pong s') eqn:Hw; [|by intros [= <-]]. destruct error; [apply Hclose|]. intros [= <-].
    destruct Hk as [H1 H2 H3 H4 (later & E & H5 & H6 & H7 & H8 & H9)]. constructor; try done; unfold act, set_pong; cbn [control awaiting_pong ready_fired pong_deadline validate_deadline ready_tx acts validate_successes].
    exists (Ponged :: later). split; [by rewrite E|]. rewrite !n_of_cons. cbn [is_ping is_pong is_ready is_delivery Nat.add]. rewrite Hw in H5. split_and!; try done. lia.
  - intros [= <-]. destruct (_ && _); [by apply kept_tell|done].
  - destruct c as [[]|]; [by intros [= <-]|apply Hclose..].
  - by apply kept_receive.
Qed.

Lemma kept_turns turns : (forall t, t ∈ turns -> t ∈ all) -> forall s s1, kept s -> run_turns env probe turns s = (Goes, s1) -> kept s1.
Proof.
  induction turns as [|t turns IH]; intros Hin s s1 Hk; cbn [run_turns]; [by intros [= <-]|]. destruct (turn env probe t s) as [[] s2] eqn:E; [|done..].
  apply IH; [intros t' Ht'; apply Hin; by constructor|]. by eapply kept_turn, E; [apply Hin; constructor|].
Qed.

Lemma kept_begin gone ready : kept (begin env probe gone now ready l0).
Proof.
  unfold begin. destruct (data_check_enabled env) eqn:Hd.
  - assert (forall s, Masque.capacity (control s) = SENDER_QUEUE -> Masque.capacity (control (tell probe s)) = SENDER_QUEUE /\ ready_tx (tell probe s) = ready_tx s /\
      ready_fired (tell probe s) = ready_fired s /\ validate_successes (tell probe s) = validate_successes s /\ awaiting_pong (tell probe s) = awaiting_pong s /\
      pong_deadline (tell probe s) = pong_deadline s /\ (acts (tell probe s) = acts s \/ acts (tell probe s) = Told probe :: acts s)) as Htell.
    { intros s Hs. unfold tell. pose proof (try_send_capacity (control s) (Capsule probe)) as Hc. destruct (Masque.try_send _ _) as [c []]; split_and!; try done; [|by right|by left..].
      cbn [control act set_control]. by rewrite <- Hs. }
    destruct (Htell (mkRun (Masque.mkChan [] SENDER_QUEUE gone) Masque.CapsuleParser_new ready false None 0 false None l0) eq_refl) as (H1 & H2 & H3 & H4 & H5 & H6 & H7).
    set (s' := tell probe _) in *. clearbody s'. cbn [ready_tx ready_fired validate_successes awaiting_pong pong_deadline acts] in *. constructor; cbn [control awaiting_pong ready_fired pong_deadline validate_deadline ready_tx acts validate_successes].
    + done.
    + by rewrite H5.
    + done.
    + by rewrite H3.
    + rewrite H2, H3, H4, H5. destruct H7 as [-> | ->]; [exists []|exists [Told probe]]; (split; [done|]); cbn; split_and!; try done; (destruct ready; lia) || by left.
  - unfold fire. constructor; cbn [control awaiting_pong ready_fired pong_deadline validate_deadline ready_tx acts validate_successes]; try done.
    destruct ready; [exists [Ready]|exists []]; (split; [done|]); cbn; rewrite ?Hd; split_and!; try done; try lia; by right.
Qed.
End deadlines.

(** C35.  A tunnel over HTTP/2 ends at its deadlines.  After any turns of its loop: at most one
    ping is out; when one is, the first turn from its time and the time of the settings on ends
    the tunnel with the keepalive's error, and when the data plane is not validated, the first
    turn from the deadline on ends it with the validation's; unless the queue of the send task
    holds its sixteen messages and the task takes none, when the tunnel waits without an end.
    It says once at most that it is ready, and with the check of the data plane only after two
    chunks that delivered a packet. *)
Theorem h2_deadlines_end_it `{UnicodeCase} cfg env upstream probe ready o gone now turns l0 s :
  open cfg env upstream true o [] = (Some (Ok tt), l0) -> run cfg env upstream probe ready o gone now turns = (Goes, s) ->
  exists later, acts s = later ++ l0 /\
    n_of is_ping later = (n_of is_pong later + (if awaiting_pong s then 1 else 0))%nat /\
    (awaiting_pong s = true -> exists t0 at_, t0 ∈ turns /\ t_branch t0 = KeepaliveTick None at_ /\
      forall t, at_ + h2_keepalive_timeout env <= t_now t -> ends_or_full env probe t s (Err (Error.Masque (lit "h2 keepalive timeout")))) /\
    (data_check_enabled env = true -> ready_fired s = false ->
      forall t, now + validation_timeout env <= t_now t ->
        ends_or_full env probe t s (Err (Error.Masque (lit "h2 data-plane validation timeout (handshake ok, no traffic)")))) /\
    (n_of is_ready later <= 1)%nat /\ (data_check_enabled env = true -> n_of is_ready later = 1%nat -> (2 <= n_of is_delivery later)%nat).
Proof.
  intros Ho Hrun. unfold run in Hrun. rewrite Ho in Hrun. pose proof (kept_turns env probe now l0 turns turns ltac:(done) _ _ (kept_begin env probe now l0 turns gone ready) Hrun) as Hk.
  pose proof Hk as [H1 H2 H3 H4 (later & E & H5 & H6 & H7 & H8 & H9)]. exists later.
  assert (forall t r, is_due (if data_check_enabled env && negb (ready_fired s) then validate_deadline s else None) (t_now t) = false -> is_due (pong_deadline s) (t_now t) = true ->
    r = Err (Error.Masque (lit "h2 keepalive timeout")) -> (turn env probe t s) = close_sender t r (taken t s)) as Hpong.
  { intros t r Hv Hd ->. unfold turn. change (ready_fired (taken t s)) with (ready_fired s). change (validate_deadline (taken t s)) with (validate_deadline s).
    change (pong_deadline (taken t s)) with (pong_deadline s). destruct (_ && negb _); cbn [andb]; [rewrite Hv|]; by rewrite Hd. }
  split; [done|]. split; [done|]. split; [|split; [|split; [lia|]]].
  - intros Hw. rewrite Hw in H2. destruct H2 as (Hf & t0 & at_ & Ht0 & Hb & Hd). exists t0, at_. split_and!; [done..|]. intros t Ht.
    unfold ends_or_full. erewrite Hpong; [|by rewrite Hf, andb_false_r|rewrite Hd; cbn; by apply Z.leb_le|done].
    apply close_out with (env := env) (now := now) (l0 := l0) (all := turns). by apply kept_taken.
  - intros Hdc Hf t Ht. unfold ends_or_full, turn. change (ready_fired (taken t s)) with (ready_fired s). change (validate_deadline (taken t s)) with (validate_deadline s).
    rewrite Hdc, Hf, (H3 Hdc Hf). cbn [negb andb is_due]. rewrite (proj2 (Z.leb_le _ _)) by done.
    apply close_out with (env := env) (now := now) (l0 := l0) (all := turns). by apply kept_taken.
  - intros Hdc Hr. destruct H9 as [H9|H9]; [lia|]. specialize (H8 Hdc H9). lia.
Qed.

(** ** The check counts every capsule *)

(** The fuel of the loop is enough: each capsule takes bytes off the buffer. *)
Lemma count_enough probe fuel : forall fuel' p n rooms l, all_bytes p -> (length p < fuel)%nat -> (length p < fuel')%nat ->
  count_datagrams probe fuel p n rooms l = count_datagrams probe fuel' p n rooms l.
Proof.
  induction fuel as [|fuel IH]; intros [|fuel'] p n rooms l Hp Hf Hf'; [lia..|]. cbn [count_datagrams].
  pose proof (Masque.next_safe_aux p Hp) as Hn. destruct (Masque.next p) as [p' [[c|]|e|]]; [|done..].
  destruct Hn as [(k & -> & Hk) _]. apply Forall_app in Hp as [_ Hp]. rewrite length_app in Hf, Hf'. unfold blen in Hk.
  destruct c; try (apply IH; [done|lia..]). destruct (_ <=? _); [done|]. destruct rooms as [|r rooms]; [done|].
  unfold mbind, M_bind. destruct (send_probe probe r l) as [[[[]|e|]|] l1]; [|done..]. apply IH; [done|lia..].
Qed.

(** The check of the data plane takes no gateway that sent no chunk. *)
Lemma verified_needs_chunks probe events : forall p n l l1, verify_loop probe events p n l = (Some (Ok tt), l1) -> exists data rooms, Chunk data rooms ∈ events.
Proof.
  induction events as [|e events IH]; intros p n l l1; cbn [verify_loop]; [done|].
  destruct e as [data rooms|e| |r]; [intros _; exists data, rooms; constructor|done..|].
  unfold mbind, M_bind. destruct (send_probe probe r l) as [[[[]|e|]|] l2]; [|done..]. intros H. destruct (IH _ _ _ _ H) as (data & rooms & Hin).
  exists data, rooms. by constructor.
Qed.

(** ** Witnesses *)

Section examples.
Local Existing Instance ascii_case.

Definition no_env : bytes -> option bytes := fun _ => None.
Definition edge : SocketAddr := mkSocketAddr (V4 2734752257) 443.
Definition example_config (key : option bytes) : H2TunnelConfig :=
  mkH2 edge (lit "www.cloudflare.com") (lit "cloudflareaccess.com") (lit "/") [] [] 2886729730 true true [] key.
Definition plain_building : Building := mkBuilding None (Ok tt) None None None None None (Ok tt).
Definition try_with (shake : Shake) : Try := mkTry plain_building None (Some (Ok tt)) shake.
Definition turned_down : Try := try_with (ShakeFailed (lit "TLS handshake failed [ECH_REJECTED]") (Some Tls.retry_list)).
Definition opening (tries : list Try) : Opening := mkOpening tries (Got tt) true (Got tt) None None (Got 200).
Definition example_packet : bytes := 69 :: replicate 19 7.
Definition example_probe : bytes := framed_packet example_packet.
Definition idle (branch : Branch) (now : Z) (taken_ : nat) : Turn := mkTurn now taken_ false None branch.
Local Abbreviation example_run key tries turns := (run (example_config key) no_env false example_probe true (opening tries) false 0 turns).

(** A key that is turned down, and the handshake made again with the one handed back. *)
Lemma h2_sends_over_its_key_witness :
  let l := acts (example_run (Some Tls.example_list) [turned_down; try_with (Shaken true)] []).2 in
  keys l = [Some Tls.retry_list; Some Tls.example_list] /\ exists earlier, l = Told example_probe :: earlier /\ over_key earlier = true.
Proof.
  cbn zeta. split; [vm_compute; reflexivity|]. eexists. split; [vm_compute; reflexivity|].
  apply (proj1 (h2_sends_over_its_key (example_config (Some Tls.example_list)) no_env false example_probe [turned_down; try_with (Shaken true)]
    (acts (example_run (Some Tls.example_list) [turned_down; try_with (Shaken true)] []).2)
    (or_introl (ex_intro _ true (ex_intro _ (opening [turned_down; try_with (Shaken true)]) (ex_intro _ false (ex_intro _ 0 (ex_intro _ [] (conj eq_refl eq_refl))))))))
    [] (Told example_probe)); [vm_compute; reflexivity|reflexivity].
Defined.

(** A server that takes no key and answers all the same: nothing goes to it. *)
Example key_left_aside :
  (example_run (Some Tls.example_list) [try_with (Shaken false)] []).1 = Ends (Err (Ech (lit "the handshake went without ECH"))).
Proof. vm_compute. reflexivity. Qed.

Definition wide : Room := mkRoom 200000 [] None.
Definition example_given : list Woken := [FromControl (Some (Capsule example_probe)) wide; FromOutbound [example_packet; example_packet] false wide].
Lemma upload_is_read_back_witness :
  written (pump_turns [] example_given []).2 = [example_probe; example_probe ++ example_probe] /\
  exists pieces, Masque.feed Masque.CapsuleParser_new [take 5 example_probe; drop 5 example_probe ++ example_probe; example_probe] = ([], map Masque.CDatagram (concat (map pkts_of pieces))).
Proof.
  split; [vm_compute; reflexivity|].
  destruct (upload_is_read_back example_given ltac:(repeat constructor; try (exists example_packet; split; [|reflexivity]); by apply (bool_decide_unpack _); vm_compute)) as (pieces & _ & _ & _ & _ & _ & _ & _ & Hread).
  exists pieces. apply Hread; [vm_compute; reflexivity|]. repeat constructor; vm_compute; discriminate.
Defined.

Definition delivered_turn (now : Z) : Turn := idle (Body example_probe (Masque.mkChan [] 4 false) None) now 1.
Definition ping_turns : list Turn := [delivered_turn 1; delivered_turn 2; idle (KeepaliveTick None 15) 15 0].
Lemma h2_deadlines_end_it_witness :
  let s := (example_run None [try_with (Shaken false)] ping_turns).2 in
  awaiting_pong s = true /\ exists t0 at_, t0 ∈ ping_turns /\ t_branch t0 = KeepaliveTick None at_.
Proof.
  cbn zeta. assert (awaiting_pong (example_run None [try_with (Shaken false)] ping_turns).2 = true) as Hw by (vm_compute; reflexivity). split; [exact Hw|].
  destruct (h2_deadlines_end_it (example_config None) no_env false example_probe true (opening [try_with (Shaken false)]) false 0 ping_turns
    (open (example_config None) no_env false true (opening [try_with (Shaken false)]) []).2 (example_run None [try_with (Shaken false)] ping_turns).2
    ltac:(vm_compute; reflexivity) ltac:(vm_compute; reflexivity)) as (later & _ & _ & Hp & _).
  destruct (Hp Hw) as (t0 & at_ & Ht0 & Hb & _). exists t0, at_. split; [exact Ht0|exact Hb].
Defined.

(** A stalled connection, and the turn that ends the tunnel. *)
Example stalled : (example_run None [try_with (Shaken false)] (ping_turns ++ [idle PongDue 34 0; idle PongDue 35 0])).1
  = Ends (Err (Error.Masque (lit "h2 keepalive timeout"))).
Proof. vm_compute. reflexivity. Qed.

(** An edge that leaves no room for the first probe: the task waits with it, the probes of the
    next seconds fill the queue, and the tunnel never ends. *)
Example full_queue_never_ends :
  (example_run None [try_with (Shaken false)] (idle ProbeTick 0 1 :: replicate 15 (idle ProbeTick 1 0) ++ [idle ProbeTick 60 0])).1 = Stuck.
Proof. vm_compute. reflexivity. Qed.

(** An edge whose window is smaller than a batch: the task waits for room that never comes. *)
Example window_below_a_batch windows : Forall (fun w => w < 40) windows ->
  (send_capsule (mkRoom 39 (map (fun w => Some (inl w)) windows) None) (example_probe ++ example_probe) []).1 = None.
Proof.
  intros Hw. unfold send_capsule. change (blen (example_probe ++ example_probe)) with 44. cbn [Z.eqb room grants].
  assert (forall c l, c < 40 -> await_capacity 44 c (map (fun w => Some (inl w)) windows) l = (None, l)) as H; [|unfold mbind, M_bind; by rewrite H by lia].
  induction Hw as [|w windows Hw' Hws IH]; intros c l Hc; cbn [map await_capacity]; rewrite (proj2 (Z.leb_gt _ _)) by lia; [done|]. by apply IH.
Qed.

(** The check takes any two datagrams, the tunnel asks that they carry packets. *)
Example check_counts_any_datagram :
  let junk := Masque.enc_capsule (Masque.CAPSULE_DATAGRAM, [9]) in
  (verify_h2 (example_config None) no_env false example_probe 5 (opening [try_with (Shaken false)]) wide [Chunk (junk ++ junk) [wide]]).1 = Ok 5 /\
  validate_successes (example_run None [try_with (Shaken false)] [idle (Body (junk ++ junk) (Masque.mkChan [] 4 false) None) 1 0]).2 = 0.
Proof. vm_compute. done. Qed.

End examples.

End MasqueH2.
