(* ===== verification/Api.v ===== *)
(** * The calls of an app ([api.rs])

    What an app that embeds the core asks of it: an identity that is opened, a scan, a check of
    an endpoint.  Opening an identity is written in the monad of the identities, with their
    log; the scans, the tunnels and the lookup of a key answer as arguments.  What may be
    cancelled is polled with its cancel. *)

From S2P Require Import Prelude Str Ip Text Error Prober Noize.
From S2P Require Import Tls Config Account Session Provision ZeroTrust Quic.
From stdpp Require Import gmap.
Local Open Scope Z_scope.

Module Api.
Import Error.
Import Config(Base64Crate, TomlIdentity, Identity, device_id, cert_pem, key_pem, ipv4, ipv6, organization, gateway_proxy, assigned_endpoint, cert_issued_at,
  wg_private_key, wg_peer_public_key, client_id).
Import ZeroTrust(EmailSignIn, e_email, TeamSettings, mkTeam, normalize_team).
Import Provision.

(** ** Requests *)

Inductive Transport := Masque | WireGuard.
#[export] Instance Transport_eq_dec : EqDecision Transport.
Proof. solve_decision. Defined.

Definition Transport_parse `{UnicodeCase} (raw : bytes) : Transport :=
  if Prober.one_of (to_lowercase (trim raw)) [lit "wg"; lit "wireguard"; lit "warp"] then WireGuard else Masque.
Definition label (t : Transport) : bytes := match t with Masque => lit "masque" | WireGuard => lit "wireguard" end.
Definition assigned_port (t : Transport) : Z := match t with Masque => 443 | WireGuard => 2408 end.
Definition default_ports (t : Transport) : list Z := match t with Masque => Prober.MASQUE_PORTS | WireGuard => Prober.WG_PORTS end.

Definition TeamCredentials_new `{UnicodeCase} (team : bytes) : res AetherError TeamSettings :=
  match normalize_team team with
  | Some name => Ok (mkTeam name None None None None)
  | None => Err (Api (lit "'" ++ team ++ lit "' is not a usable zero trust team name"))
  end.

Record ProvisionRequest := mkProvision { model : bytes; locale : bytes; request_team : option TeamSettings; masque_cert : bool }.
Definition provision_for_transport (t : Transport) : ProvisionRequest :=
  mkProvision (lit "PC") (lit "en_US") None match t with Masque => true | WireGuard => false end.

Definition identity_path (base : bytes) (t : Transport) (team : option bytes) : bytes :=
  match team with
  | Some team => Session.derive_sibling_path base (lit "team-" ++ team)
  | None => match t with Masque => Session.derive_sibling_path base (lit "masque") | WireGuard => base end
  end.

(** Less the ECH key, which the task looks up. *)
Record ScanRequest := mkScan {
  scan_transport : Transport;
  scan_mode : bytes;
  scan_ip : Prober.IpScan;
  scan_ports : list Z;
  scan_excluded : gset SocketAddr;
  scan_noize : Noize.NoizeConfig;
  scan_aethernoize : Noize.AetherNoizeConfig;
}.
Definition scan_for_transport (t : Transport) : ScanRequest :=
  mkScan t (lit "balanced") Prober.ScanV4 (default_ports t) ∅ (Noize.noize_from_profile (lit "firewall")) (Noize.aether_from_profile (lit "balanced")).

(** Less the ECH key; [verify_timeout] is in seconds. *)
Record TunnelSpec := mkSpec {
  spec_transport : Transport;
  spec_socks : SocketAddr;
  spec_http : option SocketAddr;
  spec_aethernoize : Noize.AetherNoizeConfig;
  spec_keepalive : Z;
  spec_verify_timeout : Z;
}.
Definition spec_for_transport (t : Transport) : TunnelSpec :=
  mkSpec t (mkSocketAddr (V4 2130706433) 1819) None (Noize.aether_from_profile (lit "balanced")) 5 10.


(** ** Opening an identity *)

Section identities.
Context `{b64 : Base64Crate} `{toml : TomlIdentity}.
Variable w : Provision.World.

Definition attach_masque_cert (identity : Identity) : M Identity := fun s =>
  let now := w_now w (length (acts s)) in
  if Account.has_masque_credentials now identity && negb (Account.masque_cert_expiring now (cert_issued_at identity)) then (Ok identity, s)
  else (enrollment ← enroll w identity; mret (with_certificate enrollment identity)) s.

Definition provision_identity (request : ProvisionRequest) : M Identity :=
  identity ← match request_team request with
    | Some _ => identity ← provision_team w; fetch_profile w identity
    | None => provision_wg w
    end;
  identity ← (if masque_cert request then attach_masque_cert identity else mret identity);
  _ ← enable_warp_on w identity;
  mret identity.

Definition refresh_opened (request : ProvisionRequest) (identity : Identity) : M Identity :=
  if bool_decide (is_Some (request_team request)) then fetch_profile w identity else mret identity.
Definition open_identity (path : bytes) (request : ProvisionRequest) : M Identity :=
  found ← load_file w path;
  identity ← match found with
    | Some identity =>
        identity ← refresh_opened request identity;
        if masque_cert request then attach_masque_cert identity else mret identity
    | None => provision_identity request
    end;
  _ ← save_file w path identity;
  mret identity.
End identities.

(** ** What may be cancelled *)

(** A poll of [guard]: the cancel is looked at first; [None]: it goes on. *)
Definition guard {A} (cancelled : bool) (work : option (res AetherError A)) : option (res AetherError A) :=
  if cancelled then Some (Err Cancelled) else work.

Record Endpoint := mkEndpoint { e_ip : IpAddr; e_port : Z; rtt_ms : Z }.
Definition Endpoint_of (best : Prober.ProbeResult) : Endpoint :=
  mkEndpoint (Prober.pr_ip best) (Prober.pr_port best) (Prober.pr_rtt best / 1000000).

Record MasqueProbe := mkMasqueProbe {
  mp_sni : bytes; mp_authority : bytes; mp_path : bytes; mp_cert : bytes; mp_key : bytes; mp_ech : option bytes;
  mp_noize : Noize.NoizeConfig; mp_ports : list Z; mp_ip : Prober.IpScan; mp_local_ipv4 : Z }.
Record WgProbe := mkWgProbe {
  wp_private : bytes; wp_peer_public : bytes; wp_client_id : bytes; wp_local_ipv4 : Z; wp_aethernoize : Noize.AetherNoizeConfig;
  wp_ports : list Z; wp_ip : Prober.IpScan; wp_excluded : gset SocketAddr }.

(** [parse_local_v4] of [lib.rs]. *)
Definition parse_local_v4 (s : bytes) : Z := default 0 (Prober.parse_ipv4 (default s (fst <$> split_once 47 s))).
Definition wg_local_v4 (identity : Identity) : res AetherError Z :=
  match Prober.parse_ipv4 (ipv4 identity) with
  | Some a => Ok a
  | None => Err (Other (lit "identity has an unusable ipv4 " ++ ipv4 identity))
  end.

Section scans.
Context `{UnicodeCase}.
Variable env : bytes -> option bytes.
(** The two hunts, as far as they have got. *)
Variable masque_hunt : MasqueProbe -> Prober.ScanMode -> option (res AetherError Prober.ProbeResult).
Variable wg_hunt : WgProbe -> Prober.ScanMode -> option (res AetherError Prober.ProbeResult).

Definition found_endpoint (found : option (res AetherError Prober.ProbeResult)) : option (res AetherError Endpoint) :=
  (fun found => best ← found; Ok (Endpoint_of best)) <$> found.

Definition scan (identity : Identity) (request : ScanRequest) (ech : option bytes) (cancelled : bool) : option (res AetherError Endpoint) :=
  match scan_transport request with
  | Masque =>
      match Quic.masque_sni env with
      | Ok sni =>
          let probe := mkMasqueProbe sni Quic.default_authority Quic.default_path (cert_pem identity) (key_pem identity) ech
            (scan_noize request) (scan_ports request) (scan_ip request) (parse_local_v4 (ipv4 identity)) in
          found_endpoint (guard cancelled (masque_hunt probe (Prober.ScanMode_parse (scan_mode request))))
      | Err e => Some (Err e)
      | Panic => Some Panic
      end
  | WireGuard =>
      match wg_local_v4 identity with
      | Ok local_ipv4 =>
          let probe := mkWgProbe (wg_private_key identity) (wg_peer_public_key identity) (client_id identity) local_ipv4
            (scan_aethernoize request) (scan_ports request) (scan_ip request) (scan_excluded request) in
          found_endpoint (guard cancelled (wg_hunt probe (Prober.ScanMode_parse (scan_mode request))))
      | Err e => Some (Err e)
      | Panic => Some Panic
      end
  end.

(** [masque], [wireguard]: how far the checks are. *)
Definition verify_endpoint (identity : Identity) (spec : TunnelSpec) (masque : option bool) (wireguard : option (res AetherError Z)) (cancelled : bool) :
    option (res AetherError bool) :=
  match spec_transport spec with
  | Masque => guard cancelled (Ok <$> masque)
  | WireGuard =>
      match wg_local_v4 identity with
      | Ok _ =>
          (fun r => match r with
                    | Ok _ => Ok true
                    | Err Cancelled => Err Cancelled
                    | Err _ => Ok false
                    | Panic => Panic
                    end) <$> guard cancelled wireguard
      | Err e => Some (Err e)
      | Panic => Some Panic
      end
  end.
End scans.

(** The setting [connect] leaves for the proxy over HTTP. *)
Definition connect_env (spec : TunnelSpec) (env : bytes -> option bytes) (name : bytes) : option bytes :=
  if bool_decide (name = lit "AETHER_HTTP_PROXY") then sa_to_string <$> spec_http spec else env name.
(** How far [connect] is: the listeners bound, the tunnel ended, a listener broke; and which of the last two the select looks at first. *)
Record Connecting := mkConnecting { c_bind : option (res AetherError unit); c_tunnel : option (res AetherError unit); c_broken : option AetherError; tunnel_first : bool }.
Definition connect (c : Connecting) (cancelled : bool) : option (res AetherError unit) :=
  guard cancelled
    match c_bind c with
    | Some (Ok _) =>
        let broken := (fun e => Err e) <$> c_broken c in
        if tunnel_first c then match c_tunnel c with Some r => Some r | None => broken end
        else match broken with Some r => Some r | None => c_tunnel c end
    | Some (Err e) => Some (Err e)
    | Some Panic => Some Panic
    | None => None
    end.

(** ** The key of a job *)

Section keys.
Variable base64_decode : bytes -> bytes + bytes.

(** [job_ech_key], what [fetch_ech_config] is with the lookup. *)
Definition job_ech_key (fetch : res AetherError bytes) : res AetherError bytes :=
  key ← Tls.ech_key base64_decode fetch Tls.SESSION_ECH_OPTION (Some (lit "auto"));
  match key with Some key => Ok key | None => Err (Ech Tls.NO_ECH_KEY) end.
End keys.

(** ** An identity that is opened *)

Section opened.
Context `{b64 : Base64Crate} `{toml : TomlIdentity}.
Context (w : Provision.World).
Notation "{{ P }} m {{ Q }}" := (triple saved_ok P m Q) (at level 20, m at level 100).

(** What is logged of an identity that may be saved at [path]. *)
Definition opened (path : bytes) (i : Identity) (l : list Act) : Prop := logged (Loaded path (device_id i)) l \/ logged (Enable (device_id i) true) l.

Lemma attach_ok i : {{ always }} attach_masque_cert w i {{ fun j l => same_device i j /\ always l }}.
Proof.
  assert ({{ always }} (enrollment ← enroll w i; mret (with_certificate enrollment i)) {{ fun j l => same_device i j /\ always l }}) as He.
  { eapply triple_bind; [apply (enroll_ok w saved_ok not_saved not_saved_ok not_saved_all)|]. intros e. by apply triple_ret. }
  intros s Hi Hp. unfold attach_masque_cert. destruct (_ && _); [|by apply He]. split; [done|]. split; [by exists []|]. by intros a [= <-].
Qed.
Lemma attach_if_ok (b : bool) i : {{ always }} (if b then attach_masque_cert w i else mret i) {{ fun j l => same_device i j /\ always l }}.
Proof. destruct b; [apply attach_ok|by apply triple_ret]. Qed.

Lemma provision_ok request : {{ always }} provision_identity w request {{ fun i l => logged (Enable (device_id i) true) l }}.
Proof.
  unfold provision_identity. eapply triple_bind.
  {
    pose proof (provision_account_ok w (ZeroTrust.team <$> request_team request)) as H. unfold provision_account in H. destruct (request_team request); exact H. }
  intros i. eapply triple_bind; [apply (attach_if_ok (masque_cert request))|]. intros j. apply triple_pure. intros _.
  eapply triple_bind; [apply (enable_ok w saved_ok not_saved not_saved_ok not_saved_all)|]. intros u. by apply triple_ret.
Qed.

(** A loaded identity that is refreshed and given its certificate is still the loaded one. *)
Lemma refresh_loaded_ok request path i :
  {{ logged (Loaded path (device_id i)) }} (j ← refresh_opened w request i; if masque_cert request then attach_masque_cert w j else mret j) {{ opened path }}.
Proof.
  eapply triple_weaken.
  - apply (triple_frame _ _ always (fun j l => same_device i j /\ always l) (Loaded path (device_id i))).
    eapply (triple_bind _ _ _ _ (fun j l => same_device i j /\ always l)).
    + unfold refresh_opened. case_bool_decide; [|by apply triple_ret]. apply (fetch_profile_ok w saved_ok not_saved not_saved_ok not_saved_all).
    + intros j. apply triple_pure. intros Hj. eapply triple_weaken; [apply attach_if_ok|done|]. intros k l [Hk Hl]. split; [by transitivity j|done].
  - by intros l Hl.
  - intros j l [[Hj _] Hl]. left. destruct Hj as [-> _]. done.
Qed.

Lemma open_ok path request : {{ always }} open_identity w path request {{ fun i l => logged (Saved path (device_id i)) l }}.
Proof.
  unfold open_identity. eapply triple_bind; [apply (load_ok w path)|]. intros found. eapply (triple_bind _ _ _ _ (opened path)).
  - destruct found as [i|]; [apply refresh_loaded_ok|]. eapply triple_weaken; [apply provision_ok|done|]. intros i l Hl. by right.
  - intros i. eapply (triple_bind _ _ _ _ (fun _ => logged (Saved path (device_id i)))); [|intros u; by apply triple_ret].
    intros s Hi Hp. destruct (save_file_ok w path i s Hi Hp) as (H1 & H2 & _). split; [done|]. split; [done|]. intros u.
    unfold save_file. destruct (Config.save _ _ _ _ _) as [states [u'|e|]]; cbn [fst snd acts log]; try done. intros _. unfold logged. left.
Qed.

(** The file of a path that loads is never replaced. *)
Lemma keeps_same i s : keeps Some i (acts s) (Ok i, s).
Proof. split; [|apply registers_nothing_refl]. intros a j; cbn. intros [= <-] [= <-]. reflexivity. Qed.
Lemma attach_keeps i s : keeps Some i (acts s) (attach_masque_cert w i s).
Proof.
  unfold attach_masque_cert. destruct (_ && _); [apply keeps_same|].
  unfold mbind, M_bind, enroll. cbn [fst snd log acts]. destruct (Account.ensure_masque_enrolled _ _ _ _ _) as [e|e|];
    (split; [|apply registers_nothing_cons; [done|apply registers_nothing_refl]]); try done.
  intros a j; cbn. intros [= <-] [= <-]. apply with_certificate_same_device.
Qed.
Lemma attach_if_keeps (b : bool) i s : keeps Some i (acts s) ((if b then attach_masque_cert w i else mret i) s).
Proof. destruct b; [apply attach_keeps|apply keeps_same]. Qed.

Lemma refresh_keeps request i s :
  exists j, (refresh_opened w request i s).1 = Ok j /\ same_device i j /\ registers_nothing (acts s) (acts (refresh_opened w request i s).2).
Proof.
  unfold refresh_opened. case_bool_decide; cbn [fst snd fetch_profile mret M_ret]; eexists; (split; [done|]).
  - split; [apply refresh_same_device|]. apply registers_nothing_cons; [done|apply registers_nothing_refl].
  - split; [done|apply registers_nothing_refl].
Qed.

(** C27.  An identity that is opened is one the file at the path held, or was enabled before it
    was saved there; nothing is handed back that was not saved; and where the file loads, it is
    the device of the file and no other is registered. *)
Theorem opened_identity_is_saved path request s :
  acts s = [] ->
  let '(r, s1) := open_identity w path request s in
  saved_ok (acts s1) /\ (forall i, r = Ok i -> logged (Saved path (device_id i)) (acts s1)) /\
  (forall i s0, load_file w path s = (Ok (Some i), s0) -> (forall j, r = Ok j -> same_device i j) /\ registers_nothing [] (acts s1)).
Proof.
  intros Hs. destruct (open_identity w path request s) as [r s1] eqn:Ho.
  destruct (open_ok path request s) as (H1 & _ & H3); [rewrite Hs; by intros [|a after] p d before|done|]. rewrite Ho in H1, H3. split; [done|]. split; [done|].
  intros i s0 Hl. destruct (load_not_refused w path s i s0 Hl) as [_ Ha]. revert Ho. unfold open_identity. rewrite bind_unfold, Hl, !bind_unfold.
  destruct (refresh_keeps request i s0) as (j & Hj & Hd & Hn). destruct (refresh_opened w request i s0) as [r2 s2]. cbn [fst snd] in *. subst r2.
  assert (registers_nothing [] (acts s2)) as Hn2 by (eapply registers_nothing_trans; [|exact Hn]; rewrite Ha, Hs; apply registers_nothing_cons; [done|apply registers_nothing_refl]).
  pose proof (attach_if_keeps (masque_cert request) j s2) as [Hk1 Hk2]. destruct ((if masque_cert request then attach_masque_cert w j else mret j) s2) as [[k|e|] s3]; cbn [fst snd] in *;
    pose proof (registers_nothing_trans _ _ _ Hn2 Hk2) as Hn3; [|by intros [= <- <-]..].
  pose proof (save_and_give w path i k k Some s3) as [G1 G2]; [intros x [= <-]; transitivity j; [done|by apply (Hk1 k k)]|]. intros Ho. rewrite Ho in G1, G2. cbn [fst snd] in *.
  split; [intros x Hx; by apply (G1 x x)|by eapply registers_nothing_trans].
Qed.
End opened.

(** A scan for a MASQUE gateway does not see what it is told to leave out. *)
Lemma masque_scan_ignores_excluded `{UnicodeCase} env masque_hunt wg_hunt identity request excluded ech cancelled :
  scan_transport request = Masque ->
  scan env masque_hunt wg_hunt identity request ech cancelled =
  scan env masque_hunt wg_hunt identity (mkScan (scan_transport request) (scan_mode request) (scan_ip request) (scan_ports request) excluded
    (scan_noize request) (scan_aethernoize request)) ech cancelled.
Proof. intros Ht. unfold scan. cbn [scan_transport scan_mode scan_ip scan_ports scan_noize]. by rewrite Ht. Qed.

(** ** Witnesses *)

Section examples.
Local Existing Instance Config.marked_b64.
Local Existing Instance two_identities.

Definition example_request : ProvisionRequest := provision_for_transport WireGuard.

Lemma opened_identity_is_saved_witness :
  let s1 := (open_identity (example_world false) Config.example_path example_request (start saved_fs)).2 in
  acts s1 = [Saved Config.example_path (lit "device-1"); Loaded Config.example_path (lit "device-1")] /\ saved_ok (acts s1).
Proof.
  split; [vm_compute; reflexivity|].
  pose proof (opened_identity_is_saved (example_world false) Config.example_path example_request (start saved_fs) eq_refl) as H.
  destruct (open_identity (example_world false) Config.example_path example_request (start saved_fs)) as [r s1]. exact (proj1 H).
Defined.

(** A device the API refuses is handed back, and stays in its file. *)
Example refused_device_is_opened :
  let '(r, s) := open_identity (example_world true) Config.example_path (mkProvision (lit "PC") (lit "en_US") (Some (mkTeam (lit "team") None None None None)) false) (start saved_fs) in
  (exists i, r = Ok i /\ device_id i = lit "device-1" /\ Config.refused i = true) /\ Config.contents <$> files s !! Config.example_path = Some (lit "device-1").
Proof. vm_compute. split; [eexists|]; repeat split. Qed.
End examples.
End Api.
