(* ===== verification/Ffi.v ===== *)
(** * The embedding interface ([ffi.rs])

    An app that embeds the core calls it through C functions that take and give JSON.  What
    takes long runs as a job: the call gives a handle, which is polled, cancelled and freed.
    Identities and sign-in sessions have handles as well.  The three registries, the counter of
    the handles and the tasks that run are the state; a call and the end of a task are its
    steps, in any order.  What a task finds is an argument of its end, the parsing of a payload
    is serde_json's. *)

From S2P Require Import Prelude Str Ip Text Error Prober Noize.
From S2P Require Import Tls Session Config Account ZeroTrust Api.
From stdpp Require Import gmap.
Local Open Scope Z_scope.

Module Ffi.
Import Error.
Import Config(Identity, device_id, ipv4, ipv6, organization, gateway_proxy, assigned_endpoint, cert_issued_at).
Import ZeroTrust(EmailSignIn, e_email, TeamSettings, mkTeam).
Import Api.

(** ** Replies *)

(** The JSON the replies are made of. *)
Inductive Json := JNull | JBool (b : bool) | JNum (n : Z) | JStr (s : bytes) | JObj (fields : list (bytes * Json)).

(** [Map::insert]: a field that is there is replaced. *)
Fixpoint put (key : bytes) (value : Json) (fields : list (bytes * Json)) : list (bytes * Json) :=
  match fields with
  | [] => [(key, value)]
  | (k, v) :: fields => if bool_decide (k = key) then (key, value) :: fields else (k, v) :: put key value fields
  end.
Definition ok_value (value : Json) : Json :=
  match value with
  | JObj fields => JObj (put (lit "ok") (JBool true) fields)
  | other => JObj [(lit "ok", JBool true); (lit "result", other)]
  end.
Definition error_value (message : bytes) : Json := JObj [(lit "ok", JBool false); (lit "error", JStr message)].
(** [respond], and what a task makes of its outcome: a panic is caught. *)
Definition respond (work : res bytes Json) : Json :=
  match work with Ok value => ok_value value | Err message => error_value message | Panic => error_value (lit "the core panicked") end.
Definition field (key : bytes) (value : Json) : Json := JObj [(key, value)].

Definition IdentitySummary_of (now : Z) (i : Identity) : Json :=
  JObj [(lit "device_id", JStr (device_id i)); (lit "ipv4", JStr (ipv4 i)); (lit "ipv6", JStr (ipv6 i)); (lit "organization", JStr (organization i));
        (lit "gateway_proxy", JStr (gateway_proxy i)); (lit "assigned_endpoint", JStr (assigned_endpoint i));
        (lit "has_masque_cert", JBool (Account.has_masque_credentials now i)); (lit "cert_issued_at", JNum (cert_issued_at i));
        (lit "cert_usable", JBool (Account.cert_still_usable now i))].

(** ** Payloads *)

Record TeamPayload := mkTeamPayload {
  p_team : bytes; p_client_id : option bytes; p_client_secret : option bytes; p_token : option bytes; p_email : option bytes }.
Record OpenPayload := mkOpenPayload {
  p_path : bytes; p_transport : option bytes; p_model : option bytes; p_locale : option bytes; p_open_team : option TeamPayload }.
Record ScanPayload := mkScanPayload {
  p_scan_transport : option bytes; p_mode : option bytes; p_ip : option bytes; p_profile : option bytes; p_ports : option (list Z);
  p_excluded : option (list bytes); p_scan_ech : option bool }.
Record TunnelPayload := mkTunnelPayload {
  p_peer : bytes; p_tunnel_transport : option bytes; p_socks : option bytes; p_http : option bytes; p_tunnel_profile : option bytes;
  p_keepalive : option Z; p_ech : option bool }.

(** [serde_json::from_str] for each of them, with its error, and base64's decoder. *)
Class PayloadJson := {
  team_of_json : bytes -> bytes + TeamPayload;
  open_of_json : bytes -> bytes + OpenPayload;
  scan_of_json : bytes -> bytes + ScanPayload;
  tunnel_of_json : bytes -> bytes + TunnelPayload;
  strings_of_json : bytes -> bytes + list bytes;
  base64_decode : bytes -> bytes + bytes;
}.

(** A C string: [None] is the null pointer. *)
Definition read_str (raw : option bytes) : res bytes bytes :=
  match raw with
  | None => Err (lit "a required argument was null")
  | Some raw => match from_utf8 raw with Some text => Ok text | None => Err (lit "an argument was not valid utf-8") end
  end.
Definition read_json {A} (parse : bytes -> bytes + A) (raw : option bytes) : res bytes A :=
  text ← read_str raw;
  match parse text with inl e => Err (lit "the payload is not usable json: " ++ e) | inr a => Ok a end.

Definition described {A} (r : res AetherError A) : res bytes A := match r with Ok a => Ok a | Err e => Err (to_string e) | Panic => Panic end.
Definition socket_of (raw label : bytes) : res bytes SocketAddr :=
  match parse_socket_addr (trim raw) with
  | Some a => Ok a
  | None => Err (label ++ lit " '" ++ raw ++ lit "' is not an address:port")
  end.

Definition credentials `{UnicodeCase} (p : TeamPayload) : res bytes TeamSettings :=
  c ← described (TeamCredentials_new (p_team p));
  Ok (mkTeam (ZeroTrust.team c) (p_client_id p) (p_client_secret p) (p_token p) (p_email p)).

Section payloads.
Context `{UnicodeCase}.

Definition transport_of (raw : option bytes) : Transport := match raw with Some value => Transport_parse value | None => Masque end.

Definition scan_request (p : ScanPayload) : ScanRequest :=
  let r := scan_for_transport (transport_of (p_scan_transport p)) in
  mkScan (scan_transport r) (default (scan_mode r) (p_mode p)) (match p_ip p with Some ip => Prober.IpScan_parse ip | None => scan_ip r end)
    (match p_ports p with Some ports => if bool_decide (ports = []) then scan_ports r else ports | None => scan_ports r end)
    (list_to_set (omap (fun raw => parse_socket_addr (trim raw)) (default [] (p_excluded p))))
    (match p_profile p with Some profile => Noize.noize_from_profile profile | None => scan_noize r end)
    (match p_profile p with Some profile => Noize.aether_from_profile profile | None => scan_aethernoize r end).

Definition tunnel_spec_of (p : TunnelPayload) : res bytes TunnelSpec :=
  let spec := spec_for_transport (transport_of (p_tunnel_transport p)) in
  socks ← match p_socks p with Some raw => socket_of raw (lit "the socks address") | None => Ok (spec_socks spec) end;
  http ← match p_http p with Some raw => a ← socket_of raw (lit "the http proxy address"); Ok (Some a) | None => Ok (spec_http spec) end;
  Ok (mkSpec (spec_transport spec) socks http
        (match p_tunnel_profile p with Some profile => Noize.aether_from_profile profile | None => spec_aethernoize spec end)
        (default (spec_keepalive spec) (p_keepalive p)) (spec_verify_timeout spec)).
End payloads.

(** ** The registries *)

Inductive JobState := Running | Done (reply : Json).
(** What a task was started to do; [ech]: the job asks for an ECH key. *)
Inductive Work :=
| Open (path : bytes) (request : ProvisionRequest)
| Scan (identity : Identity) (request : ScanRequest) (ech : bool)
| Verify (identity : Identity) (peer : SocketAddr) (spec : TunnelSpec) (ech : bool)
| Tunnel (identity : Identity) (peer : SocketAddr) (spec : TunnelSpec) (ech : bool)
| Core (arguments : list bytes)
| SignIn (credentials : TeamSettings)
| CodeRequest (credentials : TeamSettings) (email : bytes)
| Resend (session : Z)
| Submit (session : Z) (code : bytes).
(** The cancel of a job is shared with its task, which goes on when the job is freed. *)
Record Task := mkTask { work : Work; cancelled : bool }.

Record Registry := mkRegistry {
  next : Z;
  jobs : gmap Z JobState;
  tasks : gmap Z Task;
  identities : gmap Z Identity;
  sessions : gmap Z EmailSignIn;
}.
Definition empty : Registry := mkRegistry 1 ∅ ∅ ∅ ∅.

Definition set_next (n : Z) (r : Registry) : Registry := mkRegistry n (jobs r) (tasks r) (identities r) (sessions r).
Definition set_jobs (m : gmap Z JobState) (r : Registry) : Registry := mkRegistry (next r) m (tasks r) (identities r) (sessions r).
Definition set_tasks (m : gmap Z Task) (r : Registry) : Registry := mkRegistry (next r) (jobs r) m (identities r) (sessions r).
Definition set_identities (m : gmap Z Identity) (r : Registry) : Registry := mkRegistry (next r) (jobs r) (tasks r) m (sessions r).
Definition set_sessions (m : gmap Z EmailSignIn) (r : Registry) : Registry := mkRegistry (next r) (jobs r) (tasks r) (identities r) m.

(** [fetch_add] wraps around. *)
Definition next_id (r : Registry) : Z * Registry := (next r, set_next (wrap_u64 (next r + 1)) r).

Definition cancel_task (id : Z) (r : Registry) : Registry := set_tasks (alter (fun t => mkTask (work t) true) id (tasks r)) r.

(** What is outside: the runtime, the clock, the memory of the token. *)
Record World := mkWorld { has_runtime : bool; now : Z; token_stored : res AetherError unit }.

(** A call gives its reply and the registries after it. *)
Definition R (A : Type) : Type := Registry -> res bytes A * Registry.
#[export] Instance R_ret : MRet R := fun A a r => (Ok a, r).
#[export] Instance R_bind : MBind R := fun A B f m r =>
  match m r with (Ok a, r) => f a r | (Err e, r) => (Err e, r) | (Panic, r) => (Panic, r) end.
Definition lift {A} (x : res bytes A) : R A := fun r => (x, r).
Definition known {A} (what : bytes) (m : Registry -> gmap Z A) (id : Z) : R A := fun r =>
  (match m r !! id with Some a => Ok a | None => Err (lit "there is no " ++ what ++ lit " " ++ dec id) end, r).
Definition identity_of : Z -> R Identity := known (lit "identity") identities.
Definition session_of : Z -> R EmailSignIn := known (lit "sign-in session") sessions.
Definition runtime (w : World) : R unit := lift (if has_runtime w then Ok tt else Err (lit "could not start the async runtime")).

Definition start_job (what : Work) : R Json := fun r =>
  let '(id, r) := next_id r in
  (Ok (field (lit "job") (JNum id)), set_tasks (<[id := mkTask what false]> (tasks r)) (set_jobs (<[id := Running]> (jobs r)) r)).
Definition spawn_job (w : World) (what : Work) : R Json := _ ← runtime w; start_job what.

Definition keep_identity (w : World) (identity : Identity) : R Json := fun r =>
  let '(id, r) := next_id r in
  (Ok (JObj [(lit "identity", JNum id); (lit "summary", IdentitySummary_of (now w) identity)]), set_identities (<[id := identity]> (identities r)) r).

Definition keep_session (session : EmailSignIn) : R Json := fun r =>
  let '(id, r) := next_id r in
  (Ok (JObj [(lit "session", JNum id); (lit "email", JStr (e_email session))]), set_sessions (<[id := session]> (sessions r)) r).
Definition renew_session (id : Z) (session : EmailSignIn) : R Json := fun r =>
  (Ok (field (lit "sent") (JBool true)), set_sessions (alter (fun _ => session) id (sessions r)) r).

(** ** The end of a task *)

(** What the calls of the task found; [key]: what the lookup of an ECH key gives, where it is made. *)
Inductive Found :=
| FIdentity (r : res AetherError Identity)
| FEndpoint (key : res AetherError bytes) (r : res AetherError Endpoint)
| FReachable (key : res AetherError bytes) (r : res AetherError bool)
| FEnded (key : res AetherError bytes) (r : res AetherError unit)
| FCore (r : res AetherError unit)
| FStopped
| FToken (r : res AetherError bytes)
| FSession (r : res AetherError EmailSignIn)
| FSubmitted (r : res AetherError (option bytes))
| FPanicked.

Definition put_field (key : bytes) (value : Json) (reply : Json) : Json :=
  match reply with JObj fields => JObj (put key value fields) | other => other end.

(** The key of a job that asks for one, or the error that ends it. *)
Definition job_ech `{PayloadJson} (want : bool) (t : Transport) (fetch : res AetherError bytes) : res bytes (option bytes) :=
  if want && bool_decide (t = Masque) then key ← described (job_ech_key base64_decode fetch); Ok (Some key) else Ok None.

(** The ends that a task comes to when it is cancelled.  [guard] is the only code of the crate that
    makes a [Cancelled], and its select takes that branch once [Cancel::wait] is over; the select
    of [aether_core_start] is the same.  A task that was not cancelled has no such end: the branch
    is not ready, and [finish] takes no step. *)
Definition stops_early (found : Found) : bool :=
  match found with
  | FEndpoint _ (Err Cancelled) | FReachable _ (Err Cancelled) | FEnded _ (Err Cancelled) | FStopped => true
  | _ => false
  end.

(** The reply of a task; [None]: no task ends so. *)
Definition ends `{PayloadJson} (w : World) (what : Work) (found : Found) : option (R Json) :=
  match what, found with
  | _, FPanicked => Some (lift Panic)
  | Open path _, FIdentity r => Some (
      identity ← lift (described r);
      reply ← keep_identity w identity;
      mret (put_field (lit "lastconn_path") (JStr (Session.lastconn_path path)) (put_field (lit "path") (JStr path) reply)))
  | Scan _ request ech, FEndpoint key r => Some (
      _ ← lift (job_ech ech (scan_transport request) key);
      found ← lift (described r);
      mret (field (lit "endpoint") (JObj [(lit "ip", JStr (ip_to_string (e_ip found))); (lit "port", JNum (e_port found)); (lit "rtt_ms", JNum (rtt_ms found))])))
  | Verify _ _ spec ech, FReachable key r => Some (
      _ ← lift (job_ech ech (spec_transport spec) key);
      reachable ← lift (described r); mret (field (lit "reachable") (JBool reachable)))
  | Tunnel _ _ spec ech, FEnded key r => Some (
      _ ← lift (job_ech ech (spec_transport spec) key);
      match r with
      | Err Cancelled => mret (field (lit "state") (JStr (lit "stopped")))
      | _ => _ ← lift (described r); mret (field (lit "state") (JStr (lit "closed")))
      end)
  | Core _, FStopped => Some (mret (field (lit "state") (JStr (lit "stopped"))))
  | Core _, FCore r => Some (_ ← lift (described r); mret (field (lit "state") (JStr (lit "closed"))))
  | SignIn _, FToken r => Some (token ← lift (described r); mret (field (lit "token") (JStr token)))
  | CodeRequest _ _, FSession r => Some (session ← lift (described r); keep_session session)
  | Resend id, FSession r => Some (session ← lift (described r); renew_session id session)
  | Submit _ _, FSubmitted r => Some (
      token ← lift (described r);
      mret match token with
           | Some token => JObj [(lit "signed_in", JBool true); (lit "token", JStr token)]
           | None => field (lit "signed_in") (JBool false)
           end)
  | _, _ => None
  end.

(** The task ends: its reply is kept where the job is, if it is still there. *)
Definition finish `{PayloadJson} (w : World) (id : Z) (found : Found) (r : Registry) : Registry :=
  match tasks r !! id with
  | Some t =>
      if stops_early found && negb (cancelled t) then r
      else match ends w (work t) found with
      | Some reply =>
          let '(reply, r) := reply r in
          set_jobs (alter (fun _ => Done (respond reply)) id (jobs r)) (set_tasks (delete id (tasks r)) r)
      | None => r
      end
  | None => r
  end.

(** ** The calls *)

Inductive Call :=
| aether_version
| aether_job_poll (id : Z)
| aether_job_cancel (id : Z)
| aether_job_free (id : Z)
| aether_identity_open (payload : option bytes)
| aether_identity_summary (id : Z)
| aether_identity_free (id : Z)
| aether_scan_start (identity : Z) (payload : option bytes)
| aether_verify_start (identity : Z) (payload : option bytes)
| aether_tunnel_start (identity : Z) (payload : option bytes)
| aether_core_start (arguments : option bytes)
| aether_team_sign_in (payload : option bytes)
| aether_team_code_request (payload : option bytes)
| aether_team_code_resend (session : Z)
| aether_team_code_submit (session : Z) (code : option bytes)
| aether_team_session_free (id : Z)
| aether_team_token_set (token : option bytes)
| aether_team_token_clear.

Section calls.
Context `{UnicodeCase} `{PayloadJson}.

(** [CARGO_PKG_VERSION] *)
Definition CORE_VERSION : bytes := lit "2.4.0".

Definition poll (id : Z) : R Json :=
  state ← known (lit "job") jobs id;
  mret match state with
       | Running => field (lit "state") (JStr (lit "running"))
       | Done result => JObj [(lit "state", JStr (lit "done")); (lit "result", result)]
       end.
Definition cancel (id : Z) : R Json := fun r => (Ok (field (lit "cancelled") (JNum id)), cancel_task id r).
Definition job_cancel (id : Z) : R Json := _ ← known (lit "job") jobs id; cancel id.
Definition job_free (id : Z) : R Json := fun r =>
  match jobs r !! id with
  | Some _ => (Ok (field (lit "freed") (JNum id)), cancel_task id (set_jobs (delete id (jobs r)) r))
  | None => (Ok (field (lit "freed") JNull), r)
  end.

Definition identity_free (id : Z) : R Json := fun r => (Ok (field (lit "freed") (JNum id)), set_identities (delete id (identities r)) r).
Definition session_free (id : Z) : R Json := fun r => (Ok (field (lit "freed") (JNum id)), set_sessions (delete id (sessions r)) r).

Definition identity_open (w : World) (raw : option bytes) : R Json :=
  payload ← lift (read_json open_of_json raw);
  let t := transport_of (p_transport payload) in
  let request := provision_for_transport t in
  team ← lift match p_open_team payload with Some team => c ← credentials team; Ok (Some c) | None => Ok None end;
  spawn_job w (Open (identity_path (p_path payload) t (ZeroTrust.team <$> team))
    (mkProvision (default (model request) (p_model payload)) (default (locale request) (p_locale payload)) team (masque_cert request))).

Definition scan_start (w : World) (identity : Z) (raw : option bytes) : R Json :=
  payload ← lift (read_json scan_of_json raw);
  identity ← identity_of identity;
  spawn_job w (Scan identity (scan_request payload) (default false (p_scan_ech payload))).

(** [aether_verify_start], [aether_tunnel_start] *)
Definition tunnel_job (w : World) (what : Identity -> SocketAddr -> TunnelSpec -> bool -> Work) (identity : Z) (raw : option bytes) : R Json :=
  payload ← lift (read_json tunnel_of_json raw);
  identity ← identity_of identity;
  peer ← lift (socket_of (p_peer payload) (lit "the peer address"));
  spec ← lift (tunnel_spec_of payload);
  spawn_job w (what identity peer spec (default false (p_ech payload))).

Definition core_start (w : World) (raw : option bytes) : R Json :=
  arguments ← lift match raw with
    | None => Ok []
    | Some _ =>
        text ← read_str raw;
        if bool_decide (trim text = []) then Ok []
        else match strings_of_json text with inl e => Err (lit "the argument list is not a json array of strings: " ++ e) | inr l => Ok l end
    end;
  spawn_job w (Core arguments).

Definition team_sign_in (w : World) (raw : option bytes) : R Json :=
  payload ← lift (read_json team_of_json raw);
  c ← lift (credentials payload);
  spawn_job w (SignIn c).
Definition code_request (w : World) (raw : option bytes) : R Json :=
  payload ← lift (read_json team_of_json raw);
  email ← lift match p_email payload with Some email => Ok email | None => Err (lit "an email address is needed to request a login code") end;
  c ← lift (credentials payload);
  spawn_job w (CodeRequest c email).

Definition call (w : World) (c : Call) : R Json :=
  match c with
  | aether_version => mret (field (lit "version") (JStr CORE_VERSION))
  | aether_job_poll id => poll id
  | aether_job_cancel id => job_cancel id
  | aether_job_free id => job_free id
  | aether_identity_open payload => identity_open w payload
  | aether_identity_summary id => identity ← identity_of id; mret (field (lit "summary") (IdentitySummary_of (now w) identity))
  | aether_identity_free id => identity_free id
  | aether_scan_start identity payload => scan_start w identity payload
  | aether_verify_start identity payload => tunnel_job w Verify identity payload
  | aether_tunnel_start identity payload => tunnel_job w Tunnel identity payload
  | aether_core_start arguments => core_start w arguments
  | aether_team_sign_in payload => team_sign_in w payload
  | aether_team_code_request payload => code_request w payload
  | aether_team_code_resend session => _ ← session_of session; spawn_job w (Resend session)
  | aether_team_code_submit session code => code ← lift (read_str code); _ ← session_of session; spawn_job w (Submit session code)
  | aether_team_session_free id => session_free id
  | aether_team_token_set token =>
      _ ← lift (read_str token); _ ← runtime w; _ ← lift (described (token_stored w)); mret (field (lit "stored") (JBool true))
  | aether_team_token_clear => _ ← runtime w; mret (field (lit "cleared") (JBool true))
  end.

(** ** Runs *)

Inductive Step := Called (w : World) (c : Call) | Ended (w : World) (id : Z) (found : Found).
Definition step (s : Step) (r : Registry) : Registry :=
  match s with Called w c => (call w c r).2 | Ended w id found => finish w id found r end.
Definition steps (l : list Step) (r : Registry) : Registry := fold_left (fun r s => step s r) l r.
(** What the app gets from a call. *)
Definition reply_to (w : World) (c : Call) (r : Registry) : Json := respond (call w c r).1.

End calls.

(** ** Handles *)

Record wf (r : Registry) : Prop := mkWf {
  wf_next : 1 <= next r;
  wf_jobs : forall id, is_Some (jobs r !! id) -> 1 <= id < next r;
  wf_tasks : forall id, is_Some (tasks r !! id) -> 1 <= id < next r;
  wf_identities : forall id, is_Some (identities r !! id) -> 1 <= id < next r;
  wf_sessions : forall id, is_Some (sessions r !! id) -> 1 <= id < next r;
  wf_running : forall id, jobs r !! id = Some Running -> is_Some (tasks r !! id);
  wf_done : forall id v, jobs r !! id = Some (Done v) -> tasks r !! id = None;
}.

Section handles.
Context `{UnicodeCase} `{PayloadJson}.

(** The task of a job, ended with a reply. *)
Definition ended (s : Step) (id : Z) (r r' : Registry) : Prop :=
  exists w found t f, s = Ended w id found /\ tasks r !! id = Some t /\ ends w (work t) found = Some f /\
    (stops_early found = true -> cancelled t = true) /\ tasks r' !! id = None /\
    jobs r' !! id = (fun _ => Done (respond (f r).1)) <$> jobs r !! id.

(** What a step may do to the registries. *)
Record moved (s : Step) (r r' : Registry) : Prop := mkMoved {
  mv_next : next r' = next r \/ next r' = next r + 1;
  mv_identities : forall id, identities r' !! id = identities r !! id \/ (id = next r /\ next r' = next r + 1) \/
    ((exists w, s = Called w (aether_identity_free id)) /\ identities r' !! id = None);
  mv_sessions : forall id, (is_Some (sessions r' !! id) <-> is_Some (sessions r !! id)) \/ (id = next r /\ next r' = next r + 1) \/
    ((exists w, s = Called w (aether_team_session_free id)) /\ sessions r' !! id = None);
  mv_jobs : forall id, jobs r' !! id = jobs r !! id \/ (id = next r /\ next r' = next r + 1 /\ jobs r' !! id = Some Running /\ is_Some (tasks r' !! id)) \/
    ((exists w, s = Called w (aether_job_free id)) /\ jobs r' !! id = None) \/ ended s id r r';
  mv_tasks : forall id, tasks r' !! id = tasks r !! id \/
    ((exists w, s = Called w (aether_job_cancel id) \/ s = Called w (aether_job_free id)) /\ work <$> tasks r' !! id = work <$> tasks r !! id) \/ (id = next r /\ next r' = next r + 1) \/ ended s id r r';
}.

Lemma moved_refl s r : moved s r r.
Proof. constructor; intros; by left. Qed.

Lemma wrap_next r : 1 <= next r -> next r + 1 <= U64_MAX -> wrap_u64 (next r + 1) = next r + 1.
Proof. intros H1 H2. apply Z.mod_small. unfold U64_MAX in H2. lia. Qed.

Lemma moved_start s what r : 1 <= next r -> next r + 1 <= U64_MAX -> moved s r (start_job what r).2.
Proof.
  intros H1 H2. cbn. rewrite wrap_next by done. constructor; cbn; [by right|by left..| |]; intros id; (destruct (decide (id = next r)) as [->|Hne];
    [|left; by rewrite lookup_insert_ne]); [right; left|right; right; left]; rewrite ?lookup_insert_eq; by eauto.
Qed.
Lemma cancel_work id r id' : work <$> tasks (cancel_task id r) !! id' = work <$> tasks r !! id'.
Proof.
  cbn. destruct (decide (id' = id)) as [->|Hne]; [|by rewrite lookup_alter_ne]. rewrite lookup_alter_eq. by destruct (tasks r !! id).
Qed.
Lemma cancel_moves s w id r id' : s = Called w (aether_job_cancel id) \/ s = Called w (aether_job_free id) ->
  tasks (cancel_task id r) !! id' = tasks r !! id' \/
  (exists w, s = Called w (aether_job_cancel id') \/ s = Called w (aether_job_free id')) /\ work <$> tasks (cancel_task id r) !! id' = work <$> tasks r !! id'.
Proof.
  intros Hs. destruct (decide (id' = id)) as [->|Hne]; [|left; cbn; by rewrite lookup_alter_ne]. right. split; [by exists w|]. apply cancel_work.
Qed.
Lemma moved_cancel w id r : moved (Called w (aether_job_cancel id)) r (cancel_task id r).
Proof. constructor; try by left. intros id'. destruct (cancel_moves _ w id r id' (or_introl eq_refl)) as [E|E]; [by left|by right; left]. Qed.
Lemma moved_job_free w id r : moved (Called w (aether_job_free id)) r (job_free id r).2.
Proof.
  unfold job_free. destruct (jobs r !! id) as [j|] eqn:Hj; [|apply moved_refl].
  constructor; [by left..| |]; intros id'; [|destruct (cancel_moves _ w id (set_jobs (delete id (jobs r)) r) id' (or_intror eq_refl)) as [E|E]; [by left|by right; left]]. cbn. destruct (decide (id' = id)) as [->|Hne]; [|left; by rewrite lookup_delete_ne].
  right; right; left. split; [by eauto|]. apply lookup_delete_eq.
Qed.
Lemma moved_identity_free w id r : moved (Called w (aether_identity_free id)) r (identity_free id r).2.
Proof.
  constructor; cbn; try by left. intros id'. destruct (decide (id' = id)) as [->|Hne]; [|left; by rewrite lookup_delete_ne].
  right; right. split; [by eauto|]. apply lookup_delete_eq.
Qed.
Lemma moved_session_free w id r : moved (Called w (aether_team_session_free id)) r (session_free id r).2.
Proof.
  constructor; cbn; try by left. intros id'. destruct (decide (id' = id)) as [->|Hne]; [|left; by rewrite lookup_delete_ne].
  right; right. split; [by eauto|]. apply lookup_delete_eq.
Qed.

(** A call reads the registries, then does one thing. *)
Definition does {A} (s : Step) (m : R A) : Prop := forall r, 1 <= next r -> next r + 1 <= U64_MAX -> moved s r (m r).2.
Lemma does_read {A B} s (m : R A) (f : A -> R B) : (forall r, (m r).2 = r) -> (forall a, does s (f a)) -> does s (m ≫= f).
Proof.
  intros Hm Hf r H1 H2. unfold mbind, R_bind. specialize (Hm r). destruct (m r) as [[a|e|] r1]; cbn [snd] in *; subst r1; [by apply Hf|apply moved_refl..].
Qed.
Lemma does_ret {A} s (a : A) : does s (mret a).
Proof. intros r _ _. apply moved_refl. Qed.
Lemma does_spawn s w what : does s (spawn_job w what).
Proof. apply does_read; [done|]. intros _ r. apply moved_start. Qed.

Ltac doing := repeat first [apply does_spawn|apply does_ret|apply does_read; [by intros|intros ?]].
Lemma does_call w c : does (Called w c) (call w c).
Proof.
  destruct c; cbn [call]; unfold poll, identity_open, scan_start, tunnel_job, core_start, team_sign_in, code_request; try by doing.
  - apply does_read; [done|]. intros _ r _ _. apply moved_cancel.
  - intros r _ _. apply moved_job_free.
  - intros r _ _. apply moved_identity_free.
  - intros r _ _. apply moved_session_free.
Qed.

(** The end of a task: what it does to the registries, then its own job. *)
Lemma does_end w what found f s : ends w what found = Some f -> 
  forall r, 1 <= next r -> next r + 1 <= U64_MAX -> let r1 := (f r).2 in
    jobs r1 = jobs r /\ tasks r1 = tasks r /\ moved s r (set_jobs (jobs r) (set_tasks (tasks r) r1)).
Proof.
  intros Hf r H1 H2. cbn zeta.
  assert (forall id : EmailSignIn, (forall i : Identity, moved s r (set_jobs (jobs r) (set_tasks (tasks r) (keep_identity w i r).2))) /\ moved s r (set_jobs (jobs r) (set_tasks (tasks r) (keep_session id r).2))) as Hkeep.
  { intros e. cbn. rewrite wrap_next by done. split; [intros i|]; (constructor; cbn; [by right|..]; intros id; try (by left);
      (destruct (decide (id = next r)) as [->|Hne]; [by right; left|left; by rewrite lookup_insert_ne])). }
  assert (moved s r (set_jobs (jobs r) (set_tasks (tasks r) r))) as Hrefl by (constructor; intros; by left).
  assert (forall id e, moved s r (set_jobs (jobs r) (set_tasks (tasks r) (renew_session id e r).2))) as Hrenew.
  { intros id e. constructor; cbn; try by left. intros id'. left. destruct (decide (id' = id)) as [->|Hne]; [|by rewrite lookup_alter_ne].
    rewrite lookup_alter_eq. by destruct (sessions r !! id). }
  destruct what, found; simplify_eq/=; try (by split_and!); unfold mbind, R_bind, lift, described;
    repeat match goal with |- context [job_ech ?b ?t ?k] => destruct (job_ech b t k) | x : res AetherError _ |- _ => destruct x as [?|[]|] end; cbn [snd]; try (by split_and!).
  - split_and!; [done..|]. exact (proj1 (Hkeep (ZeroTrust.mkSignIn [] [] [] [])) a).
  - split_and!; [done..|]. exact (proj2 (Hkeep a)).
  - split_and!; [done..|]. apply Hrenew.
Qed.

Lemma moved_finish w id found r : 1 <= next r -> next r + 1 <= U64_MAX -> moved (Ended w id found) r (finish w id found r).
Proof.
  intros H1 H2. unfold finish. destruct (tasks r !! id) as [t|] eqn:Ht; [|apply moved_refl].
  destruct (stops_early found && negb (cancelled t)) eqn:Hstop; [apply moved_refl|]. destruct (ends w (work t) found) as [f|] eqn:Hf; [|apply moved_refl].
  destruct (does_end w (work t) found f (Ended w id found) Hf r H1 H2) as (Hj & Hts & [M1 M2 M3 M4 M5]). destruct (f r) as [reply r1] eqn:E. cbn [fst snd] in *.
  assert (ended (Ended w id found) id r (set_jobs (alter (fun _ => Done (respond reply)) id (jobs r1)) (set_tasks (delete id (tasks r1)) r1))) as He.
  { exists w, found, t, f. split_and!; try done; [intros Hs; rewrite Hs in Hstop; by destruct (cancelled t)|apply lookup_delete_eq|]. rewrite E. cbn [jobs set_jobs fst]. by rewrite lookup_alter_eq, Hj. }
  constructor; [exact M1|exact M2|exact M3|..]; intros id'.
  - destruct (decide (id' = id)) as [->|Hne]; [by right; right; right|]. left. cbn. rewrite lookup_alter_ne by done. by rewrite Hj.
  - destruct (decide (id' = id)) as [->|Hne]; [by right; right; right|]. left. cbn. rewrite lookup_delete_ne by done. by rewrite Hts.
Qed.

Lemma moved_step s r : 1 <= next r -> next r + 1 <= U64_MAX -> moved s r (step s r).
Proof. destruct s; [apply does_call|apply moved_finish]. Qed.

Lemma moved_work s r r' : moved s r r' -> forall id,
  work <$> tasks r' !! id = work <$> tasks r !! id \/ (id = next r /\ next r' = next r + 1) \/ ended s id r r'.
Proof. intros M id. destruct (mv_tasks _ _ _ M id) as [E|[[_ E]|E]]; [left; by rewrite E|by left|by right]. Qed.

Lemma wf_step s r : wf r -> next r + 1 <= U64_MAX -> wf (step s r).
Proof.
  intros [W1 W2 W3 W4 W5 W6 W7] Hn. pose proof (moved_work _ _ _ (moved_step s r W1 Hn)) as M5. destruct (moved_step s r W1 Hn) as [M1 M2 M3 M4 _]. set (r' := step s r) in *. clearbody r'.
  constructor; [lia|..]; [intros id Hid..|intros id v Hid].
  - destruct (M4 id) as [E|[[-> E]|[[_ E]|(w & found & t & f & _ & Ht & _ & _ & _ & E)]]]; [rewrite E in Hid; specialize (W2 id Hid); lia|lia|by rewrite E in Hid; destruct Hid|].
    specialize (W3 id ltac:(by eexists)). lia.
  - destruct (M5 id) as [E|[[-> E]|(w & found & t & f & _ & _ & _ & _ & E & _)]]; [|lia|by rewrite E in Hid; destruct Hid].
    specialize (W3 id). destruct Hid as [t Ht]. rewrite Ht in E. destruct (tasks r !! id); [|done]. specialize (W3 ltac:(by eexists)). lia.
  - destruct (M2 id) as [E|[[-> E]|[_ E]]]; [rewrite E in Hid; specialize (W4 id Hid); lia|lia|by rewrite E in Hid; destruct Hid].
  - destruct (M3 id) as [E|[[-> E]|[_ E]]]; [apply E in Hid; specialize (W5 id Hid); lia|lia|by rewrite E in Hid; destruct Hid].
  - destruct (M4 id) as [E|[(-> & E & _ & Ht)|[[_ E]|(w & found & t & f & _ & _ & _ & _ & _ & E)]]]; [|done|by rewrite E in Hid|rewrite E in Hid; by destruct (jobs r !! id)].
    rewrite E in Hid. destruct (W6 id Hid) as [t Ht]. destruct (M5 id) as [E5|[[-> _]|(w & found & t' & f & _ & _ & _ & _ & _ & E5)]].
    + rewrite Ht in E5. by destruct (tasks r' !! id); [eexists|].
    + specialize (W3 (next r) ltac:(by eexists)). lia.
    + rewrite E, Hid in E5. done.
  - destruct (M4 id) as [E|[(-> & _ & E & _)|[[_ E]|(w & found & t & f & _ & _ & _ & _ & E & _)]]]; [|by rewrite E in Hid|by rewrite E in Hid|exact E].
    rewrite E in Hid. destruct (M5 id) as [E5|[[-> _]|(w & found & t & f & _ & _ & _ & _ & E5 & _)]]; [|specialize (W2 (next r) ltac:(by eexists)); lia|exact E5].
    rewrite (W7 id v Hid) in E5. by destruct (tasks r' !! id).
Qed.

Lemma steps_snoc l s r : steps (l ++ [s]) r = step s (steps l r).
Proof. unfold steps. by rewrite fold_left_app. Qed.
Lemma wf_steps l : forall r, wf r -> next r + blen l <= U64_MAX -> wf (steps l r) /\ next r <= next (steps l r) <= next r + blen l.
Proof.
  induction l as [|s l IH] using rev_ind; intros r Hr Hn; [split; [done|]; change (steps [] r) with r; change (blen []) with 0; lia|].
  rewrite blen_app in *. change (blen [s]) with 1 in *. pose proof (blen_nonneg l). destruct (IH r Hr ltac:(lia)) as [Hw Hb]. rewrite steps_snoc.
  destruct (moved_step s (steps l r) (wf_next _ Hw) ltac:(lia)) as [M1 _ _ _ _]. split; [apply wf_step; [done|lia]|]. lia.
Qed.

(** What a job has become, that was started as [t] and may since have been cancelled. *)
Definition cancel_asked (l : list Step) (id : Z) (t : Task) : Prop := cancelled t = true \/ exists w, Called w (aether_job_cancel id) ∈ l.
Definition job_now (l : list Step) (id : Z) (t : Task) (r' : Registry) : Prop :=
  (jobs r' !! id = Some Running /\ exists c, tasks r' !! id = Some (mkTask (work t) c) /\ (c = true -> cancel_asked l id t)) \/
  exists w found f r1, Ended w id found ∈ l /\ ends w (work t) found = Some f /\ (stops_early found = true -> cancel_asked l id t) /\
    jobs r' !! id = Some (Done (respond (f r1).1)).

Lemma cancel_asked_snoc l s id t : cancel_asked l id t -> cancel_asked (l ++ [s]) id t.
Proof. intros [Hc|[w Hw]]; [by left|right; exists w; set_solver]. Qed.

Lemma job_steps l id t : forall r, wf r -> next r + blen l <= U64_MAX -> (forall w, Called w (aether_job_free id) ∉ l) ->
  jobs r !! id = Some Running -> tasks r !! id = Some t -> job_now l id t (steps l r).
Proof.
  induction l as [|s l IH] using rev_ind; intros r Hr Hn Hfree Hj Ht.
  { left. split; [done|]. exists (cancelled t). split; [by destruct t|by left]. }
  rewrite blen_app in Hn. change (blen [s]) with 1 in Hn. pose proof (blen_nonneg l). destruct (wf_steps l r Hr ltac:(lia)) as [Hw Hb]. rewrite steps_snoc.
  destruct (moved_step s (steps l r) (wf_next _ Hw) ltac:(lia)) as [M1 M2 M3 M4 M5].
  assert (forall w, s <> Called w (aether_job_free id)) as Hs by (intros w ->; by apply (Hfree w); set_solver).
  specialize (IH r Hr ltac:(lia) ltac:(set_solver) Hj Ht). set (r0 := steps l r) in *. clearbody r0.
  assert (is_Some (jobs r0 !! id)) as Hsome by (by destruct IH as [[-> _]|(w & found & f & r1 & _ & _ & _ & ->)]).
  assert (id <> next r0) as Hne by (intros ->; pose proof (wf_jobs _ Hw _ Hsome); lia).
  destruct IH as [(Hr0 & c & Ht0 & Hc)|(w & found & f & r1 & Hin & Hf & Hstop & Hd)].
  - destruct (M4 id) as [E|[[-> _]|[[[w E] _]|(w & found & t' & f & E & Ht' & Hf & Hstop & _ & Hd)]]]; [|done|by destruct (Hs w)|].
    + left. split; [by rewrite E|]. destruct (M5 id) as [E5|[[[w [E5|E5]] Hwork]|[[-> _]|(w & found & t' & f & _ & _ & _ & _ & _ & E5)]]].
      * exists c. rewrite E5. split; [done|]. intros Hct. by apply cancel_asked_snoc, Hc.
      * rewrite Ht0 in Hwork. destruct (tasks (step s r0) !! id) as [t'|]; [|done]. cbn in Hwork. injection Hwork as <-.
        exists (cancelled t'). split; [by destruct t'|]. intros _. right. exists w. set_solver.
      * by destruct (Hs w).
      * done.
      * by rewrite E, Hr0 in E5.
    + right. rewrite Ht' in Ht0. injection Ht0 as ->. cbn [work cancelled] in Hf, Hstop. exists w, found, f, r0. split_and!; [set_solver|done| |by rewrite Hd, Hr0].
      intros Hse. by apply cancel_asked_snoc, Hc, Hstop.
  - right. exists w, found, f, r1. split_and!; [set_solver|done|intros Hse; by apply cancel_asked_snoc, Hstop|].
    destruct (M4 id) as [E|[[-> _]|[[[w' E] _]|(w' & found' & t' & f' & E & Ht' & _)]]]; [by rewrite E|done|by destruct (Hs w')|].
    by rewrite (wf_done _ Hw _ _ Hd) in Ht'.
Qed.

(** What a job has said, it says until it is freed. *)
Lemma done_steps l id v : forall r, wf r -> next r + blen l <= U64_MAX -> (forall w, Called w (aether_job_free id) ∉ l) ->
  jobs r !! id = Some (Done v) -> jobs (steps l r) !! id = Some (Done v).
Proof.
  induction l as [|s l IH] using rev_ind; intros r Hr Hn Hfree Hj; [done|].
  rewrite blen_app in Hn. change (blen [s]) with 1 in Hn. pose proof (blen_nonneg l). destruct (wf_steps l r Hr ltac:(lia)) as [Hw Hb]. rewrite steps_snoc.
  destruct (moved_step s (steps l r) (wf_next _ Hw) ltac:(lia)) as [_ _ _ M4 _]. specialize (IH r Hr ltac:(lia) ltac:(set_solver) Hj).
  destruct (M4 id) as [E|[(-> & _)|[[[w E] _]|(w & found & t & f & _ & Ht' & _)]]]; [by rewrite E| | |].
  - pose proof (wf_jobs _ Hw _ ltac:(by eexists)). lia.
  - destruct (Hfree w). rewrite <- E. set_solver.
  - by rewrite (wf_done _ Hw _ _ IH) in Ht'.
Qed.

Lemma identity_steps l id i : forall r, wf r -> next r + blen l <= U64_MAX -> (forall w, Called w (aether_identity_free id) ∉ l) ->
  identities r !! id = Some i -> identities (steps l r) !! id = Some i.
Proof.
  induction l as [|s l IH] using rev_ind; intros r Hr Hn Hfree Hj; [done|].
  rewrite blen_app in Hn. change (blen [s]) with 1 in Hn. pose proof (blen_nonneg l). destruct (wf_steps l r Hr ltac:(lia)) as [Hw Hb]. rewrite steps_snoc.
  destruct (moved_step s (steps l r) (wf_next _ Hw) ltac:(lia)) as [_ M2 _ _ _]. specialize (IH r Hr ltac:(lia) ltac:(set_solver) Hj).
  destruct (M2 id) as [E|[(-> & _)|[[w E] _]]]; [by rewrite E| |].
  - pose proof (wf_identities _ Hw _ ltac:(by eexists)). lia.
  - destruct (Hfree w). rewrite <- E. set_solver.
Qed.

Lemma session_steps l id : forall r, wf r -> next r + blen l <= U64_MAX -> (forall w, Called w (aether_team_session_free id) ∉ l) ->
  is_Some (sessions r !! id) -> is_Some (sessions (steps l r) !! id).
Proof.
  induction l as [|s l IH] using rev_ind; intros r Hr Hn Hfree Hj; [done|].
  rewrite blen_app in Hn. change (blen [s]) with 1 in Hn. pose proof (blen_nonneg l). destruct (wf_steps l r Hr ltac:(lia)) as [Hw Hb]. rewrite steps_snoc.
  destruct (moved_step s (steps l r) (wf_next _ Hw) ltac:(lia)) as [_ _ M3 _ _]. specialize (IH r Hr ltac:(lia) ltac:(set_solver) Hj).
  destruct (M3 id) as [E|[(-> & _)|[[w E] _]]]; [by apply E| |].
  - pose proof (wf_sessions _ Hw _ IH). lia.
  - destruct (Hfree w). rewrite <- E. set_solver.
Qed.

(** A handle that is new is none that was given out before. *)
Lemma fresh_steps l id : forall r, wf r -> next r + blen l <= U64_MAX -> id < next r ->
  (jobs r !! id = None -> jobs (steps l r) !! id = None) /\ (identities r !! id = None -> identities (steps l r) !! id = None) /\
  (sessions r !! id = None -> sessions (steps l r) !! id = None).
Proof.
  induction l as [|s l IH] using rev_ind; intros r Hr Hn Hid; [done|].
  rewrite blen_app in Hn. change (blen [s]) with 1 in Hn. pose proof (blen_nonneg l). destruct (wf_steps l r Hr ltac:(lia)) as [Hw Hb]. rewrite steps_snoc.
  destruct (moved_step s (steps l r) (wf_next _ Hw) ltac:(lia)) as [_ M2 M3 M4 _]. destruct (IH r Hr ltac:(lia) Hid) as (I1 & I2 & I3). split_and!; intros Hno.
  - specialize (I1 Hno). destruct (M4 id) as [E|[(-> & _)|[[_ E]|(w & found & t & f & _ & _ & _ & _ & _ & E)]]]; [by rewrite E|lia|done|by rewrite E, I1].
  - specialize (I2 Hno). destruct (M2 id) as [E|[(-> & _)|[_ E]]]; [by rewrite E|lia|done].
  - specialize (I3 Hno). destruct (M3 id) as [E|[(-> & _)|[_ E]]]; [|lia|done]. apply eq_None_not_Some. intros Hs. apply E in Hs. rewrite I3 in Hs. by destruct Hs.
Qed.

Lemma put_ok (fields : list (bytes * Json)) key value : (key, value) ∈ put key value fields.
Proof. induction fields as [|[k v] fields IH]; cbn; [set_solver|]. case_bool_decide; set_solver. Qed.
Lemma respond_ok x : exists fields b, respond x = JObj fields /\ (lit "ok", JBool b) ∈ fields.
Proof.
  destruct x as [v|e|]; [|eexists _, false; split; [done|]; set_solver..].
  destruct v; try (eexists _, true; split; [done|]; set_solver). exists (put (lit "ok") (JBool true) fields), true. split; [done|]. apply put_ok.
Qed.
End handles.

(** C26.  Handles answer for their own.  Whatever the app calls and in whatever order the tasks
    end, short of two to the sixty-four handles: the registries stay well formed; a job runs the
    task it was started with until that task ends, then says the reply of that end, unchanged
    until it is freed, and has stopped early only when it was cancelled (no task ends by a
    cancel before: see [stops_early]); an identity and a session are there until they are freed;
    a handle that was freed is never given out again; and every call gives a reply that says
    whether it worked. *)
Theorem handles_answer_for_their_own `{UnicodeCase} `{PayloadJson} r l :
  wf r -> next r + blen l <= U64_MAX ->
  wf (steps l r) /\
  (forall id t, (forall w, Called w (aether_job_free id) ∉ l) -> jobs r !! id = Some Running -> tasks r !! id = Some t ->
    job_now l id t (steps l r)) /\
  (forall id v, (forall w, Called w (aether_job_free id) ∉ l) -> jobs r !! id = Some (Done v) -> jobs (steps l r) !! id = Some (Done v)) /\
  (forall id i, (forall w, Called w (aether_identity_free id) ∉ l) -> identities r !! id = Some i -> identities (steps l r) !! id = Some i) /\
  (forall id, (forall w, Called w (aether_team_session_free id) ∉ l) -> is_Some (sessions r !! id) -> is_Some (sessions (steps l r) !! id)) /\
  (forall id, id < next r -> (jobs r !! id = None -> jobs (steps l r) !! id = None) /\ (identities r !! id = None -> identities (steps l r) !! id = None) /\
    (sessions r !! id = None -> sessions (steps l r) !! id = None)) /\
  (forall w c, exists fields b, reply_to w c (steps l r) = JObj fields /\ (lit "ok", JBool b) ∈ fields).
Proof.
  intros Hr Hn. split_and!.
  - by apply wf_steps.
  - intros id t Hfree Hj Ht. by apply job_steps.
  - intros id v Hfree Hj. by apply done_steps.
  - intros id i Hfree Hi. by apply identity_steps.
  - intros id Hfree Hs. by apply session_steps.
  - intros id Hid. by apply fresh_steps.
  - intros w c. apply respond_ok.
Qed.

Lemma empty_wf : wf empty.
Proof.
  constructor; cbn; [done|..]; try (intros id [x Hx]); try (intros id v Hx || intros id Hx); by rewrite lookup_empty in Hx.
Qed.

Section examples.
Local Existing Instance ascii_case.
Local Instance plain_payloads : PayloadJson := {|
  team_of_json text := inr (mkTeamPayload text None None None None);
  open_of_json text := inr (mkOpenPayload text None None None None);
  scan_of_json _ := inr (mkScanPayload None None None None None None None);
  tunnel_of_json text := inr (mkTunnelPayload text None None None None None None);
  strings_of_json text := inr [text]; base64_decode text := inr text |}.
Definition example_world : World := mkWorld true 0 (Ok tt).
Definition example_identity : Identity := Config.mkIdentity (lit "device") [] [] [] 0 (lit "172.16.0.2") [] (replicate 32 1) (replicate 32 2) [0; 0; 0] [] [] [] false.
Definition opening : list Step := [Called example_world (aether_identity_open (Some (lit "aether.toml")))].

Lemma handles_answer_for_their_own_witness :
  wf (steps (opening ++ [Ended example_world 1 (FIdentity (Ok example_identity))]) empty) /\
  identities (steps (opening ++ [Ended example_world 1 (FIdentity (Ok example_identity))]) empty) !! 2 = Some example_identity.
Proof.
  split; [|vm_compute; reflexivity].
  apply (handles_answer_for_their_own empty (opening ++ [Ended example_world 1 (FIdentity (Ok example_identity))])); [exact empty_wf|vm_compute; discriminate].
Defined.

(** An identity a freed job opens is kept under a handle nobody is told. *)
Example freed_job_leaves_identity :
  let r := steps (opening ++ [Called example_world (aether_job_free 1); Ended example_world 1 (FIdentity (Ok example_identity))]) empty in
  jobs r !! 1 = None /\ identities r !! 2 = Some example_identity.
Proof. vm_compute. done. Qed.

End examples.

End Ffi.
