(* ===== verification/Tor.v ===== *)
(** * Tor ([tor.rs])

    The settings of Tor, the configuration a client is made with, and how a client that works
    is found: over the bridges given by hand, on its own, transport by transport, over every
    bridge together.  Arti reads bridges and proxies (a class) and boots clients; what becomes of
    each attempt is an argument, one after another, and the clients that are made or put to sleep
    are a log, the newest first. *)

From stdpp Require Import gmap.
From S2P Require Import Prelude Str Ip Text Error Prober Config Upstream Bridges.
Local Open Scope Z_scope.

Module Tor.
Import Error.
Import Bridges(Transport, mkTransport, protocols, path, Plan, plan_lines, transports, transport_of).
Import Upstream(Upstream, socks_address, endpoint).

(** ** Settings *)

Inductive Mode := Off | Chain | Reverse | Only.
Definition label (m : Mode) : bytes :=
  match m with
  | Off => lit "off"
  | Chain => lit "tor through the tunnel"
  | Reverse => lit "the tunnel through tor"
  | Only => lit "tor alone"
  end.

Definition OFF_WORDS : list bytes := [lit "off"; lit "no"; lit "0"; lit "false"; lit "none"].
Definition AUTO_WORDS : list bytes := [lit "auto"; lit "on"; lit "1"; lit "yes"; lit "true"; lit "force"].

Inductive BridgePolicy := Disabled | Manual (lines : list bytes) | Auto (forced : bool).

Section settings.
Context `{UnicodeCase}.
Variable env : bytes -> option bytes.

Definition mode : Mode :=
  match env (lit "AETHER_TOR") with
  | None => Off
  | Some value =>
      let raw := to_lowercase (trim value) in
      if Prober.one_of raw [[]; lit "0"; lit "off"; lit "false"; lit "no"] then Off
      else if Prober.one_of raw [lit "reverse"; lit "rev"; lit "warp-over-tor"] then Reverse
      else if Prober.one_of raw [lit "only"; lit "alone"; lit "tor-only"; lit "direct"] then Only
      else Chain
  end.

Definition listen_address : SocketAddr :=
  default (mkSocketAddr (V4 2130706433) 1820) (value ← env (lit "AETHER_TOR_BIND"); parse_socket_addr (trim value)).

Definition http_listen_address : option SocketAddr :=
  value ← env (lit "AETHER_TOR_HTTP");
  let value := trim value in
  if bool_decide (value = []) || bool_decide (value = lit "off") then None else parse_socket_addr value.

(** [Path::file_stem] *)
Definition file_stem (path : bytes) : option bytes :=
  (fun name => match rsplit_once 46 name with Some ([], _) | None => name | Some (stem, _) => stem end) <$> Config.file_name path.

(** [<stem>-tor], beside the file. *)
Definition beside (base_config : bytes) : bytes :=
  let name := default (lit "aether") (from_utf8_lossy <$> file_stem base_config) ++ lit "-tor" in
  match Config.parent base_config with
  | Some parent => if negb (bool_decide (parent = [])) then Config.push_name parent name else name
  | None => name
  end.
Definition state_dir (base_config : bytes) : bytes :=
  match env (lit "AETHER_TOR_DIR") with
  | Some dir => if negb (bool_decide (trim dir = [])) then trim dir else beside base_config
  | None => beside base_config
  end.

(** ** The bridges given *)

Definition read_bridge_lines (text : bytes) : list bytes :=
  let nonempty (line : bytes) := negb (bool_decide (line = [])) in
  List.filter nonempty
    (map (fun line => trim match strip_prefix (lit "Bridge ") line with
                           | Some rest => rest
                           | None => default line (strip_prefix (lit "bridge ") line)
                           end)
       (List.filter (fun line => nonempty line && negb (starts_with [35] line)) (map trim (lines text)))).

(** [read]: what [fs::read_to_string] gives. *)
Definition bridges_from_file (read : bytes -> option bytes) : list bytes :=
  match env (lit "AETHER_TOR_BRIDGE_FILE") with
  | Some value => if bool_decide (trim value = []) then [] else match read (trim value) with Some text => read_bridge_lines text | None => [] end
  | None => []
  end.

(** [split(['\n', ';'])] *)
Definition separates (b : Z) : bool := (b =? 10) || (b =? 59).

Definition bridges (read : bytes -> option bytes) : BridgePolicy :=
  let from_file := bridges_from_file read in
  let trimmed := trim (default [] (env (lit "AETHER_TOR_BRIDGES"))) in
  let word := to_lowercase trimmed in
  if negb (bool_decide (from_file = [])) then
    Manual (from_file ++ if Prober.one_of word ([] :: OFF_WORDS ++ AUTO_WORDS) then []
                         else read_bridge_lines (map (fun b => if b =? 59 then 10 else b) trimmed))
  else if bool_decide (word = []) then Auto false
  else if Prober.one_of word OFF_WORDS then Disabled
  else if Prober.one_of word AUTO_WORDS then Auto true
  else
    let lines := List.filter (fun line => negb (bool_decide (line = []))) (map trim (split_chars separates trimmed)) in
    if bool_decide (lines = []) then Auto false else Manual lines.

Definition bridge_lines (read : bytes -> option bytes) : list bytes := match bridges read with Manual lines => lines | _ => [] end.

(** ** The transports given *)

(** [transports()]: the protocol and the program of each entry. *)
Definition given_transports : list (bytes * bytes) :=
  omap (fun entry =>
    let entry := trim entry in
    if bool_decide (entry = []) then None
    else match split_once 61 entry with
         | Some (protocol, path) => Some (trim protocol, trim path)
         | None => Some (lit "obfs4", entry)
         end) (split_chars separates (default [] (env (lit "AETHER_TOR_PT")))).

(** What [==] compares of two paths. *)
Definition components (path : bytes) : bool * list bytes :=
  let pieces := split_char 47 path in
  let named := List.filter (fun c => negb (bool_decide (c = [])) && negb (bool_decide (c = lit "."))) pieces in
  (starts_with [47] path, match pieces with first :: _ => if bool_decide (first = lit ".") then first :: named else named | [] => named end).

Fixpoint hold (protocol path : bytes) (grouped : list Transport) : list Transport :=
  match grouped with
  | [] => [mkTransport [protocol] path]
  | held :: grouped =>
      if bool_decide (components (Bridges.path held) = components path) then
        (if negb (bool_decide (protocol ∈ protocols held)) then mkTransport (protocols held ++ [protocol]) (Bridges.path held) else held) :: grouped
      else held :: hold protocol path grouped
  end.
Definition manual_transports : list Transport := fold_left (fun grouped '(protocol, path) => hold protocol path grouped) given_transports [].

(** ** Times, in seconds *)

Definition DIRECT_PROBE : Z := 75.
Definition BRIDGE_PROBE : Z := 360.
Definition STALL_LIMIT : Z := 75.
Definition PROOF_LIMIT : Z := 45.
Definition WAVE_TRIES : nat := 2.
Definition FOREVER : Z := USIZE_MAX.
Definition REVERSE_ATTEMPTS : Z := 3.

Definition secs_setting (name : bytes) (dflt : Z) : Z := default dflt (value ← env name; parse_u64 (trim value)).
Definition direct_probe : Z := secs_setting (lit "AETHER_TOR_DIRECT_SECS") DIRECT_PROBE.
Definition bridge_probe : Z := secs_setting (lit "AETHER_TOR_BRIDGE_SECS") BRIDGE_PROBE.
Definition stall_limit : Z := secs_setting (lit "AETHER_TOR_STALL_SECS") STALL_LIMIT.

Definition proof_target : bytes * Z :=
  let raw := trim (default [] (env (lit "AETHER_TOR_CHECK"))) in
  if bool_decide (raw = []) then (lit "check.torproject.org", 443)
  else match rsplit_once 58 raw with
       | Some (host, port) => (host, default 443 (parse_u16 port))
       | None => (raw, 443)
       end.
End settings.

(** ** A client *)

(** What arti makes of a proxy, a bridge line, the name of a protocol, and of a whole
    configuration: nothing to object to, or an error. *)
Record TorConfig := mkTorConfig {
  cache_dir : bytes;
  data_dir : bytes;
  outbound : option SocketAddr;
  taken : list bytes;
  launched : list Transport;
}.
#[export] Instance TorConfig_eq_dec : EqDecision TorConfig.
Proof. intros [] []. unfold Decision. repeat decide equality. Defined.

Class Arti := {
  reads_proxy : bytes -> option bytes;
  reads_bridge : bytes -> option bytes;
  reads_protocol : bytes -> option bytes;
  builds : TorConfig -> option bytes;
}.

(** A turn of the loop of [boot]: the client is up or has failed, or its headway is looked at,
    after so many seconds, the last headway being made at [seen]. *)
Inductive Turn := Bootstrapped (e : option bytes) | Checked (elapsed seen : Z).
Inductive Proven := Reached | Unreachable (e : bytes) | Silent.

(** What becomes of an attempt: the directories, the client made, its turns, the proof, whether
    the deadline comes first; and the numbers drawn to shuffle its bridges. *)
Record Attempt := mkAttempt {
  a_dirs : option bytes;
  a_client : option bytes;
  a_turns : list Turn;
  a_proof : Proven;
  a_expired : bool;
  a_pick : nat -> nat;
}.

(** The log: a client made, put to sleep, a transport remembered, a pause before another try. *)
Inductive Act := Client (config : TorConfig) | Dormant | Remembered (name : bytes) | Paused.
Record State := mkState { left : list Attempt; acts : list Act }.
(** [None]: it goes on. *)
Definition R (A : Type) : Type := State -> option (res AetherError A) * State.
#[export] Instance R_ret : MRet R := fun A a s => (Some (Ok a), s).
#[export] Instance R_bind : MBind R := fun A B f m s =>
  match m s with
  | (Some (Ok a), s) => f a s
  | (Some (Err e), s) => (Some (Err e), s)
  | (Some Panic, s) => (Some Panic, s)
  | (None, s) => (None, s)
  end.
Definition fails {A} (e : AetherError) : R A := fun s => (Some (Err e), s).
Definition log (a : Act) : R unit := fun s => (Some (Ok tt), mkState (left s) (a :: acts s)).

Section clients.
Context `{UnicodeCase} `{Arti}.
Variable env : bytes -> option bytes.
(** [upstream::configured()], the directory of the state, [install_hint()]. *)
Variable upstream : option Upstream.
Variable state : bytes.
Variable hint : bytes.

Definition upstream_socks : option SocketAddr := u ← upstream; socks_address u.

Definition outbound_of (through : option SocketAddr) : res AetherError (option SocketAddr) :=
  match match through with Some p => Some p | None => upstream_socks end with
  | Some proxy =>
      match reads_proxy (lit "socks5://" ++ sa_to_string proxy) with
      | None => Ok (Some proxy)
      | Some e => Err (Other (lit "tor cannot dial through " ++ sa_to_string proxy ++ lit ": " ++ e))
      end
  | None =>
      match upstream with
      | Some u => Err (Other (lit "tor cannot dial through the upstream proxy at " ++ endpoint u ++ lit ": it takes a socks5 address without a password"))
      | None => Ok None
      end
  end.

Fixpoint check_protocols (ps : list bytes) : res AetherError unit :=
  match ps with
  | [] => Ok tt
  | p :: ps => match reads_protocol p with None => check_protocols ps | Some e => Err (Other (lit "transport '" ++ p ++ lit "': " ++ e)) end
  end.

Definition planned (plan : option Plan) : res AetherError (list bytes * list Transport) :=
  match plan with
  | None => Ok ([], [])
  | Some plan =>
      let taken := List.filter (fun line => bool_decide (reads_bridge line = None)) (plan_lines plan) in
      if bool_decide (taken = []) then Err (Other (lit "none of the bridges could be read by tor"))
      else _ ← check_protocols (concat (map protocols (transports plan))); Ok (taken, transports plan)
  end.

Definition build_config (through : option SocketAddr) (plan : option Plan) (slot : option bytes) (a : Attempt) : res AetherError TorConfig :=
  _ ← match a_dirs a with Some e => Err (Io e) | None => Ok tt end;
  let home := match slot with Some name => Config.push_name (Config.push_name state (lit "attempts")) name | None => state end in
  outbound ← outbound_of through;
  '(taken, launched) ← planned plan;
  let config := mkTorConfig (Config.push_name home (lit "cache")) (Config.push_name home (lit "state")) outbound taken launched in
  match builds config with None => Ok config | Some e => Err (Other (lit "tor configuration: " ++ e)) end.

Definition prove (p : Proven) : res AetherError unit :=
  let '(host, port) := proof_target env in
  let target := host ++ lit ":" ++ dec port in
  match p with
  | Reached => Ok tt
  | Unreachable e => Err (Other (lit "tor came up but could not reach " ++ target ++ lit ": " ++ e))
  | Silent => Err (Other (lit "tor came up but " ++ target ++ lit " stayed silent for " ++ dec PROOF_LIMIT ++ lit "s"))
  end.

(** The turns; with no limit the headway is not looked at. *)
Fixpoint boot_turns (stall : option Z) (l : list Turn) : option (res AetherError unit) :=
  match l with
  | [] => None
  | Bootstrapped None :: _ => Some (Ok tt)
  | Bootstrapped (Some e) :: _ => Some (Err (Other e))
  | Checked elapsed seen :: l =>
      match stall with
      | Some limit =>
          let quiet := saturating_sub elapsed seen in
          if limit <=? quiet then Some (Err (Other (lit "no headway for " ++ dec quiet ++ lit "s"))) else boot_turns stall l
      | None => boot_turns stall l
      end
  end.

(** [boot], within the deadline of [stage], for a client that was made. *)
Definition boot (stall : option Z) (a : Attempt) : option (res AetherError unit) :=
  match boot_turns stall (a_turns a) with Some (Ok _) => Some (prove (a_proof a)) | r => r end.
Definition boot_within (deadline stall : option Z) (a : Attempt) : option (res AetherError unit) :=
  match deadline with
  | Some limit => if a_expired a then Some (Err (Other (lit "no answer in " ++ dec limit ++ lit "s"))) else boot stall a
  | None => boot stall a
  end.

(** One attempt: a client that does not come up, or is not waited for any longer, sleeps. *)
Definition attempt (deadline stall : option Z) (config : TorConfig) (a : Attempt) : R TorConfig := fun s =>
  match a_client a with
  | Some e => (Some (Err (Other (lit "tor client: " ++ e))), s)
  | None =>
      let made := Client config :: acts s in
      match boot_within deadline stall a with
      | Some (Ok _) => (Some (Ok config), mkState (left s) made)
      | Some (Err e) => (Some (Err e), mkState (left s) (Dormant :: made))
      | Some Panic => (Some Panic, mkState (left s) (Dormant :: made))
      | None => (None, mkState (left s) made)
      end
  end.

Section stage.
Variables (through : option SocketAddr) (plan : option Plan) (attempts : Z) (deadline stall : option Z) (slot : option bytes).

(** The attempts there are, in order. *)
Fixpoint stage_loop (tried : Z) (l : list Attempt) (before : list Act) : option (res AetherError TorConfig) * State :=
  match l with
  | [] => (None, mkState [] before)
  | a :: l =>
      let tried := tried + 1 in
      match build_config through plan slot a with
      | Ok config =>
          match attempt deadline stall config a (mkState l before) with
          | (Some (Err e), s) => if attempts <=? tried then (Some (Err e), s) else stage_loop tried l (Paused :: acts s)
          | r => r
          end
      | Err e => (Some (Err e), mkState l before)
      | Panic => (Some Panic, mkState l before)
      end
  end.
Definition stage : R TorConfig := fun s => stage_loop 0 (left s) (acts s).
End stage.

(** ** Transport by transport *)

(** What is found on the disk and in the network: the programs that speak a transport, the lines
    [fetch] gives and their source, which bridges answer a probe, the transport that worked last. *)
Record World := mkWorld { w_found : list Transport; w_fetched : list bytes * bytes; w_answers : SocketAddr -> bool; w_worked : option bytes }.
Variable w : World.

Section establish.
Variable through : option SocketAddr.

Definition shuffled (pick : nat -> nat) (wave : Plan) : Plan :=
  Bridges.mkPlan (Bridges.shuffle pick (plan_lines wave)) (transports wave) (Bridges.missing wave) (Bridges.source wave).

(** One go of a wave. *)
Definition go (name : bytes) (wave : Plan) : R TorConfig := fun s =>
  match left s with
  | a :: _ => stage through (Some (shuffled (a_pick a) wave)) 1 (Some (bridge_probe env)) (Some (stall_limit env)) (Some name) s
  | [] => (None, s)
  end.

Fixpoint try_wave (name : bytes) (wave : Plan) (rounds : nat) : R (option TorConfig) :=
  match rounds with
  | O => mret None
  | S rounds => fun s =>
      match go name wave s with
      | (Some (Ok client), s) => (_ ← log (Remembered name); mret (Some client)) s
      | (Some (Err _), s) => try_wave name wave rounds s
      | (Some Panic, s) => (Some Panic, s)
      | (None, s) => (None, s)
      end
  end.

Fixpoint try_waves (waves : list (bytes * Plan)) : R (option TorConfig) :=
  match waves with
  | [] => mret None
  | (name, wave) :: waves =>
      client ← try_wave name wave WAVE_TRIES;
      match client with Some client => mret (Some client) | None => try_waves waves end
  end.
Definition try_each_transport (plan : Plan) : R (option TorConfig) := try_waves (Bridges.waves plan (w_worked w)).

(** ** A client that works *)

(** [bridges::plan], with the programs that are found. *)
Definition plan_of (lines : list bytes) (source : bytes) : Plan := Bridges.plan_with lines source (manual_transports env) (w_found w).
Definition has_no_lines (plan : Plan) : bool := bool_decide (plan_lines plan = []).
Definition auto_plan : Plan :=
  plan_of (Bridges.keep_reachable (bool_decide (is_Some through)) (bool_decide (is_Some upstream)) (w_answers w) (w_fetched w).1) (w_fetched w).2.

Definition may_fall_back (policy : BridgePolicy) : bool :=
  match policy, through with
  | Disabled, _ => false
  | Auto forced, Some _ => forced
  | Manual _, Some _ => false
  | _, None => true
  end.
Definition forced (policy : BridgePolicy) : bool := match policy with Auto forced => forced | _ => false end.

Definition over_bridges (rounds : Z) : R TorConfig :=
  if has_no_lines auto_plan then
    fails (Other (lit "tor is blocked on this network and no pluggable transport is installed, so no bridge can be used; " ++ hint))
  else
    client ← try_each_transport auto_plan;
    match client with
    | Some client => mret client
    | None => stage through (Some auto_plan) rounds None None (Some (lit "all"))
    end.

(** On its own; a failure is one only where bridges may not be fallen back on. *)
Definition on_its_own (policy : BridgePolicy) (rounds : Z) : R (option TorConfig) := fun s =>
  let falls := may_fall_back policy in
  match stage through None (if falls then 1 else rounds) (if falls then Some (direct_probe env) else None) None (Some (lit "direct")) s with
  | (Some (Ok client), s) => (Some (Ok (Some client)), s)
  | (Some (Err e), s) => if negb falls then (Some (Err e), s) else (Some (Ok None), s)
  | (Some Panic, s) => (Some Panic, s)
  | (None, s) => (None, s)
  end.

Definition establish (policy : BridgePolicy) (rounds : Z) : R TorConfig :=
  match policy with
  | Manual lines =>
      let plan := plan_of lines (lit "given by hand") in
      if has_no_lines plan then fails (Other (lit "the bridges you gave need a pluggable transport that is not installed; " ++ hint))
      else stage through (Some plan) rounds None None None
  | _ =>
      if negb (forced policy) then
        client ← on_its_own policy rounds;
        match client with Some client => mret client | None => over_bridges rounds end
      else over_bridges rounds
  end.
End establish.

(** [run_chain], [run_only] and [start_reverse], up to the client they serve. *)
Definition client_of_chain (read : bytes -> option bytes) (carrier : SocketAddr) : R TorConfig := establish (Some carrier) (bridges env read) FOREVER.
Definition client_of_only (read : bytes -> option bytes) : R TorConfig := establish None (bridges env read) FOREVER.
Definition client_of_reverse (read : bytes -> option bytes) : R TorConfig := establish None (bridges env read) REVERSE_ATTEMPTS.
End clients.

(** ** What every client does *)

(** The clients that are awake: none is made while another is. *)
Fixpoint awake (l : list Act) : list TorConfig :=
  match l with
  | [] => []
  | Client c :: l => c :: awake l
  | Dormant :: l => tail (awake l)
  | _ :: l => awake l
  end.
Definition clients_in (l : list Act) : list TorConfig := omap (fun a => match a with Client c => Some c | _ => None end) l.

Section spec.
Context `{UnicodeCase} `{Arti}.
Variable env : bytes -> option bytes.
Variable upstream : option Upstream.
Variable state hint : bytes.

(** Through the tunnel, or through the upstream where there is one. *)
Definition dials (through : option SocketAddr) (c : TorConfig) : Prop :=
  match through with
  | Some p => outbound c = Some p
  | None => match upstream with Some u => is_Some (socks_address u) /\ outbound c = socks_address u | None => outbound c = None end
  end.

(** What the settings say about bridges. *)
Definition as_told (policy : BridgePolicy) (c : TorConfig) : Prop :=
  match policy with
  | Disabled => taken c = [] /\ launched c = []
  | Manual lines => taken c <> [] /\ forall b, b ∈ taken c -> b ∈ lines
  | Auto forced => forced = true -> taken c <> []
  end.

Lemma outbound_dials through o c : outbound_of upstream through = Ok o -> outbound c = o -> dials through c.
Proof.
  unfold outbound_of, dials, upstream_socks. destruct through as [p|]; [destruct (reads_proxy _); [done|]; by intros [= <-]|].
  destruct upstream as [u|]; cbn [mbind option_bind]; [|by intros [= <-]].
  destruct (socks_address u) as [p|]; [|done]. destruct (reads_proxy _); [done|]. by intros [= <-].
Qed.

Lemma build_config_spec through plan slot a c :
  build_config upstream state through plan slot a = Ok c ->
  dials through c /\
  match plan with
  | None => taken c = [] /\ launched c = []
  | Some p => taken c <> [] /\ (forall b, b ∈ taken c <-> b ∈ plan_lines p /\ reads_bridge b = None) /\ launched c = transports p
  end.
Proof.
  unfold build_config. intros (u & _ & (o & Ho & ([taken launched] & Hp & Hc)%res_bind_Ok)%res_bind_Ok)%res_bind_Ok.
  destruct (builds _); [done|]. injection Hc as <-. split; [by eapply outbound_dials|]. unfold planned in Hp. destruct plan as [p|]; [|by injection Hp as <- <-].
  case_bool_decide; [done|]. apply res_bind_Ok in Hp as (u' & _ & [= <- <-]). cbn. split; [done|]. split; [|done].
  intros b. rewrite list_elem_of_In, filter_In, <- list_elem_of_In, bool_decide_eq_true. done.
Qed.

(** What an operation does to the log: the clients it makes are as [P] says, and only the one it
    gives is left awake. *)
Definition safe {A} (P : TorConfig -> Prop) (client : A -> option TorConfig) (m : R A) : Prop :=
  forall s, awake (acts s) = [] ->
  let '(r, s') := m s in
  (exists new, acts s' = new ++ acts s /\ Forall P (clients_in new)) /\
  match r with
  | Some (Ok a) => match client a with Some c => awake (acts s') = [c] /\ P c | None => awake (acts s') = [] end
  | Some _ => awake (acts s') = []
  | None => (length (awake (acts s')) <= 1)%nat
  end.

Lemma tor_safe_ret {A} P client (a : A) : client a = None -> safe P client (mret a).
Proof. intros Ha s Hs. cbn. rewrite Ha. split; [by exists []|done]. Qed.
Lemma tor_safe_fails {A} P client e : safe P client (fails (A := A) e).
Proof. intros s Hs. cbn. split; [by exists []|done]. Qed.

Lemma clients_in_app l l' : clients_in (l ++ l') = clients_in l ++ clients_in l'.
Proof. unfold clients_in. apply omap_app. Qed.

(** Operations one after another, each ending with no client awake but the last. *)
Lemma safe_trans P l l1 l' (r : Prop) :
  (exists new, l1 = new ++ l /\ Forall P (clients_in new)) ->
  (exists new, l' = new ++ l1 /\ Forall P (clients_in new)) /\ r ->
  (exists new, l' = new ++ l /\ Forall P (clients_in new)) /\ r.
Proof.
  intros (n1 & -> & H1) [(n2 & -> & H2) Hr]. split; [|done]. exists (n2 ++ n1). rewrite clients_in_app, Forall_app. split; [by rewrite <- app_assoc|done].
Qed.

Lemma attempt_safe P deadline stall config a : P config -> safe P Some (attempt env deadline stall config a).
Proof.
  intros HP s Hs. unfold attempt. destruct (a_client a); [split; [by exists []|done]|].
  destruct (boot_within _ _ _ _) as [[u|e|]|]; cbn [acts awake].
  - split; [exists [Client config]; split; [done|by constructor]|]. by rewrite Hs.
  - split; [exists [Dormant; Client config]; split; [done|by constructor]|]. by rewrite Hs.
  - split; [exists [Dormant; Client config]; split; [done|by constructor]|]. by rewrite Hs.
  - split; [exists [Client config]; split; [done|by constructor]|]. rewrite Hs. cbn. lia.
Qed.

Lemma stage_safe P through plan attempts deadline stall slot :
  (forall a c, build_config upstream state through plan slot a = Ok c -> P c) ->
  safe P Some (stage env upstream state through plan attempts deadline stall slot).
Proof.
  intros HP [l before]. unfold stage. cbn [left acts]. generalize 0 as tried. revert before.
  induction l as [|a l IH]; intros before tried Hs; cbn [stage_loop].
  { split; [by exists []|]. cbn [acts] in *. rewrite Hs. cbn. lia. }
  destruct (build_config _ _ _ _ _ _) as [config|e|] eqn:Hb; [|split; [by exists []|done]..].
  pose proof (attempt_safe P deadline stall config a (HP a config Hb) (mkState l before) Hs) as Ha.
  destruct (attempt env deadline stall config a (mkState l before)) as [[[c|e|]|] s1]; try exact Ha.
  destruct (attempts <=? tried + 1); [exact Ha|]. destruct Ha as [H1 H2].
  specialize (IH (Paused :: acts s1) (tried + 1) H2). destruct (stage_loop _ _ _ _ _ _ _ _ _ _ _ _) as [r s']. cbn [acts] in *.
  eapply (safe_trans P _ (Paused :: acts s1)); [|exact IH]. destruct H1 as (new & E & Hn). exists (Paused :: new). cbn [acts]. by rewrite E.
Qed.

(** A client that is found is given back; without one the next operation is tried. *)
Lemma safe_or P (m : R (option TorConfig)) (n : R TorConfig) :
  safe P id m -> safe P Some n -> safe P Some (client ← m; match client with Some client => mret client | None => n end).
Proof.
  intros Hm Hn s Hs. specialize (Hm s Hs). unfold mbind, R_bind. destruct (m s) as [[[[c|]|e|]|] s1]; cbn [id] in Hm; try exact Hm.
  destruct Hm as [H1 H2]. specialize (Hn s1 H2). destruct (n s1) as [r s']. by eapply safe_trans.
Qed.
Lemma safe_or_some P (m n : R (option TorConfig)) :
  safe P id m -> safe P id n -> safe P id (client ← m; match client with Some client => mret (Some client) | None => n end).
Proof.
  intros Hm Hn s Hs. specialize (Hm s Hs). unfold mbind, R_bind. destruct (m s) as [[[[c|]|e|]|] s1]; cbn [id] in Hm; try exact Hm.
  destruct Hm as [H1 H2]. specialize (Hn s1 H2). destruct (n s1) as [r s']. by eapply safe_trans.
Qed.

Section establish.
Variable w : World.
Variable through : option SocketAddr.

Lemma go_safe P name wave :
  (forall plan slot a c, build_config upstream state through (Some plan) slot a = Ok c -> P c) -> safe P Some (go env upstream state through name wave).
Proof.
  intros HP s Hs. unfold go. destruct (left s) as [|a l] eqn:El; [split; [by exists []|rewrite Hs; cbn; lia]|].
  exact (stage_safe P through _ 1 _ _ _ (HP _ _) s Hs).
Qed.

Lemma try_wave_safe P name wave rounds :
  (forall plan slot a c, build_config upstream state through (Some plan) slot a = Ok c -> P c) -> safe P id (try_wave env upstream state through name wave rounds).
Proof.
  intros HP. induction rounds as [|rounds IH]; cbn [try_wave]; [by apply tor_safe_ret|]. intros s Hs. pose proof (go_safe P name wave HP s Hs) as Hg.
  destruct (go _ _ _ _ _ _ s) as [[[c|e|]|] s1]; try exact Hg.
  - destruct Hg as [(new & E & Hn) [H1 H2]]. cbn. split; [|done]. exists (Remembered name :: new). by rewrite E.
  - destruct Hg as [H1 H2]. specialize (IH s1 H2). destruct (try_wave _ _ _ _ _ _ _ s1) as [r s']. by eapply safe_trans.
Qed.

Lemma try_waves_safe P waves :
  (forall plan slot a c, build_config upstream state through (Some plan) slot a = Ok c -> P c) -> safe P id (try_waves env upstream state through waves).
Proof.
  intros HP. induction waves as [|[name wave] waves IH]; cbn [try_waves]; [by apply tor_safe_ret|]. apply safe_or_some; [by apply try_wave_safe|exact IH].
Qed.

Lemma over_bridges_safe P rounds :
  (forall plan slot a c, build_config upstream state through (Some plan) slot a = Ok c -> P c) -> safe P Some (over_bridges env upstream state hint w through rounds).
Proof.
  intros HP. unfold over_bridges. destruct (has_no_lines _); [apply tor_safe_fails|]. apply safe_or; [by apply try_waves_safe|apply stage_safe, HP].
Qed.

Lemma on_its_own_safe P policy rounds :
  (forall slot a c, build_config upstream state through None slot a = Ok c -> P c) -> safe P id (on_its_own env upstream state through policy rounds).
Proof.
  intros HP s Hs. unfold on_its_own. pose proof (stage_safe P through None (if may_fall_back through policy then 1 else rounds)
    (if may_fall_back through policy then Some (direct_probe env) else None) None (Some (lit "direct")) (HP _) s Hs) as Hst.
  destruct (stage _ _ _ _ _ _ _ _ _ s) as [[[c|e|]|] s1]; try exact Hst. destruct (negb _); exact Hst.
Qed.

Lemma bridged P : (forall c, dials through c -> taken c <> [] -> P c) ->
  forall plan slot a c, build_config upstream state through (Some plan) slot a = Ok c -> P c.
Proof. intros HP plan slot a c (Hd & Ht & _)%build_config_spec. by apply HP. Qed.
Lemma unbridged P : (forall c, dials through c -> taken c = [] -> launched c = [] -> P c) ->
  forall slot a c, build_config upstream state through None slot a = Ok c -> P c.
Proof. intros HP slot a c (Hd & Ht & Hl)%build_config_spec. by apply HP. Qed.

(** A plan keeps lines that were given. *)
Lemma plan_of_lines lines source b : b ∈ plan_lines (plan_of env w lines source) -> b ∈ lines.
Proof.
  unfold plan_of, Bridges.plan_with. destruct (Bridges.add_found _ _ _) as [claimed ts]. cbn [plan_lines].
  rewrite list_elem_of_In, filter_In, <- list_elem_of_In. by intros [? _].
Qed.

Lemma establish_safe policy rounds :
  safe (fun c => dials through c /\ as_told policy c) Some (establish env upstream state hint w through policy rounds).
Proof.
  unfold establish. destruct policy as [|lines|forced_].
  - cbn [forced negb]. intros s Hs. pose proof (on_its_own_safe (fun c => dials through c /\ as_told Disabled c) Disabled rounds) as Ho.
    specialize (Ho ltac:(apply unbridged; intros c Hd Ht Hl; by split) s Hs). unfold mbind, R_bind.
    destruct (on_its_own env upstream state through Disabled rounds s) as [[[[c|]|e|]|] s1] eqn:E; try exact Ho. exfalso. revert E. unfold on_its_own. cbn [may_fall_back].
    destruct (stage _ _ _ _ _ _ _ _ _ s) as [[[c|e|]|] s2]; done.
  - destruct (has_no_lines _); [apply tor_safe_fails|]. apply stage_safe. intros a c (Hd & Ht & Hin & _)%build_config_spec. split; [done|]. split; [done|].
    intros b Hb%Hin. destruct Hb as [Hb _]. by eapply plan_of_lines.
  - cbn [forced]. assert (safe (fun c => dials through c /\ as_told (Auto forced_) c) Some (over_bridges env upstream state hint w through rounds)) as Hover.
    { apply over_bridges_safe, bridged. intros c Hd Ht. split; [done|by intros _]. }
    destruct forced_; cbn [negb]; [exact Hover|]. apply safe_or; [|exact Hover]. apply on_its_own_safe, unbridged. intros c Hd Ht Hl. by split.
Qed.
End establish.

(** ** It settles *)

(** An attempt that ends by itself. *)
Definition ends (a : Attempt) : Prop := a_client a <> None \/ forall stall, boot_turns stall (a_turns a) <> None.

(** With [n] attempts that end, the operation does, after at most [n] of them. *)
Definition settles {A} (n : nat) (m : R A) : Prop := forall s, Forall ends (left s) -> (n <= length (left s))%nat ->
  exists r k, (m s).1 = Some r /\ (k <= n)%nat /\ left (m s).2 = drop k (left s).

Lemma settles_ret {A} n (a : A) : settles n (mret a).
Proof. intros s _ _. exists (Ok a), O. split; [done|]. split; [lia|]. by rewrite drop_0. Qed.
Lemma settles_fails {A} n e : settles n (fails (A := A) e).
Proof. intros s _ _. exists (Err e), O. split; [done|]. split; [lia|]. by rewrite drop_0. Qed.
Lemma settles_le {A} n n' (m : R A) : settles n m -> (n <= n')%nat -> settles n' m.
Proof. intros Hm Hn s Hs Hl. destruct (Hm s Hs ltac:(lia)) as (r & k & H1 & H2 & H3). exists r, k. split; [done|]. split; [lia|done]. Qed.

Lemma Forall_left_drop k s : Forall ends (left s) -> Forall ends (drop k (left s)).
Proof. apply Forall_drop. Qed.

Lemma settles_bind {A B} n k (m : R A) (f : A -> R B) : settles n m -> (forall a, settles k (f a)) -> settles (n + k) (m ≫= f).
Proof.
  intros Hm Hf s Hs Hl. destruct (Hm s Hs ltac:(lia)) as (r & i & E & Hi & Hd). unfold mbind, R_bind. destruct (m s) as [o s1]. cbn [fst snd] in *. subst o.
  destruct r as [a|e|]; [|exists (Err e), i; split; [done|]; split; [lia|done]|exists Panic, i; split; [done|]; split; [lia|done]].
  destruct (Hf a s1) as (r & j & E & Hj & Hd2); [rewrite Hd; by apply Forall_drop|rewrite Hd, length_drop; lia|].
  exists r, (i + j)%nat. split; [done|]. split; [lia|]. by rewrite Hd2, Hd, drop_drop.
Qed.

Lemma boot_ends deadline stall a : a_client a = None -> ends a -> boot_within env deadline stall a <> None.
Proof.
  intros Hc [Hn|He]; [done|]. specialize (He stall). assert (boot env stall a <> None) as Hb.
  { unfold boot. by destruct (boot_turns stall (a_turns a)) as [[u|e|]|]. }
  unfold boot_within. destruct deadline; [|done]. by destruct (a_expired a).
Qed.

Lemma attempt_ends deadline stall config a s : ends a ->
  exists r, (attempt env deadline stall config a s).1 = Some r /\ left (attempt env deadline stall config a s).2 = left s.
Proof.
  intros He. unfold attempt. destruct (a_client a) as [e|] eqn:Hc; [by eexists|]. pose proof (boot_ends deadline stall a Hc He) as Hb.
  destruct (boot_within _ _ _ _) as [[u|e|]|]; [by eexists..|done].
Qed.

Lemma stage_settles through plan attempts deadline stall slot : 1 <= attempts ->
  settles (Z.to_nat attempts) (stage env upstream state through plan attempts deadline stall slot).
Proof.
  intros Ha [l before] Hl Hn. unfold stage. cbn [left acts] in *.
  enough (forall n tried before, 0 <= tried < attempts -> n = Z.to_nat (attempts - tried) -> (n <= length l)%nat ->
    exists r k, (stage_loop env upstream state through plan attempts deadline stall slot tried l before).1 = Some r /\ (k <= n)%nat /\
      left (stage_loop env upstream state through plan attempts deadline stall slot tried l before).2 = drop k l) as Hloop.
  { apply Hloop; [lia|by rewrite Z.sub_0_r|done]. }
  clear before Hn. induction l as [|a l IH]; intros n tried before Ht En Hn; [cbn in Hn; lia|]. cbn [stage_loop]. cbn [length] in Hn.
  apply Forall_cons in Hl as [He Hl].
  destruct (build_config _ _ _ _ _ _) as [config|e|]; [|exists (Err e), 1%nat; split; [done|]; split; [lia|done]|exists Panic, 1%nat; split; [done|]; split; [lia|done]].
  destruct (attempt_ends deadline stall config a (mkState l before) He) as (r & E & Hleft).
  destruct (attempt env deadline stall config a (mkState l before)) as [o s1]. cbn [fst snd left] in *. subst o.
  destruct r as [c|e|]; [exists (Ok c), 1%nat; split; [done|]; split; [lia|done]| |exists Panic, 1%nat; split; [done|]; split; [lia|done]].
  destruct (attempts <=? tried + 1) eqn:Hlast; zbool; [exists (Err e), 1%nat; split; [done|]; split; [lia|done]|].
  destruct (IH Hl (n - 1)%nat (tried + 1) (Paused :: acts s1)) as (r & k & E & Hk & Hd); [lia|lia|lia|].
  exists r, (S k). split; [done|]. split; [lia|done].
Qed.

Section settled.
Variable w : World.
Variable through : option SocketAddr.

Lemma go_settles name wave : settles 1 (go env upstream state through name wave).
Proof.
  intros s Hs Hl. unfold go. destruct (left s) as [|a l] eqn:El; [cbn in Hl; lia|]. rewrite <- El in *.
  exact (stage_settles through _ 1 _ _ _ ltac:(lia) s Hs Hl).
Qed.

Lemma try_wave_settles name wave rounds : settles rounds (try_wave env upstream state through name wave rounds).
Proof.
  induction rounds as [|rounds IH]; cbn [try_wave]; [apply settles_ret|]. intros s Hs Hl.
  destruct (go_settles name wave s Hs ltac:(lia)) as (r & k & E & Hk & Hd). destruct (go _ _ _ _ _ _ s) as [o s1]. cbn [fst snd] in *. subst o.
  destruct r as [c|e|]; [exists (Ok (Some c)), k; split; [done|]; split; [lia|done]| |exists Panic, k; split; [done|]; split; [lia|done]].
  destruct (IH s1) as (r & j & E & Hj & Hd2); [rewrite Hd; by apply Forall_drop|rewrite Hd, length_drop; lia|].
  exists r, (k + j)%nat. split; [done|]. split; [lia|]. by rewrite Hd2, Hd, drop_drop.
Qed.

Lemma try_waves_settles waves : settles (WAVE_TRIES * length waves) (try_waves env upstream state through waves).
Proof.
  induction waves as [|[name wave] waves IH]; cbn [try_waves]; [apply settles_ret|].
  apply (settles_le (WAVE_TRIES + WAVE_TRIES * length waves)); [|cbn [length]; lia].
  apply settles_bind; [apply try_wave_settles|]. intros [c|]; [apply settles_ret|exact IH].
Qed.

Definition waves_of : list (bytes * Plan) := Bridges.waves (auto_plan env upstream w through) (w_worked w).

(** How many attempts there may be. *)
Definition attempts_at_most (policy : BridgePolicy) (rounds : nat) : nat :=
  match policy with
  | Manual _ => rounds
  | Disabled => rounds
  | Auto true => WAVE_TRIES * length waves_of + rounds
  | Auto false => if may_fall_back through policy then 1 + (WAVE_TRIES * length waves_of + rounds) else rounds
  end.

Lemma over_bridges_settles rounds : 1 <= rounds ->
  settles (WAVE_TRIES * length waves_of + Z.to_nat rounds) (over_bridges env upstream state hint w through rounds).
Proof.
  intros Hr. unfold over_bridges. destruct (has_no_lines _); [apply settles_fails|]. apply settles_bind; [apply try_waves_settles|].
  intros [c|]; [apply settles_ret|by apply stage_settles].
Qed.

(** Where bridges may not be fallen back on, an end is an end. *)
Lemma on_its_own_settles policy rounds : 1 <= rounds ->
  settles (Z.to_nat (if may_fall_back through policy then 1 else rounds)) (on_its_own env upstream state through policy rounds) /\
  (may_fall_back through policy = false -> forall s s', on_its_own env upstream state through policy rounds s <> (Some (Ok None), s')).
Proof.
  intros Hr. split.
  - intros s Hs Hl. unfold on_its_own. destruct (stage_settles through None (if may_fall_back through policy then 1 else rounds)
      (if may_fall_back through policy then Some (direct_probe env) else None) None (Some (lit "direct")) ltac:(destruct (may_fall_back _ _); lia) s Hs Hl) as (r & k & E & Hk & Hd).
    destruct (stage _ _ _ _ _ _ _ _ _ s) as [o s1]. cbn [fst snd] in *. subst o.
    destruct r as [c|e|]; [|destruct (negb _)|]; (eexists _, k; split; [reflexivity|]; split; [exact Hk|exact Hd]).
  - intros Hf s s'. unfold on_its_own. rewrite Hf. by destruct (stage _ _ _ _ _ _ _ _ _ s) as [[[c|e|]|] s1].
Qed.

(** What is not fallen back from. *)
Lemma settles_or n (m : R (option TorConfig)) (f : R TorConfig) : settles n m -> (forall s s', m s <> (Some (Ok None), s')) ->
  settles n (client ← m; match client with Some client => mret client | None => f end).
Proof.
  intros Hm Hno s Hs Hl. destruct (Hm s Hs Hl) as (r & k & E & Hk & Hd). specialize (Hno s). unfold mbind, R_bind. destruct (m s) as [o s1]. cbn [fst snd] in *. subst o.
  destruct r as [[c|]|e|]; [|by destruct (Hno s1)|..]; (eexists _, k; split; [reflexivity|]; split; [exact Hk|exact Hd]).
Qed.

Lemma establish_settles policy rounds : 1 <= rounds ->
  settles (attempts_at_most policy (Z.to_nat rounds)) (establish env upstream state hint w through policy rounds).
Proof.
  intros Hr. unfold establish. destruct policy as [|lines|[|]]; cbn [forced negb attempts_at_most].
  - destruct (on_its_own_settles Disabled rounds Hr) as [Hs Hno]. apply settles_or; [exact Hs|by apply Hno].
  - destruct (has_no_lines _); [apply settles_fails|by apply stage_settles].
  - by apply over_bridges_settles.
  - destruct (on_its_own_settles (Auto false) rounds Hr) as [Hs Hno]. destruct (may_fall_back through (Auto false)).
    + apply (settles_bind 1 _ _ _ Hs). intros [c|]; [apply settles_ret|by apply over_bridges_settles].
    + apply settles_or; [exact Hs|by apply Hno].
Qed.
End settled.
End spec.

(** C10.  Tor goes where it was told.  Whatever becomes of the attempts, every client that is made
    has the tunnel it is given as its outbound proxy, or the upstream where one is set, which has
    to be one it can dial through; with bridges given by hand it has only those, and at least one,
    with bridges asked for at least one, with bridges turned off none; and it is the only one awake:
    none is left awake after an error, and only the one that serves after a success. *)
Theorem tor_goes_where_told `{UnicodeCase} `{Arti} env upstream state hint w through policy rounds s :
  acts s = [] ->
  let '(r, s') := establish env upstream state hint w through policy rounds s in
  Forall (fun c => dials upstream through c /\ as_told policy c) (clients_in (acts s')) /\
  match r with
  | Some (Ok c) => awake (acts s') = [c]
  | Some _ => awake (acts s') = []
  | None => (length (awake (acts s')) <= 1)%nat
  end.
Proof.
  intros Hs. pose proof (establish_safe env upstream state hint w through policy rounds s ltac:(by rewrite Hs)) as He.
  destruct (establish _ _ _ _ _ _ _ _ s) as [r s']. destruct He as [(new & -> & Hn) Hr]. rewrite Hs, app_nil_r in *. split; [done|].
  destruct r as [[c|e|]|]; try done. by destruct Hr.
Qed.

(** C29.  The search for a client ends.  With attempts that end, it gives a client or an error after
    at most one attempt of its own, two for each transport, and the rounds it was given. *)
Theorem tor_search_ends `{UnicodeCase} `{Arti} env upstream state hint w through policy rounds s :
  1 <= rounds -> Forall ends (left s) -> (attempts_at_most env upstream w through policy (Z.to_nat rounds) <= length (left s))%nat ->
  exists r k, (establish env upstream state hint w through policy rounds s).1 = Some r /\
    (k <= attempts_at_most env upstream w through policy (Z.to_nat rounds))%nat /\
    left (establish env upstream state hint w through policy rounds s).2 = drop k (left s).
Proof. intros Hr Hs Hl. by apply establish_settles. Qed.

(** ** Bridges given in a list *)

(** A line as a bridge is written: no separator, and a plain character at both its ends. *)
Definition bridge_line (l : bytes) : Prop :=
  forallb (fun b => negb (separates b)) l = true /\ exists b m e, l = b :: m ++ [e] /\ plain b = true /\ plain e = true.
Definition joined (ls : list bytes) : bytes := match ls with [] => [] | l :: ls => l ++ concat (map (fun l => [59] ++ l) ls) end.

Lemma bridge_line_trim l : bridge_line l -> trim l = l /\ l <> [].
Proof.
  intros (_ & b & m & e & -> & Hb & He). split; [|done]. change (b :: m ++ [e]) with ((b :: m) ++ [e]). apply trim_ends; [done| |done]. cbn. by rewrite He.
Qed.

Lemma split_joined_bridges l ls : Forall bridge_line (l :: ls) -> split_chars separates (joined (l :: ls)) = l :: ls.
Proof.
  revert l. induction ls as [|l' ls IH]; intros l [[Hl _] Hls]%Forall_cons; cbn [joined map concat].
  - rewrite app_nil_r. by apply split_chars_none.
  - cbn [app]. change (59 :: l' ++ concat (map (fun l => 59 :: l) ls)) with ([59] ++ joined (l' :: ls)).
    rewrite split_chars_app by done. by rewrite IH.
Qed.

Lemma joined_ends l ls : Forall bridge_line (l :: ls) -> exists b m e, joined (l :: ls) = b :: m ++ [e] /\ plain b = true /\ plain e = true.
Proof.
  revert l. induction ls as [|l' ls IH]; intros l [(_ & b & m & e & -> & Hb & He) Hls]%Forall_cons.
  - exists b, m, e. cbn. by rewrite app_nil_r.
  - destruct (IH l' Hls) as (b' & m' & e' & E & Hb' & He'). exists b, (m ++ [e] ++ [59] ++ b' :: m'), e'. split; [|done].
    change (joined ((b :: m ++ [e]) :: l' :: ls)) with ((b :: m ++ [e]) ++ [59] ++ joined (l' :: ls)). rewrite E. cbn. by rewrite <- !app_assoc.
Qed.

Lemma trim_joined ls : Forall bridge_line ls -> trim (joined ls) = joined ls.
Proof.
  destruct ls as [|l ls]; [done|]. intros Hls. destruct (joined_ends l ls Hls) as (b & m & e & -> & Hb & He).
  change (b :: m ++ [e]) with ((b :: m) ++ [e]). apply trim_ends; [done| |done]. cbn. by rewrite He.
Qed.

(** Bridges written one after another are the bridges there are, unless they spell a word. *)
Lemma joined_bridges_read `{UnicodeCase} env read l ls :
  Forall bridge_line (l :: ls) -> bridges_from_file env read = [] -> env (lit "AETHER_TOR_BRIDGES") = Some (joined (l :: ls)) ->
  Prober.one_of (to_lowercase (joined (l :: ls))) ([] :: OFF_WORDS ++ AUTO_WORDS) = false ->
  bridges env read = Manual (l :: ls).
Proof.
  intros Hls Hf He Hw. unfold bridges. cbn zeta. rewrite Hf, He. change (default [] (Some ?x)) with x. rewrite bool_decide_true by done. cbn [negb].
  rewrite trim_joined, split_joined_bridges by done.
  unfold Prober.one_of in Hw. cbn [existsb] in Hw. apply orb_false_iff in Hw as [Hx%bool_decide_eq_false Hw]. rewrite (bool_decide_false _ Hx). rewrite existsb_app in Hw. apply orb_false_iff in Hw as [H1 H2].
  unfold Prober.one_of. rewrite H1, H2.
  assert (map trim (l :: ls) = l :: ls) as ->.
  { clear -Hls. induction Hls as [|x xs Hx Hxs IH]; [done|]. cbn [map]. rewrite IH. by destruct (bridge_line_trim x Hx) as [-> _]. }
  assert (List.filter (fun line => negb (bool_decide (line = []))) (l :: ls) = l :: ls) as ->.
  { clear -Hls. induction Hls as [|x xs Hx Hxs IH]; [done|]. cbn [List.filter]. rewrite IH. by rewrite bool_decide_false by (by destruct (bridge_line_trim x Hx)). }
  by rewrite bool_decide_false.
Qed.

(** ** Witnesses *)

Section examples.
Local Existing Instance ascii_case.
Local Instance plain_arti : Arti := {| reads_proxy _ := None; reads_bridge line := if starts_with (lit "#") line then Some (lit "no address") else None; reads_protocol _ := None; builds _ := None |}.

Definition no_env : bytes -> option bytes := fun _ => None.
Definition carrier : SocketAddr := mkSocketAddr (V4 2130706433) 1819.
Definition failing : Attempt := mkAttempt None None [Checked 5 3; Checked 80 3; Bootstrapped (Some (lit "no guard"))] Silent false id.
Definition working : Attempt := mkAttempt None None [Checked 5 3; Bootstrapped None] Reached false id.
Definition nothing_found : World := mkWorld [] ([], lit "built in") (fun _ => true) None.
Definition by_hand : BridgePolicy := Manual [lit "192.0.2.1:443 AAAA"; lit "# mine"].
Definition established : option (res AetherError TorConfig) * State :=
  establish no_env None (lit "aether-tor") [] nothing_found (Some carrier) by_hand 3 (mkState [failing; working] []).

(** The second try over the bridge that can be read. *)
Example second_try :
  let c := mkTorConfig (lit "aether-tor/cache") (lit "aether-tor/state") (Some carrier) [lit "192.0.2.1:443 AAAA"] [] in
  established.1 = Some (Ok c) /\ acts established.2 = [Client c; Paused; Dormant; Client c].
Proof. vm_compute. done. Qed.

Lemma tor_goes_where_told_witness :
  Forall (fun c => dials None (Some carrier) c /\ as_told by_hand c) (clients_in (acts established.2)) /\ length (clients_in (acts established.2)) = 2%nat.
Proof.
  split; [|vm_compute; reflexivity].
  pose proof (tor_goes_where_told no_env None (lit "aether-tor") [] nothing_found (Some carrier) by_hand 3 (mkState [failing; working] []) eq_refl) as H.
  unfold established. destruct (establish _ _ _ _ _ _ _ _ _) as [r s']. exact (proj1 H).
Defined.

Lemma failing_ends : ends failing.
Proof. right. intros [limit|]; cbn [failing a_turns boot_turns]; [|discriminate]. by repeat case_match. Qed.

(** Two tries are left out of four: Tor on its own with three rounds, which may not fall back. *)
Lemma tor_search_ends_witness :
  attempts_at_most no_env None nothing_found (Some carrier) Disabled 3 = 3%nat /\
  exists r k, (establish no_env None (lit "aether-tor") [] nothing_found (Some carrier) Disabled 3 (mkState [failing; failing; failing; failing] [])).1 = Some r /\
    (k <= 3)%nat /\ left (establish no_env None (lit "aether-tor") [] nothing_found (Some carrier) Disabled 3 (mkState [failing; failing; failing; failing] [])).2 =
      drop k [failing; failing; failing; failing].
Proof.
  split; [reflexivity|].
  apply (tor_search_ends no_env None (lit "aether-tor") [] nothing_found (Some carrier) Disabled 3 (mkState [failing; failing; failing; failing] []));
    [lia| |cbn; lia]. repeat (constructor; [exact failing_ends|]). constructor.
Defined.

(** A pluggable transport is launched although an upstream proxy is set, which it does not dial
    through; without a tunnel, nothing is said of it. *)
Example transport_beside_upstream :
  let u := Upstream.mkUpstream Upstream.Socks5 (lit "192.0.2.9") 1080 None None in
  let w := mkWorld [mkTransport [lit "obfs4"] (lit "lyrebird")] ([lit "obfs4 192.0.2.1:443 AAAA"], lit "built in") (fun _ => true) None in
  exists c, (establish no_env (Some u) (lit "aether-tor") [] w None (Auto true) 1 (mkState [working] [])).1 = Some (Ok c) /\
    outbound c = Some (mkSocketAddr (V4 3221225993) 1080) /\ launched c = [mkTransport [lit "obfs4"] (lit "lyrebird")].
Proof. vm_compute. eexists. done. Qed.

(** With bridges read from a file, a setting that turns bridges off is not heard. *)
Example file_wins_over_off :
  let env name := if bool_decide (name = lit "AETHER_TOR_BRIDGE_FILE") then Some (lit "bridges.txt")
                  else if bool_decide (name = lit "AETHER_TOR_BRIDGES") then Some (lit "off") else None in
  bridges env (fun _ => Some (lit "Bridge 192.0.2.1:443 AAAA")) = Manual [lit "192.0.2.1:443 AAAA"].
Proof. vm_compute. done. Qed.
End examples.
End Tor.
