(* ===== verification/Cli.v ===== *)
(** * The command line ([cli.rs])

    Each option sets variables of the environment, which the settings are read from; some add to
    what a variable holds.  The arguments are read from left to right, and what was set before an
    error stays set.  The help text is an argument. *)

From stdpp Require Import gmap.
From S2P Require Import Prelude Str Ip Text Error Sniff Prober Bridges Tor.
Local Open Scope Z_scope.

Module Cli.
Import Error.

(** What an option does: it ends the run, it sets variables, to what is fixed and then to the value
    that follows it, or it adds that value to a variable. *)
Inductive Effect :=
| Ends
| Sets (fixed : list (bytes * bytes)) (valued : list bytes)
| Appends (variable : bytes).

(** The names of each option, in the order of the source. *)
Definition OPTIONS : list (list bytes * Effect) := [
  ([lit "-v"; lit "--version"], Ends);
  ([lit "-h"; lit "--help"; lit "help"], Ends);
  ([lit "--bind"], Sets [] [lit "AETHER_SOCKS"]);
  ([lit "--http-proxy"], Sets [] [lit "AETHER_HTTP_PROXY"]);
  ([lit "--upstream"], Sets [] [lit "AETHER_UPSTREAM"]);
  ([lit "--tor"], Sets [(lit "AETHER_TOR", lit "chain")] []);
  ([lit "--tor-reverse"], Sets [(lit "AETHER_TOR", lit "reverse")] []);
  ([lit "--tor-only"], Sets [(lit "AETHER_TOR", lit "only")] []);
  ([lit "--tor-bridge"], Appends (lit "AETHER_TOR_BRIDGES"));
  ([lit "--tor-bridges"], Sets [(lit "AETHER_TOR_BRIDGES", lit "auto")] []);
  ([lit "--tor-bridge-file"], Sets [] [lit "AETHER_TOR_BRIDGE_FILE"]);
  ([lit "--tor-relays"], Sets [] [lit "AETHER_TOR_RELAYS"]);
  ([lit "--tor-relay-ports"], Sets [] [lit "AETHER_TOR_RELAY_PORTS"]);
  ([lit "--no-tor-bridges"], Sets [(lit "AETHER_TOR_BRIDGES", lit "off")] []);
  ([lit "--tor-pt"], Appends (lit "AETHER_TOR_PT"));
  ([lit "--tor-pt-dir"], Appends (lit "AETHER_TOR_PT_DIR"));
  ([lit "--tor-bind"], Sets [] [lit "AETHER_TOR_BIND"]);
  ([lit "--tor-http"], Sets [] [lit "AETHER_TOR_HTTP"]);
  ([lit "--tor-dir"], Sets [] [lit "AETHER_TOR_DIR"]);
  ([lit "--psiphon"], Sets [(lit "AETHER_PSIPHON", lit "chain")] []);
  ([lit "--psiphon-reverse"], Sets [(lit "AETHER_PSIPHON", lit "reverse")] []);
  ([lit "--psiphon-only"], Sets [(lit "AETHER_PSIPHON", lit "only")] []);
  ([lit "--psiphon-config"], Sets [] [lit "AETHER_PSIPHON_CONFIG"]);
  ([lit "--psiphon-bind"], Sets [] [lit "AETHER_PSIPHON_BIND"]);
  ([lit "--psiphon-http"], Sets [] [lit "AETHER_PSIPHON_HTTP"]);
  ([lit "--psiphon-region"], Sets [] [lit "AETHER_PSIPHON_REGION"]);
  ([lit "--psiphon-mode"], Sets [] [lit "AETHER_PSIPHON_MODE"]);
  ([lit "--psiphon-cdn-ips"], Sets [] [lit "AETHER_PSIPHON_CDN_IPS"]);
  ([lit "--psiphon-cdn-sni"], Sets [] [lit "AETHER_PSIPHON_CDN_SNI"]);
  ([lit "--psiphon-cdn-sets"], Sets [] [lit "AETHER_PSIPHON_CDN_SETS"]);
  ([lit "--psiphon-dir"], Sets [] [lit "AETHER_PSIPHON_DIR"]);
  ([lit "--psiphon-bin"], Sets [] [lit "AETHER_PSIPHON_BIN"]);
  ([lit "--psiphon-server-entries"], Sets [] [lit "AETHER_PSIPHON_SERVER_ENTRIES"]);
  ([lit "--mark"], Sets [] [lit "AETHER_MARK"]);
  ([lit "--exit-loc"], Sets [] [lit "AETHER_EXIT_LOC"]);
  ([lit "--exit-loc-secs"], Sets [] [lit "AETHER_EXIT_LOC_SECS"]);
  ([lit "--stats"], Sets [(lit "AETHER_STATS", lit "1")] []);
  ([lit "--stats-secs"], Sets [] [lit "AETHER_STATS_SECS"]);
  ([lit "--quick-reconnect"], Sets [(lit "AETHER_QUICK_RECONNECT", lit "1")] []);
  ([lit "--no-quick-reconnect"], Sets [(lit "AETHER_QUICK_RECONNECT", lit "0")] []);
  ([lit "-4"], Sets [(lit "AETHER_IP", lit "v4")] []);
  ([lit "-6"], Sets [(lit "AETHER_IP", lit "v6")] []);
  ([lit "--dual"], Sets [(lit "AETHER_IP", lit "both")] []);
  ([lit "--ip"], Sets [] [lit "AETHER_IP"]);
  ([lit "--peer"], Sets [] [lit "AETHER_PEER"]);
  ([lit "--wg-peer"], Sets [] [lit "AETHER_WG_PEER"]);
  ([lit "--wiw-outer"; lit "--gool-outer"; lit "--outer-peer"], Sets [] [lit "AETHER_WIW_OUTER_PEER"]);
  ([lit "--wiw-inner"; lit "--gool-inner"; lit "--inner-peer"], Sets [] [lit "AETHER_WIW_INNER_PEER"]);
  ([lit "--wiw-peers"; lit "--gool-peers"], Sets [] [lit "AETHER_WIW_PEERS"]);
  ([lit "--wiw-scan"; lit "--gool-scan"], Sets [(lit "AETHER_WIW_PEERS", lit "auto")] []);
  ([lit "--masque"], Sets [(lit "AETHER_PROTOCOL", lit "masque")] []);
  ([lit "--wg"; lit "--wireguard"; lit "--warp"], Sets [(lit "AETHER_PROTOCOL", lit "wg")] []);
  ([lit "--gool"; lit "--wiw"], Sets [(lit "AETHER_PROTOCOL", lit "gool")] []);
  ([lit "--gool-peer"], Sets [(lit "AETHER_PROTOCOL", lit "gool")] [lit "AETHER_GOOL_INNER"]);
  ([lit "--gool-classic"], Sets [(lit "AETHER_PROTOCOL", lit "gool"); (lit "AETHER_GOOL_MODE", lit "classic")] []);
  ([lit "--mim"; lit "--masque-in-masque"], Sets [(lit "AETHER_PROTOCOL", lit "mim")] []);
  ([lit "--mim-outer"], Sets [] [lit "AETHER_MIM_OUTER_PEER"]);
  ([lit "--mim-inner"], Sets [] [lit "AETHER_MIM_INNER_PEER"]);
  ([lit "--mim-peers"], Sets [] [lit "AETHER_MIM_PEERS"]);
  ([lit "--mim-scan"], Sets [(lit "AETHER_MIM_PEERS", lit "auto")] []);
  ([lit "--protocol"], Sets [] [lit "AETHER_PROTOCOL"]);
  ([lit "--scan"], Sets [] [lit "AETHER_SCAN"]);
  ([lit "--turbo"], Sets [(lit "AETHER_SCAN", lit "turbo")] []);
  ([lit "--balanced"], Sets [(lit "AETHER_SCAN", lit "balanced")] []);
  ([lit "--thorough"], Sets [(lit "AETHER_SCAN", lit "thorough")] []);
  ([lit "--verified"; lit "--stealth"], Sets [(lit "AETHER_SCAN", lit "verified")] []);
  ([lit "--ironclad"], Sets [(lit "AETHER_SCAN", lit "ironclad")] []);
  ([lit "--noize"], Sets [] [lit "AETHER_NOIZE"]);
  ([lit "--h2"; lit "--http2"], Sets [(lit "AETHER_MASQUE_HTTP2", lit "1")] []);
  ([lit "--h3"; lit "--quic"], Sets [(lit "AETHER_MASQUE_HTTP2", lit "0")] []);
  ([lit "--no-quic-v2"], Sets [(lit "AETHER_QUIC_V2", lit "0")] []);
  ([lit "--h2-peer"], Sets [] [lit "AETHER_MASQUE_H2_PEER"]);
  ([lit "--masque-sni"], Sets [] [lit "AETHER_MASQUE_SNI"]);
  ([lit "--ech"], Sets [] [lit "AETHER_ECH"]);
  ([lit "--ech-dns"], Sets [] [lit "AETHER_ECH_DNS"]);
  ([lit "--ech-domain"], Sets [] [lit "AETHER_ECH_DOMAIN"]);
  ([lit "--no-data-check"], Sets [(lit "AETHER_MASQUE_NO_DATA_CHECK", lit "1"); (lit "AETHER_WG_NO_DATA_CHECK", lit "1")] []);
  ([lit "--validate-secs"], Sets [] [lit "AETHER_MASQUE_VALIDATE_SECS"; lit "AETHER_WG_VALIDATE_SECS"]);
  ([lit "--startup-secs"], Sets [] [lit "AETHER_MASQUE_STARTUP_SECS"]);
  ([lit "--reconnect-secs"], Sets [] [lit "AETHER_MASQUE_RECONNECT_SECS"; lit "AETHER_WG_RECONNECT_SECS"]);
  ([lit "--dns"], Sets [] [lit "AETHER_DNS"]);
  ([lit "--fragment"], Sets [(lit "AETHER_MASQUE_H2_FRAGMENT", lit "1")] []);
  ([lit "--fragment-size"], Sets [] [lit "AETHER_MASQUE_H2_FRAGMENT_SIZE"]);
  ([lit "--fragment-delay"], Sets [] [lit "AETHER_MASQUE_H2_FRAGMENT_DELAY"]);
  ([lit "--keepalive"], Sets [] [lit "AETHER_WG_KEEPALIVE"]);
  ([lit "--no-profile-retry"], Sets [(lit "AETHER_WG_NO_PROFILE_RETRY", lit "1")] []);
  ([lit "--config"], Sets [] [lit "AETHER_CONFIG"]);
  ([lit "--wg-config"], Sets [] [lit "AETHER_WG_CONFIG"]);
  ([lit "--masque-config"], Sets [] [lit "AETHER_MASQUE_CONFIG"]);
  ([lit "--register"], Sets [] [lit "AETHER_REGISTER"]);
  ([lit "--api-address"], Sets [] [lit "AETHER_API_ADDRESS"]);
  ([lit "--api-sni"], Sets [] [lit "AETHER_API_SNI"]);
  ([lit "--api-host"], Sets [] [lit "AETHER_API_HOST"]);
  ([lit "--team"; lit "--organization"], Sets [] [lit "AETHER_TEAM"]);
  ([lit "--access-id"], Sets [] [lit "AETHER_ACCESS_CLIENT_ID"]);
  ([lit "--access-secret"], Sets [] [lit "AETHER_ACCESS_CLIENT_SECRET"]);
  ([lit "--access-token"], Sets [] [lit "AETHER_ACCESS_TOKEN"]);
  ([lit "--access-email"], Sets [] [lit "AETHER_ACCESS_EMAIL"]);
  ([lit "--gateway"], Sets [(lit "AETHER_GATEWAY", lit "1")] []);
  ([lit "--route-block"], Sets [] [lit "AETHER_ROUTE_BLOCK"]);
  ([lit "--route-direct"], Sets [] [lit "AETHER_ROUTE_DIRECT"]);
  ([lit "--routes"], Sets [] [lit "AETHER_ROUTES_FILE"]);
  ([lit "--tls-groups"], Sets [] [lit "AETHER_TLS_GROUPS"]);
  ([lit "--tls-key-shares"], Sets [] [lit "AETHER_TLS_KEY_SHARES"]);
  ([lit "--tls-ciphers"], Sets [] [lit "AETHER_TLS_CIPHERS"]);
  ([lit "--tls13-ciphers"], Sets [] [lit "AETHER_TLS13_CIPHERS"]);
  ([lit "--disable-grease"], Sets [(lit "AETHER_DISABLE_GREASE", lit "1")] []);
  ([lit "--enable-grease-sigalgs"], Sets [(lit "AETHER_ENABLE_GREASE_SIGALGS", lit "1")] []);
  ([lit "--tls-sigalgs"], Sets [] [lit "AETHER_TLS_SIGALGS"]);
  ([lit "--tls-cert-compression"], Sets [] [lit "AETHER_TLS_CERT_COMPRESSION"]);
  ([lit "--tls-alps"], Sets [] [lit "AETHER_TLS_ALPS"]);
  ([lit "--tls-trust-anchors"], Sets [] [lit "AETHER_TLS_TRUST_ANCHORS"]);
  ([lit "--tls-server-padding"], Sets [] [lit "AETHER_TLS_SERVER_PADDING"]);
  ([lit "--enable-ech-grease"], Sets [(lit "AETHER_ENABLE_ECH_GREASE", lit "1")] []);
  ([lit "--disable-ocsp-stapling"], Sets [(lit "AETHER_DISABLE_OCSP_STAPLING", lit "1")] []);
  ([lit "--disable-sct"], Sets [(lit "AETHER_DISABLE_SCT", lit "1")] []);
  ([lit "--disable-session-ticket"], Sets [(lit "AETHER_DISABLE_SESSION_TICKET", lit "1")] []);
  ([lit "--disable-extension-permutation"], Sets [(lit "AETHER_DISABLE_EXTENSION_PERMUTATION", lit "1")] []);
  ([lit "--tls-verify"], Sets [(lit "AETHER_TLS_VERIFY", lit "1")] []);
  ([lit "--perf"], Sets [] [lit "AETHER_PERF_PROFILE"]);
  ([lit "--log-level"], Sets [] [lit "AETHER_LOG_LEVEL"]);
  ([lit "--verbose"], Sets [(lit "AETHER_LOG_LEVEL", lit "debug")] [])
].

Fixpoint option_of (arg : bytes) (options : list (list bytes * Effect)) : option Effect :=
  match options with
  | [] => None
  | (names, effect) :: options => if bool_decide (arg ∈ names) then Some effect else option_of arg options
  end.

Inductive Parsed := Run | Done.
Notation Env := (gmap bytes bytes).

(** [set_var] panics on a value that holds a null byte. *)
Definition set (key value : bytes) (env : Env) : res AetherError unit * Env :=
  if contains_char 0 value then (Panic, env) else (Ok tt, <[key := value]> env).
(** [env::var] is an error for a value that is not UTF-8. *)
Definition append (key value : bytes) (env : Env) : res AetherError unit * Env :=
  match (existing ← env !! key; from_utf8 existing) with
  | Some existing => if negb (bool_decide (trim existing = [])) then set key (existing ++ [59] ++ value) env else set key value env
  | None => set key value env
  end.

Fixpoint set_all (l : list (bytes * bytes)) (env : Env) : res AetherError unit * Env :=
  match l with
  | [] => (Ok tt, env)
  | (key, value) :: l => match set key value env with (Ok _, env) => set_all l env | r => r end
  end.

Definition takes_value (e : Effect) : bool :=
  match e with Ends => false | Sets _ valued => negb (bool_decide (valued = [])) | Appends _ => true end.
(** What is set before the value is looked for, and with the value. *)
Definition before_value (e : Effect) (env : Env) : res AetherError unit * Env :=
  match e with Sets fixed _ => set_all fixed env | _ => (Ok tt, env) end.
Definition with_value (e : Effect) (value : bytes) (env : Env) : res AetherError unit * Env :=
  match e with
  | Sets _ valued => set_all (map (fun key => (key, value)) valued) env
  | Appends key => append key value env
  | Ends => (Ok tt, env)
  end.

Section parse.
Variable USAGE : bytes.

Fixpoint parse_args (args : list bytes) (env : Env) : res AetherError Parsed * Env :=
  match args with
  | [] => (Ok Run, env)
  | arg :: rest =>
      match option_of arg OPTIONS with
      | None => (Err (Other (lit "unknown option '" ++ arg ++ lit "'" ++ [10; 10] ++ USAGE)), env)
      | Some Ends => (Ok Done, env)
      | Some e =>
          match before_value e env with
          | (Ok _, env) =>
              if takes_value e then
                match rest with
                | [] => (Err (Other (arg ++ lit " requires a value")), env)
                | value :: rest => match with_value e value env with (Ok _, env) => parse_args rest env | (Err e, env) => (Err e, env) | (Panic, env) => (Panic, env) end
                end
              else parse_args rest env
          | (Err e, env) => (Err e, env)
          | (Panic, env) => (Panic, env)
          end
      end
  end.

(** ** Reading what was written *)

(** An option with its value, if it takes one. *)
Record Given := mkGiven { name : bytes; value : option bytes }.
Definition written (os : list Given) : list bytes := concat (map (fun o => name o :: match value o with Some v => [v] | None => [] end) os).
Definition good (o : Given) : Prop :=
  exists e, option_of (name o) OPTIONS = Some e /\ e <> Ends /\
    match value o with Some v => takes_value e = true /\ contains_char 0 v = false | None => takes_value e = false end.
Definition apply (o : Given) (env : Env) : Env :=
  match option_of (name o) OPTIONS with
  | Some e => let env := (before_value e env).2 in match value o with Some v => (with_value e v env).2 | None => env end
  | None => env
  end.
Definition apply_all (os : list Given) (env : Env) : Env := fold_left (fun env o => apply o env) os env.

(** What the arguments end in. *)
Inductive Ending := Over | Asked (arg : bytes) (rest : list bytes) | Unknown (arg : bytes) (rest : list bytes) | Wanting (arg : bytes) | Null (arg v : bytes) (rest : list bytes).
Definition tail_of (e : Ending) : list bytes :=
  match e with Over => [] | Asked arg rest | Unknown arg rest => arg :: rest | Wanting arg => [arg] | Null arg v rest => arg :: v :: rest end.
Definition ends_so (e : Ending) : Prop :=
  match e with
  | Over => True
  | Asked arg _ => option_of arg OPTIONS = Some Ends
  | Unknown arg _ => option_of arg OPTIONS = None
  | Wanting arg => exists e, option_of arg OPTIONS = Some e /\ e <> Ends /\ takes_value e = true
  | Null arg v _ => contains_char 0 v = true /\ exists e, option_of arg OPTIONS = Some e /\ e <> Ends /\ takes_value e = true
  end.
Definition outcome (e : Ending) : res AetherError Parsed :=
  match e with
  | Over => Ok Run
  | Asked _ _ => Ok Done
  | Unknown arg _ => Err (Other (lit "unknown option '" ++ arg ++ lit "'" ++ [10; 10] ++ USAGE))
  | Wanting arg => Err (Other (arg ++ lit " requires a value"))
  | Null _ _ _ => Panic
  end.

(** The values of the table hold no null byte, and a value option sets something. *)
Definition tame (e : Effect) : bool := match e with Sets fixed _ => forallb (fun '(_, v) => negb (contains_char 0 v)) fixed | _ => true end.
Lemma options_tame : forallb (fun '(_, e) => tame e) OPTIONS = true.
Proof. vm_compute. reflexivity. Qed.
Lemma option_of_tame arg e : option_of arg OPTIONS = Some e -> tame e = true.
Proof.
  pose proof options_tame as Ht. revert Ht. generalize OPTIONS as l. induction l as [|[names e'] l IH]; cbn [option_of forallb]; [done|].
  intros [H1 H2]%andb_prop. case_bool_decide; [by intros [= <-]|by apply IH].
Qed.

Lemma set_all_ok l env : forallb (fun '(_, v) => negb (contains_char 0 v)) l = true -> (set_all l env).1 = Ok tt.
Proof.
  revert env. induction l as [|[k v] l IH]; intros env; cbn [forallb set_all]; [done|]. intros [Hv%negb_true_iff Hl]%andb_prop. unfold set. rewrite Hv. by apply IH.
Qed.
Lemma before_value_ok e env : tame e = true -> (before_value e env).1 = Ok tt.
Proof. destruct e; cbn; try done. apply set_all_ok. Qed.

Lemma append_ok key v env : contains_char 0 v = false -> (forall x, env !! key = Some x -> contains_char 0 x = false) -> (append key v env).1 = Ok tt.
Proof.
  intros Hv He. unfold append, set. destruct (env !! key) as [x|] eqn:Ex; cbn [mbind option_bind]; [|by rewrite Hv]. unfold from_utf8. destruct (utf8_valid x); [|by rewrite Hv].
  destruct (negb _); [|by rewrite Hv]. unfold contains_char in *. rewrite !existsb_app, He by done. cbn. by rewrite Hv.
Qed.

(** No variable holds a null byte. *)
Definition clean (env : Env) : Prop := forall k v, env !! k = Some v -> contains_char 0 v = false.

Lemma set_clean k v env : clean env -> clean (set k v env).2.
Proof.
  intros He. unfold set. destruct (contains_char 0 v) eqn:Hv; [done|]. intros k' v'. cbn [snd]. destruct (decide (k' = k)) as [->|Hne]; [rewrite lookup_insert_eq; by intros [= <-]|rewrite lookup_insert_ne by done; apply He].
Qed.
Lemma append_clean k v env : clean env -> clean (append k v env).2.
Proof. intros He. unfold append. destruct (_ ≫= _) as [x|]; [destruct (negb _)|]; by apply set_clean. Qed.
Lemma set_all_clean l env : clean env -> clean (set_all l env).2.
Proof.
  revert env. induction l as [|[k v] l IH]; intros env He; cbn [set_all]; [done|]. pose proof (set_clean k v env He) as Hs.
  destruct (set k v env) as [[u|e|] env']; [by apply IH|done|done].
Qed.
Lemma before_clean e env : clean env -> clean (before_value e env).2.
Proof. destruct e; cbn; try done. apply set_all_clean. Qed.
Lemma with_clean e v env : clean env -> clean (with_value e v env).2.
Proof. destruct e; cbn; try done; [apply set_all_clean|apply append_clean]. Qed.

Lemma with_value_ok e v env : clean env -> contains_char 0 v = false -> (with_value e v env).1 = Ok tt.
Proof.
  intros He Hv. destruct e as [|fixed valued|key]; cbn [with_value]; [done|..].
  - apply set_all_ok. induction valued as [|k valued IH]; cbn; [done|]. by rewrite Hv.
  - apply append_ok; [done|]. intros x. apply He.
Qed.
Lemma with_value_null e v env : takes_value e = true -> contains_char 0 v = true -> with_value e v env = (Panic, env).
Proof.
  intros He Hv. destruct e as [|fixed [|k valued]|key]; cbn [with_value] in *; try done.
  - cbn [map set_all]. unfold set. by rewrite Hv.
  - unfold append, set. rewrite Hv. destruct (_ ≫= _) as [x|]; [|done]. destruct (negb _); [|done]. unfold contains_char in *. by rewrite !existsb_app, Hv, !orb_true_r.
Qed.

(** An option that is known and does not end the run. *)
Lemma parse_option arg ef rest env : option_of arg OPTIONS = Some ef -> ef <> Ends ->
  parse_args (arg :: rest) env =
  let env := (before_value ef env).2 in
  if takes_value ef then
    match rest with
    | [] => (Err (Other (arg ++ lit " requires a value")), env)
    | value :: rest => match with_value ef value env with (Ok _, env) => parse_args rest env | (Err e, env) => (Err e, env) | (Panic, env) => (Panic, env) end
    end
  else parse_args rest env.
Proof.
  intros Ho Hne. cbn [parse_args]. rewrite Ho. pose proof (before_value_ok ef env (option_of_tame _ _ Ho)) as Hb.
  destruct (before_value ef env) as [r env1]. cbn [fst snd] in *. subst r. by destruct ef.
Qed.

(** The variables once all but the ending is read. *)
Definition left_by (e : Ending) (env : Env) : Env :=
  match e with
  | Wanting arg | Null arg _ _ => match option_of arg OPTIONS with Some e => (before_value e env).2 | None => env end
  | _ => env
  end.

Lemma parse_ending e env : ends_so e -> parse_args (tail_of e) env = (outcome e, left_by e env).
Proof.
  destruct e as [|arg rest|arg rest|arg|arg v rest]; cbn [tail_of ends_so outcome left_by].
  - done.
  - intros Ho. cbn [parse_args]. by rewrite Ho.
  - intros Ho. cbn [parse_args]. by rewrite Ho.
  - intros (ef & Ho & Hne & Ht). rewrite (parse_option arg ef), Ho by done. cbn zeta. by rewrite Ht.
  - intros (Hv & ef & Ho & Hne & Ht). rewrite (parse_option arg ef), Ho by done. cbn zeta. by rewrite Ht, with_value_null.
Qed.

Lemma written_option o os : written (o :: os) = name o :: match value o with Some v => [v] | None => [] end ++ written os.
Proof. done. Qed.

Lemma parse_written os e : forall env, Forall good os -> ends_so e -> clean env ->
  parse_args (written os ++ tail_of e) env = (outcome e, left_by e (apply_all os env)).
Proof.
  induction os as [|o os IH]; intros env Hos He Hc; [by apply parse_ending|].
  apply Forall_cons in Hos as [(ef & Ho & Hne & Hv) Hos]. rewrite written_option. cbn [app]. rewrite (parse_option _ ef) by done. cbn zeta.
  change (apply_all (o :: os) env) with (apply_all os (apply o env)). unfold apply. rewrite Ho.
  pose proof (before_clean ef env Hc) as Hc1. destruct (value o) as [v|]; [destruct Hv as [Hv Hz]|]; rewrite Hv; cbn [app]; [|by apply IH].
  pose proof (with_value_ok ef v _ Hc1 Hz) as Hw. pose proof (with_clean ef v _ Hc1) as Hc2.
  destruct (with_value ef v _) as [r env2]. cbn [fst snd] in *. subst r. by apply IH.
Qed.

(** Any arguments are some options and one of the endings. *)
Lemma args_read args : exists os e, args = written os ++ tail_of e /\ Forall good os /\ ends_so e.
Proof.
  induction args as [args IH] using (induction_ltof1 _ length). unfold ltof in IH. destruct args as [|arg rest]; [by exists [], Over|].
  destruct (option_of arg OPTIONS) as [ef|] eqn:Ho; [|by exists [], (Unknown arg rest)].
  assert (ef = Ends \/ ef <> Ends) as [-> | Hne] by (destruct ef; [by left|by right..]); [by exists [], (Asked arg rest)|]. destruct (takes_value ef) eqn:Ht.
  - destruct rest as [|v rest]; [exists [], (Wanting arg); split; [done|]; split; [done|]; by exists ef|].
    destruct (contains_char 0 v) eqn:Hv; [exists [], (Null arg v rest); split; [done|]; split; [done|]; split; [done|]; by exists ef|].
    destruct (IH rest) as (os & e & -> & Hos & He); [cbn; lia|]. exists (mkGiven arg (Some v) :: os), e. split; [done|]. split; [|done].
    constructor; [by exists ef|done].
  - destruct (IH rest) as (os & e & -> & Hos & He); [cbn; lia|]. exists (mkGiven arg None :: os), e. split; [done|]. split; [|done].
    constructor; [by exists ef|done].
Qed.
End parse.

(** C30.  Arguments are read as they are written.  Whatever they are, they are options, each with the
    value it takes, up to their end, or up to one that shows a text, that is not known, that lacks
    its value, or whose value no variable can hold; the options before are applied in their order,
    and the rest decides: the run goes on, ends, fails with an error that names the option, or
    panics. *)
Theorem arguments_are_read USAGE args env : clean env ->
  exists os e, args = written os ++ tail_of e /\ Forall good os /\ ends_so e /\
    parse_args USAGE args env = (outcome USAGE e, left_by e (apply_all os env)).
Proof.
  intros Hc. destruct (args_read args) as (os & e & -> & Hos & He). exists os, e. repeat (split; [done|]). by apply parse_written.
Qed.

(** ** Bridges of one's own *)

(** Each with the option that takes it. *)
Definition bridge_options (ls : list bytes) : list Given := map (fun l => mkGiven (lit "--tor-bridge") (Some l)) ls.
Definition TOR_BRIDGES : bytes := lit "AETHER_TOR_BRIDGES".

Lemma utf8_valid_ascii s : str_is_ascii s = true -> utf8_valid s = true.
Proof.
  unfold utf8_valid. induction s as [|b s IH]; [done|]. intros [Hb Hs]%andb_prop. cbn [length utf8_valid_fuel]. unfold utf8_head. rewrite Hb. by apply IH.
Qed.

Lemma joined_snoc l ls x : Tor.joined ((l :: ls) ++ [x]) = Tor.joined (l :: ls) ++ [59] ++ x.
Proof. cbn [app Tor.joined]. rewrite map_app, concat_app. cbn. by rewrite app_nil_r, <- app_assoc. Qed.

(** A bridge as it is given: it has an address, and is plain text. *)
Definition given_bridge (l : bytes) : Prop := Tor.bridge_line l /\ str_is_ascii l = true /\ contains_char 0 l = false /\ contains_char 58 l = true.

Lemma given_joined l ls : Forall given_bridge (l :: ls) ->
  str_is_ascii (Tor.joined (l :: ls)) = true /\ contains_char 0 (Tor.joined (l :: ls)) = false /\ contains_char 58 (Tor.joined (l :: ls)) = true /\
  trim (Tor.joined (l :: ls)) = Tor.joined (l :: ls).
Proof.
  intros Hls. split_and!; [| |pose proof Hls as [(_ & _ & _ & Hc) _]%Forall_cons; cbn [Tor.joined]; unfold contains_char in *; by rewrite existsb_app, Hc|
    apply Tor.trim_joined; eapply Forall_impl; [exact Hls|by intros x [Hx _]]].
  all: revert Hls; induction ls as [|x ls IH] using rev_ind;
    [intros [(_ & Ha & Hz & _) _]%Forall_cons; cbn; by rewrite app_nil_r|rewrite app_comm_cons; intros [Hls [(_ & Ha & Hz & _) _]%Forall_cons]%Forall_app; rewrite joined_snoc].
  - rewrite !str_is_ascii_app, Ha, IH by done. done.
  - specialize (IH Hls). unfold contains_char in *. rewrite !existsb_app, Hz, IH. done.
Qed.

Lemma append_joined ls : forall l pre env, Forall given_bridge ((l :: pre) ++ ls) -> env !! TOR_BRIDGES = Some (Tor.joined (l :: pre)) ->
  apply_all (bridge_options ls) env !! TOR_BRIDGES = Some (Tor.joined ((l :: pre) ++ ls)) /\
  forall k, k <> TOR_BRIDGES -> apply_all (bridge_options ls) env !! k = env !! k.
Proof.
  induction ls as [|x ls IH]; intros l pre env Hls He; [by rewrite app_nil_r|].
  pose proof Hls as [Hp [Hx _]%Forall_cons]%Forall_app. destruct (given_joined l pre Hp) as (Ha & _ & Hc & Ht). destruct (given_joined l (pre ++ [x])) as (_ & Hz & _); [change (l :: pre ++ [x]) with ((l :: pre) ++ [x]); apply Forall_app; split; [exact Hp|by apply Forall_singleton]|].
  assert (apply (mkGiven (lit "--tor-bridge") (Some x)) env = <[TOR_BRIDGES := Tor.joined ((l :: pre) ++ [x])]> env) as Happ.
  { unfold apply. cbn [name value]. change (option_of (lit "--tor-bridge") OPTIONS) with (Some (Appends TOR_BRIDGES)). cbn [before_value with_value snd].
    unfold append. rewrite He. cbn [mbind option_bind]. unfold from_utf8. rewrite utf8_valid_ascii by done. rewrite Ht, bool_decide_false by (intros E; rewrite E in Hc; done). cbn [negb]. unfold set.
    rewrite <- joined_snoc. cbn [app]. by rewrite Hz. }
  change (apply_all (bridge_options (x :: ls)) env) with (apply_all (bridge_options ls) (apply (mkGiven (lit "--tor-bridge") (Some x)) env)). rewrite Happ.
  destruct (IH l (pre ++ [x]) (<[TOR_BRIDGES := Tor.joined ((l :: pre) ++ [x])]> env)) as [H1 H2].
  - by rewrite app_comm_cons, <- app_assoc.
  - apply lookup_insert_eq.
  - split; [by rewrite H1, app_comm_cons, <- app_assoc|]. intros k Hk. rewrite H2 by done. by apply lookup_insert_ne.
Qed.

(** C28.  Bridges that are given are the bridges there are.  Given one by one on the command line,
    with no list of bridges in the environment and no file named, they come out of the settings of
    Tor as they were given, in their order. *)
Theorem bridges_given_are_read `{UnicodeCase} USAGE l ls env read :
  Forall given_bridge (l :: ls) -> clean env -> env !! TOR_BRIDGES = None -> env !! lit "AETHER_TOR_BRIDGE_FILE" = None ->
  let '(r, env') := parse_args USAGE (written (bridge_options (l :: ls))) env in
  r = Ok Run /\ Tor.bridges (fun name => env' !! name) read = Tor.Manual (l :: ls).
Proof.
  intros Hls Hc He Hf. replace (written (bridge_options (l :: ls))) with (written (bridge_options (l :: ls)) ++ tail_of Over) by apply app_nil_r. rewrite parse_written; [|..|done|done].
  2: { clear -Hls. induction Hls as [|x xs (_ & _ & Hz & _) Hxs IH]; constructor; [|done]. exists (Appends TOR_BRIDGES). by split_and!. }
  split; [done|]. cbn [left_by].
  assert (apply (mkGiven (lit "--tor-bridge") (Some l)) env = <[TOR_BRIDGES := Tor.joined [l]]> env) as Happ.
  { unfold apply. cbn [name value]. change (option_of (lit "--tor-bridge") OPTIONS) with (Some (Appends TOR_BRIDGES)). cbn [before_value with_value snd].
    unfold append. rewrite He. cbn [mbind option_bind]. unfold set. pose proof Hls as [(_ & _ & -> & _) _]%Forall_cons. cbn. by rewrite app_nil_r. }
  change (apply_all (bridge_options (l :: ls)) env) with (apply_all (bridge_options ls) (apply (mkGiven (lit "--tor-bridge") (Some l)) env)). rewrite Happ.
  destruct (append_joined ls l [] (<[TOR_BRIDGES := Tor.joined [l]]> env) Hls) as [H1 H2]; [apply lookup_insert_eq|]. cbn [app] in H1.
  apply Tor.joined_bridges_read; [eapply Forall_impl; [exact Hls|by intros x [Hx _]]| |exact H1|].
  - unfold Tor.bridges_from_file. rewrite H2, lookup_insert_ne, Hf by done. done.
  - destruct (given_joined l ls Hls) as (Ha & _ & Hc58 & _). rewrite to_lowercase_ascii by done. apply not_true_iff_false. intros Hin.
    unfold Prober.one_of in Hin. apply existsb_exists in Hin as (x & Hx & E%bool_decide_eq_true).
    assert (contains_char 58 x = true) as Hx58 by (rewrite <- E, Sniff.contains_char_lower by done; done).
    assert (forallb (fun x => negb (contains_char 58 x)) ([] :: Tor.OFF_WORDS ++ Tor.AUTO_WORDS) = true) as Hall by reflexivity.
    rewrite forallb_forall in Hall. specialize (Hall x Hx). by rewrite Hx58 in Hall.
Qed.

(** ** Witnesses *)

Section examples.
Local Existing Instance ascii_case.
Definition two_bridges : list bytes := [lit "obfs4 192.0.2.1:443 AAAA cert=x iat-mode=0"; lit "192.0.2.2:9001 BBBB"].

Lemma arguments_are_read_witness :
  exists os e, [lit "--gool-peer"; lit "--wg"; lit "-4"; lit "--nope"] = written os ++ tail_of e /\ Forall good os /\ ends_so e /\
    parse_args (lit "usage") [lit "--gool-peer"; lit "--wg"; lit "-4"; lit "--nope"] ∅ = (outcome (lit "usage") e, left_by e (apply_all os ∅)).
Proof. apply (arguments_are_read (lit "usage") [lit "--gool-peer"; lit "--wg"; lit "-4"; lit "--nope"] ∅). intros k v Hk. discriminate Hk. Defined.

Lemma bridges_given_are_read_witness :
  let '(r, env') := parse_args [] (written (bridge_options two_bridges)) ∅ in
  r = Ok Run /\ Tor.bridges (fun name => env' !! name) (fun _ => None) = Tor.Manual two_bridges.
Proof.
  apply (bridges_given_are_read [] (lit "obfs4 192.0.2.1:443 AAAA cert=x iat-mode=0") [lit "192.0.2.2:9001 BBBB"] ∅ (fun _ => None)); [|intros k v Hk; discriminate Hk|reflexivity|reflexivity].
  assert (forall l, forallb (fun b => negb (Tor.separates b)) l = true -> l = hd 0 l :: removelast (tail l) ++ [List.last l 0] -> plain (hd 0 l) = true ->
    plain (List.last l 0) = true -> Tor.bridge_line l) as Hline by (intros l Hl El Hb He; split; [exact Hl|eexists _, _, _; eauto]).
  repeat (constructor; [split; [apply Hline; reflexivity|split; [reflexivity|split; reflexivity]]|]). constructor.
Defined.

(** What was set before an error stays. *)
Example set_before_error :
  let '(r, env) := parse_args [] [lit "--gool-peer"] ∅ in
  r = Err (Other (lit "--gool-peer requires a value")) /\ env !! lit "AETHER_PROTOCOL" = Some (lit "gool").
Proof. vm_compute. done. Qed.

(** A bridge given after [--tor-bridges] leaves the word of that option among the bridges. *)
Example word_among_bridges :
  let '(r, env) := parse_args [] [lit "--tor-bridges"; lit "--tor-bridge"; lit "192.0.2.2:9001 BBBB"] ∅ in
  r = Ok Run /\ Tor.bridges (fun name => env !! name) (fun _ => None) = Tor.Manual [lit "auto"; lit "192.0.2.2:9001 BBBB"].
Proof. vm_compute. done. Qed.
End examples.
End Cli.
