(* ===== verification/Psiphon.v ===== *)
(** * Psiphon ([psiphon.rs])

    The settings of Psiphon, the configuration its program is started with, the notices it is
    waited for by, and where it then listens.  The configuration is a map of keys in the order in
    which they were inserted; a file of the user's is laid over what is built in.  serde_json and
    base64 are a class, the disk and the program answer as arguments. *)

From stdpp Require Import gmap.
From S2P Require Import Prelude Str Ip Text Error Prober SocksWire Config Upstream.
Local Open Scope Z_scope.

Module Psiphon.
Import Error.
Import Upstream(Upstream, psiphon_url).

Definition READY_TIMEOUT_SECS : Z := 180.
Definition BINARY_NAMES : list bytes := [lit "psiphon-tunnel-core"; lit "psiphon"].
Definition PROPAGATION_CHANNEL_ID : bytes := lit "FFFFFFFFFFFFFFFF".
Definition SPONSOR_ID : bytes := lit "FFFFFFFFFFFFFFFF".
Definition SERVER_LIST_URL : bytes := lit "https://s3.amazonaws.com//psiphon/web/mjr4-p23r-puwl/server_list_compressed".
Definition CDN_PROTOCOLS : list bytes := [lit "FRONTED-MEEK-CDN-OSSH"; lit "FRONTED-MEEK-CDN-HTTP-OSSH"; lit "FRONTED-MEEK-CDN-QUIC-OSSH"].
Definition NON_INPROXY_PROTOCOLS : list bytes := [lit "SSH"; lit "OSSH"; lit "TLS-OSSH"; lit "UNFRONTED-MEEK-OSSH"; lit "UNFRONTED-MEEK-HTTPS-OSSH"; lit "UNFRONTED-MEEK-SESSION-TICKET-OSSH"; lit "QUIC-OSSH"; lit "SHADOWSOCKS-OSSH"; lit "FRONTED-MEEK-OSSH"; lit "FRONTED-MEEK-CDN-OSSH"; lit "FRONTED-MEEK-HTTP-OSSH"; lit "FRONTED-MEEK-CDN-HTTP-OSSH"; lit "FRONTED-MEEK-QUIC-OSSH"; lit "FRONTED-MEEK-CDN-QUIC-OSSH"].
Definition CHAINED_PROTOCOLS : list bytes := [lit "SSH"; lit "OSSH"; lit "TLS-OSSH"; lit "UNFRONTED-MEEK-OSSH"; lit "UNFRONTED-MEEK-HTTPS-OSSH"; lit "UNFRONTED-MEEK-SESSION-TICKET-OSSH"; lit "SHADOWSOCKS-OSSH"; lit "FRONTED-MEEK-OSSH"; lit "FRONTED-MEEK-CDN-OSSH"; lit "FRONTED-MEEK-HTTP-OSSH"; lit "FRONTED-MEEK-CDN-HTTP-OSSH"].
Definition SERVER_LIST_SIGNATURE_KEY : bytes := lit "MIICIDANBgkqhkiG9w0BAQEFAAOCAg0AMIICCAKCAgEAt7Ls+/39r+T6zNW7GiVpJfzq/xvL9SBH5rIFnk0RXYEYavax3WS6HOD35eTAqn8AniOwiH+DOkvgSKF2caqk/y1dfq47Pdymtwzp9ikpB1C5OfAysXzBiwVJlCdajBKvBZDerV1cMvRzCKvKwRmvDmHgphQQ7WfXIGbRbmmk6opMBh3roE42KcotLFtqp0RRwLtcBRNtCdsrVsjiI1Lqz/lH+T61sGjSjQ3CHMuZYSQJZo/KrvzgQXpkaCTdbObxHqb6/+i1qaVOfEsvjoiyzTxJADvSytVtcTjijhPEV6XskJVHE1Zgl+7rATr/pDQkw6DPCNBS1+Y6fy7GstZALQXwEDN/qhQI9kWkHijT8ns+i1vGg00Mk/6J75arLhqcodWsdeG/M/moWgqQAnlZAGVtJI1OgeF5fsPpXu4kctOfuZlGjVZXQNW34aOzm8r8S0eVZitPlbhcPiR4gT/aSMz/wd8lZlzZYsje/Jr8u/YtlwjjreZrGRmG8KMOzukV3lLmMppXFMvl4bxv6YFEmIuTsOhbLTwFgh7KYNjodLj/LsqRVfwz31PgWQFTEPICV7GCvgVlPRxnofqKSjgTWI4mxDhBpVcATvaoBl1L/6WLbFvBsoAUBItWwctO2xalKxF5szhGm8lccoc5MZr8kfE0uxMgsxz4er68iCID+rsCAQM=".

(** ** Settings *)

Inductive Mode := Off | Chain | Reverse | Only.
Inductive Shape := Auto | Cdn | Direct.
#[export] Instance Shape_eq_dec : EqDecision Shape.
Proof. solve_decision. Defined.

Definition LOCALHOST : IpAddr := V4 2130706433.
Definition BEHIND_HELD : SocketAddr := mkSocketAddr LOCALHOST 0.

(** Where Psiphon listens: on what the user dials, or behind listeners that the core holds there. *)
Inductive Placement := Dialled | BehindHeld.
#[export] Instance Placement_eq_dec : EqDecision Placement.
Proof. solve_decision. Defined.

Section settings.
Context `{UnicodeCase}.
Variable to_uppercase : bytes -> bytes.
Variable env : bytes -> option bytes.

Definition mode : Mode :=
  let raw := to_lowercase (trim (default [] (env (lit "AETHER_PSIPHON")))) in
  if Prober.one_of raw [[]; lit "0"; lit "off"; lit "false"; lit "no"] then Off
  else if Prober.one_of raw [lit "reverse"; lit "rev"; lit "warp-over-psiphon"] then Reverse
  else if Prober.one_of raw [lit "only"; lit "alone"; lit "psiphon-only"; lit "direct"] then Only
  else Chain.

Definition listen_address : SocketAddr :=
  default (mkSocketAddr LOCALHOST 1821) (value ← env (lit "AETHER_PSIPHON_BIND"); parse_socket_addr (trim value)).
Definition http_listen_address : option SocketAddr :=
  value ← env (lit "AETHER_PSIPHON_HTTP");
  let value := trim value in
  if bool_decide (value = []) || bool_decide (value = lit "off") then None else parse_socket_addr value.

(** [trim_end_matches(['/', '\\'])] *)
Fixpoint drop_separators (r : bytes) : bytes :=
  match r with b :: r' => if (b =? 47) || (b =? 92) then drop_separators r' else r | [] => [] end.
Definition state_dir (base_config : bytes) : bytes :=
  match env (lit "AETHER_PSIPHON_DIR") with
  | Some dir => if negb (bool_decide (trim dir = [])) then trim dir else rev (drop_separators (rev base_config)) ++ lit "-psiphon"
  | None => rev (drop_separators (rev base_config)) ++ lit "-psiphon"
  end.

Definition is_ascii_alphabetic (b : Z) : bool := is_ascii_upper b || is_ascii_lower b.
Definition region : option bytes :=
  value ← env (lit "AETHER_PSIPHON_REGION");
  let value := to_uppercase (trim value) in
  if (blen value =? 2) && forallb is_ascii_alphabetic value then Some value else None.

Definition ready_timeout : Z :=
  match (v ← env (lit "AETHER_PSIPHON_READY_SECS"); parse_u64 v) with
  | Some v => if 0 <? v then Z.min v 86400 else READY_TIMEOUT_SECS
  | None => READY_TIMEOUT_SECS
  end.

Definition shape : Shape :=
  let raw := to_ascii_lowercase (trim (default [] (env (lit "AETHER_PSIPHON_MODE")))) in
  if Prober.one_of raw [lit "cdn"; lit "fronted"] then Cdn
  else if Prober.one_of raw [lit "direct"; lit "plain"] then Direct
  else Auto.

Definition carries_udp (name : bytes) : bool := contains (lit "QUIC") name || starts_with (lit "INPROXY") name.
Definition chained_protocols (shape : Shape) : list bytes :=
  match shape with
  | Cdn => List.filter (fun name => negb (carries_udp name)) CDN_PROTOCOLS
  | Direct => List.filter (fun name => negb (starts_with (lit "FRONTED") name)) CHAINED_PROTOCOLS
  | Auto => CHAINED_PROTOCOLS
  end.

(** A setting that is not blank. *)
Definition set_to (name : bytes) : option bytes := v ← env name; if bool_decide (trim v = []) then None else Some (trim v).
Definition env_or (name fallback : bytes) : bytes := default fallback (set_to name).

Definition splits (b : Z) : bool := (b =? 32) || (b =? 9) || (b =? 10) || (b =? 13) || (b =? 44) || (b =? 59).
Definition cdn_candidates (raw : bytes) : list bytes :=
  List.filter (fun part => negb (bool_decide (part = []))) (map trim (split_chars splits raw)).

(** ** The program *)

(** [binary()]: the directory of the core, those of [PATH], and which paths are files. *)
Definition search_dirs (here : option bytes) (path : list bytes) : list bytes :=
  match here with Some here => [here; Config.push_name here (lit "pt")] | None => [] end ++ [lit "."; lit "pt"] ++ path.
Definition candidates (suffix : bytes) (dirs : list bytes) : list bytes :=
  concat (map (fun dir => map (fun name => Config.push_name dir (name ++ suffix)) BINARY_NAMES) dirs).
Definition binary (suffix : bytes) (here : option bytes) (path : list bytes) (is_file : bytes -> bool) : option bytes :=
  match (v ← env (lit "AETHER_PSIPHON_BIN"); if is_file (trim v) then Some (trim v) else None) with
  | Some given => Some given
  | None => List.find is_file (candidates suffix (search_dirs here path))
  end.

Definition server_entries (is_file : bytes -> bool) : option bytes :=
  v ← set_to (lit "AETHER_PSIPHON_SERVER_ENTRIES"); if is_file v then Some v else None.
Definition client_arguments (config_path state : bytes) (entries : option bytes) : list bytes :=
  [lit "-config"; config_path; lit "-dataRootDirectory"; state] ++ match entries with Some path => [lit "-serverList"; path] | None => [] end.

(** The list that comes with the app, where no other is named: a file that holds something, for a
    program whose help names the option. *)
Definition embedded_server_list (size_of_file : bytes -> option Z) (usage : bytes) : option bytes :=
  list ← set_to (lit "AETHER_PSIPHON_EMBEDDED_SERVERS");
  size ← size_of_file list;
  if (0 <? size) && contains (lit "-serverList") usage then Some list else None.
Definition entries (is_file : bytes -> bool) (size_of_file : bytes -> option Z) (usage : bytes) : option bytes :=
  match server_entries is_file with Some path => Some path | None => embedded_server_list size_of_file usage end.

(** ** Where it listens *)

Definition listen_interface (socks : SocketAddr) : option bytes :=
  match set_to (lit "AETHER_PSIPHON_INTERFACE") with
  | Some name => Some name
  | None =>
      if ip_is_loopback (sa_ip socks) then None
      else if ip_is_unspecified (sa_ip socks) then Some (lit "any")
      else None
  end.
Definition effective_ip (socks : SocketAddr) (placement : Placement) : IpAddr :=
  match placement with
  | BehindHeld => LOCALHOST
  | Dialled =>
      match listen_interface socks with
      | Some name => if bool_decide (name = lit "any") then V4 0 else sa_ip socks
      | None => LOCALHOST
      end
  end.

(** ** The configuration *)

(** A JSON value; a number as it is written. *)
Inductive Json := JNull | JBool (b : bool) | JNum (n : bytes) | JStr (s : bytes) | JArr (l : list Json) | JObj (fields : list (bytes * Json)).
Definition Fields : Type := list (bytes * Json).

(** [Map::insert]: a key that is there keeps its place. *)
Fixpoint insert (key : bytes) (value : Json) (m : Fields) : Fields :=
  match m with
  | [] => [(key, value)]
  | (k, v) :: m => if bool_decide (k = key) then (key, value) :: m else (k, v) :: insert key value m
  end.
Fixpoint get (key : bytes) (m : Fields) : option Json :=
  match m with [] => None | (k, v) :: m => if bool_decide (k = key) then Some v else get key m end.
Definition lay_over (given m : Fields) : Fields := fold_left (fun m '(k, v) => insert k v m) given m.
Definition strings (l : list bytes) : Json := JArr (map JStr l).

Class PsiphonJson := {
  (** What a text is: an error, or a value. *)
  value_of_json : bytes -> bytes + Json;
  (** [to_string], or its error. *)
  json_to_string : Fields -> bytes + bytes;
  base64_encode : bytes -> bytes;
}.

(** The sets scanned: one's own addresses, and the lists built in where there are none of one's own
    or some are named. *)
Definition put_cdn_fronting (m : Fields) : Fields :=
  let candidates_of name := cdn_candidates (default [] (env name)) in
  let addresses := candidates_of (lit "AETHER_PSIPHON_CDN_IPS") in
  let names := candidates_of (lit "AETHER_PSIPHON_CDN_SNI") in
  let sets := candidates_of (lit "AETHER_PSIPHON_CDN_SETS") in
  let m := if negb (bool_decide (addresses = [])) then
      let spec := insert (lit "IPCandidates") (strings addresses) [] in
      let spec := if negb (bool_decide (names = [])) then insert (lit "SNIServerNames") (strings names) spec else spec in
      insert (lit "FrontedMeekCDNScanSpec") (JObj spec) m
    else m in
  let m := if bool_decide (addresses = []) || negb (bool_decide (sets = [])) then insert (lit "FrontedMeekCDNScanUseBuiltInSpec") (JBool true) m else m in
  if negb (bool_decide (sets = [])) then insert (lit "FrontedMeekCDNScanBuiltInSets") (strings sets) m else m.
End settings.

(** *** Comments *)

(** Past a block comment: [last] is the character before. *)
Fixpoint skip_block (last : Z) (s : bytes) : bytes :=
  match s with [] => [] | n :: s => if (last =? 42) && (n =? 47) then s else skip_block n s end.
Fixpoint skip_line (s : bytes) : bytes :=
  match s with [] => [] | n :: s => if n =? 10 then s else skip_line s end.

Inductive Where := Outside | Inside (escaped : bool).
Fixpoint cleaned_fuel (fuel : nat) (w : Where) (s : bytes) : bytes :=
  match fuel with
  | O => []
  | S fuel =>
      match s with
      | [] => []
      | c :: s =>
          match w with
          | Inside escaped =>
              c :: cleaned_fuel fuel (if escaped then Inside false else if c =? 92 then Inside true else if c =? 34 then Outside else Inside false) s
          | Outside =>
              if c =? 34 then c :: cleaned_fuel fuel (Inside false) s
              else if (c =? 47) && bool_decide (head s = Some 42) then 32 :: cleaned_fuel fuel Outside (skip_block 0 (tail s))
              else if (c =? 47) && bool_decide (head s = Some 47) then 10 :: cleaned_fuel fuel Outside (skip_line s)
              else c :: cleaned_fuel fuel Outside s
          end
      end
  end.
(** What [json5_ish] hands to serde_json. *)
Definition cleaned (text : bytes) : bytes := cleaned_fuel (length text) Outside text.

Section config.
Context `{UnicodeCase} `{PsiphonJson}.
Variable to_uppercase : bytes -> bytes.
Variable env : bytes -> option bytes.

(** [read]: what [read_to_string] gives. *)
Definition read_base_config (read : bytes -> bytes + bytes) : res AetherError (option Fields) :=
  match set_to env (lit "AETHER_PSIPHON_CONFIG") with
  | None => Ok None
  | Some path =>
      let failed e := Err (Other (lit "psiphon config " ++ path ++ lit ": " ++ e)) in
      match read path with
      | inl e => failed e
      | inr text =>
          match value_of_json (cleaned text) with
          | inl e => failed e
          | inr (JObj fields) => Ok (Some fields)
          | inr _ => Err (Other (lit "psiphon config " ++ path ++ lit " is not a json object"))
          end
      end
  end.

Variable client_platform : bytes.

(** What is built in. *)
Definition built_in : Fields :=
  let m := insert (lit "PropagationChannelId") (JStr (env_or env (lit "AETHER_PSIPHON_PROPAGATION_CHANNEL_ID") PROPAGATION_CHANNEL_ID)) [] in
  let m := insert (lit "SponsorId") (JStr (env_or env (lit "AETHER_PSIPHON_SPONSOR_ID") SPONSOR_ID)) m in
  let m := insert (lit "ClientPlatform") (JStr client_platform) m in
  let m := insert (lit "ClientVersion") (JStr (lit "1")) m in
  let list_url := env_or env (lit "AETHER_PSIPHON_SERVER_LIST") SERVER_LIST_URL in
  let m := insert (lit "RemoteServerListURLs") (JArr [JObj [(lit "URL", JStr (base64_encode list_url))]]) m in
  let m := insert (lit "RemoteServerListSignaturePublicKey") (JStr SERVER_LIST_SIGNATURE_KEY) m in
  let m := insert (lit "InproxyTunnelProtocolPreferProbability") (JNum (lit "0.0")) m in
  insert (lit "InproxyTunnelProtocolSelectionProbability") (JNum (lit "0.0")) m.

Definition put_protocols (chained : bool) (chosen : Shape) (m : Fields) : Fields :=
  let limit l m := insert (lit "LimitTunnelProtocols") (strings l) m in
  let untactical m := insert (lit "DisableTactics") (JBool true) m in
  match chained, chosen with
  | true, _ => untactical (limit (chained_protocols chosen) m)
  | false, Auto => limit NON_INPROXY_PROTOCOLS m
  | false, Cdn => untactical (limit CDN_PROTOCOLS m)
  | false, Direct => untactical (limit NON_INPROXY_PROTOCOLS m)
  end.

Definition is_listen_interface (key : bytes) : bool := eq_ignore_ascii_case key (lit "ListenInterface").
Definition put_interface (socks : SocketAddr) (placement : Placement) (m : Fields) : Fields :=
  match placement with
  | Dialled => match listen_interface env socks with Some name => insert (lit "ListenInterface") (JStr name) m | None => m end
  | BehindHeld => List.filter (fun '(key, _) => negb (is_listen_interface key)) m
  end.

(** What is the core's own to say, over what the user's file says. *)
Definition put_own (state : bytes) (socks : SocketAddr) (http : option SocketAddr) (upstream : option bytes) (placement : Placement) (m : Fields) : Fields :=
  let m := insert (lit "DataRootDirectory") (JStr state) m in
  let m := insert (lit "LocalSocksProxyPort") (JNum (dec (sa_port socks))) m in
  let m := insert (lit "EmitDiagnosticNotices") (JBool true) m in
  let m := insert (lit "EmitDiagnosticNetworkParameters") (JBool true) m in
  let m := insert (lit "EmitServerAlerts") (JBool true) m in
  let m := insert (lit "EmitBytesTransferred") (JBool false) m in
  let m := put_interface socks placement m in
  let m := match http with
    | Some address => insert (lit "DisableLocalHTTPProxy") (JBool false) (insert (lit "LocalHttpProxyPort") (JNum (dec (sa_port address))) m)
    | None => insert (lit "DisableLocalHTTPProxy") (JBool true) m
    end in
  let m := match region to_uppercase env with Some code => insert (lit "EgressRegion") (JStr code) m | None => m end in
  match upstream with Some url => insert (lit "UpstreamProxyURL") (JStr url) m | None => m end.

Definition config_fields (read : bytes -> bytes + bytes) (state : bytes) (socks : SocketAddr) (http : option SocketAddr) (upstream : option bytes) (placement : Placement)
    : res AetherError Fields :=
  let m := put_protocols (bool_decide (is_Some upstream)) (shape env) (put_cdn_fronting env built_in) in
  given ← read_base_config read;
  Ok (put_own state socks http upstream placement (lay_over (default [] given) m)).

Definition build_config (read : bytes -> bytes + bytes) (state : bytes) (socks : SocketAddr) (http : option SocketAddr) (upstream : option bytes) (placement : Placement)
    : res AetherError bytes :=
  m ← config_fields read state socks http upstream placement;
  match json_to_string m with inr text => Ok text | inl e => Err (Other (lit "psiphon config could not be written: " ++ e)) end.
End config.

(** ** Waiting for it *)

(** A notice, with the numbers its data may hold; [Unread]: a line that is no notice. *)
Inductive Line := Noticed (kind : bytes) (port count : option Z) | Unread.
Inductive Event := Got (line : Line) | Broke (e : bytes) | Closed | Late.
Record Up := mkUp { socks_port : option Z; http_port : option Z; tunnelled : bool }.
Definition up_start : Up := mkUp None None false.

Definition notice (line : Line) (u : Up) : Up :=
  match line with
  | Noticed kind port count =>
      if bool_decide (kind = lit "ListeningSocksProxyPort") then mkUp ((fun p => p mod 65536) <$> port) (http_port u) (tunnelled u)
      else if bool_decide (kind = lit "ListeningHttpProxyPort") then mkUp (socks_port u) ((fun p => p mod 65536) <$> port) (tunnelled u)
      else if bool_decide (kind = lit "Tunnels") then mkUp (socks_port u) (http_port u) (0 <? default 0 count)
      else u
  | Unread => u
  end.
Definition is_ready (u : Up) : bool := tunnelled u && bool_decide (is_Some (socks_port u)).

(** [None]: it is still waited for.  A line that is no notice is passed over without a look at the
    state, which is not ready then. *)
Fixpoint until_ready (l : list Event) (u : Up) : option (res AetherError Up) :=
  match l with
  | [] => None
  | Late :: _ => Some (Err (Other (lit "psiphon did not come up in time; it may be blocked on this network")))
  | Broke e :: _ => Some (Err (Other (lit "psiphon: " ++ e)))
  | Closed :: _ => Some (Err (Other (lit "psiphon stopped before it was ready")))
  | Got Unread :: l => until_ready l u
  | Got line :: l => let u := notice line u in if is_ready u then Some (Ok u) else until_ready l u
  end.

Record Running := mkRunning { r_socks : SocketAddr; r_http : option SocketAddr }.
Definition running (env : bytes -> option bytes) (socks : SocketAddr) (http : option SocketAddr) (placement : Placement) (u : Up) : Running :=
  let bound := effective_ip env socks placement in
  mkRunning (mkSocketAddr bound (default (sa_port socks) (socks_port u)))
    ((fun address => mkSocketAddr bound (default (sa_port address) (http_port u))) <$> http).

(** [start], once the program is found: the directory of the state, the configuration, the file it
    is kept in, the program, its notices. *)
Record Starting := mkStarting { s_dir : option bytes; s_kept : option bytes; s_spawned : option bytes; s_stream : bool; s_events : list Event }.
Section start.
Context `{UnicodeCase} `{PsiphonJson}.
Variable to_uppercase : bytes -> bytes.
Variable env : bytes -> option bytes.
Variables (client_platform hint : bytes) (read : bytes -> bytes + bytes) (exe : option bytes).

Definition start (state : bytes) (socks : SocketAddr) (http : option SocketAddr) (upstream : option bytes) (placement : Placement) (s : Starting)
    : option (res AetherError Running) :=
  match exe with
  | None => Some (Err (Other hint))
  | Some _ =>
      match s_dir s with
      | Some e => Some (Err (Other (lit "psiphon state dir " ++ state ++ lit ": " ++ e)))
      | None =>
          match build_config to_uppercase env client_platform read state socks http upstream placement with
          | Err e => Some (Err e)
          | Panic => Some Panic
          | Ok _ =>
              match s_kept s, s_spawned s, s_stream s with
              | Some e, _, _ => Some (Err (Other (lit "psiphon config could not be saved: " ++ e)))
              | None, Some e, _ => Some (Err (Other (lit "psiphon would not start: " ++ e)))
              | None, None, false => Some (Err (Other (lit "psiphon gave no notice stream")))
              | None, None, true =>
                  match until_ready (s_events s) up_start with
                  | Some (Ok u) => Some (Ok (running env socks http placement u))
                  | Some (Err e) => Some (Err e)
                  | Some Panic => Some Panic
                  | None => None
                  end
              end
          end
      end
  end.

(** What [run_only], [run_chain] and [start_reverse] start it with; [http]: the http proxy held. *)
Definition start_only (upstream : option Upstream) (state : bytes) (http : option SocketAddr) : Starting -> option (res AetherError Running) :=
  start state BEHIND_HELD ((fun _ => BEHIND_HELD) <$> http) (psiphon_url <$> upstream) BehindHeld.
Definition start_chain (through : SocketAddr) (state : bytes) (http : option SocketAddr) : Starting -> option (res AetherError Running) :=
  start state BEHIND_HELD ((fun _ => BEHIND_HELD) <$> http) (Some (lit "socks5://" ++ sa_to_string through)) BehindHeld.
Definition start_reverse (upstream : option Upstream) (state : bytes) : Starting -> option (res AetherError Running) :=
  start state (listen_address env) (http_listen_address env) (psiphon_url <$> upstream) Dialled.
(** Where the tunnel dials it. *)
Definition reverse_socks (r : Running) : SocketAddr := SocksWire.dialable (r_socks r).

(** [relay_to]: where the held http proxy is passed on to; [None]: it is closed, or there is none. *)
Definition http_behind (http : option SocketAddr) (r : Running) : option SocketAddr :=
  match http, r_http r with Some _, Some behind => if negb (sa_port behind =? 0) then Some behind else None | _, _ => None end.
End start.

(** ** Maps *)

Lemma get_insert key v m : get key (insert key v m) = Some v.
Proof. induction m as [|[k x] m IH]; cbn; [by rewrite bool_decide_true|]. case_bool_decide as E; cbn; [by rewrite bool_decide_true|by rewrite bool_decide_false]. Qed.
Lemma get_insert_ne key key' v m : key' <> key -> get key' (insert key v m) = get key' m.
Proof.
  intros Hne. induction m as [|[k x] m IH]; cbn; [by rewrite bool_decide_false|]. case_bool_decide as E; cbn.
  - subst k. by rewrite !bool_decide_false.
  - by rewrite IH.
Qed.
Lemma keys_insert key v m x : x ∈ map fst (insert key v m) -> x = key \/ x ∈ map fst m.
Proof.
  induction m as [|[k y] m IH]; cbn; [set_solver|]. case_bool_decide as E; cbn; set_solver.
Qed.

(** No key names an interface. *)
Definition unnamed (m : Fields) : Prop := forall key, key ∈ map fst m -> is_listen_interface key = false.
Lemma unnamed_insert key v m : is_listen_interface key = false -> unnamed m -> unnamed (insert key v m).
Proof. intros Hk Hm x [-> |Hx]%keys_insert; [done|by apply Hm]. Qed.
Lemma unnamed_filter m : unnamed (List.filter (fun '(key, _) => negb (is_listen_interface key)) m).
Proof.
  intros key (p & -> & [_ Hp]%list_elem_of_In%filter_In)%list_elem_of_fmap. destruct p. cbn. by apply negb_true_iff.
Qed.
Lemma get_filter key m : is_listen_interface key = false -> get key (List.filter (fun '(key, _) => negb (is_listen_interface key)) m) = get key m.
Proof.
  intros Hk. induction m as [|[k v] m IH]; [done|]. cbn [List.filter]. destruct (is_listen_interface k) eqn:E; cbn [negb get]; [|by rewrite IH].
  rewrite IH, bool_decide_false by congruence. done.
Qed.

Lemma get_lay_over key given m : get key given = None -> get key (lay_over given m) = get key m.
Proof.
  unfold lay_over. revert m. induction given as [|[k v] given IH]; intros m; cbn; [done|]. case_bool_decide as E; [done|]. intros Hg. rewrite IH by done. by apply get_insert_ne.
Qed.

#[local] Hint Rewrite get_insert : psiphon.
(** A key through the inserts of other keys. *)
Ltac through := repeat first [rewrite get_insert_ne by discriminate|rewrite get_insert|rewrite get_filter by reflexivity].

Section own.
Context `{UnicodeCase} `{PsiphonJson}.
Variable to_uppercase : bytes -> bytes.
Variable env : bytes -> option bytes.
Variable client_platform : bytes.

(** What [put_own] leaves as it is, behind a held listener. *)
Definition is_own (key : bytes) : bool :=
  Prober.one_of key [lit "DataRootDirectory"; lit "LocalSocksProxyPort"; lit "EmitDiagnosticNotices"; lit "EmitDiagnosticNetworkParameters"; lit "EmitServerAlerts";
    lit "EmitBytesTransferred"; lit "DisableLocalHTTPProxy"; lit "LocalHttpProxyPort"; lit "EgressRegion"; lit "UpstreamProxyURL"].

Lemma own_unnamed state socks http upstream m : unnamed (put_own to_uppercase env state socks http upstream BehindHeld m).
Proof.
  unfold put_own. cbn [put_interface]. destruct upstream as [url|]; [apply unnamed_insert; [reflexivity|]|];
    (destruct (region _ _) as [code|]; [apply unnamed_insert; [reflexivity|]|]);
    (destruct http as [a|]; repeat (apply unnamed_insert; [reflexivity|]); apply unnamed_filter).
Qed.

Lemma own_get state socks http upstream m key v :
  (key, v) ∈ [(lit "DataRootDirectory", JStr state); (lit "LocalSocksProxyPort", JNum (dec (sa_port socks)))] ->
  get key (put_own to_uppercase env state socks http upstream BehindHeld m) = Some v.
Proof.
  intros Hk. unfold put_own. cbn [put_interface]. rewrite !elem_of_cons in Hk.
  destruct Hk as [[= -> ->]|[[= -> ->]|Hk%elem_of_nil]]; [| |done];
    (destruct upstream as [url|]; destruct (region _ _) as [code|]; destruct http as [a|]; through; done).
Qed.
Lemma own_upstream state socks http url m :
  get (lit "UpstreamProxyURL") (put_own to_uppercase env state socks http (Some url) BehindHeld m) = Some (JStr url).
Proof. unfold put_own. by through. Qed.

Lemma own_other state socks http upstream m key : is_own key = false -> is_listen_interface key = false ->
  get key (put_own to_uppercase env state socks http upstream BehindHeld m) = get key m.
Proof.
  intros Hk Hi. unfold put_own. cbn [put_interface]. unfold is_own, Prober.one_of in Hk. cbn [existsb] in Hk.
  repeat match type of Hk with (_ || _ = false) => apply orb_false_iff in Hk as [?%bool_decide_eq_false Hk] end.
  destruct upstream as [url|]; destruct (region _ _) as [code|]; destruct http as [a|];
    repeat first [rewrite get_insert_ne by congruence|rewrite get_filter by done]; done.
Qed.

Lemma chained_no_udp s : forallb (fun name => negb (carries_udp name)) (chained_protocols s) = true.
Proof. by destruct s; vm_compute. Qed.

(** What Psiphon is offered when it is dialled through a proxy. *)
Lemma put_protocols_chained s m :
  get (lit "LimitTunnelProtocols") (put_protocols true s m) = Some (strings (chained_protocols s)) /\
  get (lit "DisableTactics") (put_protocols true s m) = Some (JBool true).
Proof. unfold put_protocols. split; by through. Qed.
End own.

(** C11.  Psiphon stays behind the listeners that are held.  Whatever the settings and the user's own
    file say, its configuration names no interface in any case, has the port and the directory it is
    given, the proxy it is given, and, carried, no protocol over UDP and no tactics but by that file;
    and where it is said to listen is loopback. *)
Theorem psiphon_stays_behind `{UnicodeCase} `{PsiphonJson} to_uppercase env client_platform read state socks http upstream m :
  config_fields to_uppercase env client_platform read state socks http upstream BehindHeld = Ok m ->
  (forall key, key ∈ map fst m -> eq_ignore_ascii_case key (lit "ListenInterface") = false) /\
  get (lit "DataRootDirectory") m = Some (JStr state) /\ get (lit "LocalSocksProxyPort") m = Some (JNum (dec (sa_port socks))) /\
  (forall url, upstream = Some url -> get (lit "UpstreamProxyURL") m = Some (JStr url) /\
    forall given, read_base_config env read = Ok given ->
      (get (lit "LimitTunnelProtocols") (default [] given) = None ->
        exists l, get (lit "LimitTunnelProtocols") m = Some (strings l) /\ forallb (fun name => negb (carries_udp name)) l = true) /\
      (get (lit "DisableTactics") (default [] given) = None -> get (lit "DisableTactics") m = Some (JBool true))) /\
  (forall u, ip_is_loopback (sa_ip (r_socks (running env socks http BehindHeld u))) = true /\
    forall a, r_http (running env socks http BehindHeld u) = Some a -> ip_is_loopback (sa_ip a) = true).
Proof.
  unfold config_fields. intros (given & Hg & [= <-])%res_bind_Ok. split_and!.
  - apply own_unnamed.
  - apply own_get. set_solver.
  - apply own_get. set_solver.
  - intros url ->. split; [apply own_upstream|]. intros given' [= <-]%(eq_trans (eq_sym Hg)).
    rewrite !own_other by (reflexivity || (vm_compute; reflexivity)). rewrite bool_decide_true by done.
    split; intros Hgiven; rewrite get_lay_over by exact Hgiven.
    + exists (chained_protocols (shape env)). split; [apply put_protocols_chained|apply chained_no_udp].
    + apply put_protocols_chained.
  - intros u. split; [done|]. unfold running. cbn. destruct http as [a|]; cbn; [by intros b [= <-]|done].
Qed.

(** ** Ready *)

(** The lines that were heard, and what they said last. *)
Definition heard (ls : list Line) : Up := fold_left (fun u line => notice line u) ls up_start.
Fixpoint last_count (ls : list Line) (before : option Z) : option Z :=
  match ls with
  | [] => before
  | Noticed kind _ count :: ls => last_count ls (if bool_decide (kind = lit "Tunnels") then Some (default 0 count) else before)
  | Unread :: ls => last_count ls before
  end.
Fixpoint last_port (ls : list Line) (before : option Z) : option Z :=
  match ls with
  | [] => before
  | Noticed kind port _ :: ls => last_port ls (if bool_decide (kind = lit "ListeningSocksProxyPort") then (fun p => p mod 65536) <$> port else before)
  | Unread :: ls => last_port ls before
  end.

Lemma heard_said ls : forall u c, tunnelled u = match c with Some c => 0 <? c | None => false end ->
  let u' := fold_left (fun u line => notice line u) ls u in
  tunnelled u' = match last_count ls c with Some c => 0 <? c | None => false end /\ socks_port u' = last_port ls (socks_port u).
Proof.
  induction ls as [|[kind port count|] ls IH]; intros u c Hc; cbn [fold_left last_count last_port]; [done| |by apply IH].
  set (u1 := notice (Noticed kind port count) u).
  assert (tunnelled u1 = match (if bool_decide (kind = lit "Tunnels") then Some (default 0 count) else c) with Some c => 0 <? c | None => false end /\
    socks_port u1 = if bool_decide (kind = lit "ListeningSocksProxyPort") then (fun p => p mod 65536) <$> port else socks_port u) as [H1 H2].
  { unfold u1, notice. repeat case_bool_decide; subst; done. }
  specialize (IH u1 _ H1). rewrite H2 in IH. exact IH.
Qed.

Lemma until_ready_ok l : forall u u', is_ready u = false -> until_ready l u = Some (Ok u') ->
  exists ls rest, l = map Got ls ++ rest /\ u' = fold_left (fun u line => notice line u) ls u /\ is_ready u' = true /\
    forall k, (k < length ls)%nat -> is_ready (fold_left (fun u line => notice line u) (take k ls) u) = false.
Proof.
  induction l as [|e l IH]; intros u u' Hu; [done|]. destruct e as [line|e| |]; try done.
  assert (until_ready (Got line :: l) u = if is_ready (notice line u) then Some (Ok (notice line u)) else until_ready l (notice line u)) as ->.
  { destruct line; cbn [until_ready]; [done|]. cbn [notice]. by rewrite Hu. }
  destruct (is_ready (notice line u)) eqn:Hr.
  - intros [= <-]. exists [line], l. split_and!; [done..|]. intros [|k] Hk; [done|cbn in Hk; lia].
  - intros Ho. destruct (IH _ _ Hr Ho) as (ls & rest & -> & -> & Hr' & Hk). exists (line :: ls), rest. split_and!; [done..|].
    intros [|k] Hlt; [done|]. apply Hk. cbn in Hlt. lia.
Qed.

Lemma until_ready_ends l : forall u, is_ready u = false -> (exists e, e ∈ l /\ forall line, e <> Got line) -> is_Some (until_ready l u).
Proof.
  induction l as [|e l IH]; intros u Hu (x & Hx & Hne); [by apply elem_of_nil in Hx|]. destruct e as [line|e| |]; [|by eexists..].
  apply elem_of_cons in Hx as [->|Hx]; [by destruct (Hne line)|]. destruct line as [kind port count|]; cbn [until_ready]; [|by apply IH; [|exists x]].
  destruct (is_ready (notice (Noticed kind port count) u)) eqn:Hr; [by eexists|]. by apply IH; [|exists x].
Qed.

(** Psiphon is ready with a tunnel and a port, and never waited for too long.  It is taken as
    ready with the first line after which the last count of tunnels it gave is above none and it has
    said on which port it listens, which is the port then used; and once the deadline is over, or its
    notices end, the wait is over. *)
Theorem psiphon_ready_means_tunnel l :
  (forall u, until_ready l up_start = Some (Ok u) ->
    exists ls rest c, l = map Got ls ++ rest /\ last_count ls None = Some c /\ 0 < c /\ socks_port u = last_port ls None /\ is_Some (socks_port u) /\
      forall k, (k < length ls)%nat -> is_ready (heard (take k ls)) = false) /\
  ((exists e, e ∈ l /\ forall line, e <> Got line) -> is_Some (until_ready l up_start)).
Proof.
  split; [|by apply until_ready_ends]. intros u Hu. destruct (until_ready_ok l up_start u eq_refl Hu) as (ls & rest & -> & -> & Hr & Hk).
  destruct (heard_said ls up_start None eq_refl) as [H1 H2]. unfold is_ready in Hr. apply andb_prop in Hr as [Hr1 Hr2%bool_decide_eq_true].
  rewrite H1 in Hr1. destruct (last_count ls None) as [c|] eqn:Hc; [|done]. exists ls, rest, c. split_and!; [done|done|by apply Z.ltb_lt|exact H2|exact Hr2|exact Hk].
Qed.

(** ** Comments *)

(** A character of a string, and what a text is made of. *)
Inductive Char := Plain (c : Z) | Escaped (c : Z).
Inductive Piece := Bare (c : Z) | Quoted (body : list Char) | Block (body : bytes) | Rest (body : bytes).
Definition char_text (c : Char) : bytes := match c with Plain c => [c] | Escaped c => [92; c] end.
Definition piece_text (p : Piece) : bytes :=
  match p with
  | Bare c => [c]
  | Quoted body => [34] ++ concat (map char_text body) ++ [34]
  | Block body => [47; 42] ++ body ++ [42; 47]
  | Rest body => [47; 47] ++ body ++ [10]
  end.
Definition piece_ok (p : Piece) : Prop :=
  match p with
  | Bare c => c <> 34 /\ c <> 47
  | Quoted body => Forall (fun c => match c with Plain c => c <> 34 /\ c <> 92 | Escaped _ => True end) body
  | Block body => contains [42; 47] body = false
  | Rest body => no_char 10 body = true
  end.
(** What is left of it. *)
Definition piece_kept (p : Piece) : bytes := match p with Block _ => [32] | Rest _ => [10] | _ => piece_text p end.

Lemma skip_block_body body rest : forall last, contains [42; 47] body = false -> (last <> 42 \/ head body <> Some 47) ->
  skip_block last (body ++ [42; 47] ++ rest) = rest.
Proof.
  induction body as [|c body IH]; intros last Hb Hl; cbn [app skip_block].
  - by rewrite andb_false_r.
  - assert ((last =? 42) && (c =? 47) = false) as ->.
    { apply andb_false_iff. destruct Hl as [Hl|Hl]; [left; by apply Z.eqb_neq|right]. apply Z.eqb_neq. intros ->. by apply Hl. }
    cbn [contains] in Hb. apply orb_false_iff in Hb as [Hp Hb]. apply (IH c Hb). destruct (decide (c = 42)) as [-> |Hc]; [right|by left].
    intros E. destruct body as [|x body]; [done|]. cbn in E. injection E as ->. by cbn in Hp.
Qed.
Lemma skip_line_body body rest : no_char 10 body = true -> skip_line (body ++ [10] ++ rest) = rest.
Proof.
  induction body as [|c body IH]; [done|]. intros [Hc%negb_true_iff Hb]%andb_prop. cbn [app skip_line]. rewrite Hc. by apply IH.
Qed.

Lemma cleaned_string body rest : forall fuel, Forall (fun c => match c with Plain c => c <> 34 /\ c <> 92 | Escaped _ => True end) body ->
  (length (concat (map char_text body) ++ [34%Z]) <= fuel)%nat ->
  cleaned_fuel fuel (Inside false) (concat (map char_text body) ++ [34] ++ rest)
  = (concat (map char_text body) ++ [34]) ++ cleaned_fuel (fuel - length (concat (map char_text body) ++ [34])) Outside rest.
Proof.
  induction body as [|[c|c] body IH]; intros fuel Hb Hf.
  - cbn in *. destruct fuel as [|fuel]; [lia|]. cbn. by rewrite Nat.sub_0_r.
  - apply Forall_cons in Hb as [[H1 H2] Hb]. cbn in *. destruct fuel as [|fuel]; [lia|]. cbn [cleaned_fuel Nat.sub].
    rewrite (proj2 (Z.eqb_neq c 92)), (proj2 (Z.eqb_neq c 34)) by done. f_equal. by apply IH; [|lia].
  - apply Forall_cons in Hb as [_ Hb]. cbn in *. destruct fuel as [|[|fuel]]; [lia|lia|]. cbn [cleaned_fuel Nat.sub]. do 2 f_equal. by apply IH; [|lia].
Qed.

Lemma cleaned_piece p rest fuel : piece_ok p -> (length (piece_text p) <= fuel)%nat ->
  exists fuel', (fuel - length (piece_text p) <= fuel')%nat /\ cleaned_fuel fuel Outside (piece_text p ++ rest) = piece_kept p ++ cleaned_fuel fuel' Outside rest.
Proof.
  intros Hp Hf. destruct p as [c|body|body|body]; cbn [piece_text piece_kept piece_ok] in *.
  - destruct fuel as [|fuel]; [cbn in Hf; lia|]. destruct Hp as [H1 H2]. exists fuel. split; [cbn; lia|]. cbn.
    by rewrite (proj2 (Z.eqb_neq c 34)), (proj2 (Z.eqb_neq c 47)) by done.
  - destruct fuel as [|fuel]; [cbn in Hf; lia|]. cbn [app length] in Hf. exists (fuel - length (concat (map char_text body) ++ [34%Z]))%nat. split; [cbn; lia|].
    cbn [app cleaned_fuel]. rewrite <- app_assoc. rewrite cleaned_string by (done || lia). done.
  - destruct fuel as [|fuel]; [cbn in Hf; lia|]. exists fuel. split; [cbn; lia|]. cbn [app cleaned_fuel]. rewrite bool_decide_true by done. cbn [andb Z.eqb Pos.eqb tail].
    change (47 =? 34) with false. cbn [app]. rewrite <- app_assoc. rewrite skip_block_body by (done || by left). done.
  - destruct fuel as [|fuel]; [cbn in Hf; lia|]. exists fuel. split; [cbn; lia|]. cbn [app cleaned_fuel]. rewrite (bool_decide_false (head _ = Some 42)) by done.
    rewrite bool_decide_true by done. cbn [andb tail]. change (47 =? 34) with false. cbn [app andb]. change (47 =? 47) with true. cbn [andb].
    rewrite <- app_assoc. change (skip_line (47 :: ?s)) with (skip_line s). by rewrite skip_line_body.
Qed.

(** A comment is blank and nothing else is changed.  The user's file is read with a blank in the
    place of each comment and everything else as it is, also what looks like a comment in a string. *)
Theorem comments_are_blank ps : Forall piece_ok ps -> cleaned (concat (map piece_text ps)) = concat (map piece_kept ps).
Proof.
  unfold cleaned. generalize (le_n (length (concat (map piece_text ps)))). generalize (length (concat (map piece_text ps))) at 2 3 as fuel. 
  induction ps as [|p ps IH]; intros fuel Hf Hps; cbn [map concat] in *; [by destruct fuel|].
  apply Forall_cons in Hps as [Hp Hps]. rewrite length_app in Hf. destruct (cleaned_piece p (concat (map piece_text ps)) fuel Hp ltac:(lia)) as (fuel' & Hf' & ->).
  f_equal. apply IH; [lia|done].
Qed.

(** ** Witnesses *)

Section examples.
Local Existing Instance ascii_case.
(** A file of the user's that spells the proxy twice, and names an interface. *)
Definition users_file : Fields := [(lit "UpstreamProxyURL", JStr (lit "mine")); (lit "listeninterface", JStr (lit "eth0")); (lit "upstreamproxyurl", JStr [])].
Local Instance one_file : PsiphonJson := {| value_of_json _ := inr (JObj users_file); json_to_string _ := inr []; base64_encode s := s |}.
Definition example_env (name : bytes) : option bytes := if bool_decide (name = lit "AETHER_PSIPHON_CONFIG") then Some (lit "mine.json") else None.
Definition carried : Fields :=
  match config_fields id example_env (lit "Linux_aether") (fun _ => inr []) (lit "aether-psiphon") BEHIND_HELD None (Some (lit "socks5://127.0.0.1:1819")) BehindHeld with
  | Ok m => m
  | _ => []
  end.

Lemma psiphon_stays_behind_witness :
  get (lit "listeninterface") carried = None /\ (forall key, key ∈ map fst carried -> eq_ignore_ascii_case key (lit "ListenInterface") = false).
Proof.
  split; [vm_compute; reflexivity|].
  apply (psiphon_stays_behind id example_env (lit "Linux_aether") (fun _ => inr []) (lit "aether-psiphon") BEHIND_HELD None (Some (lit "socks5://127.0.0.1:1819")) carried).
  vm_compute. reflexivity.
Defined.

(** Another spelling of a key of the core's own, which Psiphon reads regardless of case, stays after
    it, so that the proxy it is to dial through is not the one it reads last. *)
Example proxy_spelled_twice :
  List.filter (fun '(key, _) => eq_ignore_ascii_case key (lit "UpstreamProxyURL")) carried =
    [(lit "UpstreamProxyURL", JStr (lit "socks5://127.0.0.1:1819")); (lit "upstreamproxyurl", JStr [])].
Proof. vm_compute. reflexivity. Qed.

(** Dialled on its own address, with an interface named in the user's file only, Psiphon is looked for
    on loopback, where it does not listen. *)
Example interface_of_the_file :
  let socks := mkSocketAddr (V4 2130706433) 1821 in
  match config_fields id example_env (lit "Linux_aether") (fun _ => inr []) (lit "aether-psiphon") socks None None Dialled with
  | Ok m => get (lit "listeninterface") m = Some (JStr (lit "eth0"))
  | _ => False
  end /\ r_socks (running example_env socks None Dialled (mkUp (Some 1821) None true)) = socks.
Proof. vm_compute. done. Qed.

Definition example_events : list Event :=
  [Got (Noticed (lit "ListeningSocksProxyPort") (Some 40001) None); Got Unread; Got (Noticed (lit "Tunnels") None (Some 0)); Got (Noticed (lit "Tunnels") None (Some 1)); Late].
Lemma psiphon_ready_means_tunnel_witness :
  until_ready example_events up_start = Some (Ok (mkUp (Some 40001) None true)) /\
  exists ls rest c, example_events = map Got ls ++ rest /\ last_count ls None = Some c /\ 0 < c /\ Some 40001 = last_port ls None /\ is_Some (Some 40001) /\
    forall k, (k < length ls)%nat -> is_ready (heard (take k ls)) = false.
Proof. split; [reflexivity|]. exact (proj1 (psiphon_ready_means_tunnel example_events) (mkUp (Some 40001) None true) eq_refl). Defined.

Lemma comments_are_blank_witness :
  cleaned (concat (map piece_text [Bare 123; Quoted [Plain 47; Plain 47; Escaped 34]; Block (lit " * "); Rest (lit " end"); Bare 125]))
  = concat (map piece_kept [Bare 123; Quoted [Plain 47; Plain 47; Escaped 34]; Block (lit " * "); Rest (lit " end"); Bare 125]).
Proof. apply comments_are_blank. repeat (constructor; [first [reflexivity|split; discriminate|repeat (constructor; [first [exact I|split; discriminate]|]); constructor]|]). constructor. Defined.
End examples.

End Psiphon.
